(* ===== verification/_CoqProject ===== *)
-Q . S2P
Prelude.v
Merkle.v
Cosign.v
AuditStore.v
AuditLog.v
GF256.v
Shamir.v
AppModel.v
AppDedup.v
Order.v
AppSchema.v
AppInvariants.v
AppLedger.v
AppOps.v
AppImport.v
AppProofs.v
AppSample.v
AppTheorems.v
AppOpTheorems.v
AppAuto.v
AppWitnesses.v
Composite.v
AllowlistV2.v
AllowlistCompile.v
AllowlistServe.v
AppPath.v
MiaAllowlist.v
AllowlistSync.v
AllowlistEndToEnd.v
AllowlistWitnesses.v
HostCache.v
Svid.v
HostAuth.v
HostWitnesses.v
HelperProto.v
ChildToken.v
CallerAuth.v
HelperServer.v
HelperEndToEnd.v
HelperWitnesses.v
AdminStore.v
AdminStoreProofs.v
AdminFactors.v
AdminGuard.v
AdminPolicy.v
AdminPolicyProofs.v
AdminKeys.v
AdminKeysProofs.v
AdminPassword.v
AdminState.v
AdminAuthz.v
AdminRuns.v
AdminFactorFlows.v
AdminService.v
AdminAccounts.v
AdminAuthzProofs.v
AdminServiceProofs.v
AdminSod.v
AdminLogin.v
AdminThrottle.v
AdminDemo.v
AdminRace.v
AdminWitnesses.v
Tpm.v
Rim.v
Attest.v
Fleet.v
AttestWitnesses.v
CmisState.v
CmisService.v
CmisExec.v
CmisProofs.v
CmisRenewal.v
CmisRevocation.v
CmisNode.v
CmisWitnesses.v
LegacyAllowlist.v
LegacyProofs.v
LegacyImport.v
LegacyWitnesses.v
