(* ===== verification/Prelude.v ===== *)
(** * FerroGate: a verification of its audit log, ledgers, attestation, credentials and agent

    FerroGate issues machine and application identities.  An administrator approves an
    application in a replicated ledger; the identity server (cmis) compiles the live
    approvals of a host into a signed allowlist; the host's agent (mia) syncs that list,
    authenticates the local processes that call its helper socket against the kernel, and
    mints short-lived child tokens for the ones the list admits, under a host SVID the
    server issued and can revoke; relying parties verify the tokens.  What the server does
    goes into a tamper-evident audit log.  These parts are modelled here:

    - the audit log (src/crates/ferro-audit): a Merkle tree over the events, a write-once
      store on disk, signed and co-signed tree heads, and the log that ties them together
      across failures and restarts;
    - the threshold sharing of the cluster key (src/crates/ferro-tee);
    - the app approval ledger (src/crates/ferro-raft/src/apps): a replicated SQLite database
      whose triggers and guarded transactions decide which executables may obtain an
      identity, for which user and until when;
    - composite signatures (src/crates/ferro-crypto) and what is signed with them: allowlists,
      SVIDs, revocation lists (src/crates/ferro-svid) and child tokens;
    - the server's side of a host: compiling and serving allowlists (src/crates/cmis/src/apps),
      revocation (state.rs) and the authentication of host calls (host_auth.rs);
    - the agent: its allowlist and the sync with the server, canonical paths
      (src/crates/ferro-appid), caller authentication, the helper protocol and server, the
      minter and the revocation gate (src/crates/mia/src/helper);
    - the reference verifiers of SVIDs and child tokens (src/crates/ferro-svid-verify,
      src/crates/ferro-child-verify).
    - the administrators (src/crates/cmis/src/admin over src/crates/ferro-raft/src/admin.rs):
      accounts, groups, second factors, sessions and enrollment in replicated tables, the
      layer that authorizes every call, and the handlers that change them;
    - the identity server's attestation of hosts (src/crates/ferro-attest, ferro-machineid,
      and cmis/src: service.rs, state.rs, cluster_store.rs, fleet_manifest.rs): the verification
      of TPM quotes and of host keys, reference measurements, fleet enrolment, and the
      handlers that issue, renew, revoke and publish;
    - the migration from the first allowlist format (cmis/src/apps: v1.rs, proposals.rs;
      ferro-raft/src/apps/legacy.rs): bodies for old agents, their proposals, the import.

    ** Files

    - Prelude (this file): bytes, the [result] type and its notation, arithmetic of halving
      used by the tree, and [map_evolves], the relation of tables that only grow.
    - Merkle: merkle.rs.  [mth], [path], [subproof] build the tree and its proofs;
      [verify_inclusion] and [verify_consistency] are the loops of the verifier.
    - Cosign: sth.rs and cosign.rs.  Tree heads, keysets, quorum signing and its
      verification; the class [SthCodecLaws] is what the encodings promise.
    - AuditStore: store.rs.  The trait is the class [AuditStore], its contract the class
      [WormStore], and [LocalDiskWormStore] the instance that discharges it, over a file
      system in which any call may fail ([disk_worm]).
    - AuditLog: log.rs, proved against [WormStore].  [log_step] is one call under the log's
      mutex, or a restart; [log_inv] the invariant of every reachable state.
    - GF256 and Shamir: shamir.rs, and the reconstruction of key.rs and cluster.rs.
    - AppModel, AppDedup: model.rs.  Rows as records, enums with their stored codes, the
      deduplication key.
    - AppSchema: schema.rs.  Every CHECK, UNIQUE constraint and trigger as a boolean, and
      the single-row writes that evaluate them ([insert_*], [update_*]).
    - AppInvariants: the writes the schema accepts as the step relation [sql_write], the
      evolution order [db_evolves] and the invariant [ledger_inv].
    - AppLedger: mod.rs, reads.rs, generation.rs.  Transactions and the generation of a
      host's allowlist.
    - AppOps: intake.rs, decisions.rs, approvals.rs.  Each operation as the statements it
      builds and the transaction that runs them.
    - AppProofs: [ledger_step], one operation on the ledger; the class [StmtClosed] and the
      lemma that every operation respects such a relation; what statements leave alone.
    - AppTheorems, AppOpTheorems, AppAuto: the theorems on histories, on single operations
      and on auto-approval.
    - AppSample, AppWitnesses: a concrete history and the theorems applied to it.
    - Order: lexicographic order of byte strings, for sorted entries.
    - Composite: composite.rs.  The record [Primitives] holds the cryptographic libraries,
      the class [PrimitiveLaws] what is relied on; [toy_primitives] is an instance of both.
    - AllowlistV2: allowlist.rs and allowlist_v2.rs, both signed formats.
    - AllowlistCompile: cmis/src/apps (compile.rs, mode.rs).  A call to [serve] is a program
      of calls to the replicated store ([prog]), each atomic.
    - AllowlistServe: the system of the ledger and any number of concurrent [serve] calls
      as the step relation [sys_step].
    - AppPath: path.rs and platform.rs, the canonical spelling of paths.
    - MiaAllowlist: mia/src/helper/allowlist.rs, loading and the permission check.
    - AllowlistSync: mia/src/allowlist_sync, one [tick] with every outcome, and restarts.
    - AllowlistEndToEnd, AllowlistWitnesses: from the ledger to the agent's decision.
    - HostCache: the replay cache and the rate limiters of host_auth.rs.
    - Svid: SVIDs, key sets, revocation lists, issuance, renewal and verification.
    - HostAuth: host_call.rs, ferro-sep's verification and [authenticate]; [node_step]
      interleaves concurrent calls between their locks.
    - HostWitnesses: a concrete host.
    - HelperProto: mia-helper-proto, the messages and frames of the helper socket.
    - ChildToken: token.rs, crl.rs and ferro-child-verify.
    - CallerAuth: auth.rs and exe_path.rs over a record [Os] of the system's answers.
    - HelperServer: server/mod.rs.  [process_request] is the pipeline, [helper_step] the
      requests interleaved with swaps of SVID, allowlist and revocation list; a request
      holds the read guard of the minter from the check of the SVID to its answer.
    - HelperEndToEnd, HelperWitnesses: from an approval to a verified token.
    - AdminStore: ferro-raft/src/admin.rs.  Tables, statements with their WHERE clauses, the
      accessors, and [AdminOp], the calls that write, as data.
    - AdminStoreProofs, AdminFactors, AdminGuard: what every history of such calls keeps:
      records that are final, second factors, an account administrator.
    - AdminPolicy, AdminPolicyProofs: session.rs, throttle.rs, totp.rs, the tables of authz.rs.
    - AdminKeys, AdminKeysProofs: keys.rs, codec.rs, tokens, and the nonces of state.rs.
    - AdminPassword: password.rs.  Argon2 and the Unicode tables are records.
    - AdminState: state.rs.  A flow is a [prog]: calls of the store, accesses to the node's
      memory, readings of the clock, random bytes, jobs of the hasher and audit events.
    - AdminAuthz, AdminFactorFlows, AdminService, AdminAccounts: authz.rs and layer.rs,
      factors.rs, service.rs, bootstrap.rs, one definition per handler.
    - AdminRuns: [run O], what a flow may answer among any calls of others, with store calls
      lost or executed without an answer, where [O] holds of every time the clock showed it,
      every memory and every pair of stores it went through: a theorem for every [O] pins the
      times and rows it speaks of to what the flow saw; [exec], the flow alone; [sys_step],
      any number of flows on any number of nodes.
    - AdminAuthzProofs, AdminServiceProofs, AdminSod, AdminLogin, AdminThrottle, AdminRace:
      the theorems on these runs.  The hint database flows shows of each handler that it
      touches the store through accessors only.
    - AdminDemo, AdminWitnesses: a concrete plane and the theorems applied to it.
    - Tpm: tpm.rs and aik.rs, the parsers over a byte reader, against marshalled structures.
    - Rim: rim.rs, rim_bundle.rs, rim_loader.rs, the store of measurements and its reloads.
    - Attest: vendor.rs, verify.rs, host_key.rs and ferro-machineid; [quote_facts] is the
      specification of an accepted quote.
    - Fleet: fleet_manifest.rs, enrolment and pre-registered machine keys.
    - AttestWitnesses: one TPM, one host key, one bundle, one manifest.
    - CmisState: state.rs, cluster_store.rs, pcr.rs and the events of ferro-audit.  A handler
      is a [flow]: a tree of calls to the node's memory, the table of issued SVIDs, the
      clock, the random generator, the audit log and the stream of messages.
    - CmisService: service.rs, one definition per handler.
    - CmisExec: [exec], the executions of a flow as traces of events, each with the memory or
      table of its moment and nothing assumed of what happens between; [chained], histories
      in one memory and table; [play], an interpreter that gives executions.
    - CmisProofs, CmisRenewal, CmisRevocation, CmisNode: the theorems on executions of the
      handshakes, of renewals, of revocation and forwarding, and on the life of a node.
    - CmisWitnesses: runs of the handlers on a concrete node.
    - AppImport: apps/legacy.rs, the import of legacy bodies into the ledger; an operation of
      [ledger_step], so the theorems on histories of the ledger cover it.
    - LegacyAllowlist: the calls of agents of the first allowlist format (service.rs, with
      state.rs, apps/v1.rs, apps/proposals.rs and the risk flags of apps/intake.rs).  A handler
      is a [task]: a tree of calls to the node's memory, the store, the audit log.
    - LegacyProofs, LegacyImport, LegacyWitnesses: the theorems on executions of these calls,
      on the import against the legacy body, and concrete runs.

    ** What the theorems show

    Merkle: each leaf and each prefix of each tree has a proof, the verifier accepts it, and
    what the verifier accepts is true of the trees whose roots it was given, unless two
    different strings that were actually hashed collide under SHA3-384.

    AuditLog: over every run with I/O failures and restarts the log only grows; a published
    head stays consistent with every later state, provably; a resumed log has the events
    its newest head was signed over; no operation changes an existing file; a failed append
    leaves the tree as it was ([torn_append_blocks_log] says what it leaves on disk).

    Cosign: an accepted head carries threshold-many valid signatures of distinct keys.

    Shamir: threshold-many shares give the secret back, fewer are consistent with every
    secret, and [combine] fails exactly on malformed shares.  GF(2^8) is proved a field.

    Ledger, against every program that writes through the schema: REVOKED is final, what an
    approval authorizes never changes and its scope only narrows, a request is decided
    once, a revoked or denied hash is never auto-approved again, every approval descends
    from an administrator's (or the legacy import), versions are backed by revision
    records, revisions are dense, references resolve, generations do not decrease.  The
    operations are sequences of such writes ([operations_refine_guarded_writes]), whatever
    they had read before their transaction, and the theorems on single operations say
    what each writes and on which conditions.

    Allowlists: over every interleaving of serving calls, two bodies of one generation have
    the same entries, and every entry comes from an approval live at the time; an agent
    never replaces its list by an older generation while it runs ([restart_can_roll_back]
    says what a restart does), starts closed without a valid list, and admits exactly the
    callers an entry describes, each of whom was approved in the ledger.

    Credentials: an issued SVID verifies exactly in its window; after a revocation every
    published list makes the verifier refuse it; an authenticated host call is signed by
    the key of a valid SVID, is fresh, and is not accepted twice before its nonce expires
    ([replay_accepted_at_boundary] is the one second in which it is); limits hold over any
    window.

    Agent: an identity on Linux is the kernel's, with the digest of the open image and an
    IMA measurement of it; a token is only answered to an admitted caller under an
    unexpired, unrevoked SVID, whatever is swapped meanwhile, with exactly one audit event;
    a revocation stops minting within 300 seconds; a minted token verifies exactly until
    it expires and only with proofs of one key; and the actor of a verified token was
    approved in the ledger ([token_actor_was_approved]).
    Administrators: a login answers a session only after the password and a second factor
    that the store used up, past the locks, with a nonce for this address; a call reaches a
    session handler only with a live session, its permission and its step-up; revoked
    sessions stay refused; accounts, credentials and factors change only with a fresh
    factor; nobody changes their own role, and under the strict policy no account has both;
    a code works once; guesses are bounded per hour.  [stale_target_unguarded] and
    [nonce_redeemed_twice] are the two cases in which the code does less than it says.

    Attestation: the parsers accept exactly the marshalled structures; an accepted quote has
    a chain to a trusted root, a restricted key, the nonce sent, a signature and a PCR digest
    approved by a signed generation; measurements and enrolment only come from signed files
    and never go back.  An SVID leaves the server only at the end of a complete handshake
    with a host that is enrolled and not revoked; a renewal needs the key and the latest
    SVID of a host-key host, and of two that race one lands; pins never change; an
    acknowledged revocation is in the published list and the verifier refuses the host; a
    host is let back only on record; hosts log only their own events.  [child_key_forges_svid],
    [acknowledged_revocation_unpublished], [quote_capacity_unbounded] and
    [rim_retains_six_in_all] are the cases in which the code does less than it says.

    First format: every change of its tables is accounted to an operator or to a proposal
    signed with the host's key, and bodies change only outside approvals mode; a v1 body
    compiled from approvals admits no caller they do not admit; importing a legacy body
    leaves the callers it admits as they were.  [bootstrap_overwrites_list] is the case in
    which a proposal replaces a list it should queue behind.

    ** Modelling choices

    Hash functions, signatures, base64, CBOR, JSON, the Unicode tables and the operating
    system are parameters, with the laws a theorem needs as hypotheses or classes; every
    such theorem is applied to a concrete instance.  Row integers (i64, u32) are [Z]; the
    arithmetic on versions and generations is plus one and far from 2^63, and arithmetic
    on times taken from messages or clocks wraps ([wrap_i64], a release build) or saturates
    ([sat_i64]) as the source has it.  Text is a byte string, and lengths in characters
    count the bytes that start a UTF-8 sequence.

    A read of the local replica is a read of some store.  Where an execution relates the
    stores of two events in no way ([exec] of LegacyProofs, [run] among the calls of others)
    a lagging replica is covered; [chained] histories are those without lag.  The number of
    a revocation list (u64) is plus one per publication.

    A ledger operation takes the database its reads saw ([rd]) and the one its transaction
    runs on ([d]).  The reads an operation makes after its transaction see what that
    transaction left.  All reads of one operation before its transaction see one database.

    Loops that are not structural take fuel, and the lemmas *_fuel_enough, [replay_total]
    and [log_new_terminates] show that the fuel given is enough: the tree functions recurse
    on parts of the leaves and take their number; the shifting loops halve their argument
    and take it; the replay of a log takes the number of leaves the store may hold.  The
    retries of [app_try_auto_approve] and of [serve] are those of the source.

    Concurrency is interleaving: a step is what a thread does between two lock operations
    or one call of the replicated store, and the theorems quantify over every sequence of
    steps of all threads together with the background tasks.  The mutexes that make logins
    sharing a throttling key wait for each other on a node are not modelled: more
    interleavings are allowed than the code has.

    ** What is not modelled

    Reading rows from the SQL driver (rows are typed here), listing and search queries, the
    parsing and signature checks of WebAuthn, the administrators' calls on the approval
    ledger, the submission call of agents around the ledger's intake, replication by Raft, encryption and TLS, the X.509 profile, TEE attestation, the wrapping
    of credentials for a TPM, collecting the identifiers of a machine, sockets, timers and
    configuration, and the user interfaces.  Deletes are refused by a trigger on every
    ledger table and have no write here. *)
From stdpp Require Export base strings vector numbers gmap list.
From Stdlib Require Strings.Byte.
#[export] Set Warnings "-clear-no-such-hyp".

(** * Bytes: Rust's [u8] is the Standard Library's [byte]. *)
Abbreviation u8 := Init.Byte.byte.

#[global] Instance u8_eq_dec : EqDecision u8 := Byte.byte_eq_dec.

Module u8.
(** Value of a byte, and the byte of an integer truncated to eight bits. *)
Definition to_Z (b : u8) : Z := Z.of_N (Byte.to_N b).
Definition of_Z (z : Z) : u8 := default Byte.x00 (Byte.of_N (Z.to_N (z mod 256))).
(** The operators of [u8] the sources use. *)
Definition xor (a b : u8) : u8 := of_Z (Z.lxor (to_Z a) (to_Z b)).
Definition and (a b : u8) : u8 := of_Z (Z.land (to_Z a) (to_Z b)).
(** [a.wrapping_shl(1)] and [a >> 1]. *)
Definition wrapping_shl1 (a : u8) : u8 := of_Z (Z.shiftl (to_Z a) 1).
Definition shr1 (a : u8) : u8 := of_Z (Z.shiftr (to_Z a) 1).
(** The 256 bytes, for exhaustive checks. *)
Definition all : list u8 := of_Z <$> seqZ 0 256.

Lemma of_Z_to_Z b : of_Z (to_Z b) = b.
Proof. by destruct b. Qed.

Lemma to_Z_inj a b : to_Z a = to_Z b → a = b.
Proof. intros H. rewrite <- (of_Z_to_Z a), <- (of_Z_to_Z b). by rewrite H. Qed.

Lemma to_Z_range b : (0 ≤ to_Z b < 256)%Z.
Proof. unfold to_Z. pose proof (Byte.to_N_bounded b). lia. Qed.

Lemma elem_of_all b : b ∈ all.
Proof.
  apply list_elem_of_fmap. exists (to_Z b). rewrite of_Z_to_Z. split; [done|].
  apply elem_of_seqZ. pose proof (to_Z_range b). lia.
Qed.

(** A decidable property of one or two bytes holds when it evaluates to true on all. *)
Lemma forall1 (P : u8 → Prop) `{∀ a, Decision (P a)} :
  forallb (λ a, bool_decide (P a)) all = true → ∀ a, P a.
Proof.
  intros Hf a. rewrite forallb_forall in Hf. apply (bool_decide_eq_true_1 (P a)).
  apply Hf, list_elem_of_In, elem_of_all.
Qed.

Lemma forall2 (P : u8 → u8 → Prop) `{∀ a b, Decision (P a b)} :
  forallb (λ a, forallb (λ b, bool_decide (P a b)) all) all = true → ∀ a b, P a b.
Proof.
  intros Hf a. rewrite forallb_forall in Hf. apply (forall1 (P a)).
  apply Hf, list_elem_of_In, elem_of_all.
Qed.
End u8.

Lemma u8_of_Z_to_Z z : (u8.to_Z (u8.of_Z z) = z mod 256)%Z.
Proof.
  assert (∀ k, 0 ≤ k < 256 → u8.to_Z (u8.of_Z k) = k)%Z as H.
  { intros k Hk. assert (Forall (λ k, u8.to_Z (u8.of_Z k) = k) (seqZ 0 256)) as Hf by (vm_compute; repeat constructor).
    rewrite Forall_forall in Hf. apply Hf, elem_of_seqZ. lia. }
  pose proof (Z.mod_pos_bound z 256 ltac:(lia)). rewrite <- (H (z mod 256)%Z) by lia. f_equal. unfold u8.of_Z. by rewrite Z.mod_mod.
Qed.

(** * Fallible code: Rust's [Result]. *)
Inductive result (E A : Type) : Type :=
  | Ok (a : A)
  | Err (e : E).
Arguments Ok {E A} a.
Arguments Err {E A} e.

Declare Scope ferro_scope.
Delimit Scope ferro_scope with ferro.
Open Scope ferro_scope.

(** [let? x := e in k]: the [?] operator. *)
Notation "'let?' x ':=' e 'in' k" :=
  (match e with Ok x => k | Err err => Err err end)
  (at level 10, x pattern, e at level 100, k at level 200) : ferro_scope.

(** * Generic lemmas *)

(** Induction two elements at a time. *)
Lemma list_pair_ind {A} (P : list A → Prop) :
  P [] → (∀ a, P [a]) → (∀ a b l, P l → P (a :: b :: l)) → ∀ l, P l.
Proof.
  intros H0 H1 H2. fix IH 1. intros [|a [|b l]]; [done|done|]. apply H2, IH.
Qed.

(** Halves, in the forms the index arithmetic meets them. *)
Lemma even_or_odd (n : nat) : (∃ j, n = 2 * j) ∨ (∃ j, n = 2 * j + 1).
Proof. destruct (Nat.Even_or_Odd n) as [[j ->]|[j ->]]; eauto. Qed.

Lemma div2_double (j : nat) : Nat.div2 (2 * j) = j.
Proof. apply Nat.div2_double. Qed.
Lemma div2_double_1 (j : nat) : Nat.div2 (2 * j + 1) = j.
Proof. rewrite Nat.add_1_r. apply Nat.div2_succ_double. Qed.
Lemma even_double (j : nat) : Nat.even (2 * j) = true.
Proof. rewrite Nat.even_mul. done. Qed.
Lemma even_double_1 (j : nat) : Nat.even (2 * j + 1) = false.
Proof. rewrite Nat.even_add, even_double. done. Qed.

(** [n.div_ceil(2)], the size of the next level of a tree of [n] nodes. *)
Definition up (n : nat) : nat := Nat.div2 (S n).
Lemma up_spec n : 2 * up n = n ∨ 2 * up n = n + 1.
Proof.
  unfold up. destruct (even_or_odd n) as [[j ->]|[j ->]].
  - left. replace (S (2 * j)) with (2 * j + 1) by lia. rewrite div2_double_1. done.
  - right. replace (S (2 * j + 1)) with (2 * (j + 1)) by lia. rewrite div2_double. lia.
Qed.
Lemma div2_spec n : n = 2 * Nat.div2 n ∨ n = 2 * Nat.div2 n + 1.
Proof.
  destruct (even_or_odd n) as [[j ->]|[j ->]]; rewrite ?div2_double, ?div2_double_1; lia.
Qed.

Create Rewrite HintDb ferro_nat.
#[export] Hint Rewrite div2_double div2_double_1 even_double even_double_1 : ferro_nat.

(** Add the inequalities of every [Nat.div2] and [up] in sight, then call [lia]. *)
Ltac half_lia :=
  let learn P := let T := type of P in
    lazymatch goal with _ : T |- _ => fail | _ => pose proof P end in
  repeat match goal with
  | |- context [Nat.div2 ?n] => learn (div2_spec n)
  | _ : context [Nat.div2 ?n] |- _ => learn (div2_spec n)
  | |- context [up ?n] => learn (up_spec n)
  | _ : context [up ?n] |- _ => learn (up_spec n)
  end; lia.

(** * Tables that only grow *)

(** [map_evolves R m m']: every row of [m] is still in [m'], related by [R]. *)
Definition map_evolves {K A} `{Countable K} (R : relation A) (m m' : gmap K A) : Prop :=
  ∀ k x, m !! k = Some x → ∃ x', m' !! k = Some x' ∧ R x x'.

Section MapEvolves.
Context {K A : Type} `{Countable K} (R : relation A).

#[export] Instance map_evolves_refl `{!Reflexive R} : Reflexive (map_evolves (K := K) R).
Proof. intros m k x Hk. eauto. Qed.

#[export] Instance map_evolves_trans `{!Transitive R} : Transitive (map_evolves (K := K) R).
Proof.
  intros m1 m2 m3 H1 H2 k x Hk. destruct (H1 k x Hk) as (y & Hy & Rxy).
  destruct (H2 k y Hy) as (z & Hz & Ryz). exists z. split; [done|]. by etransitivity.
Qed.

Lemma map_evolves_insert `{!Reflexive R} (m : gmap K A) k x :
  m !! k = None → map_evolves R m (<[k := x]> m).
Proof.
  intros Hn k' x' Hk'. exists x'. split; [|done]. rewrite lookup_insert_ne; [done|congruence].
Qed.

Lemma map_evolves_update `{!Reflexive R} (m : gmap K A) k old new :
  m !! k = Some old → R old new → map_evolves R m (<[k := new]> m).
Proof.
  intros Ho HR k' x' Hk'. destruct (decide (k = k')) as [<-|Hne].
  - exists new. rewrite lookup_insert_eq. split; [done|]. congruence.
  - exists x'. by rewrite lookup_insert_ne.
Qed.
End MapEvolves.
