(* ===== verification/Merkle.v ===== *)
(** The RFC 6962 Merkle tree of the audit log (crates/ferro-audit/src/merkle.rs). *)
From S2P Require Import Prelude.

(** [HASH_LEN] and the domain-separation prefixes. *)
Definition HASH_LEN : nat := 48.
Definition LEAF_PREFIX : u8 := Byte.x00.
Definition NODE_PREFIX : u8 := Byte.x01.

(** A digest: the Rust array [[u8; HASH_LEN]]. *)
Abbreviation hash := (vec u8 HASH_LEN).

(** [[0u8; HASH_LEN]]. *)
Definition zero_hash : hash := vreplicate HASH_LEN Byte.x00.

Section Merkle.

(** SHA3-384 is the [sha3] crate's. *)
Context (sha3_384 : list u8 → hash).

(** The byte string [node_hash] feeds to SHA3-384. *)
Definition node_input (left right : hash) : list u8 :=
  NODE_PREFIX :: vec_to_list left ++ vec_to_list right.

Definition leaf_hash (data : list u8) : hash := sha3_384 (LEAF_PREFIX :: data).
Definition node_hash (left right : hash) : hash := sha3_384 (node_input left right).

(** [while k * 2 < n { k *= 2 }]; [n] iterations are enough because [k] doubles. *)
Fixpoint largest_pow2_loop (fuel k n : nat) : nat :=
  match fuel with
  | 0 => k
  | S fuel => if k * 2 <? n then largest_pow2_loop fuel (k * 2) n else k
  end.

Definition largest_pow2_below (n : nat) : nat := largest_pow2_loop n 1 n.

(** [mth], [path] and [subproof] recurse on strictly shorter slices; [length d]
    is enough fuel ([mth_eq], [path_eq], [subproof_eq]).  The empty slice, on
    which the Rust function panics and which no caller passes, gives [zero_hash]. *)
Fixpoint mth_fuel (fuel : nat) (d : list hash) : hash :=
  match fuel with
  | 0 => zero_hash
  | S fuel =>
      match d with
      | [] => zero_hash
      | [x] => x
      | _ =>
          let k := largest_pow2_below (length d) in
          node_hash (mth_fuel fuel (take k d)) (mth_fuel fuel (drop k d))
      end
  end.

Definition mth (d : list hash) : hash := mth_fuel (length d) d.

Fixpoint path_fuel (fuel m : nat) (d : list hash) : list hash :=
  match fuel with
  | 0 => []
  | S fuel =>
      let n := length d in
      if n <=? 1 then [] else
      let k := largest_pow2_below n in
      if m <? k
      then path_fuel fuel m (take k d) ++ [mth (drop k d)]
      else path_fuel fuel (m - k) (drop k d) ++ [mth (take k d)]
  end.

Definition path (m : nat) (d : list hash) : list hash := path_fuel (length d) m d.

Fixpoint subproof_fuel (fuel m : nat) (d : list hash) (b : bool) : list hash :=
  match fuel with
  | 0 => []
  | S fuel =>
      let n := length d in
      if m =? n then (if b then [] else [mth d]) else
      let k := largest_pow2_below n in
      if m <=? k
      then subproof_fuel fuel m (take k d) b ++ [mth (drop k d)]
      else subproof_fuel fuel (m - k) (drop k d) false ++ [mth (take k d)]
  end.

Definition subproof (m : nat) (d : list hash) (b : bool) : list hash :=
  subproof_fuel (length d) m d b.

Definition proof (m : nat) (d : list hash) : list hash := subproof m d true.

(** ** The tree *)
Record MerkleTree := { leaves : list hash }.

Definition new_tree : MerkleTree := {| leaves := [] |}.

(** [append]: the new tree and the index of the leaf. *)
Definition append (t : MerkleTree) (leaf : hash) : MerkleTree * nat :=
  ({| leaves := leaves t ++ [leaf] |}, length (leaves t)).

Definition len (t : MerkleTree) : nat := length (leaves t).
Definition is_empty (t : MerkleTree) : bool := len t =? 0.
Definition leaf (t : MerkleTree) (index : nat) : option hash := leaves t !! index.

Definition root (t : MerkleTree) : option hash :=
  if is_empty t then None else Some (mth (leaves t)).

Definition inclusion_proof (t : MerkleTree) (index : nat) : option (list hash) :=
  if len t <=? index then None else Some (path index (leaves t)).

Definition consistency_proof (t : MerkleTree) (old_size new_size : nat) : option (list hash) :=
  if (old_size =? 0) || (new_size <? old_size) || negb (new_size =? len t) then None
  else Some (proof old_size (take new_size (leaves t))).

(** ** Verifiers *)

(** [while fn_idx.is_multiple_of(2) { fn_idx >>= 1; sn >>= 1; }], entered with a
    positive even [fn_idx]: [fn_idx] halves, so [fn_idx] is enough fuel. *)
Fixpoint shift_even (fuel fn_idx sn : nat) : nat * nat :=
  match fuel with
  | 0 => (fn_idx, sn)
  | S fuel =>
      if Nat.even fn_idx then shift_even fuel (Nat.div2 fn_idx) (Nat.div2 sn)
      else (fn_idx, sn)
  end.

(** The [while sn > 0] loop of [verify_inclusion]: [None] is its early
    [return false]; otherwise the final [r] and what is left of [it]. *)
Fixpoint inclusion_loop (fuel fn_idx sn : nat) (r : hash) (it : list hash) :
    option (hash * list hash) :=
  if sn =? 0 then Some (r, it) else
  match fuel, it with
  | 0, _ | _, [] => None
  | S fuel, p :: it =>
      if negb (Nat.even fn_idx) || (fn_idx =? sn) then
        let r := node_hash p r in
        let '(fn_idx, sn) :=
          if Nat.even fn_idx then shift_even fn_idx fn_idx sn else (fn_idx, sn) in
        inclusion_loop fuel (Nat.div2 fn_idx) (Nat.div2 sn) r it
      else inclusion_loop fuel (Nat.div2 fn_idx) (Nat.div2 sn) (node_hash r p) it
  end.

Definition verify_inclusion (leaf : hash) (leaf_index tree_size : nat) (root : hash)
    (proof : list hash) : bool :=
  if tree_size <=? leaf_index then false else
  match inclusion_loop (tree_size - 1) leaf_index (tree_size - 1) leaf proof with
  | None => false
  | Some (r, it) => bool_decide (it = []) && bool_decide (r = root)
  end.

(** [while fn_idx % 2 == 1 { fn_idx >>= 1; sn >>= 1; }]. *)
Fixpoint shift_odd (fuel fn_idx sn : nat) : nat * nat :=
  match fuel with
  | 0 => (fn_idx, sn)
  | S fuel =>
      if Nat.odd fn_idx then shift_odd fuel (Nat.div2 fn_idx) (Nat.div2 sn)
      else (fn_idx, sn)
  end.

(** [while fn_idx.is_multiple_of(2) && fn_idx != 0 { .. }]. *)
Fixpoint shift_even_nz (fuel fn_idx sn : nat) : nat * nat :=
  match fuel with
  | 0 => (fn_idx, sn)
  | S fuel =>
      if Nat.even fn_idx && negb (fn_idx =? 0)
      then shift_even_nz fuel (Nat.div2 fn_idx) (Nat.div2 sn)
      else (fn_idx, sn)
  end.

Fixpoint consistency_loop (fuel fn_idx sn : nat) (fr sr : hash) (it : list hash) :
    option (hash * hash * list hash) :=
  if sn =? 0 then Some (fr, sr, it) else
  match fuel, it with
  | 0, _ | _, [] => None
  | S fuel, c :: it =>
      if negb (Nat.even fn_idx) || (fn_idx =? sn) then
        let fr := node_hash c fr in
        let sr := node_hash c sr in
        let '(fn_idx, sn) :=
          if Nat.even fn_idx then shift_even_nz fn_idx fn_idx sn else (fn_idx, sn) in
        consistency_loop fuel (Nat.div2 fn_idx) (Nat.div2 sn) fr sr it
      else consistency_loop fuel (Nat.div2 fn_idx) (Nat.div2 sn) fr (node_hash sr c) it
  end.

(** [usize::is_power_of_two]. *)
Definition is_power_of_two (n : nat) : bool := negb (n =? 0) && (2 ^ Nat.log2 n =? n).

Definition verify_consistency (old_size new_size : nat) (old_root new_root : hash)
    (proof : list hash) : bool :=
  if (old_size =? 0) || (new_size <? old_size) then false else
  if old_size =? new_size then bool_decide (proof = []) && bool_decide (old_root = new_root)
  else
  match
    (if is_power_of_two old_size && (old_size <=? new_size)
     then Some (old_root, old_root, proof)
     else match proof with [] => None | p :: ps => Some (p, p, ps) end)
  with
  | None => false
  | Some (fr, sr, proof_slice) =>
      let '(fn_idx, sn) := shift_odd old_size (old_size - 1) (new_size - 1) in
      match consistency_loop sn fn_idx sn fr sr proof_slice with
      | None => false
      | Some (fr, sr, it) =>
          bool_decide (it = []) && bool_decide (fr = old_root) && bool_decide (sr = new_root)
      end
  end.

(** ** Levels of a tree *)

(** The next level up: adjacent nodes are joined and a last odd one is promoted. *)
Fixpoint pairup (d : list hash) : list hash :=
  match d with
  | a :: b :: d => node_hash a b :: pairup d
  | _ => d
  end.

Lemma length_pairup d : length (pairup d) = up (length d).
Proof.
  unfold up. induction d as [| |a b d IH] using list_pair_ind; [done|done|].
  cbn [pairup length]. rewrite IH. done.
Qed.

Lemma pairup_take k d : pairup (take (2 * k) d) = take k (pairup d).
Proof.
  revert d. induction k as [|k IH]; intros d; [done|].
  replace (2 * S k) with (S (S (2 * k))) by lia.
  destruct d as [|a [|b d]]; [done|destruct k; done|]. cbn. by rewrite IH.
Qed.

Lemma pairup_drop k d : pairup (drop (2 * k) d) = drop k (pairup d).
Proof.
  revert d. induction k as [|k IH]; intros d; [done|].
  replace (2 * S k) with (S (S (2 * k))) by lia.
  destruct d as [|a [|b d]]; [by destruct k|destruct k; done|]. cbn. by rewrite IH.
Qed.

Lemma pairup_lookup_pair j d a b :
  d !! (2 * j) = Some a → d !! (2 * j + 1) = Some b → pairup d !! j = Some (node_hash a b).
Proof.
  revert d. induction j as [|j IH]; intros d Ha Hb.
  - destruct d as [|x [|y d]]; [done|done|]. by simplify_eq/=.
  - replace (2 * S j) with (S (S (2 * j))) in * by lia.
    destruct d as [|x [|y d]]; [done|done|]. cbn in *. apply IH; [done|].
    replace (j + (j + 0) + 1) with (2 * j + 1) in Hb by lia. done.
Qed.

Lemma pairup_lookup_last j d a :
  length d = 2 * j + 1 → d !! (2 * j) = Some a → pairup d !! j = Some a.
Proof.
  revert d. induction j as [|j IH]; intros d Hlen Ha.
  - destruct d as [|x [|y d]]; by simplify_eq/=.
  - replace (2 * S j) with (S (S (2 * j))) in * by lia.
    destruct d as [|x [|y d]]; [done|done|]. cbn in *. apply IH; [lia|done].
Qed.

(** ** The split point *)

Definition is_split (k n : nat) : Prop := (∃ e, k = 2 ^ e) ∧ k < n ∧ n ≤ 2 * k.

Lemma largest_pow2_loop_spec fuel k n :
  (∃ e, k = 2 ^ e) → k < n → n ≤ k + fuel → is_split (largest_pow2_loop fuel k n) n.
Proof.
  revert k. induction fuel as [|fuel IH]; intros k [e ->] Hlt Hle; [lia|].
  assert (0 < 2 ^ e) by (apply Nat.neq_0_lt_0, Nat.pow_nonzero; lia).
  cbn [largest_pow2_loop]. destruct (Nat.ltb_spec (2 ^ e * 2) n).
  - apply IH; [|done|lia]. exists (S e). cbn. lia.
  - split; [by eexists|lia].
Qed.

Lemma largest_pow2_below_spec n : 2 ≤ n → is_split (largest_pow2_below n) n.
Proof. intros. apply largest_pow2_loop_spec; [by exists 0|lia|lia]. Qed.

Lemma is_split_unique k k' n : is_split k n → is_split k' n → k = k'.
Proof.
  intros [[e ->] H] [[e' ->] H']. destruct (Nat.lt_trichotomy e e') as [Hl|[->|Hl]]; [|done|];
    exfalso; apply (Nat.pow_le_mono_r 2) in Hl; cbn in *; lia.
Qed.

Lemma largest_pow2_below_half n :
  3 ≤ n → largest_pow2_below n = 2 * largest_pow2_below (up n).
Proof.
  intros Hn. eapply is_split_unique; [apply largest_pow2_below_spec; lia|].
  destruct (largest_pow2_below_spec (up n)) as [[e He] H]; [half_lia|].
  split; [exists (S e); rewrite He, Nat.pow_succ_r'; lia|half_lia].
Qed.

(** [k] splits a list of [n >= 2] elements into two non-empty, shorter parts. *)
Lemma split_lengths (d : list hash) :
  2 ≤ length d →
  let k := largest_pow2_below (length d) in
  length (take k d) = k ∧ length (drop k d) = length d - k ∧ 1 ≤ k < length d.
Proof.
  intros Hn k. destruct (largest_pow2_below_spec (length d) Hn) as [[e He] H].
  fold k in He, H. assert (0 < 2 ^ e) by (apply Nat.neq_0_lt_0, Nat.pow_nonzero; lia).
  rewrite length_take, length_drop. lia.
Qed.

(** ** Defining equations, free of fuel *)

Lemma mth_fuel_S fuel d : 2 ≤ length d →
  mth_fuel (S fuel) d =
    node_hash (mth_fuel fuel (take (largest_pow2_below (length d)) d))
              (mth_fuel fuel (drop (largest_pow2_below (length d)) d)).
Proof. intros. destruct d as [|x [|y d]]; [cbn in *; lia..|done]. Qed.

Lemma mth_fuel_enough f1 f2 d :
  length d ≤ f1 → length d ≤ f2 → mth_fuel f1 d = mth_fuel f2 d.
Proof.
  revert f2 d. induction f1 as [|f1 IH]; intros f2 d H1 H2.
  { destruct d; [by destruct f2|cbn in *; lia]. }
  destruct f2 as [|f2]; [destruct d; [done|cbn in *; lia]|].
  destruct (decide (2 ≤ length d)); [|destruct d as [|x [|y d]]; [done|done|cbn in *; lia]].
  destruct (split_lengths d) as (? & ? & ?); [done|].
  rewrite !mth_fuel_S by done. f_equal; apply IH; lia.
Qed.

Lemma mth_singleton x : mth [x] = x.
Proof. done. Qed.

Lemma mth_eq d : 2 ≤ length d →
  mth d = node_hash (mth (take (largest_pow2_below (length d)) d))
                    (mth (drop (largest_pow2_below (length d)) d)).
Proof.
  intros Hn. destruct (split_lengths d Hn) as (? & ? & ?).
  unfold mth at 1. rewrite (mth_fuel_enough _ (S (length d))) by lia.
  rewrite mth_fuel_S by done. unfold mth. f_equal; apply mth_fuel_enough; lia.
Qed.

(** The root is computed level by level. *)
Lemma mth_pairup d : mth (pairup d) = mth d.
Proof.
  induction d as [d IH] using (induction_ltof1 _ (@length hash)). unfold ltof in IH.
  destruct d as [|x [|y d]]; [done|done|].
  destruct (decide (d = [])) as [->|Hd]; [done|].
  set (l := x :: y :: d) in *.
  assert (3 ≤ length l) by (destruct d; [done|cbn; lia]).
  destruct (split_lengths l ltac:(lia)) as (Ht & Hdr & Hk).
  rewrite (mth_eq l), (mth_eq (pairup l)) by (rewrite ?length_pairup; half_lia).
  rewrite length_pairup. pose proof (largest_pow2_below_half (length l) ltac:(lia)) as Hh.
  rewrite <- pairup_take, <- pairup_drop, <- Hh.
  rewrite !IH; [done|lia..].
Qed.

Lemma path_fuel_enough f1 f2 m d :
  length d ≤ f1 → length d ≤ f2 → path_fuel f1 m d = path_fuel f2 m d.
Proof.
  revert f2 m d. induction f1 as [|f1 IH]; intros f2 m d H1 H2.
  { destruct d; [by destruct f2|cbn in *; lia]. }
  destruct f2 as [|f2]; [destruct d; [done|cbn in *; lia]|].
  cbn [path_fuel]. destruct (Nat.leb_spec (length d) 1); [done|].
  destruct (split_lengths d) as (? & ? & ?); [lia|].
  destruct (_ <? _); f_equal; apply IH; lia.
Qed.

Lemma path_short m d : length d ≤ 1 → path m d = [].
Proof. intros. destruct d as [|x [|y d]]; [done|done|cbn in *; lia]. Qed.

Lemma path_eq m d : 2 ≤ length d →
  path m d =
    if m <? largest_pow2_below (length d)
    then path m (take (largest_pow2_below (length d)) d)
           ++ [mth (drop (largest_pow2_below (length d)) d)]
    else path (m - largest_pow2_below (length d)) (drop (largest_pow2_below (length d)) d)
           ++ [mth (take (largest_pow2_below (length d)) d)].
Proof.
  intros Hn. destruct (split_lengths d Hn) as (? & ? & ?).
  unfold path at 1. rewrite (path_fuel_enough _ (S (length d))) by lia. cbn [path_fuel].
  destruct (Nat.leb_spec (length d) 1); [lia|].
  unfold path. destruct (_ <? _); f_equal; apply path_fuel_enough; lia.
Qed.

(** ** Audit paths, level by level *)

(** The sibling of node [m], if its level has one. *)
Definition sibling (m : nat) (d : list hash) : list hash :=
  option_list (d !! (if Nat.even m then m + 1 else m - 1)).

Lemma sibling_take m k d : m < 2 * k → sibling m (take (2 * k) d) = sibling m d.
Proof.
  intros Hm. unfold sibling. destruct (even_or_odd m) as [[j ->]|[j ->]];
    autorewrite with ferro_nat; rewrite lookup_take_lt by lia; done.
Qed.

Lemma sibling_drop m k d : 2 * k ≤ m → sibling (m - 2 * k) (drop (2 * k) d) = sibling m d.
Proof.
  intros Hm. unfold sibling. rewrite lookup_drop. rewrite Nat.even_sub by done.
  rewrite even_double. destruct (even_or_odd m) as [[j ->]|[j ->]];
    autorewrite with ferro_nat; cbn [xorb negb eqb]; do 2 f_equal; lia.
Qed.

Lemma path_pairup m d : m < length d → path m d = sibling m d ++ path (Nat.div2 m) (pairup d).
Proof.
  revert m. induction d as [d IH] using (induction_ltof1 _ (@length hash)). unfold ltof in IH.
  intros m Hm. destruct (decide (length d ≤ 2)) as [Hs|Hl].
  { destruct d as [|x [|y [|z d]]]; [cbn in *; lia| | |cbn in *; lia];
      destruct m as [|[|m]]; try done; cbn in *; lia. }
  destruct (split_lengths d) as (Ht & Hd & Hk); [lia|].
  pose proof (largest_pow2_below_half (length d) ltac:(lia)) as Hh.
  rewrite (path_eq m d) by lia.
  rewrite (path_eq (Nat.div2 m) (pairup d)) by (rewrite length_pairup; half_lia).
  rewrite length_pairup. set (k := largest_pow2_below (up (length d))) in *. rewrite Hh in *.
  rewrite <- pairup_take, <- pairup_drop, !mth_pairup.
  destruct (Nat.ltb_spec m (2 * k)), (Nat.ltb_spec (Nat.div2 m) k); [|half_lia|half_lia|].
  - rewrite IH, sibling_take, app_assoc by lia. done.
  - rewrite IH, sibling_drop, app_assoc by lia. do 3 f_equal. half_lia.
Qed.

(** ** Completeness of inclusion proofs *)

Lemma shift_even_fuel f f' j :
  0 < j → j ≤ f → j ≤ f' → shift_even f j j = shift_even f' j j.
Proof.
  revert f f'. induction j as [j IH] using lt_wf_ind. intros f f' Hj Hf Hf'.
  destruct f as [|f]; [lia|]. destruct f' as [|f']; [lia|]. cbn [shift_even].
  destruct (even_or_odd j) as [[i ->]|[i ->]]; autorewrite with ferro_nat; [|done].
  apply IH; lia.
Qed.

Lemma shift_even_double j : 0 < j →
  shift_even (2 * j) (2 * j) (2 * j) = if Nat.even j then shift_even j j j else (j, j).
Proof.
  intros Hj. destruct (2 * j) as [|f] eqn:E; [lia|]. cbn [shift_even].
  rewrite <- E, even_double, div2_double. rewrite (shift_even_fuel f (S f) j) by lia.
  destruct (Nat.even j) eqn:Hev; [by apply shift_even_fuel; lia|]. cbn [shift_even]. by rewrite Hev.
Qed.

(** The last node of an odd level is promoted without touching the proof. *)
Lemma inclusion_loop_double fuel j r it : 0 < j →
  inclusion_loop (S fuel) (2 * j) (2 * j) r it = inclusion_loop (S fuel) j j r it.
Proof.
  intros Hj. cbn [inclusion_loop].
  destruct (Nat.eqb_spec (2 * j) 0), (Nat.eqb_spec j 0); [lia..|].
  destruct it as [|p it]; [done|]. rewrite !Nat.eqb_refl, !orb_true_r, even_double.
  by rewrite shift_even_double.
Qed.

(** One iteration of the verifier climbs one level of the tree. *)
Lemma inclusion_loop_level fuel m sn r it a b : 0 < sn → m ≤ sn →
  (if Nat.even m then m < sn ∧ a = r ∧ it !! 0 = Some b else it !! 0 = Some a ∧ b = r) →
  inclusion_loop (S fuel) m sn r it =
    inclusion_loop fuel (Nat.div2 m) (Nat.div2 sn) (node_hash a b) (tail it).
Proof.
  intros Hsn Hm Hsib. cbn [inclusion_loop]. destruct (Nat.eqb_spec sn 0); [lia|].
  destruct (Nat.even m) eqn:Hev; destruct it as [|p it].
  - destruct Hsib as (_ & _ & [=]).
  - destruct Hsib as (Hlt & -> & [= ->]). by destruct (Nat.eqb_spec m sn); [lia|].
  - destruct Hsib as ([=] & _).
  - by destruct Hsib as ([= ->] & ->).
Qed.

Lemma inclusion_loop_complete fuel m d x rest :
  d !! m = Some x → length d - 1 ≤ fuel →
  inclusion_loop fuel m (length d - 1) x (path m d ++ rest) = Some (mth d, rest).
Proof.
  revert fuel m x. induction d as [d IH] using (induction_ltof1 _ (@length hash)).
  unfold ltof in IH. intros fuel m x Hx Hf. pose proof (lookup_lt_Some _ _ _ Hx) as Hm.
  destruct (decide (length d = 1)) as [H1|H1].
  { destruct d as [|y [|z d]]; [cbn in *; lia| |cbn in *; lia].
    destruct m; [|cbn in *; lia]. destruct fuel; by simplify_eq/=. }
  destruct fuel as [|fuel]; [lia|].
  rewrite path_pairup, <- app_assoc by done.
  pose proof (length_pairup d) as Hlp.
  assert (Nat.div2 (length d - 1) = length (pairup d) - 1) as Hsn by (rewrite Hlp; half_lia).
  assert (length (pairup d) < length d) as Hlt by (rewrite Hlp; half_lia).
  unfold sibling. destruct (even_or_odd m) as [[j ->]|[j ->]]; autorewrite with ferro_nat.
  - destruct (d !! (2 * j + 1)) as [y|] eqn:Hy; cbn [option_list app].
    + pose proof (lookup_lt_Some _ _ _ Hy).
      rewrite (inclusion_loop_level _ _ _ _ _ x y), div2_double, Hsn by
        (try lia; rewrite even_double; split_and!; try done; lia).
      cbn [tail]. rewrite IH by (eauto using pairup_lookup_pair; lia). by rewrite mth_pairup.
    + apply lookup_ge_None in Hy.
      replace (length d - 1) with (2 * j) by lia. rewrite inclusion_loop_double by lia.
      replace j with (length (pairup d) - 1) at 2 by (rewrite Hlp; half_lia).
      rewrite IH; [by rewrite mth_pairup|done| |half_lia].
      apply pairup_lookup_last; [lia|done].
  - replace (2 * j + 1 - 1) with (2 * j) by lia.
    destruct (lookup_lt_is_Some_2 d (2 * j)) as [y Hy]; [lia|]. rewrite Hy. cbn [option_list app].
    rewrite (inclusion_loop_level _ _ _ _ _ y x), div2_double_1, Hsn by
      (try lia; rewrite even_double_1; done).
    cbn [tail]. rewrite IH by (eauto using pairup_lookup_pair; lia). by rewrite mth_pairup.
Qed.

(** ** What is hashed

    Soundness is stated relative to collisions of SHA3-384 among the strings that
    were actually hashed: those of the honest tree and those of the verifier. *)

(** The node preimages [mth] hashes on [d]. *)
Fixpoint mth_inputs_fuel (fuel : nat) (d : list hash) : list (list u8) :=
  match fuel with
  | 0 => []
  | S fuel =>
      if length d <=? 1 then [] else
      let k := largest_pow2_below (length d) in
      node_input (mth (take k d)) (mth (drop k d))
        :: mth_inputs_fuel fuel (take k d) ++ mth_inputs_fuel fuel (drop k d)
  end.
Definition mth_inputs (d : list hash) : list (list u8) := mth_inputs_fuel (length d) d.

(** The node preimages the loop of [verify_inclusion] hashes. *)
Fixpoint inclusion_inputs (fuel fn_idx sn : nat) (r : hash) (it : list hash) : list (list u8) :=
  if sn =? 0 then [] else
  match fuel, it with
  | 0, _ | _, [] => []
  | S fuel, p :: it =>
      if negb (Nat.even fn_idx) || (fn_idx =? sn) then
        let '(fn_idx, sn) :=
          if Nat.even fn_idx then shift_even fn_idx fn_idx sn else (fn_idx, sn) in
        node_input p r :: inclusion_inputs fuel (Nat.div2 fn_idx) (Nat.div2 sn) (node_hash p r) it
      else
        node_input r p :: inclusion_inputs fuel (Nat.div2 fn_idx) (Nat.div2 sn) (node_hash r p) it
  end.

(** Two different strings, one of each list, with the same digest. *)
Definition collision_between (xs ys : list (list u8)) : Prop :=
  ∃ x y, x ∈ xs ∧ y ∈ ys ∧ x ≠ y ∧ sha3_384 x = sha3_384 y.

Lemma collision_between_mono xs xs' ys ys' :
  xs ⊆ xs' → ys ⊆ ys' → collision_between xs ys → collision_between xs' ys'.
Proof. intros Hx Hy (x & y & ? & ? & ? & ?). exists x, y. auto. Qed.

Lemma node_input_inj l r l' r' : node_input l r = node_input l' r' → l = l' ∧ r = r'.
Proof.
  intros [= H]. apply app_inj_1 in H as [H1 H2]; [|by rewrite !length_vec_to_list].
  split; by apply vec_to_list_inj2.
Qed.

(** Equal node hashes: equal children, or a collision. *)
Lemma node_hash_eq l r l' r' xs ys :
  node_hash l r = node_hash l' r' → node_input l r ∈ xs → node_input l' r' ∈ ys →
  (l = l' ∧ r = r') ∨ collision_between xs ys.
Proof.
  intros H Hx Hy. destruct (decide (node_input l r = node_input l' r')) as [E|N].
  - left. by apply node_input_inj.
  - right. by exists (node_input l r), (node_input l' r').
Qed.

Lemma mth_inputs_fuel_enough f1 f2 d :
  length d ≤ f1 → length d ≤ f2 → mth_inputs_fuel f1 d = mth_inputs_fuel f2 d.
Proof.
  revert f2 d. induction f1 as [|f1 IH]; intros f2 d H1 H2.
  { destruct d; [by destruct f2|cbn in *; lia]. }
  destruct f2 as [|f2]; [destruct d; [done|cbn in *; lia]|].
  cbn [mth_inputs_fuel]. destruct (Nat.leb_spec (length d) 1); [done|].
  destruct (split_lengths d) as (? & ? & ?); [lia|]. do 2 f_equal; apply IH; lia.
Qed.

Lemma mth_inputs_eq d : 2 ≤ length d →
  mth_inputs d =
    node_input (mth (take (largest_pow2_below (length d)) d))
               (mth (drop (largest_pow2_below (length d)) d))
    :: mth_inputs (take (largest_pow2_below (length d)) d)
       ++ mth_inputs (drop (largest_pow2_below (length d)) d).
Proof.
  intros Hn. destruct (split_lengths d Hn) as (? & ? & ?).
  unfold mth_inputs at 1. rewrite (mth_inputs_fuel_enough _ (S (length d))) by lia.
  cbn [mth_inputs_fuel]. destruct (Nat.leb_spec (length d) 1); [lia|].
  unfold mth_inputs. do 2 f_equal; apply mth_inputs_fuel_enough; lia.
Qed.

(** The preimages of the upper levels, and of the pairs of the lowest one, are
    among those of the tree. *)
Lemma mth_inputs_pairup d : mth_inputs (pairup d) ⊆ mth_inputs d.
Proof.
  induction d as [d IH] using (induction_ltof1 _ (@length hash)). unfold ltof in IH.
  destruct (decide (length d ≤ 2)) as [Hs|Hl].
  { destruct d as [|x [|y [|z d]]]; [done|done| |cbn in *; lia]. cbn. set_solver. }
  destruct (split_lengths d) as (Ht & Hd & Hk); [lia|].
  pose proof (largest_pow2_below_half (length d) ltac:(lia)) as Hh.
  rewrite (mth_inputs_eq d), (mth_inputs_eq (pairup d)) by (rewrite ?length_pairup; half_lia).
  rewrite length_pairup. set (k := largest_pow2_below (up (length d))) in *. rewrite Hh in *.
  rewrite <- pairup_take, <- pairup_drop, !mth_pairup.
  pose proof (IH (take (2 * k) d) ltac:(lia)) as IHt.
  pose proof (IH (drop (2 * k) d) ltac:(lia)) as IHd.
  intros x. rewrite !elem_of_cons, !elem_of_app. intros [->|[Hx|Hx]]; auto.
Qed.

Lemma mth_inputs_pair j d a b :
  d !! (2 * j) = Some a → d !! (2 * j + 1) = Some b → node_input a b ∈ mth_inputs d.
Proof.
  revert j. induction d as [d IH] using (induction_ltof1 _ (@length hash)). unfold ltof in IH.
  intros j Ha Hb. pose proof (lookup_lt_Some _ _ _ Hb).
  destruct (decide (length d ≤ 2)) as [Hs|Hl].
  { destruct d as [|x [|y [|z d]]]; [cbn in *; lia..| |cbn in *; lia].
    destruct j; [|cbn in *; lia]. simplify_eq/=. set_solver. }
  destruct (split_lengths d) as (Ht & Hd & Hk); [lia|].
  rewrite mth_inputs_eq by lia.
  rewrite largest_pow2_below_half in * by lia.
  set (k := largest_pow2_below (up (length d))) in *.
  apply list_elem_of_further, elem_of_app. destruct (decide (j < k)).
  - left. apply (IH (take (2 * k) d) ltac:(lia) j); rewrite lookup_take_lt by lia; done.
  - right. apply (IH (drop (2 * k) d) ltac:(lia) (j - k)); rewrite lookup_drop;
      [rewrite <- Ha|rewrite <- Hb]; f_equal; lia.
Qed.

(** ** Soundness of inclusion proofs *)

Lemma inclusion_inputs_double fuel j r it : 0 < j →
  inclusion_inputs (S fuel) (2 * j) (2 * j) r it = inclusion_inputs (S fuel) j j r it.
Proof.
  intros Hj. cbn [inclusion_inputs].
  destruct (Nat.eqb_spec (2 * j) 0), (Nat.eqb_spec j 0); [lia..|].
  destruct it as [|p it]; [done|]. rewrite !Nat.eqb_refl, !orb_true_r, even_double.
  by rewrite shift_even_double.
Qed.

(** One level of an accepting run: the sibling read from the proof and the
    parent computed with it. *)
Lemma inclusion_loop_level_inv fuel m sn r it res : 0 < sn → (Nat.even m = true → m < sn) →
  inclusion_loop (S fuel) m sn r it = Some res →
  ∃ p it' a b, it = p :: it' ∧ (a, b) = (if Nat.even m then (r, p) else (p, r)) ∧
    inclusion_loop fuel (Nat.div2 m) (Nat.div2 sn) (node_hash a b) it' = Some res ∧
    inclusion_inputs (S fuel) m sn r it =
      node_input a b :: inclusion_inputs fuel (Nat.div2 m) (Nat.div2 sn) (node_hash a b) it'.
Proof.
  intros Hsn Hm. cbn [inclusion_loop inclusion_inputs].
  destruct (Nat.eqb_spec sn 0); [lia|]. destruct it as [|p it]; [done|].
  destruct (Nat.even m) eqn:Hev; cbn [negb orb].
  - destruct (Nat.eqb_spec m sn); [naive_solver lia|]. intros. by exists p, it, r, p.
  - intros. by exists p, it, p, r.
Qed.

Lemma inclusion_loop_sound fuel m d r it rest :
  m < length d →
  inclusion_loop fuel m (length d - 1) r it = Some (mth d, rest) →
  (d !! m = Some r ∧ it = path m d ++ rest)
  ∨ collision_between (inclusion_inputs fuel m (length d - 1) r it) (mth_inputs d).
Proof.
  revert fuel m r it. induction d as [d IH] using (induction_ltof1 _ (@length hash)).
  unfold ltof in IH. intros fuel m r it Hm Hl.
  destruct (decide (length d = 1)) as [H1|H1].
  { destruct d as [|y [|z d]]; [cbn in *; lia| |cbn in *; lia].
    destruct m; [|cbn in *; lia]. left. by destruct fuel; simplify_eq/=. }
  destruct fuel as [|fuel].
  { cbn in Hl. destruct (Nat.eqb_spec (length d - 1) 0); [lia|done]. }
  pose proof (length_pairup d) as Hlp. pose proof (mth_inputs_pairup d) as Hsub.
  assert (Nat.div2 (length d - 1) = length (pairup d) - 1) as Hsn by (rewrite Hlp; half_lia).
  assert (length (pairup d) < length d) as Hlt by (rewrite Hlp; half_lia).
  rewrite path_pairup by done. rewrite <- (mth_pairup d) in Hl.
  destruct (decide (Nat.even m = true ∧ m = length d - 1)) as [[Hev Hlast]|Hpair].
  - destruct (even_or_odd m) as [[j ->]|[j ->]]; [|by rewrite even_double_1 in Hev].
    rewrite <- Hlast in *. rewrite inclusion_loop_double in Hl by lia.
    rewrite inclusion_inputs_double by lia.
    assert (j = length (pairup d) - 1) as Hj by (rewrite Hlp; half_lia).
    rewrite Hj in Hl at 2. destruct (IH _ Hlt _ j _ _ ltac:(lia) Hl) as [[Hr ->]|Hc].
    + left. rewrite div2_double. unfold sibling. rewrite even_double.
      rewrite (lookup_ge_None_2 d (2 * j + 1)) by lia. split; [|done].
      destruct (lookup_lt_is_Some_2 d (2 * j)) as [y Hy]; [lia|].
      rewrite (pairup_lookup_last j d y) in Hr by (done || lia). congruence.
    + right. rewrite <- Hj in Hc. by eapply collision_between_mono; [..|exact Hc].
  - apply inclusion_loop_level_inv in Hl as (p & it' & a & b & -> & Hab & Hl & ->); [|lia|].
    2: { intros Hev. destruct (decide (m = length d - 1)); [naive_solver|lia]. }
    rewrite Hsn in Hl |- *.
    destruct (IH _ Hlt _ (Nat.div2 m) _ _ ltac:(half_lia) Hl) as [[Hr ->]|Hc].
    2: { right. eapply collision_between_mono; [..|exact Hc]; [set_solver|done]. }
    set (j := Nat.div2 m) in *.
    assert (m = if Nat.even m then 2 * j else 2 * j + 1) as Hmj.
    { subst j. destruct (even_or_odd m) as [[i ->]|[i ->]]; by autorewrite with ferro_nat. }
    assert (2 * j + 1 < length d) as Hj by (destruct (Nat.even m); lia || naive_solver lia).
    destruct (lookup_lt_is_Some_2 d (2 * j)) as [x Hx]; [lia|].
    destruct (lookup_lt_is_Some_2 d (2 * j + 1)) as [y Hy]; [lia|].
    rewrite (pairup_lookup_pair j d x y) in Hr by done. injection Hr as Hr.
    destruct (node_hash_eq _ _ _ _ (node_input a b :: inclusion_inputs fuel j
      (length (pairup d) - 1) (node_hash a b) (path j (pairup d) ++ rest)) (mth_inputs d)
      (eq_sym Hr)) as [[-> ->]|Hc]; [set_solver|by eapply mth_inputs_pair| |by right].
    left. unfold sibling. destruct (Nat.even m); simplify_eq.
    + rewrite Hmj, Hy. done.
    + rewrite Hmj. replace (2 * j + 1 - 1) with (2 * j) by lia. rewrite Hx. done.
Qed.

(** ** The shape of consistency proofs *)

Lemma subproof_fuel_enough f1 f2 m d b : 0 < m ≤ length d →
  length d ≤ f1 → length d ≤ f2 → subproof_fuel f1 m d b = subproof_fuel f2 m d b.
Proof.
  revert f2 m d b. induction f1 as [|f1 IH]; intros f2 m d b Hm H1 H2; [lia|].
  destruct f2 as [|f2]; [lia|]. cbn [subproof_fuel].
  destruct (Nat.eqb_spec m (length d)); [done|].
  destruct (split_lengths d) as (? & ? & ?); [lia|].
  destruct (Nat.leb_spec m (largest_pow2_below (length d))); f_equal; apply IH; lia.
Qed.

Lemma subproof_full d b : 0 < length d → subproof (length d) d b = if b then [] else [mth d].
Proof.
  intros. unfold subproof. destruct (length d) eqn:E; [lia|]. cbn [subproof_fuel].
  by rewrite E, Nat.eqb_refl.
Qed.

Lemma subproof_eq m d b : 0 < m < length d →
  subproof m d b =
    if m <=? largest_pow2_below (length d)
    then subproof m (take (largest_pow2_below (length d)) d) b
           ++ [mth (drop (largest_pow2_below (length d)) d)]
    else subproof (m - largest_pow2_below (length d)) (drop (largest_pow2_below (length d)) d) false
           ++ [mth (take (largest_pow2_below (length d)) d)].
Proof.
  intros Hn. destruct (split_lengths d ltac:(lia)) as (? & ? & ?).
  unfold subproof at 1. rewrite (subproof_fuel_enough _ (S (length d))) by lia. cbn [subproof_fuel].
  destruct (Nat.eqb_spec m (length d)); [lia|].
  unfold subproof. destruct (Nat.leb_spec m (largest_pow2_below (length d)));
    f_equal; apply subproof_fuel_enough; lia.
Qed.

(** An even prefix is a prefix of the next level. *)
Lemma subproof_pairup m d b : 0 < m → 2 * m ≤ length d →
  subproof (2 * m) d b = subproof m (pairup d) b.
Proof.
  revert m b. induction d as [d IH] using (induction_ltof1 _ (@length hash)). unfold ltof in IH.
  intros m b Hm Hle. pose proof (length_pairup d) as Hlp.
  destruct (decide (2 * m = length d)) as [He|Hne].
  { assert (m = length (pairup d)) as E by (rewrite Hlp; half_lia).
    rewrite He, E, !subproof_full, mth_pairup by lia. done. }
  destruct (split_lengths d) as (Ht & Hd & Hk); [lia|].
  rewrite (subproof_eq (2 * m) d), (subproof_eq m (pairup d)) by (rewrite ?Hlp; half_lia).
  rewrite Hlp. rewrite largest_pow2_below_half in * by lia.
  set (k := largest_pow2_below (up (length d))) in *.
  rewrite <- pairup_take, <- pairup_drop, !mth_pairup.
  destruct (Nat.leb_spec (2 * m) (2 * k)), (Nat.leb_spec m k); try lia.
  - rewrite IH by lia. done.
  - replace (2 * m - 2 * k) with (2 * (m - k)) by lia. rewrite IH by lia. done.
Qed.

(** An odd proper prefix: its last node, unless it is the whole old tree, then
    that node's audit path. *)
Lemma subproof_odd j d b x : 2 * j + 1 < length d → d !! (2 * j) = Some x →
  subproof (2 * j + 1) d b = (if b && (j =? 0) then [] else [x]) ++ path (2 * j) d.
Proof.
  revert j b x. induction d as [d IH] using (induction_ltof1 _ (@length hash)). unfold ltof in IH.
  intros j b x Hj Hx. destruct (split_lengths d) as (Ht & Hd & Hk); [lia|].
  rewrite subproof_eq, path_eq by lia.
  destruct (decide (length d = 2)) as [H2|H2].
  { destruct d as [|y [|z [|w d]]]; [cbn in *; lia..| |cbn in *; lia].
    destruct j; [|cbn in *; lia]. simplify_eq/=. by destruct b. }
  rewrite largest_pow2_below_half in * by lia.
  set (k := largest_pow2_below (up (length d))) in *.
  destruct (Nat.leb_spec (2 * j + 1) (2 * k)), (Nat.ltb_spec (2 * j) (2 * k)); try lia.
  - rewrite (IH (take (2 * k) d) ltac:(lia) j b x) by (rewrite ?lookup_take_lt; done || lia).
    by rewrite <- app_assoc.
  - replace (2 * j + 1 - 2 * k) with (2 * (j - k) + 1) by lia.
    replace (2 * j - 2 * k) with (2 * (j - k)) by lia.
    assert (drop (2 * k) d !! (2 * (j - k)) = Some x) as Hx'.
    { rewrite lookup_drop, <- Hx. f_equal. lia. }
    assert ((j =? 0) = false) as -> by (apply Nat.eqb_neq; lia). rewrite andb_false_r.
    rewrite (IH (drop (2 * k) d) ltac:(lia) (j - k) false x) by (done || lia).
    by rewrite <- app_assoc.
Qed.

(** ** The consistency verifier *)

(** The node preimages the loop of [verify_consistency] hashes. *)
Fixpoint consistency_loop_inputs (fuel fn_idx sn : nat) (fr sr : hash) (it : list hash) :
    list (list u8) :=
  if sn =? 0 then [] else
  match fuel, it with
  | 0, _ | _, [] => []
  | S fuel, c :: it =>
      if negb (Nat.even fn_idx) || (fn_idx =? sn) then
        let '(fn_idx, sn) :=
          if Nat.even fn_idx then shift_even_nz fn_idx fn_idx sn else (fn_idx, sn) in
        node_input c fr :: node_input c sr :: consistency_loop_inputs fuel
          (Nat.div2 fn_idx) (Nat.div2 sn) (node_hash c fr) (node_hash c sr) it
      else node_input sr c :: consistency_loop_inputs fuel
          (Nat.div2 fn_idx) (Nat.div2 sn) fr (node_hash sr c) it
  end.

(** The node preimages [verify_consistency] hashes. *)
Definition consistency_inputs (old_size new_size : nat) (old_root : hash) (proof : list hash) :
    list (list u8) :=
  let '(fn_idx, sn) := shift_odd old_size (old_size - 1) (new_size - 1) in
  if is_power_of_two old_size then consistency_loop_inputs sn fn_idx sn old_root old_root proof
  else match proof with
       | [] => []
       | p :: ps => consistency_loop_inputs sn fn_idx sn p p ps
       end.

Lemma shift_even_nz_eq fuel j : 0 < j → shift_even_nz fuel j j = shift_even fuel j j.
Proof.
  revert j. induction fuel as [|fuel IH]; intros j Hj; [done|]. cbn [shift_even shift_even_nz].
  destruct (Nat.eqb_spec j 0); [lia|]. rewrite andb_true_r.
  destruct (even_or_odd j) as [[i ->]|[i ->]]; autorewrite with ferro_nat; [|done]. apply IH. lia.
Qed.

(** The new root is recomputed exactly as [verify_inclusion] does. *)
Lemma consistency_loop_inclusion fuel fn_idx sn fr sr it fr' sr' rest :
  consistency_loop fuel fn_idx sn fr sr it = Some (fr', sr', rest) →
  inclusion_loop fuel fn_idx sn sr it = Some (sr', rest) ∧
  inclusion_inputs fuel fn_idx sn sr it ⊆ consistency_loop_inputs fuel fn_idx sn fr sr it.
Proof.
  revert fn_idx sn fr sr it. induction fuel as [|fuel IH]; intros fn_idx sn fr sr it;
    cbn [consistency_loop inclusion_loop inclusion_inputs consistency_loop_inputs];
    destruct (Nat.eqb_spec sn 0); try naive_solver.
  destruct it as [|c it]; [done|].
  destruct (Nat.even fn_idx) eqn:Hev; cbn [negb orb].
  - destruct (Nat.eqb_spec fn_idx sn) as [->|Hne].
    + rewrite shift_even_nz_eq by lia. destruct (shift_even sn sn sn).
      intros [? ?]%IH. split; [done|set_solver].
    + intros [? ?]%IH. split; [done|set_solver].
  - intros [? ?]%IH. split; [done|set_solver].
Qed.

Lemma consistency_loop_double fuel j fr sr it : 0 < j →
  consistency_loop (S fuel) (2 * j) (2 * j) fr sr it = consistency_loop (S fuel) j j fr sr it.
Proof.
  intros Hj. cbn [consistency_loop].
  destruct (Nat.eqb_spec (2 * j) 0), (Nat.eqb_spec j 0); [lia..|].
  destruct it as [|p it]; [done|]. rewrite !Nat.eqb_refl, !orb_true_r, even_double.
  by rewrite !shift_even_nz_eq, shift_even_double by lia.
Qed.

(** The old tree, seen from its last node [m]: the nodes before [m] are those of
    the new tree. *)
Lemma pairup_app_even l1 l2 j : length l1 = 2 * j → pairup (l1 ++ l2) = pairup l1 ++ pairup l2.
Proof.
  revert l1. induction j as [|j IH]; intros l1 Hl; [by destruct l1|].
  destruct l1 as [|a [|b l1]]; [done|cbn in *; lia|]. cbn. rewrite IH; [done|cbn in *; lia].
Qed.

Lemma pairup_old_even j d x : 2 * j ≤ length d →
  pairup (take (2 * j) d ++ [x]) = take j (pairup d) ++ [x].
Proof.
  intros. rewrite (pairup_app_even _ _ j) by (rewrite length_take; lia). by rewrite pairup_take.
Qed.

Lemma pairup_old_odd j d y x : d !! (2 * j) = Some y →
  pairup (take (2 * j + 1) d ++ [x]) = take j (pairup d) ++ [node_hash y x].
Proof.
  intros Hy. pose proof (lookup_lt_Some _ _ _ Hy).
  rewrite Nat.add_1_r, (take_S_r _ _ y), <- app_assoc by done.
  rewrite (pairup_app_even _ _ j) by (rewrite length_take; lia). by rewrite pairup_take.
Qed.

Lemma consistency_loop_complete fuel m d fr x rest :
  d !! m = Some x → length d - 1 ≤ fuel →
  consistency_loop fuel m (length d - 1) fr x (path m d ++ rest)
    = Some (mth (take m d ++ [fr]), mth d, rest).
Proof.
  revert fuel m fr x. induction d as [d IH] using (induction_ltof1 _ (@length hash)).
  unfold ltof in IH. intros fuel m fr x Hx Hf. pose proof (lookup_lt_Some _ _ _ Hx) as Hm.
  destruct (decide (length d = 1)) as [H1|H1].
  { destruct d as [|y [|z d]]; [cbn in *; lia| |cbn in *; lia].
    destruct m; [|cbn in *; lia]. destruct fuel; by simplify_eq/=. }
  destruct fuel as [|fuel]; [lia|].
  rewrite path_pairup, <- app_assoc by done.
  pose proof (length_pairup d) as Hlp.
  assert (Nat.div2 (length d - 1) = length (pairup d) - 1) as Hsn by (rewrite Hlp; half_lia).
  assert (length (pairup d) < length d) as Hlt by (rewrite Hlp; half_lia).
  rewrite <- (mth_pairup d), <- (mth_pairup (take m d ++ [fr])).
  unfold sibling. destruct (even_or_odd m) as [[j ->]|[j ->]]; autorewrite with ferro_nat.
  - rewrite pairup_old_even by lia.
    destruct (d !! (2 * j + 1)) as [y|] eqn:Hy.
    + pose proof (lookup_lt_Some _ _ _ Hy).
      change (option_list (Some y)) with [y]. cbn [app consistency_loop].
      destruct (Nat.eqb_spec (length d - 1) 0), (Nat.eqb_spec (2 * j) (length d - 1)); [lia..|].
      rewrite even_double, Hsn, div2_double. cbn [negb orb].
      by rewrite IH by (eauto using pairup_lookup_pair; lia).
    + apply lookup_ge_None in Hy.
      replace (length d - 1) with (2 * j) by lia. rewrite consistency_loop_double by lia.
      replace j with (length (pairup d) - 1) at 2 by (rewrite Hlp; half_lia).
      rewrite IH; [done|done| |half_lia]. apply pairup_lookup_last; [lia|done].
  - replace (2 * j + 1 - 1) with (2 * j) by lia.
    destruct (lookup_lt_is_Some_2 d (2 * j)) as [y Hy]; [lia|]. rewrite Hy.
    rewrite (pairup_old_odd _ _ y) by done.
    change (option_list (Some y)) with [y]. cbn [app consistency_loop].
    destruct (Nat.eqb_spec (length d - 1) 0); [lia|].
    rewrite even_double_1, Hsn, div2_double_1. cbn [negb orb].
    by rewrite IH by (eauto using pairup_lookup_pair; lia).
Qed.

Lemma is_power_of_two_double m : 0 < m → is_power_of_two (2 * m) = is_power_of_two m.
Proof.
  intros. unfold is_power_of_two. rewrite Nat.log2_double, Nat.pow_succ_r' by done.
  destruct (Nat.eqb_spec (2 * m) 0), (Nat.eqb_spec m 0); try lia.
  destruct (Nat.eqb_spec (2 * 2 ^ Nat.log2 m) (2 * m)), (Nat.eqb_spec (2 ^ Nat.log2 m) m); lia || done.
Qed.

Lemma is_power_of_two_odd j : is_power_of_two (2 * j + 1) = (j =? 0).
Proof.
  destruct (Nat.eqb_spec j 0) as [->|]; [done|]. unfold is_power_of_two.
  rewrite Nat.log2_succ_double, Nat.pow_succ_r' by lia.
  apply andb_false_intro2, Nat.eqb_neq. lia.
Qed.

Lemma shift_odd_fuel f f' fn_idx sn :
  fn_idx ≤ f → fn_idx ≤ f' → shift_odd f fn_idx sn = shift_odd f' fn_idx sn.
Proof.
  revert f f' sn. induction fn_idx as [n IH] using lt_wf_ind. intros f f' sn Hf Hf'.
  destruct f as [|f], f' as [|f']; cbn [shift_odd]; rewrite <- ?Nat.negb_even;
    destruct (even_or_odd n) as [[i ->]|[i ->]]; autorewrite with ferro_nat; try done; try lia.
  apply IH; lia.
Qed.

Lemma shift_odd_half m n : 0 < m → 0 < n →
  shift_odd (2 * m) (2 * m - 1) (n - 1) = shift_odd m (m - 1) (up n - 1).
Proof.
  intros Hm Hn. destruct (2 * m) as [|f] eqn:E; [lia|]. cbn [shift_odd].
  replace (S f - 1) with (2 * (m - 1) + 1) by lia.
  rewrite <- Nat.negb_even, even_double_1, div2_double_1. cbn [negb].
  replace (Nat.div2 (n - 1)) with (up n - 1) by half_lia. apply shift_odd_fuel; lia.
Qed.

Lemma shift_odd_even f j sn : shift_odd f (2 * j) sn = (2 * j, sn).
Proof. destruct f; [done|]. cbn [shift_odd]. by rewrite <- Nat.negb_even, even_double. Qed.

(** Both verifier and prover reduce an even old size to the next level. *)
Lemma verify_consistency_half m n old_root new_root p : 0 < m → 2 * m < n →
  verify_consistency (2 * m) n old_root new_root p
    = verify_consistency m (up n) old_root new_root p ∧
  consistency_inputs (2 * m) n old_root p = consistency_inputs m (up n) old_root p.
Proof.
  intros Hm Hn. assert (m < up n) by half_lia.
  unfold verify_consistency, consistency_inputs.
  rewrite shift_odd_half, is_power_of_two_double by lia.
  destruct (Nat.eqb_spec (2 * m) 0), (Nat.eqb_spec m 0), (Nat.ltb_spec n (2 * m)),
    (Nat.ltb_spec (up n) m), (Nat.eqb_spec (2 * m) n), (Nat.eqb_spec m (up n)),
    (Nat.leb_spec (2 * m) n), (Nat.leb_spec m (up n)); lia || done.
Qed.

Lemma verify_consistency_odd j (d : list hash) old_root new_root p : 2 * j + 1 < length d →
  let n := length d - 1 in
  verify_consistency (2 * j + 1) (length d) old_root new_root p =
    match (if j =? 0 then Some (old_root, p) else match p with [] => None | x :: p => Some (x, p) end)
    with
    | None => false
    | Some (seed, p) =>
        match consistency_loop n (2 * j) n seed seed p with
        | None => false
        | Some (fr, sr, it) =>
            bool_decide (it = []) && bool_decide (fr = old_root) && bool_decide (sr = new_root)
        end
    end.
Proof.
  intros Hj n. unfold verify_consistency.
  destruct (Nat.eqb_spec (2 * j + 1) 0), (Nat.ltb_spec (length d) (2 * j + 1)),
    (Nat.eqb_spec (2 * j + 1) (length d)), (Nat.leb_spec (2 * j + 1) (length d)); try lia.
  cbn [orb]. rewrite is_power_of_two_odd, andb_true_r.
  replace (2 * j + 1 - 1) with (2 * j) by lia. rewrite shift_odd_even.
  destruct (Nat.eqb_spec j 0); [done|]. by destruct p.
Qed.

Lemma verify_consistency_complete_aux m d : 0 < m ≤ length d →
  verify_consistency m (length d) (mth (take m d)) (mth d) (proof m d) = true.
Proof.
  revert m. induction d as [d IH] using (induction_ltof1 _ (@length hash)). unfold ltof in IH.
  intros m Hm. destruct (decide (m = length d)) as [->|Hne].
  { unfold verify_consistency, proof. rewrite Nat.ltb_irrefl, Nat.eqb_refl, subproof_full by lia.
    rewrite firstn_all. destruct (Nat.eqb_spec (length d) 0); [lia|]. cbn.
    by rewrite bool_decide_eq_true_2. }
  unfold proof. destruct (even_or_odd m) as [[j ->]|[j ->]].
  - rewrite (proj1 (verify_consistency_half j (length d) _ _ _ ltac:(lia) ltac:(lia))).
    rewrite subproof_pairup, <- length_pairup by lia.
    rewrite <- (mth_pairup d), <- (mth_pairup (take (2 * j) d)), pairup_take.
    apply IH; rewrite length_pairup; half_lia.
  - destruct (lookup_lt_is_Some_2 d (2 * j)) as [x Hx]; [lia|].
    rewrite verify_consistency_odd, (subproof_odd _ _ _ x) by (done || lia). cbn [andb].
    rewrite Nat.add_1_r, (take_S_r _ _ x) by done.
    pose proof (consistency_loop_complete (length d - 1) (2 * j) d x x [] Hx ltac:(lia)) as Hl.
    rewrite app_nil_r in Hl.
    destruct (Nat.eqb_spec j 0) as [->|].
    + cbn [app]. replace (mth (take (2 * 0) d ++ [x])) with x by done.
      change (mth (take (2 * 0) d ++ [x])) with x in Hl. rewrite Hl. by rewrite !bool_decide_eq_true_2.
    + cbn [app]. rewrite Hl. by rewrite !bool_decide_eq_true_2.
Qed.

(** ** Soundness of consistency proofs *)

Lemma verify_consistency_sound_aux m d old_root p : 0 < m ≤ length d →
  verify_consistency m (length d) old_root (mth d) p = true →
  old_root = mth (take m d)
  ∨ collision_between (consistency_inputs m (length d) old_root p) (mth_inputs d).
Proof.
  revert m. induction d as [d IH] using (induction_ltof1 _ (@length hash)). unfold ltof in IH.
  intros m Hm Hv. destruct (decide (m = length d)) as [->|Hne].
  { left. rewrite firstn_all. unfold verify_consistency in Hv. rewrite Nat.eqb_refl in Hv.
    destruct (_ || _); [done|]. by apply andb_prop in Hv as [_ ?%bool_decide_eq_true]. }
  destruct (even_or_odd m) as [[j ->]|[j ->]].
  - destruct (verify_consistency_half j (length d) old_root (mth d) p) as [Hh Hi]; [lia..|].
    rewrite Hh, <- (mth_pairup d), <- length_pairup in Hv.
    rewrite Hi, <- (mth_pairup (take (2 * j) d)), pairup_take, <- length_pairup.
    apply IH in Hv as [->|Hc]; [by left|right|rewrite length_pairup; half_lia..].
    eapply collision_between_mono; [..|exact Hc]; [done|apply mth_inputs_pairup].
  - rewrite verify_consistency_odd in Hv by lia. unfold consistency_inputs.
    replace (2 * j + 1 - 1) with (2 * j) by lia. rewrite shift_odd_even, is_power_of_two_odd.
    destruct (lookup_lt_is_Some_2 d (2 * j)) as [x Hx]; [lia|].
    assert (∃ seed q, (if j =? 0 then Some (old_root, p)
      else match p with [] => None | x :: p => Some (x, p) end) = Some (seed, q)) as (seed & q & Hs).
    { destruct (j =? 0); [by eauto|]. destruct p; [done|by eauto]. }
    rewrite Hs in Hv.
    destruct (consistency_loop _ _ _ seed seed q) as [[[fr sr] it]|] eqn:Hl; [|done].
    rewrite !andb_true_iff, !bool_decide_eq_true in Hv. destruct Hv as [[-> ->] ->].
    destruct (consistency_loop_inclusion _ _ _ _ _ _ _ _ _ Hl) as [Hincl Hsub].
    destruct (inclusion_loop_sound (length d - 1) (2 * j) d seed q [] ltac:(lia) Hincl) as [[Hseed ->]|Hc].
    + left. rewrite (consistency_loop_complete _ _ _ _ seed) in Hl by (done || lia).
      injection Hl as <-. by rewrite Nat.add_1_r, (take_S_r _ _ seed) by done.
    + right. eapply collision_between_mono; [|reflexivity|exact Hc].
      etrans; [exact Hsub|]. destruct (j =? 0); [by simplify_eq|]. by destruct p; simplify_eq.
Qed.

(** Equal roots of equally long lists: equal lists, or a collision. *)
Lemma mth_inj d d' : length d = length d' → mth d = mth d' →
  d = d' ∨ collision_between (mth_inputs d) (mth_inputs d').
Proof.
  revert d'. induction d as [d IH] using (induction_ltof1 _ (@length hash)). unfold ltof in IH.
  intros d' Hlen Hmth. destruct (decide (length d ≤ 1)) as [Hs|Hl].
  { left. destruct d as [|x [|y d]], d' as [|x' [|y' d']]; cbn in *; try lia; congruence. }
  destruct (split_lengths d) as (Ht & Hd & Hk); [lia|].
  destruct (split_lengths d') as (Ht' & Hd' & Hk'); [lia|].
  rewrite (mth_eq d), (mth_eq d') in Hmth by lia.
  rewrite (mth_inputs_eq d), (mth_inputs_eq d') by lia.
  rewrite <- Hlen in *. set (k := largest_pow2_below (length d)) in *.
  eapply node_hash_eq in Hmth as [[H1 H2]|?]; [|by right|apply list_elem_of_here..].
  apply IH in H1; [|lia..]. apply IH in H2; [|lia..].
  destruct H1 as [H1|Hc], H2 as [H2|Hc'].
  - left. rewrite <- (take_drop k d), <- (take_drop k d'). congruence.
  - right. eapply collision_between_mono; [..|exact Hc']; set_solver.
  - right. eapply collision_between_mono; [..|exact Hc]; set_solver.
  - right. eapply collision_between_mono; [..|exact Hc]; set_solver.
Qed.

(** ** Properties *)

Lemma root_Some t r : root t = Some r → 0 < len t ∧ r = mth (leaves t).
Proof.
  unfold root, is_empty. destruct (Nat.eqb_spec (len t) 0); [done|]. intros [= <-]. split; [lia|done].
Qed.

Lemma root_mth t : 0 < len t → root t = Some (mth (leaves t)).
Proof. unfold root, is_empty. destruct (Nat.eqb_spec (len t) 0); [lia|done]. Qed.

(** every leaf of every tree has an inclusion proof, and [verify_inclusion]
    accepts it against the tree's root. *)
Theorem inclusion_proof_verifies t i : i < len t →
  ∃ x r p, leaf t i = Some x ∧ root t = Some r ∧ inclusion_proof t i = Some p
    ∧ verify_inclusion x i (len t) r p = true.
Proof.
  intros Hi. destruct (lookup_lt_is_Some_2 (leaves t) i Hi) as [x Hx].
  exists x, (mth (leaves t)), (path i (leaves t)). split; [done|].
  split; [apply root_mth; lia|]. unfold inclusion_proof, verify_inclusion.
  destruct (Nat.leb_spec (len t) i); [lia|]. split; [done|]. unfold len.
  pose proof (inclusion_loop_complete (length (leaves t) - 1) i (leaves t) x [] Hx ltac:(lia)) as Hl.
  rewrite app_nil_r in Hl. rewrite Hl. by rewrite !bool_decide_eq_true_2.
Qed.

(** if [verify_inclusion] accepts a leaf hash against the root of a tree, the
    tree has that leaf at that index and the proof is the tree's own, unless a
    string hashed by the verifier collides under SHA3-384 with one hashed when the
    root was computed. *)
Theorem verify_inclusion_sound t x i r p :
  root t = Some r → verify_inclusion x i (len t) r p = true →
  (leaf t i = Some x ∧ inclusion_proof t i = Some p)
  ∨ collision_between (inclusion_inputs (len t - 1) i (len t - 1) x p) (mth_inputs (leaves t)).
Proof.
  intros [Hne ->]%root_Some Hv. unfold verify_inclusion in Hv. unfold inclusion_proof.
  destruct (Nat.leb_spec (len t) i); [done|].
  destruct (inclusion_loop _ _ _ _ _) as [[r it]|] eqn:Hl; [|done].
  rewrite andb_true_iff, !bool_decide_eq_true in Hv. destruct Hv as [-> ->].
  apply inclusion_loop_sound in Hl as [[Hx ->]|Hc]; [|by right|done].
  left. by rewrite app_nil_r.
Qed.

(** for every non-empty prefix of a tree's leaves the tree yields a consistency
    proof, and [verify_consistency] accepts it between the two roots. *)
Theorem consistency_proof_verifies t m : 0 < m ≤ len t →
  let old := {| leaves := take m (leaves t) |} in
  ∃ r0 r p, root old = Some r0 ∧ root t = Some r ∧ consistency_proof t m (len t) = Some p
    ∧ verify_consistency m (len t) r0 r p = true.
Proof.
  intros Hm old. exists (mth (take m (leaves t))), (mth (leaves t)), (proof m (leaves t)).
  split; [apply (root_mth old); unfold len, old in *; cbn; rewrite length_take; lia|].
  split; [apply root_mth; lia|]. unfold consistency_proof.
  destruct (Nat.eqb_spec m 0), (Nat.ltb_spec (len t) m); try lia.
  rewrite Nat.eqb_refl. cbn [orb negb]. unfold len. rewrite firstn_all. split; [done|].
  by apply verify_consistency_complete_aux.
Qed.

(** C3: if [verify_consistency] accepts a proof between the roots of two trees, the
    older tree's leaves are a prefix of the newer tree's (no insertion, deletion or
    reordering), unless strings hashed for the two roots and by the verifier collide
    under SHA3-384. *)
Theorem verify_consistency_sound t0 t r0 r p :
  root t0 = Some r0 → root t = Some r →
  verify_consistency (len t0) (len t) r0 r p = true →
  leaves t0 `prefix_of` leaves t
  ∨ collision_between (consistency_inputs (len t0) (len t) r0 p ++ mth_inputs (leaves t0))
      (mth_inputs (leaves t)
         ++ mth_inputs (take (len t0) (leaves t))).
Proof.
  intros [Hne0 ->]%root_Some [Hne ->]%root_Some Hv.
  assert (len t0 ≤ len t) as Hle.
  { unfold verify_consistency in Hv. destruct (Nat.ltb_spec (len t) (len t0)); [|done].
    by rewrite orb_true_r in Hv. }
  unfold len in *.
  apply verify_consistency_sound_aux in Hv as [Hr|Hc]; [| |lia].
  - apply mth_inj in Hr as [->|Hc]; [by left; apply prefix_take| |rewrite length_take; lia].
    right. eapply collision_between_mono; [..|exact Hc]; set_solver.
  - right. eapply collision_between_mono; [..|exact Hc]; set_solver.
Qed.

(** the split point of [largest_pow2_below] is the power of two [k] with
    [k < n <= 2k], and its loop never runs out of iterations. *)
Theorem largest_pow2_below_correct n : 2 ≤ n →
  largest_pow2_below n = 2 ^ Nat.log2 (n - 1) ∧ largest_pow2_below n < n ≤ 2 * largest_pow2_below n.
Proof.
  intros Hn. destruct (largest_pow2_below_spec n Hn) as [[e He] H]. split; [|lia].
  rewrite He in *. f_equal. symmetry. apply Nat.log2_unique; [lia|].
  rewrite Nat.pow_succ_r'. lia.
Qed.

End Merkle.

(** ** Concrete runs, with a checksum in place of SHA3-384 *)
Definition toy_sha3 (data : list u8) : hash :=
  vreplicate HASH_LEN (u8.of_Z (foldl (λ acc b, acc * 31 + u8.to_Z b + 7)%Z 1%Z data)).

Definition toy_tree (n : nat) : MerkleTree :=
  {| leaves := (λ i, leaf_hash toy_sha3 [u8.of_Z (Z.of_nat i)]) <$> seq 0 n |}.

Lemma inclusion_proof_verifies_witness : ∃ x r p,
  leaf (toy_tree 5) 4 = Some x ∧ root toy_sha3 (toy_tree 5) = Some r
  ∧ inclusion_proof toy_sha3 (toy_tree 5) 4 = Some p
  ∧ verify_inclusion toy_sha3 x 4 (len (toy_tree 5)) r p = true.
Proof. apply (inclusion_proof_verifies toy_sha3 (toy_tree 5) 4). cbn. lia. Defined.

Lemma verify_inclusion_sound_witness :
  let t := toy_tree 7 in
  let p := path toy_sha3 6 (leaves t) in
  (leaf t 6 = Some (leaf_hash toy_sha3 [Byte.x06]) ∧ inclusion_proof toy_sha3 t 6 = Some p)
  ∨ collision_between toy_sha3
      (inclusion_inputs toy_sha3 6 6 6 (leaf_hash toy_sha3 [Byte.x06]) p)
      (mth_inputs toy_sha3 (leaves t)).
Proof.
  apply (verify_inclusion_sound toy_sha3 (toy_tree 7) _ 6 (mth toy_sha3 (leaves (toy_tree 7))));
    vm_compute; reflexivity.
Defined.

Lemma consistency_proof_verifies_witness : ∃ r0 r p,
  root toy_sha3 {| leaves := take 6 (leaves (toy_tree 11)) |} = Some r0
  ∧ root toy_sha3 (toy_tree 11) = Some r
  ∧ consistency_proof toy_sha3 (toy_tree 11) 6 (len (toy_tree 11)) = Some p
  ∧ verify_consistency toy_sha3 6 (len (toy_tree 11)) r0 r p = true.
Proof. apply (consistency_proof_verifies toy_sha3 (toy_tree 11) 6). cbn. lia. Defined.

Lemma verify_consistency_sound_witness :
  let t0 := toy_tree 3 in let t := toy_tree 7 in
  let p := proof toy_sha3 3 (leaves t) in
  leaves t0 `prefix_of` leaves t
  ∨ collision_between toy_sha3
      (consistency_inputs toy_sha3 3 7 (mth toy_sha3 (leaves t0)) p
         ++ mth_inputs toy_sha3 (leaves t0))
      (mth_inputs toy_sha3 (leaves t) ++ mth_inputs toy_sha3 (take 3 (leaves t))).
Proof.
  apply (verify_consistency_sound toy_sha3 (toy_tree 3) (toy_tree 7)
    (mth toy_sha3 (leaves (toy_tree 3))) (mth toy_sha3 (leaves (toy_tree 7))));
    vm_compute; reflexivity.
Defined.

Lemma largest_pow2_below_correct_witness :
  largest_pow2_below 13 = 2 ^ Nat.log2 (13 - 1)
  ∧ largest_pow2_below 13 < 13 ≤ 2 * largest_pow2_below 13.
Proof. apply (largest_pow2_below_correct 13). lia. Defined.
