(* ===== verification/Cosign.v ===== *)
(** Signed tree heads (crates/ferro-audit/src/sth.rs) and their quorum
    co-signatures (crates/ferro-audit/src/cosign.rs). *)
From S2P Require Import Prelude Merkle.

(** ** Data *)
Record SthBody := MkSthBody { tree_size : nat; root_hash : hash; timestamp : Z }.

Record SignedTreeHead := MkSth {
  sth_body_cbor : list u8; sth_signer_kid : string; sth_signature_b64 : string }.

Record CoSignature := MkCoSig { cosig_kid : string; cosig_b64 : string }.
Record CoSignedTreeHead := MkCoSth { co_body_cbor : list u8; co_signatures : list CoSignature }.

Inductive SthError :=
  | SthEncode (e : string) | SthDecode (e : string) | SthComposite (e : string)
  | SthSignatureB64 (e : string) | SthSignatureInvalid.

Inductive QuorumError :=
  | InvalidThreshold (threshold signer_count : nat)
  | DuplicateSigner (kid : string)
  | SignerFailed (kid : string) (source : SthError)
  | QuorumNotMet (accepted threshold : nat)
  | QuorumBody (e : SthError).

(** [CoSignedTreeHead::as_single]. *)
Definition as_single (c : CoSignedTreeHead) (n : nat) : option SignedTreeHead :=
  s ← co_signatures c !! n;
  Some {| sth_body_cbor := co_body_cbor c; sth_signer_kid := cosig_kid s;
          sth_signature_b64 := cosig_b64 s |}.

(** [STH_SIGNING_CONTEXT]. *)
Definition STH_SIGNING_CONTEXT : string := "ferrogate-sth-v1".

(** What the two files use of other crates: the CBOR of a body (ciborium), base64url,
    and composite keys and signatures (ferro-crypto). *)
Record SthCodecs (PublicKey Signature : Type) := {
  encode_body : SthBody → result SthError (list u8);
  decode_body : list u8 → result SthError SthBody;
  b64_decode : string → option (list u8);
  parse_signature : list u8 → option Signature;
  pk_verify : PublicKey → string → list u8 → Signature → bool
}.
Arguments encode_body {_ _} _ _.
Arguments decode_body {_ _} _ _.
Arguments b64_decode {_ _} _ _.
Arguments parse_signature {_ _} _ _.
Arguments pk_verify {_ _} _ _ _ _ _.

(** The [SthSigner] trait object. *)
Record SthSigner := { signer_kid : string; signer_sign : SthBody → result SthError SignedTreeHead }.

(** The CBOR of a body decodes to that body. *)
Class SthCodecLaws {PK Sig} (C : SthCodecs PK Sig) :=
  decode_encode_body b cbor : encode_body C b = Ok cbor → decode_body C cbor = Ok b.

Section Cosign.
Context {PublicKey Signature : Type} (C : SthCodecs PublicKey Signature).

Definition body (s : SignedTreeHead) : result SthError SthBody := decode_body C (sth_body_cbor s).
Definition co_body (s : CoSignedTreeHead) : result SthError SthBody := decode_body C (co_body_cbor s).

(** [verify_sth]. *)
Definition verify_sth (s : SignedTreeHead) (pk : PublicKey) : result SthError SthBody :=
  match b64_decode C (sth_signature_b64 s) with
  | None => Err (SthSignatureB64 "base64")
  | Some sig_bytes =>
      match parse_signature C sig_bytes with
      | None => Err SthSignatureInvalid
      | Some sig =>
          if pk_verify C pk STH_SIGNING_CONTEXT (sth_body_cbor s) sig then body s
          else Err SthSignatureInvalid
      end
  end.

(** [InProcessSigner]: its secret key signs under a context ([CompositeSecretKey::sign]
    followed by [to_concat_bytes]), [b64] is base64url without padding. *)
Definition in_process_signer (kid : string) (sk_sign : string → list u8 → result SthError (list u8))
    (b64 : list u8 → string) : SthSigner :=
  {| signer_kid := kid;
     signer_sign b :=
       let? body_cbor := encode_body C b in
       let? sig := sk_sign STH_SIGNING_CONTEXT body_cbor in
       Ok {| sth_body_cbor := body_cbor; sth_signer_kid := kid; sth_signature_b64 := b64 sig |} |}.

(** What a caller of [sign] relies on: the head embeds the body it was asked to sign. *)
Definition signs_body (s : SthSigner) : Prop :=
  ∀ b x, signer_sign s b = Ok x → body x = Ok b.

Lemma in_process_signs_body `{!SthCodecLaws C} kid sk_sign b64 :
  signs_body (in_process_signer kid sk_sign b64).
Proof.
  intros b x. cbn. destruct (encode_body C b) eqn:E; [|done].
  destruct (sk_sign _ _); [|done]. intros [= <-]. by apply decode_encode_body.
Qed.

(** ** Signing *)
Record QuorumSigner := { qs_threshold : nat; qs_signers : list SthSigner }.

(** The [seen] loop of [QuorumSigner::new]. *)
Fixpoint check_kids (seen : gset string) (ss : list SthSigner) : result QuorumError unit :=
  match ss with
  | [] => Ok tt
  | s :: ss =>
      if bool_decide (signer_kid s ∈ seen) then Err (DuplicateSigner (signer_kid s))
      else check_kids ({[signer_kid s]} ∪ seen) ss
  end.

Definition quorum_signer_new (ss : list SthSigner) (threshold : nat) :
    result QuorumError QuorumSigner :=
  if (threshold =? 0) || (length ss <? threshold)
  then Err (InvalidThreshold threshold (length ss)) else
  let? _ := check_kids ∅ ss in
  Ok {| qs_threshold := threshold; qs_signers := ss |}.

(** The signing loop: every listed signer, in order. *)
Fixpoint sign_all (b : SthBody) (ss : list SthSigner) : result QuorumError (list CoSignature) :=
  match ss with
  | [] => Ok []
  | s :: ss =>
      match signer_sign s b with
      | Err e => Err (SignerFailed (signer_kid s) e)
      | Ok sth =>
          let? sigs := sign_all b ss in
          Ok ({| cosig_kid := sth_signer_kid sth; cosig_b64 := sth_signature_b64 sth |} :: sigs)
      end
  end.

Definition quorum_sign (q : QuorumSigner) (b : SthBody) : result QuorumError CoSignedTreeHead :=
  match encode_body C b with
  | Err e => Err (QuorumBody e)
  | Ok cbor =>
      let? sigs := sign_all b (qs_signers q) in
      Ok {| co_body_cbor := cbor; co_signatures := sigs |}
  end.

Lemma quorum_sign_body `{!SthCodecLaws C} q b x : quorum_sign q b = Ok x → co_body x = Ok b.
Proof.
  unfold quorum_sign. destruct (encode_body C b) eqn:E; [|done].
  destruct (sign_all _ _); [|done]. intros [= <-]. by apply decode_encode_body.
Qed.

(** ** Verifying *)
Record VerifyingKeyset := { ks_keys : gmap string PublicKey; ks_threshold : nat }.

(** The insertion loop of [VerifyingKeyset::new]. *)
Fixpoint insert_keys (m : gmap string PublicKey) (keys : list (string * PublicKey)) :
    result QuorumError (gmap string PublicKey) :=
  match keys with
  | [] => Ok m
  | (kid, pk) :: keys =>
      match m !! kid with
      | Some _ => Err (DuplicateSigner kid)
      | None => insert_keys (<[kid := pk]> m) keys
      end
  end.

Definition keyset_new (keys : list (string * PublicKey)) (threshold : nat) :
    result QuorumError VerifyingKeyset :=
  let? m := insert_keys ∅ keys in
  if (threshold =? 0) || (size m <? threshold) then Err (InvalidThreshold threshold (size m))
  else Ok {| ks_keys := m; ks_threshold := threshold |}.

(** Whether one listed signature is accepted: the [continue]s of the loop. *)
Definition accepts (cbor : list u8) (ks : VerifyingKeyset) (s : CoSignature) : bool :=
  match ks_keys ks !! cosig_kid s with
  | None => false
  | Some pk =>
      match b64_decode C (cosig_b64 s) with
      | None => false
      | Some bytes =>
          match parse_signature C bytes with
          | None => false
          | Some parsed => pk_verify C pk STH_SIGNING_CONTEXT cbor parsed
          end
      end
  end.

(** The set of accepted kids after the loop. *)
Definition accepted (c : CoSignedTreeHead) (ks : VerifyingKeyset) : gset string :=
  foldl (λ acc s, if accepts (co_body_cbor c) ks s then {[cosig_kid s]} ∪ acc else acc)
    ∅ (co_signatures c).

Definition verify_cosigned (c : CoSignedTreeHead) (ks : VerifyingKeyset) :
    result QuorumError SthBody :=
  let n := size (accepted c ks) in
  if n <? ks_threshold ks then Err (QuorumNotMet n (ks_threshold ks)) else
  match co_body c with Ok b => Ok b | Err e => Err (QuorumBody e) end.

(** ** Lemmas *)
Lemma elem_of_accepted c ks kid :
  kid ∈ accepted c ks ↔
  ∃ s, s ∈ co_signatures c ∧ cosig_kid s = kid ∧ accepts (co_body_cbor c) ks s = true.
Proof.
  unfold accepted. set (f := λ acc s, _).
  assert (∀ l acc, kid ∈ foldl f acc l ↔ kid ∈ acc ∨
    ∃ s, s ∈ l ∧ cosig_kid s = kid ∧ accepts (co_body_cbor c) ks s = true) as Hf.
  { induction l as [|s l IH]; intros acc; cbn.
    - split; [by left|]. intros [?|(s & Hs & _)]; [done|]. by apply elem_of_nil in Hs.
    - rewrite IH. unfold f. destruct (accepts _ ks s) eqn:E.
      + rewrite elem_of_union, elem_of_singleton. split.
        * intros [[->|?]|(s' & ? & ? & ?)]; [right; exists s; set_solver|by left|].
          right. exists s'. set_solver.
        * intros [?|(s' & [->|?]%elem_of_cons & <- & ?)]; [auto..|]. right. by exists s'.
      + split.
        * intros [?|(s' & ? & ? & ?)]; [by left|]. right. exists s'. set_solver.
        * intros [?|(s' & [->|?]%elem_of_cons & ? & ?)]; [by left|congruence|].
          right. by exists s'. }
  rewrite Hf. split; [|by right]. intros [?|?]; [set_solver|done].
Qed.

Lemma accepted_subset c ks : accepted c ks ⊆ dom (ks_keys ks).
Proof.
  intros kid (s & _ & <- & Ha)%elem_of_accepted. apply elem_of_dom.
  unfold accepts in Ha. destruct (ks_keys ks !! cosig_kid s); [eauto|done].
Qed.

Lemma insert_keys_ok m keys m' : insert_keys m keys = Ok m' →
  NoDup keys.*1 ∧ (∀ kid, kid ∈ keys.*1 → m !! kid = None) ∧
  (∀ kid pk, m' !! kid = Some pk ↔ m !! kid = Some pk ∨ (kid, pk) ∈ keys).
Proof.
  revert m. induction keys as [|[kid pk] keys IH]; intros m; cbn.
  { intros [= <-]. split; [constructor|]. split; [by intros ? ?%elem_of_nil|].
    intros kid pk. rewrite elem_of_nil. tauto. }
  destruct (m !! kid) eqn:Hk; [done|]. intros (Hnd & Hfresh & Hm')%IH.
  assert (kid ∉ keys.*1) as Hni.
  { intros Hin%Hfresh. by rewrite lookup_insert_eq in Hin. }
  split; [by constructor|]. split.
  - intros k [->|Hin]%elem_of_cons; [done|]. apply Hfresh in Hin.
    rewrite lookup_insert in Hin. by case_decide.
  - intros k p. rewrite Hm', elem_of_cons, lookup_insert. case_decide as E.
    + subst. split; [intros [[= ->]|?]; auto|intros [?|[[= ->]|?]]; auto; congruence].
    + split; [intros [?|?]; auto|intros [?|[[= -> ->]|?]]; auto; congruence].
Qed.

Lemma check_kids_ok seen ss : check_kids seen ss = Ok tt ↔
  NoDup (signer_kid <$> ss) ∧ ∀ kid, kid ∈ signer_kid <$> ss → kid ∉ seen.
Proof.
  revert seen. induction ss as [|s ss IH]; intros seen; cbn.
  { split; [|done]. intros _. split; [constructor|]. by intros ? ?%elem_of_nil. }
  rewrite NoDup_cons. setoid_rewrite elem_of_cons. case_bool_decide as Hin.
  - split; [done|]. intros [_ H]. naive_solver.
  - rewrite IH. set_solver.
Qed.

(** ** Properties *)

(** an accepted co-signed tree head carries, for at least [threshold] distinct
    kids of the keyset, a signature that verifies under that kid's key over exactly
    [body_cbor], and the returned body is the decoding of those bytes. *)
Theorem verify_cosigned_sound c ks b : verify_cosigned c ks = Ok b →
  co_body c = Ok b ∧
  ∃ kids : gset string, ks_threshold ks ≤ size kids ∧ kids ⊆ dom (ks_keys ks) ∧
    ∀ kid, kid ∈ kids → ∃ s pk bytes sig,
      s ∈ co_signatures c ∧ cosig_kid s = kid ∧ ks_keys ks !! kid = Some pk ∧
      b64_decode C (cosig_b64 s) = Some bytes ∧ parse_signature C bytes = Some sig ∧
      pk_verify C pk STH_SIGNING_CONTEXT (co_body_cbor c) sig = true.
Proof.
  unfold verify_cosigned. destruct (Nat.ltb_spec (size (accepted c ks)) (ks_threshold ks)); [done|].
  destruct (co_body c); [|done]. intros [= ->]. split; [done|].
  exists (accepted c ks). split; [done|]. split; [apply accepted_subset|].
  intros kid (s & Hs & <- & Ha)%elem_of_accepted. unfold accepts in Ha.
  destruct (ks_keys ks !! cosig_kid s) as [pk|] eqn:E1; [|done].
  destruct (b64_decode C (cosig_b64 s)) as [bytes|] eqn:E2; [|done].
  destruct (parse_signature C bytes) as [sig|] eqn:E3; [|done].
  by exists s, pk, bytes, sig.
Qed.

(** nothing an attacker adds counts twice or for an unlisted key: with fewer than
    [threshold] keyset members willing to sign, verification fails with
    [QuorumNotMet]. *)
Theorem verify_cosigned_below_threshold c ks (signing : gset string) :
  (∀ s, s ∈ co_signatures c → accepts (co_body_cbor c) ks s = true → cosig_kid s ∈ signing) →
  size (signing ∩ dom (ks_keys ks)) < ks_threshold ks →
  ∃ n, verify_cosigned c ks = Err (QuorumNotMet n (ks_threshold ks)).
Proof.
  intros Hs Hn. exists (size (accepted c ks)). unfold verify_cosigned.
  assert (accepted c ks ⊆ signing ∩ dom (ks_keys ks)) as Hsub.
  { intros kid Hk. apply elem_of_intersection. split; [|by apply accepted_subset in Hk].
    apply elem_of_accepted in Hk as (s & ? & <- & ?). auto. }
  apply subseteq_size in Hsub. destruct (Nat.ltb_spec (size (accepted c ks)) (ks_threshold ks)); [done|lia].
Qed.

(** What the quorum relies on from a signer of [b]: it stamps its own kid and its
    signature is one the keyset accepts for that kid. *)
Definition honest (ks : VerifyingKeyset) (b : SthBody) (cbor : list u8) (s : SthSigner) : Prop :=
  ∀ sth, signer_sign s b = Ok sth →
    sth_signer_kid sth = signer_kid s ∧
    accepts cbor ks {| cosig_kid := signer_kid s; cosig_b64 := sth_signature_b64 sth |} = true.

Lemma sign_all_accepted ks b cbor ss sigs :
  Forall (honest ks b cbor) ss → sign_all b ss = Ok sigs →
  cosig_kid <$> sigs = signer_kid <$> ss ∧ Forall (λ s, accepts cbor ks s = true) sigs.
Proof.
  revert sigs. induction ss as [|s ss IH]; intros sigs Hh; cbn.
  { intros [= <-]. split; [done|constructor]. }
  apply Forall_cons in Hh as [Hs Hss]. destruct (signer_sign s b) as [sth|] eqn:E; [|done].
  destruct (sign_all b ss) as [sigs'|]; [|done]. intros [= <-].
  destruct (Hs sth E) as [Hk Ha]. destruct (IH sigs' Hss eq_refl) as [IHk IHa].
  cbn. rewrite Hk, IHk. split; [done|]. by constructor.
Qed.

(** what a quorum signer produces over a body, the matching keyset verifies, and
    returns that body: distinct honest signers meet any threshold up to their number. *)
Theorem quorum_sign_verifies q threshold ss ks b cbor c :
  quorum_signer_new ss threshold = Ok q → encode_body C b = Ok cbor → decode_body C cbor = Ok b →
  Forall (honest ks b cbor) ss → ks_threshold ks ≤ length ss →
  quorum_sign q b = Ok c → verify_cosigned c ks = Ok b.
Proof.
  intros Hq Henc Hdec Hh Hle. unfold quorum_signer_new in Hq.
  destruct (_ || _); [done|]. destruct (check_kids ∅ ss) as [[]|] eqn:Hck; [|done].
  injection Hq as <-. unfold quorum_sign. rewrite Henc. cbn.
  destruct (sign_all b ss) as [sigs|] eqn:Hs; [|done]. intros [= <-].
  destruct (sign_all_accepted ks b cbor ss sigs Hh Hs) as [Hk Ha].
  apply check_kids_ok in Hck as [Hnd _]. unfold verify_cosigned, co_body.
  cbn [co_body_cbor]. rewrite Hdec.
  assert (list_to_set (signer_kid <$> ss) ⊆ accepted (MkCoSth cbor sigs) ks) as Hsub.
  { intros kid. rewrite elem_of_list_to_set, <- Hk. intros (s & -> & Hin)%list_elem_of_fmap.
    apply elem_of_accepted. rewrite Forall_forall in Ha. exists s. auto. }
  apply subseteq_size in Hsub. rewrite size_list_to_set, length_fmap in Hsub by done.
  destruct (Nat.ltb_spec (size (accepted (MkCoSth cbor sigs) ks)) (ks_threshold ks)); [lia|done].
Qed.
End Cosign.

(** ** A concrete run: keys and signatures are numbers, equal when valid *)
Definition toy_body : SthBody := {| tree_size := 4; root_hash := zero_hash; timestamp := 7 |}.
Definition toy_codecs : SthCodecs nat nat :=
  {| encode_body := λ _, Ok [Byte.x01]; decode_body := λ _, Ok toy_body;
     b64_decode := λ s, Some (replicate (String.length s) Byte.x00);
     parse_signature := λ l, Some (length l);
     pk_verify := λ pk ctx _ sig, (pk =? sig) && String.eqb ctx STH_SIGNING_CONTEXT |}.
Definition toy_signer (kid sig : string) : SthSigner :=
  {| signer_kid := kid; signer_sign := λ _, Ok (MkSth [Byte.x01] kid sig) |}.
Definition toy_signers : list SthSigner :=
  [toy_signer "a" "x"; toy_signer "b" "xx"; toy_signer "c" "xxx"].
Definition toy_keyset : VerifyingKeyset (PublicKey := nat) :=
  {| ks_keys := <["a" := 1]> (<["b" := 2]> (<["c" := 3]> ∅)); ks_threshold := 2 |}.
Definition toy_cosigned : CoSignedTreeHead :=
  MkCoSth [Byte.x01] [MkCoSig "a" "x"; MkCoSig "b" "xx"; MkCoSig "c" "xxx"].

Lemma quorum_sign_verifies_witness : verify_cosigned toy_codecs toy_cosigned toy_keyset = Ok toy_body.
Proof.
  apply (quorum_sign_verifies toy_codecs {| qs_threshold := 2; qs_signers := toy_signers |} 2
    toy_signers toy_keyset toy_body [Byte.x01] toy_cosigned); try reflexivity.
  - repeat apply Forall_cons_2; [intros sth [= <-]; split; vm_compute; reflexivity..|].
    apply Forall_nil_2.
  - cbn. lia.
Defined.

Lemma verify_cosigned_sound_witness :
  co_body toy_codecs toy_cosigned = Ok toy_body ∧
  ∃ kids : gset string, 2 ≤ size kids ∧ kids ⊆ dom (ks_keys toy_keyset) ∧
    ∀ kid, kid ∈ kids → ∃ s pk bytes sig,
      s ∈ co_signatures toy_cosigned ∧ cosig_kid s = kid ∧ ks_keys toy_keyset !! kid = Some pk ∧
      b64_decode toy_codecs (cosig_b64 s) = Some bytes ∧
      parse_signature toy_codecs bytes = Some sig ∧
      pk_verify toy_codecs pk STH_SIGNING_CONTEXT (co_body_cbor toy_cosigned) sig = true.
Proof. apply (verify_cosigned_sound toy_codecs toy_cosigned toy_keyset toy_body). vm_compute. reflexivity. Defined.

(** One signer repeated and an unlisted one: only one kid counts. *)
Definition toy_forged : CoSignedTreeHead :=
  MkCoSth [Byte.x01] [MkCoSig "a" "x"; MkCoSig "a" "x"; MkCoSig "z" "x"].

Lemma verify_cosigned_below_threshold_witness :
  ∃ n, verify_cosigned toy_codecs toy_forged toy_keyset = Err (QuorumNotMet n 2).
Proof.
  apply (verify_cosigned_below_threshold toy_codecs toy_forged toy_keyset {["a"]}).
  - intros s Hs Ha.
    cbn in Hs. repeat (apply elem_of_cons in Hs as [->|Hs]); [set_solver..| |].
    + vm_compute in Ha. discriminate.
    + by apply elem_of_nil in Hs.
  - vm_compute. lia.
Defined.
