(* ===== verification/AuditStore.v ===== *)
(** The audit log's backing store (crates/ferro-audit/src/store.rs): the [AuditStore]
    trait as a class of operations, the write-once contract its clients rely on as a
    class of laws, and [LocalDiskWormStore] as the instance that discharges it. *)
From S2P Require Import Prelude Merkle Cosign.

(** ** The trait *)

(** [std::io::ErrorKind], as far as the code inspects it. *)
Inductive ErrorKind := NotFound | AlreadyExistsKind | OtherKind.

(** The store's directories hold four families of files, named by a 20-digit number. *)
Inductive Path :=
  | leaf_path (index : nat) | hash_path (index : nat)
  | sth_path (tree_size : nat) | cosigned_path (tree_size : nat).

#[export] Instance Path_eq_dec : EqDecision Path.
Proof. solve_decision. Defined.

Inductive AuditStoreError :=
  | Io (kind : ErrorKind) | AlreadyExists (p : Path)
  | Decode (e : string) | Encode (e : string) | Unsupported (what : string).

(** A store operation: it may change the store and fail at once. *)
Definition io (S A : Type) : Type := S → S * result AuditStoreError A.

Definition io_bind {S A B} (m : io S A) (k : A → io S B) : io S B := λ s,
  let '(s, r) := m s in
  match r with Ok a => k a s | Err e => (s, Err e) end.

Definition io_result {S A} (r : result AuditStoreError A) : io S A := λ s, (s, r).

Notation "'io?' x ':=' m 'in' k" := (io_bind m (λ x, k))
  (at level 10, x pattern, m at level 100, k at level 200) : ferro_scope.

Class AuditStore (S : Type) := {
  append_leaf : nat → list u8 → hash → io S unit;
  record_sth : SignedTreeHead → io S unit;
  record_cosigned_sth : CoSignedTreeHead → io S unit;
  read_leaf : nat → io S (list u8);
  latest_sth : io S (option SignedTreeHead);
  latest_cosigned_sth : io S (option CoSignedTreeHead)
}.

(** The trait's defaults: a store without the quorum surface. *)
Definition default_record_cosigned_sth {S} (_ : CoSignedTreeHead) : io S unit :=
  io_result (Err (Unsupported "record_cosigned_sth not implemented by this store")).
Definition default_latest_cosigned_sth {S} : io S (option CoSignedTreeHead) :=
  io_result (Ok None).

(** ** The contract

    What a client may assume of a store whose every call may fail half way: leaves are
    never changed, a failed append leaves at most some prefix of the event at its own
    index, and a tree head read back is one that was given to the store. *)
Class StoreView (S : Type) := {
  stored : S → nat → option (list u8);
  head_on : S → SignedTreeHead → Prop;
  cohead_on : S → CoSignedTreeHead → Prop;
  (** No more than this many leaves are on the store. *)
  capacity : S → nat }.

(** [s'] shows no tree head that [s] does not. *)
Definition heads_kept {S} `{StoreView S} (s s' : S) : Prop :=
  (∀ x, head_on s' x → head_on s x) ∧ (∀ x, cohead_on s' x → cohead_on s x).
(** A call that only reads. *)
Definition unchanged {S} `{StoreView S} (s s' : S) : Prop :=
  (∀ i, stored s' i = stored s i) ∧ heads_kept s s' ∧ capacity s' = capacity s.

Lemma unchanged_trans {S} `{StoreView S} (s1 s2 s3 : S) :
  unchanged s1 s2 → unchanged s2 s3 → unchanged s1 s3.
Proof.
  intros (A1 & [B1 B1'] & C1) (A2 & [B2 B2'] & C2). split; [|split; [split|]]; intros.
  - by rewrite A2, A1.
  - auto.
  - auto.
  - by rewrite C2.
Qed.

Class WormStore (S : Type) `{AuditStore S, StoreView S} := {
  append_leaf_Ok i raw h (s s' : S) : append_leaf i raw h s = (s', Ok tt) →
    stored s i = None ∧ stored s' i = Some raw ∧ (∀ j, j ≠ i → stored s' j = stored s j);
  append_leaf_Err i raw h (s s' : S) e : append_leaf i raw h s = (s', Err e) →
    (∀ j, j ≠ i ∨ stored s j ≠ None → stored s' j = stored s j) ∧
    (∀ torn, stored s i = None → stored s' i = Some torn → torn `prefix_of` raw);
  append_leaf_heads i raw h (s : S) : heads_kept s (append_leaf i raw h s).1;
  record_sth_heads x (s : S) :
    (∀ i, stored (record_sth x s).1 i = stored s i) ∧
    (∀ y, head_on (record_sth x s).1 y → head_on s y ∨ y = x) ∧
    (∀ y, cohead_on (record_sth x s).1 y → cohead_on s y);
  record_cosigned_heads x (s : S) :
    (∀ i, stored (record_cosigned_sth x s).1 i = stored s i) ∧
    (∀ y, head_on (record_cosigned_sth x s).1 y → head_on s y) ∧
    (∀ y, cohead_on (record_cosigned_sth x s).1 y → cohead_on s y ∨ y = x);
  read_leaf_pure i (s : S) : unchanged s (read_leaf i s).1;
  read_leaf_Ok i (s : S) raw : (read_leaf i s).2 = Ok raw → stored s i = Some raw;
  read_leaf_NotFound i (s : S) : (read_leaf i s).2 = Err (Io NotFound) → stored s i = None;
  latest_sth_pure (s : S) : unchanged s (latest_sth s).1;
  latest_sth_Ok (s : S) x : (latest_sth s).2 = Ok (Some x) → head_on s x;
  latest_cosigned_pure (s : S) : unchanged s (latest_cosigned_sth s).1;
  latest_cosigned_Ok (s : S) x : (latest_cosigned_sth s).2 = Ok (Some x) → cohead_on s x;
  capacity_spec (s : S) n : (∀ i, i < n → stored s i ≠ None) → n ≤ capacity s
}.

(** ** [LocalDiskWormStore] *)

(** How the next file-system call goes. *)
Inductive fault :=
  | NoFault
  | CallFails                (** the call fails and changes nothing *)
  | WriteFails (n : nat).    (** [write_all] or [sync_data] fails after [n] bytes *)

(** One map per directory and extension, and how the coming calls go (the empty list:
    no more faults). *)
Record LocalDiskWormStore := MkDisk {
  leaf_files : gmap nat (list u8); hash_files : gmap nat (list u8);
  sth_files : gmap nat (list u8); cosigned_files : gmap nat (list u8);
  faults : list fault }.

(** [open] on an empty directory. *)
Definition open_empty (fs : list fault) : LocalDiskWormStore := MkDisk ∅ ∅ ∅ ∅ fs.

Definition file (p : Path) (d : LocalDiskWormStore) : option (list u8) :=
  match p with
  | leaf_path n => leaf_files d !! n
  | hash_path n => hash_files d !! n
  | sth_path n => sth_files d !! n
  | cosigned_path n => cosigned_files d !! n
  end.

Definition set_file (p : Path) (bytes : list u8) (d : LocalDiskWormStore) : LocalDiskWormStore :=
  match d with MkDisk l h s c fs =>
    match p with
    | leaf_path n => MkDisk (<[n := bytes]> l) h s c fs
    | hash_path n => MkDisk l (<[n := bytes]> h) s c fs
    | sth_path n => MkDisk l h (<[n := bytes]> s) c fs
    | cosigned_path n => MkDisk l h s (<[n := bytes]> c) fs
    end
  end.

(** The fault of the next call, and the disk with the rest of the schedule. *)
Definition next_fault (d : LocalDiskWormStore) : fault * LocalDiskWormStore :=
  match d with MkDisk l h s c fs =>
    match fs with
    | [] => (NoFault, d)
    | f :: fs => (f, MkDisk l h s c fs)
    end
  end.

(** [write_new]: [create_new] refuses an existing path. *)
Definition write_new (p : Path) (bytes : list u8) : io LocalDiskWormStore unit := λ d,
  let '(f, d) := next_fault d in
  match f with
  | CallFails => (d, Err (Io OtherKind))
  | _ =>
      match file p d with
      | Some _ => (d, Err (AlreadyExists p))
      | None =>
          match f with
          | WriteFails n => (set_file p (take n bytes) d, Err (Io OtherKind))
          | _ => (set_file p bytes d, Ok tt)
          end
      end
  end.

(** [std::fs::read]. *)
Definition read_file (p : Path) : io LocalDiskWormStore (list u8) := λ d,
  let '(f, d) := next_fault d in
  match f with
  | NoFault => (d, match file p d with Some bytes => Ok bytes | None => Err (Io NotFound) end)
  | _ => (d, Err (Io OtherKind))
  end.

(** The scan of [read_latest_in]: the entry with the largest number, in whatever order
    the directory lists them. *)
Definition pick_best (best : option (nat * list u8)) (entry : nat * list u8) :
    option (nat * list u8) :=
  match best with
  | None => Some entry
  | Some (b, _) => if b <? entry.1 then Some entry else best
  end.

Definition read_dir (dir : LocalDiskWormStore → gmap nat (list u8)) :
    io LocalDiskWormStore (option (nat * list u8)) := λ d,
  let '(f, d) := next_fault d in
  match f with
  | NoFault => (d, Ok (foldl pick_best None (map_to_list (dir d))))
  | _ => (d, Err (Io OtherKind))
  end.

Definition read_latest_in (dir : LocalDiskWormStore → gmap nat (list u8)) (to_path : nat → Path) :
    io LocalDiskWormStore (option (nat * list u8)) :=
  io? best := read_dir dir in
  match best with
  | None => io_result (Ok None)
  | Some (n, _) =>
      io? bytes := read_file (to_path n) in
      io_result (Ok (Some (n, bytes)))
  end.

(** [serde_json] on the two tree-head types. *)
Record HeadJson := {
  to_json : SignedTreeHead → result string (list u8);
  of_json : list u8 → result string SignedTreeHead;
  co_to_json : CoSignedTreeHead → result string (list u8);
  co_of_json : list u8 → result string CoSignedTreeHead }.

(** What a JSON decoder does with the encoder's output and with a torn copy of it. *)
Class HeadJsonLaws (J : HeadJson) := {
  of_to_json x bytes : to_json J x = Ok bytes → of_json J bytes = Ok x;
  of_torn_json x bytes n y :
    to_json J x = Ok bytes → of_json J (take n bytes) = Ok y → y = x;
  co_of_to_json x bytes : co_to_json J x = Ok bytes → co_of_json J bytes = Ok x;
  co_of_torn_json x bytes n y :
    co_to_json J x = Ok bytes → co_of_json J (take n bytes) = Ok y → y = x }.

Section Disk.
Context {PK Sig : Type} (C : SthCodecs PK Sig) (J : HeadJson).

Definition sth_error_text (e : SthError) : string :=
  match e with
  | SthEncode m => "cbor encode: " +:+ m | SthDecode m => "cbor decode: " +:+ m
  | SthComposite m => "composite: " +:+ m | SthSignatureB64 m => "signature base64: " +:+ m
  | SthSignatureInvalid => "signature invalid"
  end.

Definition disk_append_leaf (index : nat) (raw_event : list u8) (h : hash) :
    io LocalDiskWormStore unit :=
  io? _ := write_new (leaf_path index) raw_event in
  io? _ := write_new (hash_path index) (vec_to_list h) in
  io_result (Ok tt).

Definition disk_record_sth (sth : SignedTreeHead) : io LocalDiskWormStore unit :=
  match body C sth with
  | Err e => io_result (Err (Encode (sth_error_text e)))
  | Ok b =>
      match to_json J sth with
      | Err e => io_result (Err (Encode e))
      | Ok bytes => write_new (sth_path (tree_size b)) bytes
      end
  end.

Definition disk_record_cosigned_sth (sth : CoSignedTreeHead) : io LocalDiskWormStore unit :=
  match co_body C sth with
  | Err e => io_result (Err (Encode (sth_error_text e)))
  | Ok b =>
      match co_to_json J sth with
      | Err e => io_result (Err (Encode e))
      | Ok bytes => write_new (cosigned_path (tree_size b)) bytes
      end
  end.

Definition disk_read_leaf (index : nat) : io LocalDiskWormStore (list u8) :=
  read_file (leaf_path index).

Definition disk_latest_sth : io LocalDiskWormStore (option SignedTreeHead) :=
  io? found := read_latest_in sth_files sth_path in
  match found with
  | None => io_result (Ok None)
  | Some (_, bytes) =>
      match of_json J bytes with
      | Ok sth => io_result (Ok (Some sth))
      | Err e => io_result (Err (Decode e))
      end
  end.

Definition disk_latest_cosigned_sth : io LocalDiskWormStore (option CoSignedTreeHead) :=
  io? found := read_latest_in cosigned_files cosigned_path in
  match found with
  | None => io_result (Ok None)
  | Some (_, bytes) =>
      match co_of_json J bytes with
      | Ok sth => io_result (Ok (Some sth))
      | Err e => io_result (Err (Decode e))
      end
  end.

#[export] Instance disk_store : AuditStore LocalDiskWormStore := {
  append_leaf := disk_append_leaf;
  record_sth := disk_record_sth;
  record_cosigned_sth := disk_record_cosigned_sth;
  read_leaf := disk_read_leaf;
  latest_sth := disk_latest_sth;
  latest_cosigned_sth := disk_latest_cosigned_sth }.

(** ** The disk keeps the contract *)
Lemma file_set_file p q bytes d :
  file q (set_file p bytes d) = if decide (p = q) then Some bytes else file q d.
Proof.
  destruct d, p, q; cbn; rewrite ?lookup_insert; repeat case_decide; congruence.
Qed.

(** The disk with one call consumed. *)
Definition tick (d : LocalDiskWormStore) : LocalDiskWormStore := (next_fault d).2.

Lemma file_tick p d : file p (tick d) = file p d.
Proof. destruct d as [l h s c [|f fs]], p; done. Qed.

Lemma leaf_files_tick d : leaf_files (tick d) = leaf_files d.
Proof. by destruct d as [l h s c [|f fs]]. Qed.

Lemma write_new_cases p bytes d :
  (write_new p bytes d = (set_file p bytes (tick d), Ok tt) ∧ file p d = None) ∨
  (∃ e, write_new p bytes d = (tick d, Err e)) ∨
  (∃ n e, write_new p bytes d = (set_file p (take n bytes) (tick d), Err e) ∧ file p d = None).
Proof.
  unfold write_new. rewrite <- (file_tick p d). unfold tick.
  destruct (next_fault d) as [[| |n] d0]; cbn; destruct (file p d0) eqn:E; eauto 10.
Qed.

(** What a write may change: nothing, or the absent file [p], to a prefix of [bytes]. *)
Lemma write_new_file p bytes d q :
  file q (write_new p bytes d).1 = file q d ∨
  (q = p ∧ file p d = None ∧ ∃ n, file q (write_new p bytes d).1 = Some (take n bytes)).
Proof.
  destruct (write_new_cases p bytes d) as [[-> Hn]|[[e ->]|(n & e & -> & Hn)]]; cbn;
    rewrite ?file_set_file, ?file_tick; [|by left|];
    (case_decide; [right|by left]); repeat split; auto; [exists (length bytes)|exists n];
    by rewrite ?firstn_all.
Qed.

Lemma write_new_Ok p bytes d d' : write_new p bytes d = (d', Ok tt) →
  file p d = None ∧ ∀ q, file q d' = if decide (p = q) then Some bytes else file q d.
Proof.
  intros H. destruct (write_new_cases p bytes d) as [[E Hn]|[[e E]|(n & e & E & Hn)]];
    rewrite E in H; injection H as <-; try done.
  split; [done|]. intros q. by rewrite file_set_file, file_tick.
Qed.

#[export] Instance disk_view : StoreView LocalDiskWormStore := {
  stored d i := file (leaf_path i) d;
  head_on d x := ∃ n bytes, file (sth_path n) d = Some bytes ∧ of_json J bytes = Ok x;
  cohead_on d x := ∃ n bytes, file (cosigned_path n) d = Some bytes ∧ co_of_json J bytes = Ok x;
  capacity d := size (leaf_files d) }.

(** The views only see the files. *)
Lemma head_on_ext d d' : (∀ n, file (sth_path n) d' = file (sth_path n) d) →
  ∀ x, head_on d' x → head_on d x.
Proof. intros H x (n & b & Hn & Hx). exists n, b. by rewrite <- H. Qed.
Lemma cohead_on_ext d d' : (∀ n, file (cosigned_path n) d' = file (cosigned_path n) d) →
  ∀ x, cohead_on d' x → cohead_on d x.
Proof. intros H x (n & b & Hn & Hx). exists n, b. by rewrite <- H. Qed.
Lemma heads_kept_ext d d' :
  (∀ n, file (sth_path n) d' = file (sth_path n) d) →
  (∀ n, file (cosigned_path n) d' = file (cosigned_path n) d) → heads_kept d d'.
Proof. split; [by apply head_on_ext|by apply cohead_on_ext]. Qed.

Lemma unchanged_tick d : unchanged d (tick d).
Proof.
  split; [intros i; apply file_tick|]. split; [apply heads_kept_ext; intros; apply file_tick|].
  cbn. by rewrite leaf_files_tick.
Qed.

Lemma write_new_other p bytes d q : q ≠ p → file q (write_new p bytes d).1 = file q d.
Proof. intros Hq. destruct (write_new_file p bytes d q) as [|[? _]]; done. Qed.

Lemma disk_append_leaf_files i raw h d q :
  file q (disk_append_leaf i raw h d).1 = file q d ∨
  q = hash_path i ∨
  (q = leaf_path i ∧ file q d = None ∧
   ∃ n, file q (disk_append_leaf i raw h d).1 = Some (take n raw)).
Proof.
  unfold disk_append_leaf, io_bind.
  pose proof (write_new_file (leaf_path i) raw d q) as H1.
  destruct (write_new (leaf_path i) raw d) as [d1 [[]|e1]]; cbn in H1 |- *.
  - destruct (decide (q = hash_path i)) as [->|Hq]; [by right; left|].
    pose proof (write_new_other (hash_path i) (vec_to_list h) d1 q Hq) as H2.
    destruct (write_new (hash_path i) _ d1) as [d2 [[]|e2]]; cbn in H2 |- *; rewrite H2;
      destruct H1 as [|(-> & ? & ?)]; auto.
  - destruct H1 as [|(-> & ? & ?)]; auto.
Qed.

Lemma disk_append_leaf_Ok i raw h d d' : disk_append_leaf i raw h d = (d', Ok tt) →
  file (leaf_path i) d = None ∧ file (leaf_path i) d' = Some raw ∧
  file (hash_path i) d' = Some (vec_to_list h) ∧
  ∀ j, j ≠ i → file (leaf_path j) d' = file (leaf_path j) d.
Proof.
  unfold disk_append_leaf, io_bind.
  destruct (write_new (leaf_path i) raw d) as [d1 [[]|]] eqn:E1; [|done].
  destruct (write_new (hash_path i) _ d1) as [d2 [[]|]] eqn:E2; [|done]. intros [= <-].
  apply write_new_Ok in E1 as [Hn E1], E2 as [_ E2].
  split; [done|]. split; [|split]; [..|intros j Hj]; rewrite E2, ?E1; repeat case_decide; congruence.
Qed.

Lemma read_latest_in_ok dir to_path d n bytes :
  (read_latest_in dir to_path d).2 = Ok (Some (n, bytes)) → file (to_path n) d = Some bytes.
Proof.
  unfold read_latest_in, io_bind, read_dir.
  pose proof (file_tick (to_path n) d) as Ht. unfold tick in Ht.
  destruct (next_fault d) as [[] d1]; cbn in Ht |- *; try done.
  destruct (foldl _ _ _) as [[m bytes']|]; [|done]. unfold read_file.
  pose proof (file_tick (to_path m) d1) as Ht1. unfold tick in Ht1.
  destruct (next_fault d1) as [[] d2]; cbn in Ht1 |- *; try done.
  destruct (file (to_path m) d2) eqn:E; [|done]. intros [= -> ->]. congruence.
Qed.

Lemma read_file_pure p d : unchanged d (read_file p d).1.
Proof.
  unfold read_file. pose proof (unchanged_tick d) as H. unfold tick in H.
  by destruct (next_fault d) as [[] d0].
Qed.

Lemma read_latest_in_pure dir to_path d : unchanged d (read_latest_in dir to_path d).1.
Proof.
  unfold read_latest_in, io_bind, read_dir. pose proof (unchanged_tick d) as H. unfold tick in H.
  destruct (next_fault d) as [[] d1]; cbn in H |- *; try done.
  destruct (foldl _ _ _) as [[n bytes]|]; [|done].
  pose proof (read_file_pure (to_path n) d1) as H2.
  destruct (read_file (to_path n) d1) as [d2 [?|?]]; cbn in *; by eapply unchanged_trans.
Qed.

(** A head read back is the one written, also when the write was torn. *)
Lemma torn_sth_head `{!HeadJsonLaws J} x bytes n d d' :
  to_json J x = Ok bytes →
  (∀ m, file (sth_path m) d' = file (sth_path m) d ∨ file (sth_path m) d' = Some (take n bytes)) →
  ∀ y, head_on d' y → head_on d y ∨ y = x.
Proof.
  intros Hx Hf y (m & b & Hb & Hy). destruct (Hf m) as [E|E]; rewrite E in Hb.
  - left. by exists m, b.
  - injection Hb as <-. right. by eapply of_torn_json.
Qed.

Lemma torn_sth_cohead `{!HeadJsonLaws J} x bytes n d d' :
  co_to_json J x = Ok bytes →
  (∀ m, file (cosigned_path m) d' = file (cosigned_path m) d
        ∨ file (cosigned_path m) d' = Some (take n bytes)) →
  ∀ y, cohead_on d' y → cohead_on d y ∨ y = x.
Proof.
  intros Hx Hf y (m & b & Hb & Hy). destruct (Hf m) as [E|E]; rewrite E in Hb.
  - left. by exists m, b.
  - injection Hb as <-. right. by eapply co_of_torn_json.
Qed.

(** The one length a write of [bytes] to [p] may have left. *)
Lemma write_new_torn p bytes d : ∃ n, ∀ q,
  file q (write_new p bytes d).1 = file q d ∨ file q (write_new p bytes d).1 = Some (take n bytes).
Proof.
  destruct (write_new_file p bytes d p) as [E|(_ & _ & n & E)].
  - exists 0. intros q. left. destruct (decide (q = p)) as [->|]; [done|by apply write_new_other].
  - exists n. intros q. destruct (decide (q = p)) as [->|]; [by right|left; by apply write_new_other].
Qed.

Lemma disk_capacity d n : (∀ i, i < n → file (leaf_path i) d ≠ None) → n ≤ size (leaf_files d).
Proof.
  intros H. rewrite <- size_dom, <- (length_seq n 0), <- (size_list_to_set (C := gset nat)) by apply NoDup_seq.
  apply subseteq_size. intros i. rewrite elem_of_list_to_set, elem_of_seq, elem_of_dom.
  intros Hi. apply not_eq_None_Some. apply H. lia.
Qed.

Lemma disk_record_sth_heads `{!HeadJsonLaws J} x d :
  (∀ i, stored (disk_record_sth x d).1 i = stored d i) ∧
  (∀ y, head_on (disk_record_sth x d).1 y → head_on d y ∨ y = x) ∧
  (∀ y, cohead_on (disk_record_sth x d).1 y → cohead_on d y).
Proof.
  unfold disk_record_sth. destruct (body C x) as [a|]; [|cbn; naive_solver].
  destruct (to_json J x) as [bytes|] eqn:Hx; [|cbn; naive_solver].
  destruct (write_new_torn (sth_path (tree_size a)) bytes d) as [n Hn].
  split; [intros i; by apply write_new_other|].
  split; [|by apply cohead_on_ext; intros; apply write_new_other].
  by eapply torn_sth_head; [exact Hx|].
Qed.

Lemma disk_record_cosigned_heads `{!HeadJsonLaws J} x d :
  (∀ i, stored (disk_record_cosigned_sth x d).1 i = stored d i) ∧
  (∀ y, head_on (disk_record_cosigned_sth x d).1 y → head_on d y) ∧
  (∀ y, cohead_on (disk_record_cosigned_sth x d).1 y → cohead_on d y ∨ y = x).
Proof.
  unfold disk_record_cosigned_sth. destruct (co_body C x) as [a|]; [|cbn; naive_solver].
  destruct (co_to_json J x) as [bytes|] eqn:Hx; [|cbn; naive_solver].
  destruct (write_new_torn (cosigned_path (tree_size a)) bytes d) as [n Hn].
  split; [intros i; by apply write_new_other|].
  split; [by apply head_on_ext; intros; apply write_new_other|].
  by eapply torn_sth_cohead; [exact Hx|].
Qed.

Lemma disk_read_leaf_cases i d raw :
  ((disk_read_leaf i d).2 = Ok raw → stored d i = Some raw) ∧
  ((disk_read_leaf i d).2 = Err (Io NotFound) → stored d i = None).
Proof.
  cbn [stored disk_view]. unfold disk_read_leaf, read_file.
  rewrite <- (file_tick (leaf_path i) d). unfold tick.
  destruct (next_fault d) as [[] d0]; cbn [snd]; [|done..].
  destruct (file _ d0); split; try done. by intros [= ->].
Qed.
End Disk.

#[export] Instance disk_worm {PK Sig} (C : SthCodecs PK Sig) J `{!HeadJsonLaws J} :
  @WormStore LocalDiskWormStore (disk_store C J) (disk_view J).
Proof.
  split.
  - intros i raw h s s' (H1 & H2 & _ & H3)%disk_append_leaf_Ok. auto.
  - intros i raw h s s' e E. cbn [stored disk_view append_leaf disk_store] in *. pose proof (disk_append_leaf_files i raw h s) as H.
    rewrite E in H. cbn in H. split.
    + intros j Hj. destruct (H (leaf_path j)) as [|[|([= ->] & Hn & _)]]; [done|done|].
      by destruct Hj.
    + intros torn Hn Ht. destruct (H (leaf_path i)) as [H'|[|(_ & _ & n & H')]]; [congruence|done|].
      rewrite Ht in H'. injection H' as ->. apply prefix_take.
  - intros i raw h s. apply heads_kept_ext; intros n.
    + by destruct (disk_append_leaf_files i raw h s (sth_path n)) as [|[|[? _]]].
    + by destruct (disk_append_leaf_files i raw h s (cosigned_path n)) as [|[|[? _]]].
  - apply (disk_record_sth_heads C J).
  - apply (disk_record_cosigned_heads C J).
  - intros i s. apply read_file_pure.
  - intros i s raw. apply disk_read_leaf_cases.
  - intros i s. apply (disk_read_leaf_cases J i s []).
  - intros s. cbn [latest_sth disk_store]. unfold disk_latest_sth, io_bind.
    pose proof (read_latest_in_pure J sth_files sth_path s) as H.
    destruct (read_latest_in _ _ s) as [d [[[n b]|]|e]]; [|done..]. by destruct (of_json J b).
  - intros s x. cbn [latest_sth disk_store]. unfold disk_latest_sth, io_bind.
    pose proof (read_latest_in_ok sth_files sth_path s) as H.
    destruct (read_latest_in _ _ s) as [d [[[n b]|]|e]]; [|done..].
    destruct (of_json J b) eqn:E; [|done]. intros [= <-]. exists n, b. auto.
  - intros s. cbn [latest_cosigned_sth disk_store]. unfold disk_latest_cosigned_sth, io_bind.
    pose proof (read_latest_in_pure J cosigned_files cosigned_path s) as H.
    destruct (read_latest_in _ _ s) as [d [[[n b]|]|e]]; [|done..]. by destruct (co_of_json J b).
  - intros s x. cbn [latest_cosigned_sth disk_store]. unfold disk_latest_cosigned_sth, io_bind.
    pose proof (read_latest_in_ok cosigned_files cosigned_path s) as H.
    destruct (read_latest_in _ _ s) as [d [[[n b]|]|e]]; [|done..].
    destruct (co_of_json J b) eqn:E; [|done]. intros [= <-]. exists n, b. auto.
  - intros s n. apply disk_capacity.
Qed.
