(* ===== verification/AuditLog.v ===== *)
(** The audit log facade (crates/ferro-audit/src/log.rs): the in-memory Merkle tree, the
    backing store behind the [WormStore] contract and the tree-head signers. Appends and
    head production run under one mutex, so a run of the log is a sequence of steps. *)
From stdpp Require Import pretty.
From S2P Require Import Prelude Merkle Cosign AuditStore.

Inductive AuditLogError :=
  | LogEvent (e : string) | LogStore (e : AuditStoreError) | LogSth (e : SthError)
  | LogQuorum (e : QuorumError) | Range (what : string) | Resume (what : string).

Record InclusionProof := {
  ip_leaf_hash : hash; ip_leaf_index : nat; ip_tree_size : nat;
  ip_root_hash : hash; ip_audit_path : list hash }.

Record ConsistencyProof := {
  cp_old_size : nat; cp_new_size : nat; cp_new_root_hash : hash; cp_audit_path : list hash }.

(** The state the mutex guards, with the store it writes to. *)
Record AuditLog (S : Type) := MkLog {
  log_tree : MerkleTree; log_latest_sth : option SignedTreeHead;
  log_latest_cosigned : option CoSignedTreeHead; log_store : S }.
Arguments MkLog {S} _ _ _ _.
Arguments log_tree {S} _.
Arguments log_latest_sth {S} _.
Arguments log_latest_cosigned {S} _.
Arguments log_store {S} _.

Section AuditLog.
Context (sha3_384 : list u8 → hash).
Context {PK Sig : Type} (C : SthCodecs PK Sig).
(** [event::encode]: the canonical CBOR of an event. *)
Context {Event : Type} (encode : Event → result string (list u8)).
Context {S : Type} `{AuditStore S, StoreView S}.
Context (signer : SthSigner).

Local Abbreviation leaf_hash := (leaf_hash sha3_384).
Local Abbreviation root := (root sha3_384).

(** ** Operations *)

(** The replay loop of [AuditLog::new]; [None] is a loop that has not ended. *)
Fixpoint replay (fuel : nat) (tree : MerkleTree) (s : S) :
    option (S * result AuditLogError MerkleTree) :=
  match fuel with
  | 0 => None
  | Datatypes.S fuel =>
      match read_leaf (len tree) s with
      | (s, Ok raw) => replay fuel (append tree (leaf_hash raw)).1 s
      | (s, Err (Io NotFound)) => Some (s, Ok tree)
      | (s, Err e) => Some (s, Err (LogStore e))
      end
  end.

(** The loop that copies the first [covered] leaves. *)
Fixpoint copy_prefix (tree prefix : MerkleTree) (indices : list nat) : result AuditLogError MerkleTree :=
  match indices with
  | [] => Ok prefix
  | i :: indices =>
      match leaf tree i with
      | None => Err (Resume ("leaf " +:+ pretty i +:+ " missing"))
      | Some h => copy_prefix tree (append prefix h).1 indices
      end
  end.

(** [root().unwrap_or([0; HASH_LEN])]. *)
Definition root_or_zero (t : MerkleTree) : hash := default zero_hash (root t).

(** The cross-check of the newest persisted head against the rebuilt tree. *)
Definition check_head (tree : MerkleTree) (sth : option SignedTreeHead) : result AuditLogError unit :=
  match sth with
  | None => Ok tt
  | Some sth =>
      match body C sth with
      | Err e => Err (LogSth e)
      | Ok b =>
          let covered := tree_size b in
          if len tree <? covered
          then Err (Resume ("persisted STH covers " +:+ pretty covered +:+ " leaves but only "
                            +:+ pretty (len tree) +:+ " are on disk"))
          else
            let? prefix := copy_prefix tree new_tree (seq 0 covered) in
            if bool_decide (root_or_zero prefix = root_hash b) then Ok tt
            else Err (Resume ("rebuilt root for " +:+ pretty covered
                              +:+ " leaves does not match the persisted STH"))
      end
  end.

(** [AuditLog::new] over a store. *)
Definition log_new (s : S) : option (S * result AuditLogError (AuditLog S)) :=
  '(s, r) ← replay (Datatypes.S (capacity s)) new_tree s;
  match r with
  | Err e => Some (s, Err e)
  | Ok tree =>
      let '(s, r) := latest_sth s in
      match r with
      | Err e => Some (s, Err (LogStore e))
      | Ok sth =>
          match check_head tree sth with
          | Err e => Some (s, Err e)
          | Ok _ =>
              let '(s, r) := latest_cosigned_sth s in
              match r with
              | Err e => Some (s, Err (LogStore e))
              | Ok cosigned => Some (s, Ok (MkLog tree sth cosigned s))
              end
          end
      end
  end.

Definition log_len (l : AuditLog S) : nat := len (log_tree l).
Definition log_is_empty (l : AuditLog S) : bool := is_empty (log_tree l).

(** [append]: the tree changes only once the store has accepted the bytes. *)
Definition log_append (event : Event) (l : AuditLog S) : AuditLog S * result AuditLogError nat :=
  match encode event with
  | Err e => (l, Err (LogEvent e))
  | Ok raw =>
      let h := leaf_hash raw in
      let index := len (log_tree l) in
      let '(s, r) := append_leaf index raw h (log_store l) in
      match r with
      | Err e => (MkLog (log_tree l) (log_latest_sth l) (log_latest_cosigned l) s, Err (LogStore e))
      | Ok _ =>
          (MkLog (append (log_tree l) h).1 (log_latest_sth l) (log_latest_cosigned l) s, Ok index)
      end
  end.

Definition head_body (l : AuditLog S) (timestamp_unix : Z) : SthBody :=
  {| tree_size := len (log_tree l); root_hash := root_or_zero (log_tree l);
     timestamp := timestamp_unix |}.

Definition produce_sth (timestamp_unix : Z) (l : AuditLog S) :
    AuditLog S * result AuditLogError SignedTreeHead :=
  match signer_sign signer (head_body l timestamp_unix) with
  | Err e => (l, Err (LogSth e))
  | Ok sth =>
      let '(s, r) := record_sth sth (log_store l) in
      match r with
      | Err e => (MkLog (log_tree l) (log_latest_sth l) (log_latest_cosigned l) s, Err (LogStore e))
      | Ok _ => (MkLog (log_tree l) (Some sth) (log_latest_cosigned l) s, Ok sth)
      end
  end.

Definition produce_cosigned_sth (timestamp_unix : Z) (quorum : QuorumSigner) (l : AuditLog S) :
    AuditLog S * result AuditLogError CoSignedTreeHead :=
  match quorum_sign C quorum (head_body l timestamp_unix) with
  | Err e => (l, Err (LogQuorum e))
  | Ok sth =>
      let '(s, r) := record_cosigned_sth sth (log_store l) in
      match r with
      | Err e => (MkLog (log_tree l) (log_latest_sth l) (log_latest_cosigned l) s, Err (LogStore e))
      | Ok _ => (MkLog (log_tree l) (log_latest_sth l) (Some sth) s, Ok sth)
      end
  end.

Definition out_of_range (i size : nat) : AuditLogError :=
  Range ("index " +:+ pretty i +:+ " >= tree size " +:+ pretty size).

(** [inclusion_proof]; [None] is the [expect] panic. *)
Definition log_inclusion_proof (index : nat) (l : AuditLog S) :
    option (result AuditLogError InclusionProof) :=
  let size := len (log_tree l) in
  match leaf (log_tree l) index with
  | None => Some (Err (out_of_range index size))
  | Some h =>
      match inclusion_proof sha3_384 (log_tree l) index with
      | None => Some (Err (out_of_range index size))
      | Some p =>
          r ← root (log_tree l);
          Some (Ok {| ip_leaf_hash := h; ip_leaf_index := index; ip_tree_size := size;
                      ip_root_hash := r; ip_audit_path := p |})
      end
  end.

(** [consistency_proof]; [None] is the [expect] panic. *)
Definition log_consistency_proof (m : nat) (l : AuditLog S) :
    option (result AuditLogError ConsistencyProof) :=
  let new_size := len (log_tree l) in
  if (m =? 0) || (new_size <? m)
  then Some (Err (Range ("old_size " +:+ pretty m +:+ " not in 1..=" +:+ pretty new_size))) else
  match consistency_proof sha3_384 (log_tree l) m new_size with
  | None => Some (Err (Range ("consistency (" +:+ pretty m +:+ "," +:+ pretty new_size
                              +:+ ") out of range")))
  | Some p =>
      r ← root (log_tree l);
      Some (Ok {| cp_old_size := m; cp_new_size := new_size; cp_new_root_hash := r;
                  cp_audit_path := p |})
  end.

(** ** Runs: the calls of one process, and restarts over the same store *)
Inductive log_step : AuditLog S → AuditLog S → Prop :=
  | step_append e l : log_step l (log_append e l).1
  | step_sth ts l : log_step l (produce_sth ts l).1
  | step_cosigned ts q l : log_step l (produce_cosigned_sth ts q l).1
  | step_restart l s l' : log_new (log_store l) = Some (s, Ok l') → log_step l l'.

(** ** The abstract log: the list of raw events *)
Definition tree_of (raws : list (list u8)) : MerkleTree := {| leaves := leaf_hash <$> raws |}.

(** A head body that states the size and root of a prefix of [raws]. *)
Definition sound_body (raws : list (list u8)) (b : SthBody) : Prop :=
  tree_size b ≤ length raws ∧ root_hash b = root_or_zero (tree_of (take (tree_size b) raws)).

Record log_inv (raws : list (list u8)) (l : AuditLog S) : Prop := {
  inv_tree : log_tree l = tree_of raws;
  inv_stored i raw : raws !! i = Some raw → stored (log_store l) i = Some raw;
  inv_beyond i : length raws < i → stored (log_store l) i = None;
  inv_head x b : head_on (log_store l) x → body C x = Ok b → sound_body raws b;
  inv_cohead x b : cohead_on (log_store l) x → co_body C x = Ok b → sound_body raws b;
  inv_latest x b : log_latest_sth l = Some x → body C x = Ok b → sound_body raws b;
  inv_latest_co x b : log_latest_cosigned l = Some x → co_body C x = Ok b → sound_body raws b }.

Lemma len_tree_of raws : len (tree_of raws) = length raws.
Proof. unfold len. cbn. apply length_fmap. Qed.

Lemma tree_of_app raws raw : (append (tree_of raws) (leaf_hash raw)).1 = tree_of (raws ++ [raw]).
Proof. unfold tree_of. rewrite fmap_app. done. Qed.

Lemma sound_body_mono raws raws' b :
  raws `prefix_of` raws' → sound_body raws b → sound_body raws' b.
Proof.
  intros [ext ->] [Hle Hr]. split; [rewrite length_app; lia|].
  by rewrite take_app_le.
Qed.

Lemma head_body_sound raws l ts : log_tree l = tree_of raws → sound_body raws (head_body l ts).
Proof.
  intros Ht. unfold sound_body, head_body. cbn. rewrite Ht, len_tree_of. split; [done|].
  by rewrite firstn_all.
Qed.

(** The strings hashed for the root of a log of [raws]. *)
Definition log_inputs (raws : list (list u8)) : list (list u8) :=
  (cons LEAF_PREFIX <$> raws) ++ mth_inputs sha3_384 (leaf_hash <$> raws).

Lemma log_inputs_leaves raws : (cons LEAF_PREFIX <$> raws) ⊆ log_inputs raws.
Proof. unfold log_inputs. set_solver. Qed.
Lemma log_inputs_nodes raws : mth_inputs sha3_384 (leaf_hash <$> raws) ⊆ log_inputs raws.
Proof. unfold log_inputs. set_solver. Qed.

Lemma leaf_hashes_inj raws raws' : leaf_hash <$> raws = leaf_hash <$> raws' →
  raws = raws' ∨ collision_between sha3_384 (cons LEAF_PREFIX <$> raws) (cons LEAF_PREFIX <$> raws').
Proof.
  revert raws'. induction raws as [|r raws IH]; intros [|r' raws']; try done; [by left|].
  cbn. intros [= Hr Hrs]. destruct (decide (r = r')) as [<-|Hne].
  - destruct (IH raws' Hrs) as [->|(x & y & Hx & Hy & Hc)]; [by left|]. right. exists x, y. set_solver.
  - right. exists (LEAF_PREFIX :: r), (LEAF_PREFIX :: r').
    split; [left|]. split; [left|]. split; [congruence|done].
Qed.

Context `{!SthCodecLaws C, !WormStore S} (Hsigner : signs_body C signer).

Lemma unchanged_inv raws t x c s s' :
  log_inv raws (MkLog t x c s) → unchanged s s' → log_inv raws (MkLog t x c s').
Proof.
  intros [] (Hst & [Hh Hc] & _). cbn in *. split; cbn; try done; eauto.
  - intros. rewrite Hst. auto.
  - intros. rewrite Hst. auto.
Qed.

Lemma log_append_inv raws e l : log_inv raws l →
  ∃ raws', raws `prefix_of` raws' ∧ log_inv raws' (log_append e l).1 ∧
    match encode e, (log_append e l).2 with
    | Ok raw, Ok i => i = length raws ∧ raws' = raws ++ [raw]
    | _, _ => raws' = raws
    end.
Proof.
  intros Hl. unfold log_append. destruct (encode e) as [raw|]; [|by exists raws].
  destruct Hl as [Ht Hst Hbe Hh Hc Hlt Hlc]. rewrite Ht, len_tree_of.
  pose proof (append_leaf_heads (length raws) raw (leaf_hash raw) (log_store l)) as [Hh' Hc'].
  destruct (append_leaf _ _ _ _) as [s' [[]|err]] eqn:E; cbn in Hh', Hc' |- *.
  - apply append_leaf_Ok in E as (_ & Hnew & Hold). exists (raws ++ [raw]).
    assert (raws `prefix_of` raws ++ [raw]) as Hp by (by exists [raw]).
    split; [done|]. split; [|done]. split; cbn.
    + apply tree_of_app.
    + intros i r. rewrite lookup_app. destruct (raws !! i) as [r'|] eqn:Hi.
      { intros [= ->]. rewrite Hold; [by apply Hst|]. apply lookup_lt_Some in Hi. lia. }
      apply lookup_ge_None in Hi. intros [Hi' ?]%list_lookup_singleton_Some.
      replace i with (length raws) by lia. congruence.
    + intros i. rewrite length_app. cbn. intros Hi. rewrite Hold by lia. apply Hbe. lia.
    + intros x b Hx Hb. eapply sound_body_mono; eauto.
    + intros x b Hx Hb. eapply sound_body_mono; eauto.
    + intros x b Hx Hb. eapply sound_body_mono; eauto.
    + intros x b Hx Hb. eapply sound_body_mono; eauto.
  - apply append_leaf_Err in E as [Hold _]. exists raws. split; [done|]. split; [|done]. split; cbn; eauto.
    + intros i r Hi. rewrite Hold; [by apply Hst|]. right. by rewrite (Hst i r Hi).
    + intros i Hi. rewrite Hold by lia. by apply Hbe.
Qed.

Lemma produce_sth_inv raws ts l : log_inv raws l → log_inv raws (produce_sth ts l).1.
Proof.
  intros Hl. unfold produce_sth. destruct (signer_sign _ _) as [sth|] eqn:Hs; [|done].
  apply Hsigner in Hs. pose proof (head_body_sound raws l ts (inv_tree _ _ Hl)) as Hb.
  pose proof (record_sth_heads sth (log_store l)) as (Hst & Hh & Hc).
  destruct Hl. destruct (record_sth _ _) as [s' [[]|err]]; cbn in Hst, Hh, Hc |- *;
    split; cbn; intros; rewrite ?Hst; eauto; try congruence.
  all: match goal with Hx : head_on _ ?x |- _ => destruct (Hh x Hx) as [| ->] end; [by eauto|congruence].
Qed.

Lemma produce_cosigned_inv raws ts q l : log_inv raws l → log_inv raws (produce_cosigned_sth ts q l).1.
Proof.
  intros Hl. unfold produce_cosigned_sth. destruct (quorum_sign _ _ _) as [sth|] eqn:Hs; [|done].
  apply (quorum_sign_body C) in Hs. pose proof (head_body_sound raws l ts (inv_tree _ _ Hl)) as Hb.
  pose proof (record_cosigned_heads sth (log_store l)) as (Hst & Hh & Hc).
  destruct Hl. destruct (record_cosigned_sth _ _) as [s' [[]|err]]; cbn in Hst, Hh, Hc |- *;
    split; cbn; intros; rewrite ?Hst; eauto; try congruence.
  all: match goal with Hx : cohead_on _ ?x |- _ => destruct (Hc x Hx) as [| ->] end; [by eauto|congruence].
Qed.

(** ** Resuming *)

Lemma agrees_snoc {A} (f : nat → option A) l x :
  (∀ i, i < length l → f i = l !! i) → f (length l) = Some x →
  ∀ i, i < length (l ++ [x]) → f i = (l ++ [x]) !! i.
Proof.
  intros Hl Hx i. rewrite length_app. cbn. intros Hi. destruct (decide (i = length l)) as [->|].
  - by rewrite list_lookup_middle.
  - rewrite lookup_app_l by lia. apply Hl. lia.
Qed.

(** The leaves read back from a store that holds [l], perhaps one torn leaf, and no more. *)
Lemma stored_unique {A} (f : nat → option A) l l' :
  (∀ i x, l !! i = Some x → f i = Some x) → (∀ i, length l < i → f i = None) →
  (∀ i, i < length l' → f i = l' !! i) → f (length l') = None →
  l' = l ++ option_list (f (length l)).
Proof.
  intros Hl Hb Hl' Hn. assert (length l ≤ length l' ≤ length l + 1) as Hle.
  { split.
    - destruct (decide (length l' < length l)) as [Hlt|]; [|lia].
      destruct (lookup_lt_is_Some_2 l _ Hlt) as [x Hx]. apply Hl in Hx. congruence.
    - destruct (decide (length l + 1 < length l')) as [Hlt|]; [|lia].
      specialize (Hl' (length l + 1) Hlt). rewrite Hb in Hl' by lia.
      symmetry in Hl'. apply lookup_ge_None in Hl'. lia. }
  apply list_eq. intros i. destruct (decide (i < length l)) as [Hi|Hi].
  - rewrite lookup_app_l by done. rewrite <- Hl' by lia.
    destruct (lookup_lt_is_Some_2 l i Hi) as [x Hx]. rewrite Hx. by apply Hl.
  - rewrite lookup_app_r by lia. destruct (decide (i < length l')) as [Hi'|Hi'].
    + replace i with (length l) in * by lia. rewrite <- Hl', Nat.sub_diag by lia.
      by destruct (f (length l)).
    + rewrite lookup_ge_None_2 by lia. symmetry. apply lookup_ge_None.
      destruct (f (length l)) eqn:E; cbn; [|lia].
      destruct (decide (length l' = length l)) as [E'|]; [congruence|lia].
Qed.

(** A finished replay has read the leaves [raws] in order, up to the first absent one. *)
Lemma replay_spec fuel raws s s' r :
  (∀ i, i < length raws → stored s i = raws !! i) →
  replay fuel (tree_of raws) s = Some (s', r) →
  unchanged s s' ∧ ∀ t, r = Ok t → ∃ raws', t = tree_of raws' ∧ raws `prefix_of` raws' ∧
    (∀ i, i < length raws' → stored s i = raws' !! i) ∧ stored s (length raws') = None.
Proof.
  revert raws s. induction fuel as [|fuel IH]; intros raws s Hst; cbn [replay]; [done|].
  rewrite len_tree_of. pose proof (read_leaf_pure (length raws) s) as Hp.
  pose proof (read_leaf_Ok (length raws) s) as Hok.
  pose proof (read_leaf_NotFound (length raws) s) as Hnf.
  destruct (read_leaf _ s) as [s1 [raw|e]]; cbn in Hp, Hok, Hnf.
  - rewrite tree_of_app. intros Hr. specialize (Hok raw eq_refl).
    apply IH in Hr as [Hu Hr].
    2: { intros i Hi. rewrite (proj1 Hp). by apply agrees_snoc. }
    split; [by eapply unchanged_trans|]. destruct Hp as [Hp1 _].
    intros t Ht. destruct (Hr t Ht) as (raws' & -> & Hpre & Hs' & Hn). exists raws'.
    split; [done|]. split; [etransitivity; [|done]; by exists [raw]|].
    split; [intros i Hi; by rewrite <- Hp1, Hs'|by rewrite <- Hp1].
  - destruct e as [[]| | | |]; intros [= <- <-]; (split; [done|]); intros t [= <-].
    exists raws. auto.
Qed.

(** [capacity + 1] iterations always finish. *)
Lemma replay_total fuel raws s :
  (∀ i, i < length raws → stored s i = raws !! i) → capacity s < length raws + fuel →
  replay fuel (tree_of raws) s ≠ None.
Proof.
  revert raws s. induction fuel as [|fuel IH]; intros raws s Hst Hf; cbn [replay].
  { exfalso. assert (length raws ≤ capacity s); [|lia]. apply capacity_spec.
    intros i Hi. rewrite Hst by done. by apply lookup_lt_is_Some_2, not_eq_None_Some in Hi. }
  rewrite len_tree_of. pose proof (read_leaf_pure (length raws) s) as (Hp & _ & Hcap).
  pose proof (read_leaf_Ok (length raws) s) as Hok.
  destruct (read_leaf _ s) as [s1 [raw|e]]; cbn in Hp, Hok, Hcap.
  - rewrite tree_of_app. apply IH; [|rewrite length_app; cbn; lia].
    intros i Hi. rewrite Hp. apply agrees_snoc; auto.
  - by destruct e as [[]| | | |].
Qed.

Lemma copy_prefix_spec tree k n : k + n ≤ len tree →
  copy_prefix tree {| leaves := take k (leaves tree) |} (seq k n)
  = Ok {| leaves := take (k + n) (leaves tree) |}.
Proof.
  unfold len. revert k. induction n as [|n IH]; intros k Hle; cbn [seq copy_prefix].
  { by rewrite Nat.add_0_r. }
  unfold leaf. destruct (lookup_lt_is_Some_2 (leaves tree) k) as [h Hh]; [lia|]. rewrite Hh.
  unfold append. cbn [fst leaves]. rewrite <- (take_S_r _ _ _ Hh), IH by lia. f_equal. f_equal.
  f_equal. lia.
Qed.

(** What the cross-check of [AuditLog::new] establishes. *)
Lemma check_head_spec tree x b : body C x = Ok b →
  check_head tree (Some x) = Ok tt ↔
  tree_size b ≤ len tree ∧
  root_hash b = root_or_zero {| leaves := take (tree_size b) (leaves tree) |}.
Proof.
  intros Hb. cbn [check_head]. rewrite Hb. destruct (Nat.ltb_spec (len tree) (tree_size b)).
  { split; [done|lia]. }
  pose proof (copy_prefix_spec tree 0 (tree_size b)) as Hc. rewrite take_0 in Hc.
  unfold new_tree. rewrite Hc by lia. cbn [plus]. case_bool_decide; naive_solver.
Qed.

Lemma log_new_spec s s' l : log_new s = Some (s', Ok l) →
  s' = log_store l ∧ unchanged s (log_store l) ∧
  (∃ raws, log_tree l = tree_of raws ∧ (∀ i, i < length raws → stored s i = raws !! i)
    ∧ stored s (length raws) = None) ∧
  (∀ x, log_latest_sth l = Some x → head_on s x ∧ check_head (log_tree l) (Some x) = Ok tt) ∧
  (∀ x, log_latest_cosigned l = Some x → cohead_on s x) ∧
  ∃ s1, unchanged s s1 ∧ (latest_sth s1).2 = Ok (log_latest_sth l).
Proof.
  unfold log_new. destruct (replay _ _ _) as [[s1 r]|] eqn:Hr; cbn [mbind option_bind]; [|done].
  apply (replay_spec _ []) in Hr as [Hu Hr]; [|intros i; cbn; lia].
  destruct r as [tree|]; [|done]. destruct (Hr tree eq_refl) as (raws & -> & _ & Hst & Hn).
  pose proof (latest_sth_pure s1) as Hp. pose proof (latest_sth_Ok s1) as Hok.
  destruct (latest_sth s1) as [s2 [sth|]] eqn:Hl; [|done]. cbn in Hp, Hok.
  destruct (check_head (tree_of raws) sth) as [[]|] eqn:Hc; [|done].
  pose proof (latest_cosigned_pure s2) as Hp2. pose proof (latest_cosigned_Ok s2) as Hok2.
  destruct (latest_cosigned_sth s2) as [s3 [cosigned|]]; [|done]. cbn in Hp2, Hok2.
  intros [= <- <-]. cbn.
  assert (unchanged s s2) as Hu2 by (by eapply unchanged_trans).
  split; [done|]. split; [by eapply unchanged_trans|].
  split; [exists raws; auto|]. split; [|split].
  - intros x ->. split; [|done]. apply Hu. by apply Hok.
  - intros x ->. apply Hu2. by apply Hok2.
  - exists s1. by rewrite Hl.
Qed.

Lemma log_new_inv raws l s' l' : log_inv raws l → log_new (log_store l) = Some (s', Ok l') →
  ∃ raws', raws `prefix_of` raws' ∧ log_inv raws' l'.
Proof.
  intros [Ht Hst Hbe Hh Hc _ _] (_ & (Hu & [Hh' Hc'] & _) & (raws' & Ht' & Hst' & Hn) & Hlt & Hlc & _)%log_new_spec.
  assert (raws `prefix_of` raws') as Hp.
  { rewrite (stored_unique _ _ _ Hst Hbe Hst' Hn). by eexists. }
  exists raws'. split; [done|]. pose proof (prefix_length _ _ Hp) as Hle.
  split; auto.
  - intros i raw Hi. rewrite Hu, Hst'; [done|]. by apply lookup_lt_Some in Hi.
  - intros i Hi. rewrite Hu. apply Hbe. lia.
  - intros x b Hx Hb. eapply sound_body_mono; eauto.
  - intros x b Hx Hb. eapply sound_body_mono; eauto.
  - intros x b [Hx _]%Hlt Hb. eapply sound_body_mono; eauto.
  - intros x b Hx%Hlc Hb. eapply sound_body_mono; eauto.
Qed.

Lemma log_step_inv raws l l' : log_step l l' → log_inv raws l →
  ∃ raws', raws `prefix_of` raws' ∧ log_inv raws' l'.
Proof.
  intros [e l0|ts l0|ts q l0|l0 s l1 Hn] Hl.
  - destruct (log_append_inv raws e l0 Hl) as (raws' & ? & ? & _). eauto.
  - exists raws. split; [done|]. by apply produce_sth_inv.
  - exists raws. split; [done|]. by apply produce_cosigned_inv.
  - by eapply log_new_inv.
Qed.

Lemma log_steps_inv raws l l' : rtc log_step l l' → log_inv raws l →
  ∃ raws', raws `prefix_of` raws' ∧ log_inv raws' l'.
Proof.
  intros Hs. revert raws. induction Hs as [l|l l1 l2 H1 Hs IH]; intros raws Hl; [by exists raws|].
  destruct (log_step_inv raws l l1 H1 Hl) as (raws1 & Hp1 & Hl1).
  destruct (IH raws1 Hl1) as (raws2 & Hp2 & Hl2). exists raws2. split; [by etransitivity|done].
Qed.

(** A store nothing was ever written to, and the logs that grow on it. *)
Definition blank (s : S) : Prop :=
  (∀ i, stored s i = None) ∧ (∀ x, ¬ head_on s x) ∧ (∀ x, ¬ cohead_on s x).

Definition reachable (l : AuditLog S) : Prop :=
  ∃ s s' l0, blank s ∧ log_new s = Some (s', Ok l0) ∧ rtc log_step l0 l.

Lemma reachable_inv l : reachable l → ∃ raws, log_inv raws l.
Proof.
  intros (s & s' & l0 & (Hb1 & Hb2 & Hb3) & Hn & Hs).
  assert (log_inv [] (MkLog new_tree None None s)) as Hb0.
  { split; cbn; try done; [by intros ? ? ?%Hb2|by intros ? ? ?%Hb3]. }
  destruct (log_new_inv [] (MkLog new_tree None None s) s' l0 Hb0 Hn) as (raws & _ & Hl0).
  destruct (log_steps_inv raws l0 l Hs Hl0) as (raws' & _ & ?). eauto.
Qed.

(** ** Properties of every store that keeps the contract *)

(** whatever calls fail and however often the process restarts, the log only grows:
    the leaves of an earlier state are a prefix of those of every later one, and each
    leaf is the hash of the event bytes the store holds at that index. *)
Theorem log_append_only l l' : reachable l → rtc log_step l l' →
  leaves (log_tree l) `prefix_of` leaves (log_tree l') ∧
  ∀ i h, leaf (log_tree l') i = Some h →
    ∃ raw, stored (log_store l') i = Some raw ∧ h = leaf_hash raw.
Proof.
  intros [raws Hl]%reachable_inv Hs. destruct (log_steps_inv raws l l' Hs Hl) as (raws' & [ext ->] & Hl').
  rewrite (inv_tree _ _ Hl), (inv_tree _ _ Hl'). split.
  - exists (leaf_hash <$> ext). cbn. by rewrite fmap_app.
  - intros i h. unfold leaf. cbn. rewrite list_lookup_fmap. intros (raw & Hr & ->)%fmap_Some.
    exists raw. split; [|done]. by apply (inv_stored _ _ Hl').
Qed.

(** A sound body of a non-empty prefix has a consistency proof that verifies. *)
Lemma sound_body_consistent raws l b : log_inv raws l → sound_body raws b → 0 < tree_size b →
  ∃ p, log_consistency_proof (tree_size b) l = Some (Ok p) ∧
    verify_consistency sha3_384 (tree_size b) (cp_new_size p) (root_hash b)
      (cp_new_root_hash p) (cp_audit_path p) = true.
Proof.
  intros Hl [Hle Hroot] Hpos. unfold log_consistency_proof, consistency_proof.
  rewrite (inv_tree _ _ Hl), len_tree_of.
  destruct (Nat.eqb_spec (tree_size b) 0), (Nat.ltb_spec (length raws) (tree_size b)); try lia.
  rewrite Nat.eqb_refl. cbn [orb negb]. rewrite root_mth by (rewrite len_tree_of; lia).
  cbn [mbind option_bind]. eexists. split; [done|]. cbn [cp_new_size cp_new_root_hash cp_audit_path].
  rewrite Hroot. unfold root_or_zero.
  rewrite root_mth by (rewrite len_tree_of, length_take; lia).
  cbn [default tree_of leaves]. rewrite fmap_take, <- (length_fmap leaf_hash raws), firstn_all.
  apply verify_consistency_complete_aux. rewrite length_fmap. lia.
Qed.

(** C21: a tree head, once published, stays provable: from every later state of the log,
    after any calls, failures and restarts, the log has a consistency proof from the
    published size, and the proof verifies against the published root. *)
Theorem published_head_stays_consistent l ts l1 x l2 :
  reachable l → produce_sth ts l = (l1, Ok x) → rtc log_step l1 l2 → 0 < log_len l →
  ∃ b p, body C x = Ok b ∧ tree_size b = log_len l ∧
    log_consistency_proof (log_len l) l2 = Some (Ok p) ∧
    verify_consistency sha3_384 (log_len l) (cp_new_size p) (root_hash b)
      (cp_new_root_hash p) (cp_audit_path p) = true.
Proof.
  intros [raws Hl]%reachable_inv Hp Hs Hpos. pose proof (produce_sth_inv raws ts l Hl) as Hl1.
  rewrite Hp in Hl1. destruct (log_steps_inv raws l1 l2 Hs Hl1) as (raws' & Hpre & Hl2).
  exists (head_body l ts). unfold produce_sth in Hp.
  destruct (signer_sign _ _) as [x'|] eqn:Hx; [|done]. apply Hsigner in Hx.
  destruct (record_sth x' _) as [s' [[]|]]; [|done]. injection Hp as _ ->.
  destruct (sound_body_consistent raws' l2 (head_body l ts)) as (p & Hc & Hv); [done| |done|].
  - eapply sound_body_mono; [done|]. by apply head_body_sound, inv_tree.
  - by exists p.
Qed.

(** an append either leaves the tree as it was and returns an error, or returns the
    next index, at which the store then holds the event and an inclusion proof of it
    exists and verifies against the root. *)
Theorem log_append_correct l e l' r : reachable l → log_append e l = (l', r) →
  match r with
  | Err _ => log_tree l' = log_tree l
  | Ok i => ∃ raw p, encode e = Ok raw ∧ i = log_len l ∧ log_len l' = log_len l + 1 ∧
      stored (log_store l') i = Some raw ∧ log_inclusion_proof i l' = Some (Ok p) ∧
      ip_leaf_hash p = leaf_hash raw ∧
      verify_inclusion sha3_384 (leaf_hash raw) i (ip_tree_size p) (ip_root_hash p)
        (ip_audit_path p) = true
  end.
Proof.
  intros [raws Hl]%reachable_inv Ha. destruct (log_append_inv raws e l Hl) as (raws' & _ & Hl' & Hr).
  pose proof (inv_tree _ _ Hl) as Ht. rewrite Ha in Hl', Hr. cbn in Hl', Hr.
  pose proof (inv_tree _ _ Hl') as Ht'. destruct r as [i|err].
  - unfold log_append in Ha. destruct (encode e) as [raw|]; [|done]. destruct Hr as [-> ->].
    set (all := raws ++ [raw]) in *. assert (all !! length raws = Some raw) as Hlk by apply list_lookup_middle, eq_refl.
    assert (length all = length raws + 1) as Hlen by (unfold all; rewrite length_app; done).
    exists raw. unfold log_inclusion_proof, inclusion_proof, log_len.
    rewrite Ht, Ht', !len_tree_of, root_mth by (rewrite len_tree_of; lia).
    unfold leaf. cbn [tree_of leaves]. rewrite list_lookup_fmap, Hlk.
    destruct (Nat.leb_spec (length all) (length raws)); [lia|].
    cbn [fmap option_fmap option_map mbind option_bind]. eexists. repeat split.
    { done. } { by apply (inv_stored _ _ Hl'). }
    cbn. pose proof (inclusion_loop_complete sha3_384 (length all - 1) (length raws) (leaf_hash <$> all)
      (leaf_hash raw) []) as Hi.
    rewrite list_lookup_fmap, Hlk, app_nil_r, length_fmap in Hi. unfold verify_inclusion.
    rewrite (proj2 (Nat.leb_gt _ _)) by lia. rewrite Hi by (done || lia).
    by rewrite !bool_decide_eq_true_2.
  - rewrite Ht, Ht'. f_equal. by destruct (encode e).
Qed.

(** C38: [AuditLog::new] returns on every store: its replay loop reads each leaf once and
    ends at the first absent index. *)
Theorem log_new_terminates s : ∃ s' r, log_new s = Some (s', r).
Proof.
  unfold log_new. pose proof (replay_total (Datatypes.S (capacity s)) [] s) as Ht.
  destruct (replay _ _ s) as [[s1 [t|e]]|] eqn:E; cbn [mbind option_bind].
  - destruct (latest_sth s1) as [s2 [x|]]; [|eauto]. destruct (check_head t x); [|eauto].
    destruct (latest_cosigned_sth s2) as [s3 [y|]]; eauto.
  - eauto.
  - exfalso. apply Ht; [cbn; lia..|done].
Qed.

(** a log that resumes over a store whose newest head states the root of the events
    [raws] has exactly these events first: editing, dropping or reordering a covered
    leaf file makes [AuditLog::new] refuse, up to a SHA3-384 collision between the
    strings hashed for the two roots. *)
Theorem resume_detects_tampering s s' l x b raws :
  log_new s = Some (s', Ok l) → log_latest_sth l = Some x → body C x = Ok b →
  tree_size b = length raws → root_hash b = root_or_zero (tree_of raws) →
  ∃ found, (∀ i, i < length found → stored s i = found !! i) ∧ log_tree l = tree_of found ∧
    (raws `prefix_of` found ∨
     collision_between sha3_384 (log_inputs raws) (log_inputs (take (length raws) found))).
Proof using WormStore0.
  intros (_ & _ & (found & Ht & Hst & _) & Hlt & _)%log_new_spec Hx Hb Hsize Hroot.
  exists found. split; [done|]. split; [done|]. destruct (Hlt x Hx) as [_ Hc].
  rewrite (check_head_spec _ _ b Hb), Hsize, Hroot, Ht, len_tree_of in Hc.
  destruct Hc as [Hle Hr]. unfold root_or_zero in Hr. cbn [tree_of leaves] in Hr.
  destruct raws as [|r raws]; [left; apply prefix_nil|]. set (rs := r :: raws) in *.
  assert (length rs = Datatypes.S (length raws)) as Hlen by done.
  rewrite !root_mth in Hr by (unfold len; cbn [leaves tree_of]; rewrite ?length_take, ?length_fmap; lia).
  cbn [default leaves tree_of] in Hr. rewrite <- fmap_take in Hr.
  apply mth_inj in Hr as [Hr|Hcol]; [|right|rewrite !length_fmap, length_take; lia].
  - apply leaf_hashes_inj in Hr as [->|Hcol]; [left; apply prefix_take|right].
    eapply collision_between_mono; [..|exact Hcol]; apply log_inputs_leaves.
  - eapply collision_between_mono; [..|exact Hcol]; apply log_inputs_nodes.
Qed.
End AuditLog.

(** ** On [LocalDiskWormStore] *)
Section OnDisk.
Context (sha3_384 : list u8 → hash).
Context {PK Sig : Type} (C : SthCodecs PK Sig) (J : HeadJson).
Context {Event : Type} (encode : Event → result string (list u8)) (signer : SthSigner).
Context `{!SthCodecLaws C, !HeadJsonLaws J} (Hsigner : signs_body C signer).
#[local] Instance this_store : AuditStore LocalDiskWormStore := disk_store C J.
#[local] Instance this_view : StoreView LocalDiskWormStore := disk_view J.
#[local] Instance this_worm : WormStore LocalDiskWormStore := disk_worm C J.
Local Abbreviation leaf_hash := (leaf_hash sha3_384).

(** No head file is torn. *)
Definition heads_decode (d : LocalDiskWormStore) : Prop :=
  (∀ n bytes, sth_files d !! n = Some bytes → ∃ x b, of_json J bytes = Ok x ∧ body C x = Ok b) ∧
  (∀ n bytes, cosigned_files d !! n = Some bytes → ∃ x, co_of_json J bytes = Ok x).

Lemma next_fault_none d : faults d = [] → next_fault d = (NoFault, d).
Proof. destruct d. cbn. by intros ->. Qed.

Lemma replay_no_faults fuel t d d' r : faults d = [] →
  replay sha3_384 fuel t d = Some (d', r) →
  d' = d ∧ ∃ t', r = Ok t'.
Proof.
  intros Hf. revert t. induction fuel as [|fuel IH]; intros t; cbn [replay]; [done|].
  cbn [read_leaf this_store disk_store]. unfold disk_read_leaf, read_file.
  rewrite next_fault_none by done. destruct (file (leaf_path (len t)) d); [apply IH|].
  intros [= <- <-]. eauto.
Qed.

Lemma pick_best_elem best l r : foldl pick_best best l = Some r → best = Some r ∨ r ∈ l.
Proof.
  revert best. induction l as [|e l IH]; intros best; cbn; [by left|].
  intros [H|H]%IH; [|right; by right].
  unfold pick_best in H. destruct best as [[b x]|]; [destruct (b <? e.1)|]; set_solver.
Qed.

Lemma read_latest_no_faults dir to_path d : faults d = [] →
  (∀ n, file (to_path n) d = dir d !! n) →
  ∃ r, read_latest_in dir to_path d = (d, Ok r) ∧
    ∀ n bytes, r = Some (n, bytes) → dir d !! n = Some bytes.
Proof.
  intros Hf Hd. unfold read_latest_in, read_dir, io_bind. rewrite next_fault_none by done.
  destruct (foldl _ _ _) as [[n bytes]|] eqn:E; [|eexists; split; [done|]; done].
  apply pick_best_elem in E as [|Hin%elem_of_map_to_list]; [done|].
  unfold read_file. rewrite next_fault_none, Hd, Hin by done.
  eexists. split; [done|]. by intros ? ? [= <- <-].
Qed.

(** The latest head on a fault-free disk: decoded, and one the disk shows. *)
Lemma disk_latest_sth_ok d : faults d = [] → heads_decode d →
  ∃ o, disk_latest_sth J d = (d, Ok o) ∧
    ∀ x, o = Some x → head_on d x ∧ ∃ b, body C x = Ok b.
Proof.
  intros Hf [Hs _]. unfold disk_latest_sth, io_bind.
  destruct (read_latest_no_faults sth_files sth_path d) as ([[n bytes]|] & -> & Hr); [done..| |by exists None].
  destruct (Hs n bytes) as (x & b & Hx & Hb); [by apply Hr|]. rewrite Hx. exists (Some x).
  split; [done|]. intros ? [= <-]. split; [|by exists b]. exists n, bytes. split; [by apply Hr|done].
Qed.

Lemma disk_latest_cosigned_ok d : faults d = [] → heads_decode d →
  ∃ o, disk_latest_cosigned_sth J d = (d, Ok o).
Proof.
  intros Hf [_ Hs]. unfold disk_latest_cosigned_sth, io_bind.
  destruct (read_latest_no_faults cosigned_files cosigned_path d) as ([[n bytes]|] & -> & Hr);
    [done..| |by exists None].
  destruct (Hs n bytes) as [x Hx]; [by apply Hr|]. rewrite Hx. by exists (Some x).
Qed.

(** A fault-free restart succeeds and reads back every leaf file. *)
Lemma disk_resume raws l : log_inv sha3_384 C raws l → faults (log_store l) = [] → heads_decode (log_store l) →
  ∃ l', log_new sha3_384 C (log_store l) = Some (log_store l, Ok l') ∧
    log_tree l' = tree_of sha3_384 (raws ++ option_list (leaf_files (log_store l) !! length raws)).
Proof.
  intros Hl Hf Hd. set (d := log_store l) in *. unfold log_new.
  pose proof (replay_total sha3_384 (S (capacity d)) [] d) as Ht.
  destruct (replay sha3_384 _ _ d) as [[d' r]|] eqn:Hr; [|exfalso; apply Ht; [cbn; lia..|done]].
  cbn [mbind option_bind]. destruct (replay_no_faults _ _ _ _ _ Hf Hr) as (-> & t & ->).
  apply (replay_spec sha3_384 _ []) in Hr as [_ Hr]; [|intros i; cbn; lia].
  destruct (Hr t eq_refl) as (raws' & -> & _ & Hst & Hn).
  assert (raws' = raws ++ option_list (leaf_files d !! length raws)) as ->.
  { by apply (stored_unique _ _ _ (inv_stored _ _ _ _ Hl) (inv_beyond _ _ _ _ Hl)). }
  cbn [latest_sth this_store disk_store latest_cosigned_sth].
  destruct (disk_latest_sth_ok d Hf Hd) as (o & -> & Ho).
  destruct (disk_latest_cosigned_ok d Hf Hd) as [o' ->].
  assert (check_head sha3_384 C (tree_of sha3_384 (raws ++ option_list (leaf_files d !! length raws))) o = Ok tt) as ->.
  { destruct o as [x|]; [|done]. destruct (Ho x eq_refl) as (Hx & b & Hb).
    apply (check_head_spec _ _ _ _ b Hb). rewrite len_tree_of. cbn [tree_of leaves]. rewrite <- fmap_take.
    apply (sound_body_mono _ raws); [by eexists|]. by eapply inv_head. }
  eexists. split; done.
Qed.

(** *** Files are written once *)
Lemma write_new_keeps p bytes d q x :
  file q d = Some x → file q (write_new p bytes d).1 = Some x.
Proof. intros Hq. destruct (write_new_file p bytes d q) as [->|(-> & Hn & _)]; congruence. Qed.

Lemma disk_append_leaf_keeps i raw h d q x :
  file q d = Some x → file q (disk_append_leaf i raw h d).1 = Some x.
Proof.
  intros Hq. unfold disk_append_leaf, io_bind.
  apply (write_new_keeps (leaf_path i) raw) in Hq.
  destruct (write_new (leaf_path i) raw d) as [d1 [[]|]]; [|done]. cbn [fst] in Hq.
  apply (write_new_keeps (hash_path i) (vec_to_list h)) in Hq.
  by destruct (write_new (hash_path i) _ d1) as [d2 [[]|]].
Qed.

Lemma read_file_files p d q : file q (read_file p d).1 = file q d.
Proof.
  rewrite <- (file_tick q d). unfold read_file, tick. by destruct (next_fault d) as [[] d0].
Qed.

Lemma read_latest_files dir to_path d q : file q (read_latest_in dir to_path d).1 = file q d.
Proof.
  rewrite <- (file_tick q d). unfold read_latest_in, io_bind, read_dir, tick.
  destruct (next_fault d) as [[] d0]; cbn [snd]; try done.
  destruct (foldl _ _ _) as [[n b]|]; [|done].
  rewrite <- (read_file_files (to_path n) d0). by destruct (read_file (to_path n) d0) as [d1 []].
Qed.

Lemma replay_files fuel t d d' r q :
  replay sha3_384 fuel t d = Some (d', r) → file q d' = file q d.
Proof.
  revert t d. induction fuel as [|fuel IH]; intros t d; cbn [replay]; [done|].
  cbn [read_leaf this_store disk_store]. unfold disk_read_leaf.
  rewrite <- (read_file_files (leaf_path (len t)) d q).
  destruct (read_file _ d) as [d1 [raw|[[]| | | |]]]; cbn [fst]; [apply IH|by intros [= <- _]..].
Qed.

Lemma log_new_files d d' l q : log_new sha3_384 C d = Some (d', Ok l) → file q (log_store l) = file q d.
Proof.
  unfold log_new. destruct (replay _ _ _ _) as [[d1 r]|] eqn:Hr; cbn [mbind option_bind]; [|done].
  rewrite <- (replay_files _ _ _ _ _ q Hr). destruct r as [t|]; [|done].
  cbn [latest_sth latest_cosigned_sth this_store disk_store]. unfold disk_latest_sth, io_bind.
  pose proof (read_latest_files sth_files sth_path d1 q) as H1.
  destruct (read_latest_in sth_files sth_path d1) as [d2 [o|]]; cbn [fst] in H1; [|done]. rewrite <- H1.
  assert (∀ x, check_head sha3_384 C t x = Ok tt →
    (let '(s, r) := disk_latest_cosigned_sth J d2 in
     match r with Ok cosigned => Some (s, Ok (MkLog t x cosigned s)) | Err e => Some (s, Err (LogStore e)) end)
    = Some (d', Ok l) → file q (log_store l) = file q d2) as Hco.
  { intros x _. unfold disk_latest_cosigned_sth, io_bind.
    rewrite <- (read_latest_files cosigned_files cosigned_path d2 q).
    destruct (read_latest_in cosigned_files _ d2) as [d3 [[[n b]|]|]]; cbn [fst];
      [destruct (co_of_json J b)|..]; by intros [= _ <-]. }
  destruct o as [[n b]|]; [destruct (of_json J b) as [x|]; [|done]|]; unfold io_result;
    destruct (check_head _ _ _ _) as [[]|] eqn:Hc; try done; by apply Hco.
Qed.

(** a file once created is never changed or removed: not by any append, head
    publication or restart, whichever of their file-system calls fail. *)
Theorem worm_files_kept l l' p bytes : rtc (log_step sha3_384 C encode signer) l l' →
  file p (log_store l) = Some bytes → file p (log_store l') = Some bytes.
Proof.
  induction 1 as [|l l1 l2 Hs _ IH]; [done|]. intros Hp. apply IH. clear IH.
  destruct Hs as [e l0|ts l0|ts q l0|l0 s l1 Hn].
  - unfold log_append. destruct (encode e) as [raw|]; [|done].
    apply (disk_append_leaf_keeps (len (log_tree l0)) raw (leaf_hash raw)) in Hp.
    cbn [append_leaf this_store disk_store]. by destruct (disk_append_leaf _ _ _ _) as [s [[]|]].
  - unfold produce_sth. destruct (signer_sign _ _) as [x|]; [|done].
    cbn [record_sth this_store disk_store]. unfold disk_record_sth.
    destruct (body C x) as [b|]; [|done]. destruct (to_json J x) as [js|]; [|done].
    apply (write_new_keeps (sth_path (tree_size b)) js) in Hp.
    by destruct (write_new _ _ _) as [s [[]|]].
  - unfold produce_cosigned_sth. destruct (quorum_sign _ _ _) as [x|]; [|done].
    cbn [record_cosigned_sth this_store disk_store]. unfold disk_record_cosigned_sth.
    destruct (co_body C x) as [b|]; [|done]. destruct (co_to_json J x) as [js|]; [|done].
    apply (write_new_keeps (cosigned_path (tree_size b)) js) in Hp.
    by destruct (write_new _ _ _) as [s [[]|]].
  - by rewrite (log_new_files _ _ _ _ Hn).
Qed.

(** a restart that meets no I/O failure rebuilds the tree the process had, when no
    append of that process left a torn leaf behind and no head file is torn. *)
Theorem disk_restart_roundtrip l : reachable sha3_384 C encode signer l →
  faults (log_store l) = [] → heads_decode (log_store l) →
  leaf_files (log_store l) !! log_len l = None →
  ∃ l', log_new sha3_384 C (log_store l) = Some (log_store l, Ok l') ∧ log_tree l' = log_tree l.
Proof.
  intros [raws Hl]%(reachable_inv _ _ _ _ Hsigner) Hf Hd Hn.
  destruct (disk_resume raws l Hl Hf Hd) as (l' & Hl' & Ht). exists l'. split; [done|].
  unfold log_len in Hn. rewrite (inv_tree _ _ _ _ Hl), len_tree_of in Hn.
  rewrite Ht, Hn, app_nil_r. by rewrite (inv_tree _ _ _ _ Hl).
Qed.

(** an append that failed after creating its leaf file blocks the log: every later
    append is refused as [AlreadyExists] and changes nothing, and a restart brings the
    torn bytes of the failed event into the tree. *)
Theorem torn_append_blocks_log l torn : reachable sha3_384 C encode signer l →
  faults (log_store l) = [] → leaf_files (log_store l) !! log_len l = Some torn →
  (∀ e raw, encode e = Ok raw →
    log_append sha3_384 encode e l = (l, Err (LogStore (AlreadyExists (leaf_path (log_len l)))))) ∧
  (heads_decode (log_store l) →
    ∃ l', log_new sha3_384 C (log_store l) = Some (log_store l, Ok l') ∧
      leaves (log_tree l') = leaves (log_tree l) ++ [leaf_hash torn]).
Proof.
  intros [raws Hl]%(reachable_inv _ _ _ _ Hsigner) Hf Hn. split.
  - intros e raw He. unfold log_append. rewrite He. cbn [append_leaf this_store disk_store].
    unfold disk_append_leaf, io_bind, write_new. rewrite next_fault_none by done.
    cbn [file]. unfold log_len in *. rewrite Hn. by destruct l.
  - intros Hd. destruct (disk_resume raws l Hl Hf Hd) as (l' & Hl' & Ht). exists l'. split; [done|].
    unfold log_len in Hn. rewrite (inv_tree _ _ _ _ Hl), len_tree_of in Hn.
    rewrite Ht, Hn, (inv_tree _ _ _ _ Hl). cbn. by rewrite fmap_app.
Qed.
End OnDisk.

(** ** Concrete runs *)

#[export] Instance SthBody_eq_dec : EqDecision SthBody.
Proof. solve_decision. Defined.
#[export] Instance SignedTreeHead_eq_dec : EqDecision SignedTreeHead.
Proof. solve_decision. Defined.
#[export] Instance CoSignature_eq_dec : EqDecision CoSignature.
Proof. solve_decision. Defined.
#[export] Instance CoSignedTreeHead_eq_dec : EqDecision CoSignedTreeHead.
Proof. solve_decision. Defined.

#[export] Instance SthBody_inhabited : Inhabited SthBody := populate (MkSthBody 0 zero_hash 0).
#[export] Instance SignedTreeHead_inhabited : Inhabited SignedTreeHead := populate (MkSth [] "" "").

(** A codec for the values of a table: the index in unary, then a terminator. *)
Section TableCodec.
Context {A E : Type} `{EqDecision A} (err : E) (tab : list A).

Definition tab_encode (x : A) : result E (list u8) :=
  match list_find (x =.) tab with
  | Some (i, _) => Ok (replicate i Byte.x00 ++ [Byte.x01])
  | None => Err err
  end.

Definition tab_decode (l : list u8) : result E A :=
  match decide (last l = Some Byte.x01), tab !! (length l - 1) with
  | left _, Some x => Ok x
  | _, _ => Err err
  end.

Lemma tab_decode_encode x l : tab_encode x = Ok l → tab_decode l = Ok x.
Proof.
  unfold tab_encode, tab_decode. destruct (list_find _ _) as [[i y]|] eqn:E'; [|done].
  apply list_find_Some in E' as (Hi & -> & _). intros [= <-].
  rewrite decide_True by apply last_snoc. rewrite length_app, length_replicate. cbn.
  by rewrite Nat.add_sub, Hi.
Qed.

Lemma tab_decode_torn x l n y : tab_encode x = Ok l → tab_decode (take n l) = Ok y → y = x.
Proof.
  intros Hx. pose proof (tab_decode_encode x l Hx) as Hd. revert Hx. unfold tab_encode.
  destruct (list_find _ _) as [[i z]|]; [|done]. intros [= <-].
  destruct (decide (i + 1 ≤ n)) as [Hn|Hn].
  - rewrite take_ge by (rewrite length_app, length_replicate; cbn; lia). congruence.
  - rewrite take_app_le by (rewrite length_replicate; lia). rewrite take_replicate.
    unfold tab_decode. rewrite decide_False; [done|]. intros Hl. apply last_Some_elem_of in Hl.
    by apply elem_of_replicate in Hl as [[=] _].
Qed.
End TableCodec.

Definition toy_raws : list (list u8) := [[Byte.x0a]; [Byte.x0b; Byte.x0c]; [Byte.x0d]].
Definition toy_bodies : list SthBody :=
  (λ n, {| tree_size := n; root_hash := root_or_zero toy_sha3 (tree_of toy_sha3 (take n toy_raws));
           timestamp := 7 |}) <$> [0; 1; 2; 3].
Definition toy_log_codecs : SthCodecs nat nat :=
  {| encode_body := tab_encode (SthEncode "") toy_bodies;
     decode_body := tab_decode (SthEncode "") toy_bodies;
     b64_decode := λ s, Some []; parse_signature := λ l, Some 0; pk_verify := λ _ _ _ _, true |}.
Definition toy_log_signer : SthSigner :=
  in_process_signer toy_log_codecs "k" (λ _ m, Ok m) (λ _, "sig").
Definition toy_heads : list SignedTreeHead :=
  omap (λ b, match signer_sign toy_log_signer b with Ok x => Some x | _ => None end) toy_bodies.
Definition toy_json : HeadJson :=
  {| to_json := tab_encode "" toy_heads; of_json := tab_decode "" toy_heads;
     co_to_json := tab_encode "" []; co_of_json := tab_decode "" [] |}.

#[export] Instance toy_codec_laws : SthCodecLaws toy_log_codecs.
Proof. intros b cbor. apply tab_decode_encode. Qed.
#[export] Instance toy_json_laws : HeadJsonLaws toy_json.
Proof.
  split; intros *; first [apply tab_decode_encode | apply tab_decode_torn].
Qed.
#[export] Instance toy_store : AuditStore LocalDiskWormStore := disk_store toy_log_codecs toy_json.
#[export] Instance toy_view : StoreView LocalDiskWormStore := disk_view toy_json.

Lemma toy_signs : signs_body toy_log_codecs toy_log_signer.
Proof. apply in_process_signs_body. apply toy_codec_laws. Qed.

Definition toy_encode (raw : list u8) : result string (list u8) := Ok raw.
Definition toy_append (i : nat) (l : AuditLog LocalDiskWormStore) : AuditLog LocalDiskWormStore :=
  (log_append toy_sha3 toy_encode (toy_raws !!! i) l).1.
Definition toy_publish (l : AuditLog LocalDiskWormStore) :=
  produce_sth toy_sha3 toy_log_signer 7 l.
Definition toy_restart (l : AuditLog LocalDiskWormStore) : AuditLog LocalDiskWormStore :=
  match log_new toy_sha3 toy_log_codecs (log_store l) with Some (_, Ok l') => l' | _ => l end.

(** An empty log; two events; a published head; a third event and a restart. *)
Definition toy_log (fs : list fault) : AuditLog LocalDiskWormStore :=
  match log_new toy_sha3 toy_log_codecs (open_empty fs) with
  | Some (_, Ok l) => l
  | _ => MkLog new_tree None None (open_empty fs)
  end.
Definition toy_l2 : AuditLog LocalDiskWormStore := toy_append 1 (toy_append 0 (toy_log [])).
Definition toy_l3 : AuditLog LocalDiskWormStore := (toy_publish toy_l2).1.
Definition toy_l4 : AuditLog LocalDiskWormStore := toy_restart (toy_append 2 toy_l3).

Local Abbreviation toy_step := (log_step toy_sha3 toy_log_codecs toy_encode toy_log_signer).
Local Abbreviation toy_reachable := (reachable toy_sha3 toy_log_codecs toy_encode toy_log_signer).

Lemma toy_append_step i l : toy_step l (toy_append i l).
Proof. apply step_append. Qed.
Lemma toy_publish_step l : toy_step l (toy_publish l).1.
Proof. apply step_sth. Qed.

Lemma toy_reachable_append i l : toy_reachable l → toy_reachable (toy_append i l).
Proof.
  intros (s & s' & l0 & Hb & Hn & Hs). exists s, s', l0. split; [done|]. split; [done|].
  eapply rtc_r; [done|apply toy_append_step].
Qed.

Lemma blank_empty fs : blank (open_empty fs).
Proof.
  split; [|split].
  - intros i. apply lookup_empty.
  - intros x (n & b & Hn & _). discriminate Hn.
  - intros x (n & b & Hn & _). discriminate Hn.
Qed.

Lemma toy_reachable_l2 : toy_reachable toy_l2.
Proof.
  do 2 apply toy_reachable_append. exists (open_empty []), (open_empty []), (toy_log []).
  split; [apply blank_empty|]. split; [vm_compute; reflexivity|apply rtc_refl].
Qed.

Lemma toy_run : rtc toy_step toy_l3 toy_l4.
Proof.
  eapply rtc_l; [apply (toy_append_step 2)|]. apply rtc_once.
  eapply (step_restart _ _ _ _ _ (log_store toy_l4)). vm_compute. reflexivity.
Qed.

Lemma published_head_stays_consistent_witness : ∃ x b p,
  toy_publish toy_l2 = (toy_l3, Ok x) ∧ body toy_log_codecs x = Ok b ∧ tree_size b = 2 ∧
  log_consistency_proof toy_sha3 2 toy_l4 = Some (Ok p) ∧
  verify_consistency toy_sha3 2 (cp_new_size p) (root_hash b) (cp_new_root_hash p)
    (cp_audit_path p) = true.
Proof.
  destruct (toy_publish toy_l2) as [l [x|e]] eqn:E; [|vm_compute in E; discriminate].
  assert (l = toy_l3) as -> by (unfold toy_l3; rewrite E; reflexivity).
  destruct (published_head_stays_consistent toy_sha3 toy_log_codecs toy_encode toy_log_signer
    toy_signs toy_l2 7 toy_l3 x toy_l4) as (b & p & H).
  - exact toy_reachable_l2.
  - exact E.
  - exact toy_run.
  - vm_compute. lia.
  - exists x, b, p. split; [reflexivity|exact H].
Defined.

Lemma log_append_only_witness :
  leaves (log_tree toy_l3) `prefix_of` leaves (log_tree toy_l4) ∧
  ∀ i h, leaf (log_tree toy_l4) i = Some h →
    ∃ raw, stored (log_store toy_l4) i = Some raw ∧ h = leaf_hash toy_sha3 raw.
Proof.
  apply (log_append_only toy_sha3 toy_log_codecs toy_encode toy_log_signer toy_signs toy_l3 toy_l4).
  - destruct toy_reachable_l2 as (s & s' & l0 & Hb & Hn & Hs). exists s, s', l0.
    split; [exact Hb|]. split; [exact Hn|]. eapply rtc_r; [exact Hs|apply toy_publish_step].
  - exact toy_run.
Defined.

Lemma log_append_correct_witness : ∃ raw p,
  toy_encode [Byte.x0d] = Ok raw ∧ 2 = log_len toy_l2 ∧ log_len (toy_append 2 toy_l2) = log_len toy_l2 + 1 ∧
  stored (log_store (toy_append 2 toy_l2)) 2 = Some raw ∧
  log_inclusion_proof toy_sha3 2 (toy_append 2 toy_l2) = Some (Ok p) ∧
  ip_leaf_hash p = leaf_hash toy_sha3 raw ∧
  verify_inclusion toy_sha3 (leaf_hash toy_sha3 raw) 2 (ip_tree_size p) (ip_root_hash p)
    (ip_audit_path p) = true.
Proof.
  apply (log_append_correct toy_sha3 toy_log_codecs toy_encode toy_log_signer toy_signs
    toy_l2 [Byte.x0d] (toy_append 2 toy_l2) (Ok 2)).
  - exact toy_reachable_l2.
  - vm_compute. reflexivity.
Defined.

Lemma log_new_terminates_witness : ∃ s' r,
  log_new toy_sha3 toy_log_codecs (log_store toy_l4) = Some (s', r).
Proof. exact (log_new_terminates toy_sha3 toy_log_codecs (log_store toy_l4)). Defined.

Lemma resume_detects_tampering_witness : ∃ found,
  (∀ i, i < length found → stored (log_store toy_l3) i = found !! i) ∧
  log_tree (toy_restart toy_l3) = tree_of toy_sha3 found ∧
  (take 2 toy_raws `prefix_of` found ∨
   collision_between toy_sha3 (log_inputs toy_sha3 (take 2 toy_raws)) (log_inputs toy_sha3 (take 2 found))).
Proof.
  apply (resume_detects_tampering toy_sha3 toy_log_codecs (log_store toy_l3)
    (log_store (toy_restart toy_l3)) (toy_restart toy_l3) (toy_heads !!! 2) (toy_bodies !!! 2)
    (take 2 toy_raws)); vm_compute; reflexivity.
Defined.

Lemma worm_files_kept_witness : file (leaf_path 0) (log_store toy_l4) = Some [Byte.x0a].
Proof.
  apply (worm_files_kept toy_sha3 toy_log_codecs toy_json toy_encode toy_log_signer toy_l3 toy_l4).
  - exact toy_run.
  - vm_compute. reflexivity.
Defined.

Lemma toy_heads_decode : heads_decode toy_log_codecs toy_json (log_store toy_l3).
Proof.
  split; intros n bytes.
  - replace (sth_files (log_store toy_l3)) with (<[2 := [Byte.x00; Byte.x00; Byte.x01]]> (∅ : gmap nat (list u8)))
      by (vm_compute; reflexivity).
    intros [[<- <-]|[_ H]]%lookup_insert_Some; [|by rewrite lookup_empty in H].
    exists (toy_heads !!! 2), (toy_bodies !!! 2). split; vm_compute; reflexivity.
  - replace (cosigned_files (log_store toy_l3)) with (∅ : gmap nat (list u8)) by (vm_compute; reflexivity).
    by rewrite lookup_empty.
Qed.

Lemma disk_restart_roundtrip_witness : ∃ l',
  log_new toy_sha3 toy_log_codecs (log_store toy_l3) = Some (log_store toy_l3, Ok l') ∧
  log_tree l' = log_tree toy_l3.
Proof.
  apply (disk_restart_roundtrip toy_sha3 toy_log_codecs toy_json toy_encode toy_log_signer toy_signs).
  - destruct toy_reachable_l2 as (s & s' & l0 & Hb & Hn & Hs). exists s, s', l0.
    split; [exact Hb|]. split; [exact Hn|]. eapply rtc_r; [exact Hs|apply toy_publish_step].
  - vm_compute. reflexivity.
  - exact toy_heads_decode.
  - vm_compute. reflexivity.
Defined.

(** The write of the first event's [.hash] file fails: its [.cbor] file stays. *)
Definition toy_torn : AuditLog LocalDiskWormStore :=
  toy_append 0 (toy_log [NoFault; NoFault; NoFault; NoFault; CallFails]).

Lemma torn_append_blocks_log_witness :
  log_append toy_sha3 toy_encode [Byte.x0d] toy_torn
    = (toy_torn, Err (LogStore (AlreadyExists (leaf_path 0)))) ∧
  ∃ l', log_new toy_sha3 toy_log_codecs (log_store toy_torn) = Some (log_store toy_torn, Ok l') ∧
    leaves (log_tree l') = leaves (log_tree toy_torn) ++ [leaf_hash toy_sha3 [Byte.x0a]].
Proof.
  destruct (torn_append_blocks_log toy_sha3 toy_log_codecs toy_json toy_encode toy_log_signer
    toy_signs toy_torn [Byte.x0a]) as [H1 H2].
  - apply toy_reachable_append. eexists _, _, _.
    split; [apply (blank_empty [NoFault; NoFault; NoFault; NoFault; CallFails])|].
    split; [vm_compute; reflexivity|apply rtc_refl].
  - vm_compute. reflexivity.
  - vm_compute. reflexivity.
  - split; [by apply (H1 _ [Byte.x0d])|]. apply H2. split; intros n bytes H;
      vm_compute in H; discriminate H.
Defined.
