(* ===== verification/GF256.v ===== *)
(** Arithmetic of GF(2^8) as crates/ferro-tee/src/shamir.rs computes it, and the
    proof that it is a field. *)
From Stdlib Require Import Ring.
From S2P Require Import Prelude.

(** The AES polynomial [0x11b]. *)
Definition RIJNDAEL : Z := 0x11b.

(** One iteration of the loop of [gf_mul] on [(p, a, b)]. *)
Definition gf_mul_step (s : u8 * u8 * u8) : u8 * u8 * u8 :=
  let '(p, a, b) := s in
  let p := if bool_decide (u8.and b Byte.x01 = Byte.x00) then p else u8.xor p a in
  let hi := u8.and a Byte.x80 in
  let a := u8.wrapping_shl1 a in
  let a := if bool_decide (hi = Byte.x00) then a else u8.xor a (u8.of_Z (Z.land RIJNDAEL 0xff)) in
  (p, a, u8.shr1 b).

Definition gf_mul (a b : u8) : u8 := (Nat.iter 8 gf_mul_step (Byte.x00, a, b)).1.1.

(** [gf_pow]'s loop; [n] is a [u32], so 32 iterations are enough. *)
Fixpoint gf_pow_loop (fuel : nat) (acc base : u8) (n : Z) : u8 :=
  match fuel with
  | 0 => acc
  | S fuel =>
      if bool_decide (0 < n)%Z then
        let acc := if bool_decide (Z.land n 1 = 1)%Z then gf_mul acc base else acc in
        gf_pow_loop fuel acc (gf_mul base base) (Z.shiftr n 1)
      else acc
  end.

Definition gf_pow (a : u8) (n : Z) : u8 := gf_pow_loop 32 Byte.x01 a n.

Definition gf_inv (a : u8) : u8 := gf_pow a 254.

(** The operations are reasoned about through their laws only. *)
#[global] Arguments gf_mul : simpl never.
#[global] Arguments gf_inv : simpl never.
#[global] Arguments u8.xor : simpl never.

Declare Scope gf_scope.
Delimit Scope gf_scope with gf.
Notation "a + b" := (u8.xor a b) : gf_scope.
Notation "a * b" := (gf_mul a b) : gf_scope.
Notation "0" := Byte.x00 : gf_scope.
Notation "1" := Byte.x01 : gf_scope.
Local Open Scope gf_scope.

(** Evaluate a goal on all bytes, or all pairs of bytes. *)
Ltac exhaustive :=
  lazymatch goal with
  | |- ∀ a b : u8, @?P a b => apply (@u8.forall2 P ltac:(intros; cbv beta; apply _))
  | |- ∀ a : u8, @?P a => apply (@u8.forall1 P ltac:(intros; cbv beta; apply _))
  end; vm_compute; reflexivity.

(** ** Addition *)
Lemma to_Z_xor a b : u8.to_Z (a + b) = Z.lxor (u8.to_Z a) (u8.to_Z b).
Proof. revert a b. exhaustive. Qed.

Lemma gf_add_comm a b : a + b = b + a.
Proof. apply u8.to_Z_inj. rewrite !to_Z_xor. apply Z.lxor_comm. Qed.
Lemma gf_add_assoc a b c : a + (b + c) = (a + b) + c.
Proof. apply u8.to_Z_inj. rewrite !to_Z_xor. symmetry. apply Z.lxor_assoc. Qed.
Lemma gf_add_0_l a : 0 + a = a.
Proof. apply u8.to_Z_inj. rewrite to_Z_xor. apply Z.lxor_0_l. Qed.
Lemma gf_add_0_r a : a + 0 = a.
Proof. rewrite gf_add_comm. apply gf_add_0_l. Qed.
Lemma gf_add_diag a : a + a = 0.
Proof. apply u8.to_Z_inj. rewrite to_Z_xor. apply Z.lxor_nilpotent. Qed.
Lemma gf_add_eq_0 a b : a + b = 0 → a = b.
Proof.
  intros H. rewrite <- (gf_add_0_r a), <- (gf_add_diag b), gf_add_assoc, H. apply gf_add_0_l.
Qed.

Lemma gf_add_swap a b c d : (a + b) + (c + d) = (a + c) + (b + d).
Proof.
  rewrite <- !gf_add_assoc. f_equal. rewrite !gf_add_assoc. f_equal. apply gf_add_comm.
Qed.

(** ** Multiplication is bilinear *)

(** The conditional addition of a step is linear in the two bits it tests. *)
Definition low (b x : u8) : u8 := if bool_decide (u8.and b Byte.x01 = Byte.x00) then 0 else x.
Definition xtime (a : u8) : u8 :=
  if bool_decide (u8.and a Byte.x80 = Byte.x00) then u8.wrapping_shl1 a
  else u8.wrapping_shl1 a + u8.of_Z (Z.land RIJNDAEL 0xff).

Lemma gf_mul_step_eq p a b : gf_mul_step (p, a, b) = (p + low b a, xtime a, u8.shr1 b).
Proof.
  unfold gf_mul_step, low, xtime. repeat case_bool_decide; by rewrite ?gf_add_0_r.
Qed.

Lemma xtime_add a b : xtime (a + b) = xtime a + xtime b.
Proof. revert a b. exhaustive. Qed.
Lemma shr1_add a b : u8.shr1 (a + b) = u8.shr1 a + u8.shr1 b.
Proof. revert a b. exhaustive. Qed.

Lemma low_bit_add a b :
  bool_decide (u8.and (a + b) Byte.x01 = 0)
  = eqb (bool_decide (u8.and a Byte.x01 = 0)) (bool_decide (u8.and b Byte.x01 = 0)).
Proof. revert a b. exhaustive. Qed.

Lemma low_add_l a b x : low (a + b) x = low a x + low b x.
Proof.
  unfold low. rewrite low_bit_add.
  repeat case_bool_decide; cbn [eqb]; by rewrite ?gf_add_diag, ?gf_add_0_l, ?gf_add_0_r.
Qed.
Lemma low_add_r b x y : low b (x + y) = low b x + low b y.
Proof. unfold low. case_bool_decide; [by rewrite gf_add_0_l|done]. Qed.

Definition gf_loop (n : nat) (s : u8 * u8 * u8) : u8 := (Nat.iter n gf_mul_step s).1.1.

Lemma gf_loop_S n p a b : gf_loop (S n) (p, a, b) = gf_loop n (p + low b a, xtime a, u8.shr1 b).
Proof. unfold gf_loop. rewrite Nat.iter_succ_r, gf_mul_step_eq. done. Qed.

Lemma gf_loop_add_r n p p' a b b' :
  gf_loop n (p + p', a, b + b') = gf_loop n (p, a, b) + gf_loop n (p', a, b').
Proof.
  revert p p' a b b'. induction n as [|n IH]; intros; [done|].
  rewrite !gf_loop_S, <- IH, low_add_l, shr1_add, gf_add_swap. done.
Qed.

Lemma gf_loop_add_l n p p' a a' b :
  gf_loop n (p + p', a + a', b) = gf_loop n (p, a, b) + gf_loop n (p', a', b).
Proof.
  revert p p' a a' b. induction n as [|n IH]; intros; [done|].
  rewrite !gf_loop_S, <- IH, low_add_r, xtime_add, gf_add_swap. done.
Qed.

Lemma gf_mul_add_r a b c : a * (b + c) = a * b + a * c.
Proof. exact (gf_loop_add_r 8 0 0 a b c). Qed.
Lemma gf_mul_add_l a b c : (a + b) * c = a * c + b * c.
Proof. exact (gf_loop_add_l 8 0 0 a b c). Qed.

(** ** Everything else follows from the eight powers of [x] *)
Definition basis : list u8 := (λ i, u8.of_Z (2 ^ i)) <$> seqZ 0 8.

Lemma gf_span_ind (P : u8 → Prop) :
  P 0 → (∀ a b, P a → P b → P (a + b)) → Forall P basis → ∀ a, P a.
Proof.
  intros H0 Hadd Hb a. rewrite Forall_forall in Hb.
  assert (a = foldr u8.xor 0 (filter (λ e, u8.and a e ≠ 0) basis)) as ->.
  { revert a. exhaustive. }
  assert (∀ l, l ⊆ basis → P (foldr u8.xor 0 l)) as Hl; [|apply Hl; intros e; rewrite list_elem_of_filter; tauto].
  induction l as [|e l IH]; intros Hl; [done|]. cbn.
  apply Hadd; [apply Hb, Hl; left|apply IH; intros x Hx; apply Hl; by right].
Qed.

Lemma gf_mul_0_l a : 0 * a = 0.
Proof. revert a. exhaustive. Qed.
Lemma gf_mul_0_r a : a * 0 = 0.
Proof. revert a. exhaustive. Qed.
Lemma gf_mul_1_l a : 1 * a = a.
Proof. revert a. exhaustive. Qed.

Lemma gf_mul_comm a b : a * b = b * a.
Proof.
  revert a. apply gf_span_ind.
  - by rewrite gf_mul_0_l, gf_mul_0_r.
  - intros x y Hx Hy. rewrite gf_mul_add_l, gf_mul_add_r. congruence.
  - rewrite Forall_forall. intros x Hx. revert b. apply gf_span_ind.
    + by rewrite gf_mul_0_l, gf_mul_0_r.
    + intros b c Hb Hc. rewrite gf_mul_add_l, gf_mul_add_r. congruence.
    + revert x Hx. rewrite <- Forall_forall. refine (bool_decide_unpack _ _). vm_compute. exact I.
Qed.

Lemma gf_mul_assoc a b c : a * (b * c) = (a * b) * c.
Proof.
  revert a. apply gf_span_ind; [by rewrite !gf_mul_0_l| |].
  { intros x y Hx Hy. rewrite !gf_mul_add_l. congruence. }
  rewrite Forall_forall. intros x Hx. revert b. apply gf_span_ind.
  { by rewrite gf_mul_0_l, gf_mul_0_r, gf_mul_0_l. }
  { intros y z Hy Hz. rewrite !gf_mul_add_l, !gf_mul_add_r, !gf_mul_add_l. congruence. }
  rewrite Forall_forall. intros y Hy. revert c. apply gf_span_ind; [by rewrite !gf_mul_0_r| |].
  { intros z w Hz Hw. rewrite !gf_mul_add_r. congruence. }
  revert y Hy. rewrite <- Forall_forall. revert x Hx. rewrite <- Forall_forall.
  refine (bool_decide_unpack _ _). vm_compute. exact I.
Qed.

Lemma gf_inv_r_all a : a = 0 ∨ a * gf_inv a = 1.
Proof. revert a. exhaustive. Qed.

Lemma gf_mul_inv_r a : a ≠ 0 → a * gf_inv a = 1.
Proof. intros Ha. by destruct (gf_inv_r_all a). Qed.

Lemma gf_ring_theory : ring_theory 0 1 u8.xor gf_mul u8.xor (λ a, a) eq.
Proof.
  split; intros.
  - apply gf_add_0_l.
  - apply gf_add_comm.
  - apply gf_add_assoc.
  - apply gf_mul_1_l.
  - apply gf_mul_comm.
  - apply gf_mul_assoc.
  - apply gf_mul_add_l.
  - done.
  - apply gf_add_diag.
Qed.
Add Ring gf_ring : gf_ring_theory.

Lemma gf_integral a b : a * b = 0 → a = 0 ∨ b = 0.
Proof.
  intros H. destruct (decide (a = 0)) as [|Ha]; [by left|right].
  replace b with (gf_inv a * (a * b)); [by rewrite H, gf_mul_0_r|].
  rewrite gf_mul_assoc, (gf_mul_comm _ a), gf_mul_inv_r by done. apply gf_mul_1_l.
Qed.
