(* ===== verification/Shamir.v ===== *)
(** Shamir sharing of the issuance key (crates/ferro-tee/src/shamir.rs) and its
    reconstruction by the cluster (crates/ferro-tee/src/cluster.rs). *)
From Stdlib Require Import Ring.
From S2P Require Import Prelude GF256.

(** The failures of [TeeError] these two files return. *)
Inductive TeeError :=
  | Mlock (e : string)
  | BadReport (what : string)
  | NotEnoughShares (have need : nat)
  | DuplicateShare (x : u8)
  | InvalidShareIndex (x : u8)
  | ShareLength.

Record Share := MkShare { share_x : u8; share_y : list u8 }.
Record ShareSet := MkShareSet { threshold : nat; total : nat; shares : list Share }.

(** [eval]: Horner's method from the highest coefficient down. *)
Definition eval (coeffs : list u8) (x : u8) : u8 :=
  foldl (λ acc c, u8.xor (gf_mul acc x) c) Byte.x00 (reverse coeffs).

(** [share.y[i] = eval(&coeffs, share.x)]. *)
Definition set_y (i : nat) (coeffs : list u8) (s : Share) : Share :=
  {| share_x := share_x s; share_y := <[i := eval coeffs (share_x s)]> (share_y s) |}.

(** [split].  [random i j] is the [j]-th byte the generator fills in for the
    [i]-th byte of the secret. *)
Definition split (random : nat → nat → u8) (secret : list u8) (t n : nat) :
    result TeeError ShareSet :=
  if (t =? 0) || (n <? t) || (255 <? n) then Err (BadReport "invalid shamir parameters") else
  let init := (λ x, {| share_x := u8.of_Z x; share_y := replicate (length secret) Byte.x00 |})
                <$> seqZ 1 (Z.of_nat n) in
  let filled :=
    foldl (λ ss '(i, s_byte),
             let coeffs := s_byte :: (random i <$> seq 1 (t - 1)) in
             set_y i coeffs <$> ss)
          init (zip (seq 0 (length secret)) secret) in
  Ok {| threshold := t; total := n; shares := filled |}.

(** The validity loop of [combine]: the first bad share decides. *)
Fixpoint check_shares (len : nat) (ss : list Share) : result TeeError unit :=
  match ss with
  | [] => Ok tt
  | s :: ss =>
      if bool_decide (share_x s = Byte.x00) then Err (InvalidShareIndex Byte.x00) else
      if negb (length (share_y s) =? len) then Err ShareLength else
      check_shares len ss
  end.

(** The duplicate loop: the first [i] that has an equal later index. *)
Fixpoint check_duplicates (ss : list Share) : result TeeError unit :=
  match ss with
  | [] => Ok tt
  | s :: ss =>
      if existsb (λ s', bool_decide (share_x s = share_x s')) ss
      then Err (DuplicateShare (share_x s))
      else check_duplicates ss
  end.

(** [xs[j]]; every index used is in range. *)
Definition at_ (xs : list u8) (j : nat) : u8 := default Byte.x00 (xs !! j).

(** The weight of share [j]: the [for k] loop over numerator and denominator. *)
Definition weight (xs : list u8) (j : nat) : u8 :=
  let '(num, den) :=
    foldl (λ '(num, den) k,
             if k =? j then (num, den)
             else (gf_mul num (at_ xs k), gf_mul den (u8.xor (at_ xs j) (at_ xs k))))
          (Byte.x01, Byte.x01) (seq 0 (length xs)) in
  gf_mul num (gf_inv den).

(** Byte [i] of the secret: [acc ^= s.y[i] * weights[j]]. *)
Definition combine_byte (ss : list Share) (weights : list u8) (i : nat) : u8 :=
  foldl (λ acc '(s, w), u8.xor acc (gf_mul (at_ (share_y s) i) w)) Byte.x00 (zip ss weights).

Definition combine (ss : list Share) : result TeeError (list u8) :=
  match ss with
  | [] => Err (NotEnoughShares 0 1)
  | s0 :: _ =>
      let len := length (share_y s0) in
      let? _ := check_shares len ss in
      let? _ := check_duplicates ss in
      let xs := share_x <$> ss in
      let weights := weight xs <$> seq 0 (length ss) in
      Ok (combine_byte ss weights <$> seq 0 len)
  end.

(** ** crates/ferro-tee/src/cluster.rs *)
Record ShareHolder := MkHolder { holder_index : u8; holder_share : Share }.

Definition new_holder (s : Share) : ShareHolder :=
  {| holder_index := share_x s; holder_share := s |}.

Record Reconstructor := { rec_threshold : nat }.

(** [ProtectedKey::new]: the buffer, once [region::lock] pinned it; [mlock] is the
    error of the operating system, if any. *)
Definition protected_key (mlock : option string) (buf : list u8) : result TeeError (list u8) :=
  match mlock with Some e => Err (Mlock e) | None => Ok buf end.

Definition reconstruct (mlock : option string) (r : Reconstructor) (n : nat)
    (holders : list ShareHolder) : result TeeError (list u8) :=
  if length holders <? rec_threshold r
  then Err (NotEnoughShares (length holders) (rec_threshold r)) else
  let chosen := holder_share <$> take (rec_threshold r) holders in
  let? secret := combine chosen in
  if negb (length secret =? n) then Err ShareLength
  else protected_key mlock secret.

(** ** Polynomial functions *)
Local Open Scope gf_scope.

Lemma eval_cons c cs x : eval (c :: cs) x = eval cs x * x + c.
Proof. unfold eval. by rewrite reverse_cons, foldl_app. Qed.

Lemma eval_nil x : eval [] x = 0.
Proof. done. Qed.

Lemma eval_at_0 c cs : eval (c :: cs) 0 = c.
Proof. rewrite eval_cons, gf_mul_0_r. apply gf_add_0_l. Qed.

Lemma eval_pad cs k x : eval (cs ++ replicate k 0) x = eval cs x.
Proof.
  induction cs as [|c cs IH]; cbn [app].
  - induction k as [|k IH]; [done|]. cbn [replicate]. rewrite eval_cons, IH, eval_nil. ring.
  - by rewrite !eval_cons, IH.
Qed.

(** [f] is given by a polynomial with [n] coefficients. *)
Definition is_poly (n : nat) (f : u8 → u8) : Prop :=
  ∃ cs, length cs = n ∧ ∀ x, f x = eval cs x.

Lemma is_poly_le n n' f : is_poly n f → (n ≤ n')%nat → is_poly n' f.
Proof.
  intros (cs & Hl & Hf) Hn. exists (cs ++ replicate (n' - n) 0).
  rewrite length_app, length_replicate. split; [lia|]. intros x. by rewrite eval_pad.
Qed.

Lemma is_poly_const c : is_poly 1 (λ _, c).
Proof. exists [c]. split; [done|]. intros x. rewrite eval_cons, eval_nil. ring. Qed.

Lemma is_poly_add n f g : is_poly n f → is_poly n g → is_poly n (λ x, f x + g x).
Proof.
  intros (cs & Hl & Hf) (ds & Hl' & Hg). exists (zip_with u8.xor cs ds).
  rewrite length_zip_with. split; [lia|]. intros x. rewrite Hf, Hg. clear Hf Hg.
  revert ds n Hl Hl'. induction cs as [|c cs IH]; intros [|d ds] n Hl Hl';
    cbn [zip_with length] in *; try lia.
  - apply gf_add_0_l.
  - rewrite !eval_cons, <- (IH ds (length cs)) by lia. ring.
Qed.

Lemma is_poly_scale n c f : is_poly n f → is_poly n (λ x, c * f x).
Proof.
  intros (cs & Hl & Hf). exists (gf_mul c <$> cs). rewrite length_fmap. split; [done|].
  intros x. rewrite Hf. clear. induction cs as [|d cs IH]; [apply gf_mul_0_r|].
  rewrite fmap_cons, !eval_cons, <- IH. ring.
Qed.

Lemma is_poly_linear n r f : is_poly n f → is_poly (S n) (λ x, (x + r) * f x).
Proof.
  intros Hf.
  assert (is_poly (S n) (λ x, x * f x)) as (cs & Hl & Hcs).
  { destruct Hf as (cs & Hl & Hcs). exists (0 :: cs). split; [cbn; lia|].
    intros x. rewrite eval_cons, Hcs. ring. }
  destruct (is_poly_add (S n) (λ x, x * f x) (λ x, r * f x)) as (ds & Hd & Hds).
  { by exists cs. }
  { apply is_poly_scale. eapply is_poly_le; [done|lia]. }
  exists ds. split; [done|]. intros x. rewrite <- Hds. ring.
Qed.

(** Division by [X + r] (synthetic division on the coefficients). *)
Lemma is_poly_divide n r f : is_poly (S n) f →
  ∃ g, is_poly n g ∧ ∀ x, f x = f r + (x + r) * g x.
Proof.
  intros (cs & Hl & Hf). setoid_rewrite Hf. clear Hf. revert n Hl.
  induction cs as [|c cs IH]; intros n Hl; [done|]. injection Hl as <-.
  destruct cs as [|d cs].
  - exists (λ _, 0). split; [by exists []|]. intros x. rewrite !eval_cons, !eval_nil. ring.
  - destruct (IH (length cs) eq_refl) as (g & Hg & Hdiv).
    exists (λ x, eval (d :: cs) r + x * g x). split.
    + destruct Hg as (gs & Hgl & Hg). exists (eval (d :: cs) r :: gs). split; [cbn; lia|].
      intros x. rewrite (eval_cons _ gs), Hg. ring.
    + intros x. rewrite (eval_cons c), (eval_cons c), (Hdiv x). set (e := eval (d :: cs) r).
      rewrite <- (gf_add_0_r (_ * x + c)), <- (gf_add_diag (r * e)). ring.
Qed.

(** A polynomial with at least as many roots as coefficients is zero. *)
Lemma is_poly_roots n f xs : is_poly n f → NoDup xs → (n ≤ length xs)%nat →
  (∀ x, x ∈ xs → f x = 0) → ∀ x, f x = 0.
Proof.
  revert f xs. induction n as [|n IH]; intros f xs Hf Hnd Hle Hroots.
  { destruct Hf as ([|] & Hl & Hf); [|done]. intros x. by rewrite Hf. }
  destruct xs as [|r xs]; [cbn in *; lia|]. apply NoDup_cons in Hnd as [Hr Hnd].
  destruct (is_poly_divide n r f Hf) as (g & Hg & Hdiv).
  assert (∀ x, f x = (x + r) * g x) as Hfac.
  { intros x. rewrite Hdiv, (Hroots r) by left. ring. }
  intros x. rewrite Hfac, (IH g xs); [by rewrite gf_mul_0_r|done|done|cbn in *; lia|].
  intros y Hy. pose proof (Hroots y) as Hfy. rewrite Hfac in Hfy.
  destruct (gf_integral _ _ (Hfy ltac:(by right))) as [E|]; [|done].
  apply gf_add_eq_0 in E. congruence.
Qed.

(** ** Lagrange interpolation *)

(** [Π (x + r)] over the [r] of a list. *)
Definition prod_lin (rs : list u8) (x : u8) : u8 := foldr (λ r acc, (x + r) * acc) 1 rs.

Lemma prod_lin_cons r rs x : prod_lin (r :: rs) x = (x + r) * prod_lin rs x.
Proof. done. Qed.

Lemma is_poly_prod_lin rs : is_poly (S (length rs)) (prod_lin rs).
Proof. induction rs as [|r rs IH]; [apply is_poly_const|by apply is_poly_linear]. Qed.

Lemma prod_lin_0 rs x : prod_lin rs x = 0 ↔ x ∈ rs.
Proof.
  induction rs as [|r rs IH].
  - split; [done|]. by intros ?%elem_of_nil.
  - rewrite prod_lin_cons, elem_of_cons, <- IH. split.
    + intros [E|E]%gf_integral; [left; by apply gf_add_eq_0|by right].
    + intros [-> | ->]; [rewrite gf_add_diag; apply gf_mul_0_l|apply gf_mul_0_r].
Qed.

(** The other evaluation points. *)
Definition others (xs : list u8) (j : nat) : list u8 :=
  at_ xs <$> filter (λ k, k ≠ j) (seq 0 (length xs)).

Lemma weight_fold xs j ks num den :
  foldl (λ '(num, den) k,
           if k =? j then (num, den) else (num * at_ xs k, den * (at_ xs j + at_ xs k)))
        (num, den) ks
  = (num * prod_lin (at_ xs <$> filter (λ k, k ≠ j) ks) 0,
     den * prod_lin (at_ xs <$> filter (λ k, k ≠ j) ks) (at_ xs j)).
Proof.
  revert num den. induction ks as [|k ks IH]; intros num den; cbn [foldl].
  - cbn. f_equal; ring.
  - rewrite filter_cons. destruct (Nat.eqb_spec k j); case_decide; try done.
    rewrite IH, fmap_cons, !prod_lin_cons. f_equal; ring.
Qed.

Lemma weight_eq xs j :
  weight xs j = prod_lin (others xs j) 0 * gf_inv (prod_lin (others xs j) (at_ xs j)).
Proof. unfold weight. rewrite weight_fold. fold (others xs j). by rewrite !gf_mul_1_l. Qed.

Lemma seq_split_at n j : (j < n)%nat → seq 0 n ≡ₚ j :: filter (λ k, k ≠ j) (seq 0 n).
Proof.
  intros Hj. apply NoDup_Permutation; [apply NoDup_seq| |].
  - apply NoDup_cons. split; [rewrite list_elem_of_filter; tauto|].
    apply NoDup_filter, NoDup_seq.
  - intros k. rewrite elem_of_cons, list_elem_of_filter, !elem_of_seq. lia.
Qed.

Lemma length_others xs j : (j < length xs)%nat → S (length (others xs j)) = length xs.
Proof.
  intros Hj. unfold others. rewrite length_fmap.
  pose proof (Permutation_length (seq_split_at _ _ Hj)) as H.
  rewrite length_seq in H. cbn in H. lia.
Qed.

Lemma at_lookup xs j x : xs !! j = Some x → at_ xs j = x.
Proof. intros H. unfold at_. by rewrite H. Qed.

Lemma elem_of_others xs j i : (i < length xs)%nat → i ≠ j → at_ xs i ∈ others xs j.
Proof.
  intros Hi Hne. apply list_elem_of_fmap. exists i. split; [done|].
  apply list_elem_of_filter. rewrite elem_of_seq. lia.
Qed.

Lemma not_elem_of_others xs j : NoDup xs → (j < length xs)%nat → at_ xs j ∉ others xs j.
Proof.
  intros Hnd Hj (k & Hk & [Hne Hin%elem_of_seq]%list_elem_of_filter)%list_elem_of_fmap.
  destruct (lookup_lt_is_Some_2 xs j Hj) as [x Hx].
  destruct (lookup_lt_is_Some_2 xs k ltac:(lia)) as [y Hy].
  rewrite (at_lookup _ _ _ Hx), (at_lookup _ _ _ Hy) in Hk. subst.
  eapply Hne, NoDup_lookup; done.
Qed.

(** Sums over a list of indices. *)
Definition sum (f : nat → u8) (js : list nat) : u8 := foldr (λ j acc, f j + acc) 0 js.

Lemma sum_cons f j js : sum f (j :: js) = f j + sum f js.
Proof. done. Qed.

Lemma sum_ext f g js : (∀ j, f j = g j) → sum f js = sum g js.
Proof. intros H. induction js as [|j js IH]; [done|]. by rewrite !sum_cons, H, IH. Qed.

Lemma is_poly_sum n (f : nat → u8 → u8) js :
  (∀ j, j ∈ js → is_poly n (f j)) → is_poly n (λ x, sum (λ j, f j x) js).
Proof.
  induction js as [|j js IH]; intros Hf; cbn.
  - eapply (is_poly_le 0); [by exists []|lia].
  - apply (is_poly_add n (f j)); [apply Hf; left|]. apply IH. intros k Hk. apply Hf. by right.
Qed.

Lemma sum_single f js i : NoDup js → i ∈ js → (∀ j, j ∈ js → j ≠ i → f j = 0) → sum f js = f i.
Proof.
  induction js as [|j js IH]; intros Hnd Hi Hz; [by apply elem_of_nil in Hi|].
  apply NoDup_cons in Hnd as [Hj Hnd]. rewrite sum_cons. destruct (decide (j = i)) as [->|Hne].
  - assert (sum f js = 0) as ->; [|apply gf_add_0_r].
    assert (∀ k, k ∈ js → f k = 0) as Hz'.
    { intros k Hk. apply Hz; [by right|]. intros ->. done. }
    clear -Hz'. induction js as [|k js IH]; [done|].
    rewrite sum_cons, Hz', IH; [done|intros; apply Hz'; by right|left].
  - rewrite (Hz j) by (left || done). rewrite gf_add_0_l. apply IH; [done| |].
    + apply elem_of_cons in Hi as [|]; congruence.
    + intros k Hk. apply Hz. by right.
Qed.

Definition interpolant (xs ys : list u8) (x : u8) : u8 :=
  sum (λ j, at_ ys j * gf_inv (prod_lin (others xs j) (at_ xs j)) * prod_lin (others xs j) x)
      (seq 0 (length xs)).

Lemma is_poly_interpolant xs ys : is_poly (length xs) (interpolant xs ys).
Proof.
  apply (is_poly_sum _ (λ j x, _ * prod_lin (others xs j) x)). intros j Hj%elem_of_seq.
  apply is_poly_scale. rewrite <- (length_others xs j) by lia. apply is_poly_prod_lin.
Qed.

Lemma interpolant_at xs ys i : NoDup xs → (i < length xs)%nat →
  interpolant xs ys (at_ xs i) = at_ ys i.
Proof.
  intros Hnd Hi. unfold interpolant.
  rewrite (sum_single _ _ i); [|apply NoDup_seq|apply elem_of_seq; lia|].
  - rewrite <- gf_mul_assoc, (gf_mul_comm (gf_inv _)), gf_mul_inv_r; [ring|].
    rewrite prod_lin_0. by apply not_elem_of_others.
  - intros j _ Hne. rewrite (proj2 (prod_lin_0 _ (at_ xs i))); [apply gf_mul_0_r|].
    by apply elem_of_others.
Qed.

(** The interpolant of a polynomial's values is that polynomial. *)
Lemma interpolant_unique xs ys f : NoDup xs → is_poly (length xs) f →
  (∀ i, (i < length xs)%nat → at_ ys i = f (at_ xs i)) → ∀ x, interpolant xs ys x = f x.
Proof.
  intros Hnd Hf Hys x. apply gf_add_eq_0.
  apply (is_poly_roots (length xs) (λ x, interpolant xs ys x + f x) xs);
    [|done|done|].
  - apply is_poly_add; [apply is_poly_interpolant|done].
  - intros y (i & Hi)%list_elem_of_lookup. rewrite <- (at_lookup xs i y Hi).
    apply lookup_lt_Some in Hi. rewrite interpolant_at, Hys by done. apply gf_add_diag.
Qed.

(** ** What [split] writes *)

(** The coefficients protecting byte [i] of the secret. *)
Definition coeffs_of (random : nat → nat → u8) (t i : nat) (s_byte : u8) : list u8 :=
  s_byte :: (random i <$> seq 1 (t - 1)).

Lemma length_coeffs_of random t i b : (0 < t)%nat → length (coeffs_of random t i b) = t.
Proof. intros. cbn. rewrite length_fmap, length_seq. lia. Qed.

(** The share of [x]. *)
Definition share_at (random : nat → nat → u8) (secret : list u8) (t : nat) (x : u8) : Share :=
  {| share_x := x; share_y := imap (λ i b, eval (coeffs_of random t i b) x) secret |}.

Lemma fill_share random t x pre secret :
  foldl (λ sh '(i, b), set_y i (coeffs_of random t i b) sh)
    {| share_x := x; share_y := pre ++ replicate (length secret) 0 |}
    (zip (seq (length pre) (length secret)) secret)
  = {| share_x := x;
       share_y := pre ++ imap (λ i b, eval (coeffs_of random t (length pre + i) b) x) secret |}.
Proof.
  revert pre. induction secret as [|b secret IH]; intros pre; [done|].
  cbn [length seq zip zip_with replicate foldl imap]. unfold set_y at 2. cbn [share_x share_y].
  rewrite insert_app_r_alt, Nat.sub_diag by lia. cbn [list_insert].
  pose proof (IH (pre ++ [eval (coeffs_of random t (length pre) b) x])) as IH'.
  rewrite length_app, Nat.add_1_r, <- !app_assoc in IH'. cbn [app] in IH'.
  change (<[0%nat := ?v]> (?a :: ?l)) with (v :: l). rewrite IH', Nat.add_0_r.
  do 3 f_equal. apply imap_ext. intros i b' _. unfold compose. by rewrite Nat.add_succ_r.
Qed.

Lemma fill_shares random t l (ss : list Share) :
  foldl (λ (ss : list Share) '(i, b), set_y i (coeffs_of random t i b) <$> ss) ss l
  = (λ s, foldl (λ sh '(i, b), set_y i (coeffs_of random t i b) sh) s l) <$> ss.
Proof.
  revert ss. induction l as [|[i b] l IH]; intros ss; cbn [foldl]; [by rewrite list_fmap_id|].
  rewrite IH, <- list_fmap_compose. done.
Qed.

Lemma split_ok random secret t n set : split random secret t n = Ok set →
  (0 < t ≤ n)%nat ∧ (n ≤ 255)%nat ∧ threshold set = t ∧ total set = n ∧
  shares set = (λ x, share_at random secret t (u8.of_Z x)) <$> seqZ 1 (Z.of_nat n).
Proof.
  unfold split. destruct (Nat.eqb_spec t 0%nat), (Nat.ltb_spec n t), (Nat.ltb_spec 255 n);
    try discriminate. intros [= <-]. cbn [threshold total shares].
  split_and!; try done; try lia.
  etrans; [apply fill_shares|]. rewrite <- list_fmap_compose. apply list_fmap_ext. intros _ x _. cbn.
  pose proof (fill_share random t (u8.of_Z x) [] secret) as Hf. cbn in Hf. by rewrite Hf.
Qed.

Lemma split_elem random secret t n set s : split random secret t n = Ok set → s ∈ shares set →
  share_x s ≠ 0 ∧ s = share_at random secret t (share_x s).
Proof.
  intros (_ & Hn & _ & _ & ->)%split_ok (x & -> & Hx%elem_of_seqZ)%list_elem_of_fmap.
  split; [|done]. cbn. intros E. apply (f_equal u8.to_Z) in E. revert E.
  unfold u8.of_Z, u8.to_Z. rewrite Z.mod_small by lia.
  destruct (Byte.of_N (Z.to_N x)) as [b|] eqn:Eb.
  - apply Byte.to_of_N in Eb. cbn. rewrite Eb. lia.
  - apply Byte.of_N_None_iff in Eb. lia.
Qed.

(** ** What [combine] accepts and computes *)
Lemma check_shares_ok len ss : check_shares len ss = Ok tt ↔
  Forall (λ s, share_x s ≠ 0 ∧ length (share_y s) = len) ss.
Proof.
  induction ss as [|s ss IH]; cbn; [by split; [constructor|]|].
  rewrite Forall_cons, <- IH. case_bool_decide; [naive_solver|].
  destruct (Nat.eqb_spec (length (share_y s)) len); naive_solver.
Qed.

Lemma check_duplicates_ok ss : check_duplicates ss = Ok tt ↔ NoDup (share_x <$> ss).
Proof.
  induction ss as [|s ss IH]; cbn; [by split; [constructor|]|].
  rewrite NoDup_cons, <- IH. destruct (existsb _ ss) eqn:E.
  - split; [done|]. intros [Hs _]. destruct Hs.
    apply existsb_exists in E as (s' & Hin & Heq%bool_decide_eq_true).
    apply list_elem_of_fmap. exists s'. by rewrite list_elem_of_In.
  - split; [|naive_solver]. intros H. split; [|done].
    intros (s' & Heq & Hin)%list_elem_of_fmap.
    assert (existsb (λ s', bool_decide (share_x s = share_x s')) ss = true); [|congruence].
    apply existsb_exists. exists s'. rewrite <- list_elem_of_In, bool_decide_eq_true. done.
Qed.

Lemma combine_byte_eq ss xs i :
  combine_byte ss (weight xs <$> seq 0 (length ss)) i
  = sum (λ j, at_ ((λ s, at_ (share_y s) i) <$> ss) j * weight xs j) (seq 0 (length ss)).
Proof.
  unfold combine_byte. rewrite <- (gf_add_0_l (sum _ _)). generalize 0.
  assert (∀ k acc,
    foldl (λ acc '(s, w), acc + at_ (share_y s) i * w) acc
      (zip (drop k ss) (weight xs <$> seq k (length ss - k)))
    = acc + sum (λ j, at_ ((λ s, at_ (share_y s) i) <$> ss) j * weight xs j)
              (seq k (length ss - k))) as Hk.
  { intros k. remember (length ss - k)%nat as m eqn:Hm. revert k Hm.
    induction m as [|m IH]; intros k Hm acc.
    { rewrite drop_ge by lia. cbn. by rewrite gf_add_0_r. }
    destruct (lookup_lt_is_Some_2 ss k ltac:(lia)) as [s Hs].
    rewrite (drop_S _ s) by done. cbn [seq fmap list_fmap zip zip_with foldl].
    rewrite IH by lia. rewrite sum_cons, gf_add_assoc. do 3 f_equal.
    symmetry. apply at_lookup. by rewrite list_lookup_fmap, Hs. }
  intros acc. specialize (Hk 0%nat acc). by rewrite Nat.sub_0_r in Hk.
Qed.

(** The weighted sum is the interpolant at [0]. *)
Lemma combine_byte_interpolates ss f i :
  NoDup (share_x <$> ss) → is_poly (length ss) f →
  (∀ s, s ∈ ss → at_ (share_y s) i = f (share_x s)) →
  combine_byte ss (weight (share_x <$> ss) <$> seq 0 (length ss)) i = f 0.
Proof.
  intros Hnd Hf Hys. rewrite combine_byte_eq. set (xs := share_x <$> ss).
  set (ys := (λ s, at_ (share_y s) i) <$> ss).
  assert (length xs = length ss) as Hl by apply length_fmap.
  rewrite <- (interpolant_unique xs ys f); [|done|by rewrite Hl|].
  - unfold interpolant. rewrite Hl. apply sum_ext. intros j.
    by rewrite weight_eq, (gf_mul_comm (prod_lin _ _)), gf_mul_assoc.
  - intros j Hj. rewrite Hl in Hj. destruct (lookup_lt_is_Some_2 ss j Hj) as [s Hs].
    unfold xs, ys. rewrite (at_lookup _ j (at_ (share_y s) i)), (at_lookup _ j (share_x s))
      by (by rewrite list_lookup_fmap, Hs).
    apply Hys. by eapply list_elem_of_lookup_2.
Qed.

(** ** Coefficients are determined by values *)
Definition nonzero_bytes : list u8 := filter (λ b, b ≠ 0) u8.all.

Lemma NoDup_nonzero_bytes : NoDup nonzero_bytes.
Proof. refine (bool_decide_unpack _ _). vm_compute. exact I. Qed.

Lemma length_nonzero_bytes : length nonzero_bytes = 255%nat.
Proof. vm_compute. reflexivity. Qed.

Lemma eval_inj cs cs' : length cs = length cs' → (length cs ≤ 256)%nat →
  (∀ x, eval cs x = eval cs' x) → cs = cs'.
Proof.
  revert cs'. induction cs as [|c cs IH]; intros [|c' cs'] Hl Hle Hev; try done.
  injection Hl as Hl. cbn [length] in Hle.
  assert (c = c') as <- by (by rewrite <- (eval_at_0 c cs), Hev, eval_at_0).
  f_equal. apply IH; [done|lia|]. intros x. apply gf_add_eq_0.
  apply (is_poly_roots (length cs) (λ x, eval cs x + eval cs' x) nonzero_bytes).
  - apply is_poly_add; [by exists cs|by exists cs'].
  - apply NoDup_nonzero_bytes.
  - rewrite length_nonzero_bytes. lia.
  - intros y [Hy _]%list_elem_of_filter. specialize (Hev y). rewrite !eval_cons in Hev.
    destruct (gf_integral (eval cs y + eval cs' y) y) as [?|?]; [|done..].
    apply (f_equal (λ v, v + (eval cs' y * y + c))) in Hev. rewrite gf_add_diag in Hev.
    rewrite <- Hev, <- (gf_add_0_r (_ * y)), <- (gf_add_diag c). ring.
Qed.

Lemma combine_split random secret t n set ss :
  split random secret t n = Ok set →
  (∀ s, s ∈ ss → s ∈ shares set) → NoDup (share_x <$> ss) → (t ≤ length ss)%nat →
  combine ss = Ok secret.
Proof.
  intros Hsplit Hin Hnd Hlen. pose proof (split_ok _ _ _ _ _ Hsplit) as ((Ht & _) & _).
  assert (∀ s, s ∈ ss → share_x s ≠ 0 ∧ s = share_at random secret t (share_x s)) as Hs.
  { intros s Hs. eapply split_elem; eauto. }
  destruct ss as [|s0 ss]; [cbn in *; lia|]. unfold combine.
  assert (length (share_y s0) = length secret) as ->.
  { destruct (Hs s0) as [_ ->]; [left|]. cbn. apply length_imap. }
  rewrite (proj2 (check_shares_ok (length secret) (s0 :: ss))).
  2: { apply Forall_forall. intros s Hss. destruct (Hs s Hss) as [? E]. split; [done|].
       rewrite E. cbn. apply length_imap. }
  rewrite (proj2 (check_duplicates_ok (s0 :: ss))) by done. f_equal.
  apply list_eq_same_length with (length secret); [done|by rewrite length_fmap, length_seq|].
  intros i b b' Hi. rewrite list_lookup_fmap, lookup_seq_lt by done. intros [= <-] Hb'.
  rewrite <- (eval_at_0 b' (random i <$> seq 1 (t - 1))). fold (coeffs_of random t i b').
  apply (combine_byte_interpolates (s0 :: ss) (eval (coeffs_of random t i b'))).
  - done.
  - eapply is_poly_le; [|exact Hlen]. eexists; split; [by apply length_coeffs_of|done].
  - intros s Hss. destruct (Hs s Hss) as [_ E]. rewrite E at 1. apply at_lookup. cbn.
    by rewrite list_lookup_imap, Hb'.
Qed.

(** ** Properties *)

(** any [t] or more distinct shares produced by [split] with threshold [t]
    reconstruct the secret, whatever bytes the random generator returned and
    whichever shares are chosen, in whatever order. *)
Theorem split_combine_roundtrip random secret t n set ss :
  split random secret t n = Ok set →
  (∀ s, s ∈ ss → s ∈ shares set) → NoDup (share_x <$> ss) → (t ≤ length ss)%nat →
  combine ss = Ok secret.
Proof. apply combine_split. Qed.

(** [combine] succeeds exactly on a non-empty list of shares with non-zero,
    pairwise distinct indices and equally long [y] vectors. *)
Theorem combine_ok_iff ss :
  (∃ secret, combine ss = Ok secret) ↔
  ∃ len, ss ≠ [] ∧ Forall (λ s, share_x s ≠ 0 ∧ length (share_y s) = len) ss
    ∧ NoDup (share_x <$> ss).
Proof.
  destruct ss as [|s0 ss]; [cbn; naive_solver|]. unfold combine.
  set (l := s0 :: ss). split.
  - intros [secret H]. exists (length (share_y s0)).
    destruct (check_shares _ l) as [[]|] eqn:E1; [|done].
    destruct (check_duplicates l) as [[]|] eqn:E2; [|done].
    split; [done|]. by rewrite <- check_shares_ok, <- check_duplicates_ok.
  - intros (len & _ & Hf & Hnd).
    assert (length (share_y s0) = len) as Hl by (by apply Forall_inv in Hf as [_ ?]).
    rewrite Hl, (proj2 (check_shares_ok len l)), (proj2 (check_duplicates_ok l)) by done. eauto.
Qed.

(** the cluster reconstructs the split key from any threshold-many distinct
    holders (using exactly the first [threshold] of them), and returns
    [NotEnoughShares] when fewer answered. *)
Theorem reconstruct_correct random secret t n set holders :
  split random secret t n = Ok set →
  (∀ h, h ∈ holders → holder_share h ∈ shares set) →
  NoDup (share_x <$> (holder_share <$> holders)) →
  reconstruct None {| rec_threshold := t |} (length secret) holders =
    if length holders <? t then Err (NotEnoughShares (length holders) t) else Ok secret.
Proof.
  intros Hsplit Hin Hnd. unfold reconstruct. cbn [rec_threshold].
  destruct (Nat.ltb_spec (length holders) t); [done|].
  rewrite (combine_split random secret t n set); [|done|..].
  - by rewrite Nat.eqb_refl.
  - intros s (h & -> & Hh)%list_elem_of_fmap. apply Hin. by apply (subseteq_take t).
  - rewrite !fmap_take. eapply sublist_NoDup; [done|apply sublist_take].
  - rewrite length_fmap, length_take. lia.
Qed.

(** [t - 1] shares say nothing about a secret byte: for every candidate secret
    there is exactly one choice of the random coefficients that produces the
    observed share values, so all 256 candidates are equally likely. *)
Theorem shares_below_threshold_secret xs ys s :
  NoDup xs → 0 ∉ xs → length ys = length xs →
  exists ! cs, length cs = length xs ∧
    ∀ j, (j < length xs)%nat → eval (s :: cs) (at_ xs j) = at_ ys j.
Proof.
  intros Hnd H0 Hly. assert (NoDup (0 :: xs)) as Hnd' by (by constructor).
  destruct (is_poly_interpolant (0 :: xs) (s :: ys)) as ([|c cs] & Hl & Hcs); [done|].
  injection Hl as Hl.
  assert (c = s) as ->.
  { rewrite <- (eval_at_0 c cs), <- Hcs. apply (interpolant_at (0 :: xs) (s :: ys) 0%nat); [done|].
    cbn. lia. }
  exists cs. split.
  - split; [done|]. intros j Hj. rewrite <- Hcs.
    apply (interpolant_at (0 :: xs) (s :: ys) (S j)); [done|cbn; lia].
  - intros cs' [Hl' Hcs'].
    assert (s :: cs = s :: cs') as [= ->]; [|done].
    assert (length xs ≤ 255)%nat as Hle.
    { rewrite <- length_nonzero_bytes. apply submseteq_length, NoDup_submseteq; [done|].
      intros x Hx. apply list_elem_of_filter. split; [congruence|apply u8.elem_of_all]. }
    apply eval_inj; [cbn; lia|cbn; lia|]. intros x. rewrite <- Hcs.
    apply interpolant_unique; [done|exists (s :: cs'); split; [cbn; lia|done]|].
    intros [|j] Hj; [symmetry; apply eval_at_0|]. symmetry. apply Hcs'. cbn in Hj. lia.
Qed.

(** ** Concrete runs *)
Definition sample_random (i j : nat) : u8 := u8.of_Z (Z.of_nat (i * 37 + j * 91 + 5)).
Definition sample_secret : list u8 := [Byte.x41; Byte.x42; Byte.xff].
Definition sample_set : ShareSet :=
  {| threshold := 3; total := 5;
     shares := share_at sample_random sample_secret 3 <$>
       [Byte.x01; Byte.x02; Byte.x03; Byte.x04; Byte.x05] |}.
Definition sample_shares : list Share :=
  share_at sample_random sample_secret 3 <$> [Byte.x05; Byte.x02; Byte.x04].

Lemma split_combine_roundtrip_witness : combine sample_shares = Ok sample_secret.
Proof.
  apply (split_combine_roundtrip sample_random sample_secret 3 5 sample_set).
  - vm_compute. reflexivity.
  - apply Forall_forall. cbn. repeat constructor; set_solver.
  - refine (bool_decide_unpack _ _). vm_compute. exact I.
  - cbn. lia.
Defined.

Lemma reconstruct_correct_witness :
  reconstruct None {| rec_threshold := 3 |} 3 (new_holder <$> sample_shares) = Ok sample_secret.
Proof.
  apply (reconstruct_correct sample_random sample_secret 3 5 sample_set).
  - vm_compute. reflexivity.
  - apply Forall_forall. cbn. repeat constructor; set_solver.
  - refine (bool_decide_unpack _ _). vm_compute. exact I.
Defined.

Lemma shares_below_threshold_secret_witness :
  exists ! cs, length cs = 2%nat ∧
    ∀ j, (j < 2)%nat → eval (Byte.x2a :: cs) (at_ [Byte.x01; Byte.x03] j) = at_ [Byte.x10; Byte.x20] j.
Proof.
  apply (shares_below_threshold_secret [Byte.x01; Byte.x03] [Byte.x10; Byte.x20] Byte.x2a).
  - refine (bool_decide_unpack _ _). vm_compute. exact I.
  - refine (bool_decide_unpack _ _). vm_compute. exact I.
  - reflexivity.
Defined.
