(* ===== verification/AppModel.v ===== *)
(** Row types, enums and inputs of the app approval ledger
    (crates/ferro-raft/src/apps/model.rs).  A column the schema keeps in the range of
    an enum is that enum here; [code] and [from_code] are the stored integers and
    [CodeEnumLaws] their round trip.  Other integers (i64 and u32) are [Z]. *)
From stdpp Require Import pretty.
From S2P Require Import Prelude.
Open Scope Z_scope.

(** Failures of ledger operations (apps/mod.rs). *)
Inductive LedgerError :=
  | Store (e : string) | LedgerNotFound | InvalidState | RowVersionMismatch | SelfApproval
  | NotCovering | Raced | Invalid (field : string) | Corrupt (column : string).

(** ** Enums *)

(** The [code_enum!] macro. *)
Class CodeEnum (A : Type) := { code : A → Z; from_code : Z → option A }.

Class CodeEnumLaws (A : Type) `{CodeEnum A} :=
  from_code_spec (c : Z) (x : A) : from_code c = Some x ↔ code x = c.

(** Case analysis on a stored code, one literal at a time. *)
Ltac solve_code_laws :=
  let c := fresh "c" in let x := fresh "x" in
  intros c x; split;
  [ cbn; intros H;
    repeat match type of H with (match ?p with _ => _ end) = _ => destruct p end;
    simplify_eq/=; reflexivity
  | intros <-; by destruct x ].

(** Request kind, classified by CMIS. *)
Inductive RequestKind := Register | Update.
#[export] Instance RequestKind_eq_dec : EqDecision RequestKind.
Proof. solve_decision. Defined.
#[export] Instance RequestKind_code : CodeEnum RequestKind := {
  code x := match x with Register => 1 | Update => 2 end;
  from_code c := match c with 1 => Some Register | 2 => Some Update | _ => None end }.
#[export] Instance RequestKind_laws : CodeEnumLaws RequestKind.
Proof. solve_code_laws. Qed.

(** Who asked for the request. *)
Inductive RequestOrigin := SelfRegistration | Assisted | AdminDirect | Observed.
#[export] Instance RequestOrigin_eq_dec : EqDecision RequestOrigin.
Proof. solve_decision. Defined.
#[export] Instance RequestOrigin_code : CodeEnum RequestOrigin := {
  code x := match x with SelfRegistration => 1 | Assisted => 2 | AdminDirect => 3 | Observed => 4 end;
  from_code c := match c with 1 => Some SelfRegistration | 2 => Some Assisted | 3 => Some AdminDirect | 4 => Some Observed | _ => None end }.
#[export] Instance RequestOrigin_laws : CodeEnumLaws RequestOrigin.
Proof. solve_code_laws. Qed.

(** Operating-system user namespace of an identity. *)
Inductive UserKind := Unix | Windows.
#[export] Instance UserKind_eq_dec : EqDecision UserKind.
Proof. solve_decision. Defined.
#[export] Instance UserKind_code : CodeEnum UserKind := {
  code x := match x with Unix => 1 | Windows => 2 end;
  from_code c := match c with 1 => Some Unix | 2 => Some Windows | _ => None end }.
#[export] Instance UserKind_laws : CodeEnumLaws UserKind.
Proof. solve_code_laws. Qed.

(** Request state; every state but [ReqPending] is terminal. *)
Inductive RequestState := ReqPending | ReqApproved | ReqAutoApproved | ReqDenied | ReqExpired.
#[export] Instance RequestState_eq_dec : EqDecision RequestState.
Proof. solve_decision. Defined.
#[export] Instance RequestState_code : CodeEnum RequestState := {
  code x := match x with ReqPending => 1 | ReqApproved => 2 | ReqAutoApproved => 3 | ReqDenied => 4 | ReqExpired => 5 end;
  from_code c := match c with 1 => Some ReqPending | 2 => Some ReqApproved | 3 => Some ReqAutoApproved | 4 => Some ReqDenied | 5 => Some ReqExpired | _ => None end }.
#[export] Instance RequestState_laws : CodeEnumLaws RequestState.
Proof. solve_code_laws. Qed.

(** How an approval came to exist. *)
Inductive ApprovalOrigin := Manual | AutoUpdate | DirectAdd | LegacyOrigin.
#[export] Instance ApprovalOrigin_eq_dec : EqDecision ApprovalOrigin.
Proof. solve_decision. Defined.
#[export] Instance ApprovalOrigin_code : CodeEnum ApprovalOrigin := {
  code x := match x with Manual => 1 | AutoUpdate => 2 | DirectAdd => 3 | LegacyOrigin => 4 end;
  from_code c := match c with 1 => Some Manual | 2 => Some AutoUpdate | 3 => Some DirectAdd | 4 => Some LegacyOrigin | _ => None end }.
#[export] Instance ApprovalOrigin_laws : CodeEnumLaws ApprovalOrigin.
Proof. solve_code_laws. Qed.

(** Which users an approval admits. *)
Inductive UserScope := ExactUser | AnyUser.
#[export] Instance UserScope_eq_dec : EqDecision UserScope.
Proof. solve_decision. Defined.
#[export] Instance UserScope_code : CodeEnum UserScope := {
  code x := match x with ExactUser => 1 | AnyUser => 2 end;
  from_code c := match c with 1 => Some ExactUser | 2 => Some AnyUser | _ => None end }.
#[export] Instance UserScope_laws : CodeEnumLaws UserScope.
Proof. solve_code_laws. Qed.

(** Which paths an approval admits. *)
Inductive PathMatch := PathExact | PathAny.
#[export] Instance PathMatch_eq_dec : EqDecision PathMatch.
Proof. solve_decision. Defined.
#[export] Instance PathMatch_code : CodeEnum PathMatch := {
  code x := match x with PathExact => 1 | PathAny => 2 end;
  from_code c := match c with 1 => Some PathExact | 2 => Some PathAny | _ => None end }.
#[export] Instance PathMatch_laws : CodeEnumLaws PathMatch.
Proof. solve_code_laws. Qed.

(** Update policy, chosen at approval time. *)
Inductive UpdatePolicy := ManualEachTime | AutoSamePathUser.
#[export] Instance UpdatePolicy_eq_dec : EqDecision UpdatePolicy.
Proof. solve_decision. Defined.
#[export] Instance UpdatePolicy_code : CodeEnum UpdatePolicy := {
  code x := match x with ManualEachTime => 1 | AutoSamePathUser => 2 end;
  from_code c := match c with 1 => Some ManualEachTime | 2 => Some AutoSamePathUser | _ => None end }.
#[export] Instance UpdatePolicy_laws : CodeEnumLaws UpdatePolicy.
Proof. solve_code_laws. Qed.

(** Continuity requirement of an auto-update policy. *)
Inductive Continuity := Anchored | PathUserOnly.
#[export] Instance Continuity_eq_dec : EqDecision Continuity.
Proof. solve_decision. Defined.
#[export] Instance Continuity_code : CodeEnum Continuity := {
  code x := match x with Anchored => 1 | PathUserOnly => 2 end;
  from_code c := match c with 1 => Some Anchored | 2 => Some PathUserOnly | _ => None end }.
#[export] Instance Continuity_laws : CodeEnumLaws Continuity.
Proof. solve_code_laws. Qed.

(** Approval state; [Revoked] is final. *)
Inductive ApprovalState := Active | Expired | Revoked.
#[export] Instance ApprovalState_eq_dec : EqDecision ApprovalState.
Proof. solve_decision. Defined.
#[export] Instance ApprovalState_code : CodeEnum ApprovalState := {
  code x := match x with Active => 1 | Expired => 2 | Revoked => 3 end;
  from_code c := match c with 1 => Some Active | 2 => Some Expired | 3 => Some Revoked | _ => None end }.
#[export] Instance ApprovalState_laws : CodeEnumLaws ApprovalState.
Proof. solve_code_laws. Qed.

(** Kind of an [app_approval_revisions] record. *)
Inductive RevisionChange := RevCreated | RevUpdated | RevExpired | RevRevoked | RevRenewed.
#[export] Instance RevisionChange_eq_dec : EqDecision RevisionChange.
Proof. solve_decision. Defined.
#[export] Instance RevisionChange_code : CodeEnum RevisionChange := {
  code x := match x with RevCreated => 1 | RevUpdated => 2 | RevExpired => 3 | RevRevoked => 4 | RevRenewed => 5 end;
  from_code c := match c with 1 => Some RevCreated | 2 => Some RevUpdated | 3 => Some RevExpired | 4 => Some RevRevoked | 5 => Some RevRenewed | _ => None end }.
#[export] Instance RevisionChange_laws : CodeEnumLaws RevisionChange.
Proof. solve_code_laws. Qed.

(** Why an update was not auto-approved. *)
Inductive AutoDowngradeReason := AutoDisabled | TierNotAllowed | NoAutoParent | LineageFrozen | UserMismatch | NoContinuityAnchor | HashPreviouslyRevoked | HashPreviouslyDenied | AutoRateExceeded.
#[export] Instance AutoDowngradeReason_eq_dec : EqDecision AutoDowngradeReason.
Proof. solve_decision. Defined.
#[export] Instance AutoDowngradeReason_code : CodeEnum AutoDowngradeReason := {
  code x := match x with AutoDisabled => 1 | TierNotAllowed => 2 | NoAutoParent => 3 | LineageFrozen => 4 | UserMismatch => 5 | NoContinuityAnchor => 6 | HashPreviouslyRevoked => 7 | HashPreviouslyDenied => 8 | AutoRateExceeded => 9 end;
  from_code c := match c with 1 => Some AutoDisabled | 2 => Some TierNotAllowed | 3 => Some NoAutoParent | 4 => Some LineageFrozen | 5 => Some UserMismatch | 6 => Some NoContinuityAnchor | 7 => Some HashPreviouslyRevoked | 8 => Some HashPreviouslyDenied | 9 => Some AutoRateExceeded | _ => None end }.
#[export] Instance AutoDowngradeReason_laws : CodeEnumLaws AutoDowngradeReason.
Proof. solve_code_laws. Qed.

(** [RequestState::is_terminal]. *)
Definition is_terminal (s : RequestState) : bool := negb (bool_decide (s = ReqPending)).

(** [AutoDowngradeReason::as_str]. *)
Definition as_str (r : AutoDowngradeReason) : string :=
  match r with
  | AutoDisabled => "auto_disabled"
  | TierNotAllowed => "tier_not_allowed"
  | NoAutoParent => "no_auto_parent"
  | LineageFrozen => "lineage_frozen"
  | UserMismatch => "user_mismatch"
  | NoContinuityAnchor => "no_continuity_anchor"
  | HashPreviouslyRevoked => "hash_previously_revoked"
  | HashPreviouslyDenied => "hash_previously_denied"
  | AutoRateExceeded => "auto_rate_exceeded"
  end.

(** [AutoDowngradeReason::from_str_code]. *)
Definition from_str_code (c : string) : option AutoDowngradeReason :=
  List.find (λ r, String.eqb (as_str r) c) (omap from_code [1; 2; 3; 4; 5; 6; 7; 8; 9]).

Lemma from_str_code_spec c r : from_str_code c = Some r ↔ as_str r = c.
Proof.
  split.
  - intros [_ H]%find_some. by apply String.eqb_eq.
  - intros <-. by destruct r.
Qed.

(** [FLAG_PATH_PROTECTED]. *)
Definition FLAG_PATH_PROTECTED : Z := 1.

(** [decode]. *)
Definition decode {A} `{CodeEnum A} (c : Z) (column : string) : result LedgerError A :=
  match from_code c with Some x => Ok x | None => Err (Corrupt column) end.

(** ** Text *)

(** A [String] is its UTF-8 bytes. *)
Definition byte_of_ascii (a : Ascii.ascii) : u8 := Ascii.byte_of_ascii a.
Definition as_bytes (s : string) : list u8 := byte_of_ascii <$> String.list_ascii_of_string s.

Definition is_hex_lower (a : Ascii.ascii) : bool :=
  let n := Ascii.nat_of_ascii a in
  (48 <=? n)%nat && (n <=? 57)%nat || (97 <=? n)%nat && (n <=? 102)%nat.

(** [is_bin_sha]. *)
Definition is_bin_sha (s : string) : bool :=
  (String.length s =? 96)%nat && forallb is_hex_lower (String.list_ascii_of_string s).

Definition upper_ascii (a : Ascii.ascii) : Ascii.ascii :=
  let n := Ascii.nat_of_ascii a in
  if (97 <=? n)%nat && (n <=? 122)%nat then Ascii.ascii_of_nat (n - 32) else a.
(** [to_ascii_uppercase], and SQLite's [upper]. *)
Definition to_ascii_uppercase (s : string) : string :=
  String.string_of_list_ascii (upper_ascii <$> String.list_ascii_of_string s).

(** ** Identities *)
Record UserIdentity := {
  kind : UserKind; uid : option Z; sid : option string; user_name : option string }.
#[export] Instance UserIdentity_eq_dec : EqDecision UserIdentity.
Proof. solve_decision. Defined.

(** [UserIdentity::user_key]. *)
Definition user_key (u : UserIdentity) : string :=
  match kind u with
  | Unix => "u:" +:+ pretty (default 0 (uid u)) +:+ ":" +:+ default "" (user_name u)
  | Windows => "s:" +:+ to_ascii_uppercase (default "" (sid u))
  end.

(** The string [dedup_key] hashes: its parts separated by NUL bytes. *)
Definition dedup_input (host_uuid : string) (path_key : list u8) (u : UserIdentity)
    (bin_sha : string) : list u8 :=
  as_bytes host_uuid ++ [Byte.x00] ++ path_key ++ [Byte.x00] ++ as_bytes (user_key u)
    ++ [Byte.x00] ++ as_bytes bin_sha.

(** [dedup_key]. *)
Definition dedup_key (sha256 : list u8 → list u8) (host_uuid : string) (path_key : list u8)
    (u : UserIdentity) (bin_sha : string) : list u8 :=
  sha256 (dedup_input host_uuid path_key u bin_sha).

(** ** Rows *)

(** One [app_lineages] row. *)
Record LineageRow := {
  l_lineage_id : string;
  l_host_uuid : string;
  l_platform : Z;
  l_canonical_path : string;
  l_path_key : list u8;
  l_next_revision : Z;
  l_auto_update_frozen : bool;
  l_created_at : Z }.
#[export] Instance LineageRow_eq_dec : EqDecision LineageRow.
Proof. solve_decision. Defined.

(** One [app_binaries] row. *)
Record BinaryRow := {
  b_lineage_id : string;
  b_bin_sha : string;
  b_revision : Z;
  b_file_size : Z;
  b_format : Z;
  b_declared_version : option string;
  b_version_source : Z;
  b_product_name : option string;
  b_bundle_id : option string;
  b_package_name : option string;
  b_signer_kind : Z;
  b_signer_id : option string;
  b_signer_subject : option string;
  b_signer_valid : bool;
  b_first_seen_at : Z }.
#[export] Instance BinaryRow_eq_dec : EqDecision BinaryRow.
Proof. solve_decision. Defined.

(** One [app_requests] row. *)
Record RequestRow := {
  r_request_id : string;
  r_host_uuid : string;
  r_client_request_id : string;
  r_lineage_id : string;
  r_bin_sha : string;
  r_revision : Z;
  r_kind : RequestKind;
  r_origin : RequestOrigin;
  r_target : UserIdentity;
  r_requester_uid : option Z;
  r_requester_user_name : option string;
  r_requested_by_admin_id : option string;
  r_reason : option string;
  r_flags : Z;
  r_host_tier : string;
  r_proposer_spiffe_id : string;
  r_dedup_key : list u8;
  r_submitted_at : Z;
  r_pending_expires_at : Z;
  r_state : RequestState;
  r_decided_at : option Z;
  r_decided_by_admin_id : option string;
  r_decision_reason_code : option Z;
  r_decision_message : option string;
  r_auto_downgrade_reason : option AutoDowngradeReason;
  r_resulting_approval_id : option string;
  r_same_actor_approved : bool }.
#[export] Instance RequestRow_eq_dec : EqDecision RequestRow.
Proof. solve_decision. Defined.

(** One [app_approvals] row. *)
Record ApprovalRow := {
  a_approval_id : string;
  a_host_uuid : string;
  a_lineage_id : string;
  a_bin_sha : string;
  a_revision : option Z;
  a_source_request_id : option string;
  a_origin : ApprovalOrigin;
  a_parent_approval_id : option string;
  a_approved_by_admin_id : option string;
  a_user_scope : UserScope;
  a_user_kind : option UserKind;
  a_uid : option Z;
  a_sid : option string;
  a_user_name : option string;
  a_path_match : PathMatch;
  a_update_policy : UpdatePolicy;
  a_continuity : Continuity;
  a_created_at : Z;
  a_expires_at : option Z;
  a_state : ApprovalState;
  a_superseded_by : option string;
  a_revoked_at : option Z;
  a_revoked_by_admin_id : option string;
  a_revoke_reason_code : option Z;
  a_note : option string;
  a_row_version : Z }.
#[export] Instance ApprovalRow_eq_dec : EqDecision ApprovalRow.
Proof. solve_decision. Defined.

(** [ApprovalRow::is_live]. *)
Definition is_live (a : ApprovalRow) (now : Z) : bool :=
  bool_decide (a_state a = Active) && match a_expires_at a with None => true | Some t => now <? t end.

(** One [app_approval_revisions] row. *)
Record ApprovalRevisionRow := {
  v_approval_id : string;
  v_row_version : Z;
  v_changed_at : Z;
  v_changed_by_admin_id : option string;
  v_change_kind : RevisionChange;
  v_before_cbor : option (list u8);
  v_after_cbor : list u8 }.
#[export] Instance ApprovalRevisionRow_eq_dec : EqDecision ApprovalRevisionRow.
Proof. solve_decision. Defined.

(** One [host_allowlist_state] row. *)
Record HostAllowlistStateRow := {
  h_host_uuid : string;
  h_generation : Z;
  h_entries_digest : list u8;
  h_changed_at : Z;
  h_cached_v2 : option (list u8);
  h_cached_not_after : option Z }.
#[export] Instance HostAllowlistStateRow_eq_dec : EqDecision HostAllowlistStateRow.
Proof. solve_decision. Defined.

(** The policy view of an approval kept in [app_approval_revisions]. *)
Record ApprovalSnapshot := {
  s_state : Z;
  s_update_policy : Z;
  s_continuity : Z;
  s_expires_at : option Z;
  s_user_scope : Z;
  s_path_match : Z;
  s_user_kind : option Z;
  s_uid : option Z;
  s_note_digest : option (list u8);
  s_revoke_reason_code : option Z }.
#[export] Instance ApprovalSnapshot_eq_dec : EqDecision ApprovalSnapshot.
Proof. solve_decision. Defined.

(** [ApprovalSnapshot::of], with [ring]'s SHA-256. *)
Definition snapshot_of (sha256 : list u8 → list u8) (row : ApprovalRow) : ApprovalSnapshot :=
  {| s_state := code (a_state row);
     s_update_policy := code (a_update_policy row);
     s_continuity := code (a_continuity row);
     s_expires_at := a_expires_at row;
     s_user_scope := code (a_user_scope row);
     s_path_match := code (a_path_match row);
     s_user_kind := code <$> a_user_kind row;
     s_uid := a_uid row;
     s_note_digest := (λ n, take 8 (sha256 (as_bytes n))) <$> a_note row;
     s_revoke_reason_code := a_revoke_reason_code row |}.

(** ** Inputs *)

(** A binary as the host identified it. *)
Record ObservedBinary := {
  o_host_uuid : string;
  o_platform : Z;
  o_canonical_path : string;
  o_path_key : list u8;
  o_new_lineage_id : string;
  o_bin_sha : string;
  o_file_size : Z;
  o_format : Z;
  o_declared_version : option string;
  o_version_source : Z;
  o_product_name : option string;
  o_bundle_id : option string;
  o_package_name : option string;
  o_signer_kind : Z;
  o_signer_id : option string;
  o_signer_subject : option string;
  o_signer_valid : bool;
  o_seen_at : Z }.
#[export] Instance ObservedBinary_eq_dec : EqDecision ObservedBinary.
Proof. solve_decision. Defined.

(** A request to record. *)
Record NewRequest := {
  n_request_id : string;
  n_host_uuid : string;
  n_client_request_id : string;
  n_lineage_id : string;
  n_bin_sha : string;
  n_revision : Z;
  n_origin : RequestOrigin;
  n_target : UserIdentity;
  n_requester_uid : option Z;
  n_requester_user_name : option string;
  n_requested_by_admin_id : option string;
  n_reason : option string;
  n_flags : Z;
  n_host_tier : string;
  n_proposer_spiffe_id : string;
  n_dedup_key : list u8;
  n_submitted_at : Z;
  n_pending_expires_at : Z;
  n_auto_downgrade_reason : option AutoDowngradeReason }.
#[export] Instance NewRequest_eq_dec : EqDecision NewRequest.
Proof. solve_decision. Defined.

(** The terms an administrator chooses when approving. *)
Record ApprovalTerms := {
  t_user_scope : UserScope;
  t_path_match : PathMatch;
  t_update_policy : UpdatePolicy;
  t_continuity : Continuity;
  t_expires_at : option Z;
  t_note : option string }.
#[export] Instance ApprovalTerms_eq_dec : EqDecision ApprovalTerms.
Proof. solve_decision. Defined.

