(* ===== verification/AppDedup.v ===== *)
(** The deduplication key of a request (crates/ferro-raft/src/apps/model.rs, [dedup_key]):
    the NUL-separated encoding it hashes is unambiguous. *)
From stdpp Require Import pretty.
From S2P Require Import Prelude AppModel.
Open Scope Z_scope.

(** ** Separators *)
Section Separators.
Context {A : Type} (sep : A).

(** A separator that the parts before it, or the parts after it, do not contain. *)
Lemma split_first (l l' r r' : list A) :
  sep ∉ l → sep ∉ l' → l ++ sep :: r = l' ++ sep :: r' → l = l' ∧ r = r'.
Proof.
  revert l'. induction l as [|a l IH]; intros [|a' l'] Hl Hl'; cbn.
  - by intros [= ->].
  - intros [= <- _]. set_solver.
  - intros [= -> _]. set_solver.
  - intros [= <- H]. apply IH in H as [-> ->]; set_solver.
Qed.

Lemma split_last (l l' r r' : list A) :
  sep ∉ r → sep ∉ r' → l ++ sep :: r = l' ++ sep :: r' → l = l' ∧ r = r'.
Proof.
  intros Hr Hr' H. apply (f_equal reverse) in H. rewrite !reverse_app, !reverse_cons, <- !app_assoc in H.
  apply split_first in H as [H1 H2]; [|by rewrite elem_of_reverse..].
  by apply (inj reverse) in H1, H2.
Qed.
End Separators.

(** ** Strings and their bytes *)
#[export] Instance byte_of_ascii_inj : Inj (=) (=) byte_of_ascii.
Proof.
  intros a b H. apply (f_equal Ascii.ascii_of_byte) in H. unfold byte_of_ascii in H.
  by rewrite !Ascii.ascii_of_byte_of_ascii in H.
Qed.

#[export] Instance as_bytes_inj : Inj (=) (=) as_bytes.
Proof.
  intros s t H. apply (inj (fmap byte_of_ascii)) in H.
  rewrite <- (String.string_of_list_ascii_of_string s), H. apply String.string_of_list_ascii_of_string.
Qed.

Lemma list_ascii_app s t :
  String.list_ascii_of_string (s +:+ t) = String.list_ascii_of_string s ++ String.list_ascii_of_string t.
Proof. induction s as [|a s IH]; cbn; [done|]. by rewrite <- IH. Qed.

Definition char_in (a : Ascii.ascii) (s : string) : Prop := a ∈ String.list_ascii_of_string s.

(** The decimal digits of a number contain no colon. *)
Lemma pretty_N_go_char a x s : char_in a (pretty_N_go x s) → char_in a s ∨ ∃ n, a = pretty_N_char n.
Proof.
  revert s. induction (N.lt_wf_0 x) as [x _ IH]; intros s H.
  assert (x = 0 ∨ 0 < x)%N as [->|Hx] by lia; [by left|].
  rewrite pretty_N_go_step in H by done. apply IH in H as [H|H]; [|by right|by apply N.div_lt].
  unfold char_in in H. cbn in H. apply elem_of_cons in H as [->|H]; [right; by eexists|by left].
Qed.

Lemma pretty_Z_no_colon (n : Z) : ¬ char_in (Ascii.ascii_of_nat 58) (pretty n).
Proof.
  assert (∀ m : N, ¬ char_in (Ascii.ascii_of_nat 58) (pretty m)) as HN.
  { intros m H. unfold pretty, pretty_N in H. case_decide.
    - vm_compute in H. set_solver.
    - apply pretty_N_go_char in H as [H|[k H]]; [by apply elem_of_nil in H|].
      unfold pretty_N_char in H. by repeat case_match. }
  intros H. unfold pretty, pretty_Z in H. destruct n as [|m|m].
  - vm_compute in H. set_solver.
  - by apply (HN (N.pos m)).
  - unfold char_in in H. rewrite list_ascii_app in H. apply elem_of_app in H as [H|H].
    + vm_compute in H. set_solver.
    + by apply (HN (N.pos m)).
Qed.

(** Two identities that name the same user, as [user_key] reads them. *)
Definition same_user (u u' : UserIdentity) : Prop :=
  kind u = kind u' ∧
  match kind u with
  | Unix => default 0 (uid u) = default 0 (uid u') ∧ default "" (user_name u) = default "" (user_name u')
  | Windows => to_ascii_uppercase (default "" (sid u)) = to_ascii_uppercase (default "" (sid u'))
  end.

Lemma list_ascii_inj s t : String.list_ascii_of_string s = String.list_ascii_of_string t → s = t.
Proof.
  intros H. rewrite <- (String.string_of_list_ascii_of_string s), H. apply String.string_of_list_ascii_of_string.
Qed.

Lemma user_key_inj u u' : user_key u = user_key u' → same_user u u'.
Proof.
  unfold user_key, same_user. destruct (kind u), (kind u'); intros H; try done; split; try done.
  - injection H as H. apply (f_equal String.list_ascii_of_string) in H. rewrite !list_ascii_app in H.
    apply split_first in H as [H1 H2]; [|apply pretty_Z_no_colon..].
    apply list_ascii_inj in H1, H2. split; [by apply (inj pretty)|done].
  - by injection H.
Qed.

(** the deduplication key identifies what is requested: when two requests have the same
    key, they are for the same host, path, user and hash, unless SHA-256 maps two
    different inputs the code actually hashed to one digest.  The path key may contain NUL
    bytes (UTF-16 does); host, user and hash may not. *)
Theorem dedup_key_identifies sha256 host path u sha host' path' u' sha' :
  Byte.x00 ∉ as_bytes host → Byte.x00 ∉ as_bytes host' →
  Byte.x00 ∉ as_bytes (user_key u) → Byte.x00 ∉ as_bytes (user_key u') →
  Byte.x00 ∉ as_bytes sha → Byte.x00 ∉ as_bytes sha' →
  dedup_key sha256 host path u sha = dedup_key sha256 host' path' u' sha' →
  (host = host' ∧ path = path' ∧ same_user u u' ∧ sha = sha') ∨
  (dedup_input host path u sha ≠ dedup_input host' path' u' sha' ∧
   sha256 (dedup_input host path u sha) = sha256 (dedup_input host' path' u' sha')).
Proof.
  intros Hh Hh' Hu Hu' Hs Hs' Hkey.
  destruct (decide (dedup_input host path u sha = dedup_input host' path' u' sha')) as [E|]; [left|by right].
  unfold dedup_input in E. cbn [app] in E.
  apply split_first in E as [E1%as_bytes_inj E]; [|done..].
  rewrite !(app_comm_cons (as_bytes (user_key _))) in E.
  rewrite <- !app_comm_cons, !(cons_middle _ path), !(cons_middle _ path'), !app_assoc in E.
  apply split_last in E as [E E4%as_bytes_inj]; [|done..].
  rewrite <- !app_assoc in E. apply split_last in E as [E2 E3%as_bytes_inj]; [|done..].
  repeat split; try done; by apply user_key_inj.
Qed.
