(* ===== verification/Order.v ===== *)
(** Comparators and stable sorting, as the sources use them: [Ord::cmp] on bytes, byte
    arrays and strings, [then_with], [sort_by]. *)
From stdpp Require Import sorting countable.
From S2P Require Import Prelude AppModel AppDedup.
Open Scope Z_scope.

#[export] Program Instance u8_countable : Countable u8 :=
  inj_countable' u8.to_Z u8.of_Z _.
Next Obligation. apply u8.of_Z_to_Z. Qed.

(** ** Comparators *)

(** What [Ord] promises of a comparison, up to the equivalence [cmp x y = Eq]. *)
Class CmpLaws {A} (cmp : A → A → comparison) := {
  cmp_refl x : cmp x x = Eq;
  cmp_opp x y : cmp y x = CompOpp (cmp x y);
  cmp_eq_l x y z : cmp x y = Eq → cmp x z = cmp y z;
  cmp_lt_trans x y z : cmp x y = Lt → cmp y z = Lt → cmp x z = Lt }.

(** A comparison that is [Eq] on equal values only. *)
Class CmpAntisym {A} (cmp : A → A → comparison) := cmp_eq x y : cmp x y = Eq → x = y.

(** [Ordering::then_with]. *)
Definition then_with (c k : comparison) : comparison := match c with Eq => k | _ => c end.
Definition cmp_by {A B} (f : A → B) (cmp : B → B → comparison) (x y : A) : comparison := cmp (f x) (f y).
Definition cmp_then {A} (c1 c2 : A → A → comparison) (x y : A) : comparison := then_with (c1 x y) (c2 x y).

Definition u8_cmp (a b : u8) : comparison := u8.to_Z a ?= u8.to_Z b.

(** Lexicographic comparison of slices. *)
Fixpoint lex_cmp {A} (cmp : A → A → comparison) (l m : list A) : comparison :=
  match l, m with
  | [], [] => Eq
  | [], _ :: _ => Lt
  | _ :: _, [] => Gt
  | a :: l, b :: m => then_with (cmp a b) (lex_cmp cmp l m)
  end.

Definition bytes_cmp : list u8 → list u8 → comparison := lex_cmp u8_cmp.
(** [str::cmp] compares the UTF-8 bytes. *)
Definition str_cmp : string → string → comparison := cmp_by as_bytes bytes_cmp.

#[export] Instance Z_cmp_laws : CmpLaws Z.compare.
Proof.
  split; intros *.
  - apply Z.compare_refl.
  - apply Z.compare_antisym.
  - by intros ->%Z.compare_eq.
  - rewrite !Z.compare_lt_iff. lia.
Qed.
#[export] Instance Z_cmp_antisym : CmpAntisym Z.compare.
Proof. intros x y. apply Z.compare_eq. Qed.

Section Comparators.
Context {A B : Type}.

#[export] Instance cmp_by_laws (f : A → B) cmp `{!CmpLaws cmp} : CmpLaws (cmp_by f cmp).
Proof.
  split; unfold cmp_by; intros *; [apply cmp_refl|apply cmp_opp|apply cmp_eq_l|apply cmp_lt_trans].
Qed.
#[export] Instance cmp_by_antisym (f : A → B) cmp `{!CmpAntisym cmp, !Inj (=) (=) f} : CmpAntisym (cmp_by f cmp).
Proof. intros x y H. by apply (inj f), (cmp_eq (cmp := cmp)). Qed.

(** The comparison of equivalent values, on the right. *)
Lemma cmp_eq_r (cmp : A → A → comparison) `{!CmpLaws cmp} x y z : cmp x y = Eq → cmp z x = cmp z y.
Proof. intros H. rewrite (cmp_opp x z), (cmp_opp y z). by rewrite (cmp_eq_l x y z H). Qed.

#[export] Instance cmp_then_laws (c1 c2 : A → A → comparison) `{!CmpLaws c1, !CmpLaws c2} :
  CmpLaws (cmp_then c1 c2).
Proof.
  split; unfold cmp_then, then_with; intros *.
  - by rewrite !cmp_refl.
  - rewrite (cmp_opp (cmp := c1) x y), (cmp_opp (cmp := c2) x y). by destruct (c1 x y).
  - destruct (c1 x y) eqn:E1; [|done..]. intros E2.
    by rewrite (cmp_eq_l x y z E1), (cmp_eq_l x y z E2).
  - destruct (c1 x y) eqn:E1; [| |done].
    + rewrite <- (cmp_eq_l x y z E1). destruct (c1 x z); [|done..]. apply cmp_lt_trans.
    + intros _. destruct (c1 y z) eqn:E2; [| |done].
      * by rewrite <- (cmp_eq_r c1 y z x E2), E1.
      * by rewrite (cmp_lt_trans x y z E1 E2).
Qed.

#[export] Instance lex_cmp_laws (cmp : A → A → comparison) `{!CmpLaws cmp} : CmpLaws (lex_cmp cmp).
Proof.
  split.
  - intros l. induction l as [|a l IH]; cbn; [done|]. by rewrite cmp_refl.
  - intros l. induction l as [|a l IH]; intros [|b m]; cbn; try done.
    rewrite (cmp_opp a b), IH. by destruct (cmp a b).
  - intros l. induction l as [|a l IH]; intros [|b m] [|c n]; cbn; try done.
    destruct (cmp a b) eqn:E; [|done..]. cbn. intros H.
    by rewrite (cmp_eq_l a b c E), (IH m n H).
  - intros l. induction l as [|a l IH]; intros [|b m] [|c n]; cbn; try done.
    destruct (cmp a b) eqn:E1; cbn; [| |done].
    + rewrite (cmp_eq_l a b c E1). destruct (cmp b c); cbn; [|done..]. apply IH.
    + intros _. destruct (cmp b c) eqn:E2; cbn; [| |done].
      * by rewrite <- (cmp_eq_r cmp b c a E2), E1.
      * by rewrite (cmp_lt_trans a b c E1 E2).
Qed.
#[export] Instance lex_cmp_antisym (cmp : A → A → comparison) `{!CmpAntisym cmp} : CmpAntisym (lex_cmp cmp).
Proof.
  intros l. induction l as [|a l IH]; intros [|b m]; cbn; try done.
  destruct (cmp a b) eqn:E; cbn; [|done..]. intros H. by rewrite (cmp_eq a b E), (IH m H).
Qed.
End Comparators.

#[export] Instance u8_cmp_laws : CmpLaws u8_cmp.
Proof. apply (cmp_by_laws u8.to_Z Z.compare). Qed.
#[export] Instance u8_cmp_antisym : CmpAntisym u8_cmp.
Proof. intros a b H. by apply u8.to_Z_inj, Z.compare_eq. Qed.
#[export] Instance bytes_cmp_laws : CmpLaws bytes_cmp := _.
#[export] Instance bytes_cmp_antisym : CmpAntisym bytes_cmp := _.
#[export] Instance str_cmp_laws : CmpLaws str_cmp := _.
#[export] Instance str_cmp_antisym : CmpAntisym str_cmp := _.

(** ** Stable sorting *)
Section Sort.
Context {A : Type} (cmp : A → A → comparison).

Definition cmp_le (x y : A) : Prop := cmp x y ≠ Gt.

(** Insertion before the first element that is not smaller keeps equal elements in order. *)
Fixpoint sort_insert (x : A) (l : list A) : list A :=
  match l with
  | [] => [x]
  | y :: l => match cmp x y with Gt => y :: sort_insert x l | _ => x :: y :: l end
  end.
(** [slice::sort_by], a stable sort. *)
Definition sort_by (l : list A) : list A := foldr sort_insert [] l.

Lemma sort_insert_Permutation x l : sort_insert x l ≡ₚ x :: l.
Proof.
  induction l as [|y l IH]; cbn; [done|]. destruct (cmp x y); [done..|].
  rewrite IH. apply Permutation_swap.
Qed.
Lemma sort_by_Permutation l : sort_by l ≡ₚ l.
Proof. induction l as [|x l IH]; cbn; [done|]. by rewrite sort_insert_Permutation, IH. Qed.

Context `{!CmpLaws cmp}.

#[export] Instance cmp_le_trans : Transitive cmp_le.
Proof.
  intros x y z. unfold cmp_le. destruct (cmp x y) eqn:E1; [| |done].
  - by rewrite (cmp_eq_l x y z E1).
  - intros _. destruct (cmp y z) eqn:E2; [| |done]; intros _.
    + by rewrite <- (cmp_eq_r cmp y z x E2), E1.
    + by rewrite (cmp_lt_trans x y z E1 E2).
Qed.

Lemma sort_insert_Sorted x l : Sorted cmp_le l → Sorted cmp_le (sort_insert x l).
Proof.
  induction 1 as [|y l Hl IH Hd]; cbn; [by repeat constructor|].
  destruct (cmp x y) eqn:E; [by repeat constructor; unfold cmp_le; rewrite ?E..|].
  constructor; [done|]. assert (cmp_le y x) by (unfold cmp_le; by rewrite (cmp_opp x y), E).
  destruct Hd as [|z l Hz]; cbn; [by constructor|]. destruct (cmp x z); by constructor.
Qed.
Lemma sort_by_Sorted l : Sorted cmp_le (sort_by l).
Proof. induction l; cbn; [constructor|by apply sort_insert_Sorted]. Qed.

(** A sorted list is left as it is. *)
Lemma sort_insert_head x l : HdRel cmp_le x l → sort_insert x l = x :: l.
Proof. destruct 1 as [|y l H]; cbn; [done|]. unfold cmp_le in H. by destruct (cmp x y). Qed.
Lemma sort_by_sorted_id l : Sorted cmp_le l → sort_by l = l.
Proof. induction 1 as [|x l Hl IH Hd]; [done|]. change (sort_insert x (sort_by l) = x :: l).
  rewrite IH. by apply sort_insert_head. Qed.
Lemma sort_by_idemp l : sort_by (sort_by l) = sort_by l.
Proof. apply sort_by_sorted_id, sort_by_Sorted. Qed.

(** Two orders of the same elements sort to the same list when elements that compare equal
    are equal. *)
Lemma sort_by_unique l l' :
  l ≡ₚ l' → (∀ x y, x ∈ l → y ∈ l → cmp x y = Eq → x = y) → sort_by l = sort_by l'.
Proof.
  intros Hp Hu. apply (Sorted_unique_strong cmp_le).
  - intros x y Hx Hy. rewrite sort_by_Permutation in Hx. rewrite sort_by_Permutation, <- Hp in Hy.
    unfold cmp_le. intros Hxy Hyx. apply Hu; [done..|]. rewrite (cmp_opp x y) in Hyx.
    by destruct (cmp x y).
  - apply sort_by_Sorted.
  - apply sort_by_Sorted.
  - by rewrite !sort_by_Permutation.
Qed.
End Sort.
