(* ===== verification/AppSchema.v ===== *)
(** The tables, constraints and triggers of the app approval ledger
    (crates/ferro-raft/src/apps/schema.rs, migrations 1 to 3 applied), and the
    evaluation of single-row writes against them.

    A table is a finite map from its primary key to its rows.  An expression is a
    boolean: a comparison with NULL ([None]) is not true, and [IS] / [IS NOT] compare
    options.  Every trigger raises ABORT when its WHEN clause is true, so a trigger is a
    boolean that refuses the write. *)
From S2P Require Import Prelude AppModel.
Open Scope Z_scope.

(** ** The database *)
Record Db := MkDb {
  lineages : gmap string LineageRow;
  binaries : gmap (string * string) BinaryRow;
  requests : gmap string RequestRow;
  approvals : gmap string ApprovalRow;
  revisions : gmap (string * Z) ApprovalRevisionRow;
  hosts : gmap string HostAllowlistStateRow }.

Definition empty_db : Db := MkDb ∅ ∅ ∅ ∅ ∅ ∅.

Definition set_lineages (f : gmap string LineageRow → gmap string LineageRow) (d : Db) : Db :=
  MkDb (f (lineages d)) (binaries d) (requests d) (approvals d) (revisions d) (hosts d).
Definition set_binaries (f : gmap (string * string) BinaryRow → gmap (string * string) BinaryRow)
    (d : Db) : Db :=
  MkDb (lineages d) (f (binaries d)) (requests d) (approvals d) (revisions d) (hosts d).
Definition set_requests (f : gmap string RequestRow → gmap string RequestRow) (d : Db) : Db :=
  MkDb (lineages d) (binaries d) (f (requests d)) (approvals d) (revisions d) (hosts d).
Definition set_approvals (f : gmap string ApprovalRow → gmap string ApprovalRow) (d : Db) : Db :=
  MkDb (lineages d) (binaries d) (requests d) (f (approvals d)) (revisions d) (hosts d).
Definition set_revisions
    (f : gmap (string * Z) ApprovalRevisionRow → gmap (string * Z) ApprovalRevisionRow) (d : Db) : Db :=
  MkDb (lineages d) (binaries d) (requests d) (approvals d) (f (revisions d)) (hosts d).
Definition set_hosts (f : gmap string HostAllowlistStateRow → gmap string HostAllowlistStateRow)
    (d : Db) : Db :=
  MkDb (lineages d) (binaries d) (requests d) (approvals d) (revisions d) (f (hosts d)).

(** ** Expressions *)

(** [EXISTS (SELECT 1 FROM m WHERE p)]. *)
Definition exists_row {K A} `{Countable K} (p : A → bool) (m : gmap K A) : bool :=
  existsb (λ kr, p kr.2) (map_to_list m).

Lemma exists_row_true {K A} `{Countable K} (p : A → bool) (m : gmap K A) :
  exists_row p m = true ↔ ∃ k r, m !! k = Some r ∧ p r = true.
Proof.
  unfold exists_row. rewrite existsb_exists. split.
  - intros ([k r] & Hin & Hp). apply list_elem_of_In, elem_of_map_to_list in Hin. eauto.
  - intros (k & r & Hk & Hp). exists (k, r). split; [|done].
    by apply list_elem_of_In, elem_of_map_to_list.
Qed.

Lemma exists_row_false {K A} `{Countable K} (p : A → bool) (m : gmap K A) :
  exists_row p m = false ↔ ∀ k r, m !! k = Some r → p r = false.
Proof.
  rewrite <- not_true_iff_false, exists_row_true. split.
  - intros Hn k r Hk. apply not_true_iff_false. intros Hp. eauto.
  - intros Hall (k & r & Hk & Hp). rewrite (Hall k r Hk) in Hp. done.
Qed.

(** [SELECT COUNT( * ) FROM m WHERE p]. *)
Definition count_rows {K A} `{Countable K} (p : A → bool) (m : gmap K A) : Z :=
  Z.of_nat (length (List.filter (λ kr, p kr.2) (map_to_list m))).

(** [x IS y]. *)
Definition is_ {A} `{EqDecision A} (x y : A) : bool := bool_decide (x = y).
(** [x = y], [x > y] and [x < y] on nullable columns. *)
Definition eq_null {A} `{EqDecision A} (x y : option A) : bool :=
  match x, y with Some x, Some y => bool_decide (x = y) | _, _ => false end.
Definition gt_null (x y : option Z) : bool :=
  match x, y with Some x, Some y => y <? x | _, _ => false end.
Definition is_null {A} (x : option A) : bool := match x with None => true | _ => false end.
Definition not_null {A} (x : option A) : bool := negb (is_null x).

(** [length] of a TEXT: its characters before the first NUL (bytes that do not continue
    a UTF-8 sequence). *)
Fixpoint until_nul (l : list Ascii.ascii) : list Ascii.ascii :=
  match l with
  | [] => []
  | a :: l => if (Ascii.nat_of_ascii a =? 0)%nat then [] else a :: until_nul l
  end.
Definition starts_char (a : Ascii.ascii) : bool :=
  let n := Ascii.nat_of_ascii a in (n <? 128)%nat || (192 <=? n)%nat.
Definition sql_length (s : string) : nat :=
  length (List.filter starts_char (until_nul (String.list_ascii_of_string s))).
Definition len_between (s : string) (lo hi : nat) : bool :=
  (lo <=? sql_length s)%nat && (sql_length s <=? hi)%nat.
Definition len_at_most (s : option string) (hi : nat) : bool :=
  match s with None => true | Some s => (sql_length s <=? hi)%nat end.
Definition bytes_between {A} (l : list A) (lo hi : nat) : bool :=
  (lo <=? length l)%nat && (length l <=? hi)%nat.
(** [length(s) = 96 AND s NOT GLOB '*[^0-9a-f]*']. *)
Definition sha_column (s : string) : bool :=
  (sql_length s =? 96)%nat && forallb is_hex_lower (until_nul (String.list_ascii_of_string s)).

(** ** Pseudonyms *)
Definition PSEUDONYM_PREFIX : string := "pseudonym:v1:".

Fixpoint strip_list (p l : list Ascii.ascii) : option (list Ascii.ascii) :=
  match p, l with
  | [], l => Some l
  | a :: p, b :: l => if Ascii.eqb a b then strip_list p l else None
  | _ :: _, [] => None
  end.

(** [is_pseudonym]. *)
Definition is_pseudonym (value : string) : bool :=
  match strip_list (String.list_ascii_of_string PSEUDONYM_PREFIX)
          (String.list_ascii_of_string value) with
  | Some hex => (length hex =? 64)%nat && forallb is_hex_lower hex
  | None => false
  end.

(** [pseudonym_sql!]: false for NULL. *)
Definition pseudonym_column (c : option string) : bool :=
  match c with
  | None => false
  | Some s => is_pseudonym (String.string_of_list_ascii (until_nul (String.list_ascii_of_string s)))
  end.

(** ** CHECK constraints (those a row type does not already express) *)
Definition lineage_checks (l : LineageRow) : bool :=
  len_between (l_lineage_id l) 1 64 && len_between (l_host_uuid l) 1 64
  && (1 <=? l_platform l) && (l_platform l <=? 3)
  && (1 <=? String.length (l_canonical_path l))%nat && (String.length (l_canonical_path l) <=? 4096)%nat
  && bytes_between (l_path_key l) 1 8192 && (1 <=? l_next_revision l).

Definition binary_checks (b : BinaryRow) : bool :=
  sha_column (b_bin_sha b) && (1 <=? b_revision b) && (0 <=? b_file_size b)
  && existsb (Z.eqb (b_format b)) [1; 2; 3; 9]
  && len_at_most (b_declared_version b) 64
  && (0 <=? b_version_source b) && (b_version_source b <=? 7)
  && len_at_most (b_product_name b) 128 && len_at_most (b_bundle_id b) 255
  && len_at_most (b_package_name b) 128
  && (0 <=? b_signer_kind b) && (b_signer_kind b <=? 2)
  && len_at_most (b_signer_id b) 128 && len_at_most (b_signer_subject b) 256.

Definition request_checks (r : RequestRow) : bool :=
  len_between (r_request_id r) 1 64 && len_between (r_host_uuid r) 1 64
  && len_between (r_client_request_id r) 1 64 && sha_column (r_bin_sha r) && (1 <=? r_revision r)
  && len_at_most (sid (r_target r)) 184 && len_at_most (user_name (r_target r)) 256
  && len_at_most (r_requester_user_name r) 256 && len_at_most (r_reason r) 200
  && (0 <=? r_flags r) && (r_flags r <=? 4294967295)
  && len_between (r_host_tier r) 0 64 && len_between (r_proposer_spiffe_id r) 0 2048
  && (length (r_dedup_key r) =? 32)%nat
  && len_at_most (r_decision_message r) 200
  && eqb (is_ (r_state r) ReqPending) (is_null (r_decided_at r))
  && eqb (is_ (r_state r) ReqApproved || is_ (r_state r) ReqAutoApproved)
       (not_null (r_resulting_approval_id r))
  && (negb (is_ (r_state r) ReqDenied) || not_null (r_decision_reason_code r))
  && (negb (is_ (r_origin r) AdminDirect) || not_null (r_requested_by_admin_id r))
  && (negb (is_ (kind (r_target r)) Unix) || not_null (uid (r_target r)))
  && (negb (is_ (kind (r_target r)) Windows) || not_null (sid (r_target r))).

Definition approval_checks (a : ApprovalRow) : bool :=
  len_between (a_approval_id a) 1 64 && len_between (a_host_uuid a) 1 64
  && len_at_most (a_sid a) 184 && len_at_most (a_user_name a) 256 && len_at_most (a_note a) 500
  && (1 <=? a_row_version a)
  && (String.eqb (a_bin_sha a) "*" && is_ (a_origin a) LegacyOrigin || sha_column (a_bin_sha a))
  && (not_null (a_revision a) || is_ (a_origin a) LegacyOrigin)
  && eqb (is_ (a_origin a) AutoUpdate) (not_null (a_parent_approval_id a))
  && eqb (is_ (a_origin a) AutoUpdate || is_ (a_origin a) LegacyOrigin)
       (is_null (a_approved_by_admin_id a))
  && eqb (is_ (a_origin a) LegacyOrigin) (is_null (a_source_request_id a))
  && (is_ (a_user_scope a) ExactUser
      || is_null (a_uid a) && is_null (a_sid a) && is_null (a_user_name a))
  && (is_ (a_user_scope a) AnyUser || not_null (a_uid a) || not_null (a_sid a))
  && eqb (is_ (a_state a) Revoked) (not_null (a_revoked_at a))
  && (negb (is_ (a_state a) Revoked)
      || not_null (a_revoked_by_admin_id a) && not_null (a_revoke_reason_code a))
  && (negb (is_ (a_state a) Expired) || not_null (a_expires_at a)).

Definition revision_checks (v : ApprovalRevisionRow) : bool :=
  (1 <=? v_row_version v)
  && eqb (is_ (v_change_kind v) RevCreated) (v_row_version v =? 1)
  && eqb (is_ (v_change_kind v) RevCreated) (is_null (v_before_cbor v))
  && (negb (existsb (is_ (v_change_kind v)) [RevUpdated; RevRevoked; RevRenewed])
      || not_null (v_changed_by_admin_id v)).

Definition host_checks (h : HostAllowlistStateRow) : bool :=
  len_between (h_host_uuid h) 1 64 && (0 <=? h_generation h).

(** ** Triggers on [app_lineages] and [app_binaries] *)
Definition app_lineages_identity_immutable (old new : LineageRow) : bool :=
  negb (is_ (l_lineage_id new) (l_lineage_id old)) || negb (is_ (l_host_uuid new) (l_host_uuid old))
  || negb (is_ (l_platform new) (l_platform old)) || negb (is_ (l_path_key new) (l_path_key old))
  || negb (is_ (l_created_at new) (l_created_at old)).

Definition app_lineages_revisions_sequential (d : Db) (old new : LineageRow) : bool :=
  negb (is_ (l_next_revision new) (l_next_revision old))
  && (negb (is_ (l_next_revision new) (l_next_revision old + 1))
      || negb (exists_row (λ b, is_ (b_lineage_id b) (l_lineage_id old)
                                && is_ (b_revision b) (l_next_revision old)) (binaries d))).

Definition app_lineages_path_kept_while_active (d : Db) (old new : LineageRow) : bool :=
  negb (is_ (l_canonical_path new) (l_canonical_path old))
  && exists_row (λ a, is_ (a_lineage_id a) (l_lineage_id old) && is_ (a_state a) Active) (approvals d).

Definition app_binaries_take_next_revision (d : Db) (new : BinaryRow) : bool :=
  negb (exists_row (λ l, is_ (l_lineage_id l) (b_lineage_id new)
                         && is_ (l_next_revision l) (b_revision new)) (lineages d)).

(** ** Triggers on [app_requests] *)
Definition app_requests_insert_state (new : RequestRow) : bool :=
  negb (existsb (is_ (r_state new)) [ReqPending; ReqApproved; ReqAutoApproved])
  || is_ (r_state new) ReqApproved && negb (is_ (r_origin new) AdminDirect)
  || is_ (r_state new) ReqAutoApproved && is_ (r_origin new) AdminDirect.

(** [EXISTS (SELECT 1 FROM app_binaries b JOIN app_lineages l ...)], shared by the
    request and the approval trigger. *)
Definition binary_of_host (d : Db) (lineage_id bin_sha : string) (revision : option Z)
    (host_uuid : string) : bool :=
  exists_row (λ b, is_ (b_lineage_id b) lineage_id && is_ (b_bin_sha b) bin_sha
    && eq_null (Some (b_revision b)) revision
    && exists_row (λ l, is_ (l_lineage_id l) (b_lineage_id b) && is_ (l_host_uuid l) host_uuid)
         (lineages d)) (binaries d).

Definition app_requests_insert_binary (d : Db) (new : RequestRow) : bool :=
  negb (binary_of_host d (r_lineage_id new) (r_bin_sha new) (Some (r_revision new)) (r_host_uuid new)).

(** An approval a request of this binary on this host may name. *)
Definition names_approval (d : Db) (id : option string) (host_uuid bin_sha : string) : bool :=
  exists_row (λ a, eq_null (Some (a_approval_id a)) id && is_ (a_host_uuid a) host_uuid
    && (is_ (a_bin_sha a) bin_sha || is_ (a_bin_sha a) "*")) (approvals d).

Definition app_requests_insert_approval (d : Db) (new : RequestRow) : bool :=
  not_null (r_resulting_approval_id new)
  && negb (names_approval d (r_resulting_approval_id new) (r_host_uuid new) (r_bin_sha new)).

Definition app_requests_columns_immutable (old new : RequestRow) : bool :=
  negb (is_ (r_request_id new) (r_request_id old)) || negb (is_ (r_host_uuid new) (r_host_uuid old))
  || negb (is_ (r_client_request_id new) (r_client_request_id old))
  || negb (is_ (r_lineage_id new) (r_lineage_id old)) || negb (is_ (r_bin_sha new) (r_bin_sha old))
  || negb (is_ (r_revision new) (r_revision old)) || negb (is_ (r_kind new) (r_kind old))
  || negb (is_ (r_origin new) (r_origin old))
  || negb (is_ (kind (r_target new)) (kind (r_target old)))
  || negb (is_ (uid (r_target new)) (uid (r_target old)))
  || negb (is_ (r_requester_uid new) (r_requester_uid old))
  || negb (is_ (r_requested_by_admin_id new) (r_requested_by_admin_id old))
  || negb (is_ (r_flags new) (r_flags old)) || negb (is_ (r_host_tier new) (r_host_tier old))
  || negb (is_ (r_proposer_spiffe_id new) (r_proposer_spiffe_id old))
  || negb (is_ (r_dedup_key new) (r_dedup_key old))
  || negb (is_ (r_submitted_at new) (r_submitted_at old))
  || negb (is_ (r_pending_expires_at new) (r_pending_expires_at old))
  || negb (is_ (r_auto_downgrade_reason new) (r_auto_downgrade_reason old)).

Definition app_requests_pending_decides_once (old new : RequestRow) : bool :=
  is_ (r_state old) ReqPending
  && (negb (existsb (is_ (r_state new)) [ReqApproved; ReqDenied; ReqExpired])
      || negb (is_ (sid (r_target new)) (sid (r_target old)))
      || negb (is_ (user_name (r_target new)) (user_name (r_target old)))
      || negb (is_ (r_requester_user_name new) (r_requester_user_name old))
      || negb (is_ (r_reason new) (r_reason old))).

Definition app_requests_terminal_final (old new : RequestRow) : bool :=
  negb (is_ (r_state old) ReqPending)
  && (negb (is_ (r_state new) (r_state old)) || negb (is_ (r_decided_at new) (r_decided_at old))
      || negb (is_ (r_decided_by_admin_id new) (r_decided_by_admin_id old))
      || negb (is_ (r_decision_reason_code new) (r_decision_reason_code old))
      || negb (is_ (r_resulting_approval_id new) (r_resulting_approval_id old))
      || negb (is_ (r_same_actor_approved new) (r_same_actor_approved old))).

Definition app_requests_decision_names_approval (d : Db) (old new : RequestRow) : bool :=
  not_null (r_resulting_approval_id new)
  && negb (is_ (r_resulting_approval_id new) (r_resulting_approval_id old))
  && negb (names_approval d (r_resulting_approval_id new) (r_host_uuid new) (r_bin_sha new)).

(** ** Triggers on [app_approvals] (migrations 2 and 3 applied) *)
Definition app_approvals_insert_fresh (new : ApprovalRow) : bool :=
  negb (is_ (a_state new) Active) || negb (a_row_version new =? 1) || not_null (a_superseded_by new).

Definition app_approvals_insert_binary (d : Db) (new : ApprovalRow) : bool :=
  negb (is_ (a_origin new) LegacyOrigin)
  && negb (binary_of_host d (a_lineage_id new) (a_bin_sha new) (a_revision new) (a_host_uuid new)).

(** The row [p] is a parent the auto-update [new] copies. *)
Definition copies_parent (d : Db) (new p : ApprovalRow) : bool :=
  exists_row (λ l, is_ (l_lineage_id l) (a_lineage_id p) && negb (l_auto_update_frozen l)) (lineages d)
  && eq_null (Some (a_approval_id p)) (a_parent_approval_id new) && is_ (a_state p) Active
  && is_ (a_update_policy p) AutoSamePathUser && is_ (a_host_uuid p) (a_host_uuid new)
  && is_ (a_lineage_id p) (a_lineage_id new)
  && is_ (a_user_scope p) (a_user_scope new) && is_ (a_user_kind p) (a_user_kind new)
  && is_ (a_uid p) (a_uid new) && is_ (a_sid p) (a_sid new) && is_ (a_user_name p) (a_user_name new)
  && is_ (a_path_match p) (a_path_match new) && is_ (a_update_policy p) (a_update_policy new)
  && is_ (a_continuity p) (a_continuity new) && is_ (a_expires_at p) (a_expires_at new)
  && (is_null (a_expires_at p) || gt_null (a_expires_at p) (Some (a_created_at new))).

Definition app_approvals_insert_auto_update (d : Db) (new : ApprovalRow) : bool :=
  is_ (a_origin new) AutoUpdate && negb (exists_row (copies_parent d new) (approvals d)).

(** The hash was revoked or denied in the lineage. *)
Definition hash_revoked (d : Db) (lineage_id bin_sha : string) : bool :=
  exists_row (λ r, is_ (a_lineage_id r) lineage_id && is_ (a_bin_sha r) bin_sha
    && is_ (a_state r) Revoked) (approvals d).
Definition hash_denied (d : Db) (lineage_id bin_sha : string) : bool :=
  exists_row (λ r, is_ (r_lineage_id r) lineage_id && is_ (r_bin_sha r) bin_sha
    && is_ (r_state r) ReqDenied) (requests d).

Definition app_approvals_insert_never_reapprove (d : Db) (new : ApprovalRow) : bool :=
  is_ (a_origin new) AutoUpdate
  && (hash_revoked d (a_lineage_id new) (a_bin_sha new) || hash_denied d (a_lineage_id new) (a_bin_sha new)).

Definition app_approvals_legacy_import_terms (d : Db) (new : ApprovalRow) : bool :=
  is_ (a_origin new) LegacyOrigin
  && (negb (is_ (a_path_match new) PathAny) || negb (is_ (a_update_policy new) ManualEachTime)
      || not_null (a_expires_at new) || not_null (a_revision new)
      || not_null (a_parent_approval_id new) || not_null (a_sid new) || not_null (a_user_name new)
      || not_null (a_user_kind new)
      || exists_row (λ l, is_ (l_lineage_id l) (a_lineage_id new)) (lineages d)).

Definition app_approvals_identity_immutable (old new : ApprovalRow) : bool :=
  negb (is_ (a_approval_id new) (a_approval_id old)) || negb (is_ (a_host_uuid new) (a_host_uuid old))
  || negb (is_ (a_lineage_id new) (a_lineage_id old)) || negb (is_ (a_bin_sha new) (a_bin_sha old))
  || negb (is_ (a_revision new) (a_revision old))
  || negb (is_ (a_source_request_id new) (a_source_request_id old))
  || negb (is_ (a_origin new) (a_origin old))
  || negb (is_ (a_parent_approval_id new) (a_parent_approval_id old))
  || negb (is_ (a_approved_by_admin_id new) (a_approved_by_admin_id old))
  || negb (is_ (a_created_at new) (a_created_at old)).

(** [pseudonymises_revoked_sql!]. *)
Definition pseudonymises_revoked (old new : ApprovalRow) : bool :=
  is_ (a_state old) Revoked
  && (is_ (a_sid new) (a_sid old) || pseudonym_column (a_sid new))
  && (is_ (a_user_name new) (a_user_name old) || pseudonym_column (a_user_name new)).

Definition app_approvals_revoked_final (old new : ApprovalRow) : bool :=
  is_ (a_state old) Revoked
  && (negb (is_ (a_state new) Revoked) || negb (is_ (a_row_version new) (a_row_version old))
      || negb (is_ (a_expires_at new) (a_expires_at old))
      || negb (is_ (a_update_policy new) (a_update_policy old))
      || negb (is_ (a_continuity new) (a_continuity old))
      || negb (is_ (a_user_scope new) (a_user_scope old))
      || negb (is_ (a_path_match new) (a_path_match old))
      || negb (is_ (a_user_kind new) (a_user_kind old))
      || negb (is_ (a_uid new) (a_uid old)) || negb (is_ (a_note new) (a_note old))
      || negb (is_ (a_superseded_by new) (a_superseded_by old))
      || negb (is_ (a_revoked_at new) (a_revoked_at old))
      || negb (is_ (a_revoked_by_admin_id new) (a_revoked_by_admin_id old))
      || negb (is_ (a_revoke_reason_code new) (a_revoke_reason_code old))
      || negb (is_ (a_sid new) (a_sid old)) && negb (pseudonym_column (a_sid new))
      || negb (is_ (a_user_name new) (a_user_name old)) && negb (pseudonym_column (a_user_name new))).

Definition app_approvals_scope_only_narrows (old new : ApprovalRow) : bool :=
  is_ (a_user_scope old) ExactUser && is_ (a_user_scope new) AnyUser
  || is_ (a_path_match old) PathExact && is_ (a_path_match new) PathAny.

Definition app_approvals_user_changes_on_narrowing (old new : ApprovalRow) : bool :=
  (negb (is_ (a_uid new) (a_uid old)) || negb (is_ (a_user_kind new) (a_user_kind old))
   || negb (is_ (a_sid new) (a_sid old)) || negb (is_ (a_user_name new) (a_user_name old)))
  && negb (is_ (a_user_scope old) AnyUser && is_ (a_user_scope new) ExactUser)
  && negb (is_ (a_state new) Revoked && is_ (a_uid new) (a_uid old)
           && is_ (a_user_kind new) (a_user_kind old) && (a_row_version new =? a_row_version old)
           && pseudonymises_revoked old new).

(** The CHECK on [expires_at] of an EXPIRED row keeps the last comparison away from NULL. *)
Definition app_approvals_state_transitions (old new : ApprovalRow) : bool :=
  negb (is_ (a_state new) (a_state old))
  && negb (is_ (a_state old) Active && is_ (a_state new) Expired && not_null (a_expires_at old)
           || (is_ (a_state old) Active || is_ (a_state old) Expired) && is_ (a_state new) Revoked
           || is_ (a_state old) Expired && is_ (a_state new) Active
              && (is_null (a_expires_at new) || gt_null (a_expires_at new) (a_expires_at old))).

(** A column whose change is versioned differs. *)
Definition versioned_change (old new : ApprovalRow) : bool :=
  negb (is_ (a_state new) (a_state old)) || negb (is_ (a_update_policy new) (a_update_policy old))
  || negb (is_ (a_continuity new) (a_continuity old))
  || negb (is_ (a_expires_at new) (a_expires_at old))
  || negb (is_ (a_note new) (a_note old)) || negb (is_ (a_user_scope new) (a_user_scope old))
  || negb (is_ (a_path_match new) (a_path_match old))
  || negb (is_ (a_user_kind new) (a_user_kind old))
  || negb (is_ (a_uid new) (a_uid old)) || negb (is_ (a_revoked_at new) (a_revoked_at old))
  || negb (is_ (a_revoked_by_admin_id new) (a_revoked_by_admin_id old))
  || negb (is_ (a_revoke_reason_code new) (a_revoke_reason_code old))
  || negb (is_ (a_row_version new) (a_row_version old))
  || (negb (is_ (a_sid new) (a_sid old)) || negb (is_ (a_user_name new) (a_user_name old)))
     && negb (pseudonymises_revoked old new).

Definition app_approvals_changes_are_versioned (d : Db) (old new : ApprovalRow) : bool :=
  versioned_change old new
  && (negb (is_ (a_row_version new) (a_row_version old + 1))
      || negb (exists_row (λ v, is_ (v_approval_id v) (a_approval_id old)
                                && is_ (v_row_version v) (a_row_version new)) (revisions d))).

Definition app_approvals_superseded_once (d : Db) (old new : ApprovalRow) : bool :=
  negb (is_ (a_superseded_by new) (a_superseded_by old))
  && (not_null (a_superseded_by old)
      || negb (exists_row (λ c, eq_null (Some (a_approval_id c)) (a_superseded_by new)
                                && is_ (a_lineage_id c) (a_lineage_id old)
                                && gt_null (a_revision c) (a_revision old)) (approvals d))).

(** ** Triggers on [app_approval_revisions] and [host_allowlist_state] *)
Definition app_approval_revisions_follow_the_row (d : Db) (new : ApprovalRevisionRow) : bool :=
  negb (exists_row (λ a, is_ (a_approval_id a) (v_approval_id new)
    && is_ (a_row_version a) (if is_ (v_change_kind new) RevCreated then 1 else v_row_version new - 1))
    (approvals d)).

Definition host_allowlist_state_generation_monotonic (old new : HostAllowlistStateRow) : bool :=
  (h_generation new <? h_generation old) || negb (is_ (h_host_uuid new) (h_host_uuid old)).

(** ** Single-row writes *)

(** Why a statement aborts its transaction. *)
Inductive abort := Guard (c : string) | Constraint (what : string).

Definition check (ok : bool) (what : string) {A} (k : result abort A) : result abort A :=
  if ok then k else Err (Constraint what).

(** The UNIQUE constraints other than the primary keys. *)
Definition lineage_unique (d : Db) (l : LineageRow) : bool :=
  negb (exists_row (λ x, negb (is_ (l_lineage_id x) (l_lineage_id l))
    && is_ (l_host_uuid x) (l_host_uuid l) && is_ (l_path_key x) (l_path_key l)) (lineages d)).
Definition binary_unique (d : Db) (b : BinaryRow) : bool :=
  negb (exists_row (λ x, negb (is_ (b_bin_sha x) (b_bin_sha b))
    && is_ (b_lineage_id x) (b_lineage_id b) && is_ (b_revision x) (b_revision b)) (binaries d)).
Definition request_unique (d : Db) (r : RequestRow) : bool :=
  negb (exists_row (λ x, negb (is_ (r_request_id x) (r_request_id r))
    && is_ (r_host_uuid x) (r_host_uuid r)
    && is_ (r_client_request_id x) (r_client_request_id r)) (requests d))
  && negb (is_ (r_state r) ReqPending
           && exists_row (λ x, negb (is_ (r_request_id x) (r_request_id r))
                && is_ (r_dedup_key x) (r_dedup_key r) && is_ (r_state x) ReqPending) (requests d)).

Definition insert_lineage (l : LineageRow) (d : Db) : result abort Db :=
  check (is_null (lineages d !! l_lineage_id l)) "app_lineages primary key" (
  check (lineage_checks l) "app_lineages check" (
  check (lineage_unique d l) "app_lineages unique" (
  Ok (set_lineages <[l_lineage_id l := l]> d)))).

Definition update_lineage (old new : LineageRow) (d : Db) : result abort Db :=
  check (negb (app_lineages_identity_immutable old new)) "app_lineages: identity columns are immutable" (
  check (negb (app_lineages_revisions_sequential d old new))
    "app_lineages: revisions advance one at a time, never reused" (
  check (negb (app_lineages_path_kept_while_active d old new))
    "app_lineages: the path of a lineage with active approvals is kept" (
  check (lineage_checks new) "app_lineages check" (
  check (lineage_unique d new) "app_lineages unique" (
  Ok (set_lineages <[l_lineage_id old := new]> d)))))).

Definition insert_binary (b : BinaryRow) (d : Db) : result abort Db :=
  check (negb (app_binaries_take_next_revision d b))
    "app_binaries: a new binary takes its lineage next_revision" (
  check (is_null (binaries d !! (b_lineage_id b, b_bin_sha b))) "app_binaries primary key" (
  check (binary_checks b) "app_binaries check" (
  check (binary_unique d b) "app_binaries unique" (
  Ok (set_binaries <[(b_lineage_id b, b_bin_sha b) := b]> d))))).

Definition insert_request (r : RequestRow) (d : Db) : result abort Db :=
  check (negb (app_requests_insert_state r)) "app_requests: a request starts PENDING, AUTO_APPROVED, or APPROVED by a direct administrator add" (
  check (negb (app_requests_insert_binary d r)) "app_requests: the binary must be a revision of a lineage of this host" (
  check (negb (app_requests_insert_approval d r)) "app_requests: a decision names an approval of this binary on this host" (
  check (is_null (requests d !! r_request_id r)) "app_requests primary key" (
  check (request_checks r) "app_requests check" (
  check (request_unique d r) "app_requests unique" (
  Ok (set_requests <[r_request_id r := r]> d))))))).

Definition update_request (old new : RequestRow) (d : Db) : result abort Db :=
  check (negb (app_requests_columns_immutable old new)) "app_requests: only the decision of a request changes" (
  check (negb (app_requests_pending_decides_once old new)) "app_requests: a pending request only moves to APPROVED, DENIED or EXPIRED" (
  check (negb (app_requests_terminal_final old new)) "app_requests: terminal request states are final" (
  check (negb (app_requests_decision_names_approval d old new)) "app_requests: a decision names an approval of this binary on this host" (
  check (request_checks new) "app_requests check" (
  check (request_unique d new) "app_requests unique" (
  Ok (set_requests <[r_request_id old := new]> d))))))).

Definition insert_approval (a : ApprovalRow) (d : Db) : result abort Db :=
  check (negb (app_approvals_insert_fresh a)) "app_approvals: an approval starts ACTIVE at row_version 1" (
  check (negb (app_approvals_insert_binary d a)) "app_approvals: the approved binary must be a revision of a lineage of this host" (
  check (negb (app_approvals_insert_auto_update d a)) "app_approvals: an auto-update approval copies an active, unfrozen auto-update parent of its lineage" (
  check (negb (app_approvals_insert_never_reapprove d a)) "app_approvals: auto-update never re-approves a revoked or denied hash" (
  check (negb (app_approvals_legacy_import_terms d a)) "app_approvals: a legacy import is any-path, manual each time, without expiry, revision, parent, Windows identity or lineage" (
  check (is_null (approvals d !! a_approval_id a)) "app_approvals primary key" (
  check (approval_checks a) "app_approvals check" (
  Ok (set_approvals <[a_approval_id a := a]> d)))))))).

Definition update_approval (old new : ApprovalRow) (d : Db) : result abort Db :=
  check (negb (app_approvals_identity_immutable old new)) "app_approvals: what an approval authorizes is immutable" (
  check (negb (app_approvals_revoked_final old new)) "app_approvals: REVOKED is final" (
  check (negb (app_approvals_scope_only_narrows old new)) "app_approvals: scope only narrows; widening needs a new request" (
  check (negb (app_approvals_user_changes_on_narrowing old new)) "app_approvals: the user of an approval changes only when an any-user scope is narrowed, or is pseudonymised once revoked" (
  check (negb (app_approvals_state_transitions old new)) "app_approvals: invalid state transition" (
  check (negb (app_approvals_changes_are_versioned d old new)) "app_approvals: every change advances row_version by one and has a revision record" (
  check (negb (app_approvals_superseded_once d old new)) "app_approvals: superseded_by is set once, to a newer revision of the same lineage" (
  check (approval_checks new) "app_approvals check" (
  Ok (set_approvals <[a_approval_id old := new]> d))))))))).

Definition insert_revision (v : ApprovalRevisionRow) (d : Db) : result abort Db :=
  check (negb (app_approval_revisions_follow_the_row d v)) "app_approval_revisions: a revision follows the approval row it describes" (
  check (is_null (revisions d !! (v_approval_id v, v_row_version v))) "app_approval_revisions primary key" (
  check (revision_checks v) "app_approval_revisions check" (
  Ok (set_revisions <[(v_approval_id v, v_row_version v) := v]> d)))).

Definition insert_host (h : HostAllowlistStateRow) (d : Db) : result abort Db :=
  check (is_null (hosts d !! h_host_uuid h)) "host_allowlist_state primary key" (
  check (host_checks h) "host_allowlist_state check" (
  Ok (set_hosts <[h_host_uuid h := h]> d))).

Definition update_host (old new : HostAllowlistStateRow) (d : Db) : result abort Db :=
  check (negb (host_allowlist_state_generation_monotonic old new)) "host_allowlist_state: the generation never decreases" (
  check (host_checks new) "host_allowlist_state check" (
  Ok (set_hosts <[h_host_uuid old := new]> d))).
