(* ===== verification/AppInvariants.v ===== *)
(** What the constraints and triggers of the ledger guarantee against every program that
    writes to it: the single-row writes that pass them form the step relation
    [sql_write], and the theorems hold of every database reachable by such steps,
    whatever statements the application composes them into. *)
From S2P Require Import Prelude AppModel AppSchema.
Open Scope Z_scope.

(** ** Reading the guards *)
Lemma check_Ok {A} ok what (k : result abort A) x : check ok what k = Ok x ↔ ok = true ∧ k = Ok x.
Proof. unfold check. destruct ok; naive_solver. Qed.

Lemma is_true_iff {A} `{EqDecision A} (x y : A) : is_ x y = true ↔ x = y.
Proof. unfold is_. by rewrite bool_decide_eq_true. Qed.
Lemma is_false_iff {A} `{EqDecision A} (x y : A) : is_ x y = false ↔ x ≠ y.
Proof. unfold is_. by rewrite bool_decide_eq_false. Qed.
Lemma eq_null_true {A} `{EqDecision A} (x y : option A) :
  eq_null x y = true ↔ ∃ v, x = Some v ∧ y = Some v.
Proof. destruct x, y; cbn; rewrite ?bool_decide_eq_true; naive_solver. Qed.
Lemma is_null_true {A} (x : option A) : is_null x = true ↔ x = None.
Proof. by destruct x. Qed.

(** Turn a boolean guard into facts about its rows. *)
Ltac sql_facts :=
  repeat match goal with
  | H : negb _ = true |- _ => apply negb_true_iff in H
  | H : negb _ = false |- _ => apply negb_false_iff in H
  | H : _ || _ = false |- _ => apply orb_false_iff in H as [? ?]
  | H : _ && _ = true |- _ => apply andb_true_iff in H as [? ?]
  | H : is_ _ _ = true |- _ => apply (proj1 (is_true_iff _ _)) in H
  | H : is_ _ _ = false |- _ => apply (proj1 (is_false_iff _ _)) in H
  | H : is_null _ = true |- _ => apply is_null_true in H
  | H : (_ =? _) = true |- _ => apply Z.eqb_eq in H
  end.

(** Equality of tuples of columns, from the equality of each column. *)
Ltac columns_eq :=
  repeat match goal with H : ?x = ?y |- context [?x] => rewrite H; clear H end; reflexivity.

(** The writes that succeed: what they checked and what they did. *)
Ltac solve_write_spec :=
  intros H; rewrite ?check_Ok, ?negb_true_iff, ?is_null_true in H;
  destruct_and! H; repeat split; congruence || assumption.

Lemma insert_lineage_Ok l d d' : insert_lineage l d = Ok d' →
  d' = set_lineages <[l_lineage_id l := l]> d ∧ lineages d !! l_lineage_id l = None ∧
  lineage_checks l = true ∧ lineage_unique d l = true.
Proof. unfold insert_lineage. solve_write_spec. Qed.

Lemma update_lineage_Ok old new d d' : update_lineage old new d = Ok d' →
  d' = set_lineages <[l_lineage_id old := new]> d ∧
  app_lineages_identity_immutable old new = false ∧
  app_lineages_revisions_sequential d old new = false ∧
  app_lineages_path_kept_while_active d old new = false ∧
  lineage_checks new = true ∧ lineage_unique d new = true.
Proof. unfold update_lineage. solve_write_spec. Qed.

Lemma insert_binary_Ok b d d' : insert_binary b d = Ok d' →
  d' = set_binaries <[(b_lineage_id b, b_bin_sha b) := b]> d ∧
  app_binaries_take_next_revision d b = false ∧
  binaries d !! (b_lineage_id b, b_bin_sha b) = None ∧
  binary_checks b = true ∧ binary_unique d b = true.
Proof. unfold insert_binary. solve_write_spec. Qed.

Lemma insert_request_Ok r d d' : insert_request r d = Ok d' →
  d' = set_requests <[r_request_id r := r]> d ∧
  app_requests_insert_state r = false ∧ app_requests_insert_binary d r = false ∧
  app_requests_insert_approval d r = false ∧ requests d !! r_request_id r = None ∧
  request_checks r = true ∧ request_unique d r = true.
Proof. unfold insert_request. solve_write_spec. Qed.

Lemma update_request_Ok old new d d' : update_request old new d = Ok d' →
  d' = set_requests <[r_request_id old := new]> d ∧
  app_requests_columns_immutable old new = false ∧
  app_requests_pending_decides_once old new = false ∧
  app_requests_terminal_final old new = false ∧
  app_requests_decision_names_approval d old new = false ∧
  request_checks new = true ∧ request_unique d new = true.
Proof. unfold update_request. solve_write_spec. Qed.

Lemma insert_approval_Ok a d d' : insert_approval a d = Ok d' →
  d' = set_approvals <[a_approval_id a := a]> d ∧
  app_approvals_insert_fresh a = false ∧ app_approvals_insert_binary d a = false ∧
  app_approvals_insert_auto_update d a = false ∧ app_approvals_insert_never_reapprove d a = false ∧
  app_approvals_legacy_import_terms d a = false ∧ approvals d !! a_approval_id a = None ∧
  approval_checks a = true.
Proof. unfold insert_approval. solve_write_spec. Qed.

Lemma update_approval_Ok old new d d' : update_approval old new d = Ok d' →
  d' = set_approvals <[a_approval_id old := new]> d ∧
  app_approvals_identity_immutable old new = false ∧ app_approvals_revoked_final old new = false ∧
  app_approvals_scope_only_narrows old new = false ∧
  app_approvals_user_changes_on_narrowing old new = false ∧
  app_approvals_state_transitions old new = false ∧
  app_approvals_changes_are_versioned d old new = false ∧
  app_approvals_superseded_once d old new = false ∧ approval_checks new = true.
Proof. unfold update_approval. solve_write_spec. Qed.

Lemma insert_revision_Ok v d d' : insert_revision v d = Ok d' →
  d' = set_revisions <[(v_approval_id v, v_row_version v) := v]> d ∧
  app_approval_revisions_follow_the_row d v = false ∧
  revisions d !! (v_approval_id v, v_row_version v) = None ∧ revision_checks v = true.
Proof. unfold insert_revision. solve_write_spec. Qed.

Lemma insert_host_Ok h d d' : insert_host h d = Ok d' →
  d' = set_hosts <[h_host_uuid h := h]> d ∧ hosts d !! h_host_uuid h = None ∧ host_checks h = true.
Proof. unfold insert_host. solve_write_spec. Qed.

Lemma update_host_Ok old new d d' : update_host old new d = Ok d' →
  d' = set_hosts <[h_host_uuid old := new]> d ∧
  host_allowlist_state_generation_monotonic old new = false ∧ host_checks new = true.
Proof. unfold update_host. solve_write_spec. Qed.

Create HintDb ledger.

(** ** Steps

    A lineage is inserted with [next_revision] 1, as the one INSERT of the code does (the
    schema alone would accept any positive number). *)
Inductive sql_write : Db → Db → Prop :=
  | w_insert_lineage l d d' : l_next_revision l = 1 → insert_lineage l d = Ok d' → sql_write d d'
  | w_update_lineage id old new d d' :
      lineages d !! id = Some old → update_lineage old new d = Ok d' → sql_write d d'
  | w_insert_binary b d d' : insert_binary b d = Ok d' → sql_write d d'
  | w_insert_request r d d' : insert_request r d = Ok d' → sql_write d d'
  | w_update_request id old new d d' :
      requests d !! id = Some old → update_request old new d = Ok d' → sql_write d d'
  | w_insert_approval a d d' : insert_approval a d = Ok d' → sql_write d d'
  | w_update_approval id old new d d' :
      approvals d !! id = Some old → update_approval old new d = Ok d' → sql_write d d'
  | w_insert_revision v d d' : insert_revision v d = Ok d' → sql_write d d'
  | w_insert_host h d d' : insert_host h d = Ok d' → sql_write d d'
  | w_update_host id old new d d' :
      hosts d !! id = Some old → update_host old new d = Ok d' → sql_write d d'.

#[export] Hint Constructors sql_write : ledger.


(** Every row is stored under its own primary key. *)
Record db_keyed (d : Db) : Prop := {
  keyed_lineage id l : lineages d !! id = Some l → l_lineage_id l = id;
  keyed_binary k b : binaries d !! k = Some b → (b_lineage_id b, b_bin_sha b) = k;
  keyed_request id r : requests d !! id = Some r → r_request_id r = id;
  keyed_approval id a : approvals d !! id = Some a → a_approval_id a = id;
  keyed_revision k v : revisions d !! k = Some v → (v_approval_id v, v_row_version v) = k;
  keyed_host id h : hosts d !! id = Some h → h_host_uuid h = id }.

Lemma keyed_insert {K A} `{Countable K} (key : A → K) (m : gmap K A) (x : A) (k0 : K) :
  (∀ k y, m !! k = Some y → key y = k) → key x = k0 →
  ∀ k y, <[k0 := x]> m !! k = Some y → key y = k.
Proof. intros Hm Hx k y [[<- <-]|[_ ?]]%lookup_insert_Some; auto. Qed.

Lemma empty_keyed : db_keyed empty_db.
Proof. split; intros ? ? H; discriminate H. Qed.


(** ** How rows evolve *)

(** The columns a trigger keeps for ever. *)
Definition lineage_identity (l : LineageRow) :=
  (l_lineage_id l, l_host_uuid l, l_platform l, l_path_key l, l_created_at l).
Definition request_identity (r : RequestRow) :=
  (r_request_id r, r_host_uuid r, r_client_request_id r, r_lineage_id r, r_bin_sha r, r_revision r,
   (r_kind r, r_origin r, kind (r_target r), uid (r_target r), r_requester_uid r,
    r_requested_by_admin_id r, r_flags r),
   (r_host_tier r, r_proposer_spiffe_id r, r_dedup_key r, r_submitted_at r, r_pending_expires_at r,
    r_auto_downgrade_reason r)).
Definition approval_identity (a : ApprovalRow) :=
  (a_approval_id a, a_host_uuid a, a_lineage_id a, a_bin_sha a, a_revision a,
   (a_source_request_id a, a_origin a, a_parent_approval_id a, a_approved_by_admin_id a,
    a_created_at a)).

(** The decision of a request, and the versioned (policy) columns of an approval. *)
Definition decision (r : RequestRow) :=
  (r_state r, r_decided_at r, r_decided_by_admin_id r, r_decision_reason_code r,
   r_resulting_approval_id r, r_same_actor_approved r).
Definition policy_view (a : ApprovalRow) :=
  (a_state a, a_update_policy a, a_continuity a, a_expires_at a, a_note a, a_user_scope a,
   (a_path_match a, a_user_kind a, a_uid a, a_revoked_at a, a_revoked_by_admin_id a,
    a_revoke_reason_code a)).

Record lineage_evolves (l l' : LineageRow) : Prop := {
  le_identity : lineage_identity l' = lineage_identity l;
  le_revision : l_next_revision l ≤ l_next_revision l' }.

Record request_evolves (r r' : RequestRow) : Prop := {
  re_identity : request_identity r' = request_identity r;
  re_terminal : r_state r ≠ ReqPending → decision r' = decision r;
  re_pending : r_state r = ReqPending →
    r' = r ∨ r_state r' ∈ [ReqApproved; ReqDenied; ReqExpired] }.

(** [sid] and [user_name] change only to pseudonyms. *)
Definition pseudonymised (a a' : ApprovalRow) : Prop :=
  (a_sid a' = a_sid a ∨ pseudonym_column (a_sid a') = true) ∧
  (a_user_name a' = a_user_name a ∨ pseudonym_column (a_user_name a') = true).

Record approval_evolves (a a' : ApprovalRow) : Prop := {
  ae_identity : approval_identity a' = approval_identity a;
  ae_scope : a_user_scope a = ExactUser → a_user_scope a' = ExactUser;
  ae_path : a_path_match a = PathExact → a_path_match a' = PathExact;
  ae_version : a_row_version a ≤ a_row_version a';
  ae_policy : a_row_version a' = a_row_version a → policy_view a' = policy_view a;
  ae_user : a_user_scope a = ExactUser → a_state a' ≠ Revoked →
    (a_user_kind a', a_uid a', a_sid a', a_user_name a') = (a_user_kind a, a_uid a, a_sid a, a_user_name a);
  ae_revoked : a_state a = Revoked →
    a_row_version a' = a_row_version a ∧ policy_view a' = policy_view a ∧
    a_superseded_by a' = a_superseded_by a ∧ pseudonymised a a';
  ae_superseded : a_superseded_by a ≠ None → a_superseded_by a' = a_superseded_by a }.

Record host_evolves (h h' : HostAllowlistStateRow) : Prop := {
  he_host : h_host_uuid h' = h_host_uuid h;
  he_generation : h_generation h ≤ h_generation h' }.

#[export] Instance lineage_evolves_preorder : PreOrder lineage_evolves.
Proof. split; [by split|]. intros x y z [] []. split; [congruence|lia]. Qed.
#[export] Instance host_evolves_preorder : PreOrder host_evolves.
Proof. split; [by split|]. intros x y z [] []. split; [congruence|lia]. Qed.

#[export] Instance request_evolves_preorder : PreOrder request_evolves.
Proof.
  split; [split; auto|]. intros x y z [I1 T1 P1] [I2 T2 P2]. split; [congruence|..].
  - intros Hx. rewrite T2, T1; [done..|]. specialize (T1 Hx). unfold decision in T1. congruence.
  - intros Hx. destruct (P1 Hx) as [->|Hy]; [auto|]. right.
    assert (r_state y ≠ ReqPending) as Hn by (intros E; rewrite E in Hy; set_solver).
    specialize (T2 Hn). unfold decision in T2. replace (r_state z) with (r_state y) by congruence. done.
Qed.

Lemma pseudonymised_trans a b c : pseudonymised a b → pseudonymised b c → pseudonymised a c.
Proof. intros [[E1|E1] [F1|F1]] [[E2|E2] [F2|F2]]; split; rewrite ?E2, ?F2; auto. Qed.

#[export] Instance approval_evolves_preorder : PreOrder approval_evolves.
Proof.
  split.
  - intros x. split; try done. intros _. repeat split; by left.
  - intros x y z [I1 S1 P1 V1 Y1 U1 R1 B1] [I2 S2 P2 V2 Y2 U2 R2 B2]. split; auto.
    + congruence.
    + lia.
    + intros E. rewrite Y2, Y1; [done|lia|lia].
    + intros Hx Hz. rewrite U2, U1; auto. intros Hy. destruct (R2 Hy) as (_ & E & _).
      unfold policy_view in E. congruence.
    + intros Hx. destruct (R1 Hx) as (E1 & F1 & G1 & H1).
      destruct R2 as (E2 & F2 & G2 & H2); [unfold policy_view in F1; congruence|].
      repeat split; try congruence; apply (pseudonymised_trans x y z H1 H2).
    + intros Hx. rewrite B2, B1; [done..|]. by rewrite B1.
Qed.

(** ** The triggers make every update an evolution *)
Lemma update_lineage_evolves old new d d' : update_lineage old new d = Ok d' → lineage_evolves old new.
Proof.
  intros (_ & Hi & Hs & _)%update_lineage_Ok.
  unfold app_lineages_identity_immutable in Hi. sql_facts. split.
  - unfold lineage_identity. columns_eq.
  - unfold app_lineages_revisions_sequential in Hs. apply andb_false_iff in Hs as [Hs|Hs]; sql_facts; lia.
Qed.

Lemma update_host_evolves old new d d' : update_host old new d = Ok d' → host_evolves old new.
Proof.
  intros (_ & H & _)%update_host_Ok. unfold host_allowlist_state_generation_monotonic in H.
  sql_facts. split; [done|]. by apply Z.ltb_ge.
Qed.

Lemma update_request_identity old new d d' :
  update_request old new d = Ok d' → request_identity new = request_identity old.
Proof.
  intros (_ & H & _)%update_request_Ok. unfold app_requests_columns_immutable in H.
  sql_facts. unfold request_identity. columns_eq.
Qed.

Lemma update_request_evolves old new d d' : update_request old new d = Ok d' → request_evolves old new.
Proof.
  intros H. pose proof (update_request_identity old new d d' H) as Hi.
  apply update_request_Ok in H as (_ & _ & Hp & Ht & _). split; [done|..].
  - intros Hs. unfold app_requests_terminal_final in Ht. apply andb_false_iff in Ht as [Ht|Ht].
    + sql_facts. done.
    + sql_facts. unfold decision. columns_eq.
  - intros Hs. right. unfold app_requests_pending_decides_once in Hp.
    apply andb_false_iff in Hp as [Hp|Hp]; [by sql_facts|]. sql_facts.
    match goal with H : existsb _ _ = true |- _ => apply existsb_exists in H as (s & Hin & He) end.
    apply (proj1 (is_true_iff _ _)) in He as ->. by apply list_elem_of_In.
Qed.

Lemma update_approval_identity old new d d' :
  update_approval old new d = Ok d' → approval_identity new = approval_identity old.
Proof.
  intros (_ & H & _)%update_approval_Ok. unfold app_approvals_identity_immutable in H.
  sql_facts. unfold approval_identity. columns_eq.
Qed.

(** What an unversioned update keeps. *)
Lemma unversioned_kept old new : versioned_change old new = false →
  a_row_version new = a_row_version old ∧ policy_view new = policy_view old.
Proof. unfold versioned_change. intros H. sql_facts. unfold policy_view. split; columns_eq. Qed.

Lemma update_approval_version old new d d' : update_approval old new d = Ok d' →
  (a_row_version new = a_row_version old ∧ policy_view new = policy_view old ∧
   versioned_change old new = false) ∨
  (a_row_version new = a_row_version old + 1 ∧
   ∃ k v, revisions d !! k = Some v ∧ v_approval_id v = a_approval_id old ∧
     v_row_version v = a_row_version new).
Proof.
  intros (_ & _ & _ & _ & _ & _ & H & _)%update_approval_Ok.
  unfold app_approvals_changes_are_versioned in H. apply andb_false_iff in H as [H|H].
  - left. destruct (unversioned_kept old new H). auto.
  - right. sql_facts. split; [done|].
    match goal with H : exists_row _ _ = true |- _ => apply exists_row_true in H as (k & v & Hk & Hv) end.
    sql_facts. eauto.
Qed.

Lemma update_approval_revoked old new d d' : update_approval old new d = Ok d' → a_state old = Revoked →
  a_row_version new = a_row_version old ∧ policy_view new = policy_view old ∧
  a_superseded_by new = a_superseded_by old ∧ pseudonymised old new.
Proof.
  intros (_ & _ & H & _)%update_approval_Ok Hs. unfold app_approvals_revoked_final in H.
  apply andb_false_iff in H as [H|H]; [by sql_facts|]. sql_facts. unfold policy_view.
  assert (∀ x y, negb (is_ x y) && negb (pseudonym_column x) = false → x = y ∨ pseudonym_column x = true)
    as Hp.
  { intros x y [E|E]%andb_false_iff; sql_facts; auto. }
  split; [done|]. split; [columns_eq|]. split; [done|]. by split; apply Hp.
Qed.

Lemma update_approval_user old new d d' : update_approval old new d = Ok d' →
  a_user_scope old = ExactUser → a_state new ≠ Revoked →
  (a_user_kind new, a_uid new, a_sid new, a_user_name new)
  = (a_user_kind old, a_uid old, a_sid old, a_user_name old).
Proof.
  intros (_ & _ & _ & _ & H & _)%update_approval_Ok Hs Hr.
  unfold app_approvals_user_changes_on_narrowing in H.
  apply andb_false_iff in H as [H|H]; [apply andb_false_iff in H as [H|H]|]; sql_facts.
  - columns_eq.
  - congruence.
  - congruence.
Qed.

Lemma update_approval_superseded old new d d' : update_approval old new d = Ok d' →
  a_superseded_by old ≠ None → a_superseded_by new = a_superseded_by old.
Proof.
  intros (_ & _ & _ & _ & _ & _ & _ & H & _)%update_approval_Ok Hs.
  unfold app_approvals_superseded_once in H. apply andb_false_iff in H as [H|H]; sql_facts; [done|].
  unfold not_null in *. sql_facts. done.
Qed.

Lemma update_approval_scope old new d d' : update_approval old new d = Ok d' →
  (a_user_scope old = ExactUser → a_user_scope new = ExactUser) ∧
  (a_path_match old = PathExact → a_path_match new = PathExact).
Proof.
  intros (_ & _ & _ & H & _)%update_approval_Ok. unfold app_approvals_scope_only_narrows in H.
  apply orb_false_iff in H as [H1 H2].
  split; intros E; rewrite E in *; [destruct (a_user_scope new)|destruct (a_path_match new)]; done.
Qed.

Lemma update_approval_evolves old new d d' : update_approval old new d = Ok d' → approval_evolves old new.
Proof.
  intros H. destruct (update_approval_scope _ _ _ _ H) as [Hu Hp].
  pose proof (update_approval_version _ _ _ _ H) as Hv.
  split; auto.
  - by eapply update_approval_identity.
  - destruct Hv as [(-> & _)|(-> & _)]; lia.
  - intros E. destruct Hv as [(_ & ? & _)|(E' & _)]; [done|lia].
  - by eapply update_approval_user.
  - by eapply update_approval_revoked.
  - by eapply update_approval_superseded.
Qed.

Lemma sql_write_keyed d d' : sql_write d d' → db_keyed d → db_keyed d'.
Proof.
  intros Hw [H1 H2 H3 H4 H5 H6]. destruct Hw as
    [l d d' Hl1 H|id old new d d' Ho H|b d d' H|r d d' H|id old new d d' Ho H|a d d' H
    |id old new d d' Ho H|v d d' H|h d d' H|id old new d d' Ho H].
  - apply insert_lineage_Ok in H as (-> & _). split; cbn; try done. by apply (keyed_insert _ _ _ _ H1).
  - pose proof (le_identity _ _ (update_lineage_evolves _ _ _ _ H)) as [= E _ _ _ _].
    apply update_lineage_Ok in H as (-> & _). split; cbn; try done. by apply (keyed_insert _ _ _ _ H1).
  - apply insert_binary_Ok in H as (-> & _). split; cbn; try done.
    by apply (keyed_insert (λ b, (b_lineage_id b, b_bin_sha b)) _ _ _ H2).
  - apply insert_request_Ok in H as (-> & _). split; cbn; try done. by apply (keyed_insert _ _ _ _ H3).
  - pose proof (update_request_identity _ _ _ _ H) as [= E _ _ _ _ _ _ _ _ _ _ _ _ _ _ _ _ _ _].
    apply update_request_Ok in H as (-> & _). split; cbn; try done. by apply (keyed_insert _ _ _ _ H3).
  - apply insert_approval_Ok in H as (-> & _). split; cbn; try done. by apply (keyed_insert _ _ _ _ H4).
  - pose proof (update_approval_identity _ _ _ _ H) as [= E _ _ _ _ _ _ _ _ _].
    apply update_approval_Ok in H as (-> & _). split; cbn; try done. by apply (keyed_insert _ _ _ _ H4).
  - apply insert_revision_Ok in H as (-> & _). split; cbn; try done.
    by apply (keyed_insert (λ v, (v_approval_id v, v_row_version v)) _ _ _ H5).
  - apply insert_host_Ok in H as (-> & _). split; cbn; try done. by apply (keyed_insert _ _ _ _ H6).
  - pose proof (he_host _ _ (update_host_evolves _ _ _ _ H)) as E.
    apply update_host_Ok in H as (-> & _). split; cbn; try done. by apply (keyed_insert _ _ _ _ H6).
Qed.

(** Case analysis on a write; [W] is what its guards established. *)
Ltac write_cases Hw :=
  let W := fresh "W" in
  destruct Hw as
    [l d d' Hl1 W|id old new d d' Ho W|b d d' W|r d d' W|id old new d d' Ho W|a d d' W
    |id old new d d' Ho W|v d d' W|h d d' W|id old new d d' Ho W].

Record db_evolves (d d' : Db) : Prop := {
  de_lineages : map_evolves lineage_evolves (lineages d) (lineages d');
  de_binaries : map_evolves eq (binaries d) (binaries d');
  de_requests : map_evolves request_evolves (requests d) (requests d');
  de_approvals : map_evolves approval_evolves (approvals d) (approvals d');
  de_revisions : map_evolves eq (revisions d) (revisions d');
  de_hosts : map_evolves host_evolves (hosts d) (hosts d') }.

#[export] Instance db_evolves_preorder : PreOrder db_evolves.
Proof.
  split.
  - intros d. split; reflexivity.
  - intros x y z [] []. split; etransitivity; eauto.
Qed.

Lemma sql_write_evolves d d' : db_keyed d → sql_write d d' → db_evolves d d'.
Proof.
  intros [H1 H2 H3 H4 H5 H6] Hw. write_cases Hw.
  - apply insert_lineage_Ok in W as (-> & Hn & _). split; cbn; try reflexivity. exact (map_evolves_insert _ _ _ _ Hn).
  - pose proof (update_lineage_evolves _ _ _ _ W) as He. apply update_lineage_Ok in W as (-> & _).
    rewrite (H1 _ _ Ho). split; cbn; try reflexivity. exact (map_evolves_update _ _ _ _ _ Ho He).
  - apply insert_binary_Ok in W as (-> & _ & Hn & _). split; cbn; try reflexivity. exact (map_evolves_insert _ _ _ _ Hn).
  - apply insert_request_Ok in W as (-> & _ & _ & _ & Hn & _). split; cbn; try reflexivity. exact (map_evolves_insert _ _ _ _ Hn).
  - pose proof (update_request_evolves _ _ _ _ W) as He. apply update_request_Ok in W as (-> & _).
    rewrite (H3 _ _ Ho). split; cbn; try reflexivity. exact (map_evolves_update _ _ _ _ _ Ho He).
  - apply insert_approval_Ok in W as (-> & _ & _ & _ & _ & _ & Hn & _). split; cbn; try reflexivity. exact (map_evolves_insert _ _ _ _ Hn).
  - pose proof (update_approval_evolves _ _ _ _ W) as He. apply update_approval_Ok in W as (-> & _).
    rewrite (H4 _ _ Ho). split; cbn; try reflexivity. exact (map_evolves_update _ _ _ _ _ Ho He).
  - apply insert_revision_Ok in W as (-> & _ & Hn & _). split; cbn; try reflexivity. exact (map_evolves_insert _ _ _ _ Hn).
  - apply insert_host_Ok in W as (-> & Hn & _). split; cbn; try reflexivity. exact (map_evolves_insert _ _ _ _ Hn).
  - pose proof (update_host_evolves _ _ _ _ W) as He. apply update_host_Ok in W as (-> & _).
    rewrite (H6 _ _ Ho). split; cbn; try reflexivity. exact (map_evolves_update _ _ _ _ _ Ho He).
Qed.

Lemma sql_writes_keyed d d' : rtc sql_write d d' → db_keyed d → db_keyed d'.
Proof. induction 1; eauto using sql_write_keyed. Qed.

Lemma sql_writes_evolve d d' : db_keyed d → rtc sql_write d d' → db_evolves d d'.
Proof.
  intros Hk Hs. revert Hk. induction Hs as [d|d d1 d2 H1 Hs IH]; intros Hk; [reflexivity|].
  etransitivity; [by apply sql_write_evolves|]. apply IH. by eapply sql_write_keyed.
Qed.

(** ** Invariants *)

(** At most one open request per deduplication key. *)
Definition one_pending (d : Db) : Prop := ∀ i j r r',
  requests d !! i = Some r → requests d !! j = Some r' →
  r_state r = ReqPending → r_state r' = ReqPending → r_dedup_key r = r_dedup_key r' → i = j.

(** Every version of an approval after its first has its revision record, and no record
    runs ahead of its approval by more than one. *)
Definition versions_recorded (d : Db) : Prop := ∀ id a v,
  approvals d !! id = Some a → 2 ≤ v ≤ a_row_version a → is_Some (revisions d !! (id, v)).

(** Revisions of a lineage are dense, unique and never ahead of [next_revision]. *)
Definition revisions_dense (d : Db) : Prop :=
  (∀ lid l n, lineages d !! lid = Some l → 1 ≤ n < l_next_revision l →
     ∃ sha b, binaries d !! (lid, sha) = Some b ∧ b_revision b = n) ∧
  (∀ lid sha sha' b b', binaries d !! (lid, sha) = Some b → binaries d !! (lid, sha') = Some b' →
     b_revision b = b_revision b' → sha = sha') ∧
  (∀ lid sha b, binaries d !! (lid, sha) = Some b →
     ∃ l, lineages d !! lid = Some l ∧ 1 ≤ b_revision b ≤ l_next_revision l).

(** The binary [(lid, sha)] has revision [n] in a lineage of [host]. *)
Definition binary_on (d : Db) (lid sha : string) (n : Z) (host : string) : Prop :=
  ∃ b l, binaries d !! (lid, sha) = Some b ∧ b_revision b = n ∧
    lineages d !! lid = Some l ∧ l_host_uuid l = host.

(** Approvals and requests name a binary of their host; an approved request names an
    approval of its binary on its host. *)
Definition references (d : Db) : Prop :=
  (∀ id a, approvals d !! id = Some a → a_origin a ≠ LegacyOrigin →
     ∃ n, a_revision a = Some n ∧ binary_on d (a_lineage_id a) (a_bin_sha a) n (a_host_uuid a)) ∧
  (∀ id r, requests d !! id = Some r →
     binary_on d (r_lineage_id r) (r_bin_sha r) (r_revision r) (r_host_uuid r)) ∧
  (∀ id r aid, requests d !! id = Some r → r_resulting_approval_id r = Some aid →
     ∃ a, approvals d !! aid = Some a ∧ a_host_uuid a = r_host_uuid r ∧
       (a_bin_sha a = r_bin_sha r ∨ a_bin_sha a = "*")).

(** The CHECK constraints hold of every stored row. *)
Definition rows_checked (d : Db) : Prop :=
  map_Forall (λ _ l, lineage_checks l = true) (lineages d) ∧
  map_Forall (λ _ b, binary_checks b = true) (binaries d) ∧
  map_Forall (λ _ r, request_checks r = true) (requests d) ∧
  map_Forall (λ _ a, approval_checks a = true) (approvals d) ∧
  map_Forall (λ _ v, revision_checks v = true) (revisions d) ∧
  map_Forall (λ _ h, host_checks h = true) (hosts d).

Record ledger_inv (d : Db) : Prop := {
  inv_keyed : db_keyed d;
  inv_one_pending : one_pending d;
  inv_versions : versions_recorded d;
  inv_dense : revisions_dense d;
  inv_references : references d;
  inv_checked : rows_checked d }.

Ltac write_facts :=
  lazymatch goal with
  | W : insert_lineage _ _ = Ok _ |- _ => apply insert_lineage_Ok in W as (-> & Hn & Hc & Hu)
  | W : update_lineage _ _ _ = Ok _ |- _ => apply update_lineage_Ok in W as (-> & Hi & Hs & Hp & Hc & Hu)
  | W : insert_binary _ _ = Ok _ |- _ => apply insert_binary_Ok in W as (-> & Ht & Hn & Hc & Hu)
  | W : insert_request _ _ = Ok _ |- _ => apply insert_request_Ok in W as (-> & Hs & Hb & Ha & Hn & Hc & Hu)
  | W : update_request _ _ _ = Ok _ |- _ => apply update_request_Ok in W as (-> & Hi & Hp & Ht & Ha & Hc & Hu)
  | W : insert_approval _ _ = Ok _ |- _ => apply insert_approval_Ok in W as (-> & Hf & Hb & Hau & Hnr & Hlt & Hn & Hc)
  | W : update_approval _ _ _ = Ok _ |- _ => apply update_approval_Ok in W as (-> & Hi & Hr & Hsc & Huc & Hst & Hv & Hsu & Hc)
  | W : insert_revision _ _ = Ok _ |- _ => apply insert_revision_Ok in W as (-> & Hf & Hn & Hc)
  | W : insert_host _ _ = Ok _ |- _ => apply insert_host_Ok in W as (-> & Hn & Hc)
  | W : update_host _ _ _ = Ok _ |- _ => apply update_host_Ok in W as (-> & Hg & Hc)
  end.

Lemma sql_write_checked d d' : rows_checked d → sql_write d d' → rows_checked d'.
Proof.
  intros (H1 & H2 & H3 & H4 & H5 & H6) Hw.
  write_cases Hw; write_facts; repeat split; cbn; try done; by apply map_Forall_insert_2.
Qed.

(** A row of [requests] other than its own conflicts with nothing a UNIQUE check saw. *)
Lemma request_unique_pending d r : request_unique d r = true → r_state r = ReqPending →
  ∀ j r', requests d !! j = Some r' → r_state r' = ReqPending → r_dedup_key r' = r_dedup_key r →
  r_request_id r' = r_request_id r.
Proof.
  unfold request_unique. intros [_ H]%andb_true_iff Hs j r' Hj Hs' Hk.
  apply negb_true_iff in H. apply andb_false_iff in H as [H|H]; [sql_facts; done|].
  rewrite exists_row_false in H. specialize (H j r' Hj). cbn in H.
  destruct (decide (r_request_id r' = r_request_id r)) as [|Hne]; [done|].
  apply andb_false_iff in H as [H|H]; [apply andb_false_iff in H as [H|H]|]; sql_facts; congruence.
Qed.

(** Writing a row that passed the UNIQUE check keeps [one_pending]. *)
Lemma one_pending_insert d r : db_keyed d → one_pending d → request_unique d r = true →
  one_pending (set_requests <[r_request_id r := r]> d).
Proof.
  intros Hk H Hu i j x y Hi Hj Hx Hy Hd. cbn in Hi, Hj.
  apply lookup_insert_Some in Hi as [[<- <-]|[Hne Hi]];
    apply lookup_insert_Some in Hj as [[<- <-]|[Hne' Hj]].
  - done.
  - rewrite <- (keyed_request d Hk _ _ Hj). symmetry. by eapply request_unique_pending.
  - rewrite <- (keyed_request d Hk _ _ Hi). by eapply request_unique_pending.
  - by eapply H.
Qed.

Lemma sql_write_one_pending d d' : db_keyed d → one_pending d → sql_write d d' → one_pending d'.
Proof.
  intros Hk H Hw. write_cases Hw; try (write_facts; exact H).
  - write_facts. by apply one_pending_insert.
  - pose proof (update_request_identity _ _ _ _ W) as E.
    assert (r_request_id new = r_request_id old) as Eid by (by injection E).
    write_facts. rewrite <- Eid. by apply one_pending_insert.
Qed.

Lemma sql_write_versions d d' : db_keyed d → versions_recorded d → sql_write d d' → versions_recorded d'.
Proof.
  intros Hk H Hw. write_cases Hw; try (write_facts; exact H).
  - write_facts. intros id a' v. cbn. intros [[_ <-]|[_ Ha]]%lookup_insert_Some Hv; [|by eapply H].
    unfold app_approvals_insert_fresh in Hf. sql_facts. lia.
  - pose proof (update_approval_version _ _ _ _ W) as Hver.
    assert (a_approval_id old = id) as Eid by (by eapply keyed_approval).
    write_facts. intros id' a' v. cbn. rewrite Eid.
    intros [[<- <-]|[_ Ha]]%lookup_insert_Some Hv'; [|by eapply H].
    destruct Hver as [(E & _)|(E & k & w & Hk' & Hw1 & Hw2)]; [eapply H; [done|lia]|].
    destruct (decide (v = a_row_version new)) as [->|Hne]; [|eapply H; [done|lia]].
    replace (id, a_row_version new) with k; [by eexists|].
    rewrite <- (keyed_revision d Hk _ _ Hk'). congruence.
  - write_facts. intros id a' v'. cbn. intros Ha Hv. rewrite lookup_insert. case_decide; [done|].
    by eapply H.
Qed.

Lemma lineage_identity_id l l' : lineage_identity l = lineage_identity l' →
  l_lineage_id l = l_lineage_id l' ∧ l_host_uuid l = l_host_uuid l'.
Proof. unfold lineage_identity. intros H. split; by injection H. Qed.

Lemma update_lineage_revision old new d d' : update_lineage old new d = Ok d' →
  l_next_revision new = l_next_revision old ∨
  (l_next_revision new = l_next_revision old + 1 ∧
   ∃ k b, binaries d !! k = Some b ∧ b_lineage_id b = l_lineage_id old ∧
     b_revision b = l_next_revision old).
Proof.
  intros (_ & _ & H & _)%update_lineage_Ok. unfold app_lineages_revisions_sequential in H.
  apply andb_false_iff in H as [H|H]; sql_facts; [by left|]. right. split; [done|].
  match goal with H : exists_row _ _ = true |- _ => apply exists_row_true in H as (k & b & Hk & Hb) end.
  sql_facts. eauto.
Qed.

Lemma insert_binary_revision d b : app_binaries_take_next_revision d b = false →
  db_keyed d → ∃ l, lineages d !! b_lineage_id b = Some l ∧ l_next_revision l = b_revision b.
Proof.
  unfold app_binaries_take_next_revision. intros H Hk. sql_facts.
  apply exists_row_true in H as (k & l & Hl & Hp). sql_facts.
  exists l. split; [|done]. by rewrite <- H, (keyed_lineage d Hk _ _ Hl).
Qed.

Lemma binary_unique_spec d b : binary_unique d b = true → db_keyed d →
  ∀ sha b', binaries d !! (b_lineage_id b, sha) = Some b' → b_revision b' = b_revision b →
  sha = b_bin_sha b.
Proof.
  unfold binary_unique. intros H Hk sha b' Hb' Hr. sql_facts. rewrite exists_row_false in H.
  specialize (H _ _ Hb'). cbn in H. pose proof (keyed_binary d Hk _ _ Hb') as [= E1 E2].
  apply andb_false_iff in H as [H|H]; [apply andb_false_iff in H as [H|H]|]; sql_facts; congruence.
Qed.

Lemma sql_write_dense d d' : db_keyed d → revisions_dense d → sql_write d d' → revisions_dense d'.
Proof.
  intros Hk (Hd1 & Hd2 & Hd3) Hw. write_cases Hw; try (write_facts; done).
  - write_facts. split; [|split; [done|]]; cbn.
    + intros lid l' n [[<- <-]|[_ Hl]]%lookup_insert_Some; [lia|by apply Hd1].
    + intros lid sha b (l' & Hl & Hr)%Hd3. exists l'. split; [|done]. rewrite lookup_insert_ne; [done|congruence].
  - pose proof (update_lineage_revision _ _ _ _ W) as Hr.
    assert (l_lineage_id old = id) as Eid by (by eapply keyed_lineage).
    write_facts. rewrite Eid. split; [|split; [done|]]; cbn.
    + intros lid l' n [[<- <-]|[_ Hl]]%lookup_insert_Some Hn; [|by eapply Hd1].
      destruct Hr as [E|(E & k & b & Hkb & Hb1 & Hb2)]; [eapply Hd1; [done|lia]|].
      destruct (decide (n = l_next_revision old)) as [->|Hne]; [|eapply Hd1; [done|lia]].
      exists (b_bin_sha b), b. split; [|done]. pose proof (keyed_binary d Hk _ _ Hkb) as E'.
      rewrite <- Eid, <- Hb1, E'. done.
    + intros lid sha b (l' & Hl & Hb)%Hd3. rewrite lookup_insert. case_decide as Ec; [|by exists l'].
      subst lid. exists new. split; [done|]. replace l' with old in Hb by congruence. lia.
  - write_facts. destruct (insert_binary_revision d b Ht Hk) as (l & Hl & Hr).
    pose proof (binary_unique_spec d b Hu Hk) as Hu'. split; [|split]; cbn.
    + intros lid l' n Hl' Hn'. destruct (Hd1 lid l' n Hl' Hn') as (sha & b' & Hb' & <-).
      exists sha, b'. split; [|done]. rewrite lookup_insert_ne; [done|congruence].
    + intros lid sha sha' b1 b2 [[[= <- <-] <-]|[_ H1]]%lookup_insert_Some
        [[E <-]|[_ H2]]%lookup_insert_Some Hrev; [by injection E| | |by eapply Hd2].
      * symmetry. by eapply Hu'.
      * injection E as <- <-. by eapply Hu'.
    + intros lid sha b' [[[= <- <-] <-]|[_ Hb']]%lookup_insert_Some; [|by eapply Hd3].
      exists l. split; [done|]. rewrite Hr. unfold binary_checks in Hc. sql_facts.
      repeat match goal with H : (_ <=? _) = true |- _ => apply Z.leb_le in H end. lia.
Qed.

Lemma approval_identity_cols a a' : approval_identity a = approval_identity a' →
  a_approval_id a = a_approval_id a' ∧ a_host_uuid a = a_host_uuid a' ∧
  a_lineage_id a = a_lineage_id a' ∧ a_bin_sha a = a_bin_sha a' ∧
  a_revision a = a_revision a' ∧ a_origin a = a_origin a'.
Proof. unfold approval_identity. intros H. repeat split; by injection H. Qed.

Lemma request_identity_cols r r' : request_identity r = request_identity r' →
  r_request_id r = r_request_id r' ∧ r_host_uuid r = r_host_uuid r' ∧
  r_lineage_id r = r_lineage_id r' ∧ r_bin_sha r = r_bin_sha r' ∧ r_revision r = r_revision r'.
Proof. unfold request_identity. intros H. repeat split; by injection H. Qed.

Lemma binary_on_evolves d d' lid sha n host :
  db_evolves d d' → binary_on d lid sha n host → binary_on d' lid sha n host.
Proof.
  intros He (b & l & Hb & Hr & Hl & Hh).
  destruct (de_binaries d d' He _ _ Hb) as (b' & Hb' & <-).
  destruct (de_lineages d d' He _ _ Hl) as (l' & Hl' & [Hi _]).
  exists b, l'. repeat split; try done. by rewrite (proj2 (lineage_identity_id _ _ Hi)).
Qed.

Lemma binary_of_host_true d lid sha n host : db_keyed d →
  binary_of_host d lid sha n host = true → ∃ m, n = Some m ∧ binary_on d lid sha m host.
Proof.
  unfold binary_of_host. intros Hk (k & b & Hb & Hp)%exists_row_true. sql_facts.
  match goal with H : exists_row _ _ = true |- _ => apply exists_row_true in H as (k' & l & Hl & Hq) end.
  match goal with H : eq_null _ _ = true |- _ => apply eq_null_true in H as (m & [= <-] & ->) end.
  sql_facts. exists (b_revision b). split; [done|]. exists b, l.
  pose proof (keyed_binary d Hk _ _ Hb) as Ek. pose proof (keyed_lineage d Hk _ _ Hl) as El.
  repeat split; congruence.
Qed.

(** An approval of the binary on the host, as [names_approval] asks. *)
Definition approval_on (d : Db) (aid host sha : string) : Prop :=
  ∃ a, approvals d !! aid = Some a ∧ a_host_uuid a = host ∧ (a_bin_sha a = sha ∨ a_bin_sha a = "*").

Lemma approval_on_evolves d d' aid host sha :
  db_evolves d d' → approval_on d aid host sha → approval_on d' aid host sha.
Proof.
  intros He (a & Ha & Hh & Hs). destruct (de_approvals d d' He _ _ Ha) as (a' & Ha' & Hev).
  apply ae_identity, approval_identity_cols in Hev as (_ & E1 & _ & E2 & _).
  exists a'. rewrite E1, E2. auto.
Qed.

Lemma names_approval_true d aid host sha : db_keyed d →
  names_approval d (Some aid) host sha = true → approval_on d aid host sha.
Proof.
  unfold names_approval. intros Hk (k & a & Ha & Hp)%exists_row_true.
  apply andb_true_iff in Hp as [Hp Hs]. sql_facts.
  match goal with H : eq_null _ _ = true |- _ => apply eq_null_true in H as (m & [= <-] & [= ->]) end.
  exists a. rewrite (keyed_approval d Hk _ _ Ha). split; [done|]. split; [done|].
  apply orb_true_iff in Hs as [Hs|Hs]; sql_facts; auto.
Qed.

(** What a decision points at, after the insert or update of its request. *)
Lemma request_names_approval d r : db_keyed d →
  not_null (r_resulting_approval_id r)
    && negb (names_approval d (r_resulting_approval_id r) (r_host_uuid r) (r_bin_sha r)) = false →
  ∀ aid, r_resulting_approval_id r = Some aid → approval_on d aid (r_host_uuid r) (r_bin_sha r).
Proof.
  intros Hk H aid E. rewrite E in H. cbn in H. sql_facts. by apply names_approval_true.
Qed.

Lemma sql_write_references d d' : db_keyed d → references d → sql_write d d' → references d'.
Proof.
  intros Hk (R1 & R2 & R3) Hw. pose proof (sql_write_evolves d d' Hk Hw) as He.
  assert (∀ id a, approvals d !! id = Some a → a_origin a ≠ LegacyOrigin →
    ∃ n, a_revision a = Some n ∧ binary_on d' (a_lineage_id a) (a_bin_sha a) n (a_host_uuid a)) as R1'.
  { intros id a Ha Ho. destruct (R1 id a Ha Ho) as (n & ? & ?). exists n. split; [done|]. by eapply binary_on_evolves. }
  assert (∀ id r, requests d !! id = Some r →
    binary_on d' (r_lineage_id r) (r_bin_sha r) (r_revision r) (r_host_uuid r)) as R2'.
  { intros id r Hr. eapply binary_on_evolves; eauto. }
  assert (∀ id r aid, requests d !! id = Some r → r_resulting_approval_id r = Some aid →
    approval_on d' aid (r_host_uuid r) (r_bin_sha r)) as R3'.
  { intros id r aid Hr Ha. eapply approval_on_evolves; [done|]. by eapply R3. }
  write_cases Hw; try (write_facts; done).
  - write_facts. unfold app_requests_insert_binary in Hb. sql_facts.
    apply binary_of_host_true in Hb as (m & [= <-] & Hb); [|done].
    pose proof (request_names_approval d r Hk Ha) as Hna. split; [done|split].
    + intros id r'. cbn. intros [[_ <-]|[_ Hr]]%lookup_insert_Some; [|by eapply R2'].
      by apply (binary_on_evolves d).
    + intros id r' aid. cbn. intros [[_ <-]|[_ Hr]]%lookup_insert_Some E; [|by eapply R3'].
      by apply (approval_on_evolves d _ _ _ _ He), Hna.
  - destruct (request_identity_cols _ _ (update_request_identity _ _ _ _ W)) as (_ & E1 & E2 & E3 & E4).
    write_facts. split; [done|split].
    + intros id' r'. cbn. intros [[_ <-]|[_ Hr]]%lookup_insert_Some; [|by eapply R2'].
      rewrite E1, E2, E3, E4. by eapply R2'.
    + intros id' r' aid. cbn. intros [[_ <-]|[_ Hr]]%lookup_insert_Some E; [|by eapply R3'].
      unfold app_requests_decision_names_approval in Ha. rewrite E in Ha. cbn in Ha.
      apply andb_false_iff in Ha as [Ha|Ha]; sql_facts.
      * rewrite E1, E3. eapply R3'; [done|congruence].
      * by apply (approval_on_evolves d _ _ _ _ He), names_approval_true.
  - write_facts. unfold app_approvals_insert_binary in Hb. split; [|done].
    intros id a'. cbn. intros [[_ <-]|[_ Ha]]%lookup_insert_Some Ho; [|by eapply R1'].
    apply andb_false_iff in Hb as [Hb|Hb]; sql_facts; [done|].
    apply binary_of_host_true in Hb as (m & E & Hb); [|done]. exists m. split; [done|].
    by apply (binary_on_evolves d).
  - destruct (approval_identity_cols _ _ (update_approval_identity _ _ _ _ W)) as (_ & E1 & E2 & E3 & E4 & E5).
    write_facts. split; [|done].
    intros id' a'. cbn. intros [[_ <-]|[_ Ha]]%lookup_insert_Some Hl; [|by eapply R1'].
    rewrite E1, E2, E3, E4. eapply R1'; [done|congruence].
Qed.

(** Every database reached from the empty one satisfies the invariant. *)
Lemma sql_write_inv d d' : ledger_inv d → sql_write d d' → ledger_inv d'.
Proof.
  intros [Hk H1 H2 H3 H4 H5] Hw. split.
  - by eapply sql_write_keyed.
  - by eapply sql_write_one_pending.
  - by eapply sql_write_versions.
  - by eapply sql_write_dense.
  - by eapply sql_write_references.
  - by eapply sql_write_checked.
Qed.

Lemma sql_writes_inv d d' : rtc sql_write d d' → ledger_inv d → ledger_inv d'.
Proof. induction 1; eauto using sql_write_inv. Qed.

Lemma empty_inv : ledger_inv empty_db.
Proof.
  split; [apply empty_keyed|..]; repeat split; intros *; try (intros H; discriminate H);
    try (intros H1 H2; discriminate H1); intros * ?; try discriminate.
Qed.
