(* ===== verification/AppLedger.v ===== *)
(** The operations of the app approval ledger (crates/ferro-raft/src/apps: mod.rs,
    reads.rs, generation.rs, intake.rs, decisions.rs, approvals.rs).

    A statement is a function from the database to the database or an abort; a
    transaction runs its statements in order and writes all or nothing.  An operation
    reads first and runs its transaction later: it takes the database it read ([rd]) and
    the one its transaction runs on ([d]), which differ when another writer came between. *)
From stdpp Require Import pretty.
From S2P Require Import Prelude AppModel AppSchema.
Open Scope Z_scope.

(** ** Transactions (mod.rs) *)
Definition stmt : Type := Db → result abort Db.

Fixpoint run (stmts : list stmt) (d : Db) : result abort Db :=
  match stmts with
  | [] => Ok d
  | s :: stmts => let? d := s d in run stmts d
  end.

Definition GUARD_PREFIX : string := "ferrogate-guard:".

(** The message of the error an abort surfaces as. *)
Definition abort_text (e : abort) : string :=
  match e with Guard c => GUARD_PREFIX +:+ c | Constraint what => what end.

Fixpoint take_while (p : Ascii.ascii → bool) (s : string) : string :=
  match s with
  | EmptyString => EmptyString
  | String a s => if p a then String a (take_while p s) else EmptyString
  end.
Definition is_code_char (a : Ascii.ascii) : bool :=
  let n := Ascii.nat_of_ascii a in (97 <=? n)%nat && (n <=? 122)%nat || (n =? 95)%nat.

(** [guard_code]. *)
Definition guard_code (text : string) : option string :=
  match String.index 0 GUARD_PREFIX text with
  | None => None
  | Some i =>
      let start := (i + String.length GUARD_PREFIX)%nat in
      let c := take_while is_code_char (String.substring start (String.length text - start) text) in
      if String.eqb c "" then None else Some c
  end.

Inductive TxnOutcome := Committed | Refused (c : string).

(** [ledger_txn]: a failed transaction wrote nothing. *)
Definition ledger_txn (stmts : list stmt) (d : Db) : Db * result LedgerError TxnOutcome :=
  match run stmts d with
  | Ok d' => (d', Ok Committed)
  | Err e =>
      (d, match guard_code (abort_text e) with
          | Some c => Ok (Refused c)
          | None => Err (Store (abort_text e))
          end)
  end.

(** [generic_refusal]. *)
Definition generic_refusal (c : string) : LedgerError :=
  if String.eqb c "not_found" then LedgerNotFound
  else if String.eqb c "invalid_state" then InvalidState
  else if String.eqb c "row_version_mismatch" then RowVersionMismatch
  else if String.eqb c "sod_self_approval" then SelfApproval
  else if String.eqb c "not_covering" then NotCovering
  else if String.eqb c "stale" then Raced
  else Store ("guard " +:+ c).

(** Inserting a code into [app_txn_guard] fires the trigger of that code, or the last one. *)
Definition guard_codes : list string :=
  ["not_found"; "invalid_state"; "row_version_mismatch"; "replayed"; "covered";
   "duplicate_pending"; "denied_cooldown"; "sod_self_approval"; "not_covering";
   "no_auto_parent"; "lineage_frozen"; "user_mismatch"; "no_continuity_anchor";
   "hash_previously_revoked"; "hash_previously_denied"; "auto_rate_exceeded"; "stale"].
Definition raise_guard (c : string) : abort :=
  Guard (if existsb (String.eqb c) guard_codes then c else "failed").

(** [INSERT INTO app_txn_guard (code) SELECT c FROM (SELECT CASE WHEN ... ELSE 'ok' END AS c)
    WHERE c <> 'ok']: the code of the first condition that holds. *)
Fixpoint case_when (cases : list (bool * string)) : option string :=
  match cases with
  | [] => None
  | (true, c) :: _ => Some c
  | (false, _) :: cases => case_when cases
  end.
Definition guard_stmt (cases : Db → list (bool * string)) : stmt := λ d,
  match case_when (cases d) with None => Ok d | Some c => Err (raise_guard c) end.

(** [UPDATE tbl SET f WHERE p], row by row, and the number of rows it matches. *)
Definition rows_where {K A} `{Countable K} (p : A → bool) (m : gmap K A) : list (K * A) :=
  List.filter (λ kr, p kr.2) (map_to_list m).
Definition update_row {K A} `{Countable K} (tbl : Db → gmap K A)
    (upd : A → A → Db → result abort Db) (f : A → A) (k : K) (d : Db) : result abort Db :=
  match tbl d !! k with Some old => upd old (f old) d | None => Ok d end.
Definition update_where {K A} `{Countable K} (tbl : Db → gmap K A)
    (upd : A → A → Db → result abort Db) (p : A → bool) (f : A → A) : stmt := λ d,
  run (update_row tbl upd f <$> (rows_where p (tbl d)).*1) d.

(** [SELECT ... WHERE p ORDER BY ... LIMIT 1]: the row no other one is [better] than. *)
Definition pick {A} (better : A → A → bool) (best : option A) (x : A) : option A :=
  match best with
  | None => Some x
  | Some b => if better x b then Some x else best
  end.
Definition best_row {K A} `{Countable K} (better : A → A → bool) (p : A → bool) (m : gmap K A) :
    option A :=
  foldl (pick better) None (rows_where p m).*2.

(** Lexicographic comparison of sort keys; NULL sorts first. *)
Definition opt_compare (x y : option Z) : comparison :=
  match x, y with
  | None, None => Eq | None, Some _ => Lt | Some _, None => Gt | Some x, Some y => x ?= y
  end.
Definition then_ (c k : comparison) : comparison := match c with Eq => k | _ => c end.
Definition is_gt (c : comparison) : bool := match c with Gt => true | _ => false end.

(** [check_len] counts characters, [check_id] bytes. *)
Definition char_count (s : string) : nat :=
  length (List.filter starts_char (String.list_ascii_of_string s)).
Definition check_len (v : option string) (max_chars : nat) (field : string) : result LedgerError unit :=
  match v with
  | Some s => if (max_chars <? char_count s)%nat then Err (Invalid field) else Ok tt
  | None => Ok tt
  end.
Definition check_id (v : string) (field : string) : result LedgerError unit :=
  if String.eqb v "" || (64 <? String.length v)%nat then Err (Invalid field) else Ok tt.

(** ** Reads (reads.rs) *)
Definition app_lineage (lineage_id : string) (d : Db) : option LineageRow := lineages d !! lineage_id.
Definition app_lineage_by_path (host_uuid : string) (path_key : list u8) (d : Db) : option LineageRow :=
  snd <$> head (rows_where (λ l, is_ (l_host_uuid l) host_uuid && is_ (l_path_key l) path_key) (lineages d)).
Definition app_binary (lineage_id bin_sha : string) (d : Db) : option BinaryRow :=
  binaries d !! (lineage_id, bin_sha).
Definition app_request (request_id : string) (d : Db) : option RequestRow := requests d !! request_id.
Definition app_request_by_client_id (host_uuid client_request_id : string) (d : Db) : option RequestRow :=
  snd <$> head (rows_where (λ r, is_ (r_host_uuid r) host_uuid
                                 && is_ (r_client_request_id r) client_request_id) (requests d)).
Definition app_pending_by_dedup (dedup_key : list u8) (d : Db) : option RequestRow :=
  snd <$> head (rows_where (λ r, is_ (r_dedup_key r) dedup_key && is_ (r_state r) ReqPending) (requests d)).
Definition app_recent_denial (dedup_key : list u8) (since : Z) (d : Db) : option RequestRow :=
  best_row (λ x y, is_gt (opt_compare (r_decided_at x) (r_decided_at y)))
    (λ r, is_ (r_dedup_key r) dedup_key && is_ (r_state r) ReqDenied
          && match r_decided_at r with Some t => since <=? t | None => false end) (requests d).
Definition app_approval (approval_id : string) (d : Db) : option ApprovalRow := approvals d !! approval_id.

(** An active, unexpired approval that admits the binary and user on the host. *)
Definition covers (host_uuid lineage_id bin_sha : string) (target_sid : option string)
    (target_uid : option Z) (now : Z) (a : ApprovalRow) : bool :=
  is_ (a_host_uuid a) host_uuid && is_ (a_state a) Active
  && (is_null (a_expires_at a) || gt_null (a_expires_at a) (Some now))
  && (is_ (a_bin_sha a) bin_sha || is_ (a_bin_sha a) "*")
  && (is_ (a_lineage_id a) lineage_id || is_ (a_path_match a) PathAny)
  && (is_ (a_user_scope a) AnyUser
      || not_null (a_sid a)
         && eq_null (to_ascii_uppercase <$> a_sid a) (to_ascii_uppercase <$> target_sid)
      || is_null (a_sid a) && not_null (a_uid a) && eq_null (a_uid a) target_uid).

Definition app_covering_approval (host_uuid lineage_id bin_sha : string) (user : UserIdentity) (now : Z)
    (d : Db) : option ApprovalRow :=
  best_row (λ x y, is_gt (
      then_ (Nat.compare (Nat.b2n (is_ (a_lineage_id x) lineage_id)) (Nat.b2n (is_ (a_lineage_id y) lineage_id)))
      (then_ (a_created_at x ?= a_created_at y)
         (String.compare (a_approval_id x) (a_approval_id y)))))
    (covers host_uuid lineage_id bin_sha (sid user) (uid user) now) (approvals d).

(** The auto-update parent candidate of a lineage. *)
Definition app_auto_parent (host_uuid lineage_id : string) (now : Z) (d : Db) : option ApprovalRow :=
  best_row (λ x y, is_gt (
      then_ (opt_compare (a_revision x) (a_revision y))
      (then_ (a_created_at x ?= a_created_at y)
         (String.compare (a_approval_id x) (a_approval_id y)))))
    (λ a, is_ (a_lineage_id a) lineage_id && is_ (a_host_uuid a) host_uuid && is_ (a_state a) Active
          && is_ (a_update_policy a) AutoSamePathUser
          && (is_null (a_expires_at a) || gt_null (a_expires_at a) (Some now))) (approvals d).

(** ** The allowlist generation (generation.rs) *)

Definition bump_generation_stmt (host_uuid : string) (now_millis now : Z) : stmt := λ d,
  let excluded := {| h_host_uuid := host_uuid; h_generation := Z.max now_millis 1;
                     h_entries_digest := []; h_changed_at := now;
                     h_cached_v2 := None; h_cached_not_after := None |} in
  match hosts d !! host_uuid with
  | None => insert_host excluded d
  | Some old =>
      update_host old
        {| h_host_uuid := h_host_uuid old;
           h_generation := Z.max (h_generation old + 1) (h_generation excluded);
           h_entries_digest := h_entries_digest excluded; h_changed_at := h_changed_at excluded;
           h_cached_v2 := None; h_cached_not_after := None |} d
  end.

Definition app_allowlist_state (host_uuid : string) (d : Db) : option HostAllowlistStateRow :=
  hosts d !! host_uuid.

(** The generation a read returns, as a [u64]. *)
Definition generation_of (host_uuid : string) (d : Db) : Z :=
  match app_allowlist_state host_uuid d with Some h => Z.max 0 (h_generation h) | None => 0 end.

(** Continue after a transaction that can only commit or be refused generically. *)
Definition commit {A} (t : Db * result LedgerError TxnOutcome)
    (k : Db → result LedgerError A) : Db * result LedgerError A :=
  let '(d, r) := t in
  match r with
  | Err e => (d, Err e)
  | Ok (Refused c) => (d, Err (generic_refusal c))
  | Ok Committed => (d, k d)
  end.

Definition or_raced {A} (x : option A) : result LedgerError A :=
  match x with Some a => Ok a | None => Err Raced end.

Definition app_bump_generation (host_uuid : string) (now_millis now : Z) (d : Db) :
    Db * result LedgerError Z :=
  match check_id host_uuid "host_uuid" with
  | Err e => (d, Err e)
  | Ok _ => commit (ledger_txn [bump_generation_stmt host_uuid now_millis now] d)
              (λ d, Ok (generation_of host_uuid d))
  end.

(** [app_record_compiled_digest]: the digest of the entry set compiled at
    [expected_generation]; [None] when the generation moved on. *)
Definition with_digest (entries_digest : list u8) (now_millis now : Z) (h : HostAllowlistStateRow) :
    HostAllowlistStateRow :=
  let same := is_ (h_entries_digest h) entries_digest in
  let keep := (length (h_entries_digest h) =? 0)%nat || same in
  {| h_host_uuid := h_host_uuid h;
     h_generation := if keep then h_generation h else Z.max (h_generation h + 1) now_millis;
     h_entries_digest := entries_digest;
     h_changed_at := if keep then h_changed_at h else now;
     h_cached_v2 := if same then h_cached_v2 h else None;
     h_cached_not_after := if same then h_cached_not_after h else None |}.

Definition app_record_compiled_digest (host_uuid : string) (expected_generation : Z)
    (entries_digest : list u8) (now_millis now : Z) (d : Db) : Db * result LedgerError (option Z) :=
  match entries_digest with
  | [] => (d, Err (Invalid "entries_digest"))
  | _ =>
      if 2 ^ 63 <=? expected_generation then (d, Err (Invalid "generation")) else
      match hosts d !! host_uuid with
      | Some h =>
          if h_generation h =? expected_generation then
            let h' := with_digest entries_digest now_millis now h in
            match update_host h h' d with
            | Ok d' => (d', Ok (Some (Z.max 0 (h_generation h'))))
            | Err e => (d, Err (Store (abort_text e)))
            end
          else (d, Ok None)
      | None => (d, Ok None)
      end
  end.

Definition with_cache (signed_body : list u8) (not_after : Z) (h : HostAllowlistStateRow) :
    HostAllowlistStateRow :=
  {| h_host_uuid := h_host_uuid h; h_generation := h_generation h;
     h_entries_digest := h_entries_digest h; h_changed_at := h_changed_at h;
     h_cached_v2 := Some signed_body; h_cached_not_after := Some not_after |}.

Definition app_cache_signed_allowlist (host_uuid : string) (generation : Z) (signed_body : list u8)
    (not_after : Z) (d : Db) : Db * result LedgerError bool :=
  if 2 ^ 63 <=? generation then (d, Err (Invalid "generation")) else
  match hosts d !! host_uuid with
  | Some h =>
      if (h_generation h =? generation) && negb (length (h_entries_digest h) =? 0)%nat then
        match update_host h (with_cache signed_body not_after h) d with
        | Ok d' => (d', Ok true)
        | Err e => (d, Err (Store (abort_text e)))
        end
      else (d, Ok false)
  | None => (d, Ok false)
  end.
