(* ===== verification/AppOps.v ===== *)
(** Intake, decisions and approval changes of the app approval ledger
    (crates/ferro-raft/src/apps: intake.rs, decisions.rs, approvals.rs), on the
    transactions of AppLedger.  Each operation is split as in the source: the statements
    it builds from what it read, and the transaction that runs them. *)
From S2P Require Import Prelude AppModel AppSchema AppLedger.
Open Scope Z_scope.

(** ** Inputs *)
Record IntakeChecks := { ic_now : Z; ic_denied_cooldown_since : option Z }.
Record AutoChecks := {
  ac_now : Z; ac_denied_cooldown_since : option Z; ac_max_per_day : Z; ac_generation_millis : Z }.

Inductive Intake :=
  | Recorded (r : RequestRow) | Replayed (r : RequestRow) | Covered (a : ApprovalRow)
  | DuplicatePending (r : RequestRow) | RecentlyDenied (r : RequestRow).
Record AutoApproval := {
  auto_request : RequestRow; auto_approval : ApprovalRow; auto_generation : Z }.
Inductive AutoIntake :=
  | AutoApproved (a : AutoApproval) | NotEligible (reason : AutoDowngradeReason)
  | Deduplicated (i : Intake).

Record Revoke := {
  rv_approval_id : string; rv_admin_id : string; rv_reason_code : Z;
  rv_expected_row_version : option Z }.
Record ApprovalEdit := {
  e_approval_id : string; e_admin_id : string; e_expected_row_version : Z; e_now : Z;
  e_update_policy : option UpdatePolicy; e_continuity : option Continuity;
  e_expires_at : option (option Z); e_note : option (option string);
  e_narrow_to_exact_user : bool; e_narrow_to_exact_path : bool; e_generation_millis : Z }.
Inductive ApprovalChoice := New (approval_id : string) (terms : ApprovalTerms) | Reuse (approval_id : string).
Record Approve := {
  ap_request_id : string; ap_admin_id : string; ap_now : Z; ap_choice : ApprovalChoice;
  ap_forbid_self_approval : bool; ap_also_revoke : list Revoke; ap_generation_millis : Z }.
Record Deny := {
  dn_request_id : string; dn_admin_id : string; dn_now : Z; dn_reason_code : Z;
  dn_message : option string; dn_forbid_self_approval : bool }.
Record Decided := {
  dc_request : RequestRow; dc_approval : ApprovalRow; dc_same_actor : bool;
  dc_revoked : list ApprovalRow; dc_generation : Z }.

Definition AUTO_ATTEMPTS : nat := 3.

(** Run a list of validations, then [k]. *)
Fixpoint validate (vs : list (result LedgerError unit)) : result LedgerError unit :=
  match vs with [] => Ok tt | v :: vs => let? _ := v in validate vs end.
Definition require (ok : bool) (field : string) : result LedgerError unit :=
  if ok then Ok tt else Err (Invalid field).

(** [validate_request]. *)
Definition validate_request (r : NewRequest) : result LedgerError unit :=
  validate [
    check_id (n_request_id r) "request_id"; check_id (n_host_uuid r) "host_uuid";
    check_id (n_client_request_id r) "client_request_id"; check_id (n_lineage_id r) "lineage_id";
    require (is_bin_sha (n_bin_sha r)) "bin_sha";
    require (negb (n_revision r <? 1)) "revision";
    require ((length (n_dedup_key r) =? 32)%nat) "dedup_key";
    match kind (n_target r) with
    | Unix => require (not_null (uid (n_target r))) "target_user.uid"
    | Windows => require (not_null (sid (n_target r))) "target_user.sid"
    end;
    check_len (sid (n_target r)) 184 "target_user.sid";
    check_len (user_name (n_target r)) 256 "target_user.name";
    check_len (n_requester_user_name r) 256 "requested_by.name";
    check_len (n_reason r) 200 "reason";
    check_len (Some (n_host_tier r)) 64 "host_tier";
    check_len (Some (n_proposer_spiffe_id r)) 2048 "proposer_spiffe_id";
    require (negb (is_ (n_origin r) AdminDirect && is_null (n_requested_by_admin_id r)))
      "requested_by_admin_id" ].

(** [validate_binary]. *)
Definition validate_binary (b : ObservedBinary) : result LedgerError unit :=
  validate [
    check_id (o_host_uuid b) "host_uuid"; check_id (o_new_lineage_id b) "lineage_id";
    require ((1 <=? o_platform b) && (o_platform b <=? 3)) "binary.platform";
    require (negb (String.eqb (o_canonical_path b) "" || (4096 <? String.length (o_canonical_path b))%nat))
      "binary.canonical_path";
    require (negb ((length (o_path_key b) =? 0)%nat || (8192 <? length (o_path_key b))%nat))
      "binary.path_key";
    require (is_bin_sha (o_bin_sha b)) "binary.sha384";
    require (negb (o_file_size b <? 0)) "binary.size";
    require (existsb (Z.eqb (o_format b)) [1; 2; 3; 9]) "binary.format";
    require ((0 <=? o_version_source b) && (o_version_source b <=? 7)) "binary.version_source";
    require ((0 <=? o_signer_kind b) && (o_signer_kind b <=? 2)) "binary.signer.kind";
    check_len (o_declared_version b) 64 "binary.declared_version";
    check_len (o_product_name b) 128 "binary.product_name";
    check_len (o_bundle_id b) 255 "binary.bundle_id";
    check_len (o_package_name b) 128 "binary.package_name";
    check_len (o_signer_id b) 128 "binary.signer.id";
    check_len (o_signer_subject b) 256 "binary.signer.subject" ].

Section Ops.
(** [ring]'s SHA-256 and the CBOR of a snapshot ([ciborium]). *)
Context (sha256 : list u8 → list u8).
Context (to_cbor : ApprovalSnapshot → result LedgerError (list u8)).

Definition snapshot_cbor (a : ApprovalRow) : result LedgerError (list u8) :=
  to_cbor (snapshot_of sha256 a).

(** ** Statements shared by the operations *)
Record RecordedAs := {
  as_state : RequestState; as_decided_at : option Z; as_decided_by_admin_id : option string;
  as_resulting_approval_id : option string; as_same_actor : bool }.

(** [INSERT_REQUEST]: the kind is classified by the ledger. *)
Definition insert_request_stmt (r : NewRequest) (how : RecordedAs) : stmt := λ d,
  insert_request
    {| r_request_id := n_request_id r; r_host_uuid := n_host_uuid r;
       r_client_request_id := n_client_request_id r; r_lineage_id := n_lineage_id r;
       r_bin_sha := n_bin_sha r; r_revision := n_revision r;
       r_kind := if exists_row (λ a, is_ (a_lineage_id a) (n_lineage_id r)
                     && negb (is_ (Some (a_approval_id a)) (as_resulting_approval_id how))) (approvals d)
                 then Update else Register;
       r_origin := n_origin r; r_target := n_target r; r_requester_uid := n_requester_uid r;
       r_requester_user_name := n_requester_user_name r;
       r_requested_by_admin_id := n_requested_by_admin_id r; r_reason := n_reason r;
       r_flags := n_flags r; r_host_tier := n_host_tier r;
       r_proposer_spiffe_id := n_proposer_spiffe_id r; r_dedup_key := n_dedup_key r;
       r_submitted_at := n_submitted_at r; r_pending_expires_at := n_pending_expires_at r;
       r_state := as_state how; r_decided_at := as_decided_at how;
       r_decided_by_admin_id := as_decided_by_admin_id how;
       r_decision_reason_code := None; r_decision_message := None;
       r_auto_downgrade_reason := n_auto_downgrade_reason r;
       r_resulting_approval_id := as_resulting_approval_id how;
       r_same_actor_approved := as_same_actor how |} d.

Definition insert_revision_stmt (approval_id : string) (row_version changed_at : Z)
    (changed_by_admin_id : option string) (change : RevisionChange) (before : option (list u8))
    (after : list u8) : stmt :=
  insert_revision
    {| v_approval_id := approval_id; v_row_version := row_version; v_changed_at := changed_at;
       v_changed_by_admin_id := changed_by_admin_id; v_change_kind := change;
       v_before_cbor := before; v_after_cbor := after |}.

(** [INSERT_APPROVAL]: the columns the statement writes as literals are written as such. *)
Definition insert_approval_stmt (a : ApprovalRow) : stmt :=
  insert_approval
    {| a_approval_id := a_approval_id a; a_host_uuid := a_host_uuid a;
       a_lineage_id := a_lineage_id a; a_bin_sha := a_bin_sha a; a_revision := a_revision a;
       a_source_request_id := a_source_request_id a; a_origin := a_origin a;
       a_parent_approval_id := None; a_approved_by_admin_id := a_approved_by_admin_id a;
       a_user_scope := a_user_scope a; a_user_kind := a_user_kind a; a_uid := a_uid a;
       a_sid := a_sid a; a_user_name := a_user_name a; a_path_match := a_path_match a;
       a_update_policy := a_update_policy a; a_continuity := a_continuity a;
       a_created_at := a_created_at a; a_expires_at := a_expires_at a; a_state := Active;
       a_superseded_by := None; a_revoked_at := None; a_revoked_by_admin_id := None;
       a_revoke_reason_code := None; a_note := a_note a; a_row_version := 1 |}.

(** Record updates of an approval, one per column the statements set. *)
Definition with_superseded_by (id : string) (a : ApprovalRow) : ApprovalRow :=
  {| a_approval_id := a_approval_id a; a_host_uuid := a_host_uuid a;
     a_lineage_id := a_lineage_id a; a_bin_sha := a_bin_sha a; a_revision := a_revision a;
     a_source_request_id := a_source_request_id a; a_origin := a_origin a;
     a_parent_approval_id := a_parent_approval_id a; a_approved_by_admin_id := a_approved_by_admin_id a;
     a_user_scope := a_user_scope a; a_user_kind := a_user_kind a; a_uid := a_uid a;
     a_sid := a_sid a; a_user_name := a_user_name a; a_path_match := a_path_match a;
     a_update_policy := a_update_policy a; a_continuity := a_continuity a;
     a_created_at := a_created_at a; a_expires_at := a_expires_at a; a_state := a_state a;
     a_superseded_by := Some id; a_revoked_at := a_revoked_at a;
     a_revoked_by_admin_id := a_revoked_by_admin_id a;
     a_revoke_reason_code := a_revoke_reason_code a; a_note := a_note a;
     a_row_version := a_row_version a |}.

Definition with_state (s : ApprovalState) (revocation : option (Z * string * Z)) (a : ApprovalRow) :
    ApprovalRow :=
  {| a_approval_id := a_approval_id a; a_host_uuid := a_host_uuid a;
     a_lineage_id := a_lineage_id a; a_bin_sha := a_bin_sha a; a_revision := a_revision a;
     a_source_request_id := a_source_request_id a; a_origin := a_origin a;
     a_parent_approval_id := a_parent_approval_id a; a_approved_by_admin_id := a_approved_by_admin_id a;
     a_user_scope := a_user_scope a; a_user_kind := a_user_kind a; a_uid := a_uid a;
     a_sid := a_sid a; a_user_name := a_user_name a; a_path_match := a_path_match a;
     a_update_policy := a_update_policy a; a_continuity := a_continuity a;
     a_created_at := a_created_at a; a_expires_at := a_expires_at a; a_state := s;
     a_superseded_by := a_superseded_by a;
     a_revoked_at := match revocation with Some (now, _, _) => Some now | None => a_revoked_at a end;
     a_revoked_by_admin_id :=
       match revocation with Some (_, admin, _) => Some admin | None => a_revoked_by_admin_id a end;
     a_revoke_reason_code :=
       match revocation with Some (_, _, reason) => Some reason | None => a_revoke_reason_code a end;
     a_note := a_note a; a_row_version := a_row_version a + 1 |}.

(** The decision columns of a request. *)
Definition with_decision (s : RequestState) (decided_at : Z) (by_admin : option string)
    (reason : option Z) (message : option string) (approval : option string) (same_actor : bool)
    (r : RequestRow) : RequestRow :=
  {| r_request_id := r_request_id r; r_host_uuid := r_host_uuid r;
     r_client_request_id := r_client_request_id r; r_lineage_id := r_lineage_id r;
     r_bin_sha := r_bin_sha r; r_revision := r_revision r; r_kind := r_kind r;
     r_origin := r_origin r; r_target := r_target r; r_requester_uid := r_requester_uid r;
     r_requester_user_name := r_requester_user_name r;
     r_requested_by_admin_id := r_requested_by_admin_id r; r_reason := r_reason r;
     r_flags := r_flags r; r_host_tier := r_host_tier r;
     r_proposer_spiffe_id := r_proposer_spiffe_id r; r_dedup_key := r_dedup_key r;
     r_submitted_at := r_submitted_at r; r_pending_expires_at := r_pending_expires_at r;
     r_state := s; r_decided_at := Some decided_at; r_decided_by_admin_id := by_admin;
     r_decision_reason_code := reason; r_decision_message := message;
     r_auto_downgrade_reason := r_auto_downgrade_reason r;
     r_resulting_approval_id := approval; r_same_actor_approved := same_actor |}.

(** ** Intake (intake.rs) *)

(** [intake_checks!]. *)
Definition intake_cases (r : NewRequest) (now : Z) (cooldown : option Z) (d : Db) : list (bool * string) :=
  [ (exists_row (λ x, is_ (r_host_uuid x) (n_host_uuid r)
       && is_ (r_client_request_id x) (n_client_request_id r)) (requests d), "replayed");
    (exists_row (covers (n_host_uuid r) (n_lineage_id r) (n_bin_sha r) (sid (n_target r))
       (uid (n_target r)) now) (approvals d), "covered");
    (exists_row (λ x, is_ (r_dedup_key x) (n_dedup_key r) && is_ (r_state x) ReqPending) (requests d),
       "duplicate_pending");
    (match cooldown with
     | None => false
     | Some since => exists_row (λ x, is_ (r_dedup_key x) (n_dedup_key r) && is_ (r_state x) ReqDenied
         && match r_decided_at x with Some t => since <=? t | None => false end) (requests d)
     end, "denied_cooldown") ].

(** [AUTO_GUARD]: the conditions on the parent [p], after the intake checks. *)
Definition user_matches (r : NewRequest) (p : ApprovalRow) : bool :=
  is_ (a_user_scope p) ExactUser
  && (not_null (a_sid p)
      && eq_null (to_ascii_uppercase <$> a_sid p) (to_ascii_uppercase <$> sid (n_target r))
      || is_null (a_sid p) && eq_null (a_uid p) (uid (n_target r))
         && eq_null (a_user_name p) (user_name (n_target r)))
  || is_ (a_user_scope p) AnyUser && Z.testbit (n_flags r) 0.

Definition anchored (r : NewRequest) (p : ApprovalRow) (d : Db) : bool :=
  is_ (a_continuity p) PathUserOnly || Z.testbit (n_flags r) 0
  || exists_row (λ nb, is_ (b_lineage_id nb) (n_lineage_id r) && is_ (b_bin_sha nb) (n_bin_sha r)
       && exists_row (λ pb, is_ (b_lineage_id pb) (n_lineage_id r) && is_ (b_bin_sha pb) (a_bin_sha p)
            && b_signer_valid nb && b_signer_valid pb && negb (b_signer_kind nb =? 0)
            && (b_signer_kind nb =? b_signer_kind pb) && not_null (b_signer_id nb)
            && eq_null (b_signer_id nb) (b_signer_id pb)) (binaries d)) (binaries d).

Definition auto_cases (r : NewRequest) (parent : option ApprovalRow) (c : AutoChecks) (d : Db) :
    list (bool * string) :=
  let p := app_auto_parent (n_host_uuid r) (n_lineage_id r) (ac_now c) d in
  let of_p (f : ApprovalRow → bool) := match p with Some p => f p | None => false end in
  intake_cases r (ac_now c) (ac_denied_cooldown_since c) d ++
  [ (is_null p, "no_auto_parent");
    (negb (of_p (λ p, eq_null (Some (a_approval_id p)) (a_approval_id <$> parent)
                      && eq_null (Some (a_row_version p)) (a_row_version <$> parent))), "stale");
    (exists_row (λ l, is_ (l_lineage_id l) (n_lineage_id r) && l_auto_update_frozen l) (lineages d),
       "lineage_frozen");
    (negb (of_p (user_matches r)), "user_mismatch");
    (negb (of_p (λ p, anchored r p d)), "no_continuity_anchor");
    (hash_revoked d (n_lineage_id r) (n_bin_sha r), "hash_previously_revoked");
    (hash_denied d (n_lineage_id r) (n_bin_sha r), "hash_previously_denied");
    (ac_max_per_day c <=? count_rows (λ a, is_ (a_lineage_id a) (n_lineage_id r)
       && is_ (a_origin a) AutoUpdate && (ac_now c - 86400 <? a_created_at a)) (approvals d),
       "auto_rate_exceeded") ].

(** [child_of]. *)
Definition child_of (parent : ApprovalRow) (approval_id : string) (req : NewRequest) (now : Z) :
    ApprovalRow :=
  {| a_approval_id := approval_id; a_host_uuid := a_host_uuid parent;
     a_lineage_id := a_lineage_id parent; a_bin_sha := n_bin_sha req;
     a_revision := Some (n_revision req); a_source_request_id := Some (n_request_id req);
     a_origin := AutoUpdate; a_parent_approval_id := Some (a_approval_id parent);
     a_approved_by_admin_id := None; a_user_scope := a_user_scope parent;
     a_user_kind := a_user_kind parent; a_uid := a_uid parent; a_sid := a_sid parent;
     a_user_name := a_user_name parent; a_path_match := a_path_match parent;
     a_update_policy := a_update_policy parent; a_continuity := a_continuity parent;
     a_created_at := now; a_expires_at := a_expires_at parent; a_state := Active;
     a_superseded_by := None; a_revoked_at := None; a_revoked_by_admin_id := None;
     a_revoke_reason_code := None; a_note := None; a_row_version := 1 |}.

(** The INSERT ... SELECT that copies the parent as the database has it. *)
Definition insert_child_stmt (approval_id parent_id : string) (req : NewRequest) (now : Z) : stmt := λ d,
  match approvals d !! parent_id with
  | Some p => insert_approval (child_of p approval_id req now) d
  | None => Ok d
  end.

(** [auto_stmts]. *)
Definition auto_stmts (req : NewRequest) (parent : option ApprovalRow) (approval_id : string)
    (c : AutoChecks) : result LedgerError (list stmt) :=
  let guard := guard_stmt (auto_cases req parent c) in
  match parent with
  | None => Ok [guard]
  | Some p =>
      let? after := snapshot_cbor (child_of p approval_id req (ac_now c)) in
      Ok [ guard;
           insert_child_stmt approval_id (a_approval_id p) req (ac_now c);
           insert_revision_stmt approval_id 1 (ac_now c) None RevCreated None after;
           insert_request_stmt req
             {| as_state := ReqAutoApproved; as_decided_at := Some (ac_now c);
                as_decided_by_admin_id := None; as_resulting_approval_id := Some approval_id;
                as_same_actor := false |};
           update_where approvals update_approval
             (λ a, is_ (a_approval_id a) (a_approval_id p) && is_null (a_superseded_by a)
                   && is_ (a_state a) Active && gt_null (Some (n_revision req)) (a_revision a))
             (with_superseded_by approval_id);
           bump_generation_stmt (n_host_uuid req) (ac_generation_millis c) (ac_now c) ]
  end.

(** [dedup_outcome]: the existing record a guard code names. *)
Definition dedup_outcome (c : string) (req : NewRequest) (now : Z) (cooldown : option Z) (d : Db) :
    result LedgerError Intake :=
  if String.eqb c "replayed" then
    or_raced (Replayed <$> app_request_by_client_id (n_host_uuid req) (n_client_request_id req) d)
  else if String.eqb c "covered" then
    or_raced (Covered <$> app_covering_approval (n_host_uuid req) (n_lineage_id req) (n_bin_sha req)
                            (n_target req) now d)
  else if String.eqb c "duplicate_pending" then
    or_raced (DuplicatePending <$> app_pending_by_dedup (n_dedup_key req) d)
  else if String.eqb c "denied_cooldown" then
    or_raced (since ← cooldown; RecentlyDenied <$> app_recent_denial (n_dedup_key req) since d)
  else Err (generic_refusal c).

(** [app_observe_binary]. *)
Definition observe_stmts (b : ObservedBinary) : list stmt :=
  [ (λ d, let row := {| l_lineage_id := o_new_lineage_id b; l_host_uuid := o_host_uuid b;
               l_platform := o_platform b; l_canonical_path := o_canonical_path b;
               l_path_key := o_path_key b; l_next_revision := 1; l_auto_update_frozen := false;
               l_created_at := o_seen_at b |} in
          if exists_row (λ l, is_ (l_host_uuid l) (o_host_uuid b) && is_ (l_path_key l) (o_path_key b))
               (lineages d)
          then check (lineage_checks row) "app_lineages check" (Ok d) (* ON CONFLICT DO NOTHING *)
          else insert_lineage row d);
    (λ d, match app_lineage_by_path (o_host_uuid b) (o_path_key b) d with
          | None => Ok d
          | Some l =>
              if exists_row (λ x, is_ (b_lineage_id x) (l_lineage_id l) && is_ (b_bin_sha x) (o_bin_sha b))
                   (binaries d)
              then Ok d
              else insert_binary
                {| b_lineage_id := l_lineage_id l; b_bin_sha := o_bin_sha b;
                   b_revision := l_next_revision l; b_file_size := o_file_size b;
                   b_format := o_format b; b_declared_version := o_declared_version b;
                   b_version_source := o_version_source b; b_product_name := o_product_name b;
                   b_bundle_id := o_bundle_id b; b_package_name := o_package_name b;
                   b_signer_kind := o_signer_kind b; b_signer_id := o_signer_id b;
                   b_signer_subject := o_signer_subject b; b_signer_valid := o_signer_valid b;
                   b_first_seen_at := o_seen_at b |} d
          end);
    (λ d, update_where lineages update_lineage
            (λ l, is_ (l_host_uuid l) (o_host_uuid b) && is_ (l_path_key l) (o_path_key b)
                  && exists_row (λ x, is_ (b_lineage_id x) (l_lineage_id l)
                                      && is_ (b_revision x) (l_next_revision l)) (binaries d))
            (λ l, {| l_lineage_id := l_lineage_id l; l_host_uuid := l_host_uuid l;
                     l_platform := l_platform l; l_canonical_path := l_canonical_path l;
                     l_path_key := l_path_key l; l_next_revision := l_next_revision l + 1;
                     l_auto_update_frozen := l_auto_update_frozen l;
                     l_created_at := l_created_at l |}) d) ].

Definition app_observe_binary (b : ObservedBinary) (d : Db) :
    Db * result LedgerError (LineageRow * BinaryRow) :=
  match validate_binary b with
  | Err e => (d, Err e)
  | Ok _ =>
      commit (ledger_txn (observe_stmts b) d) (λ d,
        let? l := or_raced (app_lineage_by_path (o_host_uuid b) (o_path_key b) d) in
        let? x := or_raced (app_binary (l_lineage_id l) (o_bin_sha b) d) in
        Ok (l, x))
  end.

(** [app_submit_pending]. *)
Definition submit_stmts (req : NewRequest) (c : IntakeChecks) : list stmt :=
  [ guard_stmt (intake_cases req (ic_now c) (ic_denied_cooldown_since c));
    insert_request_stmt req
      {| as_state := ReqPending; as_decided_at := None; as_decided_by_admin_id := None;
         as_resulting_approval_id := None; as_same_actor := false |} ].

Definition app_submit_pending (req : NewRequest) (c : IntakeChecks) (d : Db) :
    Db * result LedgerError Intake :=
  match validate_request req with
  | Err e => (d, Err e)
  | Ok _ =>
      let '(d', r) := ledger_txn (submit_stmts req c) d in
      match r with
      | Err e => (d', Err e)
      | Ok Committed => (d', let? row := or_raced (app_request (n_request_id req) d') in Ok (Recorded row))
      | Ok (Refused code) => (d', dedup_outcome code req (ic_now c) (ic_denied_cooldown_since c) d')
      end
  end.

(** One attempt of [app_try_auto_approve]; [None] means try again. *)
Definition auto_attempt (req : NewRequest) (approval_id : string) (c : AutoChecks) (rd d : Db) :
    Db * option (result LedgerError AutoIntake) :=
  let parent := app_auto_parent (n_host_uuid req) (n_lineage_id req) (ac_now c) rd in
  match auto_stmts req parent approval_id c with
  | Err e => (d, Some (Err e))
  | Ok stmts =>
      let '(d', r) := ledger_txn stmts d in
      match r with
      | Err e => (d', Some (Err e))
      | Ok Committed =>
          (d', Some (
             if is_null parent then Ok (NotEligible NoAutoParent) else
             let? request := or_raced (app_request (n_request_id req) d') in
             let? approval := or_raced (app_approval approval_id d') in
             Ok (AutoApproved {| auto_request := request; auto_approval := approval;
                                 auto_generation := generation_of (n_host_uuid req) d' |})))
      | Ok (Refused code) =>
          if String.eqb code "stale" then (d', None) else
          (d', Some (match from_str_code code with
                     | Some reason => Ok (NotEligible reason)
                     | None =>
                         let? i := dedup_outcome code req (ac_now c) (ac_denied_cooldown_since c) d' in
                         Ok (Deduplicated i)
                     end))
      end
  end.

(** The attempts; [worlds] is what each one reads and runs on. *)
Fixpoint auto_loop (req : NewRequest) (approval_id : string) (c : AutoChecks) (attempts : nat)
    (d : Db) (worlds : nat → Db * Db) : Db * result LedgerError AutoIntake :=
  match attempts with
  | O => (d, Err Raced)
  | S attempts =>
      let '(d', r) := auto_attempt req approval_id c (worlds attempts).1 (worlds attempts).2 in
      match r with
      | Some r => (d', r)
      | None => auto_loop req approval_id c attempts d' worlds
      end
  end.

Definition app_try_auto_approve (req : NewRequest) (approval_id : string) (c : AutoChecks) (d : Db)
    (worlds : nat → Db * Db) : Db * result LedgerError AutoIntake :=
  match validate [validate_request req; check_id approval_id "approval_id";
                  require (negb (is_ (n_origin req) AdminDirect)) "origin"] with
  | Err e => (d, Err e)
  | Ok _ => auto_loop req approval_id c AUTO_ATTEMPTS d worlds
  end.

(** ** Approval changes (approvals.rs) *)
Definition validate_revoke (r : Revoke) : result LedgerError unit :=
  validate [check_id (rv_approval_id r) "approval_id"; check_id (rv_admin_id r) "admin_id"].

(** [revoke_stmts]: guard, revision record and update that revoke [current]. *)
Definition revoke_cases (current : ApprovalRow) (r : Revoke) (d : Db) : list (bool * string) :=
  let at_id p := exists_row (λ a, is_ (a_approval_id a) (a_approval_id current) && p a) (approvals d) in
  [ (negb (at_id (λ _, true)), "not_found");
    (negb (at_id (λ a, is_ (a_state a) Active || is_ (a_state a) Expired)), "invalid_state");
    (negb (at_id (λ a, is_ (a_row_version a) (a_row_version current))),
       if is_null (rv_expected_row_version r) then "stale" else "row_version_mismatch") ].

Definition revoke_stmts (current : ApprovalRow) (r : Revoke) (now : Z) :
    result LedgerError (list stmt) :=
  if is_ (a_state current) Revoked then Err InvalidState else
  if match rv_expected_row_version r with Some v => negb (v =? a_row_version current) | None => false end
  then Err RowVersionMismatch else
  let revoked := with_state Revoked (Some (now, rv_admin_id r, rv_reason_code r)) in
  let? before := snapshot_cbor current in
  let? after := snapshot_cbor (revoked current) in
  Ok [ guard_stmt (revoke_cases current r);
       insert_revision_stmt (a_approval_id current) (a_row_version current + 1) now
         (Some (rv_admin_id r)) RevRevoked (Some before) after;
       update_where approvals update_approval
         (λ a, is_ (a_approval_id a) (a_approval_id current)
               && is_ (a_row_version a) (a_row_version current)
               && (is_ (a_state a) Active || is_ (a_state a) Expired)) revoked ].

(** [app_revoke_approval]. *)
Definition app_revoke_approval (r : Revoke) (now generation_millis : Z) (rd d : Db) :
    Db * result LedgerError ApprovalRow :=
  match validate_revoke r with
  | Err e => (d, Err e)
  | Ok _ =>
      match app_approval (rv_approval_id r) rd with
      | None => (d, Err LedgerNotFound)
      | Some current =>
          match revoke_stmts current r now with
          | Err e => (d, Err e)
          | Ok stmts =>
              commit (ledger_txn (stmts ++ [bump_generation_stmt (a_host_uuid current) generation_millis now]) d)
                (λ d, or_raced (app_approval (rv_approval_id r) d))
          end
      end
  end.

(** The columns an edit may change, on top of [a]. *)
Definition with_edit (a : ApprovalRow) (state : ApprovalState) (policy : UpdatePolicy)
    (cont : Continuity) (expires_at : option Z) (note : option string) (scope : UserScope)
    (path : PathMatch) (ukind : option UserKind) (u : option Z) (s un : option string) (version : Z) :
    ApprovalRow :=
  {| a_approval_id := a_approval_id a; a_host_uuid := a_host_uuid a;
     a_lineage_id := a_lineage_id a; a_bin_sha := a_bin_sha a; a_revision := a_revision a;
     a_source_request_id := a_source_request_id a; a_origin := a_origin a;
     a_parent_approval_id := a_parent_approval_id a; a_approved_by_admin_id := a_approved_by_admin_id a;
     a_user_scope := scope; a_user_kind := ukind; a_uid := u; a_sid := s; a_user_name := un;
     a_path_match := path; a_update_policy := policy; a_continuity := cont;
     a_created_at := a_created_at a; a_expires_at := expires_at; a_state := state;
     a_superseded_by := a_superseded_by a; a_revoked_at := a_revoked_at a;
     a_revoked_by_admin_id := a_revoked_by_admin_id a;
     a_revoke_reason_code := a_revoke_reason_code a; a_note := note; a_row_version := version |}.

(** [edited]: the row after the edit (version unchanged) and whether it renews. *)
Definition edited (current : ApprovalRow) (e : ApprovalEdit) (source_target : option UserIdentity) :
    ApprovalRow * bool :=
  let expires_at := default (a_expires_at current) (e_expires_at e) in
  let renewal := is_ (a_state current) Expired && not_null (e_expires_at e)
                 && match expires_at with None => true | Some t => e_now e <? t end in
  (with_edit current
     (if renewal then Active else a_state current)
     (default (a_update_policy current) (e_update_policy e))
     (default (a_continuity current) (e_continuity e))
     expires_at
     (default (a_note current) (e_note e))
     (match source_target with Some _ => ExactUser | None => a_user_scope current end)
     (if e_narrow_to_exact_path e then PathExact else a_path_match current)
     (match source_target with Some t => Some (kind t) | None => a_user_kind current end)
     (match source_target with Some t => uid t | None => a_uid current end)
     (match source_target with Some t => sid t | None => a_sid current end)
     (match source_target with Some t => user_name t | None => a_user_name current end)
     (a_row_version current), renewal).

(** [changes_compiled_entry]. *)
Definition changes_compiled_entry (before after : ApprovalRow) : bool :=
  negb (is_ (a_state before) (a_state after)) || negb (is_ (a_expires_at before) (a_expires_at after))
  || negb (is_ (a_user_scope before) (a_user_scope after)) || negb (is_ (a_uid before) (a_uid after))
  || negb (is_ (a_sid before) (a_sid after)) || negb (is_ (a_path_match before) (a_path_match after)).

Definition edit_cases (e : ApprovalEdit) (d : Db) : list (bool * string) :=
  let at_id p := exists_row (λ a, is_ (a_approval_id a) (e_approval_id e) && p a) (approvals d) in
  [ (negb (at_id (λ _, true)), "not_found");
    (negb (at_id (λ a, is_ (a_state a) Active || is_ (a_state a) Expired)), "invalid_state");
    (negb (at_id (λ a, is_ (a_row_version a) (e_expected_row_version e))), "row_version_mismatch") ].

(** The UPDATE of an edit: every listed column, and the next version. *)
Definition apply_edit (after a : ApprovalRow) : ApprovalRow :=
  with_edit a (a_state after) (a_update_policy after) (a_continuity after) (a_expires_at after)
    (a_note after) (a_user_scope after) (a_path_match after) (a_user_kind after) (a_uid after)
    (a_sid after) (a_user_name after) (a_row_version a + 1).

(** The user an any-user approval is narrowed to, or [None] when the edit does not narrow. *)
Definition narrow_target (current : ApprovalRow) (e : ApprovalEdit) (rd : Db) :
    result LedgerError (option UserIdentity) :=
  if e_narrow_to_exact_user e && is_ (a_user_scope current) AnyUser then
    match a_source_request_id current ≫= (λ id, app_request id rd) with
    | Some source => Ok (Some (r_target source))
    | None => Err (Invalid "user_scope")
    end
  else Ok None.

Definition edit_stmts (current : ApprovalRow) (e : ApprovalEdit) (target : option UserIdentity) :
    result LedgerError (list stmt) :=
  let '(after0, renewal) := edited current e target in
  if bool_decide (after0 = current) then Err (Invalid "edit") else
  let after := apply_edit after0 current in
  let? before_cbor := snapshot_cbor current in
  let? after_cbor := snapshot_cbor after in
  Ok ([ guard_stmt (edit_cases e);
        insert_revision_stmt (e_approval_id e) (a_row_version after) (e_now e) (Some (e_admin_id e))
          (if renewal then RevRenewed else RevUpdated) (Some before_cbor) after_cbor;
        update_where approvals update_approval
          (λ a, is_ (a_approval_id a) (e_approval_id e)
                && is_ (a_row_version a) (e_expected_row_version e)) (apply_edit after) ]
      ++ if changes_compiled_entry current after
         then [bump_generation_stmt (a_host_uuid current) (e_generation_millis e) (e_now e)] else []).

(** [app_update_approval]. *)
Definition app_update_approval (e : ApprovalEdit) (rd d : Db) : Db * result LedgerError ApprovalRow :=
  match validate [check_id (e_approval_id e) "approval_id"; check_id (e_admin_id e) "admin_id";
                  match e_note e with Some note => check_len note 500 "note" | None => Ok tt end] with
  | Err err => (d, Err err)
  | Ok _ =>
      match app_approval (e_approval_id e) rd with
      | None => (d, Err LedgerNotFound)
      | Some current =>
          if is_ (a_state current) Revoked then (d, Err InvalidState) else
          if negb (a_row_version current =? e_expected_row_version e) then (d, Err RowVersionMismatch) else
          match (let? target := narrow_target current e rd in edit_stmts current e target) with
          | Err err => (d, Err err)
          | Ok stmts =>
              commit (ledger_txn stmts d) (λ d, or_raced (app_approval (e_approval_id e) d))
          end
      end
  end.

(** [app_expire_approval]. *)
Definition expire_stmts (approval_id : string) (current : ApprovalRow) (now generation_millis : Z) :
    result LedgerError (list stmt) :=
  let expired := with_state Expired None in
  let? before := snapshot_cbor current in
  let? after := snapshot_cbor (expired current) in
  Ok [ guard_stmt (λ d, [(negb (exists_row (λ a, is_ (a_approval_id a) approval_id
           && is_ (a_state a) Active && is_ (a_row_version a) (a_row_version current)
           && match a_expires_at a with Some t => t <=? now | None => false end) (approvals d)), "stale")]);
       insert_revision_stmt approval_id (a_row_version current + 1) now None RevExpired (Some before) after;
       update_where approvals update_approval
         (λ a, is_ (a_approval_id a) approval_id && is_ (a_row_version a) (a_row_version current)
               && is_ (a_state a) Active) expired;
       bump_generation_stmt (a_host_uuid current) generation_millis now ].

Definition app_expire_approval (approval_id : string) (now generation_millis : Z) (rd d : Db) :
    Db * result LedgerError bool :=
  match app_approval approval_id rd with
  | None => (d, Ok false)
  | Some current =>
      if negb (is_ (a_state current) Active)
         || match a_expires_at current with None => true | Some t => now <? t end
      then (d, Ok false) else
      match expire_stmts approval_id current now generation_millis with
      | Err e => (d, Err e)
      | Ok stmts =>
          let '(d', r) := ledger_txn stmts d in
          (d', match r with Err e => Err e | Ok Committed => Ok true | Ok (Refused _) => Ok false end)
      end
  end.

(** [execute]: one statement, and the number of rows it matched. *)
Definition execute {K A} `{Countable K} (tbl : Db → gmap K A) (upd : A → A → Db → result abort Db)
    (p : A → bool) (f : A → A) (d : Db) : Db * result LedgerError bool :=
  match update_where tbl upd p f d with
  | Ok d' => (d', Ok (exists_row p (tbl d)))
  | Err e => (d, Err (Store (abort_text e)))
  end.

(** [app_set_lineage_frozen]. *)
Definition app_set_lineage_frozen (lineage_id : string) (frozen : bool) (d : Db) :
    Db * result LedgerError bool :=
  execute lineages update_lineage (λ l, is_ (l_lineage_id l) lineage_id)
    (λ l, {| l_lineage_id := l_lineage_id l; l_host_uuid := l_host_uuid l;
             l_platform := l_platform l; l_canonical_path := l_canonical_path l;
             l_path_key := l_path_key l; l_next_revision := l_next_revision l;
             l_auto_update_frozen := frozen; l_created_at := l_created_at l |}) d.

(** ** Decisions (decisions.rs) *)
Definition validate_terms (t : ApprovalTerms) : result LedgerError unit := check_len (t_note t) 500 "note".

(** The request facts an approval is built from. *)
Record RequestFacts := {
  f_request_id : string; f_host_uuid : string; f_lineage_id : string; f_bin_sha : string;
  f_revision : Z; f_origin : RequestOrigin; f_target : UserIdentity }.
Definition facts_of_row (r : RequestRow) : RequestFacts :=
  {| f_request_id := r_request_id r; f_host_uuid := r_host_uuid r; f_lineage_id := r_lineage_id r;
     f_bin_sha := r_bin_sha r; f_revision := r_revision r; f_origin := r_origin r; f_target := r_target r |}.
Definition facts_of_new (r : NewRequest) : RequestFacts :=
  {| f_request_id := n_request_id r; f_host_uuid := n_host_uuid r; f_lineage_id := n_lineage_id r;
     f_bin_sha := n_bin_sha r; f_revision := n_revision r; f_origin := n_origin r; f_target := n_target r |}.

(** [approval_for]. *)
Definition approval_for (f : RequestFacts) (approval_id admin_id : string) (terms : ApprovalTerms)
    (now : Z) : ApprovalRow :=
  let exact {A} (x : option A) : option A := if is_ (t_user_scope terms) ExactUser then x else None in
  {| a_approval_id := approval_id; a_host_uuid := f_host_uuid f; a_lineage_id := f_lineage_id f;
     a_bin_sha := f_bin_sha f; a_revision := Some (f_revision f);
     a_source_request_id := Some (f_request_id f);
     a_origin := if is_ (f_origin f) AdminDirect then DirectAdd else Manual;
     a_parent_approval_id := None; a_approved_by_admin_id := Some admin_id;
     a_user_scope := t_user_scope terms; a_user_kind := exact (Some (kind (f_target f)));
     a_uid := exact (uid (f_target f)); a_sid := exact (sid (f_target f));
     a_user_name := exact (user_name (f_target f)); a_path_match := t_path_match terms;
     a_update_policy := t_update_policy terms; a_continuity := t_continuity terms;
     a_created_at := now; a_expires_at := t_expires_at terms; a_state := Active;
     a_superseded_by := None; a_revoked_at := None; a_revoked_by_admin_id := None;
     a_revoke_reason_code := None; a_note := t_note terms; a_row_version := 1 |}.

(** [decision_guard_stmt]. *)
Definition decision_cases (request_id admin_id : string) (forbid_self_approval : bool) (d : Db) :
    list (bool * string) :=
  let at_id p := exists_row (λ r, is_ (r_request_id r) request_id && p r) (requests d) in
  [ (negb (at_id (λ _, true)), "not_found");
    (negb (at_id (λ r, is_ (r_state r) ReqPending)), "invalid_state");
    (forbid_self_approval && at_id (λ r, eq_null (r_requested_by_admin_id r) (Some admin_id)),
       "sod_self_approval") ].

(** [supersede_stmt]. *)
Definition supersede_stmt (a : ApprovalRow) : stmt :=
  update_where approvals update_approval
    (λ x, is_ (a_lineage_id x) (a_lineage_id a) && negb (is_ (a_approval_id x) (a_approval_id a))
          && is_ (a_state x) Active && is_null (a_superseded_by x)
          && gt_null (a_revision a) (a_revision x) && is_ (a_user_scope x) (a_user_scope a)
          && is_ (a_uid x) (a_uid a) && is_ (a_sid x) (a_sid a))
    (with_superseded_by (a_approval_id a)).

(** The guard of a reused approval. *)
Definition reuse_cases (approval_id request_id : string) (now : Z) (d : Db) : list (bool * string) :=
  [ (negb (exists_row (λ a, is_ (a_approval_id a) approval_id
       && exists_row (λ r, is_ (r_request_id r) request_id
            && covers (r_host_uuid r) (r_lineage_id r) (r_bin_sha r) (sid (r_target r))
                 (uid (r_target r)) now a) (requests d)) (approvals d)), "not_covering") ].

(** The statements of the approval choice, and the id of the approval. *)
Definition choice_stmts (request : RequestRow) (a : Approve) : result LedgerError (list stmt * string) :=
  match ap_choice a with
  | New approval_id terms =>
      let? _ := validate [check_id approval_id "approval_id"; validate_terms terms] in
      let approval := approval_for (facts_of_row request) approval_id (ap_admin_id a) terms (ap_now a) in
      let? after := snapshot_cbor approval in
      Ok ([ insert_approval_stmt approval;
            insert_revision_stmt approval_id 1 (ap_now a) (Some (ap_admin_id a)) RevCreated None after;
            supersede_stmt approval ], approval_id)
  | Reuse approval_id =>
      let? _ := check_id approval_id "approval_id" in
      Ok ([ guard_stmt (reuse_cases approval_id (ap_request_id a) (ap_now a)) ], approval_id)
  end.

Definition approve_request_stmt (a : Approve) (approval_id : string) : stmt :=
  update_where requests update_request
    (λ r, is_ (r_request_id r) (ap_request_id a) && is_ (r_state r) ReqPending)
    (λ r, with_decision ReqApproved (ap_now a) (Some (ap_admin_id a)) (r_decision_reason_code r)
            (r_decision_message r) (Some approval_id)
            (eq_null (r_requested_by_admin_id r) (Some (ap_admin_id a))) r).

(** The listed revocations, each read before the transaction. *)
Fixpoint also_revoke_stmts (host_uuid : string) (now : Z) (rs : list Revoke) (rd : Db) :
    result LedgerError (list stmt) :=
  match rs with
  | [] => Ok []
  | r :: rs =>
      match app_approval (rv_approval_id r) rd with
      | None => Err LedgerNotFound
      | Some current =>
          if negb (is_ (a_host_uuid current) host_uuid) then Err LedgerNotFound else
          let? s := revoke_stmts current r now in
          let? ss := also_revoke_stmts host_uuid now rs rd in
          Ok (s ++ ss)
      end
  end.

(** [decided]. *)
Fixpoint read_all (ids : list string) (d : Db) : result LedgerError (list ApprovalRow) :=
  match ids with
  | [] => Ok []
  | id :: ids =>
      let? a := or_raced (app_approval id d) in
      let? rest := read_all ids d in
      Ok (a :: rest)
  end.
Definition decided (request_id approval_id : string) (revoked_ids : list string) (host_uuid : string)
    (d : Db) : result LedgerError Decided :=
  let? request := or_raced (app_request request_id d) in
  let? approval := or_raced (app_approval approval_id d) in
  let? revoked := read_all revoked_ids d in
  Ok {| dc_request := request; dc_approval := approval;
        dc_same_actor := r_same_actor_approved request; dc_revoked := revoked;
        dc_generation := generation_of host_uuid d |}.

Definition approve_stmts (request : RequestRow) (a : Approve) (rd : Db) :
    result LedgerError (list stmt * string) :=
  let? (choice, approval_id) := choice_stmts request a in
  let? revokes := also_revoke_stmts (r_host_uuid request) (ap_now a) (ap_also_revoke a) rd in
  Ok (guard_stmt (decision_cases (ap_request_id a) (ap_admin_id a) (ap_forbid_self_approval a))
      :: choice ++ [approve_request_stmt a approval_id] ++ revokes
      ++ [bump_generation_stmt (r_host_uuid request) (ap_generation_millis a) (ap_now a)], approval_id).

(** [app_approve_request]. *)
Definition app_approve_request (a : Approve) (rd d : Db) : Db * result LedgerError Decided :=
  match validate ([check_id (ap_request_id a) "request_id"; check_id (ap_admin_id a) "admin_id"]
                  ++ (validate_revoke <$> ap_also_revoke a)) with
  | Err e => (d, Err e)
  | Ok _ =>
      match app_request (ap_request_id a) rd with
      | None => (d, Err LedgerNotFound)
      | Some request =>
          if negb (is_ (r_state request) ReqPending) then (d, Err InvalidState) else
          match approve_stmts request a rd with
          | Err e => (d, Err e)
          | Ok (stmts, approval_id) =>
              commit (ledger_txn stmts d)
                (decided (ap_request_id a) approval_id (rv_approval_id <$> ap_also_revoke a)
                   (r_host_uuid request))
          end
      end
  end.

(** [app_deny_request]. *)
Definition deny_stmts (dn : Deny) : list stmt :=
  [ guard_stmt (decision_cases (dn_request_id dn) (dn_admin_id dn) (dn_forbid_self_approval dn));
    update_where requests update_request
      (λ r, is_ (r_request_id r) (dn_request_id dn) && is_ (r_state r) ReqPending)
      (λ r, with_decision ReqDenied (dn_now dn) (Some (dn_admin_id dn)) (Some (dn_reason_code dn))
              (dn_message dn) (r_resulting_approval_id r) (r_same_actor_approved r) r) ].

Definition app_deny_request (dn : Deny) (d : Db) : Db * result LedgerError RequestRow :=
  match validate [check_id (dn_request_id dn) "request_id"; check_id (dn_admin_id dn) "admin_id";
                  check_len (dn_message dn) 200 "message"] with
  | Err e => (d, Err e)
  | Ok _ => commit (ledger_txn (deny_stmts dn) d) (λ d, or_raced (app_request (dn_request_id dn) d))
  end.

(** [app_register_and_approve]. *)
Definition register_stmts (req : NewRequest) (approval : ApprovalRow) (admin_id : string)
    (generation_millis : Z) : result LedgerError (list stmt) :=
  let now := n_submitted_at req in
  let? after := snapshot_cbor approval in
  Ok [ guard_stmt (λ d, [(exists_row (λ x, is_ (r_host_uuid x) (n_host_uuid req)
           && is_ (r_client_request_id x) (n_client_request_id req)) (requests d), "replayed")]);
       insert_approval_stmt approval;
       insert_revision_stmt (a_approval_id approval) 1 now (Some admin_id) RevCreated None after;
       insert_request_stmt req
         {| as_state := ReqApproved; as_decided_at := Some now; as_decided_by_admin_id := Some admin_id;
            as_resulting_approval_id := Some (a_approval_id approval); as_same_actor := true |};
       supersede_stmt approval;
       bump_generation_stmt (n_host_uuid req) generation_millis now ].

Definition app_register_and_approve (req : NewRequest) (approval_id : string) (terms : ApprovalTerms)
    (generation_millis : Z) (d : Db) : Db * result LedgerError Decided :=
  match validate [validate_request req; check_id approval_id "approval_id"; validate_terms terms] with
  | Err e => (d, Err e)
  | Ok _ =>
      match n_origin req, n_requested_by_admin_id req with
      | AdminDirect, Some admin_id =>
          let approval := approval_for (facts_of_new req) approval_id admin_id terms (n_submitted_at req) in
          match register_stmts req approval admin_id generation_millis with
          | Err e => (d, Err e)
          | Ok stmts =>
              let '(d', r) := ledger_txn stmts d in
              match r with
              | Err e => (d', Err e)
              | Ok Committed => (d', decided (n_request_id req) approval_id [] (n_host_uuid req) d')
              | Ok (Refused c) =>
                  (d', Err (if String.eqb c "replayed" then InvalidState else generic_refusal c))
              end
          end
      | _, _ => (d, Err (Invalid "origin"))
      end
  end.

(** [app_expire_request]. *)
Definition app_expire_request (request_id : string) (now : Z) (d : Db) : Db * result LedgerError bool :=
  execute requests update_request
    (λ r, is_ (r_request_id r) request_id && is_ (r_state r) ReqPending && (r_pending_expires_at r <=? now))
    (λ r, with_decision ReqExpired now (r_decided_by_admin_id r) (r_decision_reason_code r)
            (r_decision_message r) (r_resulting_approval_id r) (r_same_actor_approved r) r) d.
End Ops.
