(* ===== verification/AppImport.v ===== *)
(** Import of the legacy allowlists into the app approval ledger (legacy.rs of
    crates/ferro-raft/src/apps): the ids derived from an entry, the approval an entry becomes
    and the import transaction with its retries. *)
From stdpp Require Import pretty.
From S2P Require Import Prelude AppModel AppSchema AppLedger AppOps Order.
Open Scope Z_scope.

Definition MAX_IMPORT_BATCH : nat := 256.
Definition IMPORT_ATTEMPTS : nat := 3.
Definition LEGACY_BIN_WILDCARD : string := "*".

Record LegacyEntry := { le_uid : option Z; le_bin_sha : string }.
#[export] Instance LegacyEntry_eq_dec : EqDecision LegacyEntry.
Proof. solve_decision. Defined.
(** [LegacyEntry::new]. *)
Definition legacy_entry_new (uid : option Z) (bin_sha : string) : result LedgerError LegacyEntry :=
  if negb (String.eqb bin_sha LEGACY_BIN_WILDCARD) && negb (is_bin_sha bin_sha) then Err (Invalid "bin_sha")
  else Ok {| le_uid := uid; le_bin_sha := bin_sha |}.

Record LegacyImport := { li_created : list ApprovalRow; li_already_imported : nat; li_generation : Z }.
Record ModeRollbackCounts := { approvals_not_reflected : Z; imports_readmitted : Z }.

(** ** Derived ids *)

(** [parts.join("\0")]. *)
Fixpoint join_nul (parts : list string) : list u8 :=
  match parts with
  | [] => []
  | [p] => as_bytes p
  | p :: ps => as_bytes p ++ [Byte.x00] ++ join_nul ps
  end.
Definition nibble_char (z : Z) : Ascii.ascii := Ascii.ascii_of_N (Z.to_N (if z <? 10 then 48 + z else 87 + z)).
Definition hex_lower (bytes : list u8) : string :=
  String.string_of_list_ascii (concat ((λ b, [nibble_char (Z.shiftr (u8.to_Z b) 4); nibble_char (Z.land (u8.to_Z b) 15)]) <$> bytes)).
Definition set_bits (mask bits : Z) (b : u8) : u8 := u8.of_Z (Z.lor (Z.land (u8.to_Z b) mask) bits).

Section ImportOps.
Context (sha256 : list u8 → list u8).
Context (to_cbor : ApprovalSnapshot → result LedgerError (list u8)).

(** A UUIDv8 from the first 16 bytes of the hash. *)
Definition derived_uuid (parts : list string) : string :=
  let b := take 16 (sha256 (join_nul parts)) in
  let b := alter (set_bits 63 128) 8%nat (alter (set_bits 15 128) 6%nat b) in
  let h := hex_lower b in
  String.substring 0 8 h +:+ "-" +:+ String.substring 8 4 h +:+ "-" +:+ String.substring 12 4 h +:+ "-"
    +:+ String.substring 16 4 h +:+ "-" +:+ String.substring 20 12 h.
Definition legacy_lineage_id (host_uuid : string) : string :=
  derived_uuid ["ferrogate-legacy-import-lineage-v1"; host_uuid].
Definition legacy_approval_id (host_uuid : string) (entry : LegacyEntry) : string :=
  let uid := match le_uid entry with None => "any" | Some u => "u" +:+ pretty u end in
  derived_uuid ["ferrogate-legacy-import-v1"; host_uuid; uid; le_bin_sha entry].

Definition legacy_approval (host_uuid : string) (entry : LegacyEntry) (now : Z) : ApprovalRow :=
  {| a_approval_id := legacy_approval_id host_uuid entry; a_host_uuid := host_uuid;
     a_lineage_id := legacy_lineage_id host_uuid; a_bin_sha := le_bin_sha entry; a_revision := None;
     a_source_request_id := None; a_origin := LegacyOrigin; a_parent_approval_id := None;
     a_approved_by_admin_id := None;
     a_user_scope := match le_uid entry with Some _ => ExactUser | None => AnyUser end;
     a_user_kind := None; a_uid := le_uid entry; a_sid := None; a_user_name := None; a_path_match := PathAny;
     a_update_policy := ManualEachTime; a_continuity := Anchored; a_created_at := now; a_expires_at := None;
     a_state := Active; a_superseded_by := None; a_revoked_at := None; a_revoked_by_admin_id := None;
     a_revoke_reason_code := None; a_note := None; a_row_version := 1 |}.

(** ** Reads *)
Definition is_import_of (host_uuid : string) (a : ApprovalRow) : bool :=
  is_ (a_host_uuid a) host_uuid && is_ (a_origin a) LegacyOrigin.
Definition legacy_import_ids (host_uuid : string) (d : Db) : gset string :=
  list_to_set (a_approval_id <$> (rows_where (is_import_of host_uuid) (approvals d)).*2).
Definition app_legacy_imported (host_uuid : string) (entries : list LegacyEntry) (d : Db) : result LedgerError (list bool) :=
  let? _ := check_id host_uuid "host_uuid" in
  let existing := legacy_import_ids host_uuid d in
  Ok ((λ e, bool_decide (legacy_approval_id host_uuid e ∈ existing)) <$> entries).
Definition app_mode_rollback_counts (now : Z) (d : Db) : ModeRollbackCounts :=
  let live a := is_ (a_state a) Active && (is_null (a_expires_at a) || gt_null (a_expires_at a) (Some now)) in
  {| approvals_not_reflected :=
       Z.of_nat (length (rows_where (λ a, negb (is_ (a_origin a) LegacyOrigin) && live a) (approvals d)));
     imports_readmitted := Z.of_nat (length (rows_where (λ a, is_ (a_origin a) LegacyOrigin && negb (live a)) (approvals d))) |}.

(** ** The import *)
Definition valid_entry (e : LegacyEntry) : result LedgerError unit :=
  let? _ := require (String.eqb (le_bin_sha e) LEGACY_BIN_WILDCARD || is_bin_sha (le_bin_sha e)) "bin_sha" in
  require (match le_uid e with Some u => (0 <=? u) && (u <? 2 ^ 32) | None => true end) "uid".
(** One approval per id, ordered by id; the last entry of an id stays. *)
Definition unique_entries (host_uuid : string) (entries : list LegacyEntry) : list (string * LegacyEntry) :=
  sort_by (cmp_by fst str_cmp)
    (map_to_list (foldl (λ m e, <[legacy_approval_id host_uuid e := e]> m) (∅ : gmap string LegacyEntry) entries)).
Definition to_create (host_uuid : string) (entries : list LegacyEntry) (now : Z) (existing : gset string) : list ApprovalRow :=
  omap (λ x : string * LegacyEntry, if bool_decide (x.1 ∈ existing) then None else Some (legacy_approval host_uuid x.2 now))
    (unique_entries host_uuid entries).

(** The three statements of each approval. *)
Fixpoint create_stmts (admin_id : string) (now : Z) (rows : list ApprovalRow) : result LedgerError (list stmt) :=
  match rows with
  | [] => Ok []
  | a :: rows =>
      let? cbor := snapshot_cbor sha256 to_cbor a in
      let? rest := create_stmts admin_id now rows in
      Ok (guard_stmt (λ d, [(exists_row (λ x, is_ (a_approval_id x) (a_approval_id a)) (approvals d), "stale")])
          :: insert_approval_stmt a
          :: insert_revision_stmt (a_approval_id a) 1 now (Some admin_id) RevCreated None cbor :: rest)
  end.
Definition import_stmts (host_uuid : string) (rows : list ApprovalRow) (admin_id : string) (now generation_millis : Z) :
    result LedgerError (list stmt) :=
  let? stmts := create_stmts admin_id now rows in Ok (stmts ++ [bump_generation_stmt host_uuid generation_millis now]).

(** One attempt, with the ids read from [rd]; [None] means try again. *)
Definition import_attempt (host_uuid : string) (entries : list LegacyEntry) (admin_id : string) (now generation_millis : Z)
    (rd d : Db) : Db * option (result LedgerError LegacyImport) :=
  let rows := to_create host_uuid entries now (legacy_import_ids host_uuid rd) in
  let already := (length entries - length rows)%nat in
  match rows with
  | [] => (d, Some (Ok {| li_created := []; li_already_imported := already; li_generation := generation_of host_uuid d |}))
  | _ =>
      match import_stmts host_uuid rows admin_id now generation_millis with
      | Err e => (d, Some (Err e))
      | Ok stmts =>
          let '(d', r) := ledger_txn stmts d in
          (d', match r with
               | Err e => Some (Err e)
               | Ok Committed =>
                   Some (Ok {| li_created := rows; li_already_imported := already; li_generation := generation_of host_uuid d' |})
               | Ok (Refused c) => if String.eqb c "stale" then None else Some (Err (generic_refusal c))
               end)
      end
  end.
(** The retries; [worlds n] are the databases read and written when [n] attempts are left. *)
Fixpoint import_loop (host_uuid : string) (entries : list LegacyEntry) (admin_id : string) (now generation_millis : Z)
    (attempts : nat) (d : Db) (worlds : nat → Db * Db) : Db * result LedgerError LegacyImport :=
  match attempts with
  | O => (d, Err Raced)
  | S n =>
      let '(d', r) := import_attempt host_uuid entries admin_id now generation_millis (worlds n).1 (worlds n).2 in
      match r with
      | Some r => (d', r)
      | None => import_loop host_uuid entries admin_id now generation_millis n d' worlds
      end
  end.
Definition validate_import (host_uuid : string) (entries : list LegacyEntry) (admin_id : string) : result LedgerError unit :=
  let? _ := check_id host_uuid "host_uuid" in
  let? _ := check_id admin_id "admin_id" in
  let? _ := require (length entries <=? MAX_IMPORT_BATCH)%nat "entries" in
  validate (valid_entry <$> entries).
Definition app_import_legacy (host_uuid : string) (entries : list LegacyEntry) (admin_id : string) (now generation_millis : Z)
    (d : Db) (worlds : nat → Db * Db) : Db * result LedgerError LegacyImport :=
  match validate_import host_uuid entries admin_id with
  | Err e => (d, Err e)
  | Ok _ => import_loop host_uuid entries admin_id now generation_millis IMPORT_ATTEMPTS d worlds
  end.
End ImportOps.
