(* ===== verification/AppProofs.v ===== *)
(** Every ledger operation is a sequence of guarded single-row writes, and what its
    statements do to the approvals table. *)
From S2P Require Import Prelude AppModel AppSchema AppInvariants AppLedger AppOps AppImport.
Open Scope Z_scope.

(** ** What statements are made of

    A relation that holds of every write the operations make, on a table other than the
    generations or by one of the three statements on those, holds of every operation. *)
Class StmtClosed (R : relation Db) : Prop := {
  sc_preorder :: PreOrder R;
  sc_write d d' : sql_write d d' → hosts d' = hosts d → R d d';
  sc_bump h m n d d' : bump_generation_stmt h m n d = Ok d' → R d d';
  sc_digest h dg m now x d d' : dg ≠ [] → hosts d !! h = Some x →
    update_host x (with_digest dg m now x) d = Ok d' → R d d';
  sc_cache h body t x d d' : hosts d !! h = Some x →
    update_host x (with_cache body t x) d = Ok d' → R d d' }.

Definition sound (R : relation Db) (s : stmt) : Prop := ∀ d d', s d = Ok d' → R d d'.

#[export] Instance sql_writes_closed : StmtClosed (rtc sql_write).
Proof.
  split.
  - apply _.
  - intros d d' H _. by apply rtc_once.
  - intros h m n d d'. unfold bump_generation_stmt. destruct (hosts d !! h) eqn:E; intros H; apply rtc_once.
    + by eapply w_update_host.
    + by eapply w_insert_host.
  - intros * _ Hx H. apply rtc_once. by eapply w_update_host.
  - intros * Hx H. apply rtc_once. by eapply w_update_host.
Qed.

Section Closed.
Context {R : relation Db} {HR : StmtClosed R}.

Lemma run_sound stmts : Forall (sound R) stmts → sound R (run stmts).
Proof using HR.
  induction 1 as [|s stmts Hs _ IH]; intros d d'; cbn; [intros [= <-]; reflexivity|].
  destruct (s d) as [d1|] eqn:E; [|done]. intros H. etransitivity; [by apply Hs|by apply IH].
Qed.

Lemma guard_sound cases : sound R (guard_stmt cases).
Proof using HR.
  intros d d'. unfold guard_stmt. destruct (case_when _); [done|]. intros [= <-]. reflexivity.
Qed.

Lemma update_where_sound {K A} `{Countable K} (tbl : Db → gmap K A) upd p f :
  (∀ d d' k old new, tbl d !! k = Some old → upd old new d = Ok d' → R d d') →
  sound R (update_where tbl upd p f).
Proof using HR.
  intros Hw d d'. unfold update_where. apply run_sound. apply Forall_fmap, Forall_true.
  intros k d1 d2. cbn. unfold update_row. destruct (tbl d1 !! k) eqn:E.
  - by apply Hw with k.
  - intros [= <-]. reflexivity.
Qed.

Lemma update_approvals_sound p f : sound R (update_where approvals update_approval p f).
Proof using HR.
  apply update_where_sound. intros * Ho H. apply sc_write; [by eapply w_update_approval|].
  by apply update_approval_Ok in H as (-> & _).
Qed.
Lemma update_requests_sound p f : sound R (update_where requests update_request p f).
Proof using HR.
  apply update_where_sound. intros * Ho H. apply sc_write; [by eapply w_update_request|].
  by apply update_request_Ok in H as (-> & _).
Qed.
Lemma update_lineages_sound p f : sound R (update_where lineages update_lineage p f).
Proof using HR.
  apply update_where_sound. intros * Ho H. apply sc_write; [by eapply w_update_lineage|].
  by apply update_lineage_Ok in H as (-> & _).
Qed.

Lemma insert_request_stmt_sound r how : sound R (insert_request_stmt r how).
Proof using HR.
  intros d d' H. apply sc_write; [by eapply w_insert_request|]. by apply insert_request_Ok in H as (-> & _).
Qed.
Lemma insert_revision_stmt_sound i v t c k b a : sound R (insert_revision_stmt i v t c k b a).
Proof using HR.
  intros d d' H. apply sc_write; [by eapply w_insert_revision|]. by apply insert_revision_Ok in H as (-> & _).
Qed.
Lemma insert_approval_sound a : sound R (insert_approval a).
Proof using HR.
  intros d d' H. apply sc_write; [by eapply w_insert_approval|]. by apply insert_approval_Ok in H as (-> & _).
Qed.
Lemma insert_approval_stmt_sound a : sound R (insert_approval_stmt a).
Proof using HR. apply insert_approval_sound. Qed.
Lemma insert_child_stmt_sound i p r t : sound R (insert_child_stmt i p r t).
Proof using HR.
  intros d d'. unfold insert_child_stmt. destruct (approvals d !! p).
  - apply insert_approval_sound.
  - intros [= <-]. reflexivity.
Qed.
Lemma bump_generation_sound h m n : sound R (bump_generation_stmt h m n).
Proof using HR. intros d d'. apply sc_bump. Qed.
End Closed.

#[export] Hint Resolve guard_sound update_approvals_sound update_requests_sound
  update_lineages_sound insert_request_stmt_sound insert_revision_stmt_sound
  insert_approval_stmt_sound insert_child_stmt_sound bump_generation_sound : ledger.
#[export] Hint Extern 0 (StmtClosed _) => apply _ : ledger.
#[export] Hint Extern 1 (sound _ (supersede_stmt _)) => apply update_approvals_sound : ledger.
#[export] Hint Extern 1 (sound _ (approve_request_stmt _ _)) => apply update_requests_sound : ledger.

(** A list of statements is sound when each is. *)
Ltac sound_stmts :=
  repeat match goal with
  | |- Forall (sound _) (_ ++ _) => apply Forall_app; split
  | |- Forall (sound _) (_ :: _) => apply Forall_cons; split
  | |- Forall (sound _) [] => apply Forall_nil; exact I
  | |- Forall (sound _) (if ?b then _ else _) => destruct b
  | |- sound _ _ => solve [auto with ledger]
  end; try done.

Section ClosedOps.
Context {R : relation Db} {HR : StmtClosed R}.

Lemma observe_stmts_sound b : Forall (sound R) (observe_stmts b).
Proof.
  unfold observe_stmts. apply Forall_cons; split; [|apply Forall_cons; split; [|apply Forall_singleton]].
  - intros d d'. cbv zeta. destruct (exists_row _ _); [intros [_ [= <-]]%check_Ok; reflexivity|].
    intros H. apply sc_write; [by eapply w_insert_lineage; [|done]|]. by apply insert_lineage_Ok in H as (-> & _).
  - intros d d'. destruct (app_lineage_by_path _ _ _); [|intros [= <-]; reflexivity].
    destruct (exists_row _ _); [intros [= <-]; reflexivity|].
    intros H. apply sc_write; [by eapply w_insert_binary|]. by apply insert_binary_Ok in H as (-> & _).
  - intros d d' H. by eapply update_lineages_sound.
Qed.

Lemma ledger_txn_sound stmts d : Forall (sound R) stmts → R d (ledger_txn stmts d).1.
Proof.
  intros Hs. unfold ledger_txn. destruct (run stmts d) as [d'|e] eqn:E; cbn; [|reflexivity].
  by apply (run_sound stmts).
Qed.

Lemma commit_fst {A} t (k : Db → result LedgerError A) : (commit t k).1 = t.1.
Proof. unfold commit. by destruct t as [d [[|]|]]. Qed.

Context (sha256 : list u8 → list u8) (to_cbor : ApprovalSnapshot → result LedgerError (list u8)).

Lemma auto_stmts_sound req p id c stmts :
  auto_stmts sha256 to_cbor req p id c = Ok stmts → Forall (sound R) stmts.
Proof.
  unfold auto_stmts. destruct p as [p|].
  - destruct (snapshot_cbor _ _ _); [|done]. intros [= <-]. sound_stmts.
  - intros [= <-]. sound_stmts.
Qed.

Lemma revoke_stmts_sound cur r now stmts :
  revoke_stmts sha256 to_cbor cur r now = Ok stmts → Forall (sound R) stmts.
Proof.
  unfold revoke_stmts. destruct (is_ _ _); [done|]. destruct (match _ with Some _ => _ | None => _ end); [done|].
  destruct (snapshot_cbor _ _ _); [|done]. destruct (snapshot_cbor _ _ _); [|done].
  intros [= <-]. sound_stmts.
Qed.

Lemma edit_stmts_sound cur e t stmts :
  edit_stmts sha256 to_cbor cur e t = Ok stmts → Forall (sound R) stmts.
Proof.
  unfold edit_stmts. destruct (edited cur e t) as [after0 renewal]. destruct (bool_decide _); [done|].
  destruct (snapshot_cbor _ _ _); [|done]. destruct (snapshot_cbor _ _ _); [|done].
  intros [= <-]. sound_stmts.
Qed.

Lemma expire_stmts_sound id cur now m stmts :
  expire_stmts sha256 to_cbor id cur now m = Ok stmts → Forall (sound R) stmts.
Proof.
  unfold expire_stmts. destruct (snapshot_cbor _ _ _); [|done]. destruct (snapshot_cbor _ _ _); [|done].
  intros [= <-]. sound_stmts.
Qed.

Lemma choice_stmts_sound req a stmts id :
  choice_stmts sha256 to_cbor req a = Ok (stmts, id) → Forall (sound R) stmts.
Proof.
  unfold choice_stmts. destruct (ap_choice a).
  - destruct (validate _); [|done]. destruct (snapshot_cbor _ _ _); [|done].
    intros [= <- _]. sound_stmts.
  - destruct (check_id _ _); [|done]. intros [= <- _]. sound_stmts.
Qed.

Lemma also_revoke_sound h now rs rd stmts :
  also_revoke_stmts sha256 to_cbor h now rs rd = Ok stmts → Forall (sound R) stmts.
Proof.
  revert stmts. induction rs as [|r rs IH]; intros stmts; cbn; [by intros [= <-]|].
  destruct (app_approval _ _) as [cur|]; [|done]. destruct (negb _); [done|].
  destruct (revoke_stmts _ _ _ _ _) as [s|] eqn:Es; [|done].
  destruct (also_revoke_stmts _ _ _ _ _ _) as [ss|]; [|done]. intros [= <-].
  apply Forall_app. split; [by eapply revoke_stmts_sound|by apply IH].
Qed.

Lemma approve_stmts_sound req a rd stmts id :
  approve_stmts sha256 to_cbor req a rd = Ok (stmts, id) → Forall (sound R) stmts.
Proof.
  unfold approve_stmts. destruct (choice_stmts _ _ _ _) as [[choice cid]|] eqn:Ec; [|done].
  destruct (also_revoke_stmts _ _ _ _ _ _) as [rs|] eqn:Er; [|done]. intros [= <- _].
  apply choice_stmts_sound in Ec. apply also_revoke_sound in Er. sound_stmts.
Qed.

Lemma register_stmts_sound req a admin m stmts :
  register_stmts sha256 to_cbor req a admin m = Ok stmts → Forall (sound R) stmts.
Proof.
  unfold register_stmts. destruct (snapshot_cbor _ _ _); [|done]. intros [= <-]. sound_stmts.
Qed.

Lemma create_stmts_sound admin now rows stmts :
  create_stmts sha256 to_cbor admin now rows = Ok stmts → Forall (sound R) stmts.
Proof.
  revert stmts. induction rows as [|a rows IH]; intros stmts; cbn; [by intros [= <-]|].
  destruct (snapshot_cbor _ _ _); [|done]. destruct (create_stmts _ _ _ _ _) as [ss|]; [|done].
  intros [= <-]. specialize (IH ss eq_refl). sound_stmts.
Qed.
Lemma import_stmts_sound h rows admin now m stmts :
  import_stmts sha256 to_cbor h rows admin now m = Ok stmts → Forall (sound R) stmts.
Proof.
  unfold import_stmts. destruct (create_stmts _ _ _ _ _) as [ss|] eqn:E; [|done]. intros [= <-].
  apply create_stmts_sound in E. sound_stmts.
Qed.

(** ** Histories

    One step is one operation whose transaction runs on [d]; what it read before ([rd]) may
    be any database. *)
Inductive ledger_step (d : Db) : Db → Prop :=
  | ls_observe b : ledger_step d (app_observe_binary b d).1
  | ls_submit req c : ledger_step d (app_submit_pending req c d).1
  | ls_auto req id c rd : ledger_step d (auto_attempt sha256 to_cbor req id c rd d).1
  | ls_approve a rd : ledger_step d (app_approve_request sha256 to_cbor a rd d).1
  | ls_import h es admin now m rd : ledger_step d (import_attempt sha256 to_cbor h es admin now m rd d).1
  | ls_deny dn : ledger_step d (app_deny_request dn d).1
  | ls_register req id t m : ledger_step d (app_register_and_approve sha256 to_cbor req id t m d).1
  | ls_expire_request id now : ledger_step d (app_expire_request id now d).1
  | ls_revoke r now m rd : ledger_step d (app_revoke_approval sha256 to_cbor r now m rd d).1
  | ls_update e rd : ledger_step d (app_update_approval sha256 to_cbor e rd d).1
  | ls_expire id now m rd : ledger_step d (app_expire_approval sha256 to_cbor id now m rd d).1
  | ls_freeze id frozen : ledger_step d (app_set_lineage_frozen id frozen d).1
  | ls_bump h m now : ledger_step d (app_bump_generation h m now d).1
  | ls_digest h g dg m now : ledger_step d (app_record_compiled_digest h g dg m now d).1
  | ls_cache h g b t : ledger_step d (app_cache_signed_allowlist h g b t d).1.

Lemma execute_sound {K A} `{Countable K} (tbl : Db → gmap K A) upd p f d :
  sound R (update_where tbl upd p f) → R d (execute tbl upd p f d).1.
Proof.
  intros Hs. unfold execute. destruct (update_where _ _ _ _ d) eqn:E; cbn; [by apply Hs|reflexivity].
Qed.

(** A transaction whose outcome only decides the result. *)
Lemma txn_sound {A} stmts d (k : Db → result LedgerError TxnOutcome → A) :
  Forall (sound R) stmts → R d (let '(d', r) := ledger_txn stmts d in (d', k d' r)).1.
Proof.
  intros Hs. pose proof (ledger_txn_sound stmts d Hs) as H. by destruct (ledger_txn stmts d).
Qed.

Lemma commit_sound {A} stmts d (k : Db → result LedgerError A) :
  Forall (sound R) stmts → R d (commit (ledger_txn stmts d) k).1.
Proof. intros Hs. rewrite commit_fst. by apply ledger_txn_sound. Qed.

Lemma observe_sound b d : R d (app_observe_binary b d).1.
Proof.
  unfold app_observe_binary. destruct (validate_binary b); [|reflexivity].
  apply commit_sound, observe_stmts_sound.
Qed.

Lemma submit_sound req c d : R d (app_submit_pending req c d).1.
Proof.
  unfold app_submit_pending. destruct (validate_request req); [|reflexivity].
  pose proof (ledger_txn_sound (submit_stmts req c) d ltac:(unfold submit_stmts; sound_stmts)) as H.
  by destruct (ledger_txn _ d) as [d2 [[|]|]].
Qed.

Lemma auto_sound req id c rd d : R d (auto_attempt sha256 to_cbor req id c rd d).1.
Proof.
  unfold auto_attempt. destruct (auto_stmts _ _ _ _ _ _) as [stmts|] eqn:E; [|reflexivity].
  apply auto_stmts_sound in E. pose proof (ledger_txn_sound stmts d E) as H.
  destruct (ledger_txn _ d) as [d2 [[|code]|]]; [done| |done]. by destruct (String.eqb _ _).
Qed.

Lemma approve_sound a rd d : R d (app_approve_request sha256 to_cbor a rd d).1.
Proof.
  unfold app_approve_request. destruct (validate _); [|reflexivity].
  destruct (app_request _ _) as [req|]; [|reflexivity]. destruct (negb _); [reflexivity|].
  destruct (approve_stmts _ _ _ _ _) as [[stmts aid]|] eqn:E; [|reflexivity].
  by eapply commit_sound, approve_stmts_sound.
Qed.

Lemma import_sound h es admin now m rd d : R d (import_attempt sha256 to_cbor h es admin now m rd d).1.
Proof.
  unfold import_attempt. destruct (to_create _ _ _ _ _); [reflexivity|].
  destruct (import_stmts _ _ _ _ _ _ _) as [stmts|] eqn:E; [|reflexivity].
  apply txn_sound. by eapply import_stmts_sound.
Qed.

Lemma deny_sound dn d : R d (app_deny_request dn d).1.
Proof.
  unfold app_deny_request. destruct (validate _); [|reflexivity].
  apply commit_sound. unfold deny_stmts. sound_stmts.
Qed.

Lemma register_sound req id t m d : R d (app_register_and_approve sha256 to_cbor req id t m d).1.
Proof.
  unfold app_register_and_approve. destruct (validate _); [|reflexivity].
  destruct (n_origin req), (n_requested_by_admin_id req); try reflexivity.
  destruct (register_stmts _ _ _ _ _ _) as [stmts|] eqn:E; [|reflexivity].
  pose proof (ledger_txn_sound stmts d ltac:(by eapply register_stmts_sound)) as H.
  by destruct (ledger_txn _ d) as [d2 [[|]|]].
Qed.

Lemma expire_request_sound id now d : R d (app_expire_request id now d).1.
Proof.
  apply execute_sound, update_requests_sound.
Qed.

Lemma revoke_sound r now m rd d : R d (app_revoke_approval sha256 to_cbor r now m rd d).1.
Proof.
  unfold app_revoke_approval. destruct (validate_revoke r); [|reflexivity].
  destruct (app_approval _ _) as [cur|]; [|reflexivity].
  destruct (revoke_stmts _ _ _ _ _) as [stmts|] eqn:E; [|reflexivity].
  apply commit_sound. apply revoke_stmts_sound in E. sound_stmts.
Qed.

Lemma update_sound e rd d : R d (app_update_approval sha256 to_cbor e rd d).1.
Proof.
  unfold app_update_approval. destruct (validate _); [|reflexivity].
  destruct (app_approval _ _) as [cur|]; [|reflexivity].
  destruct (is_ _ _); [reflexivity|]. destruct (negb _); [reflexivity|].
  destruct (narrow_target cur e rd) as [t|]; [|reflexivity].
  destruct (edit_stmts _ _ _ _ _) as [stmts|] eqn:E; [|reflexivity].
  by eapply commit_sound, edit_stmts_sound.
Qed.

Lemma expire_sound id now m rd d : R d (app_expire_approval sha256 to_cbor id now m rd d).1.
Proof.
  unfold app_expire_approval. destruct (app_approval _ _) as [cur|]; [|reflexivity].
  destruct (_ || _); [reflexivity|].
  destruct (expire_stmts _ _ _ _ _ _) as [stmts|] eqn:E; [|reflexivity].
  apply txn_sound. by eapply expire_stmts_sound.
Qed.

Lemma freeze_sound id frozen d : R d (app_set_lineage_frozen id frozen d).1.
Proof.
  apply execute_sound, update_lineages_sound.
Qed.

Lemma bump_sound h m now d : R d (app_bump_generation h m now d).1.
Proof.
  unfold app_bump_generation. destruct (check_id _ _); [|reflexivity].
  apply commit_sound. sound_stmts.
Qed.

Lemma digest_sound h g dg m now d : R d (app_record_compiled_digest h g dg m now d).1.
Proof.
  unfold app_record_compiled_digest. destruct dg; [reflexivity|].
  destruct (_ <=? _); [reflexivity|]. destruct (hosts d !! h) as [x|] eqn:Eh; [|reflexivity].
  destruct (_ =? _); [|reflexivity]. destruct (update_host _ _ _) eqn:E; [|reflexivity].
  by eapply sc_digest; [|done..].
Qed.

Lemma cache_sound h g b t d : R d (app_cache_signed_allowlist h g b t d).1.
Proof.
  unfold app_cache_signed_allowlist. destruct (_ <=? _); [reflexivity|].
  destruct (hosts d !! h) as [x|] eqn:Eh; [|reflexivity].
  destruct (_ && _); [|reflexivity]. destruct (update_host _ _ _) eqn:E; [|reflexivity].
  by eapply sc_cache.
Qed.

Lemma ledger_step_closed d d' : ledger_step d d' → R d d'.
Proof.
  intros []; first [apply observe_sound | apply submit_sound | apply auto_sound | apply approve_sound
    | apply deny_sound | apply register_sound | apply expire_request_sound | apply revoke_sound
    | apply update_sound | apply expire_sound | apply freeze_sound | apply bump_sound
    | apply digest_sound | apply cache_sound | apply import_sound].
Qed.

Lemma ledger_steps_closed d d' : rtc ledger_step d d' → R d d'.
Proof.
  induction 1 as [|d d1 d2 H _ IH]; [reflexivity|]. etransitivity; [by apply ledger_step_closed|done].
Qed.
End ClosedOps.

Lemma ledger_steps_sound sha256 to_cbor d d' : rtc (ledger_step sha256 to_cbor) d d' → rtc sql_write d d'.
Proof. apply ledger_steps_closed. Qed.

(** ** What statements leave alone *)
Definition keeps {A} (π : Db → A) (s : stmt) : Prop :=
  ∀ d d', db_keyed d → s d = Ok d' → π d' = π d.

Lemma run_keeps {A} (π : Db → A) stmts :
  Forall (sound (rtc sql_write)) stmts → Forall (keeps π) stmts → keeps π (run stmts).
Proof.
  induction stmts as [|s stmts IH]; intros Hs Hf d d' Hk; cbn; [by intros [= <-]|].
  apply Forall_cons in Hs as [Hs Hss], Hf as [Hf Hfs].
  destruct (s d) as [d1|] eqn:E; [|done]. intros H. rewrite <- (Hf d d1 Hk E).
  apply (IH Hss Hfs); [|done]. eapply sql_writes_keyed; [by apply Hs|done].
Qed.

Lemma guard_keeps {A} (π : Db → A) cases : keeps π (guard_stmt cases).
Proof.
  intros d d' _. unfold guard_stmt. destruct (case_when _); [done|]. by intros [= <-].
Qed.
Lemma insert_request_keeps {A} (π : Db → A) r how :
  (∀ f d, π (set_requests f d) = π d) → keeps π (insert_request_stmt r how).
Proof. intros Hπ d d' _ (-> & _)%insert_request_Ok. apply Hπ. Qed.
Lemma insert_revision_keeps {A} (π : Db → A) i v t c k b a :
  (∀ f d, π (set_revisions f d) = π d) → keeps π (insert_revision_stmt i v t c k b a).
Proof. intros Hπ d d' _ (-> & _)%insert_revision_Ok. apply Hπ. Qed.
Lemma bump_generation_keeps {A} (π : Db → A) h m n :
  (∀ f d, π (set_hosts f d) = π d) → keeps π (bump_generation_stmt h m n).
Proof.
  intros Hπ d d' _. unfold bump_generation_stmt. destruct (hosts d !! h).
  - intros (-> & _)%update_host_Ok. apply Hπ.
  - intros (-> & _)%insert_host_Ok. apply Hπ.
Qed.
Lemma insert_approval_keeps {A} (π : Db → A) a :
  (∀ f d, π (set_approvals f d) = π d) → keeps π (insert_approval a).
Proof. intros Hπ d d' _ (-> & _)%insert_approval_Ok. apply Hπ. Qed.

(** An update keeps what no single write of its table changes. *)
Lemma update_where_keeps {K A B} `{Countable K} (π : Db → B) (tbl : Db → gmap K A) upd p f :
  (∀ d d' old new, upd old new d = Ok d' → π d' = π d) → keeps π (update_where tbl upd p f).
Proof.
  intros Hu d d' _. unfold update_where. generalize (rows_where p (tbl d)).*1. intros ks. revert d.
  induction ks as [|k ks IH]; intros d; cbn; [by intros [= <-]|].
  destruct (update_row _ _ _ _ d) as [d1|] eqn:E; [|done]. intros Hr. rewrite (IH d1 Hr).
  unfold update_row in E. destruct (tbl d !! k); [by eapply Hu|by injection E as <-].
Qed.
Lemma update_requests_keeps {A} (π : Db → A) p f :
  (∀ g d, π (set_requests g d) = π d) → keeps π (update_where requests update_request p f).
Proof. intros Hπ. apply update_where_keeps. intros d d' old new (-> & _)%update_request_Ok. apply Hπ. Qed.
Lemma update_approvals_keeps {A} (π : Db → A) p f :
  (∀ g d, π (set_approvals g d) = π d) → keeps π (update_where approvals update_approval p f).
Proof. intros Hπ. apply update_where_keeps. intros d d' old new (-> & _)%update_approval_Ok. apply Hπ. Qed.
Lemma update_lineages_keeps {A} (π : Db → A) p f :
  (∀ g d, π (set_lineages g d) = π d) → keeps π (update_where lineages update_lineage p f).
Proof. intros Hπ. apply update_where_keeps. intros d d' old new (-> & _)%update_lineage_Ok. apply Hπ. Qed.

(** An update of the approvals keeps a row its condition does not hold of. *)
Lemma update_approvals_keeps_row id p f :
  (∀ d x, db_keyed d → approvals d !! id = Some x → p x = false) →
  keeps (λ d, approvals d !! id) (update_where approvals update_approval p f).
Proof.
  intros Hp d d' Hk. unfold update_where. apply (run_keeps (λ d, approvals d !! id)); [| |done].
  - apply Forall_fmap, Forall_true. intros k d1 d2. cbn. unfold update_row.
    destruct (approvals d1 !! k) eqn:E; [|intros [= <-]; apply rtc_refl].
    intros H. apply rtc_once. by eapply w_update_approval.
  - apply Forall_fmap, Forall_forall. intros k Hin d1 d2 Hk1. cbn. unfold update_row.
    destruct (approvals d1 !! k) as [x|] eqn:E; [|by intros [= <-]].
    intros (-> & _)%update_approval_Ok. rewrite (keyed_approval d1 Hk1 _ _ E). cbn.
    apply lookup_insert_ne. intros ->. apply list_elem_of_fmap in Hin as ([k' y] & E' & Hin). cbn in E'.
    unfold rows_where in Hin. apply list_elem_of_In, filter_In in Hin as [Hin Hpx].
    apply list_elem_of_In, elem_of_map_to_list in Hin. subst k'. cbn in Hpx. rewrite (Hp d y Hk Hin) in Hpx. done.
Qed.

#[export] Hint Resolve guard_keeps insert_request_keeps insert_revision_keeps bump_generation_keeps
  insert_approval_keeps update_requests_keeps update_approvals_keeps update_lineages_keeps : ledger.
#[export] Hint Extern 1 (_ = _) => reflexivity : ledger.
#[export] Hint Extern 1 (keeps _ (insert_approval_stmt _)) => apply insert_approval_keeps : ledger.
#[export] Hint Extern 1 (keeps _ (supersede_stmt _)) => apply update_approvals_keeps : ledger.
#[export] Hint Extern 1 (keeps _ (approve_request_stmt _ _)) => apply update_requests_keeps : ledger.

(** ** What statements do to the approvals table *)

(** [x'] is [x] up to the informational [superseded_by] mark. *)
Definition marked (x x' : ApprovalRow) : Prop := x' = x ∨ ∃ n, x' = with_superseded_by n x.

#[export] Instance marked_preorder : PreOrder marked.
Proof.
  split; [by left|]. intros x y z [->|[n ->]] [->|[m ->]]; unfold marked; [by left|by eauto|by eauto|].
  right. by exists m.
Qed.

(** Outside [altered] the approvals of [d] are kept up to marks, and no approval appears
    outside [added]. *)
Record approvals_frame (altered added : gset string) (d d' : Db) : Prop := {
  af_kept id x : id ∉ altered → approvals d !! id = Some x →
    ∃ x', approvals d' !! id = Some x' ∧ marked x x';
  af_added id x : approvals d' !! id = Some x → id ∈ added ∨ is_Some (approvals d !! id) }.

Definition frames (altered added : gset string) (s : stmt) : Prop :=
  ∀ d d', db_keyed d → s d = Ok d' → approvals_frame altered added d d'.

Lemma frame_same A B d d' : approvals d' = approvals d → approvals_frame A B d d'.
Proof. intros E. split; rewrite E; [|by eauto]. intros id x _ Hx. exists x. by split; [|left]. Qed.

Lemma frame_trans A B d1 d2 d3 :
  approvals_frame A B d1 d2 → approvals_frame A B d2 d3 → approvals_frame A B d1 d3.
Proof.
  intros [K1 N1] [K2 N2]. split.
  - intros id x Hid Hx. destruct (K1 id x Hid Hx) as (y & Hy & Hxy).
    destruct (K2 id y Hid Hy) as (z & Hz & Hyz). exists z. split; [done|]. by etransitivity.
  - intros id x Hx. destruct (N2 id x Hx) as [|[y Hy]]; [by left|]. by eapply N1.
Qed.

Lemma frames_mono A B A' B' s : A ⊆ A' → B ⊆ B' → frames A B s → frames A' B' s.
Proof.
  intros HA HB Hs d d' Hk E. destruct (Hs d d' Hk E) as [K N]. split.
  - intros id x Hid. apply K. set_solver.
  - intros id x Hx. destruct (N id x Hx); [left; set_solver|by right].
Qed.

Lemma run_frames A B stmts :
  Forall (sound (rtc sql_write)) stmts → Forall (frames A B) stmts → frames A B (run stmts).
Proof.
  induction stmts as [|s stmts IH]; intros Hs Hf d d' Hk; cbn; [intros [= <-]; by apply frame_same|].
  apply Forall_cons in Hs as [Hs Hss], Hf as [Hf Hfs].
  destruct (s d) as [d1|] eqn:E; [|done]. intros H.
  eapply frame_trans; [by apply Hf|]. eapply (IH Hss Hfs); [|done].
  eapply sql_writes_keyed; [by apply Hs|done].
Qed.

Lemma guard_frames A B cases : frames A B (guard_stmt cases).
Proof.
  intros d d' _. unfold guard_stmt. destruct (case_when _); [done|]. intros [= <-]. by apply frame_same.
Qed.
Lemma insert_request_frames A B r how : frames A B (insert_request_stmt r how).
Proof. intros d d' _ (-> & _)%insert_request_Ok. by apply frame_same. Qed.
Lemma insert_revision_frames A B i v t c k b a : frames A B (insert_revision_stmt i v t c k b a).
Proof. intros d d' _ (-> & _)%insert_revision_Ok. by apply frame_same. Qed.
Lemma bump_generation_frames A B h m n : frames A B (bump_generation_stmt h m n).
Proof.
  intros d d' _. unfold bump_generation_stmt. destruct (hosts d !! h).
  - intros (-> & _)%update_host_Ok. by apply frame_same.
  - intros (-> & _)%insert_host_Ok. by apply frame_same.
Qed.

Lemma update_requests_frames A B p f : frames A B (update_where requests update_request p f).
Proof. intros d d' Hk H. by apply frame_same, (update_requests_keeps approvals p f ltac:(done) d). Qed.

Lemma insert_frame A x d : approvals_frame A {[a_approval_id x]} d (set_approvals <[a_approval_id x := x]> d) ∨ is_Some (approvals d !! a_approval_id x).
Proof.
  destruct (approvals d !! a_approval_id x) eqn:E; [by right; eexists|left]. split; cbn.
  - intros id y _ Hy. exists y. rewrite lookup_insert_ne by congruence. by split; [|left].
  - intros id y [[<- _]|[_ Hy]]%lookup_insert_Some; [left; set_solver|by right; eexists].
Qed.
Lemma insert_approval_frames A x : frames A {[a_approval_id x]} (insert_approval x).
Proof.
  intros d d' _ (-> & _ & _ & _ & _ & _ & Hn & _)%insert_approval_Ok.
  destruct (insert_frame A x d) as [|[? ?]]; [done|congruence].
Qed.
Lemma insert_approval_stmt_frames A x : frames A {[a_approval_id x]} (insert_approval_stmt x).
Proof. apply (insert_approval_frames A {| a_approval_id := a_approval_id x |}). Qed.
Lemma insert_child_frames A id p r t : frames A {[id]} (insert_child_stmt id p r t).
Proof.
  intros d d' Hk. unfold insert_child_stmt. destruct (approvals d !! p) as [x|]; [|intros [= <-]; by apply frame_same].
  apply (insert_approval_frames A (child_of x id r t)). done.
Qed.

(** One updated approval row. *)
Lemma update_row_frames A B f k : (k ∈ A ∨ ∃ n, f = with_superseded_by n) →
  frames A B (update_row approvals update_approval f k).
Proof.
  intros Hf d d' Hk. unfold update_row. destruct (approvals d !! k) as [old|] eqn:E; [|intros [= <-]; by apply frame_same].
  intros (-> & _)%update_approval_Ok. rewrite (keyed_approval d Hk _ _ E). split; cbn.
  - intros id x Hid Hx. destruct (decide (k = id)) as [<-|Hne].
    + rewrite lookup_insert_eq. eexists. split; [done|]. destruct Hf as [?|[n ->]]; [done|].
      right. exists n. congruence.
    + rewrite lookup_insert_ne by done. exists x. by split; [|left].
  - intros id x [[<- _]|[_ Hx]]%lookup_insert_Some; right; by eexists.
Qed.

Lemma update_approvals_frames A B p f :
  (∀ d k x, db_keyed d → approvals d !! k = Some x → p x = true → k ∈ A) ∨ (∃ n, f = with_superseded_by n) →
  frames A B (update_where approvals update_approval p f).
Proof.
  intros Hp d d' Hk. unfold update_where. apply (run_frames A B); [| |done].
  - apply Forall_fmap, Forall_true. intros k d1 d2. cbn. unfold update_row.
    destruct (approvals d1 !! k) eqn:E; [|intros [= <-]; apply rtc_refl].
    intros H. apply rtc_once. by eapply w_update_approval.
  - apply Forall_fmap, Forall_forall. intros k Hin. cbn. apply update_row_frames.
    destruct Hp as [Hp|Hp]; [left|by right].
    apply list_elem_of_fmap in Hin as ([k' x] & -> & Hin). cbn.
    unfold rows_where in Hin. apply list_elem_of_In, filter_In in Hin as [Hin Hpx].
    apply list_elem_of_In, elem_of_map_to_list in Hin. by eapply Hp.
Qed.

Lemma supersede_frames A B a : frames A B (supersede_stmt a).
Proof. apply update_approvals_frames. right. by eexists. Qed.

#[export] Hint Resolve guard_frames insert_request_frames insert_revision_frames
  bump_generation_frames update_requests_frames supersede_frames : ledger.

Lemma ledger_txn_frame A B stmts d : db_keyed d → Forall (sound (rtc sql_write)) stmts → Forall (frames A B) stmts →
  approvals_frame A B d (ledger_txn stmts d).1.
Proof.
  intros Hk Hs Hf. unfold ledger_txn. destruct (run stmts d) eqn:E; [|by apply frame_same].
  by eapply (run_frames A B stmts).
Qed.

Section OpFrames.
Context (sha256 : list u8 → list u8) (to_cbor : ApprovalSnapshot → result LedgerError (list u8)).

Lemma auto_stmts_frames req p id c stmts :
  auto_stmts sha256 to_cbor req p id c = Ok stmts → Forall (frames ∅ {[id]}) stmts.
Proof.
  unfold auto_stmts. destruct p as [p|].
  - destruct (snapshot_cbor _ _ _); [|done]. intros [= <-].
    repeat (apply Forall_cons; split); try solve [auto with ledger]; try by apply Forall_nil.
    + apply insert_child_frames.
    + apply update_approvals_frames. right. by eexists.
  - intros [= <-]. apply Forall_singleton. auto with ledger.
Qed.

(** The statements of a revocation alter the approval it names only. *)
Lemma revoke_stmts_frames B cur r now stmts :
  revoke_stmts sha256 to_cbor cur r now = Ok stmts → Forall (frames {[a_approval_id cur]} B) stmts.
Proof.
  unfold revoke_stmts. destruct (is_ _ _); [done|]. destruct (match _ with Some _ => _ | None => _ end); [done|].
  destruct (snapshot_cbor _ _ _); [|done]. destruct (snapshot_cbor _ _ _); [|done]. intros [= <-].
  repeat (apply Forall_cons; split); try solve [auto with ledger]; try by apply Forall_nil.
  apply update_approvals_frames. left. intros d k x Hk Hx Hp. sql_facts.
  rewrite <- (keyed_approval d Hk _ _ Hx). set_solver.
Qed.

Lemma also_revoke_frames B h now rs rd stmts : db_keyed rd →
  also_revoke_stmts sha256 to_cbor h now rs rd = Ok stmts →
  Forall (frames (list_to_set (rv_approval_id <$> rs)) B) stmts.
Proof.
  intros Hk. revert stmts. induction rs as [|r rs IH]; intros stmts; cbn; [by intros [= <-]|].
  destruct (app_approval _ _) as [cur|] eqn:Ec; [|done]. destruct (negb _); [done|].
  destruct (revoke_stmts _ _ _ _ _) as [s|] eqn:Es; [|done].
  destruct (also_revoke_stmts _ _ _ _ _ _) as [ss|]; [|done]. intros [= <-].
  specialize (IH ss eq_refl). apply (revoke_stmts_frames B) in Es.
  rewrite (keyed_approval rd Hk _ _ Ec) in Es.
  apply Forall_app. split; (eapply Forall_impl; [done|]); intros x; apply frames_mono; set_solver.
Qed.

(** The approval a decision creates, if it creates one. *)
Definition new_ids (a : Approve) : gset string :=
  match ap_choice a with New id _ => {[id]} | Reuse _ => ∅ end.

Lemma approve_stmts_frames req a rd stmts id : db_keyed rd →
  approve_stmts sha256 to_cbor req a rd = Ok (stmts, id) →
  Forall (frames (list_to_set (rv_approval_id <$> ap_also_revoke a)) (new_ids a)) stmts.
Proof.
  intros Hk. unfold approve_stmts, new_ids. destruct (choice_stmts _ _ _ _) as [[choice cid]|] eqn:Ec; [|done].
  destruct (also_revoke_stmts _ _ _ _ _ _) as [rs|] eqn:Er; [|done]. intros [= <- _].
  apply Forall_cons. split; [auto with ledger|]. apply Forall_app. split.
  - unfold choice_stmts in Ec. destruct (ap_choice a) as [nid terms|rid].
    + destruct (validate _); [|done]. destruct (snapshot_cbor _ _ _); [|done]. injection Ec as <- _.
      repeat (apply Forall_cons; split); try solve [auto with ledger]; try by apply Forall_nil.
      apply (insert_approval_stmt_frames _ (approval_for (facts_of_row req) nid _ _ _)).
    + destruct (check_id _ _); [|done]. injection Ec as <- _. apply Forall_singleton. auto with ledger.
  - apply Forall_cons. split; [apply update_requests_frames|].
    apply Forall_app. split; [by eapply also_revoke_frames|]. apply Forall_singleton. auto with ledger.
Qed.
End OpFrames.
