(* ===== verification/AppSample.v ===== *)
(** A concrete history of the ledger: two binaries of one path are observed, the first is
    requested and approved by an administrator with an auto-update policy, the second is
    auto-approved under it and then revoked, and a third request is denied; then some
    branches of it. *)
From S2P Require Import Prelude AppModel AppSchema AppInvariants AppLedger AppOps AppProofs.
Open Scope Z_scope.

Definition sample_sha (a : Ascii.ascii) : string :=
  String.string_of_list_ascii (replicate 96 a).
Definition sha_a : string := sample_sha (Ascii.ascii_of_nat 97).
Definition sha_b : string := sample_sha (Ascii.ascii_of_nat 98).
Definition sha_c : string := sample_sha (Ascii.ascii_of_nat 99).

(** SHA-256 and CBOR as plain functions. *)
Definition toy_sha256 (l : list u8) : list u8 :=
  replicate 31 Byte.x00 ++ [u8.of_Z (foldr (λ b n, u8.to_Z b + n * 3) 7 l)].
Definition toy_cbor (s : ApprovalSnapshot) : result LedgerError (list u8) :=
  Ok [u8.of_Z (s_state s); u8.of_Z (s_user_scope s)].

Definition alice : UserIdentity :=
  {| kind := Unix; uid := Some 1000; sid := None; user_name := Some "alice" |}.

Definition sample_binary (sha : string) (at_ : Z) : ObservedBinary :=
  {| o_host_uuid := "h1"; o_platform := 1; o_canonical_path := "/opt/tool";
     o_path_key := as_bytes "/opt/tool"; o_new_lineage_id := "lin1"; o_bin_sha := sha;
     o_file_size := 100; o_format := 1; o_declared_version := None; o_version_source := 0;
     o_product_name := None; o_bundle_id := None; o_package_name := None; o_signer_kind := 0;
     o_signer_id := None; o_signer_subject := None; o_signer_valid := false; o_seen_at := at_ |}.

Definition sample_request (id sha : string) (revision at_ : Z) : NewRequest :=
  {| n_request_id := id; n_host_uuid := "h1"; n_client_request_id := "c-" +:+ id;
     n_lineage_id := "lin1"; n_bin_sha := sha; n_revision := revision;
     n_origin := SelfRegistration; n_target := alice; n_requester_uid := Some 1000;
     n_requester_user_name := Some "alice"; n_requested_by_admin_id := None; n_reason := None;
     n_flags := 0; n_host_tier := "tpm"; n_proposer_spiffe_id := "spiffe://x";
     n_dedup_key := toy_sha256 (dedup_input "h1" (as_bytes "/opt/tool") alice sha);
     n_submitted_at := at_; n_pending_expires_at := at_ + 1000; n_auto_downgrade_reason := None |}.

Definition sample_terms : ApprovalTerms :=
  {| t_user_scope := ExactUser; t_path_match := PathExact; t_update_policy := AutoSamePathUser;
     t_continuity := PathUserOnly; t_expires_at := Some 9000; t_note := None |}.
Definition sample_approve : Approve :=
  {| ap_request_id := "r1"; ap_admin_id := "adm"; ap_now := 20;
     ap_choice := New "ap1" sample_terms; ap_forbid_self_approval := true; ap_also_revoke := [];
     ap_generation_millis := 20000 |}.
Definition sample_auto : AutoChecks :=
  {| ac_now := 40; ac_denied_cooldown_since := None; ac_max_per_day := 5; ac_generation_millis := 40000 |}.
Definition sample_revoke : Revoke :=
  {| rv_approval_id := "ap2"; rv_admin_id := "adm"; rv_reason_code := 7; rv_expected_row_version := None |}.
Definition sample_deny : Deny :=
  {| dn_request_id := "r3"; dn_admin_id := "adm"; dn_now := 80; dn_reason_code := 2;
     dn_message := None; dn_forbid_self_approval := false |}.

Definition d_observed : Db := (app_observe_binary (sample_binary sha_a 1) empty_db).1.
Definition d_pending : Db :=
  (app_submit_pending (sample_request "r1" sha_a 1 10)
     {| ic_now := 10; ic_denied_cooldown_since := None |} d_observed).1.
Definition d_approved : Db := (app_approve_request toy_sha256 toy_cbor sample_approve d_pending d_pending).1.
Definition d_observed2 : Db := (app_observe_binary (sample_binary sha_b 30) d_approved).1.
Definition d_auto : Db :=
  (auto_attempt toy_sha256 toy_cbor (sample_request "r2" sha_b 2 40) "ap2" sample_auto d_observed2 d_observed2).1.
Definition d_revoked : Db := (app_revoke_approval toy_sha256 toy_cbor sample_revoke 50 50000 d_auto d_auto).1.
Definition d_observed3 : Db := (app_observe_binary (sample_binary sha_c 60) d_revoked).1.
Definition d_pending3 : Db :=
  (app_submit_pending (sample_request "r3" sha_c 3 70)
     {| ic_now := 70; ic_denied_cooldown_since := Some 0 |} d_observed3).1.
Definition d_denied : Db := (app_deny_request sample_deny d_pending3).1.

(** The administrator approves the revoked hash again, by hand. *)
Definition sample_direct : NewRequest :=
  {| n_request_id := "r4"; n_host_uuid := "h1"; n_client_request_id := "c-r4";
     n_lineage_id := "lin1"; n_bin_sha := sha_b; n_revision := 2;
     n_origin := AdminDirect; n_target := alice; n_requester_uid := None;
     n_requester_user_name := None; n_requested_by_admin_id := Some "adm"; n_reason := None;
     n_flags := 0; n_host_tier := "tpm"; n_proposer_spiffe_id := "spiffe://x";
     n_dedup_key := toy_sha256 (dedup_input "h1" (as_bytes "/opt/tool") alice sha_b);
     n_submitted_at := 90; n_pending_expires_at := 1090; n_auto_downgrade_reason := None |}.
Definition d_readmitted : Db :=
  (app_register_and_approve toy_sha256 toy_cbor sample_direct "ap4" sample_terms 90000 d_denied).1.

(** The allowlist of the first generation is compiled and cached. *)
Definition d_compiled : Db := (app_record_compiled_digest "h1" 20000 [Byte.x07] 21000 21 d_approved).1.
Definition d_cached : Db := (app_cache_signed_allowlist "h1" 20000 [Byte.x08] 22 d_compiled).1.

(** An administrator files a request and tries to decide it. *)
Definition d_own : Db :=
  (app_submit_pending sample_direct {| ic_now := 90; ic_denied_cooldown_since := None |} d_revoked).1.
Definition own_approve : Approve :=
  {| ap_request_id := "r4"; ap_admin_id := "adm"; ap_now := 95;
     ap_choice := New "ap5" sample_terms; ap_forbid_self_approval := true; ap_also_revoke := [];
     ap_generation_millis := 95000 |}.
Definition own_deny : Deny :=
  {| dn_request_id := "r4"; dn_admin_id := "adm"; dn_now := 95; dn_reason_code := 1;
     dn_message := None; dn_forbid_self_approval := true |}.
