(* ===== verification/AppTheorems.v ===== *)
(** The guarantees of the app approval ledger.  The first group holds of every database
    reached by writes the schema accepts, so of every history of ledger operations
    ([ledger_steps_sound]); the second says what each operation does. *)
From S2P Require Import Prelude AppModel AppSchema AppInvariants AppLedger AppOps AppProofs.
Open Scope Z_scope.

(** ** What the schema guarantees *)
Definition reachable_db (d : Db) : Prop := rtc sql_write empty_db d.

Lemma reachable_ledger_inv d : reachable_db d → ledger_inv d.
Proof. intros H. eapply sql_writes_inv; [done|apply empty_inv]. Qed.

Lemma reachable_evolves d d' : reachable_db d → rtc sql_write d d' → db_evolves d d'.
Proof. intros H. by apply sql_writes_evolve, inv_keyed, reachable_ledger_inv. Qed.

(** C14: once an approval is REVOKED it stays so whatever is written later: its policy, its
    version and its supersession mark never change again, and its user changes only to a
    pseudonym. *)
Theorem revoked_is_final d d' id a :
  reachable_db d → rtc sql_write d d' → approvals d !! id = Some a → a_state a = Revoked →
  ∃ a', approvals d' !! id = Some a' ∧ approval_identity a' = approval_identity a ∧
    a_row_version a' = a_row_version a ∧ policy_view a' = policy_view a ∧
    a_superseded_by a' = a_superseded_by a ∧ pseudonymised a a'.
Proof.
  intros Hr Hw Ha Hs. destruct (de_approvals _ _ (reachable_evolves d d' Hr Hw) id a Ha) as (a' & Ha' & He).
  exists a'. split; [done|]. split; [apply He|]. by apply (ae_revoked _ _ He).
Qed.

(** an approval is never deleted or replaced: what it authorizes (host, lineage, hash,
    revision, origin, approver) never changes, its user and path scope only narrow, and
    two reads at the same [row_version] see the same policy. *)
Theorem approval_never_replaced d d' id a :
  reachable_db d → rtc sql_write d d' → approvals d !! id = Some a →
  ∃ a', approvals d' !! id = Some a' ∧ approval_identity a' = approval_identity a ∧
    (a_user_scope a = ExactUser → a_user_scope a' = ExactUser) ∧
    (a_path_match a = PathExact → a_path_match a' = PathExact) ∧
    (a_user_scope a = ExactUser → a_state a' ≠ Revoked →
      (a_user_kind a', a_uid a', a_sid a', a_user_name a')
      = (a_user_kind a, a_uid a, a_sid a, a_user_name a)) ∧
    a_row_version a ≤ a_row_version a' ∧
    (a_row_version a' = a_row_version a → policy_view a' = policy_view a).
Proof.
  intros Hr Hw Ha. destruct (de_approvals _ _ (reachable_evolves d d' Hr Hw) id a Ha) as (a' & Ha' & []).
  exists a'. repeat split; auto.
Qed.

(** a request is decided once: it is never deleted, its columns never change, a PENDING
    one becomes APPROVED, DENIED or EXPIRED, and a decision is final. *)
Theorem request_decided_once d d' id r :
  reachable_db d → rtc sql_write d d' → requests d !! id = Some r →
  ∃ r', requests d' !! id = Some r' ∧ request_identity r' = request_identity r ∧
    (r_state r ≠ ReqPending → decision r' = decision r) ∧
    (r_state r = ReqPending → r' = r ∨ r_state r' ∈ [ReqApproved; ReqDenied; ReqExpired]).
Proof.
  intros Hr Hw Ha. destruct (de_requests _ _ (reachable_evolves d d' Hr Hw) id r Ha) as (r' & Hr' & []).
  exists r'. auto.
Qed.

(** The hash was revoked or denied in the lineage, and stays so. *)
Definition tainted (d : Db) (lid sha : string) : Prop :=
  hash_revoked d lid sha = true ∨ hash_denied d lid sha = true.

Lemma tainted_evolves d d' lid sha : db_evolves d d' → tainted d lid sha → tainted d' lid sha.
Proof.
  intros He [H|H]; [left|right]; apply exists_row_true in H as (k & x & Hk & Hx); sql_facts;
    apply exists_row_true.
  - destruct (de_approvals _ _ He _ _ Hk) as (x' & Hk' & Hev). exists k, x'. split; [done|].
    pose proof (ae_revoked _ _ Hev ltac:(assumption)) as (_ & Hp & _).
    apply ae_identity, approval_identity_cols in Hev as (_ & _ & E1 & E2 & _).
    unfold policy_view in Hp. injection Hp as E3 _.
    rewrite E1, E2. unfold is_. rewrite !bool_decide_eq_true_2 by congruence. done.
  - destruct (de_requests _ _ He _ _ Hk) as (x' & Hk' & Hev). exists k, x'. split; [done|].
    pose proof (re_terminal _ _ Hev ltac:(congruence)) as Hp.
    apply re_identity, request_identity_cols in Hev as (_ & _ & E1 & E2 & _).
    unfold decision in Hp. injection Hp as E3 _.
    rewrite E1, E2. unfold is_. rewrite !bool_decide_eq_true_2 by congruence. done.
Qed.

(** An approval appears by the one insert that checks it. *)
Lemma sql_write_new_approval d d' key x : db_keyed d → sql_write d d' →
  approvals d !! key = None → approvals d' !! key = Some x → insert_approval x d = Ok d' ∧ a_approval_id x = key.
Proof.
  intros Hk Hw Hnone Hx. write_cases Hw; try (write_facts; cbn in Hx; congruence).
  - pose proof W as W'. write_facts. cbn in Hx.
    apply lookup_insert_Some in Hx as [[Ek <-]|[_ ?]]; [by split|congruence].
  - pose proof (keyed_approval d Hk _ _ Ho) as E. write_facts. cbn in Hx.
    apply lookup_insert_Some in Hx as [[? _]|[_ ?]]; congruence.
Qed.

(** One write does not add an auto-update approval of a tainted hash. *)
Lemma sql_write_tainted d d' key x : db_keyed d → sql_write d d' →
  tainted d (a_lineage_id x) (a_bin_sha x) → approvals d !! key = None → approvals d' !! key = Some x →
  a_origin x ≠ AutoUpdate.
Proof.
  intros Hk Hw HT Hnone Hx Ho. destruct (sql_write_new_approval d d' key x Hk Hw Hnone Hx) as [W _].
  apply insert_approval_Ok in W as (_ & _ & _ & _ & Hnr & _).
  unfold app_approvals_insert_never_reapprove, is_ in Hnr.
  rewrite bool_decide_eq_true_2 in Hnr by done. cbn in Hnr. apply orb_false_iff in Hnr as [H1 H2].
  destruct HT; congruence.
Qed.

(** a hash that was revoked or denied in a lineage is never auto-approved there again:
    no later approval of it, however it comes to be, has origin auto-update. *)
Theorem auto_update_never_reapproves d d' id a :
  reachable_db d → rtc sql_write d d' →
  hash_revoked d (a_lineage_id a) (a_bin_sha a) = true ∨ hash_denied d (a_lineage_id a) (a_bin_sha a) = true →
  approvals d !! id = None → approvals d' !! id = Some a → a_origin a ≠ AutoUpdate.
Proof.
  intros Hr Hw. apply reachable_ledger_inv, inv_keyed in Hr.
  induction Hw as [d|d d1 d2 H1 Hw IH]; intros Ht Hn Ha; [congruence|].
  pose proof (sql_write_keyed d d1 H1 Hr) as Hk1.
  pose proof (tainted_evolves d d1 _ _ (sql_write_evolves d d1 Hr H1) Ht) as Ht1.
  destruct (approvals d1 !! id) as [x|] eqn:Hx; [|by eapply IH].
  destruct (de_approvals _ _ (sql_writes_evolve d1 d2 Hk1 Hw) id x Hx) as (a' & Ha' & Hev).
  replace a' with a in Hev by congruence.
  apply ae_identity, approval_identity_cols in Hev as (_ & _ & E1 & E2 & _ & E3).
  rewrite E1, E2 in Ht. rewrite E3. exact (sql_write_tainted d d1 id x Hr H1 Ht Hn Hx).
Qed.

(** a host's allowlist generation never decreases, and its row is never removed. *)
Theorem generation_never_decreases d d' h x :
  reachable_db d → rtc sql_write d d' → hosts d !! h = Some x →
  ∃ x', hosts d' !! h = Some x' ∧ h_generation x ≤ h_generation x'.
Proof.
  intros Hr Hw Hh. destruct (de_hosts _ _ (reachable_evolves d d' Hr Hw) h x Hh) as (x' & ? & []).
  eauto.
Qed.

(** ** Where the authority of an approval comes from *)

(** The approval [id] goes back, through the copies auto-update makes on one host and
    lineage, to an approval an administrator gave or the legacy import carried over. *)
Inductive authorised (d : Db) (host lid : string) : string → Prop :=
  | auth_given id a admin : approvals d !! id = Some a → a_host_uuid a = host → a_lineage_id a = lid →
      a_approved_by_admin_id a = Some admin → authorised d host lid id
  | auth_legacy id a : approvals d !! id = Some a → a_host_uuid a = host → a_lineage_id a = lid →
      a_origin a = LegacyOrigin → authorised d host lid id
  | auth_copied id a pid : approvals d !! id = Some a → a_host_uuid a = host → a_lineage_id a = lid →
      a_origin a = AutoUpdate → a_parent_approval_id a = Some pid → authorised d host lid pid →
      authorised d host lid id.

Lemma approval_identity_authority a a' : approval_identity a = approval_identity a' →
  a_parent_approval_id a = a_parent_approval_id a' ∧ a_approved_by_admin_id a = a_approved_by_admin_id a'.
Proof. unfold approval_identity. intros H. repeat split; by injection H. Qed.

Lemma authorised_evolves d d' host lid id : db_evolves d d' → authorised d host lid id → authorised d' host lid id.
Proof.
  intros He. induction 1 as [id a admin Ha E1 E2 E3|id a Ha E1 E2 E3|id a pid Ha E1 E2 E3 E4 _ IH];
    destruct (de_approvals _ _ He _ _ Ha) as (a' & Ha' & Hev);
    destruct (approval_identity_authority _ _ (ae_identity _ _ Hev)) as [F1 F2];
    apply ae_identity, approval_identity_cols in Hev as (_ & G1 & G2 & _ & _ & G3).
  - apply (auth_given _ _ _ _ a' admin); [done|congruence..].
  - apply (auth_legacy _ _ _ _ a'); [done|congruence..].
  - apply (auth_copied _ _ _ _ a' pid); [done|congruence..|done].
Qed.

Definition all_authorised (d : Db) : Prop :=
  ∀ id a, approvals d !! id = Some a → authorised d (a_host_uuid a) (a_lineage_id a) id.

(** A new approval is given, legacy, or copied from a parent of its host and lineage. *)
Lemma insert_approval_authorised a d d' : db_keyed d → db_evolves d d' → insert_approval a d = Ok d' →
  all_authorised d → authorised d' (a_host_uuid a) (a_lineage_id a) (a_approval_id a).
Proof.
  intros Hk He (E & _ & _ & Hau & _ & _ & _ & Hc)%insert_approval_Ok Hall.
  assert (approvals d' !! a_approval_id a = Some a) as Ha by (rewrite E; apply lookup_insert_eq).
  destruct (decide (a_origin a = LegacyOrigin)) as [El|Hl]; [by eapply auth_legacy|].
  destruct (decide (a_origin a = AutoUpdate)) as [Eu|Hu].
  - unfold app_approvals_insert_auto_update in Hau. apply andb_false_iff in Hau as [Hau|Hau]; sql_facts; [done|].
    apply exists_row_true in Hau as (k & p & Hp & Hcp). unfold copies_parent in Hcp.
    repeat match goal with H : _ && _ = true |- _ => apply andb_true_iff in H as [H ?] end. sql_facts.
    match goal with H : eq_null _ _ = true |- _ => apply eq_null_true in H as (? & [= <-] & Epar) end.
    eapply auth_copied; [done..|]. apply (authorised_evolves d d'); [done|].
    rewrite (keyed_approval d Hk _ _ Hp). specialize (Hall k p Hp). congruence.
  - assert (is_null (a_approved_by_admin_id a) = false) as Hn.
    { unfold approval_checks in Hc. sql_facts.
      match goal with H : eqb (_ || _) (is_null (a_approved_by_admin_id a)) = true |- _ => apply eqb_prop in H; rewrite <- H end.
      unfold is_. by rewrite !bool_decide_eq_false_2. }
    destruct (a_approved_by_admin_id a) as [admin|] eqn:Eadm; [|done]. by eapply auth_given.
Qed.

(** no approval comes from nowhere: following the parents of an auto-update approval one
    reaches, on the same host and lineage, an approval that names the administrator who gave
    it or that the legacy import carried over. *)
Theorem every_approval_authorised d id a : reachable_db d → approvals d !! id = Some a →
  authorised d (a_host_uuid a) (a_lineage_id a) id.
Proof.
  intros Hr. revert id a. change (all_authorised d). unfold reachable_db in Hr. revert d Hr.
  apply (rtc_ind_r all_authorised); [intros id a Ha; discriminate Ha|].
  intros d d' Hr Hw IH.
  pose proof (inv_keyed d (reachable_ledger_inv d Hr)) as Hk.
  pose proof (sql_write_evolves d d' Hk Hw) as He. intros id a Ha.
  destruct (approvals d !! id) as [x|] eqn:Hx.
  - destruct (de_approvals _ _ He _ _ Hx) as (a' & Ha' & Hev). replace a' with a in * by congruence.
    apply ae_identity, approval_identity_cols in Hev as (_ & -> & -> & _).
    apply (authorised_evolves d d' _ _ _ He), (IH id x Hx).
  - destruct (sql_write_new_approval d d' id a Hk Hw Hx Ha) as [W <-].
    by eapply insert_approval_authorised.
Qed.

(** ** Tables the intake statements leave alone *)
Lemma ledger_txn_keeps {A} (π : Db → A) stmts d : db_keyed d →
  Forall (sound (rtc sql_write)) stmts → Forall (keeps π) stmts → π (ledger_txn stmts d).1 = π d.
Proof.
  intros Hk Hs Hf. unfold ledger_txn. destruct (run stmts d) as [d'|] eqn:E; [|done].
  by apply (run_keeps π stmts).
Qed.

Lemma observe_approvals b d : db_keyed d → approvals (app_observe_binary b d).1 = approvals d.
Proof.
  intros Hk. unfold app_observe_binary. destruct (validate_binary b); [|done]. rewrite commit_fst.
  apply ledger_txn_keeps; [done|apply observe_stmts_sound|].
  unfold observe_stmts. apply Forall_cons; split; [|apply Forall_cons; split; [|apply Forall_singleton]].
  - intros d1 d2 _. cbv zeta. destruct (exists_row _ _); [by intros [_ [= <-]]%check_Ok|].
    by intros (-> & _)%insert_lineage_Ok.
  - intros d1 d2 _. destruct (app_lineage_by_path _ _ _); [|by intros [= <-]].
    destruct (exists_row _ _); [by intros [= <-]|]. by intros (-> & _)%insert_binary_Ok.
  - intros d1 d2. by apply update_lineages_keeps.
Qed.

Lemma submit_approvals req c d : db_keyed d → approvals (app_submit_pending req c d).1 = approvals d.
Proof.
  intros Hk. unfold app_submit_pending. destruct (validate_request req); [|done].
  pose proof (ledger_txn_keeps approvals (submit_stmts req c) d Hk ltac:(unfold submit_stmts; sound_stmts)) as H.
  destruct (ledger_txn _ d) as [d' [[|]|]]; apply H; unfold submit_stmts;
    repeat (apply Forall_cons; split); auto with ledger.
Qed.

Section Histories.
Context (sha256 : list u8 → list u8) (to_cbor : ApprovalSnapshot → result LedgerError (list u8)).

(** C32: every history of ledger operations, whatever each one had read before its
    transaction ran, is a sequence of writes the schema accepts, and the database it
    reaches satisfies the ledger's invariant. *)
Theorem operations_refine_guarded_writes d :
  rtc (ledger_step sha256 to_cbor) empty_db d → reachable_db d ∧ ledger_inv d.
Proof.
  intros H. apply ledger_steps_sound in H. split; [done|]. by apply reachable_ledger_inv.
Qed.

(** at most one open request exists per deduplication key, whichever submissions and
    decisions interleave. *)
Theorem one_open_request_per_key d i j r r' :
  rtc (ledger_step sha256 to_cbor) empty_db d →
  requests d !! i = Some r → requests d !! j = Some r' →
  r_state r = ReqPending → r_state r' = ReqPending → r_dedup_key r = r_dedup_key r' → i = j.
Proof. intros H%ledger_steps_sound. apply (inv_one_pending d (reachable_ledger_inv d H)). Qed.

(** every version of an approval after the first is backed by a revision record of
    exactly that version. *)
Theorem every_version_recorded d id a v :
  rtc (ledger_step sha256 to_cbor) empty_db d →
  approvals d !! id = Some a → 2 ≤ v ≤ a_row_version a →
  ∃ rev, revisions d !! (id, v) = Some rev ∧ v_approval_id rev = id ∧ v_row_version rev = v.
Proof.
  intros H%ledger_steps_sound Ha Hv. apply reachable_ledger_inv in H.
  destruct (inv_versions d H id a v Ha Hv) as [rev Hrev]. exists rev. split; [done|].
  pose proof (keyed_revision d (inv_keyed d H) _ _ Hrev) as [= E1 E2]. done.
Qed.

(** the revisions of a lineage are 1, 2, 3, ... without gap or reuse: each number
    below [next_revision] is taken by one binary, and by only one. *)
Theorem revisions_sequential d lid l n :
  rtc (ledger_step sha256 to_cbor) empty_db d →
  lineages d !! lid = Some l → 1 ≤ n < l_next_revision l →
  exists ! sha, ∃ b, binaries d !! (lid, sha) = Some b ∧ b_revision b = n.
Proof.
  intros H%ledger_steps_sound Hl Hn. apply reachable_ledger_inv in H. destruct (inv_dense d H) as (D1 & D2 & _).
  destruct (D1 lid l n Hl Hn) as (sha & b & Hb & Hr). exists sha. split; [eauto|].
  intros sha' (b' & Hb' & Hr'). eapply D2; [done..|congruence].
Qed.

(** C39: no dangling references: an approval that is no legacy import, and every request,
    names a binary of a lineage of its own host, at that binary's revision; a request
    approved or auto-approved names an approval of its binary on its host. *)
Theorem references_resolve d :
  rtc (ledger_step sha256 to_cbor) empty_db d →
  (∀ id a, approvals d !! id = Some a → a_origin a ≠ LegacyOrigin →
     ∃ n, a_revision a = Some n ∧ binary_on d (a_lineage_id a) (a_bin_sha a) n (a_host_uuid a)) ∧
  (∀ id r, requests d !! id = Some r →
     binary_on d (r_lineage_id r) (r_bin_sha r) (r_revision r) (r_host_uuid r) ∧
     (r_state r = ReqApproved ∨ r_state r = ReqAutoApproved →
      ∃ aid, r_resulting_approval_id r = Some aid ∧ approval_on d aid (r_host_uuid r) (r_bin_sha r))).
Proof.
  intros H%ledger_steps_sound. apply reachable_ledger_inv in H. destruct (inv_references d H) as (R1 & R2 & R3).
  split; [done|]. intros id r Hr. split; [by eapply R2|]. intros Hs.
  destruct (inv_checked d H) as (_ & _ & Hc & _). specialize (Hc id r Hr). cbn in Hc.
  assert (not_null (r_resulting_approval_id r) = true) as Hnn.
  { unfold request_checks in Hc. sql_facts.
    match goal with H : eqb (_ || _) (not_null _) = true |- _ => apply eqb_prop in H; rewrite <- H end.
    unfold is_. apply orb_true_iff. rewrite !bool_decide_eq_true. done. }
  destruct (r_resulting_approval_id r) as [aid|] eqn:E; [|done]. exists aid. split; [done|]. by eapply R3.
Qed.

(** ** What the operations do *)

(** intake never changes an approval (INV-1): observing a binary and submitting a
    request leave the approvals table as it is; an auto-approval attempt adds at most the
    one approval it was asked for and changes existing ones only in their
    [superseded_by] mark, whatever it had read before. *)
Theorem intake_never_changes_approvals d b req ic id ac rd : db_keyed d →
  approvals (app_observe_binary b d).1 = approvals d ∧
  approvals (app_submit_pending req ic d).1 = approvals d ∧
  approvals_frame ∅ {[id]} d (auto_attempt sha256 to_cbor req id ac rd d).1.
Proof.
  intros Hk. split; [|split].
  - by apply observe_approvals.
  - by apply submit_approvals.
  - unfold auto_attempt. destruct (auto_stmts _ _ _ _ _ _) as [stmts|] eqn:E; [|by apply frame_same].
    pose proof (ledger_txn_frame ∅ {[id]} stmts d Hk ltac:(by eapply auto_stmts_sound)
      ltac:(by eapply auto_stmts_frames)) as H.
    destruct (ledger_txn _ d) as [d' [[|code]|]]; [done| |done]. by destruct (String.eqb _ _).
Qed.

(** approving a request creates at most the approval the administrator chose and alters
    no other approval but those listed for revocation (INV-2), up to [superseded_by] marks. *)
Theorem approve_alters_only_listed a rd d : db_keyed rd → db_keyed d →
  approvals_frame (list_to_set (rv_approval_id <$> ap_also_revoke a)) (new_ids a) d
    (app_approve_request sha256 to_cbor a rd d).1.
Proof.
  intros Hkr Hk. unfold app_approve_request. destruct (validate _); [|by apply frame_same].
  destruct (app_request _ _) as [req|]; [|by apply frame_same].
  destruct (negb _); [by apply frame_same|].
  destruct (approve_stmts _ _ _ _ _) as [[stmts id]|] eqn:E; [|by apply frame_same].
  rewrite commit_fst. apply ledger_txn_frame; [done|by eapply approve_stmts_sound|exact (approve_stmts_frames _ _ _ _ _ _ _ Hkr E)].
Qed.
End Histories.
