(* ===== verification/AppOpTheorems.v ===== *)
(** What single ledger operations do: the functional behaviour of revocation, intake,
    auto-approval, decisions and generations. *)
From S2P Require Import Prelude AppModel AppSchema AppInvariants AppLedger AppOps AppProofs.
Open Scope Z_scope.

(** ** Single-row updates *)
Lemma rows_where_elem {K A} `{Countable K} (p : A → bool) (m : gmap K A) k x :
  (k, x) ∈ rows_where p m ↔ m !! k = Some x ∧ p x = true.
Proof.
  unfold rows_where. rewrite list_elem_of_In, filter_In, <- list_elem_of_In, elem_of_map_to_list. done.
Qed.

Lemma rows_where_NoDup {K A} `{Countable K} (p : A → bool) (m : gmap K A) :
  NoDup (rows_where p m).
Proof. apply NoDup_ListNoDup, List.NoDup_filter, NoDup_ListNoDup, NoDup_map_to_list. Qed.

(** A condition only the row [k] satisfies. *)
Lemma rows_where_single {K A} `{Countable K} (p : A → bool) (m : gmap K A) k x :
  m !! k = Some x → p x = true → (∀ k' x', m !! k' = Some x' → p x' = true → k' = k) →
  rows_where p m = [(k, x)].
Proof.
  intros Hk Hp Hu. pose proof (rows_where_NoDup p m) as Hnd.
  pose proof (proj2 (rows_where_elem p m k x) (conj Hk Hp)) as Hin.
  assert (∀ e, e ∈ rows_where p m → e = (k, x)) as Hall.
  { intros [k' x'] [Hk' Hp']%rows_where_elem. pose proof (Hu k' x' Hk' Hp') as ->. congruence. }
  destruct (rows_where p m) as [|e1 [|e2 l]].
  - by apply elem_of_nil in Hin.
  - f_equal. apply Hall. left.
  - exfalso. apply NoDup_cons in Hnd as [Hnd _]. apply Hnd.
    rewrite (Hall e1), (Hall e2); [left|right; left|left].
Qed.

Lemma rows_where_nil {K A} `{Countable K} (p : A → bool) (m : gmap K A) :
  (∀ k x, m !! k = Some x → p x = false) → rows_where p m = [].
Proof.
  intros Hp. destruct (rows_where p m) as [|[k x] l] eqn:E; [done|].
  assert ((k, x) ∈ rows_where p m) as [Hk Hx]%rows_where_elem by (rewrite E; left).
  rewrite (Hp k x Hk) in Hx. done.
Qed.

Lemma update_where_single {K A} `{Countable K} (tbl : Db → gmap K A) upd p f d k x :
  tbl d !! k = Some x → p x = true → (∀ k' x', tbl d !! k' = Some x' → p x' = true → k' = k) →
  update_where tbl upd p f d = upd x (f x) d.
Proof.
  intros Hk Hp Hu. unfold update_where. rewrite (rows_where_single p (tbl d) k x Hk Hp Hu). cbn.
  unfold update_row. rewrite Hk. by destruct (upd x (f x) d).
Qed.

Lemma update_where_none {K A} `{Countable K} (tbl : Db → gmap K A) upd p f d :
  (∀ k x, tbl d !! k = Some x → p x = false) → update_where tbl upd p f d = Ok d.
Proof. intros Hp. unfold update_where. by rewrite rows_where_nil. Qed.

(** ** Guards *)
Lemma guard_Ok cases d d' : guard_stmt cases d = Ok d' → d' = d ∧ case_when (cases d) = None.
Proof. unfold guard_stmt. destruct (case_when _); [done|]. by intros [= <-]. Qed.

Lemma case_when_None cases : case_when cases = None ↔ Forall (λ c, c.1 = false) cases.
Proof.
  induction cases as [|[[] c] cases IH]; cbn; [by split|..].
  - split; [done|]. by intros [? _]%Forall_cons.
  - rewrite Forall_cons, IH. naive_solver.
Qed.

(** A condition on the row with a given id. *)
Lemma exists_at_id d id p : db_keyed d →
  exists_row (λ a, is_ (a_approval_id a) id && p a) (approvals d) = true ↔
  ∃ a, approvals d !! id = Some a ∧ p a = true.
Proof.
  intros Hk. rewrite exists_row_true. split.
  - intros (k & a & Ha & Hp). sql_facts. exists a.
    rewrite <- H, (keyed_approval d Hk _ _ Ha). auto.
  - intros (a & Ha & Hp). exists id, a. split; [done|]. rewrite Hp, andb_true_r.
    apply is_true_iff. by apply (keyed_approval d Hk).
Qed.

Lemma exists_request_at d id p : db_keyed d →
  exists_row (λ r, is_ (r_request_id r) id && p r) (requests d) = true ↔
  ∃ r, requests d !! id = Some r ∧ p r = true.
Proof.
  intros Hk. rewrite exists_row_true. split.
  - intros (k & a & Ha & Hp). sql_facts. exists a.
    rewrite <- H, (keyed_request d Hk _ _ Ha). auto.
  - intros (a & Ha & Hp). exists id, a. split; [done|]. rewrite Hp, andb_true_r.
    apply is_true_iff. by apply (keyed_request d Hk).
Qed.

(** ** Generations *)
Lemma bump_generation_Ok h m now d d' : bump_generation_stmt h m now d = Ok d' → db_keyed d →
  ∃ x, d' = set_hosts <[h := x]> d ∧ h_entries_digest x = [] ∧
    (∀ y, hosts d !! h = Some y → h_generation y < h_generation x) ∧ 1 ≤ h_generation x.
Proof.
  unfold bump_generation_stmt. intros H Hk. destruct (hosts d !! h) as [y|] eqn:E.
  - pose proof (keyed_host d Hk _ _ E) as Eh. apply update_host_Ok in H as (-> & _ & Hc).
    rewrite Eh. eexists. split; [done|]. split; [done|]. cbn [h_generation]. split; [|lia].
    intros ? [= <-]. lia.
  - apply insert_host_Ok in H as (-> & _). eexists. split; [reflexivity|]. split; [done|]. split; [done|]. cbn [h_generation]. lia.
Qed.

Lemma generation_of_bump h m now d d' : bump_generation_stmt h m now d = Ok d' → ledger_inv d →
  generation_of h d < generation_of h d'.
Proof.
  intros H Hi. destruct (bump_generation_Ok _ _ _ _ _ H (inv_keyed d Hi)) as (x & -> & _ & Hlt & Hpos).
  unfold generation_of, app_allowlist_state. cbn. rewrite lookup_insert_eq.
  destruct (hosts d !! h) as [y|] eqn:E; [|lia]. specialize (Hlt y eq_refl).
  destruct (inv_checked d Hi) as (_ & _ & _ & _ & _ & Hc). specialize (Hc h y E). cbn in Hc.
  unfold host_checks in Hc. sql_facts. apply Z.leb_le in H1. lia.
Qed.

(** ** Transactions that commit *)
Lemma ledger_txn_Committed stmts d d' : ledger_txn stmts d = (d', Ok Committed) ↔ run stmts d = Ok d'.
Proof.
  unfold ledger_txn. destruct (run stmts d) as [d1|e]; [naive_solver|].
  destruct (guard_code (abort_text e)); naive_solver.
Qed.

Lemma ledger_txn_Refused stmts d d' r : ledger_txn stmts d = (d', r) → r ≠ Ok Committed → d' = d.
Proof.
  unfold ledger_txn. destruct (run stmts d) as [d1|e]; [naive_solver|].
  by destruct (guard_code (abort_text e)); intros [= <- <-].
Qed.

Lemma commit_Ok {A} stmts d d' (k : Db → result LedgerError A) x :
  commit (ledger_txn stmts d) k = (d', Ok x) → run stmts d = Ok d' ∧ k d' = Ok x.
Proof.
  unfold commit. destruct (ledger_txn stmts d) as [d1 [[|c]|e]] eqn:E; [|naive_solver..].
  apply ledger_txn_Committed in E. intros [= <- H]. done.
Qed.

(** An operation that reports an error after its transaction failed wrote nothing. *)
Lemma run_cons s stmts d d' : run (s :: stmts) d = Ok d' ↔ ∃ d1, s d = Ok d1 ∧ run stmts d1 = Ok d'.
Proof. cbn. destruct (s d) as [d1|]; naive_solver. Qed.
Lemma run_app l1 l2 d d' : run (l1 ++ l2) d = Ok d' ↔ ∃ d1, run l1 d = Ok d1 ∧ run l2 d1 = Ok d'.
Proof.
  revert d. induction l1 as [|s l1 IH]; intros d; cbn; [naive_solver|].
  destruct (s d) as [d1|]; [apply IH|naive_solver].
Qed.

Section Revoke.
Context (sha256 : list u8 → list u8) (to_cbor : ApprovalSnapshot → result LedgerError (list u8)).

(** The revoked row. *)
Definition revoked_row (r : Revoke) (now : Z) : ApprovalRow → ApprovalRow :=
  with_state Revoked (Some (now, rv_admin_id r, rv_reason_code r)).

Lemma set_revisions_keyed d d' v : insert_revision v d = Ok d' → db_keyed d → db_keyed d'.
Proof. intros H. apply sql_write_keyed. by eapply w_insert_revision. Qed.

(** What the statements of a revocation do when they commit. *)
Lemma revoke_run cur r now stmts d d' : db_keyed d →
  revoke_stmts sha256 to_cbor cur r now = Ok stmts → run stmts d = Ok d' →
  let id := a_approval_id cur in
  ∃ x v, approvals d !! id = Some x ∧ a_state x ≠ Revoked ∧ a_row_version x = a_row_version cur ∧
    (∀ n, rv_expected_row_version r = Some n → n = a_row_version x) ∧
    d' = set_approvals <[id := revoked_row r now x]> (set_revisions <[(id, a_row_version x + 1) := v]> d) ∧
    v_change_kind v = RevRevoked ∧ v_changed_by_admin_id v = Some (rv_admin_id r) ∧ v_changed_at v = now.
Proof.
  intros Hk Hs Hr id. unfold revoke_stmts in Hs. destruct (is_ _ _); [done|].
  destruct (match rv_expected_row_version r with Some _ => _ | None => _ end) eqn:Hv; [done|].
  destruct (snapshot_cbor _ _ cur) as [before|]; [|done].
  destruct (snapshot_cbor _ _ _) as [after|]; [|done]. injection Hs as <-.
  apply run_cons in Hr as (d1 & [-> Hg]%guard_Ok & Hr). apply run_cons in Hr as (d2 & Hins & Hr).
  apply run_cons in Hr as (d3 & Hupd & Hr). cbn [run] in Hr. injection Hr as <-.
  apply case_when_None in Hg. unfold revoke_cases in Hg.
  apply Forall_cons in Hg as [_ Hg]. apply Forall_cons in Hg as [Hst Hg]. apply Forall_cons in Hg as [Hver _].
  cbn [fst] in Hst, Hver. sql_facts.
  apply exists_at_id in Hst as (x & Hx & Hst); [|done]. apply exists_at_id in Hver as (x' & Hx' & Hver); [|done].
  replace x' with x in * by congruence. sql_facts.
  pose proof (set_revisions_keyed _ _ _ Hins Hk) as Hk2. apply insert_revision_Ok in Hins as (-> & _).
  rewrite (update_where_single approvals _ _ _ _ id x) in Hupd; [|done|..].
  - apply update_approval_Ok in Hupd as (-> & _). rewrite (keyed_approval d Hk _ _ Hx).
    eexists x, _. split; [done|]. split.
    { intros E. rewrite E in Hst. done. }
    split; [done|]. split.
    { intros n E. rewrite E in Hv. sql_facts. congruence. }
    rewrite Hver. split; [reflexivity|]. done.
  - rewrite Hver, (keyed_approval d Hk _ _ Hx). unfold is_. rewrite !bool_decide_eq_true_2 by done. done.
  - intros k y Hy Hp. sql_facts. cbn in Hy. rewrite <- (keyed_approval d Hk _ _ Hy). done.
Qed.

(** a revocation that succeeds moved the approval, at the version the caller expected,
    from ACTIVE or EXPIRED to REVOKED by that administrator, advanced its version by one
    under a revision record, and raised the host's generation; what the caller had read
    before is any earlier state. *)
Theorem revoke_correct r now m rd d d' a : rtc sql_write empty_db rd → rtc sql_write rd d →
  app_revoke_approval sha256 to_cbor r now m rd d = (d', Ok a) →
  ∃ x v, approvals d !! rv_approval_id r = Some x ∧ a_state x ≠ Revoked ∧
    (∀ n, rv_expected_row_version r = Some n → n = a_row_version x) ∧
    a = revoked_row r now x ∧ approvals d' !! rv_approval_id r = Some a ∧
    revisions d' !! (rv_approval_id r, a_row_version a) = Some v ∧
    v_change_kind v = RevRevoked ∧ v_changed_by_admin_id v = Some (rv_admin_id r) ∧
    generation_of (a_host_uuid a) d < generation_of (a_host_uuid a) d'.
Proof.
  intros Hrd Hw H. assert (ledger_inv d) as Hinv.
  { eapply sql_writes_inv; [done|]. eapply sql_writes_inv; [done|apply empty_inv]. }
  assert (db_keyed rd) as Hkr by (eapply sql_writes_keyed; [done|apply empty_keyed]).
  pose proof (inv_keyed d Hinv) as Hk. unfold app_revoke_approval in H.
  destruct (validate_revoke r); [|done]. destruct (app_approval (rv_approval_id r) rd) as [cur|] eqn:Ec; [|done].
  destruct (revoke_stmts _ _ cur r now) as [stmts|] eqn:Es; [|done].
  apply commit_Ok in H as [Hrun Ha].
  apply run_app in Hrun as (d1 & Hrun & (d2 & Hb & Hnil)%run_cons).
  cbn [run] in Hnil. injection Hnil as <-. pose proof (revoke_run cur r now stmts d d1 Hk Es Hrun) as Hrr. cbn in Hrr.
  rewrite (keyed_approval rd Hkr _ _ Ec) in Hrr.
  destruct Hrr as (x & v & Hx & Hst & Hver & Hexp & E1 & Hv1 & Hv2 & Hv3).
  assert (a_host_uuid cur = a_host_uuid x) as Ehost.
  { destruct (de_approvals _ _ (sql_writes_evolve rd d Hkr Hw) _ _ Ec) as (y & Hy & Hev).
    apply ae_identity, approval_identity_cols in Hev as (_ & E & _). congruence. }
  assert (ledger_inv d1) as Hinv1.
  { eapply sql_writes_inv; [|exact Hinv]. eapply run_sound; [by eapply revoke_stmts_sound|done]. }
  pose proof (generation_of_bump _ _ _ _ _ Hb Hinv1) as Hgen.
  destruct (bump_generation_Ok _ _ _ _ _ Hb (inv_keyed d1 Hinv1)) as (h & -> & _).
  subst d1. unfold app_approval, or_raced in Ha. cbn in Ha. rewrite lookup_insert_eq in Ha.
  injection Ha as <-. exists x, v. cbn. rewrite !lookup_insert_eq.
  repeat (split; [by first [done | congruence]|]).
  rewrite Ehost in Hgen |- *. exact Hgen.
Qed.
End Revoke.

(** ** Submission *)

(** A guard statement's refusal is reported under its own code. *)
Lemma raise_guard_code c : c ∈ guard_codes → guard_code (abort_text (raise_guard c)) = Some c.
Proof.
  intros Hc. unfold guard_codes in Hc.
  repeat (apply elem_of_cons in Hc as [->|Hc]; [by vm_compute|]). by apply elem_of_nil in Hc.
Qed.

(** A constraint of the requests table is not mistaken for a guard. *)
Lemma insert_request_Err r d e : insert_request r d = Err e → guard_code (abort_text e) = None.
Proof.
  unfold insert_request, check.
  repeat match goal with |- context [if ?b then _ else _] => destruct b end; try done;
    intros [= <-]; by vm_compute.
Qed.

Lemma case_when_Some cases c : case_when cases = Some c → (true, c) ∈ cases.
Proof.
  induction cases as [|[[] c'] cases IH]; cbn; [done|..].
  - intros [= ->]. left.
  - intros H. right. by apply IH.
Qed.

(** A row read by a condition that some row satisfies. *)
Lemma head_rows_where {K A} `{Countable K} (p : A → bool) (m : gmap K A) :
  exists_row p m = true → ∃ k x, snd <$> head (rows_where p m) = Some x ∧ m !! k = Some x ∧ p x = true.
Proof.
  intros (k & x & Hk & Hx)%exists_row_true. pose proof (proj2 (rows_where_elem p m k x) (conj Hk Hx)) as Hin.
  destruct (rows_where p m) as [|[k' x'] l] eqn:E; [by apply elem_of_nil in Hin|].
  exists k', x'. split; [done|]. apply rows_where_elem. rewrite E. left.
Qed.

Lemma pick_fold {A} (better : A → A → bool) l best y :
  foldl (pick better) best l = Some y → best = Some y ∨ y ∈ l.
Proof.
  revert best. induction l as [|x l IH]; intros best; cbn; [by left|].
  intros [H|H]%IH; [|by right; right]. destruct best as [b|]; cbn in H.
  - destruct (better x b); [|by left]. injection H as ->. right. left.
  - injection H as ->. right. left.
Qed.
Lemma pick_fold_some {A} (better : A → A → bool) l b : is_Some (foldl (pick better) (Some b) l).
Proof. revert b. induction l as [|x l IH]; intros b; cbn; [by eexists|]. destruct (better x b); apply IH. Qed.

Lemma best_row_Some {K A} `{Countable K} better (p : A → bool) (m : gmap K A) x :
  best_row better p m = Some x → ∃ k, m !! k = Some x ∧ p x = true.
Proof.
  unfold best_row. intros [?|Hin]%pick_fold; [done|].
  apply list_elem_of_fmap in Hin as ([k y] & -> & Hin). exists k. by apply rows_where_elem.
Qed.
Lemma best_row_exists {K A} `{Countable K} better (p : A → bool) (m : gmap K A) :
  exists_row p m = true → ∃ k x, best_row better p m = Some x ∧ m !! k = Some x ∧ p x = true.
Proof.
  intros H1. destruct (head_rows_where p m H1) as (k & x & Hh & _).
  assert (is_Some (best_row better p m)) as [y Hy].
  { unfold best_row. destruct (rows_where p m) as [|[k' x'] l]; [done|]. apply pick_fold_some. }
  destruct (best_row_Some _ _ _ _ Hy) as (k' & ? & ?). eauto.
Qed.

(** What an existing record that answers a submission is. *)
Definition answers (req : NewRequest) (now : Z) (cooldown : option Z) (d : Db) (i : Intake) : Prop :=
  match i with
  | Recorded _ => False
  | Replayed r => ∃ k, requests d !! k = Some r ∧
      r_host_uuid r = n_host_uuid req ∧ r_client_request_id r = n_client_request_id req
  | Covered a => ∃ k, approvals d !! k = Some a ∧
      covers (n_host_uuid req) (n_lineage_id req) (n_bin_sha req) (sid (n_target req))
        (uid (n_target req)) now a = true
  | DuplicatePending r => ∃ k, requests d !! k = Some r ∧
      r_dedup_key r = n_dedup_key req ∧ r_state r = ReqPending
  | RecentlyDenied r => ∃ k since t, requests d !! k = Some r ∧ cooldown = Some since ∧
      r_dedup_key r = n_dedup_key req ∧ r_state r = ReqDenied ∧ r_decided_at r = Some t ∧ since ≤ t
  end.

(** The record a refusal of the intake guard names is there. *)
Lemma dedup_outcome_answers req now cooldown d c :
  (true, c) ∈ intake_cases req now cooldown d →
  ∃ i, dedup_outcome c req now cooldown d = Ok i ∧ answers req now cooldown d i.
Proof.
  unfold intake_cases. intros Hin.
  repeat (apply elem_of_cons in Hin as [Hin|Hin]); [..|by apply elem_of_nil in Hin];
    injection Hin as Hc ->; symmetry in Hc; unfold dedup_outcome; cbn [String.eqb Ascii.eqb Bool.eqb].
  - destruct (head_rows_where _ _ Hc) as (k & r & Hh & Hr & Hp).
    exists (Replayed r). unfold app_request_by_client_id. rewrite Hh. split; [done|].
    sql_facts. exists k. done.
  - unfold app_covering_approval. match goal with |- context [best_row ?b _ _] => destruct (best_row_exists b _ _ Hc) as (k & r & Hh & Hr & Hp) end.
    exists (Covered r). rewrite Hh. split; [done|]. exists k. done.
  - destruct (head_rows_where _ _ Hc) as (k & r & Hh & Hr & Hp).
    exists (DuplicatePending r). unfold app_pending_by_dedup. rewrite Hh. split; [done|].
    sql_facts. exists k. done.
  - destruct cooldown as [since|]; [|done]. unfold app_recent_denial.
    match goal with |- context [best_row ?b _ _] => destruct (best_row_exists b _ _ Hc) as (k & r & Hh & Hr & Hp) end.
    exists (RecentlyDenied r). cbn [mbind option_bind]. rewrite Hh. split; [done|].
    destruct (r_decided_at r) as [t|] eqn:Et; sql_facts; [|done].
    match goal with H : (_ <=? _) = true |- _ => apply Z.leb_le in H end.
    exists k, since, t. done.
Qed.

(** What may come of a submission. *)
Definition submit_outcome (req : NewRequest) (c : IntakeChecks) (d : Db)
    (out : Db * result LedgerError Intake) : Prop :=
  match out with
  | (d', Ok (Recorded r)) =>
      case_when (intake_cases req (ic_now c) (ic_denied_cooldown_since c) d) = None ∧
      requests d !! n_request_id req = None ∧ d' = set_requests <[n_request_id req := r]> d ∧
      r_state r = ReqPending ∧ r_resulting_approval_id r = None ∧ r_dedup_key r = n_dedup_key req ∧
      (r_host_uuid r, r_client_request_id r, r_lineage_id r, r_bin_sha r, r_revision r, r_target r)
      = (n_host_uuid req, n_client_request_id req, n_lineage_id req, n_bin_sha req, n_revision req,
         n_target req)
  | (d', Ok i) => d' = d ∧ answers req (ic_now c) (ic_denied_cooldown_since c) d i
  | (d', Err e) => d' = d ∧ ∃ text, e = Store text
  end.

(** a submission that passes validation either records exactly one new request, open and
    with the submitted columns, when none of the deduplication conditions holds; or, when
    one does, writes nothing and answers with the existing record, which is always found;
    or fails on a constraint of the schema and writes nothing. *)
Theorem submit_pending_correct req c d : validate_request req = Ok tt →
  submit_outcome req c d (app_submit_pending req c d).
Proof.
  intros Hv. unfold app_submit_pending. rewrite Hv. unfold ledger_txn, submit_stmts. cbn [run].
  unfold guard_stmt. destruct (case_when _) as [code|] eqn:Ec.
  - apply case_when_Some in Ec. rewrite raise_guard_code.
    + destruct (dedup_outcome_answers _ _ _ _ _ Ec) as (i & -> & Hi). by destruct i.
    + unfold intake_cases in Ec. repeat (apply elem_of_cons in Ec as [[= _ ->]|Ec]); [set_solver..|].
      by apply elem_of_nil in Ec.
  - destruct (insert_request_stmt _ _ d) as [d'|e] eqn:Ei.
    + apply insert_request_Ok in Ei as (-> & _ & _ & _ & Hn & _). cbn in Hn.
      unfold app_request. cbn. rewrite lookup_insert_eq. cbn. done.
    + unfold insert_request_stmt in Ei. rewrite (insert_request_Err _ _ _ Ei). split; [done|]. by eexists.
Qed.

(** ** Generations name entry sets *)

(** One generation has one digest, once it is recorded. *)
Definition digest_fixed (x x' : HostAllowlistStateRow) : Prop :=
  h_generation x ≤ h_generation x' ∧
  (h_generation x' = h_generation x → h_entries_digest x ≠ [] → h_entries_digest x' = h_entries_digest x).

#[export] Instance digest_fixed_preorder : PreOrder digest_fixed.
Proof.
  split; [by split|]. intros x y z [L1 E1] [L2 E2]. split; [lia|]. intros E Hx.
  assert (h_entries_digest y = h_entries_digest x) as Ey by (apply E1; [lia|done]).
  rewrite <- Ey. apply E2; [lia|congruence].
Qed.

(** The writes of the ledger keep it. *)
Definition hosts_fixed (d d' : Db) : Prop :=
  rtc sql_write d d' ∧ (db_keyed d → map_evolves digest_fixed (hosts d) (hosts d')).

Lemma update_host_fixed h x x' d d' : hosts d !! h = Some x → update_host x x' d = Ok d' →
  digest_fixed x x' → hosts_fixed d d'.
Proof.
  intros Hx H Hf. split; [apply rtc_once; by eapply w_update_host|]. intros Hk.
  apply update_host_Ok in H as (-> & _). rewrite (keyed_host d Hk _ _ Hx). cbn.
  by eapply map_evolves_update; [apply _|..].
Qed.

#[export] Instance hosts_fixed_closed : StmtClosed hosts_fixed.
Proof.
  split.
  - split.
    + intros d. split; [apply rtc_refl|]. intros _. reflexivity.
    + intros d1 d2 d3 [W1 E1] [W2 E2]. split; [by etransitivity|]. intros Hk.
      etransitivity; [by apply E1|]. apply E2. by eapply sql_writes_keyed.
  - intros d d' Hw E. split; [by apply rtc_once|]. rewrite E. intros _. reflexivity.
  - intros h m n d d' H. unfold bump_generation_stmt in H. destruct (hosts d !! h) as [x|] eqn:E.
    + eapply update_host_fixed; [done..|]. split; cbn [h_generation]; lia.
    + split; [apply rtc_once; by eapply w_insert_host|]. intros _.
      apply insert_host_Ok in H as (-> & Hn & _). by apply map_evolves_insert; [apply _|].
  - intros h dg m now x d d' Hd Hx H. eapply update_host_fixed; [done..|].
    unfold with_digest, digest_fixed. cbn [h_generation h_entries_digest].
    destruct (h_entries_digest x) as [|u l]; cbn [length Nat.eqb orb].
    + split; [lia|done].
    + destruct (is_ (u :: l) dg) eqn:Es; sql_facts; split; try lia. done.
  - intros h b t x d d' Hx H. eapply update_host_fixed; [done..|]. by split.
Qed.

(** a generation names one set of entries: once the digest of the entries compiled at a
    generation is recorded, every later state of the host at that generation has the same
    digest, over every history of ledger operations. *)
Theorem generation_fixes_digest sha256 to_cbor d d' h x x' :
  rtc (ledger_step sha256 to_cbor) empty_db d → rtc (ledger_step sha256 to_cbor) d d' →
  hosts d !! h = Some x → hosts d' !! h = Some x' → h_entries_digest x ≠ [] →
  h_generation x' = h_generation x → h_entries_digest x' = h_entries_digest x.
Proof.
  intros Hr Hs Hx Hx' Hd Hg. assert (db_keyed d) as Hk.
  { eapply sql_writes_keyed; [by eapply ledger_steps_sound|apply empty_keyed]. }
  destruct (ledger_steps_closed (R := hosts_fixed) _ _ d d' Hs) as [_ He].
  destruct (He Hk h x Hx) as (y & Hy & _ & Hf). replace y with x' in Hf by congruence. by apply Hf.
Qed.

(** ** Decisions *)

(** What the decision guard has checked when it lets a transaction through. *)
Lemma decision_guard_Ok id admin forbid d d' : db_keyed d →
  guard_stmt (decision_cases id admin forbid) d = Ok d' →
  d' = d ∧ ∃ r, requests d !! id = Some r ∧ r_state r = ReqPending ∧
    (forbid = true → r_requested_by_admin_id r ≠ Some admin).
Proof.
  intros Hk [-> Hg]%guard_Ok. split; [done|]. apply case_when_None in Hg. unfold decision_cases in Hg.
  apply Forall_cons in Hg as [_ Hg]. apply Forall_cons in Hg as [Hp Hg]. apply Forall_cons in Hg as [Hs _].
  cbn [fst] in Hp, Hs. sql_facts. apply exists_request_at in Hp as (r & Hr & Hp); [|done]. sql_facts.
  exists r. split; [done|]. split; [done|]. intros -> Ha. cbn [andb] in Hs.
  rewrite (proj2 (exists_request_at d id _ Hk)) in Hs; [done|]. exists r. split; [done|].
  rewrite Ha. apply eq_null_true. by eexists.
Qed.

(** The reason a decision guard gives. *)
Lemma decision_guard_self id admin d r : db_keyed d →
  requests d !! id = Some r → r_state r = ReqPending → r_requested_by_admin_id r = Some admin →
  case_when (decision_cases id admin true d) = Some "sod_self_approval".
Proof.
  intros Hk Hr Hp Ha. unfold decision_cases.
  rewrite !(proj2 (exists_request_at d id _ Hk)); [done|..]; exists r; (split; [done|]).
  - rewrite Ha. apply eq_null_true. by eexists.
  - by apply is_true_iff.
  - done.
Qed.

(** The stored row is the request read before, with the same identity columns. *)
Lemma facts_of_evolved rd d id r r' : db_keyed rd → rtc sql_write rd d →
  requests rd !! id = Some r → requests d !! id = Some r' → r_state r' = ReqPending →
  facts_of_row r = facts_of_row r'.
Proof.
  intros Hk Hw Hr Hr' Hp. destruct (de_requests _ _ (sql_writes_evolve rd d Hk Hw) _ _ Hr) as (y & Hy & []).
  replace y with r' in * by congruence. destruct (decide (r_state r = ReqPending)) as [E|E].
  - destruct (re_pending E) as [->|Hin]; [done|]. rewrite Hp in Hin. set_solver.
  - specialize (re_terminal E). unfold decision in re_terminal. congruence.
Qed.

Section Decisions.
Context (sha256 : list u8 → list u8) (to_cbor : ApprovalSnapshot → result LedgerError (list u8)).

(** with segregation of duties in force, the administrator who opened a request can
    neither approve nor deny it: an approval attempt fails and writes nothing, whatever it
    had read; a well-formed denial of an open request fails with [SelfApproval]. *)
Theorem self_approval_refused a dn rd d r : db_keyed d →
  requests d !! ap_request_id a = Some r → r_requested_by_admin_id r = Some (ap_admin_id a) →
  ap_forbid_self_approval a = true →
  dn_request_id dn = ap_request_id a → dn_admin_id dn = ap_admin_id a → dn_forbid_self_approval dn = true →
  r_state r = ReqPending →
  (∃ e, app_approve_request sha256 to_cbor a rd d = (d, Err e)) ∧
  (check_id (dn_request_id dn) "request_id" = Ok tt → check_id (dn_admin_id dn) "admin_id" = Ok tt →
   check_len (dn_message dn) 200 "message" = Ok tt → app_deny_request dn d = (d, Err SelfApproval)).
Proof.
  intros Hk Hr Ha Hf E1 E2 Hf' Hp. pose proof (decision_guard_self _ _ d r Hk Hr Hp Ha) as Hg. split.
  - unfold app_approve_request. destruct (validate _); [|eauto].
    destruct (app_request _ rd) as [q|]; [|eauto]. destruct (negb _); [eauto|].
    unfold approve_stmts. destruct (choice_stmts _ _ _ _) as [[choice cid]|]; [|eauto].
    destruct (also_revoke_stmts _ _ _ _ _ _) as [rs|]; [|eauto].
    unfold ledger_txn. cbn [run]. unfold guard_stmt at 1. rewrite Hf, Hg.
    rewrite raise_guard_code by set_solver. cbn [commit]. eauto.
  - intros V1 V2 V3. unfold app_deny_request. cbn [validate]. rewrite V1, V2, V3.
    unfold ledger_txn, deny_stmts. cbn [run]. unfold guard_stmt. rewrite E1, E2, Hf', Hg.
    rewrite raise_guard_code by set_solver. done.
Qed.

(** The statements of a revocation. *)
Lemma revoke_stmts_keep {A} (π : Db → A) cur r now stmts :
  revoke_stmts sha256 to_cbor cur r now = Ok stmts →
  (∀ f d, π (set_revisions f d) = π d) →
  (∀ p f, (∀ x, p x = true → a_approval_id x = a_approval_id cur) →
     keeps π (update_where approvals update_approval p f)) →
  Forall (keeps π) stmts.
Proof.
  intros Hs H1 H2. unfold revoke_stmts in Hs. destruct (is_ _ _); [done|].
  destruct (match _ with Some _ => _ | None => _ end); [done|].
  destruct (snapshot_cbor _ _ _); [|done]. destruct (snapshot_cbor _ _ _); [|done]. injection Hs as <-.
  repeat (apply Forall_cons; split); [apply guard_keeps|by apply insert_revision_keeps| |done].
  apply H2. intros x Hx. by sql_facts.
Qed.

Lemma also_revoke_keep {A} (π : Db → A) h now rs rd stmts : db_keyed rd →
  also_revoke_stmts sha256 to_cbor h now rs rd = Ok stmts →
  (∀ f d, π (set_revisions f d) = π d) →
  (∀ id y p f, approvals rd !! id = Some y → (∀ x, p x = true → a_approval_id x = id) →
     keeps π (update_where approvals update_approval p f)) →
  Forall (keeps π) stmts.
Proof.
  intros Hk Hs H1 H2. revert stmts Hs. induction rs as [|r rs IH]; intros stmts; cbn; [by intros [= <-]|].
  destruct (app_approval _ _) as [cur|] eqn:Ec; [|done]. destruct (negb _); [done|].
  destruct (revoke_stmts _ _ _ _ _) as [s|] eqn:Es; [|done].
  destruct (also_revoke_stmts _ _ _ _ _ _) as [ss|]; [|done]. intros [= <-].
  apply Forall_app. split; [|by apply IH]. eapply revoke_stmts_keep; [done..|].
  intros p f Hp. eapply H2; [done|]. intros x Hx. rewrite (Hp x Hx). by apply (keyed_approval rd Hk).
Qed.

(** The listed revocations happen. *)
Lemma also_revoke_run h now rs rd stmts d d' : db_keyed rd → rtc sql_write rd d →
  also_revoke_stmts sha256 to_cbor h now rs rd = Ok stmts → run stmts d = Ok d' →
  Forall (λ r, ∃ x, approvals d' !! rv_approval_id r = Some x ∧ a_state x = Revoked ∧ a_host_uuid x = h) rs.
Proof.
  intros Hk. revert d stmts. induction rs as [|r rs IH]; intros d stmts Hw; cbn; [done|].
  destruct (app_approval _ _) as [cur|] eqn:Ec; [|done]. destruct (negb _) eqn:Eh; [done|]. sql_facts.
  destruct (revoke_stmts _ _ _ _ _) as [s|] eqn:Es; [|done].
  destruct (also_revoke_stmts _ _ _ _ _ _) as [ss|] eqn:Ess; [|done]. intros [= <-] (d1 & H1 & H2)%run_app.
  assert (db_keyed d) as Hkd by (by eapply sql_writes_keyed).
  assert (rtc sql_write d d1) as Hw1 by (eapply run_sound; [by eapply revoke_stmts_sound|done]).
  apply Forall_cons. split; [|by eapply IH; [etransitivity|..]].
  pose proof (revoke_run sha256 to_cbor cur r now s d d1 Hkd Es H1) as Hrr. cbn in Hrr.
  rewrite (keyed_approval rd Hk _ _ Ec) in Hrr. destruct Hrr as (x & v & Hx & _ & _ & _ & -> & _).
  pose proof (sql_writes_keyed _ _ Hw1 Hkd) as Hk1.
  assert (rtc sql_write (set_approvals <[rv_approval_id r := revoked_row r now x]>
    (set_revisions <[(rv_approval_id r, a_row_version x + 1) := v]> d)) d') as Hw2.
  { eapply run_sound; [by eapply also_revoke_sound|done]. }
  destruct (de_approvals _ _ (sql_writes_evolve _ d' Hk1 Hw2) (rv_approval_id r) (revoked_row r now x))
    as (x' & Hx' & Hev); [apply lookup_insert_eq|].
  exists x'. split; [done|]. pose proof (ae_revoked _ _ Hev eq_refl) as (_ & Hp & _).
  unfold policy_view in Hp. injection Hp as -> _. split; [done|].
  apply ae_identity, approval_identity_cols in Hev as (_ & -> & _). cbn.
  destruct (de_approvals _ _ (sql_writes_evolve rd d Hk Hw) _ _ Ec) as (y & Hy & Hev).
  apply ae_identity, approval_identity_cols in Hev as (_ & E & _). congruence.
Qed.

(** An approval that a statement list inserts and no later statement touches. *)
Lemma insert_stmt_row a d d' : a_parent_approval_id a = None → a_state a = Active →
  a_superseded_by a = None → a_revoked_at a = None → a_revoked_by_admin_id a = None →
  a_revoke_reason_code a = None → a_row_version a = 1 → insert_approval_stmt a d = Ok d' →
  approvals d !! a_approval_id a = None ∧ d' = set_approvals <[a_approval_id a := a]> d.
Proof.
  intros E1 E2 E3 E4 E5 E6 E7 (-> & _ & _ & _ & _ & _ & Hn & _)%insert_approval_Ok. cbn in Hn |- *.
  split; [done|]. destruct a; cbn in *; by subst.
Qed.

(** What the new approval of a decision is after the whole transaction. *)
Lemma choice_new_run request a id terms choice cid d d' : db_keyed d →
  ap_choice a = New id terms → choice_stmts sha256 to_cbor request a = Ok (choice, cid) →
  run choice d = Ok d' →
  cid = id ∧ approvals d !! id = None ∧
  approvals d' !! id = Some (approval_for (facts_of_row request) id (ap_admin_id a) terms (ap_now a)) ∧
  requests d' = requests d ∧ hosts d' = hosts d.
Proof.
  intros Hk Ea Hc Hr. pose proof (choice_stmts_sound (R := rtc sql_write) sha256 to_cbor _ _ _ _ Hc) as Hsnd.
  unfold choice_stmts in Hc. rewrite Ea in Hc.
  destruct (validate _); [|done]. destruct (snapshot_cbor _ _ _); [|done]. injection Hc as <- <-.
  apply run_cons in Hr as (d1 & Hi & Hr). apply Forall_cons in Hsnd as [Hs1 Hsnd].
  assert (db_keyed d1) as Hk1 by (eapply sql_writes_keyed; [by eapply Hs1|done]).
  apply insert_stmt_row in Hi as [Hn ->]; [|done..]. cbn [a_approval_id approval_for] in Hn, Hr, Hk1.
  assert (∀ B (π : Db → B), (∀ f d, π (set_revisions f d) = π d) →
    keeps π (supersede_stmt (approval_for (facts_of_row request) id (ap_admin_id a) terms (ap_now a))) →
    π d' = π (set_approvals <[id := approval_for (facts_of_row request) id (ap_admin_id a) terms (ap_now a)]> d))
    as Hkeep.
  { intros B π H1 H2. apply (run_keeps π _ Hsnd) in Hr; [done| |done].
    repeat (apply Forall_cons; split); [by apply insert_revision_keeps|done|done]. }
  split; [done|]. split; [done|]. split; [|split].
  - rewrite (Hkeep _ (λ d, approvals d !! id)); [apply lookup_insert_eq|done|].
    apply update_approvals_keeps_row. intros d2 x Hk2 Hx. rewrite (keyed_approval d2 Hk2 _ _ Hx).
    unfold is_ at 2. rewrite bool_decide_eq_true_2 by done. by rewrite andb_false_r.
  - apply (Hkeep _ requests); [done|]. auto with ledger.
  - apply (Hkeep _ hosts); [done|]. auto with ledger.
Qed.

(** The decision written by an approval. *)
Definition approved_row (a : Approve) (id : string) (r : RequestRow) : RequestRow :=
  with_decision ReqApproved (ap_now a) (Some (ap_admin_id a)) (r_decision_reason_code r)
    (r_decision_message r) (Some id) (eq_null (r_requested_by_admin_id r) (Some (ap_admin_id a))) r.

Lemma approve_request_run a id d d' r : db_keyed d → requests d !! ap_request_id a = Some r →
  r_state r = ReqPending → approve_request_stmt a id d = Ok d' →
  d' = set_requests <[ap_request_id a := approved_row a id r]> d.
Proof.
  intros Hk Hr Hp H. unfold approve_request_stmt in H.
  rewrite (update_where_single requests _ _ _ _ (ap_request_id a) r) in H; [|done|..].
  - apply update_request_Ok in H as (-> & _). by rewrite (keyed_request d Hk _ _ Hr).
  - rewrite (keyed_request d Hk _ _ Hr), Hp. unfold is_. rewrite !bool_decide_eq_true_2 by done. done.
  - intros k y Hy Hq. sql_facts. rewrite <- (keyed_request d Hk _ _ Hy). done.
Qed.

(** What a committed approval with a new approval did. *)
Lemma approve_new_run a request rd d d' id terms stmts aid :
  db_keyed rd → ledger_inv d → rtc sql_write rd d → ap_choice a = New id terms →
  app_request (ap_request_id a) rd = Some request →
  approve_stmts sha256 to_cbor request a rd = Ok (stmts, aid) → run stmts d = Ok d' →
  ∃ r, requests d !! ap_request_id a = Some r ∧ r_state r = ReqPending ∧
    (ap_forbid_self_approval a = true → r_requested_by_admin_id r ≠ Some (ap_admin_id a)) ∧
    requests d' = <[ap_request_id a := approved_row a id r]> (requests d) ∧
    aid = id ∧ approvals d !! id = None ∧
    approvals d' !! id = Some (approval_for (facts_of_row r) id (ap_admin_id a) terms (ap_now a)) ∧
    Forall (λ rv, ∃ x, approvals d' !! rv_approval_id rv = Some x ∧ a_state x = Revoked ∧
                       a_host_uuid x = r_host_uuid r) (ap_also_revoke a) ∧
    r_host_uuid request = r_host_uuid r ∧
    generation_of (r_host_uuid r) d < generation_of (r_host_uuid r) d'.
Proof.
  intros Hkr Hinv Hw Ea Hreq Hst Hrun. pose proof (inv_keyed d Hinv) as Hk. unfold approve_stmts in Hst.
  destruct (choice_stmts _ _ _ _) as [[choice cid]|] eqn:Ec; [|done].
  destruct (also_revoke_stmts _ _ _ _ _ _) as [rvs|] eqn:Er; [|done]. injection Hst as <- <-.
  apply run_cons in Hrun as (d0 & Hg & Hrun).
  apply decision_guard_Ok in Hg as (-> & r & Hr & Hp & Hself); [|done].
  apply run_app in Hrun as (d1 & Hch & Hrun). apply run_cons in Hrun as (d2 & Hap & Hrun).
  apply run_app in Hrun as (d3 & Hrv & Hrun). apply run_cons in Hrun as (d4 & Hb & Hnil).
  cbn [run] in Hnil. injection Hnil as <-.
  pose proof (facts_of_evolved rd d _ request r Hkr Hw Hreq Hr Hp) as Ef.
  assert (r_host_uuid request = r_host_uuid r) as Eh by (apply (f_equal f_host_uuid) in Ef; exact Ef).
  assert (rtc sql_write d d1) as W1 by (eapply run_sound; [by eapply choice_stmts_sound|done]).
  destruct (choice_new_run request a id terms choice cid d d1 Hk Ea Ec Hch) as (-> & Hn & Hnew & Hrq & Hho).
  rewrite Ef in Hnew. pose proof (sql_writes_keyed _ _ W1 Hk) as Hk1.
  assert (rtc sql_write d1 d2) as W2 by (by eapply update_requests_sound).
  pose proof (sql_writes_keyed _ _ W2 Hk1) as Hk2.
  apply (approve_request_run a id d1 d2 r Hk1) in Hap; [|by rewrite Hrq|done].
  pose proof (also_revoke_sound (R := rtc sql_write) sha256 to_cbor _ _ _ _ _ Er) as Hsnd.
  assert (rtc sql_write d2 d3) as W3 by (eapply run_sound; done).
  pose proof (sql_writes_inv _ _ (transitivity W1 (transitivity W2 W3)) Hinv) as Hinv3.
  assert (hosts d3 = hosts d2 ∧ requests d3 = requests d2 ∧ approvals d3 !! id = approvals d2 !! id)
    as (K1 & K2 & K3).
  { split; [|split].
    - refine (run_keeps hosts rvs Hsnd _ d2 d3 Hk2 Hrv). eapply (also_revoke_keep _ _ _ _ rd); [done..|]. auto with ledger.
    - refine (run_keeps requests rvs Hsnd _ d2 d3 Hk2 Hrv). eapply (also_revoke_keep _ _ _ _ rd); [done..|]. auto with ledger.
    - refine (run_keeps (λ d, approvals d !! id) rvs Hsnd _ d2 d3 Hk2 Hrv).
      eapply (also_revoke_keep _ _ _ _ rd); [done..|]. intros id' y p f Hy Hpid. apply update_approvals_keeps_row.
      intros d5 x Hk5 Hx. apply not_true_iff_false. intros Ht. specialize (Hpid x Ht).
      rewrite (keyed_approval d5 Hk5 _ _ Hx) in Hpid. subst id'.
      destruct (de_approvals _ _ (sql_writes_evolve rd d Hkr Hw) _ _ Hy) as (z & Hz & _). congruence. }
  pose proof (generation_of_bump _ _ _ _ _ Hb Hinv3) as Hgen.
  destruct (bump_generation_Ok _ _ _ _ _ Hb (inv_keyed d3 Hinv3)) as (h & -> & _).
  exists r. split; [done|]. split; [done|]. split; [done|]. split; [by rewrite Hap in K2; cbn in *; rewrite K2, Hrq|].
  split; [done|]. split; [done|]. split; [cbn; rewrite K3, Hap; done|]. split.
  - rewrite <- Eh. refine (also_revoke_run _ _ _ rd _ d2 d3 Hkr _ Er Hrv). exact (transitivity Hw (transitivity W1 W2)).
  - split; [done|]. rewrite Eh in Hgen |- *. unfold generation_of, app_allowlist_state in Hgen |- *.
    rewrite K1, Hap in Hgen. cbn in Hgen |- *. by rewrite Hho in Hgen.
Qed.

(** an approval that succeeds with a new approval found the request open and, under
    segregation of duties, opened by someone else; it decided that request and no other,
    created exactly the approval of the request's binary, host and user under the chosen
    terms, revoked every listed approval, all of that host, and raised the host's
    generation.  What the caller had read before is any earlier state. *)
Theorem approve_correct a rd d d' id terms dec : rtc sql_write empty_db rd → rtc sql_write rd d →
  app_approve_request sha256 to_cbor a rd d = (d', Ok dec) → ap_choice a = New id terms →
  ∃ r, requests d !! ap_request_id a = Some r ∧ r_state r = ReqPending ∧
    (ap_forbid_self_approval a = true → r_requested_by_admin_id r ≠ Some (ap_admin_id a)) ∧
    dc_request dec = approved_row a id r ∧
    requests d' = <[ap_request_id a := dc_request dec]> (requests d) ∧
    approvals d !! id = None ∧ approvals d' !! id = Some (dc_approval dec) ∧
    dc_approval dec = approval_for (facts_of_row r) id (ap_admin_id a) terms (ap_now a) ∧
    Forall (λ rv, ∃ x, approvals d' !! rv_approval_id rv = Some x ∧ a_state x = Revoked ∧
                       a_host_uuid x = r_host_uuid r) (ap_also_revoke a) ∧
    generation_of (r_host_uuid r) d < dc_generation dec ∧
    dc_generation dec = generation_of (r_host_uuid r) d'.
Proof.
  intros Hrd Hw H Ea. assert (db_keyed rd) as Hkr by (eapply sql_writes_keyed; [done|apply empty_keyed]).
  assert (ledger_inv d) as Hinv.
  { eapply sql_writes_inv; [done|]. eapply sql_writes_inv; [done|apply empty_inv]. }
  unfold app_approve_request in H. destruct (validate _); [|done].
  destruct (app_request _ rd) as [request|] eqn:Hreq; [|done]. destruct (negb _); [done|].
  destruct (approve_stmts _ _ _ _ _) as [[stmts aid]|] eqn:Hst; [|done].
  apply commit_Ok in H as [Hrun Hdec].
  destruct (approve_new_run a request rd d d' id terms stmts aid Hkr Hinv Hw Ea Hreq Hst Hrun)
    as (r & Hr & Hp & Hs & Hrq & -> & Hn & Hnew & Hrv & Eh & Hgen).
  unfold decided, app_request, app_approval in Hdec. rewrite Hrq, Hnew, lookup_insert_eq in Hdec. cbn in Hdec.
  destruct (read_all _ d') as [revoked|]; [|done]. injection Hdec as <-. cbn. rewrite Eh.
  exists r. split; [done|]. split; [done|]. split; [done|]. repeat (split; [done|]). done.
Qed.
End Decisions.
