(* ===== verification/AppAuto.v ===== *)
(** Auto-approval (crates/ferro-raft/src/apps/intake.rs): when [app_try_auto_approve]
    approves without an administrator, every condition of its guard held in the database the
    transaction ran on, and the approval is a copy of the standing one. *)
From S2P Require Import Prelude AppModel AppSchema AppInvariants AppLedger AppOps AppProofs AppOpTheorems.
Open Scope Z_scope.

(** The conditions under which a request may be approved automatically from [p]. *)
Record eligible (req : NewRequest) (c : AutoChecks) (d : Db) (p : ApprovalRow) : Prop := {
  el_new : case_when (intake_cases req (ac_now c) (ac_denied_cooldown_since c) d) = None;
  el_parent : app_auto_parent (n_host_uuid req) (n_lineage_id req) (ac_now c) d = Some p;
  el_unfrozen : ∀ k l, lineages d !! k = Some l → l_lineage_id l = n_lineage_id req →
    l_auto_update_frozen l = false;
  el_user : user_matches req p = true;
  el_anchor : anchored req p d = true;
  el_not_revoked : hash_revoked d (n_lineage_id req) (n_bin_sha req) = false;
  el_not_denied : hash_denied d (n_lineage_id req) (n_bin_sha req) = false;
  el_rate : count_rows (λ a, is_ (a_lineage_id a) (n_lineage_id req) && is_ (a_origin a) AutoUpdate
    && (ac_now c - 86400 <? a_created_at a)) (approvals d) < ac_max_per_day c }.

(** What the parent query returns. *)
Lemma auto_parent_Some host lid now d p : app_auto_parent host lid now d = Some p →
  ∃ k, approvals d !! k = Some p ∧ a_lineage_id p = lid ∧ a_host_uuid p = host ∧ a_state p = Active ∧
    a_update_policy p = AutoSamePathUser ∧ (∀ t, a_expires_at p = Some t → now < t).
Proof.
  intros (k & Hk & Hp)%best_row_Some. apply andb_true_iff in Hp as [Hp He]. sql_facts. exists k.
  repeat (split; [done|]). intros t Et. rewrite Et in He. cbn in He. by apply Z.ltb_lt.
Qed.

Lemma auto_guard_Ok req parent c d d' : guard_stmt (auto_cases req parent c) d = Ok d' →
  d' = d ∧ ∃ p, eligible req c d p ∧ a_approval_id <$> parent = Some (a_approval_id p) ∧
    a_row_version <$> parent = Some (a_row_version p).
Proof.
  intros [-> Hg]%guard_Ok. split; [done|]. apply case_when_None in Hg. unfold auto_cases in Hg.
  apply Forall_app in Hg as [Hnew Hg]. apply case_when_None in Hnew.
  repeat match goal with
  | H : Forall _ (_ :: _) |- _ => apply Forall_cons in H; let C := fresh "C" in destruct H as [C H]; cbn [fst] in C
  end.
  destruct (app_auto_parent _ _ _ d) as [p|] eqn:Ep; [|done]. exists p. sql_facts.
  repeat match goal with H : eq_null _ _ = true |- _ => apply eq_null_true in H as (? & [= <-] & ->) end.
  split; [|done]. split; try done.
  - intros k l Hl El.
    match goal with H : exists_row _ (lineages d) = false |- _ =>
      pose proof (proj1 (exists_row_false _ _) H k l Hl) as Hx end.
    apply andb_false_iff in Hx as [Hx|Hx]; [by sql_facts|done].
  - by apply Z.leb_gt.
Qed.

Section Auto.
Context (sha256 : list u8 → list u8) (to_cbor : ApprovalSnapshot → result LedgerError (list u8)).

(** What an auto-approval has done when it committed. *)
Record auto_approved (req : NewRequest) (id : string) (c : AutoChecks) (d d' : Db)
    (p : ApprovalRow) (r : RequestRow) : Prop := {
  aa_fresh : approvals d !! id = None;
  aa_child : approvals d' !! id = Some (child_of p id req (ac_now c));
  aa_others : approvals_frame ∅ {[id]} d d';
  aa_requests : requests d !! n_request_id req = None ∧
    requests d' = <[n_request_id req := r]> (requests d);
  aa_decision : r_state r = ReqAutoApproved ∧ r_resulting_approval_id r = Some id ∧
    r_decided_by_admin_id r = None ∧ r_target r = n_target req ∧ r_bin_sha r = n_bin_sha req;
  aa_generation : generation_of (n_host_uuid req) d < generation_of (n_host_uuid req) d' }.

Lemma auto_run req p0 id c stmts d d' : ledger_inv d →
  auto_stmts sha256 to_cbor req (Some p0) id c = Ok stmts → run stmts d = Ok d' →
  ∃ p r, eligible req c d p ∧ auto_approved req id c d d' p r.
Proof.
  intros Hinv Hs Hrun. pose proof (inv_keyed d Hinv) as Hk.
  pose proof (run_frames _ _ _ (auto_stmts_sound sha256 to_cbor _ _ _ _ _ Hs)
    (auto_stmts_frames sha256 to_cbor _ _ _ _ _ Hs) d d' Hk Hrun) as Hframe.
  unfold auto_stmts in Hs. destruct (snapshot_cbor _ _ _) as [after|]; [|done]. injection Hs as <-.
  apply run_cons in Hrun as (d0 & Hg & Hrun).
  apply auto_guard_Ok in Hg as (-> & p & Hel & [= Eid] & [= Ever]). exists p.
  destruct (auto_parent_Some _ _ _ _ _ (el_parent _ _ _ _ Hel)) as (k & Hp & El & Eh & _).
  pose proof (keyed_approval d Hk _ _ Hp) as Ek.
  apply run_cons in Hrun as (d1 & Hc & Hrun). pose proof (insert_child_stmt_sound (R := rtc sql_write) _ _ _ _ _ _ Hc) as W1.
  unfold insert_child_stmt in Hc. rewrite Eid, Ek, Hp in Hc.
  apply insert_approval_Ok in Hc as (E1 & _ & _ & _ & _ & _ & Hn & _). cbn [a_approval_id child_of] in E1, Hn.
  apply run_cons in Hrun as (d2 & Hv & Hrun). pose proof (insert_revision_stmt_sound (R := rtc sql_write) _ _ _ _ _ _ _ _ _ Hv) as W2.
  apply insert_revision_Ok in Hv as (E2 & _).
  apply run_cons in Hrun as (d3 & Hq & Hrun). pose proof (insert_request_stmt_sound (R := rtc sql_write) _ _ _ _ Hq) as W3.
  apply insert_request_Ok in Hq as (E3 & _ & _ & _ & Hrn & _). cbn [r_request_id] in E3, Hrn.
  apply run_cons in Hrun as (d4 & Hu & Hrun). pose proof (update_approvals_sound (R := rtc sql_write) _ _ _ _ Hu) as W4.
  pose proof (sql_writes_inv _ _ (transitivity W1 (transitivity W2 W3)) Hinv) as Hinv3.
  pose proof (sql_writes_inv _ _ W4 Hinv3) as Hinv4.
  apply run_cons in Hrun as (d5 & Hb & Hnil). cbn [run] in Hnil. injection Hnil as <-.
  assert (approvals d4 !! id = approvals d3 !! id) as K1.
  { refine (update_approvals_keeps_row id _ _ _ d3 d4 (inv_keyed d3 Hinv3) Hu).
    intros d6 x Hk6 Hx. rewrite (keyed_approval d6 Hk6 _ _ Hx).
    unfold is_ at 1. rewrite bool_decide_eq_false_2 by congruence. done. }
  pose proof (update_approvals_keeps requests _ _ ltac:(done) d3 d4 (inv_keyed d3 Hinv3) Hu) as K2.
  pose proof (update_approvals_keeps hosts _ _ ltac:(done) d3 d4 (inv_keyed d3 Hinv3) Hu) as K3.
  pose proof (generation_of_bump _ _ _ _ _ Hb Hinv4) as Hgen.
  destruct (bump_generation_Ok _ _ _ _ _ Hb (inv_keyed d4 Hinv4)) as (h & -> & _).
  rewrite E2, E1 in Hrn, E3. rewrite E3 in K1, K2, K3. cbn in K1, K2, K3. rewrite lookup_insert_eq in K1.
  eexists. split; [done|]. split; [done|exact K1|done|split; [exact Hrn|exact K2]| |].
  - done.
  - unfold generation_of, app_allowlist_state in Hgen |- *. rewrite K3 in Hgen. exact Hgen.
Qed.

Lemma auto_attempt_AutoApproved req id c rd d d' x : ledger_inv d →
  auto_attempt sha256 to_cbor req id c rd d = (d', Some (Ok (AutoApproved x))) →
  ∃ p, eligible req c d p ∧ auto_approved req id c d d' p (auto_request x) ∧
    auto_approval x = child_of p id req (ac_now c) ∧ auto_generation x = generation_of (n_host_uuid req) d'.
Proof.
  intros Hinv H. unfold auto_attempt in H.
  destruct (app_auto_parent _ _ _ rd) as [p0|]; destruct (auto_stmts _ _ _ _ _ _) as [stmts|] eqn:Es; try done;
    destruct (ledger_txn stmts d) as [d1 [[|code]|e]] eqn:Et; try done.
  - apply ledger_txn_Committed in Et.
    destruct (auto_run req p0 id c stmts d d1 Hinv Es Et) as (p & r & Hel & Ha). cbn in H.
    unfold app_request, app_approval in H. destruct (aa_requests _ _ _ _ _ _ _ Ha) as [_ Er].
    rewrite Er, lookup_insert_eq, (aa_child _ _ _ _ _ _ _ Ha) in H. cbn in H. injection H as <- <-.
    exists p. cbn. done.
  - destruct (String.eqb _ _); [done|]. destruct (from_str_code code); [done|].
    by destruct (dedup_outcome _ _ _ _ _).
  - destruct (String.eqb _ _); [done|]. destruct (from_str_code code); [done|].
    by destruct (dedup_outcome _ _ _ _ _).
Qed.

(** C17: when [app_try_auto_approve] reports an auto-approval, one of its at most three
    attempts ran on a database in which nothing deduplicated the request, the standing
    approval [p] of the lineage was active, unexpired, admitted the user and the
    continuity anchor, the lineage was not frozen, the hash never revoked or denied there
    and the daily rate not exhausted; it added exactly the child of [p] and the decided
    request, and raised the host's generation. *)
Theorem auto_approve_correct req id c d0 worlds d' x :
  (∀ i, rtc sql_write empty_db (worlds i).2) →
  app_try_auto_approve sha256 to_cbor req id c d0 worlds = (d', Ok (AutoApproved x)) →
  ∃ i p, (i < AUTO_ATTEMPTS)%nat ∧ eligible req c (worlds i).2 p ∧
    auto_approved req id c (worlds i).2 d' p (auto_request x) ∧
    auto_approval x = child_of p id req (ac_now c) ∧
    auto_generation x = generation_of (n_host_uuid req) d'.
Proof.
  intros Hw H. unfold app_try_auto_approve in H. destruct (validate _); [|done]. revert d0 H.
  assert (∀ n d0, auto_loop sha256 to_cbor req id c n d0 worlds = (d', Ok (AutoApproved x)) →
    ∃ i, (i < n)%nat ∧ auto_attempt sha256 to_cbor req id c (worlds i).1 (worlds i).2
      = (d', Some (Ok (AutoApproved x)))) as Hloop.
  { induction n as [|n IH]; intros d1; cbn [auto_loop]; [done|].
    destruct (auto_attempt _ _ _ _ _ (worlds n).1 _) as [d2 [r|]] eqn:E.
    - intros [= -> ->]. exists n. split; [lia|done].
    - intros (i & Hi & ?)%IH. exists i. split; [lia|done]. }
  intros d0 (i & Hi & H)%Hloop. apply auto_attempt_AutoApproved in H as (p & ?).
  - by exists i, p.
  - eapply sql_writes_inv; [apply Hw|apply empty_inv].
Qed.
End Auto.
