(* ===== verification/AppWitnesses.v ===== *)
(** The ledger theorems applied to the concrete history of AppSample. *)
From S2P Require Import Prelude AppModel AppDedup AppSchema AppInvariants AppLedger AppOps AppProofs AppSample AppTheorems AppOpTheorems AppAuto.
Open Scope Z_scope.

Abbreviation step := (ledger_step toy_sha256 toy_cbor).

(** ** The history is one of ledger operations *)
Lemma steps_pending : rtc step empty_db d_pending.
Proof.
  eapply rtc_l; [apply ls_observe|]. eapply rtc_l; [apply ls_submit|]. apply rtc_refl.
Qed.
Lemma steps_approved : rtc step d_pending d_approved.
Proof. apply rtc_once, ls_approve. Qed.
Lemma steps_observed2 : rtc step d_approved d_observed2.
Proof. apply rtc_once, ls_observe. Qed.
Lemma steps_auto : rtc step d_observed2 d_auto.
Proof. apply rtc_once, ls_auto. Qed.
Lemma steps_revoked : rtc step d_auto d_revoked.
Proof. apply rtc_once, ls_revoke. Qed.
Lemma steps_denied : rtc step d_revoked d_denied.
Proof.
  eapply rtc_l; [apply ls_observe|]. eapply rtc_l; [apply ls_submit|].
  eapply rtc_l; [apply ls_deny|]. apply rtc_refl.
Qed.

Lemma steps_to_observed2 : rtc step empty_db d_observed2.
Proof. exact (transitivity steps_pending (transitivity steps_approved steps_observed2)). Qed.
Lemma steps_to_auto : rtc step empty_db d_auto.
Proof. exact (transitivity steps_to_observed2 steps_auto). Qed.
Lemma steps_to_revoked : rtc step empty_db d_revoked.
Proof. exact (transitivity steps_to_auto steps_revoked). Qed.
Lemma steps_to_denied : rtc step empty_db d_denied.
Proof. exact (transitivity steps_to_revoked steps_denied). Qed.

Abbreviation writes H := (ledger_steps_sound toy_sha256 toy_cbor _ _ H).

Lemma steps_readmitted : rtc step d_denied d_readmitted.
Proof. apply rtc_once, ls_register. Qed.
Lemma steps_to_compiled : rtc step empty_db d_compiled.
Proof.
  transitivity d_approved; [exact (transitivity steps_pending steps_approved)|]. apply rtc_once, ls_digest.
Qed.
Lemma steps_cached : rtc step d_compiled d_cached.
Proof. apply rtc_once, ls_cache. Qed.
Lemma steps_to_own : rtc step empty_db d_own.
Proof. apply (transitivity steps_to_revoked), rtc_once, ls_submit. Qed.

Lemma steps_keyed d : rtc step empty_db d → db_keyed d.
Proof. intros H. eapply sql_writes_keyed; [exact (writes H)|apply empty_keyed]. Qed.

(** A row of a table, and a result, known to be there. *)
Lemma row_there {A} (x : option A) : not_null x = true → ∃ y, x = Some y.
Proof. destruct x; [by eexists|done]. Qed.
Lemma result_there {E A} (p : Db * result E A) :
  (if p.2 is Ok _ then true else false) = true → ∃ y, p = (p.1, Ok y).
Proof. destruct p as [d [y|e]]; [by eexists|done]. Qed.
Lemma auto_approval_there (p : Db * result LedgerError AutoIntake) :
  (if p.2 is Ok (AutoApproved _) then true else false) = true → ∃ x, p = (p.1, Ok (AutoApproved x)).
Proof. destruct p as [d [[x| |]|e]]; [by eexists|done..]. Qed.

Ltac there := apply row_there; vm_compute; reflexivity.

Lemma revoked_is_final_witness : ∃ a a', approvals d_revoked !! "ap2" = Some a ∧ a_state a = Revoked ∧
  approvals d_denied !! "ap2" = Some a' ∧ policy_view a' = policy_view a.
Proof.
  assert (∃ a, approvals d_revoked !! "ap2" = Some a) as [a Ha] by there.
  assert (a_state a = Revoked) as Hs by (vm_compute in Ha; injection Ha as <-; reflexivity).
  destruct (revoked_is_final d_revoked d_denied "ap2" a (writes steps_to_revoked) (writes steps_denied) Ha Hs)
    as (a' & Ha' & _ & _ & Hp & _).
  exists a, a'. exact (conj Ha (conj Hs (conj Ha' Hp))).
Defined.

Lemma approval_never_replaced_witness : ∃ a a', approvals d_approved !! "ap1" = Some a ∧
  approvals d_denied !! "ap1" = Some a' ∧ approval_identity a' = approval_identity a ∧
  a_row_version a ≤ a_row_version a'.
Proof.
  assert (∃ a, approvals d_approved !! "ap1" = Some a) as [a Ha] by there.
  destruct (approval_never_replaced d_approved d_denied "ap1" a
    (writes (transitivity steps_pending steps_approved))
    (writes (transitivity steps_observed2 (transitivity steps_auto (transitivity steps_revoked steps_denied)))) Ha)
    as (a' & Ha' & Hi & _ & _ & _ & Hv & _).
  exists a, a'. exact (conj Ha (conj Ha' (conj Hi Hv))).
Defined.

Lemma request_decided_once_witness : ∃ r r', requests d_pending !! "r1" = Some r ∧
  requests d_approved !! "r1" = Some r' ∧ request_identity r' = request_identity r.
Proof.
  assert (∃ r, requests d_pending !! "r1" = Some r) as [r Hr] by there.
  destruct (request_decided_once d_pending d_approved "r1" r (writes steps_pending) (writes steps_approved) Hr)
    as (r' & Hr' & Hi & _).
  exists r, r'. exact (conj Hr (conj Hr' Hi)).
Defined.

Lemma auto_update_never_reapproves_witness : ∃ a, approvals d_readmitted !! "ap4" = Some a ∧
  hash_revoked d_denied "lin1" sha_b = true ∧ a_origin a ≠ AutoUpdate.
Proof.
  assert (∃ a, approvals d_readmitted !! "ap4" = Some a) as [a Ha] by there.
  assert (hash_revoked d_denied "lin1" sha_b = true) as Hh by (vm_compute; reflexivity).
  assert (a_lineage_id a = "lin1" ∧ a_bin_sha a = sha_b) as [E1 E2]
    by (vm_compute in Ha; injection Ha as <-; split; vm_compute; reflexivity).
  exists a. split; [exact Ha|]. split; [exact Hh|].
  apply (auto_update_never_reapproves d_denied d_readmitted "ap4" a (writes steps_to_denied) (writes steps_readmitted)).
  - left. rewrite E1, E2. exact Hh.
  - vm_compute. reflexivity.
  - exact Ha.
Defined.

Lemma generation_never_decreases_witness : ∃ x x', hosts d_auto !! "h1" = Some x ∧
  hosts d_revoked !! "h1" = Some x' ∧ h_generation x ≤ h_generation x'.
Proof.
  assert (∃ x, hosts d_auto !! "h1" = Some x) as [x Hx] by there.
  destruct (generation_never_decreases d_auto d_revoked "h1" x (writes steps_to_auto) (writes steps_revoked) Hx)
    as (x' & Hx' & Hle).
  exists x, x'. exact (conj Hx (conj Hx' Hle)).
Defined.

Lemma every_approval_authorised_witness : ∃ a, approvals d_auto !! "ap2" = Some a ∧
  authorised d_auto (a_host_uuid a) (a_lineage_id a) "ap2".
Proof.
  assert (∃ a, approvals d_auto !! "ap2" = Some a) as [a Ha] by there.
  exists a. exact (conj Ha (every_approval_authorised d_auto "ap2" a (writes steps_to_auto) Ha)).
Defined.

Lemma operations_refine_guarded_writes_witness : reachable_db d_denied ∧ ledger_inv d_denied.
Proof. exact (operations_refine_guarded_writes toy_sha256 toy_cbor d_denied steps_to_denied). Defined.

Lemma one_open_request_per_key_witness : ∃ r, requests d_pending !! "r1" = Some r ∧ r_state r = ReqPending ∧
  ∀ j r', requests d_pending !! j = Some r' → r_state r' = ReqPending → r_dedup_key r = r_dedup_key r' → "r1" = j.
Proof.
  assert (∃ r, requests d_pending !! "r1" = Some r) as [r Hr] by there.
  assert (r_state r = ReqPending) as Hs by (vm_compute in Hr; injection Hr as <-; reflexivity).
  exists r. split; [exact Hr|]. split; [exact Hs|]. intros j r' Hr' Hs'.
  exact (one_open_request_per_key toy_sha256 toy_cbor d_pending "r1" j r r' steps_pending Hr Hr' Hs Hs').
Defined.

Lemma every_version_recorded_witness : ∃ rev, revisions d_denied !! ("ap2", 2) = Some rev ∧
  v_approval_id rev = "ap2" ∧ v_row_version rev = 2.
Proof.
  assert (∃ a, approvals d_denied !! "ap2" = Some a) as [a Ha] by there.
  assert (2 ≤ 2 ≤ a_row_version a) as Hv by (vm_compute in Ha; injection Ha as <-; vm_compute; split; discriminate).
  exact (every_version_recorded toy_sha256 toy_cbor d_denied "ap2" a 2 steps_to_denied Ha Hv).
Defined.

Lemma revisions_sequential_witness :
  exists ! sha, ∃ b, binaries d_denied !! ("lin1", sha) = Some b ∧ b_revision b = 2.
Proof.
  assert (∃ l, lineages d_denied !! "lin1" = Some l) as [l Hl] by there.
  assert (1 ≤ 2 < l_next_revision l) as Hv by (vm_compute in Hl; injection Hl as <-; vm_compute; split; [discriminate|reflexivity]).
  exact (revisions_sequential toy_sha256 toy_cbor d_denied "lin1" l 2 steps_to_denied Hl Hv).
Defined.

Lemma references_resolve_witness : ∃ r, requests d_denied !! "r2" = Some r ∧
  binary_on d_denied (r_lineage_id r) (r_bin_sha r) (r_revision r) (r_host_uuid r).
Proof.
  assert (∃ r, requests d_denied !! "r2" = Some r) as [r Hr] by there.
  destruct (references_resolve toy_sha256 toy_cbor d_denied steps_to_denied) as [_ H].
  exists r. split; [exact Hr|]. exact (proj1 (H "r2" r Hr)).
Defined.

Lemma intake_never_changes_approvals_witness : approvals_frame ∅ {["ap2"]} d_observed2 d_auto.
Proof.
  exact (proj2 (proj2 (intake_never_changes_approvals toy_sha256 toy_cbor d_observed2 (sample_binary sha_b 30)
    (sample_request "r2" sha_b 2 40) {| ic_now := 10; ic_denied_cooldown_since := None |} "ap2" sample_auto
    d_observed2 (steps_keyed _ steps_to_observed2)))).
Defined.

Lemma approve_alters_only_listed_witness : approvals_frame ∅ {["ap1"]} d_pending d_approved.
Proof.
  exact (approve_alters_only_listed toy_sha256 toy_cbor sample_approve d_pending d_pending
    (steps_keyed _ steps_pending) (steps_keyed _ steps_pending)).
Defined.

Lemma revoke_correct_witness : ∃ x a, approvals d_auto !! "ap2" = Some x ∧ a_state x ≠ Revoked ∧
  a = revoked_row sample_revoke 50 x ∧ approvals d_revoked !! "ap2" = Some a ∧
  generation_of (a_host_uuid a) d_auto < generation_of (a_host_uuid a) d_revoked.
Proof.
  assert (∃ a, app_revoke_approval toy_sha256 toy_cbor sample_revoke 50 50000 d_auto d_auto = (d_revoked, Ok a))
    as [a Ha] by (apply result_there; vm_compute; reflexivity).
  destruct (revoke_correct toy_sha256 toy_cbor sample_revoke 50 50000 d_auto d_auto d_revoked a
    (writes steps_to_auto) (rtc_refl _ _) Ha) as (x & v & Hx & Hs & _ & E & Ha' & _ & _ & _ & Hg).
  exists x, a. exact (conj Hx (conj Hs (conj E (conj Ha' Hg)))).
Defined.

Lemma submit_pending_correct_witness :
  submit_outcome (sample_request "r1" sha_a 1 10) {| ic_now := 10; ic_denied_cooldown_since := None |} d_observed
    (app_submit_pending (sample_request "r1" sha_a 1 10) {| ic_now := 10; ic_denied_cooldown_since := None |} d_observed).
Proof. apply (submit_pending_correct (sample_request "r1" sha_a 1 10)). vm_compute. reflexivity. Defined.

Lemma generation_fixes_digest_witness : ∃ x x', hosts d_compiled !! "h1" = Some x ∧
  hosts d_cached !! "h1" = Some x' ∧ h_entries_digest x' = h_entries_digest x.
Proof.
  assert (∃ x, hosts d_compiled !! "h1" = Some x) as [x Hx] by there.
  assert (∃ x', hosts d_cached !! "h1" = Some x') as [x' Hx'] by there.
  exists x, x'. split; [exact Hx|]. split; [exact Hx'|].
  apply (generation_fixes_digest toy_sha256 toy_cbor d_compiled d_cached "h1" x x' steps_to_compiled steps_cached Hx Hx').
  - vm_compute in Hx. injection Hx as <-. discriminate.
  - vm_compute in Hx, Hx'. injection Hx as <-. injection Hx' as <-. reflexivity.
Defined.

Lemma self_approval_refused_witness :
  (∃ e, app_approve_request toy_sha256 toy_cbor own_approve d_own d_own = (d_own, Err e)) ∧
  app_deny_request own_deny d_own = (d_own, Err SelfApproval).
Proof.
  assert (∃ r, requests d_own !! ap_request_id own_approve = Some r) as [r Hr] by there.
  assert (r_requested_by_admin_id r = Some "adm" ∧ r_state r = ReqPending) as [Ha Hs]
    by (vm_compute in Hr; injection Hr as <-; split; reflexivity).
  destruct (self_approval_refused toy_sha256 toy_cbor own_approve own_deny d_own d_own r
    (steps_keyed _ steps_to_own) Hr Ha eq_refl eq_refl eq_refl eq_refl Hs) as [H1 H2].
  split; [exact H1|]. apply H2; vm_compute; reflexivity.
Defined.

Lemma approve_correct_witness : ∃ r dec, requests d_pending !! "r1" = Some r ∧
  requests d_approved = <["r1" := dc_request dec]> (requests d_pending) ∧
  approvals d_approved !! "ap1" = Some (dc_approval dec).
Proof.
  assert (∃ dec, app_approve_request toy_sha256 toy_cbor sample_approve d_pending d_pending = (d_approved, Ok dec))
    as [dec Hdec] by (apply result_there; vm_compute; reflexivity).
  destruct (approve_correct toy_sha256 toy_cbor sample_approve d_pending d_pending d_approved "ap1" sample_terms dec
    (writes steps_pending) (rtc_refl _ _) Hdec eq_refl) as (r & Hr & _ & _ & _ & Hq & _ & Ha & _).
  exists r, dec. exact (conj Hr (conj Hq Ha)).
Defined.

Lemma auto_approve_correct_witness : ∃ p x, eligible (sample_request "r2" sha_b 2 40) sample_auto d_observed2 p ∧
  auto_approval x = child_of p "ap2" (sample_request "r2" sha_b 2 40) 40.
Proof.
  pose (run := app_try_auto_approve toy_sha256 toy_cbor (sample_request "r2" sha_b 2 40) "ap2" sample_auto
    d_observed2 (λ _, (d_observed2, d_observed2))).
  assert (∃ x, run = (run.1, Ok (AutoApproved x))) as [x Hx]
    by (apply auto_approval_there; vm_compute; reflexivity).
  destruct (auto_approve_correct toy_sha256 toy_cbor (sample_request "r2" sha_b 2 40) "ap2" sample_auto
    d_observed2 (λ _, (d_observed2, d_observed2)) run.1 x (λ _, writes steps_to_observed2) Hx)
    as (i & p & _ & Hel & _ & Ha & _).
  exists p, x. exact (conj Hel Ha).
Defined.

(** Two spellings of one user on one host. *)
Definition alice_sid (s : string) : UserIdentity :=
  {| kind := Windows; uid := None; sid := Some s; user_name := None |}.

Lemma dedup_key_identifies_witness :
  ("h1" = "h1" ∧ as_bytes "/x" = as_bytes "/x" ∧ same_user (alice_sid "s-1") (alice_sid "S-1") ∧ sha_a = sha_a) ∨
  (dedup_input "h1" (as_bytes "/x") (alice_sid "s-1") sha_a ≠ dedup_input "h1" (as_bytes "/x") (alice_sid "S-1") sha_a ∧
   toy_sha256 (dedup_input "h1" (as_bytes "/x") (alice_sid "s-1") sha_a)
   = toy_sha256 (dedup_input "h1" (as_bytes "/x") (alice_sid "S-1") sha_a)).
Proof.
  apply (dedup_key_identifies toy_sha256 "h1" (as_bytes "/x") (alice_sid "s-1") sha_a "h1" (as_bytes "/x")
    (alice_sid "S-1") sha_a); refine (bool_decide_unpack _ _); vm_compute; exact I.
Defined.
