(* ===== verification/Composite.v ===== *)
(** Composite Ed25519 + ML-DSA-65 signatures (crates/ferro-crypto/src/composite.rs).

    The two primitives, the hash functions, the DER and base64url encoders are other
    crates: fields of [Primitives].  [PrimitiveLaws] is their documented behaviour: key
    pairs match, an honest signature verifies, sizes are those of the standards, and
    encodings decode to what was encoded.  Nothing is assumed about forgeries. *)
From S2P Require Import Prelude AppModel AppDedup.
Open Scope Z_scope.

(** ** Constants *)
Definition COMPOSITE_JOSE_ALG : string := "MLDSA65+Ed25519".
Definition COMPOSITE_OID : string := "2.16.840.1.114027.80.8.1.7".
Definition DOMAIN_TAG : list u8 := as_bytes "FERROGATE-COMPOSITE-v1".
Definition ED25519_PK_LEN : nat := 32.
Definition ED25519_SIG_LEN : nat := 64.
(** [ml_dsa_65::PK_LEN] and [ml_dsa_65::SIG_LEN] (FIPS 204). *)
Definition MLDSA65_PK_LEN : nat := 1952.
Definition MLDSA65_SIG_LEN : nat := 3309.
Definition COMPOSITE_PK_LEN : nat := (ED25519_PK_LEN + MLDSA65_PK_LEN)%nat.
Definition COMPOSITE_SIG_LEN : nat := (ED25519_SIG_LEN + MLDSA65_SIG_LEN)%nat.
Definition TRANSCRIPT_HASH_LEN : nat := 48.
Definition ED25519_PKCS8_PREFIX : list u8 :=
  u8.of_Z <$> [0x30; 0x2e; 0x02; 0x01; 0x00; 0x30; 0x05; 0x06; 0x03; 0x2b; 0x65; 0x70; 0x04; 0x22; 0x04; 0x20].
Definition ED25519_PKCS8_LEN : nat := (length ED25519_PKCS8_PREFIX + ED25519_PK_LEN)%nat.

Inductive CompositeError :=
  | ClassicalFailed | PqcFailed | KeyGen (e : string) | SignFailed (e : string)
  | CompositeDecode (e : string) | CompositeEncode (e : string)
  | InteropDomainCollision (len : nat) | Pkcs8 (e : string).

(** ** Data *)

(** The two halves of a key, of the types the primitives have. *)
Record CompositePublicKey (EdVk MlPk : Type) := { pk_ed25519 : EdVk; pk_mldsa65 : MlPk }.
Record CompositeSecretKey (EdSk MlSk : Type) := { sk_ed25519 : EdSk; sk_mldsa65 : MlSk }.
Arguments pk_ed25519 {_ _} _.
Arguments pk_mldsa65 {_ _} _.
Arguments sk_ed25519 {_ _} _.
Arguments sk_mldsa65 {_ _} _.

(** [classical] is an array of [ED25519_SIG_LEN] bytes ([sig_wf]). *)
Record CompositeSignature := { classical : list u8; pqc : list u8 }.
#[export] Instance CompositeSignature_eq_dec : EqDecision CompositeSignature.
Proof. solve_decision. Defined.
Definition sig_wf (s : CompositeSignature) : Prop := length (classical s) = ED25519_SIG_LEN.

Record CompositeSigAsn := { asn_algorithm : string; asn_classical : list u8; asn_pqc : list u8 }.

(** What composite.rs uses of other crates. *)
Record Primitives := {
  EdSk : Type; EdVk : Type; MlSk : Type; MlPk : Type;
  sha3_384 : list u8 → vec u8 48;
  sha3_256 : list u8 → vec u8 32;
  sha384 : list u8 → vec u8 48;
  sha256 : list u8 → vec u8 32;
  hex_encode : list u8 → string;
  (* ed25519_dalek *)
  ed_from_bytes : list u8 → EdSk;
  ed_sk_bytes : EdSk → list u8;
  verifying_key : EdSk → EdVk;
  ed_vk_bytes : EdVk → list u8;
  ed_vk_from_bytes : list u8 → option EdVk;
  ed_sign : EdSk → list u8 → list u8;
  verify_strict : EdVk → list u8 → list u8 → bool;
  (* fips204; a signature takes its message, context and hedging value *)
  keygen_from_seed : list u8 → MlPk * MlSk;
  ml_public : MlSk → MlPk;
  ml_pk_bytes : MlPk → list u8;
  ml_pk_from_bytes : list u8 → option MlPk;
  try_sign_with_seed : MlSk → list u8 → list u8 → list u8 → result string (list u8);
  ml_verify : MlPk → list u8 → list u8 → list u8 → bool;
  (* der, base64 *)
  octet_string : list u8 → option (list u8);
  asn_to_der : CompositeSigAsn → option (list u8);
  asn_from_der : list u8 → option CompositeSigAsn;
  b64url_encode : list u8 → string;
  b64url_decode : string → option (list u8) }.

Class PrimitiveLaws (P : Primitives) := {
  ed_sign_verifies sk m : verify_strict P (verifying_key P sk) m (ed_sign P sk m) = true;
  ed_sign_length sk m : length (ed_sign P sk m) = ED25519_SIG_LEN;
  ed_sk_bytes_length sk : length (ed_sk_bytes P sk) = 32%nat;
  ed_sk_from_bytes sk : ed_from_bytes P (ed_sk_bytes P sk) = sk;
  ed_vk_bytes_length vk : length (ed_vk_bytes P vk) = ED25519_PK_LEN;
  ed_vk_round_trip vk : ed_vk_from_bytes P (ed_vk_bytes P vk) = Some vk;
  keygen_pair seed : (keygen_from_seed P seed).1 = ml_public P (keygen_from_seed P seed).2;
  ml_sign_verifies sk rnd m ctx s :
    try_sign_with_seed P sk rnd m ctx = Ok s → ml_verify P (ml_public P sk) m s ctx = true;
  ml_sign_length sk rnd m ctx s :
    try_sign_with_seed P sk rnd m ctx = Ok s → length s = MLDSA65_SIG_LEN;
  ml_pk_bytes_length pk : length (ml_pk_bytes P pk) = MLDSA65_PK_LEN;
  ml_pk_round_trip pk : ml_pk_from_bytes P (ml_pk_bytes P pk) = Some pk;
  octet_string_bytes b o : octet_string P b = Some o → o = b;
  asn_round_trip a der : asn_to_der P a = Some der → asn_from_der P der = Some a;
  b64url_round_trip b : b64url_decode P (b64url_encode P b) = Some b;
  b64url_no_dot b : Byte.x2e ∉ as_bytes (b64url_encode P b) }.

(** [u64::to_be_bytes]. *)
Definition be64 (n : nat) : list u8 :=
  (λ i, u8.of_Z (Z.shiftr (Z.of_nat n) (8 * i))) <$> [7; 6; 5; 4; 3; 2; 1; 0].

Section Composite.
Context (P : Primitives).
Local Abbreviation PublicKey := (CompositePublicKey (EdVk P) (MlPk P)).
Local Abbreviation SecretKey := (CompositeSecretKey (EdSk P) (MlSk P)).

(** ** Transcript *)

(** The string both primitives sign the hash of. *)
Definition transcript_input (ctx msg : list u8) : list u8 :=
  DOMAIN_TAG ++ be64 (length ctx) ++ ctx ++ msg.
Definition transcript_hash (ctx msg : list u8) : list u8 :=
  vec_to_list (sha3_384 P (transcript_input ctx msg)).

Definition derive_subseed (seed tag : list u8) : list u8 := vec_to_list (sha3_256 P (tag ++ seed)).

Definition reject_transcript_sized (msg : list u8) : result CompositeError unit :=
  if (length msg =? TRANSCRIPT_HASH_LEN)%nat then Err (InteropDomainCollision (length msg)) else Ok tt.

(** ** PKCS#8 *)
Definition ed25519_pkcs8_from_seed (seed : list u8) : list u8 := ED25519_PKCS8_PREFIX ++ seed.

Definition ed25519_public_from_pkcs8 (der : list u8) : result CompositeError (list u8) :=
  if negb (length der =? ED25519_PKCS8_LEN)%nat then Err (Pkcs8 "length") else
  if negb (bool_decide (take (length ED25519_PKCS8_PREFIX) der = ED25519_PKCS8_PREFIX))
  then Err (Pkcs8 "not an RFC 8410 Ed25519 PKCS#8 v1 header") else
  let seed := drop (length ED25519_PKCS8_PREFIX) der in
  Ok (ed_vk_bytes P (verifying_key P (ed_from_bytes P seed))).

(** ** Public keys *)
Definition pk_to_concat_bytes (k : PublicKey) : list u8 :=
  ed_vk_bytes P (pk_ed25519 k) ++ ml_pk_bytes P (pk_mldsa65 k).

Definition fingerprint_hex (k : PublicKey) : string :=
  hex_encode P (vec_to_list (sha384 P (pk_to_concat_bytes k))).

Definition pk_from_concat_bytes (bytes : list u8) : result CompositeError PublicKey :=
  if negb (length bytes =? COMPOSITE_PK_LEN)%nat then Err (CompositeDecode "composite public key length") else
  match ed_vk_from_bytes P (take ED25519_PK_LEN bytes) with
  | None => Err (CompositeDecode "ed25519 pk")
  | Some classical_vk =>
      match ml_pk_from_bytes P (drop ED25519_PK_LEN bytes) with
      | None => Err (CompositeDecode "ml-dsa-65 pk")
      | Some pqc_public => Ok {| pk_ed25519 := classical_vk; pk_mldsa65 := pqc_public |}
      end
  end.

(** [CompositePublicKey::verify]. *)
Definition composite_verify (k : PublicKey) (ctx msg : list u8) (sig : CompositeSignature) :
    result CompositeError unit :=
  let h := transcript_hash ctx msg in
  if negb (verify_strict P (pk_ed25519 k) h (classical sig)) then Err ClassicalFailed else
  if negb (length (pqc sig) =? MLDSA65_SIG_LEN)%nat then Err PqcFailed else
  if negb (ml_verify P (pk_mldsa65 k) h (pqc sig) []) then Err PqcFailed else Ok tt.

Definition verify_interop_ed25519 (k : PublicKey) (msg sig : list u8) : result CompositeError unit :=
  let? _ := reject_transcript_sized msg in
  if verify_strict P (pk_ed25519 k) msg sig then Ok tt else Err ClassicalFailed.

Definition verify_interop_mldsa65 (k : PublicKey) (ctx msg sig : list u8) : result CompositeError unit :=
  let? _ := reject_transcript_sized msg in
  if negb (length sig =? MLDSA65_SIG_LEN)%nat then Err PqcFailed else
  if negb (ml_verify P (pk_mldsa65 k) msg sig ctx) then Err PqcFailed else Ok tt.

(** ** Secret keys *)

(** The public key of a secret key, which the generators return beside it. *)
Definition public_of (sk : SecretKey) : PublicKey :=
  {| pk_ed25519 := verifying_key P (sk_ed25519 sk); pk_mldsa65 := ml_public P (sk_mldsa65 sk) |}.

(** [CompositeSecretKey::from_seed]. *)
Definition from_seed (seed : list u8) : SecretKey * PublicKey :=
  let ed_seed := derive_subseed seed (as_bytes "ferrogate-composite-seed/ed25519") in
  let ml_seed := derive_subseed seed (as_bytes "ferrogate-composite-seed/ml-dsa-65") in
  let classical_sk := ed_from_bytes P ed_seed in
  let classical_vk := verifying_key P classical_sk in
  let '(pqc_public, pqc_secret) := keygen_from_seed P ml_seed in
  ({| sk_ed25519 := classical_sk; sk_mldsa65 := pqc_secret |},
   {| pk_ed25519 := classical_vk; pk_mldsa65 := pqc_public |}).

(** A signature of fips204: [rng] is the hedging value drawn from the system, or its failure. *)
Definition try_sign (sk : MlSk P) (rng : result string (list u8)) (msg ctx : list u8) :
    result CompositeError (list u8) :=
  match rng with
  | Err e => Err (SignFailed e)
  | Ok rnd => match try_sign_with_seed P sk rnd msg ctx with Ok s => Ok s | Err e => Err (SignFailed e) end
  end.

(** [CompositeSecretKey::sign]. *)
Definition composite_sign (sk : SecretKey) (rng : result string (list u8)) (ctx msg : list u8) :
    result CompositeError CompositeSignature :=
  let h := transcript_hash ctx msg in
  let classical := ed_sign P (sk_ed25519 sk) h in
  let? pqc := try_sign (sk_mldsa65 sk) rng h [] in
  Ok {| classical := classical; pqc := pqc |}.

Definition to_ed25519_pkcs8_der (sk : SecretKey) : list u8 :=
  ed25519_pkcs8_from_seed (ed_sk_bytes P (sk_ed25519 sk)).

Definition sign_interop_ed25519 (sk : SecretKey) (msg : list u8) : result CompositeError (list u8) :=
  let? _ := reject_transcript_sized msg in Ok (ed_sign P (sk_ed25519 sk) msg).

Definition sign_interop_mldsa65 (sk : SecretKey) (rng : result string (list u8)) (ctx msg : list u8) :
    result CompositeError (list u8) :=
  let? _ := reject_transcript_sized msg in try_sign (sk_mldsa65 sk) rng msg ctx.

Definition sign_interop_mldsa65_deterministic (sk : SecretKey) (ctx msg : list u8) :
    result CompositeError (list u8) :=
  let? _ := reject_transcript_sized msg in
  try_sign (sk_mldsa65 sk) (Ok (replicate 32 Byte.x00)) msg ctx.

(** ** Signature encodings *)
Definition sig_to_concat_bytes (s : CompositeSignature) : list u8 := classical s ++ pqc s.

Definition sig_from_concat_bytes (bytes : list u8) : result CompositeError CompositeSignature :=
  if negb (length bytes =? COMPOSITE_SIG_LEN)%nat then Err (CompositeDecode "composite signature length") else
  Ok {| classical := take ED25519_SIG_LEN bytes; pqc := drop ED25519_SIG_LEN bytes |}.

Definition to_der (s : CompositeSignature) : result CompositeError (list u8) :=
  match octet_string P (classical s), octet_string P (pqc s) with
  | Some c, Some q =>
      match asn_to_der P {| asn_algorithm := COMPOSITE_OID; asn_classical := c; asn_pqc := q |} with
      | Some der => Ok der
      | None => Err (CompositeEncode "der")
      end
  | _, _ => Err (CompositeEncode "octet string")
  end.

Definition from_der (der : list u8) : result CompositeError CompositeSignature :=
  match asn_from_der P der with
  | None => Err (CompositeDecode "der")
  | Some asn =>
      if negb (String.eqb (asn_algorithm asn) COMPOSITE_OID) then Err (CompositeDecode "unexpected algorithm OID") else
      if negb (length (asn_classical asn) =? ED25519_SIG_LEN)%nat then Err (CompositeDecode "classical OCTET STRING") else
      if negb (length (asn_pqc asn) =? MLDSA65_SIG_LEN)%nat then Err (CompositeDecode "pqc OCTET STRING") else
      Ok {| classical := asn_classical asn; pqc := asn_pqc asn |}
  end.

Definition to_jws_base64url (s : CompositeSignature) : string := b64url_encode P (sig_to_concat_bytes s).

Definition from_jws_base64url (s : string) : result CompositeError CompositeSignature :=
  match b64url_decode P s with
  | None => Err (CompositeDecode "base64url")
  | Some bytes => sig_from_concat_bytes bytes
  end.
End Composite.

(** ** Lemmas *)
Lemma be64_length n : length (be64 n) = 8%nat.
Proof. done. Qed.

Lemma u8_of_Z_mod a b : u8.of_Z a = u8.of_Z b → a mod 256 = b mod 256.
Proof.
  intros H. assert (∀ z, u8.to_Z (u8.of_Z z) = z mod 256) as E; [|by rewrite <- !E, H].
  intros z. assert (0 ≤ z mod 256 < 256) as Hz by (apply Z.mod_pos_bound; lia).
  unfold u8.of_Z, u8.to_Z. destruct (Byte.of_N (Z.to_N (z mod 256))) as [b0|] eqn:Eb.
  - apply Byte.to_of_N in Eb. change (default Byte.x00 (Some b0)) with b0. rewrite Eb. lia.
  - apply Byte.of_N_None_iff in Eb. lia.
Qed.

(** Equal low [8 * k] bits and an equal next byte give equal low [8 * (k + 1)] bits. *)
Lemma low_bytes_step x y k :
  0 ≤ k → x mod 2 ^ (8 * k) = y mod 2 ^ (8 * k) →
  u8.of_Z (Z.shiftr x (8 * k)) = u8.of_Z (Z.shiftr y (8 * k)) →
  x mod 2 ^ (8 * (k + 1)) = y mod 2 ^ (8 * (k + 1)).
Proof.
  intros Hk Hlow Hb%u8_of_Z_mod. rewrite !Z.shiftr_div_pow2 in Hb by lia.
  replace (2 ^ (8 * (k + 1))) with (2 ^ (8 * k) * 256).
  - rewrite !Z.rem_mul_r by lia. congruence.
  - replace (8 * (k + 1)) with (8 * k + 8) by lia. by rewrite Z.pow_add_r by lia.
Qed.

(** A [u64] is determined by its bytes. *)
Lemma be64_inj m n : Z.of_nat m < 2 ^ 64 → Z.of_nat n < 2 ^ 64 → be64 m = be64 n → m = n.
Proof.
  intros Hm Hn H. apply Nat2Z.inj.
  rewrite <- (Z.mod_small (Z.of_nat m) (2 ^ 64)), <- (Z.mod_small (Z.of_nat n) (2 ^ 64)) by lia.
  unfold be64 in H. cbn [fmap list_fmap] in H. injection H as H7 H6 H5 H4 H3 H2 H1 H0.
  apply (low_bytes_step _ _ 7); [lia| |done]. apply (low_bytes_step _ _ 6); [lia| |done].
  apply (low_bytes_step _ _ 5); [lia| |done]. apply (low_bytes_step _ _ 4); [lia| |done].
  apply (low_bytes_step _ _ 3); [lia| |done]. apply (low_bytes_step _ _ 2); [lia| |done].
  apply (low_bytes_step _ _ 1); [lia| |done]. apply (low_bytes_step _ _ 0); [lia| |done].
  by rewrite !Z.mod_1_r.
Qed.

(** The length prefix makes the transcript unambiguous. *)
Lemma transcript_input_inj ctx msg ctx' msg' :
  Z.of_nat (length ctx) < 2 ^ 64 → Z.of_nat (length ctx') < 2 ^ 64 →
  transcript_input ctx msg = transcript_input ctx' msg' → ctx = ctx' ∧ msg = msg'.
Proof.
  intros Hc Hc' H. unfold transcript_input in H.
  apply app_inj_1 in H as [_ H]; [|done]. apply app_inj_1 in H as [Hl H]; [|by rewrite !be64_length].
  apply be64_inj in Hl; [|done..]. by apply app_inj_1 in H.
Qed.

Section CompositeLemmas.
Context (P : Primitives).

Lemma transcript_hash_length ctx msg : length (transcript_hash P ctx msg) = TRANSCRIPT_HASH_LEN.
Proof. unfold transcript_hash. by rewrite length_vec_to_list. Qed.

Lemma sig_from_concat_spec bytes s :
  sig_from_concat_bytes bytes = Ok s ↔
  length (classical s) = ED25519_SIG_LEN ∧ length (pqc s) = MLDSA65_SIG_LEN ∧ bytes = sig_to_concat_bytes s.
Proof.
  unfold sig_from_concat_bytes, sig_to_concat_bytes. split.
  - destruct (length bytes =? COMPOSITE_SIG_LEN)%nat eqn:E; [|done]. cbn [negb].
    apply Nat.eqb_eq in E. unfold COMPOSITE_SIG_LEN in E. intros [= <-]. cbn [classical pqc].
    rewrite length_take, length_drop, take_drop. split_and!; [lia..|done].
  - intros (Hc & Hq & ->). rewrite length_app, Hc, Hq. cbn [Nat.eqb negb].
    rewrite take_app_length', drop_app_length' by done. by destruct s.
Qed.

Lemma composite_verify_ok k ctx msg sig :
  composite_verify P k ctx msg sig = Ok () ↔
  verify_strict P (pk_ed25519 k) (transcript_hash P ctx msg) (classical sig) = true ∧
  ml_verify P (pk_mldsa65 k) (transcript_hash P ctx msg) (pqc sig) [] = true ∧
  length (pqc sig) = MLDSA65_SIG_LEN.
Proof.
  unfold composite_verify.
  destruct (verify_strict _ _ _ _), (Nat.eqb_spec (length (pqc sig)) MLDSA65_SIG_LEN),
    (ml_verify _ _ _ _ _); cbn [negb]; split; try done; intros (? & ? & ?); done.
Qed.

Context `{!PrimitiveLaws P}.

(** An honest signature has the lengths of the standards and verifies. *)
Lemma composite_sign_spec sk rng ctx msg sig :
  composite_sign P sk rng ctx msg = Ok sig →
  composite_verify P (public_of P sk) ctx msg sig = Ok () ∧
  sig_from_concat_bytes (sig_to_concat_bytes sig) = Ok sig.
Proof.
  unfold composite_sign, try_sign. destruct rng as [rnd|]; [|done].
  destruct (try_sign_with_seed P _ rnd _ []) as [s|] eqn:E; [|done]. intros [= <-].
  split.
  - apply composite_verify_ok. cbn [classical pqc public_of pk_ed25519 pk_mldsa65].
    by rewrite ed_sign_verifies, (ml_sign_verifies _ _ _ _ _ E), (ml_sign_length _ _ _ _ _ E).
  - apply sig_from_concat_spec. cbn [classical pqc].
    by rewrite ed_sign_length, (ml_sign_length _ _ _ _ _ E).
Qed.

(** A public key survives its encoding. *)
Lemma pk_concat_round_trip k : pk_from_concat_bytes P (pk_to_concat_bytes P k) = Ok k.
Proof.
  unfold pk_from_concat_bytes, pk_to_concat_bytes.
  rewrite length_app, ed_vk_bytes_length, ml_pk_bytes_length. cbn [Nat.eqb negb COMPOSITE_PK_LEN].
  rewrite Nat.eqb_refl. cbn [negb].
  rewrite take_app_length', drop_app_length', ed_vk_round_trip, ml_pk_round_trip
    by (symmetry; apply ed_vk_bytes_length). by destruct k.
Qed.

(** The pair [from_seed] returns matches. *)
Lemma from_seed_pair seed : (from_seed P seed).2 = public_of P (from_seed P seed).1.
Proof.
  unfold from_seed, public_of. pose proof (keygen_pair (P := P)) as K.
  specialize (K (derive_subseed P seed (as_bytes "ferrogate-composite-seed/ml-dsa-65"))).
  destruct (keygen_from_seed P _) as [pk sk]. cbn [fst snd sk_ed25519 sk_mldsa65] in *. by rewrite K.
Qed.
End CompositeLemmas.

(** ** Theorems *)
Section CompositeTheorems.
Context (P : Primitives).

(** two (context, message) pairs with one transcript hash are the same pair, unless
    SHA3-384 maps two different transcripts to one digest: a signature cannot be moved
    between contexts or re-split between context and message. *)
Theorem transcript_hash_binds ctx msg ctx' msg' :
  Z.of_nat (length ctx) < 2 ^ 64 → Z.of_nat (length ctx') < 2 ^ 64 →
  transcript_hash P ctx msg = transcript_hash P ctx' msg' →
  (ctx = ctx' ∧ msg = msg') ∨
  (transcript_input ctx msg ≠ transcript_input ctx' msg' ∧
   sha3_384 P (transcript_input ctx msg) = sha3_384 P (transcript_input ctx' msg')).
Proof.
  intros Hc Hc' H. destruct (decide (transcript_input ctx msg = transcript_input ctx' msg')) as [E|E].
  - left. by apply transcript_input_inj.
  - right. split; [done|]. unfold transcript_hash in H. by apply vec_to_list_inj2 in H.
Qed.

(** no message a key signs or accepts through the standard-format (interop) paths is a
    composite transcript hash, so neither kind of signature is one of the other kind. *)
Theorem interop_disjoint_from_composite msg ctx m :
  (∃ sk s, sign_interop_ed25519 P sk msg = Ok s) ∨
  (∃ sk rng c s, sign_interop_mldsa65 P sk rng c msg = Ok s) ∨
  (∃ sk c s, sign_interop_mldsa65_deterministic P sk c msg = Ok s) ∨
  (∃ k s, verify_interop_ed25519 P k msg s = Ok ()) ∨
  (∃ k c s, verify_interop_mldsa65 P k c msg s = Ok ()) →
  msg ≠ transcript_hash P ctx m.
Proof.
  intros H ->. unfold sign_interop_ed25519, sign_interop_mldsa65, sign_interop_mldsa65_deterministic,
    verify_interop_ed25519, verify_interop_mldsa65, reject_transcript_sized in H.
  rewrite transcript_hash_length in H. cbn [Nat.eqb TRANSCRIPT_HASH_LEN] in H. naive_solver.
Qed.

Context `{!PrimitiveLaws P}.

(** what a key derived from a seed signs, its public key verifies after both travelled
    through their byte encodings, and the base64url and DER forms decode to the same
    signature. *)
Theorem composite_roundtrip seed rng ctx msg sig :
  let '(sk, pk) := from_seed P seed in
  composite_sign P sk rng ctx msg = Ok sig →
  ∃ pk', pk_from_concat_bytes P (pk_to_concat_bytes P pk) = Ok pk' ∧
    sig_from_concat_bytes (sig_to_concat_bytes sig) = Ok sig ∧
    composite_verify P pk' ctx msg sig = Ok () ∧
    from_jws_base64url P (to_jws_base64url P sig) = Ok sig ∧
    (∀ der, to_der P sig = Ok der → from_der P der = Ok sig).
Proof.
  pose proof (from_seed_pair P seed) as Hp. destruct (from_seed P seed) as [sk pk]. cbn [fst snd] in Hp.
  intros [Hv Hs]%composite_sign_spec; [|done]. exists pk. subst pk. split_and!; try done.
  - by apply pk_concat_round_trip.
  - unfold from_jws_base64url, to_jws_base64url. by rewrite b64url_round_trip.
  - apply sig_from_concat_spec in Hs as (Hc & Hq & _). unfold to_der, from_der. intros der.
    destruct (octet_string P (classical sig)) as [c|] eqn:Ec; [|done].
    destruct (octet_string P (pqc sig)) as [q|] eqn:Eq; [|done].
    apply octet_string_bytes in Ec, Eq. subst c q.
    destruct (asn_to_der _ _) as [d|] eqn:Ed; [|done]. intros [= <-].
    rewrite (asn_round_trip _ _ Ed). cbn [asn_algorithm asn_classical asn_pqc].
    rewrite Hc, Hq, !Nat.eqb_refl. by destruct sig.
Qed.

(** The PKCS#8 form of a key gives its public half back. *)
Theorem pkcs8_roundtrip sk :
  ed25519_public_from_pkcs8 P (to_ed25519_pkcs8_der P sk) =
  Ok (ed_vk_bytes P (pk_ed25519 (public_of P sk))).
Proof.
  unfold ed25519_public_from_pkcs8, to_ed25519_pkcs8_der, ed25519_pkcs8_from_seed.
  rewrite length_app, ed_sk_bytes_length. unfold ED25519_PKCS8_LEN. rewrite Nat.eqb_refl. cbn [negb].
  rewrite take_app_length, bool_decide_true by done. cbn [negb].
  by rewrite drop_app_length, ed_sk_from_bytes.
Qed.
End CompositeTheorems.

(** ** A concrete instance *)

(** The first [n] bytes, padded with zeros. *)
Fixpoint fit (n : nat) (l : list u8) : vec u8 n :=
  match n with
  | O => [#]
  | S n => hd Byte.x00 l ::: fit n (tl l)
  end.
Lemma fit_vec n (v : vec u8 n) : fit n v = v.
Proof. induction v as [|a n v IH]; cbn; [done|]. by rewrite IH. Qed.

(** Keys are their own bytes, and a signature names the key and the message: the laws of
    honest use hold, nothing is claimed about forgery. *)
Definition toy_ed_sign (sk : vec u8 32) (m : list u8) : list u8 := sk ++ fit 32 m.
Definition toy_ml_sign (sk : vec u8 1952) (m ctx : list u8) : list u8 := sk ++ fit 1357 (m ++ ctx).
Fixpoint bytes_eqb (a b : list u8) : bool :=
  match a, b with [], [] => true | x :: a, y :: b => Byte.eqb x y && bytes_eqb a b | _, _ => false end.
Lemma bytes_eqb_refl a : bytes_eqb a a = true.
Proof. induction a as [|x a IH]; cbn [bytes_eqb]; [done|]. by rewrite Byte.byte_dec_lb, IH. Qed.
Definition bytes_string (b : list u8) : string := String.string_of_list_ascii (Ascii.ascii_of_byte <$> b).
Lemma as_bytes_string b : as_bytes (bytes_string b) = b.
Proof.
  unfold as_bytes, bytes_string. rewrite String.list_ascii_of_string_of_list_ascii, <- list_fmap_compose.
  rewrite <- (list_fmap_id b) at 2. apply list_fmap_ext. intros i x _. cbn. apply Ascii.byte_of_ascii_of_byte.
Qed.

(** A checksum in place of a hash. *)
Definition toy_sum (l : list u8) : Z := foldl (λ acc b, Z.land (Z.lxor (Z.shiftl acc 5 + acc) (u8.to_Z b + 1)) (Z.ones 61)) 7 l.
Definition toy_hash (n : nat) (l : list u8) : vec u8 n :=
  let z := toy_sum l in fit n ((λ i, u8.of_Z (Z.shiftr z (8 * i))) <$> [0; 1; 2; 3; 4; 5; 6; 7]).

(** Lower-case hexadecimal. *)
Definition hex_digit (n : Z) : Ascii.ascii := Ascii.ascii_of_nat (Z.to_nat (if n <? 10 then 48 + n else 87 + n)).
Definition hex_value (a : Ascii.ascii) : option Z :=
  let n := Z.of_nat (Ascii.nat_of_ascii a) in
  if (48 <=? n) && (n <=? 57) then Some (n - 48) else if (97 <=? n) && (n <=? 102) then Some (n - 87) else None.
Fixpoint toy_hex_encode (b : list u8) : string :=
  match b with
  | [] => EmptyString
  | x :: b => String (hex_digit (u8.to_Z x / 16)) (String (hex_digit (u8.to_Z x mod 16)) (toy_hex_encode b))
  end.
Fixpoint toy_hex_decode (s : string) : option (list u8) :=
  match s with
  | EmptyString => Some []
  | String a (String c s) =>
      x ← hex_value a; y ← hex_value c; r ← toy_hex_decode s; Some (u8.of_Z (16 * x + y) :: r)
  | String _ EmptyString => None
  end.

Lemma toy_hex_roundtrip b : toy_hex_decode (toy_hex_encode b) = Some b.
Proof.
  assert (∀ x : u8, hex_value (hex_digit (u8.to_Z x / 16)) = Some (u8.to_Z x / 16) ∧
    hex_value (hex_digit (u8.to_Z x mod 16)) = Some (u8.to_Z x mod 16) ∧
    u8.of_Z (16 * (u8.to_Z x / 16) + u8.to_Z x mod 16) = x) as H.
  { intros []; split_and!; reflexivity. }
  induction b as [|x b IH]; cbn [toy_hex_encode toy_hex_decode]; [done|].
  destruct (H x) as (-> & -> & E). cbn. rewrite IH. cbn. cbn in E. by rewrite E.
Qed.

Lemma toy_hex_no_dot b : Byte.x2e ∉ as_bytes (toy_hex_encode b).
Proof.
  assert (∀ x : u8, Ascii.byte_of_ascii (hex_digit (u8.to_Z x / 16)) ≠ Byte.x2e ∧
    Ascii.byte_of_ascii (hex_digit (u8.to_Z x mod 16)) ≠ Byte.x2e) as H.
  { intros []; split; discriminate. }
  induction b as [|x b IH]; cbn [toy_hex_encode]; [apply not_elem_of_nil|].
  destruct (H x) as [H1 H2]. unfold as_bytes in *. cbn [String.list_ascii_of_string]. rewrite !fmap_cons, !not_elem_of_cons.
  split_and!; congruence || done.
Qed.

Lemma toy_hex_bytes n s :
  String.length s = (2 * n)%nat → forallb is_hex_lower (String.list_ascii_of_string s) = true →
  ∃ raw, toy_hex_decode s = Some raw ∧ length raw = n.
Proof.
  assert (∀ a, is_hex_lower a = true → ∃ v, hex_value a = Some v) as Hv.
  { intros a. unfold is_hex_lower, hex_value. rewrite orb_true_iff, !andb_true_iff, !Nat.leb_le.
    intros [[H1 H2]|[H1 H2]].
    - rewrite (proj2 (Z.leb_le 48 _)), (proj2 (Z.leb_le _ 57)) by lia. by eexists.
    - rewrite (proj2 (Z.leb_gt _ 57)) by lia. rewrite andb_false_r.
      rewrite (proj2 (Z.leb_le 97 _)), (proj2 (Z.leb_le _ 102)) by lia. by eexists. }
  revert s. induction n as [|n IH]; intros s Hl Hf.
  - destruct s; [by exists []|done].
  - destruct s as [|a [|c s]]; [done|cbn in Hl; lia|]. cbn in Hl, Hf. rewrite !andb_true_iff in Hf.
    destruct Hf as (Ha & Hc & Hf). destruct (Hv a Ha) as [x Ex], (Hv c Hc) as [y Ey].
    destruct (IH s ltac:(lia) Hf) as (raw & Hr & Hlen). cbn [toy_hex_decode]. rewrite Ex, Ey. cbn. rewrite Hr.
    eexists. split; [done|]. cbn. by rewrite Hlen.
Qed.

Definition toy_primitives : Primitives := {|
  EdSk := vec u8 32; EdVk := vec u8 32; MlSk := vec u8 1952; MlPk := vec u8 1952;
  sha3_384 := toy_hash 48; sha3_256 := toy_hash 32; sha384 := toy_hash 48; sha256 := toy_hash 32; hex_encode := toy_hex_encode;
  ed_from_bytes := fit 32; ed_sk_bytes := vec_to_list; verifying_key := id; ed_vk_bytes := vec_to_list;
  ed_vk_from_bytes b := Some (fit 32 b); ed_sign := toy_ed_sign;
  verify_strict vk m s := bytes_eqb s (toy_ed_sign vk m);
  keygen_from_seed s := (fit 1952 s, fit 1952 s); ml_public := id; ml_pk_bytes := vec_to_list;
  ml_pk_from_bytes b := Some (fit 1952 b);
  try_sign_with_seed sk _ m ctx := Ok (toy_ml_sign sk m ctx);
  ml_verify pk m s ctx := bytes_eqb s (toy_ml_sign pk m ctx);
  octet_string := Some;
  asn_to_der a := if String.eqb (asn_algorithm a) COMPOSITE_OID && (length (asn_classical a) =? 64)%nat
                  then Some (asn_classical a ++ asn_pqc a) else None;
  asn_from_der d := Some {| asn_algorithm := COMPOSITE_OID; asn_classical := take 64 d; asn_pqc := drop 64 d |};
  b64url_encode := toy_hex_encode; b64url_decode := toy_hex_decode |}.

#[export] Instance toy_laws : PrimitiveLaws toy_primitives.
Proof.
  split; cbn -[fit bytes_eqb COMPOSITE_OID as_bytes bytes_string]; intros; try done.
  - apply bytes_eqb_refl.
  - unfold toy_ed_sign. by rewrite length_app, !length_vec_to_list.
  - by rewrite length_vec_to_list.
  - apply fit_vec.
  - by rewrite length_vec_to_list.
  - by rewrite fit_vec.
  - simplify_eq. apply bytes_eqb_refl.
  - simplify_eq. unfold toy_ml_sign. by rewrite length_app, !length_vec_to_list.
  - by rewrite length_vec_to_list.
  - by rewrite fit_vec.
  - by simplify_eq.
  - destruct (String.eqb_spec (asn_algorithm a) COMPOSITE_OID) as [E|], (Nat.eqb_spec (length (asn_classical a)) 64) as [El|];
      simplify_eq/=. rewrite take_app_length', drop_app_length' by done.
    destruct a; cbn in *. by subst.
  - apply toy_hex_roundtrip.
  - apply toy_hex_no_dot.
Qed.

Definition toy_keypair := from_seed toy_primitives (as_bytes "seed").
Definition toy_sk := toy_keypair.1.
Definition toy_pk := toy_keypair.2.

Lemma composite_roundtrip_witness :
  ∃ sig pk', composite_sign toy_primitives toy_sk (Ok []) (as_bytes "ctx") (as_bytes "msg") = Ok sig ∧
    pk_from_concat_bytes toy_primitives (pk_to_concat_bytes toy_primitives toy_pk) = Ok pk' ∧
    composite_verify toy_primitives pk' (as_bytes "ctx") (as_bytes "msg") sig = Ok ().
Proof.
  destruct (composite_sign toy_primitives toy_sk (Ok []) (as_bytes "ctx") (as_bytes "msg")) as [sig|] eqn:E; [|done].
  destruct (composite_roundtrip toy_primitives (as_bytes "seed") (Ok []) (as_bytes "ctx") (as_bytes "msg") sig E)
    as (pk' & Hpk & _ & Hv & _).
  by exists sig, pk'.
Defined.

Lemma transcript_hash_binds_witness :
  as_bytes "ab" = as_bytes "ab" ∧ as_bytes "c" = as_bytes "c" ∨
  transcript_input (as_bytes "ab") (as_bytes "c") ≠ transcript_input (as_bytes "ab") (as_bytes "c") ∧
  sha3_384 toy_primitives (transcript_input (as_bytes "ab") (as_bytes "c")) =
  sha3_384 toy_primitives (transcript_input (as_bytes "ab") (as_bytes "c")).
Proof.
  apply (transcript_hash_binds toy_primitives); [vm_compute; done|vm_compute; done|reflexivity].
Defined.

Lemma interop_disjoint_from_composite_witness :
  as_bytes "tbs certificate" ≠ transcript_hash toy_primitives (as_bytes "ctx") (as_bytes "msg").
Proof.
  apply (interop_disjoint_from_composite toy_primitives).
  left. exists toy_sk. by eexists.
Defined.
