(* ===== verification/AllowlistV2.v ===== *)
(** The signed caller allowlist, formats v1 and v2 (crates/ferro-svid/src/allowlist.rs and
    allowlist_v2.rs, and the signing calls of issue.rs).

    CMIS signs what it served here, MIA verifies it.  The CBOR encoder is ciborium: the
    class [Cbor], of which [CborLaws] asks that what was written reads back. *)
From stdpp Require Import sorting countable.
From S2P Require Import Prelude AppModel AppDedup Order Composite.
Open Scope Z_scope.

(** ** v1 (allowlist.rs) *)
Definition ALLOWLIST_SIGNING_CONTEXT : list u8 := as_bytes "ferrogate-allowlist-v1".
Definition PROPOSAL_SIGNING_CONTEXT : list u8 := as_bytes "ferrogate-allowlist-proposal-v1".
Definition BIN_SHA_WILDCARD : string := "*".

Record AllowEntry := { e_uid : option Z; e_bin_sha : string }.
#[export] Instance AllowEntry_eq_dec : EqDecision AllowEntry.
Proof. solve_decision. Defined.

Definition bin_is_wildcard (e : AllowEntry) : bool := String.eqb (e_bin_sha e) BIN_SHA_WILDCARD.

Record AllowlistDoc := {
  doc_trust_domain : string; doc_issued_at : Z; doc_not_after : Z; doc_entries : list AllowEntry }.
#[export] Instance AllowlistDoc_eq_dec : EqDecision AllowlistDoc.
Proof. solve_decision. Defined.

Record ProposalDoc := { pd_host_uuid : string; pd_issued_at : Z; pd_entries : list AllowEntry }.
#[export] Instance ProposalDoc_eq_dec : EqDecision ProposalDoc.
Proof. solve_decision. Defined.

Record SignedAllowlist := { sa_body : list u8; sa_signature : list u8 }.
#[export] Instance SignedAllowlist_eq_dec : EqDecision SignedAllowlist.
Proof. solve_decision. Defined.

Inductive AllowlistError :=
  | AlCbor (e : string) | AlMalformedSignature | AlBadSignature | AlMalformedEntry
  | AlExpired | AlNotYetValid | AlTooOld.
#[export] Instance AllowlistError_eq_dec : EqDecision AllowlistError.
Proof. solve_decision. Defined.

(** ** v2 (allowlist_v2.rs) *)
Definition ALLOWLIST_V2_SIGNING_CONTEXT : list u8 := as_bytes "ferrogate-allowlist-v2".
Definition ALLOWLIST_V2_FORMAT : Z := 2.
Definition MAX_ALLOWLIST_V2_BYTES : Z := 8 * 1024 * 1024.
Definition PATH_HASH_TAG : list u8 := as_bytes "ferrogate-path-v1".
Definition SID_HASH_TAG : list u8 := as_bytes "ferrogate-sid-v1".
(** [host_call::MAX_HOST_UUID_LEN]. *)
Definition MAX_HOST_UUID_LEN : nat := 64.

Record AllowEntryV2 := {
  ev_approval_id : list u8; ev_bin_sha : string; ev_uid : option Z;
  ev_user_sid_hash : option (list u8); ev_path_hash : option (list u8); ev_expires_at : option Z }.
#[export] Instance AllowEntryV2_eq_dec : EqDecision AllowEntryV2.
Proof. solve_decision. Defined.

Record AllowlistDocV2 := {
  dv_format : Z; dv_trust_domain : string; dv_host_uuid : string; dv_generation : Z;
  dv_issued_at : Z; dv_not_after : Z; dv_entries : list AllowEntryV2 }.
#[export] Instance AllowlistDocV2_eq_dec : EqDecision AllowlistDocV2.
Proof. solve_decision. Defined.

Inductive AllowlistV2Error :=
  | V2Cbor (e : string) | V2TooLarge (len : Z) | V2Format (f : Z) | V2HostUuid
  | V2MalformedEntry | V2MalformedSignature | V2BadSignature.

Definition valid_bin_sha (s : string) : bool :=
  String.eqb s BIN_SHA_WILDCARD
  || (String.length s =? 96)%nat && forallb is_hex_lower (String.list_ascii_of_string s).

Definition validate (doc : AllowlistDocV2) : result AllowlistV2Error unit :=
  if negb (dv_format doc =? ALLOWLIST_V2_FORMAT) then Err (V2Format (dv_format doc)) else
  if String.eqb (dv_host_uuid doc) "" || (MAX_HOST_UUID_LEN <? String.length (dv_host_uuid doc))%nat
  then Err V2HostUuid else
  if negb (forallb (λ e, valid_bin_sha (ev_bin_sha e)) (dv_entries doc)) then Err V2MalformedEntry else
  Ok tt.

(** The comparison of [sort_entries]. *)
Definition entry_cmp : AllowEntryV2 → AllowEntryV2 → comparison :=
  cmp_then (cmp_by ev_bin_sha str_cmp) (cmp_by ev_approval_id bytes_cmp).
Definition sort_entries (es : list AllowEntryV2) : list AllowEntryV2 := sort_by entry_cmp es.

(** [doc] with its entries in canonical order. *)
Definition sorted_doc (doc : AllowlistDocV2) : AllowlistDocV2 :=
  {| dv_format := dv_format doc; dv_trust_domain := dv_trust_domain doc;
     dv_host_uuid := dv_host_uuid doc; dv_generation := dv_generation doc;
     dv_issued_at := dv_issued_at doc; dv_not_after := dv_not_after doc;
     dv_entries := sort_entries (dv_entries doc) |}.

(** ** CBOR *)
Class Cbor (A : Type) := {
  into_writer : A → result string (list u8); from_reader : list u8 → result string A }.
Class CborLaws (A : Type) `{Cbor A} :=
  from_into (a : A) b : into_writer a = Ok b → from_reader b = Ok a.

(** The types the two files encode. *)
Class AllowlistCbor := {
  signed_cbor :: Cbor SignedAllowlist; doc_cbor :: Cbor AllowlistDoc;
  doc_v2_cbor :: Cbor AllowlistDocV2; entries_v2_cbor :: Cbor (list AllowEntryV2);
  proposal_cbor :: Cbor ProposalDoc }.
Class AllowlistCborLaws `{AllowlistCbor} := {
  signed_cbor_laws :: CborLaws SignedAllowlist; doc_cbor_laws :: CborLaws AllowlistDoc;
  doc_v2_cbor_laws :: CborLaws AllowlistDocV2; entries_v2_cbor_laws :: CborLaws (list AllowEntryV2);
  proposal_cbor_laws :: CborLaws ProposalDoc }.

(** [map_err]. *)
Definition map_err {E F A} (f : E → F) (r : result E A) : result F A :=
  match r with Ok a => Ok a | Err e => Err (f e) end.

Section AllowlistV2.
Context (P : Primitives) `{CB : !AllowlistCbor}.
Local Abbreviation PublicKey := (CompositePublicKey (EdVk P) (MlPk P)).
Local Abbreviation SecretKey := (CompositeSecretKey (EdSk P) (MlSk P)).

(** *** v1 operations *)
Definition allowlist_sign (doc : AllowlistDoc) (signer : SecretKey) (rng : result string (list u8)) :
    result AllowlistError SignedAllowlist :=
  let? body := map_err AlCbor (into_writer doc) in
  let? sig := map_err (λ _, AlBadSignature) (composite_sign P signer rng ALLOWLIST_SIGNING_CONTEXT body) in
  Ok {| sa_body := body; sa_signature := sig_to_concat_bytes sig |}.

Definition allowlist_encode (signed : SignedAllowlist) : result AllowlistError (list u8) :=
  map_err AlCbor (into_writer signed).
Definition allowlist_decode (bytes : list u8) : result AllowlistError SignedAllowlist :=
  map_err AlCbor (from_reader bytes).
Definition allowlist_decode_body (body : list u8) : result AllowlistError AllowlistDoc :=
  map_err AlCbor (from_reader body).

Definition allowlist_verify (signed : SignedAllowlist) (trusted : PublicKey) :
    result AllowlistError AllowlistDoc :=
  let? sig := map_err (λ _, AlMalformedSignature) (sig_from_concat_bytes (sa_signature signed)) in
  let? _ := map_err (λ _, AlBadSignature)
              (composite_verify P trusted ALLOWLIST_SIGNING_CONTEXT (sa_body signed) sig) in
  allowlist_decode_body (sa_body signed).

Definition encode_proposal (doc : ProposalDoc) : result AllowlistError (list u8) :=
  map_err AlCbor (into_writer doc).
Definition decode_proposal (body : list u8) : result AllowlistError ProposalDoc :=
  map_err AlCbor (from_reader body).
Definition proposal_signing_input (body : list u8) : list u8 := PROPOSAL_SIGNING_CONTEXT ++ body.

(** *** v2 operations *)
Definition entries_digest (es : list AllowEntryV2) : result AllowlistV2Error (list u8) :=
  let? cbor := map_err V2Cbor (into_writer (sort_entries es)) in
  Ok (vec_to_list (sha384 P cbor)).

Definition too_large (body : list u8) : bool := MAX_ALLOWLIST_V2_BYTES <? Z.of_nat (length body).

Definition encode_body_v2 (doc : AllowlistDocV2) : result AllowlistV2Error (list u8) :=
  let? _ := validate doc in
  let? body := map_err V2Cbor (into_writer (sorted_doc doc)) in
  if too_large body then Err (V2TooLarge (Z.of_nat (length body))) else Ok body.

Definition decode_body_v2 (body : list u8) : result AllowlistV2Error AllowlistDocV2 :=
  if too_large body then Err (V2TooLarge (Z.of_nat (length body))) else
  let? doc := map_err V2Cbor (from_reader body) in
  let? _ := validate doc in
  Ok doc.

Definition sign_v2 (doc : AllowlistDocV2) (signer : SecretKey) (rng : result string (list u8)) :
    result AllowlistV2Error SignedAllowlist :=
  let? body := encode_body_v2 doc in
  let? sig := map_err (λ _, V2BadSignature) (composite_sign P signer rng ALLOWLIST_V2_SIGNING_CONTEXT body) in
  Ok {| sa_body := body; sa_signature := sig_to_concat_bytes sig |}.

Definition verify_v2 (signed : SignedAllowlist) (trusted : PublicKey) :
    result AllowlistV2Error AllowlistDocV2 :=
  if too_large (sa_body signed) then Err (V2TooLarge (Z.of_nat (length (sa_body signed)))) else
  let? sig := map_err (λ _, V2MalformedSignature) (sig_from_concat_bytes (sa_signature signed)) in
  let? _ := map_err (λ _, V2BadSignature)
              (composite_verify P trusted ALLOWLIST_V2_SIGNING_CONTEXT (sa_body signed) sig) in
  decode_body_v2 (sa_body signed).

(** The string [tagged_hash] feeds to SHA-256. *)
Definition tagged_input (tag : list u8) (host_uuid : string) (value : list u8) : list u8 :=
  tag ++ [Byte.x00] ++ as_bytes host_uuid ++ [Byte.x00] ++ value.
Definition tagged_hash (tag : list u8) (host_uuid : string) (value : list u8) : list u8 :=
  vec_to_list (sha256 P (tagged_input tag host_uuid value)).
Definition path_hash (host_uuid : string) (path_key : list u8) : list u8 :=
  tagged_hash PATH_HASH_TAG host_uuid path_key.
Definition sid_hash (host_uuid sid : string) : list u8 :=
  tagged_hash SID_HASH_TAG host_uuid (as_bytes (to_ascii_uppercase sid)).

(** *** The issuer (issue.rs) *)
Record Issuer := {
  iss_secret : SecretKey; iss_public : PublicKey; iss_kid : string; iss_trust_domain : string }.

Definition issuer_sign_allowlist (i : Issuer) (rng : result string (list u8)) (es : list AllowEntry)
    (issued_at not_after : Z) : result AllowlistError SignedAllowlist :=
  allowlist_sign {| doc_trust_domain := iss_trust_domain i; doc_issued_at := issued_at;
                    doc_not_after := not_after; doc_entries := es |} (iss_secret i) rng.

Definition issuer_sign_allowlist_v2 (i : Issuer) (rng : result string (list u8)) (host_uuid : string)
    (generation : Z) (es : list AllowEntryV2) (issued_at not_after : Z) :
    result AllowlistV2Error SignedAllowlist :=
  sign_v2 {| dv_format := ALLOWLIST_V2_FORMAT; dv_trust_domain := iss_trust_domain i;
             dv_host_uuid := host_uuid; dv_generation := generation; dv_issued_at := issued_at;
             dv_not_after := not_after; dv_entries := es |} (iss_secret i) rng.
End AllowlistV2.

(** ** Sorting *)
#[export] Instance entry_cmp_laws : CmpLaws entry_cmp := _.

(** The sort key of an entry. *)
Definition entry_key (e : AllowEntryV2) : string * list u8 := (ev_bin_sha e, ev_approval_id e).

Lemma entry_cmp_eq x y : entry_cmp x y = Eq → entry_key x = entry_key y.
Proof.
  unfold entry_cmp, cmp_then, then_with. destruct (cmp_by ev_bin_sha str_cmp x y) eqn:E1; [|done..].
  intros E2. unfold cmp_by in E1, E2. apply (cmp_eq (cmp := str_cmp)) in E1.
  apply (cmp_eq (cmp := bytes_cmp)) in E2. unfold entry_key. by rewrite E1, E2.
Qed.

Lemma sort_entries_Permutation es : sort_entries es ≡ₚ es.
Proof. apply sort_by_Permutation. Qed.
Lemma sort_entries_idemp es : sort_entries (sort_entries es) = sort_entries es.
Proof. apply (sort_by_idemp entry_cmp). Qed.
Lemma elem_of_sort_entries e es : e ∈ sort_entries es ↔ e ∈ es.
Proof. by rewrite sort_entries_Permutation. Qed.

(** Entries with one sort key keep their order. *)
Lemma sort_entries_tie e e' : entry_key e = entry_key e' → sort_entries [e; e'] = [e; e'].
Proof.
  destruct e as [i b u s p x], e' as [i' b' u' s' p' x']. intros [= -> ->].
  assert (∀ y z : AllowEntryV2, entry_key y = entry_key z → entry_cmp y z = entry_cmp y y) as H.
  { intros y z [= E1 E2]. unfold entry_cmp, cmp_then, cmp_by. by rewrite E1, E2. }
  unfold sort_entries. cbn [sort_by foldr sort_insert]. by rewrite H, cmp_refl.
Qed.

(** Distinct sort keys make the canonical order a function of the entry set. *)
Lemma sort_entries_unique es es' :
  es ≡ₚ es' → NoDup (entry_key <$> es) → sort_entries es = sort_entries es'.
Proof.
  intros Hp Hn. apply (sort_by_unique entry_cmp); [done|]. intros x y Hx Hy Hk%entry_cmp_eq.
  apply list_elem_of_lookup in Hx as [i Hi], Hy as [j Hj].
  assert (i = j) as ->; [|congruence].
  apply (NoDup_lookup (entry_key <$> es) i j (entry_key x)); [done|..].
  - by rewrite list_lookup_fmap, Hi.
  - by rewrite list_lookup_fmap, Hj, Hk.
Qed.

Lemma validate_sorted doc : validate (sorted_doc doc) = validate doc.
Proof.
  unfold validate. cbn [sorted_doc dv_format dv_host_uuid dv_entries].
  replace (forallb _ (sort_entries (dv_entries doc))) with (forallb (λ e, valid_bin_sha (ev_bin_sha e)) (dv_entries doc));
    [done|]. apply eq_bool_prop_intro. rewrite !forallb_True. by rewrite (sort_entries_Permutation (dv_entries doc)).
Qed.

Lemma validate_entries doc e :
  validate doc = Ok () → e ∈ dv_entries doc → valid_bin_sha (ev_bin_sha e) = true.
Proof.
  unfold validate. repeat case_match; intros; try done.
  match goal with H : negb _ = false |- _ => apply negb_false_iff in H; rewrite forallb_forall in H; apply H end.
  by apply list_elem_of_In.
Qed.

Lemma map_err_ok {E F A} (f : E → F) (r : result E A) a : map_err f r = Ok a ↔ r = Ok a.
Proof. destruct r; cbn; split; congruence. Qed.

(** Case analysis on the [let?]s of a hypothesis that it returned [Ok]. *)
Ltac inv_ok H :=
  repeat (let E := fresh "E" in
    match type of H with
    | (match ?e with Ok _ => _ | Err _ => _ end) = Ok _ => destruct e as [?|?] eqn:E; [|discriminate H]
    | (if ?e then Err _ else _) = Ok _ => destruct e eqn:E; [discriminate H|]
    end); repeat match goal with
    | x : unit |- _ => destruct x
    | E : map_err _ _ = Ok _ |- _ => apply map_err_ok in E
    end.

Section AllowlistV2Lemmas.
Context (P : Primitives) `{CB : !AllowlistCbor}.

Lemma decode_body_v2_valid body doc : decode_body_v2 body = Ok doc → validate doc = Ok ().
Proof. unfold decode_body_v2. intros H. inv_ok H. congruence. Qed.

(** What [verify_v2] accepts is a body of the trusted key's signature. *)
Lemma verify_v2_ok signed trusted doc :
  verify_v2 P signed trusted = Ok doc →
  decode_body_v2 (sa_body signed) = Ok doc ∧ validate doc = Ok () ∧
  ∃ sig, sig_from_concat_bytes (sa_signature signed) = Ok sig ∧
    composite_verify P trusted ALLOWLIST_V2_SIGNING_CONTEXT (sa_body signed) sig = Ok ().
Proof.
  unfold verify_v2. intros H. inv_ok H.
  split; [done|]. split; [by eapply decode_body_v2_valid|]. by exists a.
Qed.

Context `{CBL : !AllowlistCborLaws, PL : !PrimitiveLaws P}.

Lemma decode_encode_v2 doc body :
  encode_body_v2 doc = Ok body → decode_body_v2 body = Ok (sorted_doc doc) ∧ too_large body = false.
Proof.
  unfold encode_body_v2, decode_body_v2. intros H. inv_ok H. injection H as ->.
  rewrite E1, (from_into _ _ E0). cbn [map_err].
  rewrite validate_sorted, E. done.
Qed.

Lemma sign_v2_verify doc sk rng signed :
  sign_v2 P doc sk rng = Ok signed →
  verify_v2 P signed (public_of P sk) = Ok (sorted_doc doc) ∧ encode_body_v2 doc = Ok (sa_body signed).
Proof.
  unfold sign_v2, verify_v2. intros H. inv_ok H. injection H as <-. cbn [sa_body sa_signature].
  apply composite_sign_spec in E0 as [Hv Hs]; [|done].
  destruct (decode_encode_v2 _ _ E) as [Hd Ht]. by rewrite Ht, Hs, Hd; cbn [map_err]; rewrite Hv.
Qed.

Lemma entries_digest_ok es d :
  entries_digest P es = Ok d ↔ ∃ cbor, into_writer (sort_entries es) = Ok cbor ∧ d = vec_to_list (sha384 P cbor).
Proof.
  unfold entries_digest. destruct (into_writer (sort_entries es)) as [c|]; cbn [map_err];
    split; intros; naive_solver.
Qed.

Lemma entries_digest_length es d : entries_digest P es = Ok d → length d = 48%nat.
Proof. intros (c & _ & ->)%entries_digest_ok. by rewrite length_vec_to_list. Qed.

Lemma tagged_input_inj tag host v tag' host' v' :
  Byte.x00 ∉ tag → Byte.x00 ∉ tag' → Byte.x00 ∉ as_bytes host → Byte.x00 ∉ as_bytes host' →
  tagged_input tag host v = tagged_input tag' host' v' → tag = tag' ∧ host = host' ∧ v = v'.
Proof.
  intros Ht Ht' Hh Hh' H. unfold tagged_input in H. cbn [app] in H.
  apply split_first in H as [-> H]; [|done..]. apply split_first in H as [H ->]; [|done..].
  by apply (inj as_bytes) in H.
Qed.
End AllowlistV2Lemmas.

(** ** Theorems *)
Section AllowlistV2Theorems.
Context (P : Primitives) `{CB : !AllowlistCbor} `{CBL : !AllowlistCborLaws, PL : !PrimitiveLaws P}.

(** a v2 body CMIS signed and put on the wire decodes and verifies under its key as the
    document signed, with its entries in canonical order. *)
Theorem sign_verify_roundtrip doc sk rng signed bytes :
  sign_v2 P doc sk rng = Ok signed → allowlist_encode signed = Ok bytes →
  ∃ signed', allowlist_decode bytes = Ok signed' ∧
    verify_v2 P signed' (public_of P sk) = Ok (sorted_doc doc) ∧
    dv_entries (sorted_doc doc) ≡ₚ dv_entries doc.
Proof.
  intros [Hv _]%sign_v2_verify He%map_err_ok; [|done..].
  exists signed. unfold allowlist_decode. rewrite (from_into _ _ He).
  split_and!; [done..|]. apply sort_entries_Permutation.
Qed.

(** two entry lists with pairwise distinct (hash, approval) keys have the same digest when
    they hold the same entries, in any order; and lists with one digest hold the same entries
    unless SHA-384 collides on the two encodings. *)
Theorem entries_digest_identifies_set es es' d d' :
  NoDup (entry_key <$> es) →
  entries_digest P es = Ok d → entries_digest P es' = Ok d' →
  (es ≡ₚ es' → d = d') ∧
  (d = d' → es ≡ₚ es' ∨
     ∃ c c', into_writer (sort_entries es) = Ok c ∧ into_writer (sort_entries es') = Ok c' ∧
       c ≠ c' ∧ sha384 P c = sha384 P c').
Proof.
  intros Hn (c & Hc & ->)%entries_digest_ok (c' & Hc' & ->)%entries_digest_ok. split.
  - intros Hp. rewrite <- (sort_entries_unique es es' Hp Hn), Hc in Hc'. by injection Hc' as ->.
  - intros Hh%vec_to_list_inj2. destruct (decide (c = c')) as [<-|Hne]; [left|right; by exists c, c'].
    apply from_into in Hc, Hc'. rewrite Hc in Hc'. injection Hc' as Hs.
    by rewrite <- (sort_entries_Permutation es), Hs, sort_entries_Permutation.
Qed.

(** two entries of one binary with the same approval id, as every legacy entry has, keep
    their input order, and the two orders of the same entries have different digests unless
    SHA-384 collides: equal entry sets do not always have equal digests. *)
Theorem entries_digest_depends_on_order e e' d d' :
  entry_key e = entry_key e' → e ≠ e' →
  entries_digest P [e; e'] = Ok d → entries_digest P [e'; e] = Ok d' →
  [e; e'] ≡ₚ [e'; e] ∧
  (d ≠ d' ∨ ∃ c c', into_writer [e; e'] = Ok c ∧ into_writer [e'; e] = Ok c' ∧ c ≠ c' ∧ sha384 P c = sha384 P c').
Proof.
  intros Hk Hne. rewrite !entries_digest_ok, (sort_entries_tie e e' Hk), (sort_entries_tie e' e (eq_sym Hk)).
  intros (c & Hc & ->) (c' & Hc' & ->). split; [apply Permutation_swap|].
  destruct (decide (vec_to_list (sha384 P c) = vec_to_list (sha384 P c'))) as [Hh%vec_to_list_inj2|]; [right|by left].
  exists c, c'. split_and!; try done. intros <-. apply from_into in Hc, Hc'. congruence.
Qed.

(** a path or SID hash names its host and value: two hashed (tag, host, value) triples
    with one hash are the same triple unless SHA-256 collides on the two inputs. *)
Theorem tagged_hash_binds tag host v tag' host' v' :
  tag ∈ [PATH_HASH_TAG; SID_HASH_TAG] → tag' ∈ [PATH_HASH_TAG; SID_HASH_TAG] →
  Byte.x00 ∉ as_bytes host → Byte.x00 ∉ as_bytes host' →
  tagged_hash P tag host v = tagged_hash P tag' host' v' →
  (tag = tag' ∧ host = host' ∧ v = v') ∨
  (tagged_input tag host v ≠ tagged_input tag' host' v' ∧
   sha256 P (tagged_input tag host v) = sha256 P (tagged_input tag' host' v')).
Proof.
  intros Ht Ht' Hh Hh' H%vec_to_list_inj2.
  assert (∀ t, t ∈ [PATH_HASH_TAG; SID_HASH_TAG] → Byte.x00 ∉ t) as Hnul.
  { apply Forall_forall. refine (bool_decide_unpack _ _). vm_compute. exact I. }
  destruct (decide (tagged_input tag host v = tagged_input tag' host' v')) as [E|E]; [left|by right].
  apply tagged_input_inj; auto.
Qed.
End AllowlistV2Theorems.

(** ** A concrete encoding *)

(** The bits of the encoding [Countable] gives. *)
Fixpoint pos_bytes (p : positive) : list u8 :=
  match p with xH => [] | xO p => Byte.x00 :: pos_bytes p | xI p => Byte.x01 :: pos_bytes p end.
Fixpoint bytes_pos (b : list u8) : positive :=
  match b with [] => xH | Byte.x00 :: b => xO (bytes_pos b) | _ :: b => xI (bytes_pos b) end.
Lemma bytes_pos_bytes p : bytes_pos (pos_bytes p) = p.
Proof. induction p as [p IH|p IH|]; cbn; by rewrite ?IH. Qed.

Definition toy_codec {A} `{Countable A} : Cbor A :=
  {| into_writer a := Ok (pos_bytes (countable.encode a));
     from_reader b := match countable.decode (bytes_pos b) with Some a => Ok a | None => Err "cbor" end |}.
Lemma toy_codec_laws {A} `{Countable A} : @CborLaws A toy_codec.
Proof. intros a b. cbn. intros [= <-]. by rewrite bytes_pos_bytes, decode_encode. Qed.

#[export] Instance AllowEntry_countable : Countable AllowEntry.
Proof.
  refine (inj_countable' (λ e, (e_uid e, e_bin_sha e)) (λ x, {| e_uid := x.1; e_bin_sha := x.2 |}) _).
  by intros [].
Defined.
#[export] Instance AllowlistDoc_countable : Countable AllowlistDoc.
Proof.
  refine (inj_countable' (λ d, (doc_trust_domain d, doc_issued_at d, doc_not_after d, doc_entries d))
    (λ x, {| doc_trust_domain := x.1.1.1; doc_issued_at := x.1.1.2; doc_not_after := x.1.2; doc_entries := x.2 |}) _).
  by intros [].
Defined.
#[export] Instance ProposalDoc_countable : Countable ProposalDoc.
Proof.
  refine (inj_countable' (λ d, (pd_host_uuid d, pd_issued_at d, pd_entries d))
    (λ x, {| pd_host_uuid := x.1.1; pd_issued_at := x.1.2; pd_entries := x.2 |}) _).
  by intros [].
Defined.
#[export] Instance AllowEntryV2_countable : Countable AllowEntryV2.
Proof.
  refine (inj_countable' (λ e, (ev_uid e, ev_expires_at e, ev_approval_id e, ev_user_sid_hash e, ev_path_hash e, ev_bin_sha e))
    (λ x, {| ev_uid := x.1.1.1.1.1; ev_expires_at := x.1.1.1.1.2; ev_approval_id := x.1.1.1.2;
             ev_user_sid_hash := x.1.1.2; ev_path_hash := x.1.2; ev_bin_sha := x.2 |}) _).
  by intros [].
Defined.
#[export] Instance AllowlistDocV2_countable : Countable AllowlistDocV2.
Proof.
  refine (inj_countable' (λ d, (dv_format d, dv_generation d, dv_issued_at d, dv_not_after d, dv_trust_domain d, dv_host_uuid d, dv_entries d))
    (λ x, {| dv_format := x.1.1.1.1.1.1; dv_generation := x.1.1.1.1.1.2; dv_issued_at := x.1.1.1.1.2;
             dv_not_after := x.1.1.1.2; dv_trust_domain := x.1.1.2; dv_host_uuid := x.1.2; dv_entries := x.2 |}) _).
  by intros [].
Defined.

(** An envelope is its signature, of the composite length, and then its body. *)
Definition envelope_codec : Cbor SignedAllowlist :=
  {| into_writer s := if (length (sa_signature s) =? COMPOSITE_SIG_LEN)%nat then Ok (sa_signature s ++ sa_body s) else Err "length";
     from_reader b := Ok {| sa_body := drop COMPOSITE_SIG_LEN b; sa_signature := take COMPOSITE_SIG_LEN b |} |}.
Lemma envelope_codec_laws : @CborLaws SignedAllowlist envelope_codec.
Proof.
  intros [body sig] b. cbn [into_writer from_reader envelope_codec sa_signature sa_body].
  destruct (Nat.eqb_spec (length sig) COMPOSITE_SIG_LEN) as [E|]; [|done]. intros [= <-].
  by rewrite take_app_length', drop_app_length' by done.
Qed.

#[export] Instance toy_allowlist_cbor : AllowlistCbor :=
  {| signed_cbor := envelope_codec; doc_cbor := toy_codec; doc_v2_cbor := toy_codec;
     entries_v2_cbor := toy_codec; proposal_cbor := toy_codec |}.
#[export] Instance toy_allowlist_cbor_laws : AllowlistCborLaws.
Proof. split; first [apply envelope_codec_laws|apply toy_codec_laws]. Qed.

Definition toy_entry (id : u8) (sha : string) (uid : option Z) : AllowEntryV2 :=
  {| ev_approval_id := [id]; ev_bin_sha := sha; ev_uid := uid; ev_user_sid_hash := None;
     ev_path_hash := None; ev_expires_at := None |}.
Definition toy_doc : AllowlistDocV2 :=
  {| dv_format := 2; dv_trust_domain := "d"; dv_host_uuid := "h"; dv_generation := 7;
     dv_issued_at := 100; dv_not_after := 200;
     dv_entries := [toy_entry Byte.x02 "*" (Some 1000); toy_entry Byte.x01 "*" None] |}.

(** A signed document as the chain of operations produces it. *)
Definition toy_signed : result AllowlistV2Error SignedAllowlist :=
  sign_v2 toy_primitives toy_doc toy_sk (Ok []).

Lemma entries_digest_depends_on_order_witness :
  ∃ d d', entries_digest toy_primitives [toy_entry Byte.x00 "*" (Some 1); toy_entry Byte.x00 "*" (Some 2)] = Ok d ∧
    entries_digest toy_primitives [toy_entry Byte.x00 "*" (Some 2); toy_entry Byte.x00 "*" (Some 1)] = Ok d' ∧ d ≠ d'.
Proof.
  destruct (entries_digest toy_primitives [toy_entry Byte.x00 "*" (Some 1); toy_entry Byte.x00 "*" (Some 2)]) as [d|] eqn:E; [|discriminate].
  destruct (entries_digest toy_primitives [toy_entry Byte.x00 "*" (Some 2); toy_entry Byte.x00 "*" (Some 1)]) as [d'|] eqn:E'; [|discriminate].
  exists d, d'. split_and!; [done..|].
  destruct (entries_digest_depends_on_order toy_primitives (toy_entry Byte.x00 "*" (Some 1)) (toy_entry Byte.x00 "*" (Some 2)) d d' eq_refl
    ltac:(discriminate) E E') as [_ [?|(c & c' & _ & _ & _ & _)]]; [done|].
  vm_compute in E, E'. congruence.
Defined.

Lemma sign_verify_roundtrip_witness :
  ∃ signed bytes signed', toy_signed = Ok signed ∧ allowlist_encode signed = Ok bytes ∧
    allowlist_decode bytes = Ok signed' ∧
    verify_v2 toy_primitives signed' (public_of toy_primitives toy_sk) = Ok (sorted_doc toy_doc).
Proof.
  destruct toy_signed as [signed|] eqn:E; [|vm_compute in E; discriminate].
  destruct (allowlist_encode signed) as [bytes|] eqn:Eb;
    [|exfalso; assert ((let? s := toy_signed in map_err (λ _, V2HostUuid) (allowlist_encode s)) = Err V2HostUuid) as H
        by (by rewrite E, Eb); vm_compute in H; discriminate H].
  destruct (sign_verify_roundtrip toy_primitives toy_doc toy_sk (Ok []) signed bytes E Eb)
    as (signed' & Hd & Hv & _).
  by exists signed, bytes, signed'.
Defined.

Lemma entries_digest_identifies_set_witness :
  ∃ d d', entries_digest toy_primitives (dv_entries toy_doc) = Ok d ∧
    entries_digest toy_primitives (reverse (dv_entries toy_doc)) = Ok d' ∧ d = d'.
Proof.
  destruct (entries_digest toy_primitives (dv_entries toy_doc)) as [d|] eqn:E; [|discriminate].
  destruct (entries_digest toy_primitives (reverse (dv_entries toy_doc))) as [d'|] eqn:E'; [|discriminate].
  exists d, d'. split_and!; [done..|].
  apply (entries_digest_identifies_set toy_primitives (dv_entries toy_doc) (reverse (dv_entries toy_doc)) d d');
    [|done..|by rewrite reverse_Permutation].
  refine (bool_decide_unpack _ _). vm_compute. exact I.
Defined.

Lemma tagged_hash_binds_witness :
  PATH_HASH_TAG = PATH_HASH_TAG ∧ "h" = "h" ∧ as_bytes "/bin/a" = as_bytes "/bin/a" ∨
  tagged_input PATH_HASH_TAG "h" (as_bytes "/bin/a") ≠ tagged_input PATH_HASH_TAG "h" (as_bytes "/bin/a") ∧
  sha256 toy_primitives (tagged_input PATH_HASH_TAG "h" (as_bytes "/bin/a")) =
  sha256 toy_primitives (tagged_input PATH_HASH_TAG "h" (as_bytes "/bin/a")).
Proof.
  apply (tagged_hash_binds toy_primitives); [set_solver..| | |reflexivity];
    (refine (bool_decide_unpack _ _); vm_compute; exact I).
Defined.
