(* ===== verification/AllowlistCompile.v ===== *)
(** Compiling, recording and serving a host's allowlist (crates/cmis/src/apps/compile.rs
    and mode.rs, and the read of ferro-raft's reads.rs they use).

    Serving is asynchronous: between two calls to the replicated store any other caller
    may act, and each call may be lost, or take effect while its answer is lost.  An
    operation is therefore a [prog], the sequence of its store calls; [call_step] is one
    call and [sys_step] the interleaving of any number of them. *)
From stdpp Require Import sorting countable.
From S2P Require Import Prelude AppModel AppDedup AppSchema AppInvariants AppLedger AppOps AppProofs AppOpTheorems Order Composite AllowlistV2.
Open Scope Z_scope.

(** ** The store and the calls on it *)

(** What the replicated store holds of interest here: the ledger, the settings, the legacy
    bodies by host, and the events handed to [audit_record]. *)
Record CompiledEvent := { ce_host_uuid : string; ce_generation : Z; ce_entry_count : Z; ce_digest : list u8 }.
Record World := {
  w_db : Db; w_settings : gmap string string; w_legacy : gmap string (list u8);
  w_audit : list CompiledEvent }.

(** Operations as the store calls they await, in order. *)
Inductive prog (A : Type) : Type :=
  | Done (a : A)
  | Call {X : Type} (op : World → World * result LedgerError X) (k : result LedgerError X → prog A).
Arguments Done {A} a.
Arguments Call {A X} op k.

Fixpoint bind {A B} (p : prog A) (f : A → prog B) : prog B :=
  match p with
  | Done a => f a
  | Call op k => Call op (λ r, bind (k r) f)
  end.

(** One call: it runs, it never reaches the leader, or its answer is lost. *)
Inductive call_step {X} (op : World → World * result LedgerError X) (w : World) :
    World → result LedgerError X → Prop :=
  | cs_answered w' r : op w = (w', r) → call_step op w w' r
  | cs_lost e : call_step op w w (Err (Store e))
  | cs_unanswered w' r e : op w = (w', r) → call_step op w w' (Err (Store e)).

(** The run in which every call is answered and nobody else acts. *)
Fixpoint run_alone {A} (p : prog A) (w : World) : World * A :=
  match p with
  | Done a => (w, a)
  | Call op k => let '(w', r) := op w in run_alone (k r) w'
  end.

(** Store calls on the ledger. *)
Definition on_db {X} (f : Db → Db * result LedgerError X) (w : World) : World * result LedgerError X :=
  let '(d, r) := f (w_db w) in
  ({| w_db := d; w_settings := w_settings w; w_legacy := w_legacy w; w_audit := w_audit w |}, r).
Definition read {X} (f : World → X) (w : World) : World * result LedgerError X := (w, Ok (f w)).

(** ** Statuses *)
Inductive Status :=
  | Unavailable (m : string) | StNotFound (m : string) | FailedPrecondition (m : string)
  | Aborted (m : string) | PermissionDenied (m : string)
  | InvalidArgument (m : string) (field : option string) | Internal (m : string)
  | Unauthenticated (m : string) | ResourceExhausted (m : string) (retry_after : Z)
  | AlreadyExists (m : string) | StUnimplemented (m : string).

(** [ledger_status] (apps/mod.rs). *)
Definition ledger_status (e : LedgerError) : Status :=
  match e with
  | Store _ => Unavailable "store_unavailable"
  | LedgerNotFound => StNotFound "not_found"
  | InvalidState => FailedPrecondition "invalid_state"
  | RowVersionMismatch => Aborted "row_version_mismatch"
  | SelfApproval => PermissionDenied "sod_self_approval"
  | NotCovering => FailedPrecondition "not_covering"
  | Raced => Aborted "concurrent_change"
  | Invalid field => InvalidArgument "bad_value" (Some field)
  | Corrupt _ => Internal "internal"
  end.

(** Await a store call, and [map_err(ledger_status)?] on its answer. *)
Definition await {X B} (op : World → World * result LedgerError X) (k : X → prog (result Status B)) :
    prog (result Status B) :=
  Call op (λ r, match r with Ok x => k x | Err e => Done (Err (ledger_status e)) end).
Notation "'let!' x ':=' op 'in' k" := (await op (λ x, k))
  (at level 10, x pattern, op at level 100, k at level 200) : ferro_scope.

(** ** The mode (mode.rs) *)
Definition ALLOWLIST_MODE_KEY : string := "allowlist_mode".
Inductive AllowlistMode := Legacy | Approvals.
#[export] Instance AllowlistMode_eq_dec : EqDecision AllowlistMode.
Proof. solve_decision. Defined.

Definition mode_as_str (m : AllowlistMode) : string :=
  match m with Legacy => "legacy" | Approvals => "approvals" end.
Definition mode_parse (v : string) : option AllowlistMode :=
  if String.eqb v "legacy" then Some Legacy else if String.eqb v "approvals" then Some Approvals else None.
#[export] Instance AllowlistMode_code : CodeEnum AllowlistMode := {
  code x := match x with Legacy => 1 | Approvals => 2 end;
  from_code c := match c with 1 => Some Legacy | 2 => Some Approvals | _ => None end }.
#[export] Instance AllowlistMode_laws : CodeEnumLaws AllowlistMode.
Proof. solve_code_laws. Qed.

(** [mode::current]: a missing or unknown setting is [Legacy]. *)
Definition mode_of (stored : option string) : AllowlistMode :=
  match stored with None => Legacy | Some v => default Legacy (mode_parse v) end.
Definition mode_current (w : World) : AllowlistMode := mode_of (w_settings w !! ALLOWLIST_MODE_KEY).
(** [mode::set]. *)
Definition mode_set (m : AllowlistMode) (w : World) : World * result LedgerError unit :=
  ({| w_db := w_db w; w_settings := <[ALLOWLIST_MODE_KEY := mode_as_str m]> (w_settings w);
      w_legacy := w_legacy w; w_audit := w_audit w |}, Ok tt).

(** ** Live approvals (reads.rs) *)
Record LiveApproval := {
  la_approval : ApprovalRow; la_platform : option Z; la_path_key : option (list u8) }.

(** The rows of [app_live_approvals]: ACTIVE and unexpired ones of the host. *)
Definition live_row (host_uuid : string) (now : Z) (a : ApprovalRow) : bool :=
  is_ (a_host_uuid a) host_uuid && is_ (a_state a) Active
  && (is_null (a_expires_at a) || gt_null (a_expires_at a) (Some now)).
Definition approval_cmp : ApprovalRow → ApprovalRow → comparison :=
  cmp_then (cmp_by a_bin_sha str_cmp) (cmp_by a_approval_id str_cmp).
(** An approval joined with its lineage. *)
Definition live_approval (d : Db) (a : ApprovalRow) : LiveApproval :=
  let l := lineages d !! a_lineage_id a in
  {| la_approval := a; la_platform := l_platform <$> l; la_path_key := l_path_key <$> l |}.
Definition app_live_approvals (host_uuid : string) (now : Z) (d : Db) : list LiveApproval :=
  live_approval d <$> sort_by approval_cmp (rows_where (live_row host_uuid now) (approvals d)).*2.

(** ** Compiling (compile.rs) *)
Definition ATTEMPTS : nat := 4.

Inductive Served :=
  | NotModified (generation not_after : Z)
  | ServedBody (generation : Z) (signed : list u8) (not_after : Z).

(** [u32::try_from]. *)
Definition u32_try_from (z : Z) : option Z := if (0 <=? z) && (z <? 2 ^ 32) then Some z else None.
Definition sat_i64 (z : Z) : Z := Z.max (- 2 ^ 63) (Z.min z (2 ^ 63 - 1)).
(** [now_millis] (apps/mod.rs), with the wall clock it reads. *)
Definition now_millis (wall now : Z) : Z := Z.max wall (sat_i64 (now * 1000)).
(** A stored generation read as a [u64]. *)
Definition row_generation (h : HostAllowlistStateRow) : Z := Z.max 0 (h_generation h).

Section Compile.
Context (P : Primitives) `{CB : !AllowlistCbor}.
(** [uuid::Uuid::parse_str]. *)
Context (parse_uuid : string → option (list u8)).

(** The user constraint of an approval's entry, or that it must be left out. *)
Definition entry_user (host_uuid : string) (a : ApprovalRow) : option (option Z * option (list u8)) :=
  if is_ (a_origin a) LegacyOrigin then Some (a_uid a ≫= u32_try_from, None)
  else if is_ (a_user_scope a) ExactUser then
    match a_user_kind a with
    | Some Unix => match a_uid a ≫= u32_try_from with Some u => Some (Some u, None) | None => None end
    | Some Windows =>
        match a_sid a with
        | Some s => if String.eqb s "" then None else Some (None, Some (sid_hash P host_uuid s))
        | None => None
        end
    | None => None
    end
  else Some (None, None).

Definition entry_path (host_uuid : string) (live : LiveApproval) : option (option (list u8)) :=
  match a_path_match (la_approval live) with
  | PathAny => Some None
  | PathExact =>
      match la_path_key live with
      | Some [] | None => None
      | Some key => Some (Some (path_hash P host_uuid key))
      end
  end.

Definition entry_of (host_uuid : string) (live : LiveApproval) : option AllowEntryV2 :=
  let a := la_approval live in
  id ← parse_uuid (a_approval_id a);
  user ← entry_user host_uuid a;
  path ← entry_path host_uuid live;
  Some {| ev_approval_id := id; ev_bin_sha := a_bin_sha a; ev_uid := user.1;
          ev_user_sid_hash := user.2; ev_path_hash := path; ev_expires_at := a_expires_at a |}.

Definition compile_approvals (host_uuid : string) (live : list LiveApproval) : list AllowEntryV2 :=
  sort_entries (omap (entry_of host_uuid) live).

(** The v2 entry of a v1 entry. *)
Definition legacy_entry (e : AllowEntry) : AllowEntryV2 :=
  {| ev_approval_id := replicate 16 Byte.x00; ev_bin_sha := e_bin_sha e; ev_uid := e_uid e;
     ev_user_sid_hash := None; ev_path_hash := None; ev_expires_at := None |}.

Definition compile_legacy (stored : list u8) : result Status (list AllowEntryV2) :=
  match (let? s := allowlist_decode stored in allowlist_decode_body (sa_body s)) with
  | Err _ => Err (Internal "internal")
  | Ok doc => Ok (sort_entries (legacy_entry <$> doc_entries doc))
  end.

(** What [entries] reads and computes from it. *)
Definition entries_at (mode : AllowlistMode) (host_uuid : string) (now : Z) (w : World) :
    result Status (list AllowEntryV2) :=
  match mode with
  | Approvals => Ok (compile_approvals host_uuid (app_live_approvals host_uuid now (w_db w)))
  | Legacy =>
      match w_legacy w !! host_uuid with
      | None => Ok []
      | Some b => compile_legacy b
      end
  end.

Definition entries {B} (mode : AllowlistMode) (host_uuid : string) (now : Z)
    (k : list AllowEntryV2 → prog (result Status B)) : prog (result Status B) :=
  let! es := read (entries_at mode host_uuid now) in
  match es with Ok es => k es | Err s => Done (Err s) end.

(** [events::compiled], handed to [audit_record], whose failures are swallowed. *)
Definition audit_compiled (host_uuid : string) (generation : Z) (count : nat) (digest : list u8)
    (w : World) : World * result LedgerError unit :=
  ({| w_db := w_db w; w_settings := w_settings w; w_legacy := w_legacy w;
      w_audit := {| ce_host_uuid := host_uuid; ce_generation := generation;
                    ce_entry_count := Z.min (Z.of_nat count) (2 ^ 32 - 1); ce_digest := digest |}
                 :: w_audit w |}, Ok tt).

(** ** Serving *)
Context (issuer : Issuer P) (allowlist_ttl_secs : Z).

Definition sign_and_cache (rng : result string (list u8)) (host_uuid : string) (generation : Z)
    (es : list AllowEntryV2) (now : Z) : prog (result Status Served) :=
  let not_after := sat_i64 (now + allowlist_ttl_secs) in
  match issuer_sign_allowlist_v2 P issuer rng host_uuid generation es now not_after with
  | Err _ => Done (Err (Internal "internal"))
  | Ok signed =>
      match allowlist_encode signed with
      | Err _ => Done (Err (Internal "internal"))
      | Ok bytes =>
          Call (on_db (app_cache_signed_allowlist host_uuid generation bytes not_after))
            (λ _, Done (Ok (ServedBody generation bytes not_after)))
      end
  end.

(** The retry loop of [serve]; [wall n] is the clock when [n] attempts are left. *)
Fixpoint serve_loop (rng : result string (list u8)) (wall : nat → Z) (mode : AllowlistMode)
    (host_uuid : string) (have_generation now : Z) (attempts : nat) : prog (result Status Served) :=
  let half_life := Z.quot allowlist_ttl_secs 2 in
  match attempts with
  | O => Done (Err (Aborted "concurrent_change"))
  | S n =>
      let again := serve_loop rng wall mode host_uuid have_generation now n in
      let! st := read (λ w, app_allowlist_state host_uuid (w_db w)) in
      match st with
      | None =>
          let! _ := on_db (app_bump_generation host_uuid (now_millis (wall n) now) now) in again
      | Some st =>
          entries mode host_uuid now (λ es,
          match entries_digest P es with
          | Err _ => Done (Err (Internal "internal"))
          | Ok digest =>
              if bool_decide (h_entries_digest st = digest) then
                match h_cached_v2 st, h_cached_not_after st with
                | Some body, Some not_after =>
                    if half_life <? sat_i64 (not_after - now) then
                      if have_generation =? row_generation st
                      then Done (Ok (NotModified (row_generation st) not_after))
                      else Done (Ok (ServedBody (row_generation st) body not_after))
                    else sign_and_cache rng host_uuid (row_generation st) es now
                | _, _ => sign_and_cache rng host_uuid (row_generation st) es now
                end
              else
                let! moved := on_db (app_record_compiled_digest host_uuid (row_generation st) digest
                                       (now_millis (wall n) now) now) in
                match moved with
                | Some generation =>
                    Call (audit_compiled host_uuid generation (length es) digest) (λ _,
                      sign_and_cache rng host_uuid generation es now)
                | None => again
                end
          end)
      end
  end.

Definition serve (rng : result string (list u8)) (wall : nat → Z) (host_uuid : string)
    (have_generation now : Z) : prog (result Status Served) :=
  let! mode := read mode_current in
  serve_loop rng wall mode host_uuid have_generation now ATTEMPTS.
End Compile.
