(* ===== verification/AllowlistServe.v ===== *)
(** The guarantees of serving allowlists: over every interleaving of calls to [serve] with
    the operations of the ledger, one generation of a host names one set of entries, and
    every body served is signed over entries compiled from the store. *)
From stdpp Require Import sorting countable.
From S2P Require Import Prelude AppModel AppDedup AppSchema AppInvariants AppLedger AppOps AppProofs AppOpTheorems Order Composite AllowlistV2 AllowlistCompile.
Open Scope Z_scope.

(** ** Interleaving *)

(** No body is in the cache of [d'] that was not there, for the same generation and digest. *)
Definition no_new_cache (d d' : Db) : Prop :=
  ∀ h x' b, hosts d' !! h = Some x' → h_cached_v2 x' = Some b →
  ∃ x, hosts d !! h = Some x ∧ h_cached_v2 x = Some b ∧
    h_generation x = h_generation x' ∧ h_entries_digest x = h_entries_digest x'.

#[export] Instance no_new_cache_preorder : PreOrder no_new_cache.
Proof.
  split; [intros d h x b Hx Hb; by exists x|]. intros d1 d2 d3 H12 H23 h x3 b Hx Hb.
  destruct (H23 h x3 b Hx Hb) as (x2 & Hx2 & Hb2 & Hg2 & Hd2).
  destruct (H12 h x2 b Hx2 Hb2) as (x1 & Hx1 & Hb1 & Hg1 & Hd1). exists x1. split_and!; congruence.
Qed.

(** *** What the generation writes do to the cache *)
Definition hosts_nonneg (d : Db) : Prop := ∀ h x, hosts d !! h = Some x → 0 ≤ h_generation x.

Lemma update_host_cache h x x' d d' : db_keyed d → hosts d !! h = Some x → update_host x x' d = Ok d' →
  (∀ b, h_cached_v2 x' = Some b → h_cached_v2 x = Some b ∧
     h_generation x = h_generation x' ∧ h_entries_digest x = h_entries_digest x') →
  no_new_cache d d'.
Proof.
  intros Hk Hx (-> & _)%update_host_Ok Hc h1 x1 b. rewrite (keyed_host d Hk _ _ Hx). cbn.
  destruct (decide (h1 = h)) as [->|Hne].
  - rewrite lookup_insert_eq. intros [= <-] Hb. exists x. split; [done|]. by apply Hc.
  - rewrite lookup_insert_ne by done. intros Hx1 Hb. by exists x1.
Qed.

Lemma bump_no_new_cache h m now d : db_keyed d → no_new_cache d (app_bump_generation h m now d).1.
Proof.
  intros Hk. unfold app_bump_generation. destruct (check_id _ _); [|reflexivity].
  rewrite commit_fst. unfold ledger_txn. cbn [run].
  destruct (bump_generation_stmt h m now d) as [d'|] eqn:E; cbn; [|reflexivity].
  unfold bump_generation_stmt in E. destruct (hosts d !! h) as [x|] eqn:Ex.
  - by eapply update_host_cache.
  - apply insert_host_Ok in E as (-> & Hn & _). cbn. intros h1 x1 b. cbn.
    destruct (decide (h1 = h)) as [->|]; [rewrite lookup_insert_eq; by intros [= <-]|].
    rewrite lookup_insert_ne by done. intros Hx1 Hb. by exists x1.
Qed.

(** What a recorded digest leaves: the row of the generation returned has it. *)
Lemma record_digest_spec h g dg m now d : db_keyed d →
  let '(d', r) := app_record_compiled_digest h g dg m now d in
  no_new_cache d d' ∧
  ∀ g', r = Ok (Some g') → ∃ x', hosts d' !! h = Some x' ∧ row_generation x' = g' ∧ h_entries_digest x' = dg.
Proof.
  intros Hk. unfold app_record_compiled_digest. destruct dg as [|u l]; [by split|].
  destruct (_ <=? _); [by split|]. destruct (hosts d !! h) as [x|] eqn:Ex; [|by split].
  destruct (_ =? _); [|by split]. destruct (update_host _ _ _) as [d'|] eqn:E; [|by split]. split.
  - eapply update_host_cache; [done..|]. cbn. intros b. unfold is_. case_bool_decide as Hs; [|done].
    rewrite orb_true_r. by intros ->.
  - intros g' [= <-]. apply update_host_Ok in E as (-> & _). rewrite (keyed_host d Hk _ _ Ex). cbn.
    rewrite lookup_insert_eq. by eexists.
Qed.

(** Generations are never negative. *)
Definition nonneg_kept (d d' : Db) : Prop := rtc sql_write d d' ∧ (db_keyed d → hosts_nonneg d → hosts_nonneg d').
Lemma update_host_nonneg h x x' d d' : hosts d !! h = Some x → update_host x x' d = Ok d' →
  h_generation x ≤ h_generation x' → nonneg_kept d d'.
Proof.
  intros Hx H Hg. split; [apply rtc_once; by eapply w_update_host|]. intros Hk Hn.
  apply update_host_Ok in H as (-> & _). rewrite (keyed_host d Hk _ _ Hx). intros h1 x1. cbn.
  destruct (decide (h1 = h)) as [->|]; [rewrite lookup_insert_eq; intros [= <-]|rewrite lookup_insert_ne by done; apply Hn].
  specialize (Hn _ _ Hx). lia.
Qed.
#[export] Instance nonneg_closed : StmtClosed nonneg_kept.
Proof.
  split.
  - split; [intros d; split; [apply rtc_refl|done]|]. intros d1 d2 d3 [W1 E1] [W2 E2].
    split; [by etransitivity|]. intros Hk Hn. apply E2; [by eapply sql_writes_keyed|auto].
  - intros d d' Hw E. split; [by apply rtc_once|]. unfold hosts_nonneg. by rewrite E.
  - intros h m n d d' H. unfold bump_generation_stmt in H. destruct (hosts d !! h) as [x|] eqn:E.
    + eapply update_host_nonneg; [done..|]. cbn [h_generation]. lia.
    + split; [apply rtc_once; by eapply w_insert_host|]. intros _ Hn.
      apply insert_host_Ok in H as (-> & _). intros h1 x1. cbn.
      destruct (decide (h1 = h)) as [->|]; [rewrite lookup_insert_eq; intros [= <-]; cbn; lia|].
      rewrite lookup_insert_ne by done. apply Hn.
  - intros h dg m now x d d' Hd Hx H. eapply update_host_nonneg; [done..|].
    unfold with_digest. cbn [h_generation]. destruct (_ || _); lia.
  - intros h b t x d d' Hx H. by eapply update_host_nonneg.
Qed.

(** The elements of a strongly sorted list, by position. *)
Lemma StronglySorted_lookup_lt {A} (R : relation A) l i j x y :
  StronglySorted R l → (i < j)%nat → l !! i = Some x → l !! j = Some y → R x y.
Proof.
  intros Hs. revert i j. induction Hs as [|a l Hl IH Ha]; intros [|i] [|j] Hlt; try lia; cbn; try done.
  - intros [= ->] Hy. rewrite Forall_forall in Ha. apply Ha. by eapply list_elem_of_lookup_2.
  - apply IH. lia.
Qed.

(** ** What is compiled *)
Lemma gt_null_now t now : is_null t || gt_null t (Some now) = match t with None => true | Some t => now <? t end.
Proof. by destruct t. Qed.

Lemma elem_of_live_approvals h now d l : db_keyed d →
  l ∈ app_live_approvals h now d ↔
  ∃ a, approvals d !! a_approval_id a = Some a ∧ a_host_uuid a = h ∧ is_live a now = true ∧ l = live_approval d a.
Proof.
  intros Hk. unfold app_live_approvals. rewrite list_elem_of_fmap.
  setoid_rewrite (sort_by_Permutation approval_cmp).
  assert (∀ a, a ∈ (rows_where (live_row h now) (approvals d)).*2 ↔
    approvals d !! a_approval_id a = Some a ∧ a_host_uuid a = h ∧ is_live a now = true) as Hrow.
  { intros a. unfold rows_where. rewrite list_elem_of_fmap. setoid_rewrite list_elem_of_In.
    setoid_rewrite filter_In. setoid_rewrite <- list_elem_of_In. unfold live_row, is_live. split.
    - intros ([k x] & -> & Hx & Hl). apply elem_of_map_to_list in Hx. cbn [snd] in *.
      rewrite (keyed_approval d Hk _ _ Hx). unfold is_ in Hl.
      rewrite !andb_true_iff, !bool_decide_eq_true in Hl. destruct Hl as [[H1 H2] H3].
      rewrite gt_null_now in H3. by rewrite bool_decide_true, H3.
    - intros (Hx & Hh & Hl). exists (a_approval_id a, a). split; [done|].
      split; [by apply elem_of_map_to_list|]. cbn [snd]. unfold is_. rewrite gt_null_now.
      apply andb_true_iff in Hl as [H1 H2]. by rewrite H1, H2, bool_decide_true. }
  split.
  - intros (a & -> & (? & ? & ?)%Hrow). by exists a.
  - intros (a & ? & ? & ? & ->). exists a. split; [done|]. by apply Hrow.
Qed.

Section System.
Context (P : Primitives) `{CB : !AllowlistCbor} (parse_uuid : string → option (list u8)).
Context (issuer : Issuer P) (allowlist_ttl_secs : Z).
Context (sha256 : list u8 → list u8) (to_cbor : ApprovalSnapshot → result LedgerError (list u8)).
Local Abbreviation serve := (serve P parse_uuid issuer allowlist_ttl_secs).
Local Abbreviation entries_at := (entries_at P parse_uuid).

(** What other callers of the store may do: any ledger operation (of which only [serve]
    writes a body into the cache), and any change of the settings, of the legacy bodies and
    of the audit trail. *)
Inductive env_step (w : World) : World → Prop :=
  | env_ledger d : ledger_step sha256 to_cbor (w_db w) d → no_new_cache (w_db w) d →
      env_step w {| w_db := d; w_settings := w_settings w; w_legacy := w_legacy w; w_audit := w_audit w |}
  | env_other s l a :
      env_step w {| w_db := w_db w; w_settings := s; w_legacy := l; w_audit := a |}.

(** The worlds so far, newest first, the calls in flight and the answers given. *)
Record Sys := {
  s_trace : list World;
  s_threads : list (string * prog (result Status Served));
  s_answers : list (string * Served) }.

Definition sys_init : Sys :=
  {| s_trace := [{| w_db := empty_db; w_settings := ∅; w_legacy := ∅; w_audit := [] |}];
     s_threads := []; s_answers := [] |}.

Inductive sys_step : Sys → Sys → Prop :=
  | sys_start tr ts ans rng wall host_uuid have now :
      sys_step {| s_trace := tr; s_threads := ts; s_answers := ans |}
        {| s_trace := tr; s_threads := (host_uuid, serve rng wall host_uuid have now) :: ts; s_answers := ans |}
  | sys_call w tr t1 t2 ans h X (op : World → World * result LedgerError X) k w' r :
      call_step op w w' r →
      sys_step {| s_trace := w :: tr; s_threads := t1 ++ (h, Call op k) :: t2; s_answers := ans |}
        {| s_trace := w' :: w :: tr; s_threads := t1 ++ (h, k r) :: t2; s_answers := ans |}
  | sys_answer tr t1 t2 ans h s :
      sys_step {| s_trace := tr; s_threads := t1 ++ (h, Done (Ok s)) :: t2; s_answers := ans |}
        {| s_trace := tr; s_threads := t1 ++ t2; s_answers := (h, s) :: ans |}
  | sys_env w tr ts ans w' :
      env_step w w' →
      sys_step {| s_trace := w :: tr; s_threads := ts; s_answers := ans |}
        {| s_trace := w' :: w :: tr; s_threads := ts; s_answers := ans |}.

(** ** The invariant *)

(** A digest recorded for a generation in some world so far. *)
Definition recorded (tr : list World) (h : string) (g : Z) (D : list u8) : Prop :=
  ∃ w x, w ∈ tr ∧ hosts (w_db w) !! h = Some x ∧ row_generation x = g ∧ h_entries_digest x = D ∧ D ≠ [].

(** Entries compiled from some world so far. *)
Definition compiled_from (tr : list World) (h : string) (es : list AllowEntryV2) : Prop :=
  ∃ w mode now, w ∈ tr ∧ entries_at mode h now w = Ok es.

(** An envelope that verifies under the issuer's key as a body for [h] at [g] whose entries
    were compiled from the store and have digest [D]. *)
Definition body_ok (tr : list World) (h : string) (g : Z) (D : list u8) (b : list u8) : Prop :=
  ∃ signed doc es, allowlist_decode b = Ok signed ∧
    verify_v2 P signed (public_of P (iss_secret P issuer)) = Ok doc ∧
    dv_host_uuid doc = h ∧ dv_generation doc = g ∧ dv_trust_domain doc = iss_trust_domain P issuer ∧
    dv_entries doc = sort_entries es ∧ entries_digest P (dv_entries doc) = Ok D ∧ compiled_from tr h es.

Record world_ok (tr : list World) (w : World) : Prop := {
  wk_keyed : db_keyed (w_db w);
  wk_nonneg : hosts_nonneg (w_db w);
  wk_cache h x b : hosts (w_db w) !! h = Some x → h_cached_v2 x = Some b →
    h_entries_digest x ≠ [] → body_ok tr h (row_generation x) (h_entries_digest x) b }.

(** Newer worlds come first; each pair of them respects generations. *)
Definition newer (w' w : World) : Prop := hosts_fixed (w_db w) (w_db w').
Definition trace_ok (tr : list World) : Prop := StronglySorted newer tr ∧ Forall (world_ok tr) tr.

Definition answer_ok (tr : list World) (h : string) (r : result Status Served) : Prop :=
  match r with
  | Ok (ServedBody g b _) => ∃ D, recorded tr h g D ∧ body_ok tr h g D b
  | _ => True
  end.

(** What a call in flight will answer, whatever happens between its steps. *)
Fixpoint safe (tr : list World) (h : string) (p : prog (result Status Served)) : Prop :=
  match p with
  | Done r => answer_ok tr h r
  | Call op k =>
      ∀ past w w' r, tr `suffix_of` w :: past → trace_ok (w :: past) → call_step op w w' r →
      trace_ok (w' :: w :: past) ∧ safe (w' :: w :: past) h (k r)
  end.

Record sys_inv (s : Sys) : Prop := {
  si_trace : trace_ok (s_trace s);
  si_threads : Forall (λ t, safe (s_trace s) t.1 t.2) (s_threads s);
  si_answers : Forall (λ a, answer_ok (s_trace s) a.1 (Ok a.2)) (s_answers s) }.

(** *** Growing traces *)
Lemma recorded_mono tr tr' h g D : tr `suffix_of` tr' → recorded tr h g D → recorded tr' h g D.
Proof. intros [l ->] (w & x & Hw & ?). exists w, x. split; [set_solver|done]. Qed.

Lemma compiled_mono tr tr' h es : tr `suffix_of` tr' → compiled_from tr h es → compiled_from tr' h es.
Proof. intros [l ->] (w & m & n & Hw & ?). exists w, m, n. split; [set_solver|done]. Qed.

Lemma body_ok_mono tr tr' h g D b : tr `suffix_of` tr' → body_ok tr h g D b → body_ok tr' h g D b.
Proof.
  intros Hs (signed & doc & es & H1 & H2 & H3 & H4 & H5 & H6 & H7 & Hc).
  exists signed, doc, es. split_and!; try done. by eapply compiled_mono.
Qed.

Lemma answer_ok_mono tr tr' h r : tr `suffix_of` tr' → answer_ok tr h r → answer_ok tr' h r.
Proof.
  intros Hs. destruct r as [[|g b t]|]; cbn; [done| |done].
  intros (D & Hr & Hb). exists D. eauto using recorded_mono, body_ok_mono.
Qed.

Lemma safe_mono tr tr' h p : tr `suffix_of` tr' → safe tr h p → safe tr' h p.
Proof.
  intros Hs. destruct p as [r|X op k]; cbn; [by apply answer_ok_mono|].
  intros H past w w' r Hp. apply H. by etransitivity.
Qed.

Lemma world_ok_mono tr tr' w : tr `suffix_of` tr' → world_ok tr w → world_ok tr' w.
Proof. intros Hs [Hk Hn Hc]. split; [done..|]. intros. eauto using body_ok_mono. Qed.

(** A step that respects generations and the cache extends a trace. *)
Lemma trace_ok_step w w' past :
  trace_ok (w :: past) → hosts_fixed (w_db w) (w_db w') → world_ok (w' :: w :: past) w' →
  trace_ok (w' :: w :: past).
Proof.
  intros [Hs Hf] Hn Hw. split.
  - apply SSorted_cons; [done|]. apply StronglySorted_cons in Hs as [Hall _].
    apply Forall_cons. split; [done|]. eapply Forall_impl; [exact Hall|]. intros u Hu.
    unfold newer in *. by etransitivity.
  - apply Forall_cons. split; [done|]. eapply Forall_impl; [exact Hf|]. intros u.
    apply world_ok_mono. by exists [w'].
Qed.

Lemma trace_ok_head w past : trace_ok (w :: past) → world_ok (w :: past) w.
Proof. intros [_ H]. by apply Forall_cons in H as [H _]. Qed.

(** The facts of a world are kept by steps that write no body. *)
Lemma world_ok_step w w' past :
  trace_ok (w :: past) → hosts_fixed (w_db w) (w_db w') → hosts_nonneg (w_db w') →
  no_new_cache (w_db w) (w_db w') → trace_ok (w' :: w :: past).
Proof.
  intros Ht Hf Hn Hc. pose proof (trace_ok_head w past Ht) as Hw.
  apply trace_ok_step; [done..|]. split.
  - eapply sql_writes_keyed; [apply Hf|apply Hw].
  - done.
  - intros h x' b Hx' Hb Hd. destruct (Hc h x' b Hx' Hb) as (x & Hx & Hb' & Hg & He).
    unfold row_generation. rewrite <- Hg, <- He. eapply body_ok_mono; [by exists [w']|].
    apply (wk_cache _ _ Hw); congruence.
Qed.

(** One generation of a host has one recorded digest. *)
Lemma recorded_unique tr h g D D' : trace_ok tr → recorded tr h g D → recorded tr h g D' → D = D'.
Proof.
  intros [Hs Hf] (w & x & Hw & Hx & Hg & HD & Hne) (w' & x' & Hw' & Hx' & Hg' & HD' & Hne').
  assert (∀ u y, u ∈ tr → hosts (w_db u) !! h = Some y → row_generation y = h_generation y) as Hnn.
  { intros u y Hu Hy. rewrite Forall_forall in Hf. pose proof (wk_nonneg _ _ (Hf u Hu) h y Hy).
    unfold row_generation. lia. }
  assert (∀ u v y z, newer v u → db_keyed (w_db u) → hosts (w_db u) !! h = Some y → hosts (w_db v) !! h = Some z →
    h_generation z = h_generation y → h_entries_digest y ≠ [] → h_entries_digest z = h_entries_digest y) as Hfix.
  { intros u v y z [_ He] Hk Hy Hz Hgz. destruct (He Hk h y Hy) as (z' & Hz' & _ & Hd).
    rewrite Hz' in Hz. injection Hz as ->. auto. }
  rewrite (Hnn w x) in Hg by done. rewrite (Hnn w' x') in Hg' by done.
  rewrite Forall_forall in Hf. apply list_elem_of_lookup in Hw as [i Hi], Hw' as [j Hj].
  pose proof (wk_keyed _ _ (Hf w ltac:(by eapply list_elem_of_lookup_2))) as Hk.
  pose proof (wk_keyed _ _ (Hf w' ltac:(by eapply list_elem_of_lookup_2))) as Hk'.
  destruct (lt_eq_lt_dec i j) as [[Hlt|<-]|Hlt].
  - rewrite <- HD, <- HD'. eapply (Hfix w' w); [by eapply StronglySorted_lookup_lt|done..|congruence|congruence].
  - congruence.
  - rewrite <- HD, <- HD'. symmetry. eapply (Hfix w w'); [by eapply StronglySorted_lookup_lt|done..|congruence|congruence].
Qed.

(** *** The calls of [serve] *)
Lemma trace_ok_idle w past : trace_ok (w :: past) → trace_ok (w :: w :: past).
Proof.
  intros Ht. apply world_ok_step; [done|reflexivity| |reflexivity]. apply (wk_nonneg _ _ (trace_ok_head _ _ Ht)).
Qed.

(** A store call that fails ends the operation with an error. *)
Lemma safe_await {X} tr h (op : World → World * result LedgerError X) k :
  (∀ past w, tr `suffix_of` w :: past → trace_ok (w :: past) →
     trace_ok ((op w).1 :: w :: past) ∧ ∀ x, (op w).2 = Ok x → safe ((op w).1 :: w :: past) h (k x)) →
  safe tr h (await op k).
Proof.
  intros H past w w' r Hs Ht Hc. destruct (H past w Hs Ht) as [Ht' Hk].
  destruct Hc as [w' r E|e|w' r e E]; try (rewrite E in Ht', Hk; cbn [fst snd] in Ht', Hk).
  - split; [done|]. destruct r as [x|e]; [by apply Hk|done].
  - split; [by apply trace_ok_idle|done].
  - done.
Qed.

Lemma safe_read {X} tr h (f : World → X) k :
  (∀ past w, tr `suffix_of` w :: past → trace_ok (w :: past) → safe (w :: w :: past) h (k (f w))) →
  safe tr h (await (read f) k).
Proof.
  intros H. apply safe_await. intros past w Hs Ht. cbn. split; [by apply trace_ok_idle|].
  intros x [= <-]. by apply H.
Qed.

(** The ledger's own operations keep what a world promises. *)
Lemma trace_ok_ledger w past (w' : World) :
  trace_ok (w :: past) → ledger_step sha256 to_cbor (w_db w) (w_db w') → no_new_cache (w_db w) (w_db w') →
  trace_ok (w' :: w :: past).
Proof.
  intros Ht Hl Hc. pose proof (trace_ok_head _ _ Ht) as Hw. apply world_ok_step; [done| | |done].
  - by apply (ledger_step_closed sha256 to_cbor).
  - apply (ledger_step_closed (R := nonneg_kept) sha256 to_cbor _ _ Hl); apply Hw.
Qed.

Lemma suffix_two {A} (l k : list A) x y : l `suffix_of` x :: k → l `suffix_of` y :: x :: k.
Proof. intros H. etransitivity; [exact H|]. by exists [y]. Qed.

Context `{CBL : !AllowlistCborLaws, PL : !PrimitiveLaws P}.

Lemma entries_digest_sorted es : entries_digest P (sort_entries es) = entries_digest P es.
Proof. unfold entries_digest. by rewrite sort_entries_idemp. Qed.

(** A signed body, with where its entries came from. *)
Lemma signed_body_ok tr rng h g es now na D signed bytes :
  compiled_from tr h es → entries_digest P es = Ok D →
  issuer_sign_allowlist_v2 P issuer rng h g es now na = Ok signed → allowlist_encode signed = Ok bytes →
  body_ok tr h g D bytes.
Proof.
  intros Hc HD [Hv _]%sign_v2_verify Hb%map_err_ok; [|done..].
  eexists signed, _, es. unfold allowlist_decode. rewrite (from_into _ _ Hb).
  split_and!; [done|exact Hv|done..| |done]. cbn. by rewrite entries_digest_sorted.
Qed.

(** Caching it: the row it lands in has the generation it was signed at, hence its digest. *)
Lemma cache_trace_ok w past h g bytes na D :
  trace_ok (w :: past) → recorded (w :: past) h g D → body_ok (w :: past) h g D bytes →
  trace_ok ((on_db (app_cache_signed_allowlist h g bytes na) w).1 :: w :: past).
Proof.
  intros Ht Hr Hb. unfold on_db, app_cache_signed_allowlist.
  destruct (2 ^ 63 <=? g); [by apply world_ok_step; [|reflexivity|apply (wk_nonneg _ _ (trace_ok_head _ _ Ht))|reflexivity]|].
  pose proof (trace_ok_head _ _ Ht) as Hw.
  destruct (hosts (w_db w) !! h) as [x|] eqn:Ex;
    [|by apply world_ok_step; [|reflexivity|apply Hw|reflexivity]].
  destruct ((h_generation x =? g) && negb (length (h_entries_digest x) =? 0)%nat) eqn:Eg;
    [|by apply world_ok_step; [|reflexivity|apply Hw|reflexivity]].
  destruct (update_host x _ _) as [d'|] eqn:E;
    [|by apply world_ok_step; [|reflexivity|apply Hw|reflexivity]]. cbn [fst].
  apply andb_true_iff in Eg as [Eg Ed]. apply Z.eqb_eq in Eg.
  apply negb_true_iff, Nat.eqb_neq in Ed.
  assert (row_generation x = g) as Hg by (pose proof (wk_nonneg _ _ Hw h x Ex); unfold row_generation; lia).
  assert (h_entries_digest x = D) as HD.
  { eapply (recorded_unique _ h g); [done| |done]. exists w, x. split_and!; [set_solver|done..|].
    by destruct (h_entries_digest x). }
  apply trace_ok_step; [done| |split]; cbn [w_db].
  - by eapply (update_host_fixed h x); [| |split].
  - eapply sql_writes_keyed; [apply rtc_once; by eapply w_update_host|apply Hw].
  - eapply (update_host_nonneg h x); [done..|apply Hw|apply Hw].
  - apply update_host_Ok in E as (-> & _). intros h1 x1 b. rewrite (keyed_host _ (wk_keyed _ _ Hw) _ _ Ex). cbn.
    destruct (decide (h1 = h)) as [->|Hne].
    + rewrite lookup_insert_eq. intros [= <-]. cbn. intros [= <-] _. rewrite HD.
      change (row_generation (with_cache bytes na x)) with (row_generation x). rewrite Hg.
      eapply body_ok_mono; [|exact Hb]. by eexists [_].
    + rewrite lookup_insert_ne by done. intros Hx1 Hc Hne1.
      eapply body_ok_mono; [by eexists [_]|]. by apply (wk_cache _ _ Hw).
Qed.

Lemma sign_and_cache_safe tr rng h g es now D :
  recorded tr h g D → compiled_from tr h es → entries_digest P es = Ok D →
  safe tr h (sign_and_cache P issuer allowlist_ttl_secs rng h g es now).
Proof.
  intros Hr Hc HD. unfold sign_and_cache.
  destruct (issuer_sign_allowlist_v2 _ _ _ _ _ _ _ _) as [signed|] eqn:Es; [|done].
  destruct (allowlist_encode signed) as [bytes|] eqn:Eb; [|done].
  pose proof (signed_body_ok tr _ _ _ _ _ _ _ _ _ Hc HD Es Eb) as Hb.
  intros past w w' r Hs Ht Hcall.
  pose proof (recorded_mono _ _ _ _ _ Hs Hr) as Hr1. pose proof (body_ok_mono _ _ _ _ _ _ Hs Hb) as Hb1.
  pose proof (cache_trace_ok w past h g bytes (sat_i64 (now + allowlist_ttl_secs)) D Ht Hr1 Hb1) as Ht1.
  assert (answer_ok (w' :: w :: past) h (Ok (ServedBody g bytes (sat_i64 (now + allowlist_ttl_secs))))) as Ha.
  { exists D. split; [apply (recorded_mono (w :: past))|apply (body_ok_mono (w :: past))]; try done; by exists [w']. }
  destruct Hcall as [w' r E|e|w' r e E]; try (rewrite E in Ht1; cbn [fst] in Ht1); split; try done.
  by apply trace_ok_idle.
Qed.

(** Recording a digest that differs, then signing at the generation it got. *)
Lemma record_and_sign_safe tr rng h g es now m D again :
  compiled_from tr h es → entries_digest P es = Ok D → (∀ tr', safe tr' h again) →
  safe tr h (let! moved := on_db (app_record_compiled_digest h g D m now) in
    match moved with
    | Some generation => Call (audit_compiled h generation (length es) D)
        (λ _, sign_and_cache P issuer allowlist_ttl_secs rng h generation es now)
    | None => again
    end).
Proof.
  intros Hc Hd Hagain. assert (D ≠ []) as Hne by (intros ->; by apply entries_digest_length in Hd).
  apply safe_await. intros past w Hs Ht. pose proof (trace_ok_head _ _ Ht) as Hw. unfold on_db.
  pose proof (record_digest_spec h g D m now (w_db w) (wk_keyed _ _ Hw)) as Hrd.
  pose proof (ls_digest sha256 to_cbor (w_db w) h g D m now) as Hls.
  destruct (app_record_compiled_digest _ _ _ _ _ _) as [d' r]. destruct Hrd as [Hnc Hrow]. cbn [fst snd] in *.
  split; [by apply trace_ok_ledger|]. intros [g'|] ->; [|apply Hagain].
  destruct (Hrow g' eq_refl) as (x' & Hx' & Hg' & Hd').
  intros past1 w1 w2 r Hs1 Ht1 Hcall. split.
  - apply world_ok_step; [done|..]; destruct Hcall as [w2 r Ea|e|w2 r e Ea];
      try (unfold audit_compiled in Ea; injection Ea as <- _); cbn [w_db]; try reflexivity;
      apply (wk_nonneg _ _ (trace_ok_head _ _ Ht1)).
  - eapply sign_and_cache_safe; [| |done].
    + eapply recorded_mono; [by apply suffix_two|]. eexists _, x'. split_and!; [apply list_elem_of_here|done..].
    + eapply compiled_mono; [by apply suffix_two|]. eapply compiled_mono; [by apply suffix_two|done].
Qed.

Lemma bump_safe tr h m now again : (∀ tr', safe tr' h again) →
  safe tr h (let! _ := on_db (app_bump_generation h m now) in again).
Proof.
  intros Hagain. apply safe_await. intros past w Hs Ht. pose proof (trace_ok_head _ _ Ht) as Hw. unfold on_db.
  pose proof (ls_bump sha256 to_cbor (w_db w) h m now) as Hls.
  pose proof (bump_no_new_cache h m now (w_db w) (wk_keyed _ _ Hw)) as Hnc.
  destruct (app_bump_generation _ _ _ _) as [d' r]. cbn [fst snd] in *. split; [by apply trace_ok_ledger|].
  intros _ _. apply Hagain.
Qed.

Lemma serve_loop_safe tr rng wall mode h have now n :
  safe tr h (serve_loop P parse_uuid issuer allowlist_ttl_secs rng wall mode h have now n).
Proof.
  revert tr. induction n as [|n IH]; intros tr; [done|]. cbn [serve_loop].
  apply safe_read. intros past w Hs Ht. unfold app_allowlist_state.
  destruct (hosts (w_db w) !! h) as [st|] eqn:Est; [|by apply bump_safe].
  unfold entries. apply safe_read. intros past1 w1 Hs1 Ht1.
  destruct (entries_at mode h now w1) as [es|] eqn:Ees; [|done].
  assert (compiled_from (w1 :: w1 :: past1) h es) as Hc by (exists w1, mode, now; split; [set_solver|done]).
  destruct (entries_digest P es) as [digest|] eqn:Ed; [|done].
  case_bool_decide as E; [|by apply record_and_sign_safe].
  assert (digest ≠ []) as Hne by (intros ->; by apply entries_digest_length in Ed).
  assert (recorded (w1 :: w1 :: past1) h (row_generation st) digest) as Hrec.
  { eapply recorded_mono; [by apply suffix_two|]. exists w, st. split_and!; [set_solver|done..]. }
  pose proof (sign_and_cache_safe _ rng h _ es now digest Hrec Hc Ed) as Hsign.
  destruct (h_cached_v2 st) as [body|] eqn:Ebody; [|done]. destruct (h_cached_not_after st) as [na|]; [|done].
  destruct (_ <? _); [|done]. destruct (_ =? _); [done|]. exists digest. split; [done|].
  eapply body_ok_mono; [by apply suffix_two|]. eapply body_ok_mono; [by exists [w]|].
  rewrite <- E. apply (wk_cache _ _ (trace_ok_head _ _ Ht)); [done..|]. by rewrite E.
Qed.

(** *** Every reachable system *)
Lemma sys_inv_init : sys_inv sys_init.
Proof.
  split; [|constructor..]. cbn. split; [repeat constructor|]. constructor; [|constructor]. split; cbn.
  - apply empty_keyed.
  - by intros h x.
  - by intros h x b.
Qed.

Lemma sys_inv_step s s' : sys_step s s' → sys_inv s → sys_inv s'.
Proof.
  intros Hstep [Ht Hth Ha]. destruct Hstep as [tr ts ans rng wall h have now|w tr t1 t2 ans h X op k w' r Hc|tr t1 t2 ans h s|w tr ts ans w' He];
    cbn [s_trace s_threads s_answers] in *.
  - split; cbn [s_trace s_threads s_answers]; try done. constructor; [|done]. cbn [fst snd].
    unfold AllowlistCompile.serve. apply safe_read. intros. apply serve_loop_safe.
  - apply Forall_app in Hth as [H1 H2]. apply Forall_cons in H2 as [H2 H3]. cbn [fst snd] in H2.
    destruct (H2 tr w w' r ltac:(done) Ht Hc) as [Ht' Hk].
    split; cbn [s_trace s_threads s_answers]; [done| |].
    + apply Forall_app. split; [|apply Forall_cons; split; [done|]]; (eapply Forall_impl; [done|]);
        intros t Hsafe; (eapply safe_mono; [|exact Hsafe]); by exists [w'].
    + eapply Forall_impl; [exact Ha|]. intros a Hok. eapply answer_ok_mono; [|exact Hok]. by exists [w'].
  - apply Forall_app in Hth as [H1 H2]. apply Forall_cons in H2 as [H2 H3].
    split; cbn [s_trace s_threads s_answers]; [done|by apply Forall_app|by constructor].
  - assert (trace_ok (w' :: w :: tr)) as Ht'.
    { destruct He as [d Hl Hc|st l a]; [by apply trace_ok_ledger|].
      apply world_ok_step; [done|reflexivity|apply (wk_nonneg _ _ (trace_ok_head _ _ Ht))|reflexivity]. }
    split; cbn [s_trace s_threads s_answers]; [done|..].
    + eapply Forall_impl; [exact Hth|]. intros t Hsafe. eapply safe_mono; [|exact Hsafe]. by exists [w'].
    + eapply Forall_impl; [exact Ha|]. intros a Hok. eapply answer_ok_mono; [|exact Hok]. by exists [w'].
Qed.

Lemma sys_reachable_inv s : rtc sys_step sys_init s → sys_inv s.
Proof.
  intros H. pose proof sys_inv_init as Hi. induction H; eauto using sys_inv_step.
Qed.

Lemma answers_ok s h g b na : rtc sys_step sys_init s → (h, ServedBody g b na) ∈ s_answers s →
  trace_ok (s_trace s) ∧ ∃ D, recorded (s_trace s) h g D ∧ body_ok (s_trace s) h g D b.
Proof.
  intros [Ht _ Ha]%sys_reachable_inv Hin. split; [done|]. rewrite Forall_forall in Ha. exact (Ha _ Hin).
Qed.

(** ** Theorems *)

(** C4: whatever calls, failures and other ledger operations interleave, two bodies a host is
    served at one generation both verify under the issuer's key as documents of that host
    and generation, with the same entries digest, and so with the same entries up to a
    SHA-384 collision on their encodings. *)
Theorem one_generation_one_entry_set s h g b1 n1 b2 n2 :
  rtc sys_step sys_init s →
  (h, ServedBody g b1 n1) ∈ s_answers s → (h, ServedBody g b2 n2) ∈ s_answers s →
  ∃ s1 s2 doc1 doc2 D,
    allowlist_decode b1 = Ok s1 ∧ verify_v2 P s1 (public_of P (iss_secret P issuer)) = Ok doc1 ∧
    allowlist_decode b2 = Ok s2 ∧ verify_v2 P s2 (public_of P (iss_secret P issuer)) = Ok doc2 ∧
    dv_host_uuid doc1 = h ∧ dv_host_uuid doc2 = h ∧ dv_generation doc1 = g ∧ dv_generation doc2 = g ∧
    entries_digest P (dv_entries doc1) = Ok D ∧ entries_digest P (dv_entries doc2) = Ok D ∧
    (dv_entries doc1 = dv_entries doc2 ∨ ∃ c1 c2, c1 ≠ c2 ∧ sha384 P c1 = sha384 P c2 ∧
       into_writer (dv_entries doc1) = Ok c1 ∧ into_writer (dv_entries doc2) = Ok c2).
Proof.
  intros Hr H1 H2. destruct (answers_ok s h g b1 n1 Hr H1) as (Ht & D1 & R1 & B1).
  destruct (answers_ok s h g b2 n2 Hr H2) as (_ & D2 & R2 & B2).
  pose proof (recorded_unique _ h g D1 D2 Ht R1 R2) as <-.
  destruct B1 as (s1 & doc1 & e1 & A1 & V1 & Hh1 & G1 & _ & E1 & HD1 & _).
  destruct B2 as (s2 & doc2 & e2 & A2 & V2 & Hh2 & G2 & _ & E2 & HD2 & _).
  exists s1, s2, doc1, doc2, D1. split_and!; try done.
  apply entries_digest_ok in HD1 as (c1 & C1 & X1), HD2 as (c2 & C2 & X2).
  rewrite E1, sort_entries_idemp, <- E1 in C1. rewrite E2, sort_entries_idemp, <- E2 in C2.
  destruct (decide (c1 = c2)) as [<-|Hne].
  - left. apply from_into in C1, C2. congruence.
  - right. exists c1, c2. split_and!; try done. apply vec_to_list_inj2. congruence.
Qed.

(** Where the entries of a served body come from. *)
Lemma served_body_entries s h g b na :
  rtc sys_step sys_init s → (h, ServedBody g b na) ∈ s_answers s →
  ∃ signed doc w mode now, allowlist_decode b = Ok signed ∧
    verify_v2 P signed (public_of P (iss_secret P issuer)) = Ok doc ∧ w ∈ s_trace s ∧
    match mode with
    | Approvals => ∀ e, e ∈ dv_entries doc ↔
        ∃ a, approvals (w_db w) !! a_approval_id a = Some a ∧ a_host_uuid a = h ∧ is_live a now = true ∧
          entry_of P parse_uuid h (live_approval (w_db w) a) = Some e
    | Legacy =>
        (w_legacy w !! h = None ∧ dv_entries doc = []) ∨
        ∃ stored es, w_legacy w !! h = Some stored ∧ compile_legacy stored = Ok es ∧ dv_entries doc ≡ₚ es
    end.
Proof.
  intros Hr Hin. destruct (answers_ok s h g b na Hr Hin) as (Ht & D & _ & Hb).
  destruct Hb as (signed & doc & es & Hd & Hv & _ & _ & _ & He & _ & w & mode & now & Hw & Hc).
  exists signed, doc, w, mode, now. split_and!; [done..|]. rewrite He. destruct mode; cbn in Hc.
  - destruct (w_legacy w !! h) as [stored|] eqn:El.
    + right. exists stored, es. split_and!; [done..|apply sort_entries_Permutation].
    + left. injection Hc as <-. done.
  - injection Hc as <-. intros e. rewrite elem_of_sort_entries. unfold compile_approvals.
    rewrite elem_of_sort_entries, list_elem_of_omap. destruct Ht as [_ Hf]. rewrite Forall_forall in Hf.
    pose proof (wk_keyed _ _ (Hf w Hw)) as Hk. split.
    + intros (l & (a & Ha & Hh & Hl & ->)%elem_of_live_approvals & Ee); [by exists a|done].
    + intros (a & Ha & Hh & Hl & Ee). exists (live_approval (w_db w) a). split; [|done].
      apply elem_of_live_approvals; [done|]. by exists a.
Qed.

(** every body served holds exactly the entries of its host's approvals that were ACTIVE
    and unexpired in some state of the store (or, in legacy mode, of the stored legacy
    body): no entry comes from anywhere else and none is dropped but those [entry_of]
    refuses. *)
Theorem served_body_from_live_approvals s h g b na :
  rtc sys_step sys_init s → (h, ServedBody g b na) ∈ s_answers s →
  ∃ signed doc w mode now, allowlist_decode b = Ok signed ∧
    verify_v2 P signed (public_of P (iss_secret P issuer)) = Ok doc ∧ w ∈ s_trace s ∧
    match mode with
    | Approvals => ∀ e, e ∈ dv_entries doc ↔
        ∃ a, approvals (w_db w) !! a_approval_id a = Some a ∧ a_host_uuid a = h ∧ is_live a now = true ∧
          entry_of P parse_uuid h (live_approval (w_db w) a) = Some e
    | Legacy =>
        (w_legacy w !! h = None ∧ dv_entries doc = []) ∨
        ∃ stored es, w_legacy w !! h = Some stored ∧ compile_legacy stored = Ok es ∧ dv_entries doc ≡ₚ es
    end.
Proof. apply served_body_entries. Qed.

(** *** A call nobody interferes with *)

(** Answered, or refused because an encoder or the signer failed. *)
Definition answered (r : result Status Served) : Prop :=
  match r with Ok _ => True | Err st => st = Internal "internal" end.

Lemma sign_and_cache_answers rng h g es now w :
  answered (run_alone (sign_and_cache P issuer allowlist_ttl_secs rng h g es now) w).2.
Proof.
  unfold sign_and_cache. destruct (issuer_sign_allowlist_v2 _ _ _ _ _ _ _ _); [|done].
  destruct (allowlist_encode _); [|done]. cbn. by destruct (on_db _ w).
Qed.

Lemma entries_at_answers mode h now w st : entries_at mode h now w = Err st → st = Internal "internal".
Proof.
  destruct mode; cbn; [|done]. destruct (w_legacy w !! h); [|done]. unfold compile_legacy.
  destruct (allowlist_decode l) as [sg|]; [destruct (allowlist_decode_body (sa_body sg))|]; congruence.
Qed.

(** A digest is recorded on the row it was compiled for. *)
Lemma record_digest_succeeds h D m now x d :
  db_keyed d → hosts d !! h = Some x → 0 ≤ h_generation x < 2 ^ 63 → len_between h 1 64 = true → D ≠ [] →
  ∃ d' g, app_record_compiled_digest h (row_generation x) D m now d = (d', Ok (Some g)).
Proof.
  intros Hk Hx Hg Hl HD. unfold app_record_compiled_digest, row_generation. rewrite Z.max_r by lia.
  destruct D as [|u D]; [done|]. rewrite (proj2 (Z.leb_gt _ _)) by lia. rewrite Hx, Z.eqb_refl.
  unfold update_host. rewrite (keyed_host d Hk _ _ Hx) in *.
  assert (host_allowlist_state_generation_monotonic x (with_digest (u :: D) m now x) = false) as ->.
  { unfold host_allowlist_state_generation_monotonic, is_. cbn [h_host_uuid h_generation with_digest].
    rewrite bool_decide_true by done. apply orb_false_iff. split; [|done]. apply Z.ltb_ge. destruct (_ || _); lia. }
  assert (host_checks (with_digest (u :: D) m now x) = true) as ->.
  { unfold host_checks. cbn [h_host_uuid h_generation with_digest]. rewrite (keyed_host d Hk _ _ Hx), Hl.
    apply Z.leb_le. destruct (_ || _); lia. }
  cbn. by eexists _, _.
Qed.

Lemma loop_on_row rng wall mode h have now n w st :
  db_keyed (w_db w) → hosts (w_db w) !! h = Some st → 0 ≤ h_generation st < 2 ^ 63 → len_between h 1 64 = true →
  answered (run_alone (serve_loop P parse_uuid issuer allowlist_ttl_secs rng wall mode h have now (S n)) w).2.
Proof.
  intros Hk Hst Hg Hl. cbn [serve_loop run_alone await read]. unfold app_allowlist_state. rewrite Hst.
  cbn [entries run_alone await read]. unfold entries. cbn [run_alone await read].
  destruct (entries_at mode h now w) as [es|e] eqn:Ees; [|by apply entries_at_answers in Ees].
  destruct (entries_digest P es) as [D|] eqn:ED; [|done].
  assert (D ≠ []) as Hne by (intros ->; by apply entries_digest_length in ED).
  case_bool_decide.
  - repeat case_match; try apply sign_and_cache_answers; done.
  - destruct (record_digest_succeeds h D (now_millis (wall n) now) now st (w_db w) Hk Hst Hg Hl Hne) as (d' & g & E).
    cbn [run_alone await]. unfold on_db at 1. rewrite E. cbn [run_alone]. apply sign_and_cache_answers.
Qed.

(** The first sync of a host: its generation starts, then the loop finds the row. *)
Lemma loop_without_row rng wall mode h have now n w :
  db_keyed (w_db w) → hosts (w_db w) !! h = None → wall (S n) < 2 ^ 63 →
  len_between h 1 64 = true → check_id h "host_uuid" = Ok () →
  answered (run_alone (serve_loop P parse_uuid issuer allowlist_ttl_secs rng wall mode h have now (S (S n))) w).2.
Proof.
  intros Hk Est Hwall Hl Hid. remember (S n) as n1 eqn:En. cbn [serve_loop run_alone await read].
  unfold app_allowlist_state. rewrite Est. cbn [run_alone await].
  set (m := now_millis (wall n1) now). unfold on_db at 1, app_bump_generation. rewrite Hid.
  set (x := {| h_host_uuid := h; h_generation := Z.max m 1; h_entries_digest := []; h_changed_at := now;
               h_cached_v2 := None; h_cached_not_after := None |}).
  assert (insert_host x (w_db w) = Ok (set_hosts <[h := x]> (w_db w))) as E.
  { unfold insert_host. cbn [h_host_uuid x]. rewrite Est. cbn [is_null check].
    unfold host_checks. cbn [h_host_uuid h_generation x]. rewrite Hl. cbn [andb].
    rewrite (proj2 (Z.leb_le _ _)) by lia. done. }
  unfold ledger_txn. cbn [run]. unfold bump_generation_stmt at 1. rewrite Est. fold x. rewrite E.
  cbn [commit run_alone]. rewrite En. apply (loop_on_row _ _ _ _ _ _ _ _ x); cbn [w_db]; try done.
  - eapply sql_writes_keyed; [by apply rtc_once, (w_insert_host x)|exact Hk].
  - cbn. by rewrite lookup_insert_eq.
  - cbn [h_generation x]. subst m. unfold now_millis, sat_i64. lia.
Qed.

(** a call to [serve] that no other caller interferes with always answers: with a body or
    [NotModified], or with the internal error of a failed encoder or signer; it never runs
    out of attempts and is never refused by the store. *)
Theorem serve_alone_answers rng wall h have now w :
  db_keyed (w_db w) → hosts_nonneg (w_db w) → (∀ x, hosts (w_db w) !! h = Some x → h_generation x < 2 ^ 63) →
  len_between h 1 64 = true → check_id h "host_uuid" = Ok () → (∀ n, wall n < 2 ^ 63) →
  answered (run_alone (serve rng wall h have now) w).2.
Proof.
  intros Hk Hn Hb Hl Hid Hwall. unfold AllowlistCompile.serve. cbn [run_alone await read].
  change ATTEMPTS with (S (S 2)). destruct (hosts (w_db w) !! h) as [st|] eqn:Est.
  - apply (loop_on_row _ _ _ _ _ _ _ _ st); try done. specialize (Hn h st Est). specialize (Hb st eq_refl). lia.
  - by apply loop_without_row.
Qed.
End System.
