(* ===== verification/AppPath.v ===== *)
(** Canonical paths and path keys (crates/ferro-appid/src/path.rs and platform.rs).

    A Rust [str] is its UTF-8 bytes; [utf8_decode] is [str::from_utf8] followed by [chars],
    and the separators and prefixes are ASCII, so the byte-wise operations below are the
    source's.  The Unicode upper-case table of the standard library is the parameter
    [to_uppercase]. *)
From S2P Require Import Prelude AppModel AppDedup Order.
Open Scope Z_scope.

(** ** UTF-8 *)

(** One continuation byte appended to the bits read so far. *)
Definition cont (b : u8) : option Z :=
  let v := u8.to_Z b in if (128 <=? v) && (v <? 192) then Some (v - 128) else None.

Definition in_range (lo hi z : Z) : bool := (lo <=? z) && (z <=? hi).

(** The character at the head of a byte string, with what follows it: the well-formed
    sequences of the Unicode standard (no overlong form, no surrogate, at most 0x10FFFF). *)
Definition utf8_next (l : list u8) : option (Z * list u8) :=
  match l with
  | [] => None
  | b0 :: r0 =>
      let v := u8.to_Z b0 in
      if v <? 128 then Some (v, r0)
      else if in_range 194 223 v then
        match r0 with
        | b1 :: r1 => c1 ← cont b1; Some ((v - 192) * 64 + c1, r1)
        | _ => None
        end
      else if in_range 224 239 v then
        match r0 with
        | b1 :: b2 :: r2 =>
            c1 ← cont b1; c2 ← cont b2;
            let c := (v - 224) * 4096 + c1 * 64 + c2 in
            if (2048 <=? c) && negb (in_range 55296 57343 c) then Some (c, r2) else None
        | _ => None
        end
      else if in_range 240 244 v then
        match r0 with
        | b1 :: b2 :: b3 :: r3 =>
            c1 ← cont b1; c2 ← cont b2; c3 ← cont b3;
            let c := (v - 240) * 262144 + c1 * 4096 + c2 * 64 + c3 in
            if in_range 65536 1114111 c then Some (c, r3) else None
        | _ => None
        end
      else None
  end.

(** Every character takes at least one byte: the length is enough fuel. *)
Fixpoint utf8_decode_fuel (fuel : nat) (l : list u8) : option (list Z) :=
  match l, fuel with
  | [], _ => Some []
  | _, O => None
  | _, S fuel => '(c, r) ← utf8_next l; cs ← utf8_decode_fuel fuel r; Some (c :: cs)
  end.
Definition utf8_decode (l : list u8) : option (list Z) := utf8_decode_fuel (length l) l.

Definition utf8_char (c : Z) : list u8 :=
  u8.of_Z <$>
  (if c <? 128 then [c]
   else if c <? 2048 then [192 + c / 64; 128 + c mod 64]
   else if c <? 65536 then [224 + c / 4096; 128 + (c / 64) mod 64; 128 + c mod 64]
   else [240 + c / 262144; 128 + (c / 4096) mod 64; 128 + (c / 64) mod 64; 128 + c mod 64]).
Definition utf8_encode (cs : list Z) : list u8 := cs ≫= utf8_char.

(** ** Platforms (platform.rs) *)
Inductive Platform := Linux | MacOs | WindowsOs.
#[export] Instance Platform_eq_dec : EqDecision Platform.
Proof. solve_decision. Defined.
#[export] Instance Platform_code : CodeEnum Platform := {
  code x := match x with Linux => 1 | MacOs => 2 | WindowsOs => 3 end;
  from_code c := match c with 1 => Some Linux | 2 => Some MacOs | 3 => Some WindowsOs | _ => None end }.
#[export] Instance Platform_laws : CodeEnumLaws Platform.
Proof. solve_code_laws. Qed.

(** ** Paths (path.rs) *)
Definition MAX_PATH_BYTES : nat := 4096.
Definition DELETED_SUFFIX : list u8 := as_bytes " (deleted)".
Definition MACOS_DATA_PREFIX : list u8 := as_bytes "/System/Volumes/Data".

(** A path is the bytes of its text. *)
Record CanonicalPath := { cp_path : list u8; deleted_on_disk : bool }.

Inductive PathError := PEmpty | PNotUtf8 | PTooLong | PNul | PNotAbsolute | PParentComponent.

Definition path_reason (e : PathError) : string :=
  match e with
  | PNotUtf8 => "path_not_utf8"
  | PTooLong => "field_too_long"
  | PNotAbsolute => "path_not_absolute"
  | PEmpty | PNul | PParentComponent => "bad_path"
  end.

Definition slash : u8 := Byte.x2f.
Definition backslash : u8 := Byte.x5c.

Fixpoint strip_prefix (p l : list u8) : option (list u8) :=
  match p, l with
  | [], l => Some l
  | a :: p, b :: l => if bool_decide (a = b) then strip_prefix p l else None
  | _ :: _, [] => None
  end.
Definition starts_with (p l : list u8) : bool := match strip_prefix p l with Some _ => true | None => false end.
Definition strip_suffix (p l : list u8) : option (list u8) := reverse <$> strip_prefix (reverse p) (reverse l).

(** [str::split] on one-character separators. *)
Fixpoint split_on (sep : u8 → bool) (l : list u8) : list (list u8) :=
  match l with
  | [] => [[]]
  | b :: l =>
      if sep b then [] :: split_on sep l
      else match split_on sep l with c :: cs => (b :: c) :: cs | [] => [[b]] end
  end.

Definition is_ascii_alphabetic (b : u8) : bool :=
  in_range 65 90 (u8.to_Z b) || in_range 97 122 (u8.to_Z b).

Definition is_windows_absolute (path : list u8) : bool :=
  let drive := match path with
    | b0 :: b1 :: b2 :: _ =>
        is_ascii_alphabetic b0 && bool_decide (b1 = Byte.x3a) && bool_decide (b2 = backslash)
    | _ => false
    end in
  let unc := starts_with [backslash; backslash] path
    && negb (starts_with [backslash; backslash; Byte.x3f; backslash] path) && (2 <? length path)%nat in
  drive || unc.

Definition is_separator (platform : Platform) (b : u8) : bool :=
  match platform with
  | WindowsOs => bool_decide (b = backslash) || bool_decide (b = slash)
  | Linux | MacOs => bool_decide (b = slash)
  end.

Definition is_absolute (platform : Platform) (path : list u8) : bool :=
  match platform with
  | Linux | MacOs => starts_with [slash] path
  | WindowsOs => is_windows_absolute path
  end.

Definition dotdot : list u8 := as_bytes "..".

(** [path::validate]. *)
Definition validate_path (platform : Platform) (path : list u8) : result PathError unit :=
  if bool_decide (path = []) then Err PEmpty else
  if (MAX_PATH_BYTES <? length path)%nat then Err PTooLong else
  if bool_decide (Byte.x00 ∈ path) then Err PNul else
  if negb (is_absolute platform path) then Err PNotAbsolute else
  if bool_decide (dotdot ∈ split_on (is_separator platform) path) then Err PParentComponent else
  Ok tt.

Definition from_linux_link (raw : list u8) : result PathError CanonicalPath :=
  match utf8_decode raw with
  | None => Err PNotUtf8
  | Some _ =>
      let '(path, deleted) := match strip_suffix DELETED_SUFFIX raw with
        | Some stripped => (stripped, true)
        | None => (raw, false)
        end in
      let? _ := validate_path Linux path in
      Ok {| cp_path := path; deleted_on_disk := deleted |}
  end.

Definition from_macos_path (raw : list u8) (same_file : list u8 → bool) : result PathError CanonicalPath :=
  let path := match strip_prefix MACOS_DATA_PREFIX raw with
    | Some rest => if starts_with [slash] rest && same_file rest then rest else raw
    | None => raw
    end in
  let? _ := validate_path MacOs path in
  Ok {| cp_path := path; deleted_on_disk := false |}.

Definition from_windows_final_path (raw : list u8) : result PathError CanonicalPath :=
  let path := match strip_prefix (as_bytes "\\?\UNC\") raw with
    | Some rest => as_bytes "\\" ++ rest
    | None => match strip_prefix (as_bytes "\\?\") raw with Some rest => rest | None => raw end
    end in
  let? _ := validate_path WindowsOs path in
  Ok {| cp_path := path; deleted_on_disk := false |}.

Section PathKey.
(** [char::to_uppercase], the full mapping of the Unicode tables. *)
Context (to_uppercase : Z → list Z).

Definition simple_uppercase (c : Z) : Z := match to_uppercase c with [u] => u | _ => c end.

(** [path_key]; a [str] always decodes. *)
Definition path_key (platform : Platform) (path : list u8) : result PathError (list u8) :=
  let? _ := validate_path platform path in
  Ok (match platform with
      | Linux | MacOs => path
      | WindowsOs => match utf8_decode path with
                     | Some cs => utf8_encode (simple_uppercase <$> cs)
                     | None => path
                     end
      end).
End PathKey.

(** ** UTF-8 round trip *)
Lemma of_Z_of_to_Z b z : z = u8.to_Z b → b = u8.of_Z z.
Proof. intros ->. symmetry. apply u8.of_Z_to_Z. Qed.

Lemma cont_spec b c : cont b = Some c → u8.to_Z b = 128 + c ∧ 0 ≤ c < 64.
Proof.
  unfold cont. destruct (_ && _) eqn:E; [|done]. intros [= <-].
  apply andb_true_iff in E as [?%Z.leb_le ?%Z.ltb_lt]. lia.
Qed.

(** Split a number written in base 64 digits. *)
Ltac digits64 := repeat (f_equal; try (apply of_Z_of_to_Z; Z.div_mod_to_equations; lia)).

Lemma utf8_next_spec l c r : utf8_next l = Some (c, r) → l = utf8_char c ++ r.
Proof.
  unfold utf8_next. destruct l as [|b0 r0]; [done|]. pose proof (u8.to_Z_range b0) as Hb.
  destruct (u8.to_Z b0 <? 128) eqn:E0.
  { intros [= <- <-]. unfold utf8_char. rewrite E0. cbn. by rewrite u8.of_Z_to_Z. }
  apply Z.ltb_ge in E0. unfold in_range.
  destruct ((194 <=? _) && _) eqn:E1.
  { apply andb_true_iff in E1 as [L%Z.leb_le U%Z.leb_le]. destruct r0 as [|b1 r1]; [done|].
    destruct (cont b1) as [c1|] eqn:C1; [|done]. apply cont_spec in C1 as [V1 B1]. intros [= <- <-].
    unfold utf8_char. rewrite (proj2 (Z.ltb_ge _ _)) by lia. rewrite (proj2 (Z.ltb_lt _ _)) by lia.
    cbn [fmap list_fmap app]. digits64. }
  destruct ((224 <=? _) && _) eqn:E2.
  { apply andb_true_iff in E2 as [L%Z.leb_le U%Z.leb_le]. destruct r0 as [|b1 [|b2 r2]]; [done..|].
    destruct (cont b1) as [c1|] eqn:C1; [|done]. destruct (cont b2) as [c2|] eqn:C2; [|done].
    apply cont_spec in C1 as [V1 B1], C2 as [V2 B2]. cbn [mbind option_bind].
    destruct ((2048 <=? _) && _) eqn:E3; [|done]. apply andb_true_iff in E3 as [E3%Z.leb_le _]. intros [= <- <-].
    unfold utf8_char. rewrite (proj2 (Z.ltb_ge _ 128)), (proj2 (Z.ltb_ge _ 2048)), (proj2 (Z.ltb_lt _ 65536)) by lia.
    cbn [fmap list_fmap app]. digits64. }
  destruct ((240 <=? _) && _) eqn:E3; [|done].
  apply andb_true_iff in E3 as [L%Z.leb_le U%Z.leb_le]. destruct r0 as [|b1 [|b2 [|b3 r3]]]; [done..|].
  destruct (cont b1) as [c1|] eqn:C1; [|done]. destruct (cont b2) as [c2|] eqn:C2; [|done].
  destruct (cont b3) as [c3|] eqn:C3; [|done]. apply cont_spec in C1 as [V1 B1], C2 as [V2 B2], C3 as [V3 B3]. cbn [mbind option_bind].
  destruct ((65536 <=? _) && _) eqn:E4; [|done]. apply andb_true_iff in E4 as [E4%Z.leb_le _]. intros [= <- <-].
  unfold utf8_char. rewrite (proj2 (Z.ltb_ge _ 128)), (proj2 (Z.ltb_ge _ 2048)), (proj2 (Z.ltb_ge _ 65536)) by lia.
  cbn [fmap list_fmap app]. digits64.
Qed.

Lemma utf8_decode_fuel_spec fuel l cs : utf8_decode_fuel fuel l = Some cs → utf8_encode cs = l.
Proof.
  revert l cs. induction fuel as [|fuel IH]; intros [|b l] cs; cbn [utf8_decode_fuel]; try by intros [= <-].
  destruct (utf8_next (b :: l)) as [[c r]|] eqn:E; [|done]. cbn.
  destruct (utf8_decode_fuel fuel r) as [cs'|] eqn:E'; [|done]. intros [= <-].
  apply utf8_next_spec in E. rewrite E. unfold utf8_encode. cbn. by rewrite <- (IH r cs' E').
Qed.

(** ** Components *)

(** Where a component may end: at the end of the path or before a separator. *)
Definition ends_component (sep : u8 → bool) (r : list u8) : Prop := r = [] ∨ ∃ b r', r = b :: r' ∧ sep b = true.

(** Text without separators up to such a place is the first component. *)
Lemma split_on_head sep x r :
  Forall (λ b, sep b = false) x → ends_component sep r → ∃ cs, split_on sep (x ++ r) = x :: cs.
Proof.
  intros Hx Hr. induction Hx as [|b x Hb _ [cs IH]]; cbn.
  - destruct Hr as [->|(b & r' & -> & Hb)]; cbn; [by eexists|]. rewrite Hb. by eexists.
  - rewrite Hb, IH. by eexists.
Qed.

Lemma split_on_tail sep p s x r :
  sep s = true → Forall (λ b, sep b = false) x → ends_component sep r →
  x ∈ tail (split_on sep (p ++ s :: x ++ r)).
Proof.
  intros Hs Hx Hr. destruct (split_on_head sep x r Hx Hr) as [cs Hh]. induction p as [|b p IH]; cbn.
  - rewrite Hs, Hh. apply list_elem_of_here.
  - destruct (split_on sep (p ++ s :: x ++ r)) as [|c cs']; cbn in IH; [by apply elem_of_nil in IH|].
    destruct (sep b); cbn; [by apply list_elem_of_further|done].
Qed.

(** A part of a path between separators is one of its components. *)
Lemma split_on_component sep p x r :
  (p = [] ∨ ∃ p' s, p = p' ++ [s] ∧ sep s = true) → Forall (λ b, sep b = false) x → ends_component sep r →
  x ∈ split_on sep (p ++ x ++ r).
Proof.
  intros [->|(p' & s & -> & Hs)] Hx Hr.
  - destruct (split_on_head sep x r Hx Hr) as [cs E]. cbn [app]. rewrite E. apply list_elem_of_here.
  - rewrite <- app_assoc. cbn. pose proof (split_on_tail sep p' s x r Hs Hx Hr) as H.
    destruct (split_on sep _); [by apply elem_of_nil in H|by apply list_elem_of_further].
Qed.

(** What a validated path is: non-empty, at most 4096 bytes, without NUL, absolute, and no
    part of it between separators is [..]. *)
Record path_safe (platform : Platform) (path : list u8) : Prop := {
  ps_nonempty : path ≠ [];
  ps_length : (length path ≤ MAX_PATH_BYTES)%nat;
  ps_nul : Byte.x00 ∉ path;
  ps_absolute : is_absolute platform path = true;
  ps_parent p r : path = p ++ dotdot ++ r →
    (p = [] ∨ ∃ p' s, p = p' ++ [s] ∧ is_separator platform s = true) →
    ¬ ends_component (is_separator platform) r }.

Lemma validate_path_safe platform path : validate_path platform path = Ok () → path_safe platform path.
Proof.
  unfold validate_path. case_bool_decide as H1; [done|]. destruct (_ <? _)%nat eqn:H2; [done|].
  case_bool_decide as H3; [done|]. destruct (is_absolute platform path) eqn:H4; [|done].
  cbn [negb]. case_bool_decide as H5; [done|]. intros _. apply Nat.ltb_ge in H2. split; try done.
  intros p r -> Hp Hr. apply H5, split_on_component; [done| |done].
  destruct platform; repeat constructor.
Qed.

(** ** Theorems *)

(** every path the three normalisers return is non-empty, at most 4096 bytes, free of NUL,
    absolute for its platform and without a parent component, whatever the operating
    system returned; on Linux it is the link's target, or the target without the kernel's
    [(deleted)] suffix, and then it is reported as deleted. *)
Theorem canonical_paths_safe :
  (∀ raw p, from_linux_link raw = Ok p →
     path_safe Linux (cp_path p) ∧
     raw = cp_path p ++ (if deleted_on_disk p then DELETED_SUFFIX else [])) ∧
  (∀ raw same_file p, from_macos_path raw same_file = Ok p →
     path_safe MacOs (cp_path p) ∧
     (raw = cp_path p ∨ raw = MACOS_DATA_PREFIX ++ cp_path p ∧ same_file (cp_path p) = true)) ∧
  (∀ raw p, from_windows_final_path raw = Ok p → path_safe WindowsOs (cp_path p)).
Proof.
  assert (∀ pre l r, strip_prefix pre l = Some r → l = pre ++ r) as Hpre.
  { intros pre. induction pre as [|a pre IH]; intros [|b l] r; cbn; try congruence.
    case_bool_decide as E; [|done]. intros H. by rewrite E, (IH l r H). }
  split_and!.
  - intros raw p. unfold from_linux_link. destruct (utf8_decode raw); [|done].
    destruct (strip_suffix DELETED_SUFFIX raw) as [st|] eqn:Es;
      (destruct (validate_path Linux _) as [[]|] eqn:E; [|done]); intros [= <-]; cbn [cp_path deleted_on_disk];
      (split; [by apply validate_path_safe|]).
    + unfold strip_suffix in Es. destruct (strip_prefix _ _) as [x|] eqn:Ep; [|done]. injection Es as <-.
      apply Hpre, (f_equal reverse) in Ep. by rewrite reverse_involutive, reverse_app, reverse_involutive in Ep.
    + by rewrite app_nil_r.
  - intros raw sf p. unfold from_macos_path. destruct (strip_prefix _ raw) as [rest|] eqn:Ep.
    + destruct (starts_with [slash] rest && sf rest) eqn:Ec;
        (destruct (validate_path MacOs _) as [[]|] eqn:E; [|done]); intros [= <-]; cbn [cp_path];
        (split; [by apply validate_path_safe|]); [right|by left].
      apply andb_true_iff in Ec as [_ Ec]. split; [by apply Hpre|done].
    + destruct (validate_path MacOs raw) as [[]|] eqn:E; [|done]. intros [= <-].
      split; [by apply validate_path_safe|by left].
  - intros raw p. unfold from_windows_final_path.
    destruct (validate_path WindowsOs _) as [[]|] eqn:E; [|done]. intros [= <-]. by apply validate_path_safe.
Qed.

(** decoding UTF-8 loses nothing: text that [from_utf8] accepts is the encoding of its
    characters. *)
Theorem utf8_roundtrip l cs : utf8_decode l = Some cs → utf8_encode cs = l.
Proof. apply utf8_decode_fuel_spec. Qed.

Lemma utf8_roundtrip_witness :
  utf8_encode [233; 8364; 128512] = u8.of_Z <$> [195; 169; 226; 130; 172; 240; 159; 152; 128].
Proof. apply utf8_roundtrip. reflexivity. Defined.

(** A path on a case-sensitive platform is its own key. *)
Lemma path_key_unix up platform path key :
  platform ≠ WindowsOs → path_key up platform path = Ok key → key = path ∧ path_safe platform path.
Proof.
  intros Hp. unfold path_key. destruct (validate_path platform path) as [[]|] eqn:E; [|done].
  apply validate_path_safe in E. destruct platform; intros [= <-]; done.
Qed.
