(* ===== verification/MiaAllowlist.v ===== *)
(** The agent's allowlist (crates/mia/src/helper/allowlist.rs): the verified, indexed form
    of a signed body, the check of a caller against it, and the start-up and reload
    policies around the files it is read from. *)
From stdpp Require Import sorting gmap.
From S2P Require Import Prelude AppModel AppDedup Order Composite AllowlistV2 AppPath.
Open Scope Z_scope.

Definition ALLOWLIST_NOT_BEFORE_LEEWAY_SECS : Z := 60.

(** [i64] subtraction wraps around (release build). *)
Definition wrap_i64 (z : Z) : Z := (z + 2 ^ 63) mod 2 ^ 64 - 2 ^ 63.

(** ** Data *)
Inductive UidScope := ScopeAny | ScopeOnly (uids : gset Z).
Record CallConstraint := {
  c_uid : option Z; c_sid_hash : option (list u8); c_path_hash : option (list u8); c_expires_at : option Z }.
Record V2Index := {
  ix_host_uuid : string; ix_generation : Z; ix_entries_digest : list u8;
  ix_by_sha : gmap (list u8) (list CallConstraint); ix_any_bin : list CallConstraint;
  ix_entries : list AllowEntryV2 }.
Inductive Body :=
  | BodyV1 (members : gmap (list u8) UidScope) (any_bin : option UidScope)
  | BodyV2 (ix : V2Index).
Record Allowlist := { al_trust_domain : string; al_issued_at : Z; al_not_after : Z; al_body : Body }.

(** A caller; its executable path is the bytes of its text. *)
Record CallerFacts := {
  cf_uid : Z; cf_bin_sha : list u8; cf_exe_path : option (list u8); cf_user_sid : option string }.

(** [admit] widens a scope in place; [seed] starts one. *)
Definition widen (scope : UidScope) (uid : option Z) : UidScope :=
  match scope, uid with
  | _, None => ScopeAny
  | ScopeAny, Some _ => ScopeAny
  | ScopeOnly uids, Some uid => ScopeOnly ({[uid]} ∪ uids)
  end.
Definition seed (uid : option Z) : UidScope :=
  match uid with None => ScopeAny | Some uid => ScopeOnly {[uid]} end.
Definition widen_or_seed (scope : option UidScope) (uid : option Z) : UidScope :=
  match scope with Some s => widen s uid | None => seed uid end.

Definition scope_admits (scope : option UidScope) (uid : Z) : bool :=
  match scope with
  | Some ScopeAny => true
  | Some (ScopeOnly uids) => bool_decide (uid ∈ uids)
  | None => false
  end.

Definition v2_error (e : AllowlistV2Error) : AllowlistError :=
  match e with
  | V2MalformedEntry => AlMalformedEntry
  | V2MalformedSignature => AlMalformedSignature
  | V2BadSignature => AlBadSignature
  | V2Cbor e => AlCbor e
  | V2TooLarge _ => AlCbor "body too large"
  | V2Format _ => AlCbor "unsupported allowlist format"
  | V2HostUuid => AlCbor "bad host_uuid"
  end.

Definition check_window (issued_at not_after now max_age_secs : Z) : result AllowlistError unit :=
  if now <? wrap_i64 (issued_at - ALLOWLIST_NOT_BEFORE_LEEWAY_SECS) then Err AlNotYetValid else
  if not_after <? now then Err AlExpired else
  if max_age_secs <? wrap_i64 (now - issued_at) then Err AlTooOld else Ok tt.

Definition is_none_or {A} (x : option A) (p : A → bool) : bool :=
  match x with None => true | Some a => p a end.

(** ** Rules, for display *)
Inductive RuleUids := RuleAny | RuleOnly (uids : list Z).
(** [binary_search] on ascending distinct uids finds exactly the members. *)
Definition rule_admits (r : RuleUids) (uid : Z) : bool :=
  match r with RuleAny => true | RuleOnly uids => bool_decide (uid ∈ uids) end.
Definition rule_of_scope (s : UidScope) : RuleUids :=
  match s with ScopeAny => RuleAny | ScopeOnly uids => RuleOnly (sort_by Z.compare (elements uids)) end.
Record AllowRule := { ar_bin_sha : option (list u8); ar_uids : RuleUids }.

Section MiaAllowlist.
Context (P : Primitives) `{CB : !AllowlistCbor}.
(** [hex::decode], the Unicode upper-case table, and [Platform::current]. *)
Context (hex_decode : string → option (list u8)) (to_uppercase : Z → list Z) (platform : Platform).
Local Abbreviation PublicKey := (CompositePublicKey (EdVk P) (MlPk P)).

Definition sha_bytes (hex_sha : string) : result AllowlistError (list u8) :=
  match hex_decode hex_sha with
  | Some raw => if (length raw =? 48)%nat then Ok raw else Err AlMalformedEntry
  | None => Err AlMalformedEntry
  end.

(** ** Loading *)

(** The loop of [from_v1]. *)
Fixpoint index_v1 (es : list AllowEntry) (members : gmap (list u8) UidScope) (any_bin : option UidScope) :
    result AllowlistError (gmap (list u8) UidScope * option UidScope) :=
  match es with
  | [] => Ok (members, any_bin)
  | e :: es =>
      if bin_is_wildcard e then index_v1 es members (Some (widen_or_seed any_bin (e_uid e)))
      else
        let? arr := sha_bytes (e_bin_sha e) in
        index_v1 es (<[arr := widen_or_seed (members !! arr) (e_uid e)]> members) any_bin
  end.

Definition from_v1 (doc : AllowlistDoc) (now max_age_secs : Z) : result AllowlistError Allowlist :=
  let? _ := check_window (doc_issued_at doc) (doc_not_after doc) now max_age_secs in
  let? (members, any_bin) := index_v1 (doc_entries doc) ∅ None in
  Ok {| al_trust_domain := doc_trust_domain doc; al_issued_at := doc_issued_at doc;
        al_not_after := doc_not_after doc; al_body := BodyV1 members any_bin |}.

Definition constraint_of (e : AllowEntryV2) : CallConstraint :=
  {| c_uid := ev_uid e; c_sid_hash := ev_user_sid_hash e; c_path_hash := ev_path_hash e;
     c_expires_at := ev_expires_at e |}.

(** The loop of [from_v2]. *)
Fixpoint index_v2 (es : list AllowEntryV2) (by_sha : gmap (list u8) (list CallConstraint))
    (any_bin : list CallConstraint) :
    result AllowlistError (gmap (list u8) (list CallConstraint) * list CallConstraint) :=
  match es with
  | [] => Ok (by_sha, any_bin)
  | e :: es =>
      let c := constraint_of e in
      if String.eqb (ev_bin_sha e) BIN_SHA_WILDCARD then index_v2 es by_sha (any_bin ++ [c])
      else
        let? sha := sha_bytes (ev_bin_sha e) in
        index_v2 es (<[sha := default [] (by_sha !! sha) ++ [c]]> by_sha) any_bin
  end.

Definition from_v2 (doc : AllowlistDocV2) (now max_age_secs : Z) : result AllowlistError Allowlist :=
  let? _ := check_window (dv_issued_at doc) (dv_not_after doc) now max_age_secs in
  let? digest := map_err v2_error (entries_digest P (dv_entries doc)) in
  let? (by_sha, any_bin) := index_v2 (dv_entries doc) ∅ [] in
  Ok {| al_trust_domain := dv_trust_domain doc; al_issued_at := dv_issued_at doc;
        al_not_after := dv_not_after doc;
        al_body := BodyV2 {| ix_host_uuid := dv_host_uuid doc; ix_generation := dv_generation doc;
                             ix_entries_digest := digest; ix_by_sha := by_sha; ix_any_bin := any_bin;
                             ix_entries := dv_entries doc |} |}.

(** [Allowlist::load]: v1, and v2 when the v1 signature check fails. *)
Definition al_load (bytes : list u8) (trusted : PublicKey) (now max_age_secs : Z) :
    result AllowlistError Allowlist :=
  let? signed := allowlist_decode bytes in
  match allowlist_verify P signed trusted with
  | Ok doc => from_v1 doc now max_age_secs
  | Err AlBadSignature =>
      let? doc := map_err v2_error (verify_v2 P signed trusted) in from_v2 doc now max_age_secs
  | Err e => Err e
  end.

Definition al_load_v1 (bytes : list u8) (trusted : PublicKey) (now max_age_secs : Z) :
    result AllowlistError Allowlist :=
  let? signed := allowlist_decode bytes in
  let? doc := allowlist_verify P signed trusted in
  from_v1 doc now max_age_secs.

Definition al_load_v2 (bytes : list u8) (trusted : PublicKey) (now max_age_secs : Z) :
    result AllowlistError Allowlist :=
  let? signed := allowlist_decode bytes in
  let? doc := map_err v2_error (verify_v2 P signed trusted) in
  from_v2 doc now max_age_secs.

(** ** Checking a caller *)

(** The caller's hashes, which the source computes at most once per request. *)
Definition caller_path_hash (host_uuid : string) (caller : CallerFacts) : option (list u8) :=
  path ← cf_exe_path caller;
  match path_key to_uppercase platform path with
  | Ok key => Some (path_hash P host_uuid key)
  | Err _ => None
  end.
Definition caller_sid_hash (host_uuid : string) (caller : CallerFacts) : option (list u8) :=
  sid_hash P host_uuid <$> cf_user_sid caller.

(** [Constraint::admits]. *)
Definition constraint_admits (host_uuid : string) (c : CallConstraint) (caller : CallerFacts) (now : Z) : bool :=
  is_none_or (c_uid c) (λ u, u =? cf_uid caller)
  && is_none_or (c_expires_at c) (λ exp, now <? exp)
  && is_none_or (c_sid_hash c) (λ want, bool_decide (caller_sid_hash host_uuid caller = Some want))
  && is_none_or (c_path_hash c) (λ want, bool_decide (caller_path_hash host_uuid caller = Some want)).

Definition permits_caller (al : Allowlist) (caller : CallerFacts) (now : Z) : bool :=
  if al_not_after al <? now then false else
  match al_body al with
  | BodyV1 members any_bin =>
      scope_admits any_bin (cf_uid caller) || scope_admits (members !! cf_bin_sha caller) (cf_uid caller)
  | BodyV2 ix =>
      existsb (λ c, constraint_admits (ix_host_uuid ix) c caller now)
        (default [] (ix_by_sha ix !! cf_bin_sha caller) ++ ix_any_bin ix)
  end.

Definition permits (al : Allowlist) (uid : Z) (bin_sha : list u8) : bool :=
  permits_caller al {| cf_uid := uid; cf_bin_sha := bin_sha; cf_exe_path := None; cf_user_sid := None |}
    (- 2 ^ 63).

(** ** Accessors *)
Definition al_format (al : Allowlist) : Z :=
  match al_body al with BodyV1 _ _ => 1 | BodyV2 _ => ALLOWLIST_V2_FORMAT end.
Definition al_host_uuid (al : Allowlist) : option string :=
  match al_body al with BodyV1 _ _ => None | BodyV2 ix => Some (ix_host_uuid ix) end.
Definition al_generation (al : Allowlist) : option Z :=
  match al_body al with BodyV1 _ _ => None | BodyV2 ix => Some (ix_generation ix) end.
Definition al_entries_digest (al : Allowlist) : option (list u8) :=
  match al_body al with BodyV1 _ _ => None | BodyV2 ix => Some (ix_entries_digest ix) end.
Definition al_entries_v2 (al : Allowlist) : option (list AllowEntryV2) :=
  match al_body al with BodyV1 _ _ => None | BodyV2 ix => Some (ix_entries ix) end.
Definition al_entry_count (al : Allowlist) : nat :=
  match al_body al with
  | BodyV1 members any_bin => (size members + match any_bin with Some _ => 1 | None => 0 end)%nat
  | BodyV2 ix => length (ix_entries ix)
  end.

(** [rules]; a v2 body is folded by uid only. *)
Definition fold_scope (cs : list CallConstraint) : option UidScope :=
  foldl (λ scope c, Some (widen_or_seed scope (c_uid c))) None cs.
Definition folded (al : Allowlist) : gmap (list u8) UidScope * option UidScope :=
  match al_body al with
  | BodyV1 members any_bin => (members, any_bin)
  | BodyV2 ix => (omap fold_scope (ix_by_sha ix), fold_scope (ix_any_bin ix))
  end.
Definition rule_cmp : AllowRule → AllowRule → comparison :=
  cmp_by (λ r, default [] (ar_bin_sha r)) bytes_cmp.
Definition rules (al : Allowlist) : list AllowRule :=
  let '(members, any_bin) := folded al in
  let pinned := (λ x : list u8 * UidScope, {| ar_bin_sha := Some x.1; ar_uids := rule_of_scope x.2 |})
                <$> map_to_list members in
  match any_bin with Some s => [{| ar_bin_sha := None; ar_uids := rule_of_scope s |}] | None => [] end
  ++ sort_by rule_cmp pinned.

(** ** Files *)
Inductive AllowlistLoad := LoadMissing | LoadInvalid | LoadLoaded (entries : nat) (not_after : Z).
Definition load_of (al : Allowlist) : AllowlistLoad := LoadLoaded (al_entry_count al) (al_not_after al).

Inductive IoError := IoNotFound | IoOther (e : string).

(** What [read_trusted] returns for a path, and whether it exists. *)
Record Disk := { disk_read : string → result IoError (list u8); disk_exists : string → bool }.

Definition load_at_startup (disk : Disk) (path key_path : string) (now max_age_secs : Z) :
    result IoError (option Allowlist) :=
  match disk_read disk path with
  | Err IoNotFound => Ok None
  | Err e => Err e
  | Ok bytes =>
      match disk_read disk key_path with
      | Err IoNotFound => Ok None
      | Err e => Err e
      | Ok key_bytes =>
          match pk_from_concat_bytes P key_bytes with
          | Err _ => Ok None
          | Ok trusted =>
              match al_load bytes trusted now max_age_secs with
              | Ok al => Ok (Some al)
              | Err _ => Ok None
              end
          end
      end
  end.

Definition load_classified (disk : Disk) (path key_path : string) (now max_age_secs : Z) :
    result IoError (option Allowlist * AllowlistLoad) :=
  let present := disk_exists disk path in
  let? loaded := load_at_startup disk path key_path now max_age_secs in
  Ok (loaded, match loaded, present with
              | Some al, _ => load_of al
              | None, false => LoadMissing
              | None, true => LoadInvalid
              end).

(** [startup_policy]; the error is the daemon's refusal to start. *)
Definition startup_policy (disk : Disk) (path : string) (is_default : bool) (key : option string)
    (now max_age_secs : Z) : result string (option Allowlist * AllowlistLoad) :=
  match key with
  | None => if is_default then Ok (None, LoadMissing) else Err "allowlist.path is set but allowlist.key is missing"
  | Some key =>
      match load_classified disk path key now max_age_secs with
      | Ok loaded => Ok loaded
      | Err e =>
          if is_default then Ok (None, if disk_exists disk path then LoadInvalid else LoadMissing)
          else Err "reading allowlist (allowlist.path)"
      end
  end.

Definition load_for_reload (disk : Disk) (path : string) (key : option string) (now max_age_secs : Z) :
    result IoError (option Allowlist * AllowlistLoad) :=
  match key with
  | None => Ok (None, LoadMissing)
  | Some key => load_classified disk path key now max_age_secs
  end.
End MiaAllowlist.

(** ** Scopes *)
Definition uid_allows (pin : option Z) (uid : Z) : bool := is_none_or pin (λ u, u =? uid).

Lemma widen_or_seed_admits s pin uid :
  scope_admits (Some (widen_or_seed s pin)) uid = scope_admits s uid || uid_allows pin uid.
Proof.
  assert (∀ z, bool_decide (uid = z) = (z =? uid)) as Hz.
  { intros z. apply eq_bool_prop_intro. rewrite bool_decide_spec. split.
    - intros ->. apply Is_true_true, Z.eqb_refl.
    - by intros ->%Is_true_true%Z.eqb_eq. }
  destruct s as [[|uids]|], pin as [p|]; cbn; try done.
  - rewrite <- Hz, orb_comm, <- bool_decide_or. apply bool_decide_ext. set_solver.
  - by rewrite orb_true_r.
  - rewrite <- Hz. apply bool_decide_ext. set_solver.
Qed.

Lemma is_none_or_true {A} (x : option A) p : is_none_or x p = true ↔ ∀ a, x = Some a → p a = true.
Proof. destruct x; cbn; naive_solver. Qed.

Lemma existsb_elem {A} (p : A → bool) l : existsb p l = true ↔ ∃ x, x ∈ l ∧ p x = true.
Proof. rewrite existsb_exists. by setoid_rewrite <- list_elem_of_In. Qed.

Lemma exists_cons {A} (Q : A → Prop) x l : (∃ y, y ∈ x :: l ∧ Q y) ↔ Q x ∨ ∃ y, y ∈ l ∧ Q y.
Proof. setoid_rewrite elem_of_cons. split; [intros (y & [->|] & ?)|intros [?|(y & ? & ?)]]; eauto 6. Qed.

Ltac inv_pairs := repeat match goal with x : (_ * _)%type |- _ => destruct x end.

(** ** The index and the entries *)
Section MiaAllowlistTheorems.
Context (P : Primitives) `{CB : !AllowlistCbor}.
Context (hex_decode : string → option (list u8)) (to_uppercase : Z → list Z) (platform : Platform).
Local Abbreviation sha_bytes := (sha_bytes hex_decode).
Local Abbreviation index_v1 := (index_v1 hex_decode).
Local Abbreviation index_v2 := (index_v2 hex_decode).
Local Abbreviation permits_caller := (permits_caller P to_uppercase platform).
Local Abbreviation constraint_admits := (constraint_admits P to_uppercase platform).

(** Whether an entry names a binary: the wildcard, or the hash itself. *)
Definition names_binary (bin_sha : string) (sha : list u8) : Prop :=
  bin_sha = BIN_SHA_WILDCARD ∨ (bin_sha ≠ BIN_SHA_WILDCARD ∧ sha_bytes bin_sha = Ok sha).

(** What a v1 entry, and a v2 entry of a body for [host], says about a caller. *)
Definition v1_admits (e : AllowEntry) (caller : CallerFacts) : Prop :=
  names_binary (e_bin_sha e) (cf_bin_sha caller) ∧ (∀ u, e_uid e = Some u → u = cf_uid caller).

Record v2_admits (host : string) (e : AllowEntryV2) (caller : CallerFacts) (now : Z) : Prop := {
  va_binary : names_binary (ev_bin_sha e) (cf_bin_sha caller);
  va_uid u : ev_uid e = Some u → u = cf_uid caller;
  va_expiry t : ev_expires_at e = Some t → now < t;
  va_sid h : ev_user_sid_hash e = Some h → ∃ s, cf_user_sid caller = Some s ∧ sid_hash P host s = h;
  va_path h : ev_path_hash e = Some h → ∃ path key, cf_exe_path caller = Some path ∧
    path_key to_uppercase platform path = Ok key ∧ path_hash P host key = h }.

Lemma names_wildcard bin_sha sha : bin_sha = BIN_SHA_WILDCARD → names_binary bin_sha sha.
Proof. by left. Qed.
Lemma names_hash bin_sha arr sha :
  bin_sha ≠ BIN_SHA_WILDCARD → sha_bytes bin_sha = Ok arr → names_binary bin_sha sha ↔ arr = sha.
Proof.
  intros Hw Hs. unfold names_binary. rewrite Hs. split; [intros [?|[_ E]]; congruence|intros ->; auto].
Qed.

Lemma uid_allows_spec pin uid : uid_allows pin uid = true ↔ ∀ u, pin = Some u → u = uid.
Proof. unfold uid_allows. rewrite is_none_or_true. by setoid_rewrite Z.eqb_eq. Qed.

(** The index of a v1 body admits what one of its entries admits. *)
Lemma index_v1_admits es m a m' a' : index_v1 es m a = Ok (m', a') → ∀ sha uid,
  scope_admits a' uid || scope_admits (m' !! sha) uid = true ↔
  scope_admits a uid || scope_admits (m !! sha) uid = true ∨
  ∃ e, e ∈ es ∧ names_binary (e_bin_sha e) sha ∧ uid_allows (e_uid e) uid = true.
Proof.
  revert m a. induction es as [|e es IH]; intros m a H sha uid; cbn in H.
  - injection H as <- <-. set_solver.
  - rewrite exists_cons. unfold bin_is_wildcard in H.
    destruct (String.eqb_spec (e_bin_sha e) BIN_SHA_WILDCARD) as [Ew|Ew].
    + rewrite (IH _ _ H sha uid), widen_or_seed_admits, !orb_true_iff.
      pose proof (names_wildcard _ sha Ew). tauto.
    + destruct (sha_bytes (e_bin_sha e)) as [arr|] eqn:Es; [|done].
      rewrite (IH _ _ H sha uid), (names_hash _ _ sha Ew Es).
      destruct (decide (arr = sha)) as [->|Hne].
      * rewrite lookup_insert_eq, widen_or_seed_admits, !orb_true_iff. tauto.
      * rewrite lookup_insert_ne by done. tauto.
Qed.

(** The constraint sets of a v2 body are those of its entries, by binary. *)
Lemma index_v2_elem es m a m' a' : index_v2 es m a = Ok (m', a') → ∀ sha c,
  c ∈ default [] (m' !! sha) ++ a' ↔
  c ∈ default [] (m !! sha) ++ a ∨ ∃ e, e ∈ es ∧ names_binary (ev_bin_sha e) sha ∧ c = constraint_of e.
Proof.
  revert m a. induction es as [|e es IH]; intros m a H sha c; cbn in H.
  - injection H as <- <-. set_solver.
  - rewrite exists_cons. destruct (String.eqb_spec (ev_bin_sha e) BIN_SHA_WILDCARD) as [Ew|Ew].
    + rewrite (IH _ _ H sha c), !elem_of_app, list_elem_of_singleton.
      pose proof (names_wildcard _ sha Ew). tauto.
    + destruct (sha_bytes (ev_bin_sha e)) as [arr|] eqn:Es; [|done].
      rewrite (IH _ _ H sha c), (names_hash _ _ sha Ew Es).
      destruct (decide (arr = sha)) as [->|Hne].
      * rewrite lookup_insert_eq. cbn [from_option id]. rewrite !elem_of_app, list_elem_of_singleton. tauto.
      * rewrite lookup_insert_ne by done. tauto.
Qed.

Lemma constraint_admits_spec host e caller now :
  names_binary (ev_bin_sha e) (cf_bin_sha caller) →
  constraint_admits host (constraint_of e) caller now = true ↔ v2_admits host e caller now.
Proof.
  intros Hn. unfold MiaAllowlist.constraint_admits. rewrite !andb_true_iff, !is_none_or_true. cbn.
  setoid_rewrite Z.eqb_eq. setoid_rewrite Z.ltb_lt. setoid_rewrite bool_decide_eq_true.
  assert (∀ h, caller_sid_hash P host caller = Some h ↔ ∃ s, cf_user_sid caller = Some s ∧ sid_hash P host s = h) as Hs.
  { intros h. unfold caller_sid_hash. rewrite fmap_Some. naive_solver. }
  assert (∀ h, caller_path_hash P to_uppercase platform host caller = Some h ↔
    ∃ path key, cf_exe_path caller = Some path ∧ path_key to_uppercase platform path = Ok key ∧ path_hash P host key = h) as Hp.
  { intros h. unfold caller_path_hash. rewrite bind_Some. split.
    - intros (path & Hpath & H). destruct (path_key _ _ path) as [key|] eqn:E; [|done]. injection H as <-. eauto.
    - intros (path & key & Hpath & E & <-). exists path. by rewrite E. }
  setoid_rewrite Hs. setoid_rewrite Hp. split.
  - intros [[[H1 H2] H3] H4]. by split.
  - intros [_ H1 H2 H3 H4]. auto.
Qed.

Lemma from_v1_permits doc now0 age al caller now :
  from_v1 hex_decode doc now0 age = Ok al →
  permits_caller al caller now = true ↔ now ≤ doc_not_after doc ∧ ∃ e, e ∈ doc_entries doc ∧ v1_admits e caller.
Proof.
  unfold from_v1. intros H. inv_ok H. inv_pairs. injection H as <-.
  unfold MiaAllowlist.permits_caller. cbn [al_not_after al_body].
  pose proof (index_v1_admits _ _ _ _ _ E0 (cf_bin_sha caller) (cf_uid caller)) as Hix.
  rewrite lookup_empty in Hix. cbn [scope_admits orb] in Hix. setoid_rewrite uid_allows_spec in Hix.
  unfold v1_admits. destruct (Z.ltb_spec (doc_not_after doc) now).
  - split; [done|]. intros [? _]. lia.
  - rewrite Hix. split; [intros [?|?]; [done|tauto]|tauto].
Qed.

Lemma from_v2_permits doc now0 age al caller now :
  from_v2 P hex_decode doc now0 age = Ok al →
  permits_caller al caller now = true ↔
  now ≤ dv_not_after doc ∧ ∃ e, e ∈ dv_entries doc ∧ v2_admits (dv_host_uuid doc) e caller now.
Proof.
  unfold from_v2. intros H. inv_ok H. inv_pairs. injection H as <-.
  unfold MiaAllowlist.permits_caller. cbn [al_not_after al_body ix_host_uuid ix_by_sha ix_any_bin].
  pose proof (index_v2_elem _ _ _ _ _ E1 (cf_bin_sha caller)) as Hix. rewrite lookup_empty in Hix. cbn [from_option app] in Hix.
  destruct (Z.ltb_spec (dv_not_after doc) now).
  - split; [done|]. intros [? _]. lia.
  - rewrite existsb_elem. setoid_rewrite Hix. split.
    + intros (c & [Hc|(e & He & Hn & ->)] & Ha); [by apply elem_of_nil in Hc|].
      split; [done|]. exists e. split; [done|]. by apply constraint_admits_spec.
    + intros [_ (e & He & Ha)]. exists (constraint_of e). split.
      * right. exists e. split; [done|]. split; [apply Ha|done].
      * apply constraint_admits_spec; [apply Ha|done].
Qed.

(** C20: the indexed check is the declarative one: a caller is admitted exactly when the body
    has not expired and one of its verified entries names the caller's binary and every
    constraint of that entry (uid, expiry, SID, path) matches the caller. *)
Theorem permits_caller_iff_entry bytes trusted now0 age al :
  al_load P hex_decode bytes trusted now0 age = Ok al →
  ∃ signed, allowlist_decode bytes = Ok signed ∧
    ((∃ doc, allowlist_verify P signed trusted = Ok doc ∧ ∀ caller now,
        permits_caller al caller now = true ↔
        now ≤ doc_not_after doc ∧ ∃ e, e ∈ doc_entries doc ∧ v1_admits e caller) ∨
     (∃ doc, verify_v2 P signed trusted = Ok doc ∧ ∀ caller now,
        permits_caller al caller now = true ↔
        now ≤ dv_not_after doc ∧ ∃ e, e ∈ dv_entries doc ∧ v2_admits (dv_host_uuid doc) e caller now)).
Proof.
  unfold al_load. intros H. destruct (allowlist_decode bytes) as [signed|]; [|done]. exists signed. split; [done|].
  destruct (allowlist_verify P signed trusted) as [doc|[]] eqn:E; try done.
  - left. exists doc. split; [done|]. intros. by eapply from_v1_permits.
  - right. inv_ok H. exists a. split; [done|]. intros. by eapply from_v2_permits.
Qed.

(** What is loaded is within its window. *)
Lemma al_load_window bytes trusted now age al :
  al_load P hex_decode bytes trusted now age = Ok al →
  check_window (al_issued_at al) (al_not_after al) now age = Ok ().
Proof.
  unfold al_load. intros H. inv_ok H. destruct (allowlist_verify P a trusted) as [doc|[]]; try done.
  - unfold from_v1 in H. inv_ok H. inv_pairs. by injection H as <-.
  - inv_ok H. unfold from_v2 in H. inv_ok H. inv_pairs. by injection H as <-.
Qed.

Lemma load_classified_some disk path key now age al outcome :
  load_classified P hex_decode disk path key now age = Ok (Some al, outcome) →
  ∃ bytes key_bytes trusted, disk_read disk path = Ok bytes ∧ disk_read disk key = Ok key_bytes ∧
    pk_from_concat_bytes P key_bytes = Ok trusted ∧ al_load P hex_decode bytes trusted now age = Ok al ∧
    outcome = LoadLoaded (al_entry_count al) (al_not_after al).
Proof.
  unfold load_classified, load_at_startup.
  destruct (disk_read disk path) as [bytes|[]]; [|by destruct (disk_exists _ _)|done].
  destruct (disk_read disk key) as [kb|[]]; [|by destruct (disk_exists _ _)|done].
  destruct (pk_from_concat_bytes P kb) as [trusted|] eqn:Ek; [|by destruct (disk_exists _ _)].
  destruct (al_load _ _ _ _ _ _) as [al'|] eqn:El; [|by destruct (disk_exists _ _)].
  intros [= -> <-]. exists bytes, kb, trusted. by split_and!.
Qed.

(** every start-up and reload path fails closed: an allowlist is in force only when a key
    is configured, both files were read, the key parsed, and the body verified under it
    within its validity window; every other outcome is a denial of all callers or, for an
    explicitly configured file that cannot be read, a refusal to start. *)
Theorem startup_fails_closed disk path is_default key now age al outcome :
  startup_policy P hex_decode disk path is_default key now age = Ok (Some al, outcome) ∨
  load_for_reload P hex_decode disk path key now age = Ok (Some al, outcome) →
  ∃ key_path bytes key_bytes trusted, key = Some key_path ∧
    disk_read disk path = Ok bytes ∧ disk_read disk key_path = Ok key_bytes ∧
    pk_from_concat_bytes P key_bytes = Ok trusted ∧ al_load P hex_decode bytes trusted now age = Ok al ∧
    check_window (al_issued_at al) (al_not_after al) now age = Ok () ∧
    outcome = LoadLoaded (al_entry_count al) (al_not_after al).
Proof.
  intros H. assert (∃ k, key = Some k ∧ load_classified P hex_decode disk path k now age = Ok (Some al, outcome)) as (k & -> & Hk).
  { destruct key as [k|]; [|destruct H as [H|H]; [by destruct is_default|done]]. exists k. split; [done|].
    destruct H as [H|H]; [|done]. cbn in H.
    destruct (load_classified _ _ _ _ _ _ _) as [r|]; [congruence|by destruct is_default]. }
  apply load_classified_some in Hk as (bytes & kb & trusted & H1 & H2 & H3 & H4 & H5).
  exists k, bytes, kb, trusted. split_and!; try done. by eapply al_load_window.
Qed.

(** within the range of real clocks the window check does no wrap-around and accepts
    exactly the instants from a minute before issuance to the hard expiry, for bodies no
    older than the configured age. *)
Theorem check_window_exact issued_at not_after now age :
  - 2 ^ 61 ≤ issued_at ≤ 2 ^ 61 → - 2 ^ 61 ≤ now ≤ 2 ^ 61 →
  check_window issued_at not_after now age = Ok () ↔
  issued_at - 60 ≤ now ≤ not_after ∧ now - issued_at ≤ age.
Proof.
  intros Hi Hn. unfold check_window, ALLOWLIST_NOT_BEFORE_LEEWAY_SECS.
  assert (∀ z, - 2 ^ 63 ≤ z < 2 ^ 63 → wrap_i64 z = z) as Hw.
  { intros z Hz. unfold wrap_i64. rewrite Z.mod_small by lia. lia. }
  rewrite (Hw (issued_at - 60)), (Hw (now - issued_at)) by lia.
  destruct (Z.ltb_spec now (issued_at - 60)), (Z.ltb_spec not_after now), (Z.ltb_spec age (now - issued_at));
    split; intros; first [done|lia].
Qed.

(** the rules listed to operators are those enforced: under a v1 body a caller is
    permitted exactly when a listed rule names its binary (or any) and admits its uid. *)
Theorem rules_match_permits doc now0 age al uid sha :
  from_v1 hex_decode doc now0 age = Ok al → - 2 ^ 63 ≤ al_not_after al →
  permits P to_uppercase platform al uid sha = true ↔
  ∃ r, r ∈ rules al ∧ (ar_bin_sha r = None ∨ ar_bin_sha r = Some sha) ∧ rule_admits (ar_uids r) uid = true.
Proof.
  unfold from_v1. intros H Hna. inv_ok H. inv_pairs. injection H as <-. clear E E0.
  unfold permits, MiaAllowlist.permits_caller, rules, folded. cbn [al_not_after al_body cf_uid cf_bin_sha] in *.
  rewrite (proj2 (Z.ltb_ge _ _)) by done.
  assert (∀ s, scope_admits (Some s) uid = rule_admits (rule_of_scope s) uid) as Hs.
  { intros [|uids]; cbn; [done|]. apply bool_decide_ext. by rewrite sort_by_Permutation, elem_of_elements. }
  rewrite orb_true_iff. setoid_rewrite elem_of_app. setoid_rewrite (sort_by_Permutation rule_cmp).
  setoid_rewrite list_elem_of_fmap. split.
  - intros [H|H].
    + destruct o as [s|]; [|done]. rewrite Hs in H. eexists. split; [left; apply list_elem_of_here|]. cbn. auto.
    + destruct (g !! sha) as [s|] eqn:Eg; [|done]. rewrite Hs in H. eexists. split.
      * right. exists (sha, s). split; [done|]. by apply elem_of_map_to_list.
      * cbn. auto.
  - intros (r & [Hr|((x, s) & -> & Hx)] & Hb & Ha).
    + left. destruct o as [s|]; [|by apply elem_of_nil in Hr]. apply list_elem_of_singleton in Hr as ->. by rewrite Hs.
    + right. apply elem_of_map_to_list in Hx. cbn in Hb, Ha. destruct Hb as [?|[= ->]]; [done|]. by rewrite Hx, Hs.
Qed.
End MiaAllowlistTheorems.
