(* ===== verification/AllowlistSync.v ===== *)
(** The agent's allowlist synchronisation (crates/mia/src/allowlist_sync: verify.rs,
    state.rs, schedule.rs, mod.rs).

    The engine's state is the record [Agent]: what it holds in memory, the two files it
    keeps, the allowlist in force in the helper API and what it reported.  A tick takes what
    the outside world does during it as a [TickEnv]: the credentials and key file it finds,
    the answers of CMIS, and which of its writes succeed. *)
From stdpp Require Import sorting gmap.
From S2P Require Import Prelude AppModel AppDedup Order Composite AllowlistV2 AppPath MiaAllowlist.
Open Scope Z_scope.

(** ** Acceptance policy (verify.rs) *)
Inductive RejectReason :=
  | Malformed | RBadSignature | WrongHost | TrustDomain | Rollback | GenerationConflict | RExpired
  | RNotYetValid | RTooOld | NoKey | Downgrade.
#[export] Instance RejectReason_eq_dec : EqDecision RejectReason.
Proof. solve_decision. Defined.

Definition reject_as_str (r : RejectReason) : string :=
  match r with
  | Malformed => "malformed" | RBadSignature => "bad_signature" | WrongHost => "wrong_host"
  | TrustDomain => "trust_domain" | Rollback => "rollback" | GenerationConflict => "generation_conflict"
  | RExpired => "expired" | RNotYetValid => "not_yet_valid" | RTooOld => "too_old" | NoKey => "no_key"
  | Downgrade => "downgrade"
  end.

Definition of_load (e : AllowlistError) : RejectReason :=
  match e with
  | AlBadSignature | AlMalformedSignature => RBadSignature
  | AlExpired => RExpired
  | AlNotYetValid => RNotYetValid
  | AlTooOld => RTooOld
  | AlCbor _ | AlMalformedEntry => Malformed
  end.

Record Rejection := { rj_reason : RejectReason; rj_generation : Z }.

(** ** The held state (state.rs) *)
Definition STATE_VERSION : Z := 1.
Definition MAX_STATE_BYTES : nat := 4096.

Record SyncState := {
  st_v : Z; st_host_uuid : string; st_generation : Z; st_entries_digest : string;
  st_issued_at : Z; st_not_after : Z }.
#[export] Instance SyncState_eq_dec : EqDecision SyncState.
Proof. solve_decision. Defined.

Record Expectations := {
  ex_host_uuid : option string; ex_trust_domain : option string; ex_held : option SyncState }.

(** ** Schedule (schedule.rs), in seconds *)
Definition MIN_INTERVAL_SECS : Z := 60.
Definition MAX_INTERVAL_SECS : Z := 3600.
Definition BACKOFF_BASE : Z := 5.

(** [1u32 << n]. *)
Definition backoff (interval failures : Z) : Z :=
  let factor := Z.shiftl 1 (Z.min (Z.max (failures - 1) 0) 16) in
  Z.min (BACKOFF_BASE * factor) interval.
Definition sync_retry_after (interval secs : Z) : Z := Z.min (Z.max secs 1) interval.
Definition clamp_interval (secs : Z) : Z := Z.max MIN_INTERVAL_SECS (Z.min secs MAX_INTERVAL_SECS).

(** ** The engine (mod.rs) *)
Inductive TickOutcome :=
  | Applied (generation : Z) (entries : nat)
  | TickNotModified
  | Rejected (r : Rejection)
  | LegacyApplied (entries : nat)
  | LegacyUnchanged
  | NoCredentials
  | Failed (retry_after : option Z) (reason : string).

Definition tick_ok (o : TickOutcome) : bool :=
  match o with
  | Applied _ _ | TickNotModified | LegacyApplied _ | LegacyUnchanged => true
  | _ => false
  end.

(** gRPC status codes the engine distinguishes, with the [retry-after] of the answer. *)
Inductive Code :=
  | Unimplemented | ResourceExhausted | Unauthenticated | PermissionDeniedCode | InvalidArgumentCode
  | DeadlineExceeded | OtherCode.
Record CallStatus := { cs_code : Code; cs_retry_after : option Z }.

Definition failed (s : CallStatus) : TickOutcome :=
  Failed (cs_retry_after s)
    match cs_code s with
    | ResourceExhausted => "rate_limited"
    | Unauthenticated => "host_auth_failed"
    | PermissionDeniedCode => "permission_denied"
    | InvalidArgumentCode => "invalid_argument"
    | DeadlineExceeded => "timeout"
    | _ => "cmis_unreachable"
    end.

Record HostCredentials := { hc_host_uuid : string; hc_trust_domain : string; hc_svid_expires_at : Z }.

Inductive SyncResult := SrNotModified | SrSignedAllowlistV2 (envelope : list u8).
Record SyncResponse := { sr_result : option SyncResult; sr_generation : Z }.

Inductive SyncEvent :=
  | AllowlistSyncApplied (host_uuid : string) (generation : Z)
  | AllowlistSyncRejected (host_uuid : string) (generation : Z) (reason : string).

(** The summary of the status endpoint. *)
Record SyncSummary := {
  ss_last_attempt_at : option Z; ss_last_ok_at : option Z; ss_generation : Z; ss_applied : Z;
  ss_not_modified : Z; ss_rejected : Z; ss_failures : Z; ss_legacy : bool;
  ss_consecutive_failures : Z; ss_failing : bool; ss_last_reason : option string }.

Record SyncConfig := { cfg_interval : Z; cfg_max_age_secs : Z }.

(** The engine and what it changes. *)
Record Agent := {
  ag_held : option SyncState;
  ag_last_legacy : option (list u8);
  ag_failures : Z;
  ag_in_force : option Allowlist;
  ag_load : AllowlistLoad;
  ag_published : Z;
  ag_body_file : option (list u8);
  ag_state_file : option (list u8);
  ag_audit : list SyncEvent;
  ag_summary : SyncSummary }.

(** What happens around one tick: the credentials in the slot, the key file (none
    configured, or the result of reading it), whether the request could be signed, the
    answers of the two calls, and which writes succeed. *)
Record TickEnv := {
  te_creds : option HostCredentials;
  te_key_file : option (result IoError (list u8));
  te_signed : bool;
  te_sync : result CallStatus SyncResponse;
  te_get : result CallStatus (option (list u8));
  te_body_written : bool;
  te_state_written : bool }.

Definition creds_valid_at (c : option HostCredentials) (now : Z) : option HostCredentials :=
  match c with Some c => if now <? hc_svid_expires_at c then Some c else None | None => None end.

Section Sync.
Context (P : Primitives) `{CB : !AllowlistCbor} (hex_decode : string → option (list u8)).
(** [serde_json] on the state file. *)
Context (state_to_json : SyncState → option (list u8)) (state_from_json : list u8 → option SyncState).
Local Abbreviation PublicKey := (CompositePublicKey (EdVk P) (MlPk P)).

(** *** state.rs *)
Definition state_of (al : Allowlist) : option SyncState :=
  host ← al_host_uuid al; gen ← al_generation al; digest ← al_entries_digest al;
  Some {| st_v := STATE_VERSION; st_host_uuid := host; st_generation := gen;
          st_entries_digest := hex_encode P digest; st_issued_at := al_issued_at al;
          st_not_after := al_not_after al |}.

Definition state_digest (s : SyncState) : option (list u8) :=
  d ← hex_decode (st_entries_digest s); if (length d =? 48)%nat then Some d else None.

Definition past_half_life (s : SyncState) (now : Z) : bool :=
  let half := Z.quot (wrap_i64 (st_not_after s - st_issued_at s)) 2 in
  Z.max (- 2 ^ 63) (Z.min (st_issued_at s + half) (2 ^ 63 - 1)) <=? now.

(** [SyncState::load] on the content of the file; a missing file is [None]. *)
Definition state_load (file : option (list u8)) : result IoError (option SyncState) :=
  match file with
  | None => Ok None
  | Some bytes =>
      if (MAX_STATE_BYTES <? length bytes)%nat then Err (IoOther "allowlist state file too large") else
      match state_from_json bytes with
      | None => Err (IoOther "invalid data")
      | Some st =>
          match state_digest st with
          | Some _ => if st_v st =? STATE_VERSION then Ok (Some st) else Err (IoOther "unsupported allowlist state file")
          | None => Err (IoOther "unsupported allowlist state file")
          end
      end
  end.

(** *** verify.rs *)
Definition sync_admit (al : Allowlist) (expect : Expectations) (refuse_downgrade : bool) : result Rejection unit :=
  match al_generation al with
  | None =>
      match ex_held expect with
      | Some _ => if refuse_downgrade then Err {| rj_reason := Downgrade; rj_generation := 0 |} else Ok tt
      | None => Ok tt
      end
  | Some generation =>
      let reject reason := Err {| rj_reason := reason; rj_generation := generation |} in
      if is_none_or (ex_host_uuid expect) (λ h, negb (bool_decide (al_host_uuid al = Some h)))
      then reject WrongHost else
      if match ex_trust_domain expect with Some td => negb (String.eqb (al_trust_domain al) td) | None => false end
      then reject TrustDomain else
      match ex_held expect with
      | Some held =>
          if generation <? st_generation held then reject Rollback else
          if (generation =? st_generation held) && negb (bool_decide (al_entries_digest al = state_digest held))
          then reject GenerationConflict else Ok tt
      | None => Ok tt
      end
  end.

Definition verify_synced (envelope : list u8) (trusted : PublicKey) (expect : Expectations)
    (served_generation now max_age_secs : Z) : result Rejection Allowlist :=
  let? al := map_err (λ e, {| rj_reason := of_load e; rj_generation := 0 |})
               (al_load_v2 P hex_decode envelope trusted now max_age_secs) in
  let generation := default 0 (al_generation al) in
  if negb (generation =? served_generation) then Err {| rj_reason := Malformed; rj_generation := generation |} else
  let? _ := sync_admit al expect true in
  Ok al.

(** *** mod.rs *)

(** Updates of the engine's record. *)
Definition set_held (h : option SyncState) (a : Agent) : Agent :=
  {| ag_held := h; ag_last_legacy := ag_last_legacy a; ag_failures := ag_failures a;
     ag_in_force := ag_in_force a; ag_load := ag_load a; ag_published := ag_published a;
     ag_body_file := ag_body_file a; ag_state_file := ag_state_file a; ag_audit := ag_audit a;
     ag_summary := ag_summary a |}.
Definition set_failures (n : Z) (a : Agent) : Agent :=
  {| ag_held := ag_held a; ag_last_legacy := ag_last_legacy a; ag_failures := n;
     ag_in_force := ag_in_force a; ag_load := ag_load a; ag_published := ag_published a;
     ag_body_file := ag_body_file a; ag_state_file := ag_state_file a; ag_audit := ag_audit a;
     ag_summary := ag_summary a |}.
Definition set_summary (s : SyncSummary) (a : Agent) : Agent :=
  {| ag_held := ag_held a; ag_last_legacy := ag_last_legacy a; ag_failures := ag_failures a;
     ag_in_force := ag_in_force a; ag_load := ag_load a; ag_published := ag_published a;
     ag_body_file := ag_body_file a; ag_state_file := ag_state_file a; ag_audit := ag_audit a;
     ag_summary := s |}.
Definition audit_sync (e : SyncEvent) (a : Agent) : Agent :=
  {| ag_held := ag_held a; ag_last_legacy := ag_last_legacy a; ag_failures := ag_failures a;
     ag_in_force := ag_in_force a; ag_load := ag_load a; ag_published := ag_published a;
     ag_body_file := ag_body_file a; ag_state_file := ag_state_file a; ag_audit := e :: ag_audit a;
     ag_summary := ag_summary a |}.

(** [reject]: audited, nothing else changes. *)
Definition sync_reject (creds : HostCredentials) (r : Rejection) (a : Agent) : Agent * TickOutcome :=
  (audit_sync (AllowlistSyncRejected (hc_host_uuid creds) (rj_generation r) (reject_as_str (rj_reason r))) a,
   Rejected r).

(** [on_body]: the body is written first and the state only after it. *)
Definition on_body (cfg : SyncConfig) (env : TickEnv) (creds : HostCredentials) (key : PublicKey)
    (envelope : list u8) (served_generation now : Z) (a : Agent) : Agent * TickOutcome :=
  let expect := {| ex_host_uuid := Some (hc_host_uuid creds); ex_trust_domain := Some (hc_trust_domain creds);
                   ex_held := ag_held a |} in
  match verify_synced envelope key expect served_generation now (cfg_max_age_secs cfg) with
  | Err rejection => sync_reject creds rejection a
  | Ok al =>
      match state_of al with
      | None => sync_reject creds {| rj_reason := Malformed; rj_generation := served_generation |} a
      | Some state =>
          let state_bytes := state_to_json state in
          ({| ag_held := Some state; ag_last_legacy := ag_last_legacy a; ag_failures := ag_failures a;
              ag_in_force := Some al; ag_load := load_of al; ag_published := st_generation state;
              ag_body_file := if te_body_written env then Some envelope else ag_body_file a;
              ag_state_file :=
                if te_body_written env && te_state_written env then
                  match state_bytes with Some b => Some b | None => ag_state_file a end
                else ag_state_file a;
              ag_audit := AllowlistSyncApplied (hc_host_uuid creds) (st_generation state) :: ag_audit a;
              ag_summary := ag_summary a |},
           Applied (st_generation state) (al_entry_count al))
      end
  end.

(** [legacy]: the v1 body of a CMIS without the sync call. *)
Definition sync_legacy (cfg : SyncConfig) (env : TickEnv) (creds : HostCredentials) (key : PublicKey)
    (now : Z) (a : Agent) : Agent * TickOutcome :=
  match ag_held a with
  | Some _ => (a, Failed None "sync_unimplemented")
  | None =>
      match te_get env with
      | Err s => (a, failed s)
      | Ok None => (a, LegacyUnchanged)
      | Ok (Some bytes) =>
          let digest := vec_to_list (sha384 P bytes) in
          if bool_decide (ag_last_legacy a = Some digest) then (a, LegacyUnchanged) else
          match al_load_v1 P hex_decode bytes key now (cfg_max_age_secs cfg) with
          | Err e => (a, Rejected {| rj_reason := of_load e; rj_generation := 0 |})
          | Ok al =>
              ({| ag_held := ag_held a; ag_last_legacy := Some digest; ag_failures := ag_failures a;
                  ag_in_force := Some al; ag_load := load_of al; ag_published := ag_published a;
                  ag_body_file := if te_body_written env then Some bytes else ag_body_file a;
                  ag_state_file := ag_state_file a; ag_audit := ag_audit a; ag_summary := ag_summary a |},
               LegacyApplied (al_entry_count al))
          end
      end
  end.

(** [trusted_key], re-read every tick. *)
Definition trusted_key (env : TickEnv) : option PublicKey :=
  match te_key_file env with
  | Some (Ok b) => match pk_from_concat_bytes P b with Ok key => Some key | Err _ => None end
  | _ => None
  end.

(** A held state of another host identity is no rollback floor. *)
Definition drop_foreign_held (creds : HostCredentials) (a : Agent) : Agent :=
  match ag_held a with
  | Some h => if String.eqb (st_host_uuid h) (hc_host_uuid creds) then a else set_held None a
  | None => a
  end.

(** The generation the request names: 0 asks for a body in any case. *)
Definition have_generation (held : option SyncState) (now : Z) : Z :=
  match held with
  | Some h => if past_half_life h now then 0 else st_generation h
  | None => 0
  end.

Definition tick_inner (cfg : SyncConfig) (env : TickEnv) (now : Z) (a : Agent) : Agent * TickOutcome :=
  match creds_valid_at (te_creds env) now with
  | None => (a, NoCredentials)
  | Some creds =>
      let a := drop_foreign_held creds a in
      match trusted_key env with
      | None => (a, Rejected {| rj_reason := NoKey; rj_generation := 0 |})
      | Some key =>
          if negb (te_signed env) then (a, Failed None "sign_failed") else
          match te_sync env with
          | Ok resp =>
              match sr_result resp with
              | Some SrNotModified => (a, TickNotModified)
              | Some (SrSignedAllowlistV2 envelope) => on_body cfg env creds key envelope (sr_generation resp) now a
              | None => sync_reject creds {| rj_reason := Malformed; rj_generation := sr_generation resp |} a
              end
          | Err s =>
              match cs_code s with
              | Unimplemented => sync_legacy cfg env creds key now a
              | _ => (a, failed s)
              end
          end
      end
  end.

(** [report]: the counters of the status endpoint. *)
Definition report (outcome : TickOutcome) (now : Z) (held : option SyncState) (s : SyncSummary) : SyncSummary :=
  let counts := match outcome with
    | Applied _ _ => (ss_applied s + 1, ss_not_modified s, ss_rejected s, ss_failures s, false)
    | TickNotModified => (ss_applied s, ss_not_modified s + 1, ss_rejected s, ss_failures s, false)
    | Rejected _ => (ss_applied s, ss_not_modified s, ss_rejected s + 1, ss_failures s, ss_legacy s)
    | LegacyApplied _ | LegacyUnchanged => (ss_applied s, ss_not_modified s, ss_rejected s, ss_failures s, true)
    | NoCredentials | Failed _ _ => (ss_applied s, ss_not_modified s, ss_rejected s, ss_failures s + 1, ss_legacy s)
    end in
  let '(applied, not_modified, rejected, failures, legacy) := counts in
  let rate_limited := match outcome with Failed _ r => String.eqb r "rate_limited" | _ => false end in
  let ok := tick_ok outcome in
  {| ss_last_attempt_at := Some now; ss_generation := match held with Some h => st_generation h | None => 0 end;
     ss_applied := applied; ss_not_modified := not_modified; ss_rejected := rejected; ss_failures := failures;
     ss_legacy := legacy;
     ss_last_ok_at := if rate_limited then ss_last_ok_at s else if ok then Some now else ss_last_ok_at s;
     ss_consecutive_failures :=
       if rate_limited then ss_consecutive_failures s else if ok then 0
       else Z.min (ss_consecutive_failures s + 1) (2 ^ 32 - 1);
     ss_failing := if rate_limited then ss_failing s else negb ok;
     ss_last_reason :=
       if rate_limited || ok then ss_last_reason s
       else Some match outcome with
                 | Rejected r => reject_as_str (rj_reason r)
                 | NoCredentials => "no_svid"
                 | Failed _ r => r
                 | _ => "unknown"
                 end |}.

Definition tick (cfg : SyncConfig) (env : TickEnv) (now : Z) (a : Agent) : Agent * TickOutcome :=
  let '(a, outcome) := tick_inner cfg env now a in
  (set_summary (report outcome now (ag_held a) (ag_summary a)) a, outcome).

(** [next_delay]; the jittered interval is the parameter [jittered] (floating point). *)
Definition next_delay (cfg : SyncConfig) (jittered : Z) (outcome : TickOutcome) (a : Agent) : Agent * Z :=
  match outcome with
  | Failed retry _ =>
      let a := set_failures (Z.min (ag_failures a + 1) (2 ^ 32 - 1)) a in
      (a, match retry with
          | None => backoff (cfg_interval cfg) (ag_failures a)
          | Some secs => sync_retry_after (cfg_interval cfg) secs
          end)
  | _ => (set_failures 0 a, jittered)
  end.

(** *** Starting *)
Record InForce := { if_allowlist : option Allowlist; if_outcome : AllowlistLoad; if_held : option SyncState }.

(** [load_in_force]: [synced] is the outcome of loading the synced body with the configured
    key, when both exist. *)
Definition load_in_force (state_file : option (list u8))
    (synced : option (result IoError (option Allowlist * AllowlistLoad)))
    (fallback : option Allowlist * AllowlistLoad) (host : option (string * string)) : InForce :=
  let held := match state_load state_file with Ok held => held | Err _ => None end in
  let host_uuid := match host with Some (uuid, _) => Some uuid | None => st_host_uuid <$> held end in
  let expect := {| ex_host_uuid := host_uuid; ex_trust_domain := snd <$> host; ex_held := held |} in
  let admitted al := match sync_admit al expect true with Ok _ => true | Err _ => false end in
  let from_fallback := match fallback with
    | (Some al, outcome) =>
        if admitted al then {| if_allowlist := Some al; if_outcome := outcome; if_held := held |}
        else {| if_allowlist := None; if_outcome := LoadInvalid; if_held := held |}
    | (None, outcome) => {| if_allowlist := None; if_outcome := outcome; if_held := held |}
    end in
  match synced with
  | Some (Ok (Some al, _)) =>
      if admitted al then {| if_allowlist := Some al; if_outcome := load_of al; if_held := held |}
      else from_fallback
  | _ => from_fallback
  end.

(** [AllowlistSync::new] on what [load_in_force] found, over the files on disk. *)
Definition sync_start (s : InForce) (body_file state_file : option (list u8)) : Agent :=
  {| ag_held := if_held s; ag_last_legacy := None; ag_failures := 0; ag_in_force := if_allowlist s;
     ag_load := if_outcome s; ag_published := match if_held s with Some h => st_generation h | None => 0 end;
     ag_body_file := body_file; ag_state_file := state_file; ag_audit := [];
     ag_summary := {| ss_last_attempt_at := None; ss_last_ok_at := None; ss_generation := 0; ss_applied := 0;
       ss_not_modified := 0; ss_rejected := 0; ss_failures := 0; ss_legacy := false;
       ss_consecutive_failures := 0; ss_failing := false; ss_last_reason := None |} |}.
End Sync.

(** ** Lemmas *)
Section SyncTheorems.
Context (P : Primitives) `{CB : !AllowlistCbor} (hex_decode : string → option (list u8)).
Context (state_to_json : SyncState → option (list u8)) (state_from_json : list u8 → option SyncState).
(** The hex crate: decoding undoes encoding. *)
Context (Hhex : ∀ b, hex_decode (hex_encode P b) = Some b).
Local Abbreviation tick := (tick P hex_decode state_to_json).
Local Abbreviation tick_inner := (tick_inner P hex_decode state_to_json).
Local Abbreviation on_body := (on_body P hex_decode state_to_json).
Local Abbreviation state_digest := (state_digest hex_decode).

(** What [from_v2] keeps of a document. *)
Record v2_view (doc : AllowlistDocV2) (al : Allowlist) : Prop := {
  vv_host : al_host_uuid al = Some (dv_host_uuid doc);
  vv_generation : al_generation al = Some (dv_generation doc);
  vv_domain : al_trust_domain al = dv_trust_domain doc;
  vv_not_after : al_not_after al = dv_not_after doc;
  vv_issued_at : al_issued_at al = dv_issued_at doc;
  vv_digest : ∃ d, al_entries_digest al = Some d ∧ entries_digest P (dv_entries doc) = Ok d;
  vv_entries : al_entries_v2 al = Some (dv_entries doc) }.

Lemma from_v2_view doc now age al :
  from_v2 P hex_decode doc now age = Ok al →
  v2_view doc al ∧ check_window (dv_issued_at doc) (dv_not_after doc) now age = Ok ().
Proof.
  unfold from_v2. intros H. inv_ok H. inv_pairs. injection H as <-. split; [|done].
  split; cbn; try done. eexists. split; [done|]. done.
Qed.

(** The held state a v2 body leaves, and its digest read back. *)
Lemma state_of_view doc al st :
  v2_view doc al → state_of P al = Some st →
  st_host_uuid st = dv_host_uuid doc ∧ st_generation st = dv_generation doc ∧
  state_digest st = al_entries_digest al.
Proof.
  intros [Hh Hg _ _ _ (d & Hd & Hdig) _]. unfold state_of. rewrite Hh, Hg, Hd. cbn. intros [= <-]. cbn.
  unfold AllowlistSync.state_digest. cbn. rewrite Hhex. cbn.
  by rewrite (entries_digest_length P _ _ Hdig).
Qed.

(** What an accepted body satisfied. *)
Record body_accepted (creds : HostCredentials) (key : CompositePublicKey (EdVk P) (MlPk P))
    (held : option SyncState) (envelope : list u8) (served now age : Z) (doc : AllowlistDocV2) (al : Allowlist) : Prop := {
  ba_verified : ∃ signed, allowlist_decode envelope = Ok signed ∧ verify_v2 P signed key = Ok doc;
  ba_indexed : from_v2 P hex_decode doc now age = Ok al;
  ba_host : dv_host_uuid doc = hc_host_uuid creds;
  ba_domain : dv_trust_domain doc = hc_trust_domain creds;
  ba_served : dv_generation doc = served;
  ba_floor st : held = Some st → st_generation st ≤ dv_generation doc ∧
    (dv_generation doc = st_generation st → al_entries_digest al = state_digest st) }.

Lemma verify_synced_accepts creds key held envelope served now age al :
  verify_synced P hex_decode envelope key
    {| ex_host_uuid := Some (hc_host_uuid creds); ex_trust_domain := Some (hc_trust_domain creds); ex_held := held |}
    served now age = Ok al ↔
  ∃ doc, body_accepted creds key held envelope served now age doc al.
Proof.
  unfold verify_synced, al_load_v2. split.
  - intros H. inv_ok H. match goal with E : (match _ with Ok _ => _ | Err _ => _ end) = Ok a |- _ => inv_ok E; rename E into Ev2 end.
    injection H as ->. exists a1. destruct (from_v2_view _ _ _ _ Ev2) as [[Hh Hg Ht _ _ (d & Hd & _) _] _].
    rewrite Hg in *. cbn [from_option id] in *. unfold sync_admit in *. rewrite Hg in *. cbn [ex_host_uuid ex_trust_domain ex_held is_none_or] in *.
    rewrite Hh, Ht in *. case_bool_decide as Eh; [|done]. cbn [negb] in *.
    destruct (String.eqb_spec (dv_trust_domain a1) (hc_trust_domain creds)) as [Et|]; [|done]. cbn [negb] in *.
    match goal with E : negb (_ =? _) = false |- _ => apply negb_false_iff, Z.eqb_eq in E end.
    split; [by eexists|done|congruence|done|done|]. intros st ->.
    destruct (Z.ltb_spec (dv_generation a1) (st_generation st)); [done|]. split; [done|]. intros Eg.
    rewrite (proj2 (Z.eqb_eq _ _) Eg) in *. cbn [andb] in *. by case_bool_decide.
  - intros (doc & [(signed & -> & ->) Hix Hhost Hdom Hserved Hfloor]). cbn [map_err]. rewrite Hix. cbn [map_err].
    destruct (from_v2_view _ _ _ _ Hix) as [[Hh Hg Ht _ _ (d & Hd & _) _] _].
    rewrite Hg. cbn [from_option id]. rewrite Hserved, Z.eqb_refl. cbn [negb]. unfold sync_admit. rewrite Hg.
    cbn [ex_host_uuid ex_trust_domain ex_held is_none_or]. rewrite Hh, Ht, Hhost, Hdom.
    rewrite bool_decide_true by done. rewrite String.eqb_refl. cbn [negb].
    destruct held as [st|]; [|done]. destruct (Hfloor st eq_refl) as [Hle Heq].
    rewrite (proj2 (Z.ltb_ge _ _)) by done.
    destruct (Z.eqb_spec (dv_generation doc) (st_generation st)) as [E|]; [|done].
    by rewrite bool_decide_true by auto.
Qed.

(** What a tick may only change by putting a body in force. *)
Definition in_force_part (a : Agent) :=
  (ag_in_force a, ag_load a, ag_published a, ag_body_file a, ag_state_file a, ag_last_legacy a).

(** The held state a tick starts from: its own, unless it names another host. *)
Definition held_for (host : string) (held : option SyncState) : option SyncState :=
  match held with Some st => if String.eqb (st_host_uuid st) host then Some st else None | None => None end.

Lemma drop_foreign_held_spec creds a :
  ag_held (drop_foreign_held creds a) = held_for (hc_host_uuid creds) (ag_held a) ∧
  in_force_part (drop_foreign_held creds a) = in_force_part a.
Proof. unfold drop_foreign_held, held_for. destruct (ag_held a) as [h|] eqn:E; [destruct (String.eqb _ _)|]; done. Qed.

(** The three ways a tick ends. *)
Inductive tick_result (cfg : SyncConfig) (env : TickEnv) (now : Z) (a a' : Agent) : TickOutcome → Prop :=
  | tr_kept o :
      (ag_held a' = ag_held a ∨ ∃ creds, te_creds env = Some creds ∧ ag_held a' = held_for (hc_host_uuid creds) (ag_held a)) →
      in_force_part a' = in_force_part a →
      (∀ g n, o ≠ Applied g n) → (∀ n, o ≠ LegacyApplied n) → tick_result cfg env now a a' o
  | tr_applied creds key envelope served doc al st n :
      te_creds env = Some creds → trusted_key P env = Some key →
      body_accepted creds key (held_for (hc_host_uuid creds) (ag_held a)) envelope served now (cfg_max_age_secs cfg) doc al →
      te_sync env = Ok {| sr_result := Some (SrSignedAllowlistV2 envelope); sr_generation := served |} →
      state_of P al = Some st → ag_held a' = Some st → ag_in_force a' = Some al →
      ag_published a' = dv_generation doc → tick_result cfg env now a a' (Applied (dv_generation doc) n)
  | tr_legacy creds key bytes al n :
      te_creds env = Some creds → trusted_key P env = Some key →
      held_for (hc_host_uuid creds) (ag_held a) = None → ag_held a' = None →
      al_load_v1 P hex_decode bytes key now (cfg_max_age_secs cfg) = Ok al → ag_in_force a' = Some al →
      tick_result cfg env now a a' (LegacyApplied n).

Lemma on_body_result cfg env creds key envelope served now a :
  te_creds env = Some creds → trusted_key P env = Some key →
  te_sync env = Ok {| sr_result := Some (SrSignedAllowlistV2 envelope); sr_generation := served |} →
  let '(a', o) := on_body cfg env creds key envelope served now (drop_foreign_held creds a) in
  tick_result cfg env now a a' o.
Proof.
  intros Hc Hk Hs. destruct (drop_foreign_held_spec creds a) as [Hh Hp]. unfold AllowlistSync.on_body. rewrite Hh.
  destruct (verify_synced _ _ _ _ _ _ _ _) as [al|r] eqn:E.
  - apply verify_synced_accepts in E as [doc Hb]. destruct (from_v2_view _ _ _ _ (ba_indexed _ _ _ _ _ _ _ _ _ Hb)) as [Hv _].
    destruct (state_of P al) as [st|] eqn:Est.
    + destruct (state_of_view _ _ _ Hv Est) as (_ & Hg & _). rewrite Hg. by eapply tr_applied.
    + exfalso. unfold state_of in Est. destruct Hv as [H1 H2 _ _ _ (d & H3 & _) _]. by rewrite H1, H2, H3 in Est.
  - cbn. apply tr_kept; [|done..]. right. exists creds. done.
Qed.

Lemma tick_inner_result cfg env now a :
  let '(a', o) := tick_inner cfg env now a in tick_result cfg env now a a' o.
Proof.
  unfold AllowlistSync.tick_inner. destruct (creds_valid_at (te_creds env) now) as [creds|] eqn:Ec; [|by apply tr_kept; [left|..]].
  assert (te_creds env = Some creds) as Hc.
  { unfold creds_valid_at in Ec. destruct (te_creds env); [|done]. destruct (_ <? _); congruence. }
  destruct (drop_foreign_held_spec creds a) as [Hh Hp].
  assert (∀ o, (∀ g n, o ≠ Applied g n) → (∀ n, o ≠ LegacyApplied n) →
    tick_result cfg env now a (drop_foreign_held creds a) o) as Hkept.
  { intros o H1 H2. apply tr_kept; [right; by exists creds|done..]. }
  destruct (trusted_key P env) as [key|] eqn:Ek; [|by apply Hkept].
  destruct (negb (te_signed env)); [by apply Hkept|].
  destruct (te_sync env) as [resp|status] eqn:Es.
  - destruct resp as [[[|envelope]|] g]; cbn [sr_result sr_generation].
    + by apply Hkept.
    + by apply on_body_result.
    + cbn. by apply tr_kept; [right; exists creds|..].
  - destruct (cs_code status); try by apply Hkept. unfold sync_legacy. rewrite Hh.
    destruct (held_for (hc_host_uuid creds) (ag_held a)) eqn:Eh; [by apply Hkept|].
    destruct (te_get env) as [[bytes|]|st']; [|by apply Hkept|by apply Hkept].
    case_bool_decide; [by apply Hkept|].
    destruct (al_load_v1 _ _ _ _ _ _) as [al|e] eqn:El; [|by apply Hkept].
    by eapply tr_legacy.
Qed.

Lemma tick_result_of cfg env now a a' o : tick cfg env now a = (a', o) → tick_result cfg env now a a' o.
Proof.
  unfold AllowlistSync.tick. pose proof (tick_inner_result cfg env now a) as H.
  destruct (tick_inner cfg env now a) as [a1 o1]. intros [= <- <-].
  destruct H; [by apply tr_kept|by eapply tr_applied|by eapply tr_legacy].
Qed.

(** ** Theorems *)

(** Steps of the loop on one host: ticks whose credentials, if any, name it, under any
    answers, failures and clocks, and the choice of the next delay. *)
Inductive loop_step (host : string) (a : Agent) : Agent → Prop :=
  | ls_tick cfg env now a' o :
      (∀ c, te_creds env = Some c → hc_host_uuid c = host) → tick cfg env now a = (a', o) → loop_step host a a'
  | ls_delay cfg jittered o a' d : next_delay cfg jittered o a = (a', d) → loop_step host a a'.

(** The allowlist in force is the one the engine holds the state of. *)
Definition synced (host : string) (a : Agent) (al : Allowlist) : Prop :=
  ∃ st, ag_in_force a = Some al ∧ ag_held a = Some st ∧ state_of P al = Some st ∧ st_host_uuid st = host.

Definition not_older (al al' : Allowlist) : Prop :=
  ∃ g g', al_generation al = Some g ∧ al_generation al' = Some g' ∧ g ≤ g' ∧
    (g' = g → al_entries_digest al' = al_entries_digest al).

Lemma not_older_refl al : al_generation al ≠ None → not_older al al.
Proof. unfold not_older. destruct (al_generation al) as [g|]; [|done]. intros _. exists g, g. by split_and!. Qed.

Lemma state_of_some al st : state_of P al = Some st → ∃ g d, al_generation al = Some g ∧
  al_entries_digest al = Some d ∧ st_generation st = g ∧ st_entries_digest st = hex_encode P d.
Proof.
  unfold state_of. destruct (al_host_uuid al), (al_generation al) as [g|], (al_entries_digest al) as [d|]; try done.
  cbn. intros [= <-]. by exists g, d.
Qed.

Lemma loop_step_synced host a a' al :
  loop_step host a a' → synced host a al → (∀ st, ag_held a = Some st → state_digest st = al_entries_digest al) →
  ∃ al', synced host a' al' ∧ not_older al al' ∧ (∀ st, ag_held a' = Some st → state_digest st = al_entries_digest al').
Proof.
  intros Hstep (st & Hf & Hh & Hs & Hhost) Hd.
  assert (al_generation al ≠ None) as Hg by (destruct (state_of_some _ _ Hs) as (g & d & -> & _); done).
  destruct Hstep as [cfg env now a' o Hc Ht|cfg j o a' d Hn].
  - apply tick_result_of in Ht. destruct Ht as [o Hk Hp _ _|creds key env' served doc al' st' n Hcr Hkey Hb _ Hs' Hh' Hf' _|creds key b al' n Hcr Hkey Hhn _ _ _].
    + exists al. unfold in_force_part in Hp. injection Hp as Hp _ _ _ _ _.
      assert (ag_held a' = Some st) as Hst.
      { destruct Hk as [->|(c & Hcr & ->)]; [done|]. rewrite Hh. cbn. by rewrite Hhost, (Hc c Hcr), String.eqb_refl. }
      split; [exists st; split_and!; congruence|]. split; [by apply not_older_refl|]. intros st'. rewrite Hst. intros [= <-]. auto.
    + exists al'. destruct (from_v2_view _ _ _ _ (ba_indexed _ _ _ _ _ _ _ _ _ Hb)) as [Hv _].
      destruct (state_of_view _ _ _ Hv Hs') as (Hsh & Hsg & Hsd).
      destruct (ba_floor _ _ _ _ _ _ _ _ _ Hb st) as [Hle Heq].
      { rewrite Hh. cbn. by rewrite Hhost, (Hc _ Hcr), String.eqb_refl. }
      destruct (state_of_some _ _ Hs) as (g & d & Hgen & Hdig & Hsg0 & _). split_and!.
      * exists st'. split_and!; try done. rewrite Hsh, (ba_host _ _ _ _ _ _ _ _ _ Hb). by apply Hc.
      * exists g, (dv_generation doc). split_and!; [done|apply Hv|lia|]. intros E. rewrite Heq by lia. auto.
      * intros st1. rewrite Hh'. by intros [= <-].
    + rewrite Hh in Hhn. cbn in Hhn. by rewrite Hhost, (Hc _ Hcr), String.eqb_refl in Hhn.
  - exists al. assert (in_force_part a' = in_force_part a ∧ ag_held a' = ag_held a) as [Hp Hh'].
    { destruct o; cbn in Hn; by injection Hn as <- <-. }
    injection Hp as Hp _ _ _ _ _. rewrite <- Hh' in Hh, Hd. split; [exists st; split_and!; congruence|].
    split; [by apply not_older_refl|done].
Qed.

(** From such a state on, every later one is such a state and not older. *)
Lemma synced_never_rolls_back host a a' al :
  rtc (loop_step host) a a' → synced host a al → (∀ st, ag_held a = Some st → state_digest st = al_entries_digest al) →
  ∃ al', synced host a' al' ∧ not_older al al' ∧ (∀ st, ag_held a' = Some st → state_digest st = al_entries_digest al').
Proof.
  intros H. revert al. induction H as [a|a a1 a2 Hs _ IH]; intros al Hsy Hd.
  - exists al. split; [done|]. split; [|done]. apply not_older_refl. destruct Hsy as (st & _ & _ & Hs & _).
    destruct (state_of_some _ _ Hs) as (g & d & -> & _). done.
  - destruct (loop_step_synced host a a1 al Hs Hsy Hd) as (al1 & Hsy1 & Hn1 & Hd1).
    destruct (IH al1 Hsy1 Hd1) as (al2 & Hsy2 & Hn2 & Hd2). exists al2. split; [done|]. split; [|done].
    destruct Hn1 as (g & g1 & E1 & E2 & L1 & D1), Hn2 as (g1' & g2 & E3 & E4 & L2 & D2).
    exists g, g2. rewrite E2 in E3. injection E3 as <-. split_and!; [done..|lia|].
    intros E. rewrite D2 by lia. apply D1. lia.
Qed.
(** What a tick that applied a body leaves. *)
Lemma applied_synced cfg env now a a' g n creds : tick cfg env now a = (a', Applied g n) → te_creds env = Some creds →
  ∃ al, synced (hc_host_uuid creds) a' al ∧ al_generation al = Some g ∧ ∀ st, ag_held a' = Some st → state_digest st = al_entries_digest al.
Proof.
  intros Ht Hcr. apply tick_result_of in Ht. remember (Applied g n) as o eqn:Eo.
  destruct Ht as [o _ _ Ho _|c key e served doc al st n' Hc Hk Hb Hs Hst Hh Hf _|]; [by destruct (Ho g n)| |done].
  destruct (from_v2_view _ _ _ _ (ba_indexed _ _ _ _ _ _ _ _ _ Hb)) as [Hv _].
  destruct (state_of_view _ _ _ Hv Hst) as (Hsh & Hsg & Hsd).
  assert (c = creds) as -> by congruence. exists al. split_and!.
  - exists st. split_and!; try done. rewrite Hsh. apply (ba_host _ _ _ _ _ _ _ _ _ Hb).
  - destruct Hv as [_ Hg _ _ _ _ _]. rewrite Hg. injection Eo as <- _. by rewrite (ba_served _ _ _ _ _ _ _ _ _ Hb).
  - intros st0. rewrite Hh. by intros [= <-].
Qed.

(** C15: from the tick on that applied a body of generation [g] to a host, and as long as the
    process runs and its credentials are of that host, the allowlist in force never goes back:
    whatever CMIS or the network answers and whatever the clock shows, its generation is at
    least [g] and never decreases, and a body of the same generation has the same entries
    digest.  (After a restart it may go back, as [restart_can_roll_back] shows.) *)
Theorem in_force_never_rolls_back cfg env now a0 a g n creds a1 a2 :
  tick cfg env now a0 = (a, Applied g n) → te_creds env = Some creds →
  rtc (loop_step (hc_host_uuid creds)) a a1 → rtc (loop_step (hc_host_uuid creds)) a1 a2 →
  ∃ al1 al2 g1, ag_in_force a1 = Some al1 ∧ ag_in_force a2 = Some al2 ∧ al_generation al1 = Some g1 ∧ g ≤ g1 ∧ not_older al1 al2.
Proof.
  intros Ht Hcr H1 H2. destruct (applied_synced _ _ _ _ _ _ _ _ Ht Hcr) as (al & Hs & Hg & Hd).
  destruct (synced_never_rolls_back _ _ _ _ H1 Hs Hd) as (al1 & Hs1 & (g0 & g1 & E0 & E1 & L & _) & Hd1).
  destruct (synced_never_rolls_back _ _ _ _ H2 Hs1 Hd1) as (al2 & (st2 & F2 & _) & Hn & _), Hs1 as (st1 & F1 & _).
  exists al1, al2, g1. rewrite Hg in E0. injection E0 as ->. done.
Qed.

(** what a tick does to the allowlist in force and its files: nothing, unless CMIS answered
    with a body that verifies under the configured key, is within its window, names this
    host, its trust domain and the announced generation, and is not below the held
    generation; a v1 body is accepted only while no v2 generation of this host is held. *)
Theorem tick_outcomes cfg env now a a' o :
  tick cfg env now a = (a', o) →
  match o with
  | Applied g _ => ∃ creds key envelope signed doc al,
      te_creds env = Some creds ∧ trusted_key P env = Some key ∧
      te_sync env = Ok {| sr_result := Some (SrSignedAllowlistV2 envelope); sr_generation := g |} ∧
      allowlist_decode envelope = Ok signed ∧ verify_v2 P signed key = Ok doc ∧
      from_v2 P hex_decode doc now (cfg_max_age_secs cfg) = Ok al ∧ ag_in_force a' = Some al ∧
      dv_generation doc = g ∧ dv_host_uuid doc = hc_host_uuid creds ∧ dv_trust_domain doc = hc_trust_domain creds ∧
      (∀ st, ag_held a = Some st → st_host_uuid st = hc_host_uuid creds → st_generation st ≤ g)
  | LegacyApplied _ => ∃ creds key bytes al,
      te_creds env = Some creds ∧ trusted_key P env = Some key ∧
      (∀ st, ag_held a = Some st → st_host_uuid st ≠ hc_host_uuid creds) ∧
      al_load_v1 P hex_decode bytes key now (cfg_max_age_secs cfg) = Ok al ∧ ag_in_force a' = Some al
  | _ => in_force_part a' = in_force_part a
  end.
Proof.
  intros Ht%tick_result_of. destruct Ht as [o Hk Hp Ho1 Ho2|creds key envelope served doc al st n Hc Hk Hb Hs Hst Hh Hf Hpub|creds key bytes al n Hc Hk Hn Hh Hl Hf].
  - destruct o; try done; [by destruct (Ho1 generation entries)|by destruct (Ho2 entries)].
  - destruct Hb as [(signed & Hd & Hv) Hix Hhost Hdom Hserved Hfloor].
    exists creds, key, envelope, signed, doc, al. rewrite Hserved. split_and!; try done.
    intros st0 H0 Hh0. rewrite <- Hserved. apply (Hfloor st0). rewrite H0. cbn. by rewrite Hh0, String.eqb_refl.
  - exists creds, key, bytes, al. split_and!; try done. intros st Hst E. rewrite Hst in Hn. cbn in Hn.
    by rewrite E, String.eqb_refl in Hn.
Qed.
End SyncTheorems.

(** the wait after a failed tick is positive, at most the configured interval, doubles
    from five seconds up to it, and never shrinks as failures accumulate. *)
Theorem backoff_bounds interval failures :
  1 ≤ interval → 1 ≤ failures →
  1 ≤ backoff interval failures ≤ interval ∧
  backoff interval failures ≤ backoff interval (failures + 1) ∧
  (failures ≤ 17 → backoff interval failures = Z.min (5 * 2 ^ (failures - 1)) interval) ∧
  (∀ secs, 1 ≤ sync_retry_after interval secs ≤ interval).
Proof.
  intros Hi Hf. unfold backoff, BACKOFF_BASE, sync_retry_after.
  rewrite !Z.shiftl_mul_pow2, !Z.mul_1_l by lia.
  assert (0 < 2 ^ Z.min (Z.max (failures - 1) 0) 16) by (apply Z.pow_pos_nonneg; lia).
  assert (2 ^ Z.min (Z.max (failures - 1) 0) 16 ≤ 2 ^ Z.min (Z.max (failures + 1 - 1) 0) 16)
    by (apply Z.pow_le_mono_r; lia).
  split_and!; try lia. intros Hle. by replace (Z.min (Z.max (failures - 1) 0) 16) with (failures - 1) by lia.
Qed.

Lemma backoff_bounds_witness :
  1 ≤ backoff 300 7 ≤ 300 ∧ backoff 300 7 ≤ backoff 300 (7 + 1) ∧
  (7 ≤ 17 → backoff 300 7 = Z.min (5 * 2 ^ (7 - 1)) 300) ∧ (∀ secs, 1 ≤ sync_retry_after 300 secs ≤ 300).
Proof. apply backoff_bounds; lia. Defined.
