(* ===== verification/AllowlistEndToEnd.v ===== *)
(** The allowlist from the ledger to the caller: the server's guarantees (AllowlistServe)
    and the agent's (AllowlistSync, MiaAllowlist) put together. *)
From stdpp Require Import sorting gmap.
From S2P Require Import Prelude AppModel AppDedup AppSchema AppInvariants AppLedger AppOps AppProofs AppOpTheorems Order Composite AllowlistV2 AllowlistCompile AllowlistServe AppPath MiaAllowlist AllowlistSync.
Open Scope Z_scope.

Section EndToEnd.
Context (P : Primitives) `{CB : !AllowlistCbor} `{CBL : !AllowlistCborLaws, PL : !PrimitiveLaws P}.
Context (parse_uuid hex_decode : string → option (list u8)) (to_uppercase : Z → list Z) (platform : Platform).
Context (Hhex : ∀ b, hex_decode (hex_encode P b) = Some b).
Context (issuer : Issuer P) (allowlist_ttl_secs : Z).
Context (ledger_sha256 : list u8 → list u8) (to_cbor : ApprovalSnapshot → result LedgerError (list u8)).
Context (state_to_json : SyncState → option (list u8)).
Local Abbreviation sys_step := (sys_step P parse_uuid issuer allowlist_ttl_secs ledger_sha256 to_cbor).
Local Abbreviation tick := (tick P hex_decode state_to_json).
Local Abbreviation issuer_key := (public_of P (iss_secret P issuer)).
Local Abbreviation permits_caller := (permits_caller P to_uppercase platform).

(** An approval of [h], as the ledger [d] holds it, that covers a caller: the binary is the
    approved one, the approval has not expired, and an exact user or path is the caller's
    (SIDs and paths as the host-salted hashes that travel in the body). *)
Record approval_covers (h : string) (d : Db) (a : ApprovalRow) (caller : CallerFacts) (now : Z) : Prop := {
  ac_binary : names_binary hex_decode (a_bin_sha a) (cf_bin_sha caller);
  ac_expiry t : a_expires_at a = Some t → now < t;
  ac_user : a_origin a ≠ LegacyOrigin → a_user_scope a = ExactUser →
    (a_user_kind a = Some Unix ∧ a_uid a = Some (cf_uid caller)) ∨
    (a_user_kind a = Some Windows ∧ ∃ s s', a_sid a = Some s ∧ cf_user_sid caller = Some s' ∧
       sid_hash P h s' = sid_hash P h s);
  ac_path : a_path_match a = PathExact → ∃ l path key, lineages d !! a_lineage_id a = Some l ∧
    cf_exe_path caller = Some path ∧ path_key to_uppercase platform path = Ok key ∧
    path_hash P h key = path_hash P h (l_path_key l) }.

Lemma u32_try_from_spec z u : u32_try_from z = Some u → u = z.
Proof. unfold u32_try_from. destruct (_ && _); congruence. Qed.

Lemma entry_covers h d a e caller now :
  entry_of P parse_uuid h (live_approval d a) = Some e →
  v2_admits P hex_decode to_uppercase platform h e caller now → approval_covers h d a caller now.
Proof.
  unfold entry_of. cbn [la_approval live_approval].
  destruct (parse_uuid (a_approval_id a)) as [id|]; [|done]. cbn.
  destruct (entry_user P h a) as [[uid sidh]|] eqn:Eu; [|done]. cbn.
  destruct (entry_path P h (live_approval d a)) as [ph|] eqn:Ep; [|done]. cbn. intros [= <-].
  intros [Hb Hu Hx Hs Hp]. cbn in *. split; try done.
  - intros Ho Hsc. unfold entry_user, is_ in Eu. rewrite (bool_decide_false _ Ho), (bool_decide_true _ Hsc) in Eu.
    destruct (a_user_kind a) as [[|]|]; [left|right|done].
    + split; [done|]. destruct (a_uid a) as [z|]; [|done]. cbn in Eu.
      destruct (u32_try_from z) as [u|] eqn:Ez; [|done]. injection Eu as <- <-.
      apply u32_try_from_spec in Ez as ->. f_equal. by apply Hu.
    + split; [done|]. destruct (a_sid a) as [s|]; [|done]. destruct (String.eqb s ""); [done|].
      injection Eu as <- <-. destruct (Hs _ eq_refl) as (s' & Hs' & E). by exists s, s'.
  - intros Hm. unfold entry_path in Ep. cbn [la_approval la_path_key live_approval] in Ep. rewrite Hm in Ep.
    destruct (lineages d !! a_lineage_id a) as [l|]; [|done]. cbn in Ep.
    destruct (l_path_key l) as [|k0 key] eqn:Ek; [done|]. injection Ep as <-.
    destruct (Hp _ eq_refl) as (path & k & Hpath & Hkey & E). exists l, path, k. by rewrite Ek.
Qed.

(** What a body the agent applied admits. *)
Lemma applied_permits_approved s cfg env now a a' g n al caller t :
  rtc sys_step sys_init s →
  tick cfg env now a = (a', Applied g n) → ag_in_force a' = Some al →
  trusted_key P env = Some issuer_key →
  (∀ envelope g' signed doc,
     te_sync env = Ok {| sr_result := Some (SrSignedAllowlistV2 envelope); sr_generation := g' |} →
     allowlist_decode envelope = Ok signed → verify_v2 P signed issuer_key = Ok doc →
     ∃ b na signed', (dv_host_uuid doc, ServedBody (dv_generation doc) b na) ∈ s_answers s ∧
       allowlist_decode b = Ok signed' ∧ verify_v2 P signed' issuer_key = Ok doc) →
  permits_caller al caller t = true →
  ∃ creds w, te_creds env = Some creds ∧ w ∈ s_trace s ∧
    ((∃ ap t0, approvals (w_db w) !! a_approval_id ap = Some ap ∧ a_host_uuid ap = hc_host_uuid creds ∧
        is_live ap t0 = true ∧ approval_covers (hc_host_uuid creds) (w_db w) ap caller t) ∨
     (∃ stored es e, w_legacy w !! hc_host_uuid creds = Some stored ∧ compile_legacy stored = Ok es ∧ e ∈ es ∧
        v2_admits P hex_decode to_uppercase platform (hc_host_uuid creds) e caller t)).
Proof.
  intros Hr Ht Hf Hkey Hforge Hperm.
  apply (tick_result_of P hex_decode state_to_json Hhex) in Ht. remember (Applied g n) as o eqn:Eo.
  destruct Ht as [o _ _ Ho _|creds key envelope served doc al' st n' Hc Hk Hb Hs _ _ Hf' _|]; [by destruct (Ho g n)| |done].
  rewrite Hkey in Hk. injection Hk as <-. rewrite Hf in Hf'. injection Hf' as <-.
  destruct Hb as [(signed & Hd & Hv) Hix Hhost _ _ _].
  destruct (Hforge _ _ _ _ Hs Hd Hv) as (b & na & signed' & Hin & Hd' & Hv').
  destruct (served_body_entries P parse_uuid issuer allowlist_ttl_secs ledger_sha256 to_cbor s _ _ _ _ Hr Hin)
    as (sg & doc' & w & mode & t0 & Hd2 & Hv2 & Hw & Hm).
  rewrite Hd' in Hd2. injection Hd2 as <-. rewrite Hv' in Hv2. injection Hv2 as <-. rewrite Hhost in Hm.
  apply (from_v2_permits P hex_decode to_uppercase platform _ _ _ _ caller t Hix) in Hperm as (_ & e & He & Ha).
  rewrite Hhost in Ha. exists creds, w. split_and!; [done..|]. destruct mode.
  - right. destruct Hm as [[_ Hnil]|(stored & es & Hst & Hes & Hp)]; [by rewrite Hnil in He; apply elem_of_nil in He|].
    exists stored, es, e. split_and!; try done. by rewrite <- Hp.
  - left. apply Hm in He as (ap & Hap & Hh & Hl & Ee). exists ap, t0. split_and!; try done. by eapply entry_covers.
Qed.

(** a caller the agent admits was approved: when the agent applies a synced body, every
    caller it then permits is covered by an approval of this very host that was ACTIVE and
    unexpired in a state of the replicated ledger (or, in legacy mode, by an entry of the
    host's stored legacy body).  Assumed: the agent is configured with the issuer's key, and
    the envelope it received is not a forgery, that is, a document that verifies under that
    key is one CMIS served. *)
Theorem admitted_caller_was_approved s cfg env now a a' g n al caller t :
  rtc sys_step sys_init s →
  tick cfg env now a = (a', Applied g n) → ag_in_force a' = Some al →
  trusted_key P env = Some issuer_key →
  (∀ envelope g' signed doc,
     te_sync env = Ok {| sr_result := Some (SrSignedAllowlistV2 envelope); sr_generation := g' |} →
     allowlist_decode envelope = Ok signed → verify_v2 P signed issuer_key = Ok doc →
     ∃ b na signed', (dv_host_uuid doc, ServedBody (dv_generation doc) b na) ∈ s_answers s ∧
       allowlist_decode b = Ok signed' ∧ verify_v2 P signed' issuer_key = Ok doc) →
  permits_caller al caller t = true →
  ∃ creds w, te_creds env = Some creds ∧ w ∈ s_trace s ∧
    ((∃ ap t0, approvals (w_db w) !! a_approval_id ap = Some ap ∧ a_host_uuid ap = hc_host_uuid creds ∧
        is_live ap t0 = true ∧ approval_covers (hc_host_uuid creds) (w_db w) ap caller t) ∨
     (∃ stored es e, w_legacy w !! hc_host_uuid creds = Some stored ∧ compile_legacy stored = Ok es ∧ e ∈ es ∧
        v2_admits P hex_decode to_uppercase platform (hc_host_uuid creds) e caller t)).
Proof. apply applied_permits_approved. Qed.

(** ** An honest body is applied *)

(** Valid entries always index. *)
Lemma index_v2_total es m x :
  (∀ y, is_bin_sha y = true → ∃ raw, hex_decode y = Some raw ∧ length raw = 48%nat) →
  (∀ e, e ∈ es → valid_bin_sha (ev_bin_sha e) = true) → ∃ r, index_v2 hex_decode es m x = Ok r.
Proof.
  clear Hhex to_uppercase. intros H96. revert m x. induction es as [|e es IH]; intros m x Hv; cbn; [by eexists|].
  pose proof (Hv e (list_elem_of_here _ _)) as He. unfold valid_bin_sha in He.
  destruct (String.eqb (ev_bin_sha e) BIN_SHA_WILDCARD); cbn in He; [apply IH; set_solver|].
  destruct (H96 _ He) as (raw & Hr & Hl). unfold sha_bytes. rewrite Hr, Hl. cbn. apply IH. set_solver.
Qed.

Lemma tick_applies cfg env now a creds key b g doc al :
  te_creds env = Some creds → now < hc_svid_expires_at creds → trusted_key P env = Some key → te_signed env = true →
  te_sync env = Ok {| sr_result := Some (SrSignedAllowlistV2 b); sr_generation := g |} →
  body_accepted P hex_decode creds key (held_for (hc_host_uuid creds) (ag_held a)) b g now (cfg_max_age_secs cfg) doc al →
  ∃ a' n, tick cfg env now a = (a', Applied g n).
Proof.
  clear Hhex to_uppercase. intros Hc Hexp Hk Hsig Hs Hb. unfold AllowlistSync.tick, tick_inner, creds_valid_at.
  rewrite Hc, (proj2 (Z.ltb_lt _ _) Hexp), Hk, Hsig, Hs. cbn [negb sr_result sr_generation].
  unfold on_body. destruct (drop_foreign_held_spec creds a) as [Hh _]. rewrite Hh.
  rewrite (proj2 (verify_synced_accepts P hex_decode creds key _ b g now _ al)) by (by exists doc).
  pose proof (ba_served _ _ _ _ _ _ _ _ _ _ _ Hb) as Hg.
  destruct (from_v2_view P hex_decode _ _ _ _ (ba_indexed _ _ _ _ _ _ _ _ _ _ _ Hb)) as [[E1 E2 _ _ _ (d & E3 & _) _] _].
  unfold state_of. rewrite E1, E2, E3. cbn. rewrite Hg. by eexists _, _.
Qed.

(** a body CMIS served is accepted: an agent of the host, holding nothing or the state of an
    earlier served body of no higher generation, applies it; in particular a body of the
    generation it already holds never looks like a conflict.  The clock is within the body's
    window and 96 lower-case hex digits decode to 48 bytes. *)
Theorem served_body_is_applied s cfg env now a h g b na creds :
  rtc sys_step sys_init s → (h, ServedBody g b na) ∈ s_answers s →
  te_creds env = Some creds → now < hc_svid_expires_at creds → hc_host_uuid creds = h →
  hc_trust_domain creds = iss_trust_domain P issuer →
  trusted_key P env = Some issuer_key → te_signed env = true →
  te_sync env = Ok {| sr_result := Some (SrSignedAllowlistV2 b); sr_generation := g |} →
  (∀ signed doc, allowlist_decode b = Ok signed → verify_v2 P signed issuer_key = Ok doc →
     check_window (dv_issued_at doc) (dv_not_after doc) now (cfg_max_age_secs cfg) = Ok ()) →
  (∀ y, is_bin_sha y = true → ∃ raw, hex_decode y = Some raw ∧ length raw = 48%nat) →
  (∀ st, ag_held a = Some st → st_host_uuid st = h → ∃ g0 b0 na0 signed0 doc0 d0,
     (h, ServedBody g0 b0 na0) ∈ s_answers s ∧ allowlist_decode b0 = Ok signed0 ∧
     verify_v2 P signed0 issuer_key = Ok doc0 ∧ entries_digest P (dv_entries doc0) = Ok d0 ∧
     st_generation st = g0 ∧ state_digest hex_decode st = Some d0 ∧ g0 ≤ g) →
  ∃ a' n, tick cfg env now a = (a', Applied g n).
Proof using CBL PL.
  clear Hhex to_uppercase. intros Hr Hin Hc Hexp Hhost Hdom Hk Hsig Hs Hwin H96 Hheld.
  destruct (answers_ok P parse_uuid issuer allowlist_ttl_secs ledger_sha256 to_cbor s h g b na Hr Hin) as (Htr & D & Hrec & Hbody).
  destruct Hbody as (signed & doc & es & Hd & Hv & Hh & Hg & Htd & _ & HD & _).
  destruct (index_v2_total (dv_entries doc) ∅ [] H96) as [[m x] Hix].
  { intros e He. apply (verify_v2_ok P) in Hv as (_ & Hval & _). by eapply validate_entries. }
  destruct (from_v2 P hex_decode doc now (cfg_max_age_secs cfg)) as [al|] eqn:Hal;
    [|unfold from_v2 in Hal; by rewrite (Hwin _ _ Hd Hv), HD, Hix in Hal].
  eapply tick_applies; [done..|]. split; [by exists signed|exact Hal|congruence|congruence|done|].
  intros st Hst. unfold held_for in Hst. destruct (ag_held a) as [st0|] eqn:Ea; [|done].
  destruct (String.eqb_spec (st_host_uuid st0) (hc_host_uuid creds)) as [Eh|]; [|done]. injection Hst as ->.
  destruct (Hheld st eq_refl ltac:(congruence)) as (g0 & b0 & na0 & sg0 & doc0 & d0 & Hin0 & Hdec0 & Hv0 & Hd0 & Hg0 & Hsd & Hle).
  split; [lia|]. intros Eg. destruct (from_v2_view P hex_decode _ _ _ _ Hal) as [[_ _ _ _ _ (d & Ed & HD') _] _].
  rewrite Ed, Hsd. f_equal. rewrite HD in HD'. injection HD' as <-.
  assert (g0 = g) as -> by congruence.
  destruct (answers_ok P parse_uuid issuer allowlist_ttl_secs ledger_sha256 to_cbor s h g b0 na0 Hr Hin0) as (_ & D0 & Hrec0 & Hb0).
  destruct Hb0 as (sg1 & doc1 & es1 & Hd1 & Hv1 & _ & _ & _ & _ & HD1 & _).
  assert (doc1 = doc0) as -> by congruence. rewrite HD1 in Hd0. injection Hd0 as <-.
  by apply (recorded_unique P parse_uuid issuer (s_trace s) h g).
Qed.

(** ** Restarts *)

(** What the state file gives a start: its state, or nothing when it is missing or unreadable. *)
Definition held_at_start (state_from_json : list u8 → option SyncState) (state_file : option (list u8)) : option SyncState :=
  match state_load hex_decode state_from_json state_file with Ok held => held | Err _ => None end.

(** C37: the rollback floor of a start is the state file's, not that of the allowlist put in
    force: when the synced body is newer than the state file (a crash between the two
    writes), or the file is lost or unreadable, the body goes in force and yet the first tick
    accepts an older validly signed one, below the generation in force. *)
Theorem restart_can_roll_back state_from_json state_file body_file outcome fallback cfg env now creds key g2 al2 b g signed doc al :
  al_generation al2 = Some g2 → al_host_uuid al2 = Some (hc_host_uuid creds) →
  al_trust_domain al2 = hc_trust_domain creds →
  (∀ st, held_at_start state_from_json state_file = Some st → st_generation st < g) →
  te_creds env = Some creds → now < hc_svid_expires_at creds → trusted_key P env = Some key → te_signed env = true →
  te_sync env = Ok {| sr_result := Some (SrSignedAllowlistV2 b); sr_generation := g |} →
  allowlist_decode b = Ok signed → verify_v2 P signed key = Ok doc →
  from_v2 P hex_decode doc now (cfg_max_age_secs cfg) = Ok al →
  dv_host_uuid doc = hc_host_uuid creds → dv_trust_domain doc = hc_trust_domain creds → dv_generation doc = g →
  g < g2 →
  let start := load_in_force hex_decode state_from_json state_file (Some (Ok (Some al2, outcome))) fallback
                 (Some (hc_host_uuid creds, hc_trust_domain creds)) in
  let a := sync_start start body_file state_file in
  ag_in_force a = Some al2 ∧
  ∃ a' n, tick cfg env now a = (a', Applied g n) ∧ ag_in_force a' = Some al ∧ al_generation al = Some g.
Proof.
  intros Hg2 Hh2 Ht2 Hfl Hc Hexp Hk Hsig Hs Hd Hv Hix Hhost Hdom Hgen Hlt start a.
  assert (start = {| if_allowlist := Some al2; if_outcome := load_of al2; if_held := held_at_start state_from_json state_file |}) as Hstart.
  { unfold start, load_in_force, sync_admit. fold (held_at_start state_from_json state_file). rewrite Hg2.
    cbn [ex_host_uuid ex_trust_domain ex_held is_none_or fmap option_fmap option_map snd].
    rewrite Hh2, bool_decide_true by done. rewrite Ht2, String.eqb_refl. cbn [negb].
    destruct (held_at_start state_from_json state_file) as [st|]; [|done]. specialize (Hfl st eq_refl).
    rewrite (proj2 (Z.ltb_ge _ _)) by lia. by rewrite (proj2 (Z.eqb_neq _ _)) by lia. }
  unfold a. rewrite Hstart. split; [done|].
  destruct (tick_applies cfg env now (sync_start start body_file state_file) creds key b g doc al Hc Hexp Hk Hsig Hs) as (a' & n & Ht).
  { split; [by exists signed|done..|]. rewrite Hstart. cbn. intros st Hst. unfold held_for in Hst.
    destruct (held_at_start state_from_json state_file) as [st0|]; [|done].
    destruct (String.eqb _ _); [|done]. injection Hst as ->. specialize (Hfl st eq_refl). lia. }
  rewrite Hstart in Ht. exists a', n. split; [done|].
  apply (tick_result_of P hex_decode state_to_json Hhex) in Ht. remember (Applied g n) as o eqn:Eo.
  destruct Ht as [o _ _ Ho _|c k e served doc' al' st n' Hc' Hk' Hb' Hs' _ _ Hf' _|]; [by destruct (Ho g n)| |done].
  rewrite Hs in Hs'. injection Hs' as <- <-. rewrite Hk in Hk'. injection Hk' as <-.
  destruct Hb' as [(sg & Hd' & Hv') Hix' _ _ _ _]. rewrite Hd in Hd'. injection Hd' as <-.
  rewrite Hv in Hv'. injection Hv' as <-. rewrite Hix in Hix'. injection Hix' as <-. split; [done|].
  destruct (from_v2_view P hex_decode _ _ _ _ Hix) as [[_ E _ _ _ _ _] _]. by rewrite E, Hgen.
Qed.
End EndToEnd.
