(* ===== verification/AllowlistWitnesses.v ===== *)
(** The theorems on the allowlist applied to one concrete run: the sample history of the
    ledger, two calls to serve, and an agent that syncs. *)
From stdpp Require Import sorting gmap.
From S2P Require Import Prelude AppModel AppDedup AppSchema AppInvariants AppLedger AppOps AppProofs AppSample AppOpTheorems Order Composite AllowlistV2 AllowlistCompile AllowlistServe AppPath MiaAllowlist AllowlistSync AllowlistEndToEnd.
Open Scope Z_scope.

(** ** The server *)
Definition demo_uuid (s : string) : option (list u8) := Some (as_bytes s).
Definition demo_issuer : Issuer toy_primitives :=
  {| iss_secret := toy_sk; iss_public := toy_pk; iss_kid := "k1"; iss_trust_domain := "example.org" |}.
Definition demo_serve (have now : Z) : prog (result Status Served) :=
  serve toy_primitives demo_uuid demo_issuer 3600 (Ok []) (λ _, 60000) "h1" have now.
Abbreviation demo_step := (sys_step toy_primitives demo_uuid demo_issuer 3600 toy_sha256 toy_cbor).

(** The ledger after the sample approval, in approvals mode. *)
Definition demo_world : World :=
  {| w_db := d_approved; w_settings := {["allowlist_mode" := "approvals"]}; w_legacy := ∅; w_audit := [] |}.
Definition run1 : World * result Status Served := run_alone (demo_serve 0 50) demo_world.
Definition run2 : World * result Status Served := run_alone (demo_serve 0 60) run1.1.
Definition gen_of (r : result Status Served) : Z := match r with Ok (ServedBody g _ _) => g | _ => 0 end.
Definition body_of (r : result Status Served) : list u8 := match r with Ok (ServedBody _ b _) => b | _ => [] end.
Definition until_of (r : result Status Served) : Z := match r with Ok (ServedBody _ _ n) => n | _ => 0 end.
Definition is_body (r : result Status Served) : bool := match r with Ok (ServedBody _ _ _) => true | _ => false end.

Lemma is_body_eq r : is_body r = true → r = Ok (ServedBody (gen_of r) (body_of r) (until_of r)).
Proof. by destruct r as [[]|]. Qed.

Lemma surjective_pairing_snd {A B} (p : A * B) x : p.2 = x → p = (p.1, x).
Proof. by destruct p as [a b]; cbn; intros ->. Qed.

Lemma run1_body : is_body run1.2 = true.
Proof. vm_compute. reflexivity. Qed.
Lemma run2_body : is_body run2.2 = true.
Proof. vm_compute. reflexivity. Qed.
Lemma runs_generation : gen_of run2.2 = gen_of run1.2.
Proof. vm_compute. reflexivity. Qed.

(** ** The run as steps of the system *)
Section Runs.
Context (P : Primitives) `{CB : !AllowlistCbor} (parse_uuid : string → option (list u8)).
Context (issuer : Issuer P) (ttl : Z).
Context (sha256 : list u8 → list u8) (to_cbor : ApprovalSnapshot → result LedgerError (list u8)).
Local Abbreviation step := (sys_step P parse_uuid issuer ttl sha256 to_cbor).

(** A call whose calls are all answered at once. *)
Lemma run_alone_steps h p w tr ts ans w' s :
  run_alone p w = (w', Ok s) →
  ∃ tr', rtc step {| s_trace := w :: tr; s_threads := (h, p) :: ts; s_answers := ans |}
    {| s_trace := w' :: tr'; s_threads := ts; s_answers := (h, s) :: ans |}.
Proof.
  revert w tr. induction p as [r|X op k IH]; intros w tr H; cbn in H.
  - injection H as -> ->. exists tr. apply rtc_once. exact (sys_answer _ _ _ _ _ _ (w' :: tr) [] ts ans h s).
  - destruct (op w) as [w1 r] eqn:E. destruct (IH r w1 (w :: tr) H) as [tr' Hr]. exists tr'.
    eapply rtc_l; [|exact Hr].
    exact (sys_call _ _ _ _ _ _ w tr [] ts ans h X op k w1 r (cs_answered op w w1 r E)).
Qed.

(** The same, from the start of the call in a reachable system. *)
Lemma serve_alone_steps s0 h rng wall have now w tr ans w' s :
  rtc step s0 {| s_trace := w :: tr; s_threads := []; s_answers := ans |} →
  run_alone (serve P parse_uuid issuer ttl rng wall h have now) w = (w', Ok s) →
  ∃ tr', rtc step s0 {| s_trace := w' :: tr'; s_threads := []; s_answers := (h, s) :: ans |}.
Proof.
  intros H0 Hrun. destruct (run_alone_steps h _ w tr [] ans w' s Hrun) as [tr' Hs]. exists tr'.
  etransitivity; [exact H0|]. eapply rtc_l; [apply (sys_start _ _ _ _ _ _ _ _ _ rng wall h have now)|exact Hs].
Qed.

(** Ledger operations that leave the cache empty. *)
Lemma ledger_steps_sys d d' tr ts ans S L A :
  ledger_step sha256 to_cbor d d' → map_Forall (λ _ x, h_cached_v2 x = None) (hosts d') →
  step {| s_trace := {| w_db := d; w_settings := S; w_legacy := L; w_audit := A |} :: tr; s_threads := ts; s_answers := ans |}
    {| s_trace := {| w_db := d'; w_settings := S; w_legacy := L; w_audit := A |} ::
         {| w_db := d; w_settings := S; w_legacy := L; w_audit := A |} :: tr; s_threads := ts; s_answers := ans |}.
Proof.
  intros Hl Hn. apply sys_env, (env_ledger _ _ {| w_db := d; w_settings := S; w_legacy := L; w_audit := A |} d' Hl).
  intros h x b Hx Hb. specialize (Hn h x Hx). cbn in Hn. congruence.
Qed.

(** A body CMIS served is no forgery. *)
Lemma served_not_forged `{CBL : !AllowlistCborLaws, PL : !PrimitiveLaws P} s h g b na (resp : result CallStatus SyncResponse) g0 :
  rtc step sys_init s → (h, ServedBody g b na) ∈ s_answers s →
  resp = Ok {| sr_result := Some (SrSignedAllowlistV2 b); sr_generation := g0 |} →
  ∀ envelope g' signed doc,
    resp = Ok {| sr_result := Some (SrSignedAllowlistV2 envelope); sr_generation := g' |} →
    allowlist_decode envelope = Ok signed → verify_v2 P signed (public_of P (iss_secret P issuer)) = Ok doc →
    ∃ b na signed', (dv_host_uuid doc, ServedBody (dv_generation doc) b na) ∈ s_answers s ∧
      allowlist_decode b = Ok signed' ∧ verify_v2 P signed' (public_of P (iss_secret P issuer)) = Ok doc.
Proof.
  intros Hr Hin -> envelope g' signed doc Hs Hd Hv. injection Hs as <- _.
  destruct (answers_ok P parse_uuid issuer ttl sha256 to_cbor s h g b na Hr Hin)
    as (_ & D & _ & (signed' & doc' & es & Hd' & Hv' & Hh & Hg & _)).
  rewrite Hd in Hd'. injection Hd' as <-. rewrite Hv in Hv'. injection Hv' as <-.
  rewrite Hh, Hg. by exists b, na, signed.
Qed.

(** What a tick that applied a served body leaves. *)
Context `{CBL2 : !AllowlistCborLaws, PL2 : !PrimitiveLaws P} (hex_decode : string → option (list u8)).
Context (Hhex : ∀ b, hex_decode (hex_encode P b) = Some b) (to_json : SyncState → option (list u8)).

Lemma applied_generation cfg env now a a' g n b g1 :
  tick P hex_decode to_json cfg env now a = (a', Applied g n) →
  te_sync env = Ok {| sr_result := Some (SrSignedAllowlistV2 b); sr_generation := g1 |} → g = g1.
Proof.
  intros Ht Hs. apply (tick_result_of P hex_decode to_json Hhex) in Ht. remember (Applied g n) as o eqn:Eo.
  destruct Ht as [o _ _ Ho _|c key e served doc al st n' _ _ Hb Hs' _ _ _ _|]; [by destruct (Ho g n)| |done].
  rewrite Hs in Hs'. injection Hs' as _ <-. pose proof (ba_served _ _ _ _ _ _ _ _ _ _ _ Hb). congruence.
Qed.

Lemma applied_held s cfg env now a a' g n h b na g0 :
  rtc step sys_init s → (h, ServedBody g0 b na) ∈ s_answers s →
  tick P hex_decode to_json cfg env now a = (a', Applied g n) →
  te_sync env = Ok {| sr_result := Some (SrSignedAllowlistV2 b); sr_generation := g |} →
  trusted_key P env = Some (public_of P (iss_secret P issuer)) →
  ∀ st, ag_held a' = Some st → st_host_uuid st = h → ∃ g0 b0 na0 signed0 doc0 d0,
    (h, ServedBody g0 b0 na0) ∈ s_answers s ∧ allowlist_decode b0 = Ok signed0 ∧
    verify_v2 P signed0 (public_of P (iss_secret P issuer)) = Ok doc0 ∧ entries_digest P (dv_entries doc0) = Ok d0 ∧
    st_generation st = g0 ∧ state_digest hex_decode st = Some d0 ∧ g0 ≤ g.
Proof.
  intros Hr Hin Ht Hs Hkey st Hst Hsh0. apply (tick_result_of P hex_decode to_json Hhex) in Ht. remember (Applied g n) as o eqn:Eo.
  destruct Ht as [o _ _ Ho _|c key e served doc al st' n' Hc Hk Hb Hs' Hst' Hh Hf _|]; [by destruct (Ho g n)| |done].
  rewrite Hkey in Hk. injection Hk as <-. rewrite Hs in Hs'. injection Hs' as <- <-.
  destruct (from_v2_view P hex_decode _ _ _ _ (ba_indexed _ _ _ _ _ _ _ _ _ _ _ Hb)) as [Hv _].
  destruct (state_of_view P hex_decode Hhex _ _ _ Hv Hst') as (Hsh & Hsg & Hsd).
  destruct (vv_digest _ _ _ Hv) as (d & Hd & HD). rewrite Hst in Hh. injection Hh as ->.
  destruct (answers_ok P parse_uuid issuer ttl sha256 to_cbor s h g0 b na Hr Hin)
    as (_ & D & _ & (signed & doc' & es & Hdec & Hv' & Hh' & Hg' & _)).
  destruct (ba_verified _ _ _ _ _ _ _ _ _ _ _ Hb) as (sg & Hdec2 & Hv2). rewrite Hdec in Hdec2. injection Hdec2 as <-.
  rewrite Hv' in Hv2. injection Hv2 as ->. exists g0, b, na, signed, doc, d. split_and!; try done.
  - congruence.
  - congruence.
  - pose proof (ba_served _ _ _ _ _ _ _ _ _ _ _ Hb). lia.
Qed.
End Runs.

Ltac no_cached := refine (bool_decide_unpack _ _); vm_compute; exact I.

Lemma demo_ready : ∃ tr, rtc demo_step (sys_init)
  {| s_trace := demo_world :: tr; s_threads := []; s_answers := [] |}.
Proof.
  eexists. eapply rtc_l; [apply (ledger_steps_sys _ _ _ _ _ _ empty_db d_observed); [apply ls_observe|no_cached]|].
  eapply rtc_l; [apply (ledger_steps_sys _ _ _ _ _ _ d_observed d_pending); [apply ls_submit|no_cached]|].
  eapply rtc_l; [apply (ledger_steps_sys _ _ _ _ _ _ d_pending d_approved); [apply ls_approve|no_cached]|].
  apply rtc_once. exact (sys_env _ _ _ _ _ _ _ _ _ _ _ (env_other _ _ _ {["allowlist_mode" := "approvals"]} ∅ [])).
Qed.

Lemma run1_eq : run_alone (demo_serve 0 50) demo_world =
  (run1.1, Ok (ServedBody (gen_of run1.2) (body_of run1.2) (until_of run1.2))).
Proof. change (run_alone (demo_serve 0 50) demo_world) with run1. apply surjective_pairing_snd, is_body_eq, run1_body. Qed.
Lemma run2_eq : run_alone (demo_serve 0 60) run1.1 =
  (run2.1, Ok (ServedBody (gen_of run2.2) (body_of run2.2) (until_of run2.2))).
Proof. change (run_alone (demo_serve 0 60) run1.1) with run2. apply surjective_pairing_snd, is_body_eq, run2_body. Qed.

(** The system after both calls. *)
Lemma demo_reachable : ∃ s, rtc demo_step sys_init s ∧
  ("h1", ServedBody (gen_of run1.2) (body_of run1.2) (until_of run1.2)) ∈ s_answers s ∧
  ("h1", ServedBody (gen_of run1.2) (body_of run2.2) (until_of run2.2)) ∈ s_answers s.
Proof.
  destruct demo_ready as [tr H0].
  destruct (serve_alone_steps toy_primitives demo_uuid demo_issuer 3600 toy_sha256 toy_cbor sys_init "h1" (Ok []) (λ _, 60000) 0 50
    demo_world tr [] run1.1 _ H0 run1_eq) as [tr1 H1].
  destruct (serve_alone_steps toy_primitives demo_uuid demo_issuer 3600 toy_sha256 toy_cbor sys_init "h1" (Ok []) (λ _, 60000) 0 60
    run1.1 tr1 _ run2.1 _ H1 run2_eq) as [tr2 H2].
  eexists. split; [exact H2|]. cbn [s_answers]. rewrite runs_generation.
  split; [apply list_elem_of_further|]; apply list_elem_of_here.
Qed.

Lemma one_generation_one_entry_set_witness :
  ∃ s s1 s2 doc1 doc2, rtc demo_step sys_init s ∧
    allowlist_decode (body_of run1.2) = Ok s1 ∧ allowlist_decode (body_of run2.2) = Ok s2 ∧
    verify_v2 toy_primitives s1 (public_of toy_primitives toy_sk) = Ok doc1 ∧
    verify_v2 toy_primitives s2 (public_of toy_primitives toy_sk) = Ok doc2 ∧
    entries_digest toy_primitives (dv_entries doc1) = entries_digest toy_primitives (dv_entries doc2).
Proof.
  destruct demo_reachable as (s & Hr & H1 & H2).
  destruct (one_generation_one_entry_set toy_primitives demo_uuid demo_issuer 3600 toy_sha256 toy_cbor s "h1" _ _ _ _ _ Hr H1 H2)
    as (s1 & s2 & doc1 & doc2 & D & D1 & V1 & D2 & V2 & _ & _ & _ & _ & E1 & E2 & _).
  exists s, s1, s2, doc1, doc2. exact (conj Hr (conj D1 (conj D2 (conj V1 (conj V2 (eq_trans E1 (eq_sym E2))))))).
Defined.

Lemma served_body_from_live_approvals_witness :
  ∃ s signed doc w (mode : AllowlistMode) (now : Z), rtc demo_step sys_init s ∧
    allowlist_decode (body_of run1.2) = Ok signed ∧
    verify_v2 toy_primitives signed (public_of toy_primitives toy_sk) = Ok doc ∧ w ∈ s_trace s.
Proof.
  destruct demo_reachable as (s & Hr & H1 & _).
  destruct (served_body_from_live_approvals toy_primitives demo_uuid demo_issuer 3600 toy_sha256 toy_cbor s "h1" _ _ _ Hr H1)
    as (signed & doc & w & mode & now & Hd & Hv & Hw & _).
  exists s, signed, doc, w, mode, now. exact (conj Hr (conj Hd (conj Hv Hw))).
Defined.

Lemma demo_keyed : db_keyed d_approved.
Proof.
  eapply sql_writes_keyed; [|apply empty_keyed]. apply (ledger_steps_sound toy_sha256 toy_cbor).
  eapply rtc_l; [apply ls_observe|]. eapply rtc_l; [apply ls_submit|]. apply rtc_once, ls_approve.
Qed.

(** Host rows of a concrete ledger, all at once. *)
Lemma hosts_check (Q : HostAllowlistStateRow → Prop) `{∀ x, Decision (Q x)} d :
  bool_decide (map_Forall (λ _ x, Q x) (hosts d)) = true → ∀ h x, hosts d !! h = Some x → Q x.
Proof. intros H1%bool_decide_eq_true h x Hx. exact (H1 h x Hx). Qed.

Lemma serve_alone_answers_witness :
  answered (run_alone (serve toy_primitives demo_uuid demo_issuer 3600 (Ok []) (λ _, 60000) "h1" 0 50) demo_world).2.
Proof.
  apply (serve_alone_answers toy_primitives demo_uuid demo_issuer 3600).
  - exact demo_keyed.
  - refine (hosts_check (λ x, 0 ≤ h_generation x) d_approved _). vm_compute. reflexivity.
  - intros x. refine (hosts_check (λ x, h_generation x < 2 ^ 63) d_approved _ "h1" x). vm_compute. reflexivity.
  - reflexivity.
  - reflexivity.
  - intros n. reflexivity.
Defined.

(** ** The agent *)
Definition demo_upper (c : Z) : list Z := [c].
Definition demo_json (s : SyncState) : option (list u8) := Some [].
Definition demo_unjson (b : list u8) : option SyncState := None.
Definition demo_creds : HostCredentials :=
  {| hc_host_uuid := "h1"; hc_trust_domain := "example.org"; hc_svid_expires_at := 100000 |}.
Definition demo_env (envelope : list u8) (g : Z) : TickEnv :=
  {| te_creds := Some demo_creds; te_key_file := Some (Ok (pk_to_concat_bytes toy_primitives toy_pk));
     te_signed := true; te_sync := Ok {| sr_result := Some (SrSignedAllowlistV2 envelope); sr_generation := g |};
     te_get := Ok None; te_body_written := true; te_state_written := true |}.
Definition demo_cfg : SyncConfig := {| cfg_interval := 300; cfg_max_age_secs := 86400 |}.
Definition demo_agent : Agent :=
  sync_start {| if_allowlist := None; if_outcome := LoadMissing; if_held := None |} None None.
Definition demo_caller : CallerFacts :=
  {| cf_uid := 1000; cf_bin_sha := replicate 48 Byte.xaa; cf_exe_path := Some (as_bytes "/opt/tool"); cf_user_sid := None |}.
Abbreviation demo_tick := (tick toy_primitives toy_hex_decode demo_json).
Abbreviation demo_permits := (permits_caller toy_primitives demo_upper Linux).

(** Whether a tick applied a body under which the caller is permitted at [t]. *)
Definition applied_permits (r : Agent * TickOutcome) (caller : CallerFacts) (t : Z) : bool :=
  match r.2, ag_in_force r.1 with Applied _ _, Some al => demo_permits al caller t | _, _ => false end.

Definition tick1 : Agent * TickOutcome :=
  demo_tick demo_cfg (demo_env (body_of run1.2) (gen_of run1.2)) 70 demo_agent.

Lemma tick1_applied : applied_permits tick1 demo_caller 80 = true.
Proof. vm_compute. reflexivity. Qed.

Lemma applied_permits_eq r caller t : applied_permits r caller t = true →
  ∃ g n al, r = (r.1, Applied g n) ∧ ag_in_force r.1 = Some al ∧ demo_permits al caller t = true.
Proof.
  destruct r as [a o]. unfold applied_permits. cbn. destruct o as [g n| | | | | |]; try done.
  destruct (ag_in_force a) as [al|]; [|done]. intros H. by exists g, n, al.
Qed.

Lemma demo_key envelope g : trusted_key toy_primitives (demo_env envelope g) = Some (public_of toy_primitives toy_sk).
Proof.
  unfold trusted_key, demo_env. cbn [te_key_file].
  replace (pk_from_concat_bytes toy_primitives (pk_to_concat_bytes toy_primitives toy_pk))
    with (Ok (E := CompositeError) (public_of toy_primitives toy_sk)); [done|].
  vm_compute. reflexivity.
Qed.

Lemma admitted_caller_was_approved_witness :
  ∃ s creds w, rtc demo_step sys_init s ∧ w ∈ s_trace s ∧
    ((∃ ap t0, approvals (w_db w) !! a_approval_id ap = Some ap ∧ a_host_uuid ap = hc_host_uuid creds ∧
        is_live ap t0 = true ∧
        approval_covers toy_primitives toy_hex_decode demo_upper Linux (hc_host_uuid creds) (w_db w) ap demo_caller 80) ∨
     (∃ stored es e, w_legacy w !! hc_host_uuid creds = Some stored ∧ compile_legacy stored = Ok es ∧ e ∈ es ∧
        v2_admits toy_primitives toy_hex_decode demo_upper Linux (hc_host_uuid creds) e demo_caller 80)).
Proof.
  destruct demo_reachable as (s & Hr & H1 & _).
  destruct (applied_permits_eq _ _ _ tick1_applied) as (g & n & al & Ht & Hf & Hp).
  destruct (admitted_caller_was_approved toy_primitives demo_uuid toy_hex_decode demo_upper Linux toy_hex_roundtrip
    demo_issuer 3600 toy_sha256 toy_cbor demo_json s demo_cfg _ 70 demo_agent _ g n al demo_caller 80
    Hr Ht Hf (demo_key _ _)) as (creds & w & _ & Hw & Hor).
  - exact (served_not_forged toy_primitives demo_uuid demo_issuer 3600 toy_sha256 toy_cbor s "h1" _ _ _ _ _ Hr H1 eq_refl).
  - exact Hp.
  - exists s, creds, w. exact (conj Hr (conj Hw Hor)).
Defined.

Lemma tick1_eq : ∃ n, tick1 = (tick1.1, Applied (gen_of run1.2) n).
Proof.
  destruct (applied_permits_eq _ _ _ tick1_applied) as (g & n & al & Ht & _). exists n.
  rewrite <- (applied_generation toy_primitives toy_hex_decode toy_hex_roundtrip demo_json _ _ _ _ _ _ _ _ _ Ht eq_refl).
  exact Ht.
Qed.

(** ** The agent's theorems *)

(** The agent after the first tick, and a second one with the body of the second call. *)
Definition agent1 : Agent := tick1.1.
Definition env2 : TickEnv := demo_env (body_of run2.2) (gen_of run1.2).

(** Whether the body decodes, verifies and is within its window at [now]. *)
Definition window_ok (b : list u8) (now age : Z) : bool :=
  match allowlist_decode b with
  | Ok signed =>
      match verify_v2 toy_primitives signed (public_of toy_primitives toy_sk) with
      | Ok doc => match check_window (dv_issued_at doc) (dv_not_after doc) now age with Ok _ => true | Err _ => false end
      | Err _ => false
      end
  | Err _ => false
  end.
Lemma window_ok_spec b now age : window_ok b now age = true →
  ∀ signed doc, allowlist_decode b = Ok signed →
    verify_v2 toy_primitives signed (public_of toy_primitives toy_sk) = Ok doc →
    check_window (dv_issued_at doc) (dv_not_after doc) now age = Ok ().
Proof.
  intros H signed doc Hd Hv. unfold window_ok in H. rewrite Hd, Hv in H. by destruct (check_window _ _ _ _) as [[]|].
Qed.
Lemma body2_window : window_ok (body_of run2.2) 90 86400 = true.
Proof. vm_compute. reflexivity. Qed.

Lemma toy_hex_96 y : is_bin_sha y = true → ∃ raw, toy_hex_decode y = Some raw ∧ length raw = 48%nat.
Proof.
  unfold is_bin_sha. intros [Hl Hf]%andb_true_iff. apply (toy_hex_bytes 48); [by apply Nat.eqb_eq in Hl|done].
Qed.

Lemma served_body_is_applied_witness :
  ∃ a' n, demo_tick demo_cfg env2 90 agent1 = (a', Applied (gen_of run1.2) n).
Proof.
  destruct demo_reachable as (s & Hr & H1 & H2). destruct tick1_eq as [n Ht].
  apply (served_body_is_applied toy_primitives demo_uuid toy_hex_decode demo_issuer 3600
    toy_sha256 toy_cbor demo_json s demo_cfg env2 90 agent1 "h1" _ (body_of run2.2) _ demo_creds Hr H2 eq_refl).
  - reflexivity.
  - reflexivity.
  - reflexivity.
  - exact (demo_key _ _).
  - reflexivity.
  - reflexivity.
  - exact (window_ok_spec _ _ _ body2_window).
  - exact toy_hex_96.
  - exact (applied_held toy_primitives demo_uuid demo_issuer 3600 toy_sha256 toy_cbor toy_hex_decode toy_hex_roundtrip demo_json
      s demo_cfg _ 70 demo_agent _ _ n "h1" _ _ _ Hr H1 Ht eq_refl (demo_key _ _)).
Defined.

Lemma in_force_never_rolls_back_witness :
  ∃ a2 o al1 al2, demo_tick demo_cfg env2 90 agent1 = (a2, o) ∧ ag_in_force agent1 = Some al1 ∧ ag_in_force a2 = Some al2 ∧ not_older al1 al2.
Proof.
  destruct tick1_eq as [n Ht]. destruct (demo_tick demo_cfg env2 90 agent1) as [a2 o] eqn:E2.
  destruct (in_force_never_rolls_back toy_primitives toy_hex_decode demo_json toy_hex_roundtrip _ _ _ _ _ _ _ demo_creds agent1 a2 Ht eq_refl
    (rtc_refl _ _)) as (al1 & al2 & g1 & F1 & F2 & _ & _ & Hn).
  - apply rtc_once. refine (ls_tick _ _ _ _ _ demo_cfg env2 90 a2 o _ E2). intros c [= <-]. reflexivity.
  - exists a2, o, al1, al2. exact (conj eq_refl (conj F1 (conj F2 Hn))).
Defined.

(** A tick without an answer keeps everything. *)
Definition dead_env : TickEnv :=
  {| te_creds := Some demo_creds; te_key_file := Some (Ok (pk_to_concat_bytes toy_primitives toy_pk));
     te_signed := true; te_sync := Err {| cs_code := DeadlineExceeded; cs_retry_after := None |};
     te_get := Ok None; te_body_written := true; te_state_written := true |}.
Lemma tick_outcomes_witness :
  in_force_part (demo_tick demo_cfg dead_env 90 demo_agent).1 = in_force_part demo_agent.
Proof.
  exact (tick_outcomes toy_primitives toy_hex_decode demo_json toy_hex_roundtrip demo_cfg dead_env 90 demo_agent
    (demo_tick demo_cfg dead_env 90 demo_agent).1 (Failed None "timeout") eq_refl).
Defined.

(** A body signed for the host, with one entry for its binary and any user. *)
Definition demo_doc (g : Z) (es : list AllowEntryV2) : AllowlistDocV2 :=
  {| dv_format := 2; dv_trust_domain := "example.org"; dv_host_uuid := "h1"; dv_generation := g;
     dv_issued_at := 50; dv_not_after := 500; dv_entries := es |}.
Definition signed_doc (g : Z) (es : list AllowEntryV2) : SignedAllowlist :=
  match sign_v2 toy_primitives (demo_doc g es) toy_sk (Ok []) with Ok s => s | Err _ => {| sa_body := []; sa_signature := [] |} end.
Definition envelope_of (s : SignedAllowlist) : list u8 := match allowlist_encode s with Ok b => b | Err _ => [] end.
Definition entry_body : list u8 := envelope_of (signed_doc 1 [toy_entry Byte.x01 sha_a (Some 1000)]).

Lemma load_there {E A} (r : result E A) : (if r is Ok _ then true else false) = true → ∃ x, r = Ok x.
Proof. destruct r; [by eexists|done]. Qed.

Lemma demo_loads : (if al_load toy_primitives toy_hex_decode entry_body (public_of toy_primitives toy_sk) 70 86400
  is Ok _ then true else false) = true.
Proof. vm_compute. reflexivity. Qed.

Lemma permits_caller_iff_entry_witness :
  ∃ al signed, al_load toy_primitives toy_hex_decode entry_body (public_of toy_primitives toy_sk) 70 86400 = Ok al ∧
    allowlist_decode entry_body = Ok signed ∧
    ((∃ doc, allowlist_verify toy_primitives signed (public_of toy_primitives toy_sk) = Ok doc ∧ ∀ caller now,
        demo_permits al caller now = true ↔
        now ≤ doc_not_after doc ∧ ∃ e, e ∈ doc_entries doc ∧ v1_admits toy_hex_decode e caller) ∨
     (∃ doc, verify_v2 toy_primitives signed (public_of toy_primitives toy_sk) = Ok doc ∧ ∀ caller now,
        demo_permits al caller now = true ↔
        now ≤ dv_not_after doc ∧ ∃ e, e ∈ dv_entries doc ∧
          v2_admits toy_primitives toy_hex_decode demo_upper Linux (dv_host_uuid doc) e caller now)).
Proof.
  generalize demo_loads. generalize entry_body. intros b Hb.
  destruct (load_there (al_load toy_primitives toy_hex_decode b (public_of toy_primitives toy_sk) 70 86400) Hb) as [al Hal].
  destruct (permits_caller_iff_entry toy_primitives toy_hex_decode demo_upper Linux b (public_of toy_primitives toy_sk) 70 86400 al Hal)
    as (signed & Hd & Hor).
  exists al, signed. exact (conj Hal (conj Hd Hor)).
Defined.

(** Files with the served body and the issuer's key. *)
Definition demo_disk : Disk :=
  {| disk_read path := if String.eqb path "body" then Ok entry_body
                       else if String.eqb path "key" then Ok (pk_to_concat_bytes toy_primitives toy_pk) else Err IoNotFound;
     disk_exists path := String.eqb path "body" |}.
Lemma demo_startup :
  (if startup_policy toy_primitives toy_hex_decode demo_disk "body" false (Some "key") 70 86400
   is Ok (Some _, _) then true else false) = true.
Proof. vm_compute. reflexivity. Qed.
Lemma startup_there {E A B} (r : result E (option A * B)) :
  (if r is Ok (Some _, _) then true else false) = true → ∃ x y, r = Ok (Some x, y).
Proof. destruct r as [[[x|] y]|]; [by eexists _, _|done..]. Qed.

Lemma startup_fails_closed_witness :
  ∃ al outcome, startup_policy toy_primitives toy_hex_decode demo_disk "body" false (Some "key") 70 86400 = Ok (Some al, outcome) ∧
    check_window (al_issued_at al) (al_not_after al) 70 86400 = Ok () ∧
    outcome = LoadLoaded (al_entry_count al) (al_not_after al).
Proof.
  generalize demo_startup. generalize demo_disk. intros disk Hs.
  destruct (startup_there (startup_policy toy_primitives toy_hex_decode disk "body" false (Some "key") 70 86400) Hs) as (al & outcome & H).
  destruct (startup_fails_closed toy_primitives toy_hex_decode disk "body" false (Some "key") 70 86400 al outcome (or_introl H))
    as (k & b & kb & tr & _ & _ & _ & _ & _ & Hw & Ho).
  exists al, outcome. exact (conj H (conj Hw Ho)).
Defined.

Lemma check_window_exact_witness :
  check_window 100 200 150 60 = Ok () ↔ 100 - 60 ≤ 150 ≤ 200 ∧ 150 - 100 ≤ 60.
Proof. apply check_window_exact; lia. Defined.

Definition demo_v1 : AllowlistDoc :=
  {| doc_trust_domain := "example.org"; doc_issued_at := 100; doc_not_after := 200;
     doc_entries := [{| e_uid := Some 7; e_bin_sha := "*" |}; {| e_uid := None; e_bin_sha := sha_a |}] |}.
Lemma demo_v1_indexed : (if from_v1 toy_hex_decode demo_v1 150 86400 is Ok al then - 2 ^ 63 <=? al_not_after al else false) = true.
Proof. vm_compute. reflexivity. Qed.
Lemma indexed_there {E A} (r : result E A) (f : A → Z) :
  (if r is Ok x then - 2 ^ 63 <=? f x else false) = true → ∃ x, r = Ok x ∧ - 2 ^ 63 ≤ f x.
Proof. destruct r as [x|]; [|done]. intros ?%Z.leb_le. by exists x. Qed.

Lemma rules_match_permits_witness :
  ∃ al, from_v1 toy_hex_decode demo_v1 150 86400 = Ok al ∧
    (permits toy_primitives demo_upper Linux al 7 (replicate 48 Byte.xaa) = true ↔
     ∃ r, r ∈ rules al ∧ (ar_bin_sha r = None ∨ ar_bin_sha r = Some (replicate 48 Byte.xaa)) ∧ rule_admits (ar_uids r) 7 = true).
Proof.
  generalize demo_v1_indexed. generalize demo_v1. intros doc Hdoc.
  destruct (indexed_there (from_v1 toy_hex_decode doc 150 86400) al_not_after Hdoc) as (al & E & Hna).
  exists al. exact (conj E (rules_match_permits toy_primitives toy_hex_decode demo_upper Linux doc 150 86400 al 7 _ E Hna)).
Defined.

(** ** A restart that lost its state file *)
Definition demo_al (g : Z) : Allowlist :=
  {| al_trust_domain := "example.org"; al_issued_at := 50; al_not_after := 500;
     al_body := BodyV2 {| ix_host_uuid := "h1"; ix_generation := g;
       ix_entries_digest := match entries_digest toy_primitives [] with Ok d => d | Err _ => [] end;
       ix_by_sha := ∅; ix_any_bin := []; ix_entries := [] |} |}.
Lemma restart_can_roll_back_witness :
  let start := load_in_force toy_hex_decode demo_unjson None (Some (Ok (Some (demo_al 2), LoadMissing)))
                 (None, LoadMissing) (Some ("h1", "example.org")) in
  ag_in_force (sync_start start None None) = Some (demo_al 2) ∧
  ∃ a' n, demo_tick demo_cfg (demo_env (envelope_of (signed_doc 1 [])) 1) 70 (sync_start start None None) = (a', Applied 1 n) ∧
    ag_in_force a' = Some (demo_al 1) ∧ al_generation (demo_al 1) = Some 1.
Proof.
  apply (restart_can_roll_back toy_primitives toy_hex_decode toy_hex_roundtrip demo_json demo_unjson None None LoadMissing
    (None, LoadMissing) demo_cfg (demo_env (envelope_of (signed_doc 1 [])) 1) 70 demo_creds
    (public_of toy_primitives toy_sk) 2 (demo_al 2) (envelope_of (signed_doc 1 [])) 1 (signed_doc 1 []) (demo_doc 1 []) (demo_al 1)).
  all: first [reflexivity | exact (demo_key _ _) | vm_compute; reflexivity | idtac].
  intros st. vm_compute. discriminate.
Defined.
