(* ===== verification/HostCache.v ===== *)
(** The per-node guards of host calls (cmis/src/host_auth.rs): the bounded cache of nonces
    and the token buckets, with what they promise over any sequence of calls. *)
From stdpp Require Import gmap sorting.
From S2P Require Import Prelude AppModel Order AllowlistCompile.
Open Scope Z_scope.

Definition MAX_SKEW_SECS : Z := 300.
Definition REPLAY_TTL_SECS : Z := 2 * MAX_SKEW_SECS.

(** ** The replay cache *)
Definition ReplayKey : Type := string * list u8.
Record ReplayCache := {
  rc_order : list (ReplayKey * Z * Z); rc_seen : gset ReplayKey; rc_floor : Z; rc_capacity : nat }.

(** [ReplayCache::new]. *)
Definition replay_new (capacity : nat) : ReplayCache :=
  {| rc_order := []; rc_seen := ∅; rc_floor := - 2 ^ 63; rc_capacity := Nat.max capacity 1 |}.

(** The loop of [prune], on the queue and the set. *)
Fixpoint prune_loop (now : Z) (order : list (ReplayKey * Z * Z)) (seen : gset ReplayKey) :
    list (ReplayKey * Z * Z) * gset ReplayKey :=
  match order with
  | (key, expires_at, i) :: rest =>
      if now <? expires_at then (order, seen) else prune_loop now rest (seen ∖ {[key]})
  | [] => ([], seen)
  end.
Definition replay_prune (now : Z) (c : ReplayCache) : ReplayCache :=
  let '(order, seen) := prune_loop now (rc_order c) (rc_seen c) in
  {| rc_order := order; rc_seen := seen; rc_floor := rc_floor c; rc_capacity := rc_capacity c |}.

(** [ReplayCache::seen]. *)
Definition replay_seen (key : ReplayKey) (issued_at now : Z) (c : ReplayCache) : ReplayCache * bool :=
  let c := replay_prune now c in
  (c, (issued_at <=? rc_floor c) || bool_decide (key ∈ rc_seen c)).

(** The eviction loop of [insert]. *)
Fixpoint evict_loop (capacity : nat) (order : list (ReplayKey * Z * Z)) (seen : gset ReplayKey) (floor : Z) :
    list (ReplayKey * Z * Z) * gset ReplayKey * Z :=
  match order with
  | (old, _, old_issued_at) :: rest =>
      if (capacity <=? length order)%nat
      then evict_loop capacity rest (seen ∖ {[old]}) (Z.max floor old_issued_at)
      else (order, seen, floor)
  | [] => ([], seen, floor)
  end.

(** [ReplayCache::insert]: [false] is a replay. *)
Definition replay_insert (key : ReplayKey) (issued_at now : Z) (c : ReplayCache) : ReplayCache * bool :=
  let c := replay_prune now c in
  if issued_at <=? rc_floor c then (c, false)
  else if bool_decide (key ∈ rc_seen c) then (c, false)
  else
    let '(order, seen, floor) := evict_loop (rc_capacity c) (rc_order c) (rc_seen c) (rc_floor c) in
    ({| rc_order := order ++ [(key, sat_i64 (now + REPLAY_TTL_SECS), issued_at)];
        rc_seen := {[key]} ∪ seen; rc_floor := floor; rc_capacity := rc_capacity c |}, true).

(** A use of the cache, with its clock. *)
Inductive CacheOp :=
  | OpSeen (key : ReplayKey) (issued_at now : Z) | OpInsert (key : ReplayKey) (issued_at now : Z).
Definition op_now (o : CacheOp) : Z := match o with OpSeen _ _ now | OpInsert _ _ now => now end.
Definition cache_op (c : ReplayCache) (o : CacheOp) : ReplayCache :=
  match o with
  | OpSeen key i now => (replay_seen key i now c).1
  | OpInsert key i now => (replay_insert key i now c).1
  end.

(** *** Invariant: the set holds the queue's keys, without repetition, within the capacity *)
Definition entry_key_of (e : ReplayKey * Z * Z) : ReplayKey := e.1.1.
Record cache_ok (c : ReplayCache) : Prop := {
  co_seen : rc_seen c = list_to_set (entry_key_of <$> rc_order c);
  co_nodup : NoDup (entry_key_of <$> rc_order c);
  co_capacity : (1 ≤ rc_capacity c)%nat;
  co_length : (length (rc_order c) ≤ rc_capacity c)%nat }.

Lemma pop_front_seen (e : ReplayKey * Z * Z) (rest : list (ReplayKey * Z * Z)) (seen : gset ReplayKey) :
  seen = list_to_set (entry_key_of <$> e :: rest) → NoDup (entry_key_of <$> e :: rest) →
  seen ∖ {[entry_key_of e]} = list_to_set (entry_key_of <$> rest) ∧ NoDup (entry_key_of <$> rest).
Proof.
  rewrite !fmap_cons, NoDup_cons. intros -> [Hn Hd]. split; [|done]. cbn [list_to_set]. set_solver.
Qed.

(** What pruning removes has expired. *)
Lemma prune_loop_spec now order seen :
  seen = list_to_set (entry_key_of <$> order) → NoDup (entry_key_of <$> order) →
  ∃ gone, order = gone ++ (prune_loop now order seen).1 ∧ (∀ e, e ∈ gone → e.1.2 ≤ now) ∧
    (prune_loop now order seen).2 = list_to_set (entry_key_of <$> (prune_loop now order seen).1) ∧
    NoDup (entry_key_of <$> (prune_loop now order seen).1).
Proof.
  revert seen. induction order as [|[[key x] i] rest IH]; intros seen Hs Hn; cbn [prune_loop].
  - exists []. split_and!; try done. set_solver.
  - destruct (Z.ltb_spec now x).
    + exists []. split_and!; try done. set_solver.
    + destruct (pop_front_seen _ _ _ Hs Hn) as [Hs' Hn'].
      destruct (IH _ Hs' Hn') as (gone & E & Hg & H1 & H2). exists ((key, x, i) :: gone). split_and!; try done.
      * cbn. by f_equal.
      * intros e [->|He]%elem_of_cons; [cbn; lia|by apply Hg].
Qed.

(** What eviction removes is at or below the new floor, and it makes room for one. *)
Lemma evict_loop_spec capacity order seen floor order' seen' floor' :
  (1 ≤ capacity)%nat → seen = list_to_set (entry_key_of <$> order) → NoDup (entry_key_of <$> order) →
  evict_loop capacity order seen floor = (order', seen', floor') →
  ∃ gone, order = gone ++ order' ∧ floor ≤ floor' ∧ (∀ e, e ∈ gone → e.2 ≤ floor') ∧
    seen' = list_to_set (entry_key_of <$> order') ∧ NoDup (entry_key_of <$> order') ∧ (length order' < capacity)%nat.
Proof.
  intros Hc. revert seen floor. induction order as [|[[key x] i] rest IH]; intros seen floor Hs Hn; cbn [evict_loop].
  - intros [= <- <- <-]. exists []. split_and!; try done. set_solver.
  - destruct (Nat.leb_spec capacity (length ((key, x, i) :: rest))).
    + destruct (pop_front_seen _ _ _ Hs Hn) as [Hs' Hn']. intros Hev.
      destruct (IH _ _ Hs' Hn' Hev) as (gone & E & Hf & Hg & H1 & H2 & H3).
      exists ((key, x, i) :: gone). split_and!; try done.
      * cbn. by f_equal.
      * lia.
      * intros e [->|He]%elem_of_cons; [cbn; lia|by apply Hg].
    + intros [= <- <- <-]. exists []. split_and!; try done. set_solver.
Qed.

Lemma replay_new_ok n : cache_ok (replay_new n).
Proof. split; cbn; [done|constructor|lia|lia]. Qed.

Lemma replay_prune_ok now c : cache_ok c → cache_ok (replay_prune now c).
Proof.
  intros [Hs Hn Hc Hl]. unfold replay_prune.
  destruct (prune_loop_spec now _ _ Hs Hn) as (gone & E & _ & H1 & H2).
  destruct (prune_loop now (rc_order c) (rc_seen c)) as [order seen]. cbn in *. split; cbn; try done.
  rewrite E, length_app in Hl. lia.
Qed.

Lemma replay_insert_ok key i now c : cache_ok c → cache_ok (replay_insert key i now c).1.
Proof.
  intros H%(replay_prune_ok now). unfold replay_insert. set (p := replay_prune now c) in *.
  destruct (i <=? rc_floor p); [done|]. case_bool_decide as Hk; [done|].
  destruct (evict_loop (rc_capacity p) (rc_order p) (rc_seen p) (rc_floor p)) as [[order seen] floor] eqn:E.
  destruct H as [Hs Hn Hc Hl].
  destruct (evict_loop_spec _ _ _ _ _ _ _ Hc Hs Hn E) as (gone & Eo & _ & _ & H1 & H2 & H3).
  rewrite Hs, Eo in Hk. cbn [fst]. split; cbn; try done.
  - rewrite H1, fmap_app. cbn. set_solver.
  - rewrite fmap_app. cbn. apply NoDup_app. split_and!; [done| |by apply NoDup_singleton].
    intros k Hin ->%list_elem_of_singleton. apply Hk. set_solver.
  - rewrite length_app. cbn. lia.
Qed.

Lemma cache_op_ok c o : cache_ok c → cache_ok (cache_op c o).
Proof.
  intros H. destruct o; cbn; [by apply replay_prune_ok|by apply replay_insert_ok].
Qed.

(** *** Replays *)

(** An accepted pair is still refused: it is queued, or its time is at the floor. *)
Definition refused_until (c : ReplayCache) (key : ReplayKey) (issued_at x : Z) : Prop :=
  (key, x, issued_at) ∈ rc_order c ∨ issued_at ≤ rc_floor c.

Lemma prune_refused c key i x now : cache_ok c → now < x →
  refused_until c key i x → refused_until (replay_prune now c) key i x.
Proof.
  intros [Hs Hn _ _] Hx [Hin|]; unfold refused_until, replay_prune;
    destruct (prune_loop_spec now _ _ Hs Hn) as (gone & E & Hg & _);
    destruct (prune_loop now (rc_order c) (rc_seen c)) as [order seen]; cbn in *; [|by right].
  left. rewrite E in Hin. apply elem_of_app in Hin as [Hin|]; [|done]. specialize (Hg _ Hin). cbn in Hg. lia.
Qed.

Lemma insert_refused c key i x key' i' now : cache_ok c → now < x →
  refused_until c key i x → refused_until (replay_insert key' i' now c).1 key i x.
Proof.
  intros Hok Hx H. pose proof (replay_prune_ok now c Hok) as [Hs Hn Hc Hl].
  apply (prune_refused _ _ _ _ now) in H; [|done..]. unfold replay_insert. set (p := replay_prune now c) in *.
  destruct (i' <=? rc_floor p); [done|]. case_bool_decide; [done|].
  destruct (evict_loop (rc_capacity p) (rc_order p) (rc_seen p) (rc_floor p)) as [[order seen] floor] eqn:E.
  destruct (evict_loop_spec _ _ _ _ _ _ _ Hc Hs Hn E) as (gone & Eo & Hf & Hg & _).
  destruct H as [Hin|Hin]; unfold refused_until; cbn; [|right; lia].
  rewrite Eo in Hin. apply elem_of_app in Hin as [Hin%Hg|Hin]; [by right|]. left. apply elem_of_app. by left.
Qed.

Lemma op_refused c o key i x : cache_ok c → op_now o < x → refused_until c key i x → refused_until (cache_op c o) key i x.
Proof. destruct o; cbn; intros; [by apply prune_refused|by apply insert_refused]. Qed.

Lemma insert_accepted c key i now c' : cache_ok c →
  replay_insert key i now c = (c', true) → refused_until c' key i (sat_i64 (now + REPLAY_TTL_SECS)).
Proof.
  intros _. unfold replay_insert. set (p := replay_prune now c).
  destruct (i <=? rc_floor p); [done|]. case_bool_decide; [done|].
  destruct (evict_loop _ _ _ _) as [[order seen] floor]. intros [= <-]. left. cbn. apply elem_of_app. right.
  by apply list_elem_of_singleton.
Qed.

Lemma refused_insert c key i x now : cache_ok c → now < x →
  refused_until c key i x → (replay_insert key i now c).2 = false.
Proof.
  intros Hok Hx H. pose proof (replay_prune_ok now c Hok) as [Hs Hn _ _].
  apply (prune_refused _ _ _ _ now) in H; [|done..]. unfold replay_insert. set (p := replay_prune now c) in *.
  destruct (Z.leb_spec i (rc_floor p)); [done|]. case_bool_decide as Hk; [done|]. exfalso.
  destruct H as [Hin|]; [|lia]. apply Hk. rewrite Hs. apply elem_of_list_to_set, list_elem_of_fmap.
  by exists (key, x, i).
Qed.

Lemma run_refused ops c key i x : cache_ok c → (∀ o, o ∈ ops → op_now o < x) →
  refused_until c key i x → cache_ok (foldl cache_op c ops) ∧ refused_until (foldl cache_op c ops) key i x.
Proof.
  revert c. induction ops as [|o ops IH]; intros c Hok Ho H; cbn; [done|].
  apply IH; [by apply cache_op_ok|set_solver|]. apply op_refused; [done| |done]. apply Ho, list_elem_of_here.
Qed.

(** a pair accepted once is accepted again only after some use of the cache had a clock of
    at least the first one plus 600 seconds, whatever other calls, evictions and clocks lie
    in between: overflowing the cache never readmits a document. *)
Theorem replay_needs_expiry c key i t1 c1 ops t2 c3 :
  cache_ok c → replay_insert key i t1 c = (c1, true) →
  replay_insert key i t2 (foldl cache_op c1 ops) = (c3, true) →
  ∃ now, now ∈ t2 :: (op_now <$> ops) ∧ sat_i64 (t1 + REPLAY_TTL_SECS) ≤ now.
Proof.
  intros Hok Hin1 Hin2.
  destruct (decide (Exists (λ now, sat_i64 (t1 + REPLAY_TTL_SECS) ≤ now) (t2 :: (op_now <$> ops)))) as [He|Hno];
    [by apply Exists_exists in He|exfalso].
  assert (∀ now, now ∈ t2 :: (op_now <$> ops) → now < sat_i64 (t1 + REPLAY_TTL_SECS)) as Hlt.
  { intros now Hn. destruct (Z.lt_ge_cases now (sat_i64 (t1 + REPLAY_TTL_SECS))); [done|].
    destruct Hno. apply Exists_exists. by exists now. }
  pose proof (insert_accepted _ _ _ _ _ Hok Hin1) as H1.
  assert (cache_ok c1) as Hok1 by (generalize (replay_insert_ok key i t1 c Hok); by rewrite Hin1).
  destruct (run_refused ops c1 key i (sat_i64 (t1 + REPLAY_TTL_SECS)) Hok1) as [Hok2 H2]; [|done|].
  { intros o Ho. apply Hlt, list_elem_of_further, list_elem_of_fmap. by exists o. }
  pose proof (refused_insert _ _ _ _ t2 Hok2 (Hlt t2 (list_elem_of_here _ _)) H2) as Hf. by rewrite Hin2 in Hf.
Qed.

(** ** The token buckets *)
Record Bucket := { bk_units : Z; bk_last : Z }.
Record HostRateLimiter := {
  rl_capacity : Z; rl_refill_per_sec : Z; rl_cost : Z; rl_buckets : gmap string Bucket }.
Definition MAX_TRACKED_HOSTS : Z := 65536.
Definition sat_u64 (z : Z) : Z := Z.max 0 (Z.min z (2 ^ 64 - 1)).

(** [HostRateLimiter::new], on 32-bit [calls] and [period_secs]. *)
Definition limiter_new (calls period_secs : Z) : HostRateLimiter :=
  let calls := Z.max calls 1 in let period := Z.max period_secs 1 in
  {| rl_capacity := calls * period; rl_refill_per_sec := calls; rl_cost := period; rl_buckets := ∅ |}.
Definition per_minute (per_min : Z) : HostRateLimiter := limiter_new per_min 60.
Definition per_hour (per_hour : Z) : HostRateLimiter := limiter_new per_hour 3600.

Definition refilled (l : HostRateLimiter) (b : Bucket) (now : Z) : Z :=
  let elapsed := Z.max 0 (sat_i64 (now - bk_last b)) in
  Z.min (sat_u64 (bk_units b + sat_u64 (elapsed * rl_refill_per_sec l))) (rl_capacity l).

Definition set_buckets (m : gmap string Bucket) (l : HostRateLimiter) : HostRateLimiter :=
  {| rl_capacity := rl_capacity l; rl_refill_per_sec := rl_refill_per_sec l; rl_cost := rl_cost l; rl_buckets := m |}.

(** [check]: [Err] carries the seconds to wait. *)
Definition limiter_check (host : string) (now : Z) (l : HostRateLimiter) : HostRateLimiter * result Z unit :=
  let buckets :=
    if (MAX_TRACKED_HOSTS <=? Z.of_nat (size (rl_buckets l))) && bool_decide (rl_buckets l !! host = None)
    then filter (λ kb : string * Bucket, refilled l kb.2 now < rl_capacity l) (rl_buckets l)
    else rl_buckets l in
  let b := default {| bk_units := rl_capacity l; bk_last := now |} (buckets !! host) in
  let units := refilled l b now in
  let last := Z.max now (bk_last b) in
  if rl_cost l <=? units
  then (set_buckets (<[host := {| bk_units := units - rl_cost l; bk_last := last |}]> buckets) l, Ok tt)
  else (set_buckets (<[host := {| bk_units := units; bk_last := last |}]> buckets) l,
        Err (Z.max ((rl_cost l - units + rl_refill_per_sec l - 1) / rl_refill_per_sec l) 1)).

(** *** Invariant *)
Record limiter_ok (l : HostRateLimiter) : Prop := {
  lo_refill : 1 ≤ rl_refill_per_sec l; lo_cost : 1 ≤ rl_cost l; lo_capacity : rl_cost l ≤ rl_capacity l < 2 ^ 64;
  lo_buckets : ∀ h b, rl_buckets l !! h = Some b → 0 ≤ bk_units b ≤ rl_capacity l }.

Lemma limiter_new_ok calls period : calls < 2 ^ 32 → period < 2 ^ 32 → limiter_ok (limiter_new calls period).
Proof. intros. unfold limiter_new. split; cbn; [lia|lia|nia|done]. Qed.

(** What a host can spend at [now]. *)
Definition available (l : HostRateLimiter) (host : string) (now : Z) : Z :=
  match rl_buckets l !! host with Some b => refilled l b now | None => rl_capacity l end.

Lemma refilled_range l b now : limiter_ok l → 0 ≤ bk_units b ≤ rl_capacity l → bk_units b ≤ refilled l b now ≤ rl_capacity l.
Proof. intros [H1 H2 H3 _] Hb. unfold refilled, sat_u64. lia. Qed.

(** Refilling is monotone in the clock and no faster than the rate. *)
Lemma refilled_later l b now now' : limiter_ok l → now ≤ now' →
  refilled l b now ≤ refilled l b now' ≤ refilled l b now + (now' - now) * rl_refill_per_sec l.
Proof.
  intros [H1 H2 H3 _] Hle. unfold refilled.
  set (x := Z.max 0 (sat_i64 (now - bk_last b))). set (x' := Z.max 0 (sat_i64 (now' - bk_last b))).
  assert (0 ≤ x ∧ x ≤ x' ∧ x' ≤ x + (now' - now)) as (Hx0 & Hx & Hx') by (unfold x, x', sat_i64; lia).
  assert (0 ≤ x * rl_refill_per_sec l ∧ x * rl_refill_per_sec l ≤ x' * rl_refill_per_sec l ∧
    x' * rl_refill_per_sec l ≤ x * rl_refill_per_sec l + (now' - now) * rl_refill_per_sec l) as (Hy0 & Hy & Hy') by nia.
  unfold sat_u64. lia.
Qed.

Lemma available_later l h now now' : limiter_ok l → now ≤ now' →
  available l h now' ≤ available l h now + (now' - now) * rl_refill_per_sec l.
Proof.
  intros H Hle. unfold available. destruct (rl_buckets l !! h) as [b|]; [by apply refilled_later|].
  destruct H. nia.
Qed.

(** Refilling depends on the limiter's constants only. *)
Lemma refilled_set m l b now : refilled (set_buckets m l) b now = refilled l b now.
Proof. done. Qed.

Lemma refilled_at l u last now : limiter_ok l → 0 ≤ u ≤ rl_capacity l → now ≤ last →
  refilled l {| bk_units := u; bk_last := last |} now = u.
Proof. intros [H1 H2 H3 _] Hu Hle. unfold refilled, sat_u64, sat_i64. cbn [bk_units bk_last]. nia. Qed.

(** The buckets [check] works on, after the idle ones may have been dropped. *)
Lemma swept_lookup l (swept : gmap string Bucket) host now :
  limiter_ok l →
  swept = (if (MAX_TRACKED_HOSTS <=? Z.of_nat (size (rl_buckets l))) && bool_decide (rl_buckets l !! host = None)
    then filter (λ kb : string * Bucket, refilled l kb.2 now < rl_capacity l) (rl_buckets l) else rl_buckets l) →
  swept !! host = rl_buckets l !! host ∧
  ∀ h, swept !! h = rl_buckets l !! h ∨
    (swept !! h = None ∧ ∃ b, rl_buckets l !! h = Some b ∧ rl_capacity l ≤ refilled l b now).
Proof.
  intros Hok ->. destruct (_ <=? _); cbn [andb]; [|by auto].
  case_bool_decide as Hn; [|by auto]. split.
  - by rewrite map_lookup_filter, Hn.
  - intros h. rewrite map_lookup_filter. destruct (rl_buckets l !! h) as [b|]; [|by left]. cbn.
    case_guard as Hg; cbn; [by left|]. right. split; [done|]. exists b. split; [done|]. cbn in Hg. lia.
Qed.

Lemma limiter_check_spec host now l l' r : limiter_ok l → limiter_check host now l = (l', r) →
  limiter_ok l' ∧
  (rl_capacity l' = rl_capacity l ∧ rl_refill_per_sec l' = rl_refill_per_sec l ∧ rl_cost l' = rl_cost l) ∧
  (∀ h now', now ≤ now' → h ≠ host → available l' h now' = available l h now') ∧
  match r with
  | Ok _ => rl_cost l ≤ available l host now ∧ available l' host now = available l host now - rl_cost l
  | Err w => available l host now < rl_cost l ∧ available l' host now = available l host now ∧
      w = Z.max ((rl_cost l - available l host now + rl_refill_per_sec l - 1) / rl_refill_per_sec l) 1
  end.
Proof.
  intros Hok. unfold limiter_check.
  remember (if _ && _ then _ else _) as swept eqn:Hs.
  destruct (swept_lookup l swept host now Hok Hs) as [Hh Ho]. clear Hs. rewrite Hh.
  set (b := default _ (rl_buckets l !! host)).
  assert (0 ≤ bk_units b ≤ rl_capacity l ∧ refilled l b now = available l host now) as [Hb Ha].
  { unfold b, available. destruct (rl_buckets l !! host) as [b'|] eqn:E; cbn [default]; destruct Hok as [H1 H2 H3 H4].
    - split; [by eapply H4|done].
    - cbn [bk_units]. split; [lia|]. apply refilled_at; [by split|lia|lia]. }
  pose proof (refilled_range l b now Hok Hb) as Hr. rewrite Ha in *.
  assert (∀ u h b', 0 ≤ u ≤ rl_capacity l →
    <[host := {| bk_units := u; bk_last := Z.max now (bk_last b) |}]> swept !! h = Some b' → 0 ≤ bk_units b' ≤ rl_capacity l) as Hm.
  { intros u h b' Hu [[-> <-]|[_ Hl]]%lookup_insert_Some; [done|].
    destruct (Ho h) as [E|[E _]]; rewrite E in Hl; [|done]. by eapply lo_buckets. }
  assert (∀ u h now', now ≤ now' → h ≠ host →
    available (set_buckets (<[host := {| bk_units := u; bk_last := Z.max now (bk_last b) |}]> swept) l) h now' = available l h now') as Hav.
  { intros u h now' Hle Hne. unfold available. cbn [rl_buckets set_buckets]. rewrite lookup_insert_ne by done.
    destruct (Ho h) as [->|[-> (b' & E & Hf)]]; [done|]. rewrite E. cbn [rl_capacity set_buckets].
    pose proof (refilled_later l b' now now' Hok Hle). pose proof (refilled_range l b' now' Hok (lo_buckets _ Hok _ _ E)). lia. }
  assert (∀ u, 0 ≤ u ≤ rl_capacity l →
    available (set_buckets (<[host := {| bk_units := u; bk_last := Z.max now (bk_last b) |}]> swept) l) host now = u) as Hself.
  { intros u Hu. unfold available. cbn [rl_buckets set_buckets]. rewrite lookup_insert_eq, refilled_set.
    apply refilled_at; [done|done|lia]. }
  pose proof Hok as [H1 H2 H3 _].
  destruct (Z.leb_spec (rl_cost l) (available l host now)); intros [= <- <-]; (split; [split; [done..|]|split_and!; try done]).
  - intros h b'. apply Hm. lia.
  - by apply Hav.
  - apply Hself. lia.
  - intros h b'. apply Hm. lia.
  - by apply Hav.
  - apply Hself. lia.
Qed.

(** *** The rate *)

(** Calls checked in order, each with its host and clock; how many of one host pass. *)
Fixpoint admitted (h : string) (calls : list (string * Z)) (l : HostRateLimiter) : Z :=
  match calls with
  | [] => 0
  | (host, now) :: rest =>
      let '(l', r) := limiter_check host now l in
      (if bool_decide (host = h) then match r with Ok _ => 1 | Err _ => 0 end else 0) + admitted h rest l'
  end.

Lemma admitted_bound h calls l t0 t1 : limiter_ok l → t0 ≤ t1 →
  Sorted Z.le (t0 :: calls.*2) → Forall (λ c, c.2 ≤ t1) calls →
  admitted h calls l * rl_cost l ≤ available l h t0 + (t1 - t0) * rl_refill_per_sec l.
Proof.
  revert l t0. induction calls as [|[host now] rest IH]; intros l t0 Hok Ht Hsort Hlast; cbn [admitted].
  - assert (0 ≤ available l h t0); [|destruct Hok; nia].
    unfold available. destruct (rl_buckets l !! h) as [b|] eqn:E; [|destruct Hok; lia].
    pose proof (refilled_range l b t0 Hok (lo_buckets _ Hok _ _ E)). pose proof (lo_buckets _ Hok _ _ E). lia.
  - apply Sorted_inv in Hsort as [Hsort Hd]. apply HdRel_inv in Hd. cbn [fmap list_fmap snd] in Hsort, Hd.
    apply Forall_cons in Hlast as [Hn Hlast]. cbn in Hn.
    destruct (limiter_check host now l) as [l' r] eqn:E.
    destruct (limiter_check_spec _ _ _ _ _ Hok E) as (Hok' & (Ec & Er & Eo) & Hother & Hr).
    specialize (IH l' now Hok' Hn Hsort Hlast). rewrite Er, Eo in IH.
    pose proof (available_later l h t0 now Hok Hd) as Hav.
    case_bool_decide as Hh; [subst host|rewrite (Hother h now) in IH by done || lia; lia].
    destruct r; lia.
Qed.

(** no host passes more often than its rate: over any calls of all hosts with a clock that
    does not go back, between [t0] and [t1], at most the burst of [calls] plus [calls] per
    period elapsed are admitted, whatever other hosts do and however often idle buckets are
    dropped. *)
Theorem rate_limit_bound n period h calls t0 t1 :
  1 ≤ n < 2 ^ 32 → 1 ≤ period < 2 ^ 32 → t0 ≤ t1 → Sorted Z.le (t0 :: calls.*2) → Forall (λ c, c.2 ≤ t1) calls →
  admitted h calls (limiter_new n period) * period ≤ n * period + (t1 - t0) * n.
Proof.
  intros Hn Hp Ht Hs Hl.
  pose proof (admitted_bound h calls (limiter_new n period) t0 t1 (limiter_new_ok n period ltac:(lia) ltac:(lia)) Ht Hs Hl) as H.
  unfold limiter_new in H at 2 3 4. unfold available in H. cbn in H. rewrite lookup_empty in H. lia.
Qed.

(** The bucket a refused call leaves. *)
Lemma refused_bucket host now l l' w : limiter_ok l → (∀ b, rl_buckets l !! host = Some b → bk_last b ≤ now) →
  limiter_check host now l = (l', Err w) →
  rl_buckets l' !! host = Some {| bk_units := available l host now; bk_last := now |} ∧ 0 ≤ available l host now.
Proof.
  intros Hok Hlast. unfold limiter_check.
  remember (if _ && _ then _ else _) as swept eqn:Hs.
  destruct (swept_lookup l swept host now Hok Hs) as [Hh _]. clear Hs. rewrite Hh. unfold available.
  destruct (rl_buckets l !! host) as [b|] eqn:Eb; cbn [default].
  - pose proof (refilled_range l b now Hok (lo_buckets _ Hok _ _ Eb)). pose proof (lo_buckets _ Hok _ _ Eb).
    destruct (_ <=? _); [done|]. intros [= <- _]. cbn. rewrite lookup_insert_eq, Z.max_l by auto. split; [done|lia].
  - destruct Hok as [H1 H2 H3 H4]. rewrite refilled_at by (done || lia || by split).
    rewrite (proj2 (Z.leb_le _ _)) by lia. done.
Qed.

(** the wait a refusal announces suffices: with a clock that has not gone back, the host's
    next call after it is admitted. *)
Theorem retry_after_suffices host now l l' w :
  limiter_ok l → (∀ b, rl_buckets l !! host = Some b → bk_last b ≤ now) →
  limiter_check host now l = (l', Err w) → - 2 ^ 62 ≤ now → now + w < 2 ^ 62 →
  1 ≤ w ∧ (limiter_check host (now + w) l').2 = Ok tt.
Proof.
  intros Hok Hlast Hc Hlo Hhi. destruct (limiter_check_spec _ _ _ _ _ Hok Hc) as (Hok' & (Ec & Er & Eo) & _ & Hlt & Hav & ->).
  set (a := available l host now) in *. set (w := Z.max _ 1) in *. split; [lia|].
  destruct (limiter_check host (now + w) l') as [l2 [[]|w2]] eqn:E2; [done|exfalso].
  destruct (limiter_check_spec _ _ _ _ _ Hok' E2) as (_ & _ & _ & Hlt2 & _). clear E2.
  apply refused_bucket in Hc as [Hb Ha]; [|done..]. unfold available in Hlt2. rewrite Hb, Eo in Hlt2. fold a in Hlt2.
  destruct Hok as [H1 H2 H3 _].
  assert (rl_cost l - a ≤ w * rl_refill_per_sec l) as Hw.
  { pose proof (Z.div_mod (rl_cost l - a + rl_refill_per_sec l - 1) (rl_refill_per_sec l) ltac:(lia)).
    pose proof (Z.mod_pos_bound (rl_cost l - a + rl_refill_per_sec l - 1) (rl_refill_per_sec l) ltac:(lia)). nia. }
  unfold refilled, sat_u64, sat_i64 in Hlt2. cbn [bk_units bk_last] in Hlt2. rewrite Er, Ec in Hlt2.
  replace (now + w - now) with w in Hlt2 by lia. nia.
Qed.

(** ** Concrete uses *)
Definition demo_nonce : ReplayKey := ("h1", [Byte.x01]).

Lemma replay_needs_expiry_witness :
  ∃ now, now ∈ [600; 100] ∧ sat_i64 (0 + REPLAY_TTL_SECS) ≤ now.
Proof.
  apply (replay_needs_expiry (replay_new 2) demo_nonce 300 0 (replay_insert demo_nonce 300 0 (replay_new 2)).1
    [OpInsert ("h2", [Byte.x02]) 90 100] 600
    (replay_insert demo_nonce 300 600 (foldl cache_op (replay_insert demo_nonce 300 0 (replay_new 2)).1 [OpInsert ("h2", [Byte.x02]) 90 100])).1).
  - apply replay_new_ok.
  - vm_compute. reflexivity.
  - vm_compute. reflexivity.
Defined.

Lemma rate_limit_bound_witness :
  admitted "h" [("h", 0); ("g", 1); ("h", 1); ("h", 1); ("h", 30)] (limiter_new 2 60) = 3 ∧ 3 * 60 ≤ 2 * 60 + (30 - 0) * 2.
Proof.
  split; [vm_compute; reflexivity|].
  apply (rate_limit_bound 2 60 "h" [("h", 0); ("g", 1); ("h", 1); ("h", 1); ("h", 30)] 0 30); try lia.
  - repeat constructor; cbn; lia.
  - repeat constructor; cbn; lia.
Defined.

Lemma retry_after_suffices_witness :
  ∃ l w, limiter_check "h" 0 (limiter_check "h" 0 (limiter_new 1 30)).1 = (l, Err w) ∧ 1 ≤ w ∧ (limiter_check "h" (0 + w) l).2 = Ok tt.
Proof.
  destruct (limiter_check "h" 0 (limiter_check "h" 0 (limiter_new 1 30)).1) as [l r] eqn:E.
  assert (r = Err 30) as -> by (change r with (l, r).2; rewrite <- E; vm_compute; reflexivity).
  exists l, 30. split; [reflexivity|].
  apply (retry_after_suffices "h" 0 (limiter_check "h" 0 (limiter_new 1 30)).1 l 30).
  - destruct (limiter_check "h" 0 (limiter_new 1 30)) as [l1 r1] eqn:E1.
    exact (proj1 (limiter_check_spec _ _ _ _ _ (limiter_new_ok 1 30 ltac:(lia) ltac:(lia)) E1)).
  - intros b. vm_compute. intros [= <-]. discriminate.
  - exact E.
  - lia.
  - lia.
Defined.
