(* ===== verification/Svid.v ===== *)
(** SVIDs (ferro-svid: claims.rs, envelope.rs, spiffe.rs, jwks.rs, crl.rs, issue.rs,
    lifecycle.rs), the reference verifier (ferro-svid-verify/src/lib.rs) and the revocation
    working set of CMIS (cmis/src/state.rs). *)
From stdpp Require Import gmap.
From S2P Require Import Prelude AppModel AppDedup Order Composite AllowlistV2 AllowlistCompile AppPath MiaAllowlist.
Open Scope Z_scope.

(** ** Claims *)
Definition SVID_ALG : string := COMPOSITE_JOSE_ALG.
Definition SVID_TYP : string := "ferrogate-svid+jwt".
Definition SVID_SIGNING_CONTEXT : list u8 := as_bytes "ferrogate-svid-v1".
Definition MAX_TTL_SECS : Z := 30 * 24 * 3600.
Definition NBF_LOOKBACK_SECS : Z := 60.

Record AttestClaims := {
  at_ek_cert_sha384 : string; at_pcr_digest_sha384 : string; at_policy_id : string; at_tee_evidence_id : option string }.
(** [cnf] holds the one member [jkt]. *)
Record SvidClaims := {
  cl_iss : string; cl_sub : string; cl_iat : Z; cl_nbf : Z; cl_exp : Z; cl_cnf_jkt : string; cl_attest : AttestClaims }.
Record JwsHeader := { jh_alg : string; jh_typ : string; jh_kid : string }.
#[export] Instance AttestClaims_eq_dec : EqDecision AttestClaims.
Proof. solve_decision. Defined.
#[export] Instance SvidClaims_eq_dec : EqDecision SvidClaims.
Proof. solve_decision. Defined.
#[export] Instance JwsHeader_eq_dec : EqDecision JwsHeader.
Proof. solve_decision. Defined.

(** [JwsHeader::new]. *)
Definition jws_header (kid : string) : JwsHeader := {| jh_alg := SVID_ALG; jh_typ := SVID_TYP; jh_kid := kid |}.

(** ** Revocation lists *)
Definition CRL_SIGNING_CONTEXT : list u8 := as_bytes "ferrogate-crl-v1".
Definition CRL_MAX_AGE_SECS : Z := 300.
Definition CRL_ENTRY_TTL_SECS : Z := MAX_TTL_SECS.

Inductive RevocationTarget := RtSvid (cert_sha : string) | RtHost (spiffe_id : string).
#[export] Instance RevocationTarget_eq_dec : EqDecision RevocationTarget.
Proof. solve_decision. Defined.
Record CrlEntry := { ce_target : RevocationTarget; ce_reason : string; ce_revoked_at : Z; ce_expires_at : Z }.
#[export] Instance CrlEntry_eq_dec : EqDecision CrlEntry.
Proof. solve_decision. Defined.
Definition crl_entry_new (target : RevocationTarget) (reason : string) (now : Z) : CrlEntry :=
  {| ce_target := target; ce_reason := reason; ce_revoked_at := now; ce_expires_at := sat_i64 (now + CRL_ENTRY_TTL_SECS) |}.

Record CrlBody := { cb_issued_at : Z; cb_number : Z; cb_entries : list CrlEntry }.
#[export] Instance CrlBody_eq_dec : EqDecision CrlBody.
Proof. solve_decision. Defined.
Definition crl_age (b : CrlBody) (now : Z) : Z := wrap_i64 (now - cb_issued_at b).
Definition is_fresh (b : CrlBody) (now leeway_secs : Z) : bool :=
  let age := crl_age b now in (age <=? CRL_MAX_AGE_SECS) && (wrap_i64 (- leeway_secs) <=? age).

(** [eq_ignore_ascii_case]. *)
Definition eq_ignore_case (a b : string) : bool := String.eqb (to_ascii_uppercase a) (to_ascii_uppercase b).
Definition names_svid (cert_sha : string) (e : CrlEntry) : bool :=
  match ce_target e with RtSvid s => eq_ignore_case s cert_sha | RtHost _ => false end.
Definition names_host (spiffe_id : string) (e : CrlEntry) : bool :=
  match ce_target e with RtHost s => String.eqb s spiffe_id | RtSvid _ => false end.
Definition revokes_svid (b : CrlBody) (cert_sha_hex : string) : bool := existsb (names_svid cert_sha_hex) (cb_entries b).
Definition revokes_host (b : CrlBody) (spiffe_id : string) : bool := existsb (names_host spiffe_id) (cb_entries b).

Record SignedCrl := { sc_body : CrlBody; sc_signer_kid : string; sc_signature_b64 : string }.
Inductive CrlError :=
  | CrlJson (e : string) | CrlSign (e : CompositeError) | CrlUnknownKid (kid : string) | CrlBadKey (e : string)
  | CrlBadSignature (e : string).

(** ** Keys *)
Definition COMPOSITE_KTY : string := "FERROGATE-COMPOSITE".
Record Jwk := {
  jwk_kty : string; jwk_alg : string; jwk_kid : string; jwk_use : string; jwk_public : string; jwk_created : option Z }.
Record JwkSet := { js_keys : list Jwk; js_crl : option SignedCrl; js_x509_bundle : option string }.

(** [JwkSet::find]. *)
Definition jwk_find (s : JwkSet) (kid : string) : option Jwk := List.find (λ k, String.eqb (jwk_kid k) kid) (js_keys s).
Definition jwks_single (k : Jwk) : JwkSet := {| js_keys := [k]; js_crl := None; js_x509_bundle := None |}.

(** [preferred]: the greatest creation time, the first on ties. *)
Definition created_at (k : Jwk) : Z := default (- 2 ^ 63) (jwk_created k).
Definition preferred (s : JwkSet) : option Jwk :=
  foldl (λ best k, match best with
                   | Some b => if created_at b <? created_at k then Some k else Some b
                   | None => Some k
                   end) None (js_keys s).

(** ** JSON *)
Class Json (A : Type) := { to_vec : A → result string (list u8); from_slice : list u8 → result string A }.
Class JsonLaws (A : Type) `{Json A} := from_to (a : A) b : to_vec a = Ok b → from_slice b = Ok a.
Class SvidJson := { header_json :: Json JwsHeader; claims_json :: Json SvidClaims; crl_json :: Json CrlBody }.
Class SvidJsonLaws `{SvidJson} := {
  header_json_laws :: JsonLaws JwsHeader; claims_json_laws :: JsonLaws SvidClaims; crl_json_laws :: JsonLaws CrlBody }.

Inductive EnvelopeError := EnvJson (e : string) | EnvSegments (n : nat) | EnvBase64.
Record DecodedJws := { dj_header : JwsHeader; dj_claims : SvidClaims; dj_signing_input : string; dj_signature : list u8 }.

Inductive SpiffeError := InvalidTrustDomain (td : string).
Inductive IssueError :=
  | IssueSpiffe (e : SpiffeError) | IssueEnvelope (e : EnvelopeError) | IssueComposite (e : CompositeError)
  | IssueCrl (e : CrlError) | IssueX509 (e : string).
Record IssueParams := {
  ip_ek_cert_sha384 : list u8; ip_pcr_digest : list u8; ip_policy_id : string; ip_dpop_jkt : string;
  ip_ttl_secs : Z; ip_tee_evidence_id : option string; ip_subject_pub : option (list u8) }.
Record IssuedSvid := {
  is_jws : string; is_x509 : option (list u8); is_spiffe_id : string; is_iat : Z; is_exp : Z }.

Definition dot : u8 := Byte.x2e.
(** [jws.split('.')]. *)
Definition segments (jws : string) : list string :=
  bytes_string <$> split_on (λ b, bool_decide (b = dot)) (as_bytes jws).

(** [check_trust_domain]. *)
Definition check_trust_domain (td : string) : result SpiffeError unit :=
  if String.eqb td "" || bool_decide (slash ∈ as_bytes td) || bool_decide (Byte.x3a ∈ as_bytes td)
  then Err (InvalidTrustDomain td) else Ok tt.

(** [uuid::Builder::from_custom_bytes]: version 8 and the RFC 4122 variant. *)
Definition host_uuid_from_ek_digest (digest : list u8) : list u8 :=
  let b := take 16 digest in
  let b6 := u8.of_Z (Z.lor (Z.land (u8.to_Z (nth 6 b Byte.x00)) 15) 128) in
  let b8 := u8.of_Z (Z.lor (Z.land (u8.to_Z (nth 8 b Byte.x00)) 63) 128) in
  <[8%nat := b8]> (<[6%nat := b6]> b).

Section Svid.
Context (P : Primitives) `{SJ : !SvidJson}.
Local Abbreviation PublicKey := (CompositePublicKey (EdVk P) (MlPk P)).
Local Abbreviation SecretKey := (CompositeSecretKey (EdSk P) (MlSk P)).
(** The certificate profile (x509.rs), over the leaf's key, subject and window. *)
Context (issue_leaf : list u8 → string → Z → Z → result string (list u8)).

(** [Uuid]'s display. *)
Definition uuid_text (b : list u8) : string :=
  hex_encode P (take 4 b) +:+ "-" +:+ hex_encode P (take 2 (drop 4 b)) +:+ "-" +:+ hex_encode P (take 2 (drop 6 b))
  +:+ "-" +:+ hex_encode P (take 2 (drop 8 b)) +:+ "-" +:+ hex_encode P (drop 10 b).

Definition spiffe_issuer_id (td : string) : result SpiffeError string :=
  let? _ := check_trust_domain td in Ok ("spiffe://" +:+ td +:+ "/cmis").
Definition spiffe_host_id (td : string) (digest : list u8) : result SpiffeError string :=
  let? _ := check_trust_domain td in
  Ok ("spiffe://" +:+ td +:+ "/host/" +:+ uuid_text (host_uuid_from_ek_digest digest)).

(** *** The compact form *)
Definition jws_signing_input (h : JwsHeader) (c : SvidClaims) : result EnvelopeError string :=
  let? hb := map_err EnvJson (to_vec h) in
  let? pb := map_err EnvJson (to_vec c) in
  Ok (b64url_encode P hb +:+ "." +:+ b64url_encode P pb).

Definition compact (signing_input : string) (signature_concat : list u8) : string :=
  signing_input +:+ "." +:+ b64url_encode P signature_concat.

(** A segment's bytes. *)
Definition b64_segment (s : string) : result EnvelopeError (list u8) :=
  match b64url_decode P s with Some b => Ok b | None => Err EnvBase64 end.

Definition jws_decode (jws : string) : result EnvelopeError DecodedJws :=
  match segments jws with
  | [p0; p1; p2] =>
      let? hb := b64_segment p0 in
      let? pb := b64_segment p1 in
      let? signature := b64_segment p2 in
      let? header := map_err EnvJson (from_slice hb) in
      let? claims := map_err EnvJson (from_slice pb) in
      Ok {| dj_header := header; dj_claims := claims; dj_signing_input := p0 +:+ "." +:+ p1; dj_signature := signature |}
  | parts => Err (EnvSegments (length parts))
  end.

(** *** Keys *)
Definition child_signing_kid (pk : PublicKey) : string :=
  "host-" +:+ hex_encode P (take 8 (vec_to_list (sha256 P (pk_to_concat_bytes P pk)))).
Definition jwk_from_public_key (kid : string) (pk : PublicKey) : Jwk :=
  {| jwk_kty := COMPOSITE_KTY; jwk_alg := SVID_ALG; jwk_kid := kid; jwk_use := "sig";
     jwk_public := b64url_encode P (pk_to_concat_bytes P pk); jwk_created := None |}.
Definition jwk_to_public_key (k : Jwk) : result string PublicKey :=
  match b64url_decode P (jwk_public k) with
  | Some bytes => map_err (λ _, "jwk pub") (pk_from_concat_bytes P bytes)
  | None => Err "jwk pub base64url"
  end.

(** *** Revocation lists *)
Definition crl_sign (body : CrlBody) (kid : string) (sk : SecretKey) (rng : result string (list u8)) : result CrlError SignedCrl :=
  let? bytes := map_err CrlJson (to_vec body) in
  let? sig := map_err CrlSign (composite_sign P sk rng CRL_SIGNING_CONTEXT bytes) in
  Ok {| sc_body := body; sc_signer_kid := kid; sc_signature_b64 := b64url_encode P (sig_to_concat_bytes sig) |}.

Definition crl_verify (c : SignedCrl) (jwks : JwkSet) : result CrlError CrlBody :=
  match jwk_find jwks (sc_signer_kid c) with
  | None => Err (CrlUnknownKid (sc_signer_kid c))
  | Some jwk =>
      let? pk := map_err CrlBadKey (jwk_to_public_key jwk) in
      match b64url_decode P (sc_signature_b64 c) with
      | None => Err (CrlBadSignature "base64url")
      | Some sig_bytes =>
          let? sig := map_err (λ _, CrlBadSignature "length") (sig_from_concat_bytes sig_bytes) in
          let? payload := map_err CrlJson (to_vec (sc_body c)) in
          let? _ := map_err (λ _, CrlBadSignature "verify") (composite_verify P pk CRL_SIGNING_CONTEXT payload sig) in
          Ok (sc_body c)
      end
  end.

(** *** Issuance *)
Definition host_spiffe_id (i : Issuer P) (digest : list u8) : result SpiffeError string :=
  spiffe_host_id (iss_trust_domain P i) digest.

(** The claims [issue] stamps. *)
Definition issued_claims (iss sub : string) (params : IssueParams) (now : Z) : SvidClaims :=
  let ttl := Z.min (ip_ttl_secs params) MAX_TTL_SECS in
  {| cl_iss := iss; cl_sub := sub; cl_iat := now; cl_nbf := wrap_i64 (now - NBF_LOOKBACK_SECS); cl_exp := wrap_i64 (now + ttl);
     cl_cnf_jkt := ip_dpop_jkt params;
     cl_attest := {| at_ek_cert_sha384 := hex_encode P (ip_ek_cert_sha384 params);
                     at_pcr_digest_sha384 := hex_encode P (ip_pcr_digest params);
                     at_policy_id := ip_policy_id params; at_tee_evidence_id := ip_tee_evidence_id params |} |}.

Definition issue (i : Issuer P) (rng : result string (list u8)) (params : IssueParams) (now : Z) : result IssueError IssuedSvid :=
  let? sub := map_err IssueSpiffe (host_spiffe_id i (ip_ek_cert_sha384 params)) in
  let? iss := map_err IssueSpiffe (spiffe_issuer_id (iss_trust_domain P i)) in
  let claims := issued_claims iss sub params now in
  let? input := map_err IssueEnvelope (jws_signing_input (jws_header (iss_kid P i)) claims) in
  let? sig := map_err IssueComposite (composite_sign P (iss_secret P i) rng SVID_SIGNING_CONTEXT (as_bytes input)) in
  let jws := compact input (sig_to_concat_bytes sig) in
  let? x509 := match ip_subject_pub params with
    | Some bytes =>
        let? _ := map_err IssueComposite (pk_from_concat_bytes P bytes) in
        let? leaf := map_err IssueX509 (issue_leaf bytes sub (cl_nbf claims) (cl_exp claims)) in Ok (Some leaf)
    | None => Ok None
    end in
  Ok {| is_jws := jws; is_x509 := x509; is_spiffe_id := sub; is_iat := now; is_exp := cl_exp claims |}.

(** [Issuer::sign_crl]. *)
Definition issuer_sign_crl (i : Issuer P) (rng : result string (list u8)) (body : CrlBody) : result IssueError SignedCrl :=
  map_err IssueCrl (crl_sign body (iss_kid P i) (iss_secret P i) rng).

(** *** The reference verifier (ferro-svid-verify) *)
Inductive VerifyError :=
  | Malformed | UnexpectedHeader | UnknownKid (kid : string) | BadSignature | NotYetValid | Expired | CrlStale
  | CrlInvalid | RevokedSvid.
Record Verified := { vd_claims : SvidClaims; vd_kid : string }.

(** [decode_json]. *)
Definition decode_json {A} `{Json A} (segment : string) : result VerifyError A :=
  match b64url_decode P segment with
  | Some bytes => map_err (λ _, Malformed) (from_slice bytes)
  | None => Err Malformed
  end.

Definition svid_verify (jws : string) (jwks : JwkSet) (now leeway_secs : Z) : result VerifyError Verified :=
  match segments jws with
  | [p0; p1; p2] =>
      let? header := decode_json (A := JwsHeader) p0 in
      if negb (String.eqb (jh_alg header) SVID_ALG) then Err UnexpectedHeader else
      if negb (String.eqb (jh_typ header) SVID_TYP) then Err UnexpectedHeader else
      match jwk_find jwks (jh_kid header) with
      | None => Err (UnknownKid (jh_kid header))
      | Some jwk =>
          if negb (String.eqb (jwk_kty jwk) COMPOSITE_KTY) then Err UnexpectedHeader else
          let? pk := map_err (λ _, Malformed) (jwk_to_public_key jwk) in
          match b64url_decode P p2 with
          | None => Err Malformed
          | Some sig_bytes =>
              let? sig := map_err (λ _, BadSignature) (sig_from_concat_bytes sig_bytes) in
              let? _ := map_err (λ _, BadSignature)
                          (composite_verify P pk SVID_SIGNING_CONTEXT (as_bytes (p0 +:+ "." +:+ p1)) sig) in
              let? claims := decode_json (A := SvidClaims) p1 in
              if wrap_i64 (now + leeway_secs) <? cl_nbf claims then Err NotYetValid else
              if cl_exp claims <=? wrap_i64 (now - leeway_secs) then Err Expired else
              Ok {| vd_claims := claims; vd_kid := jh_kid header |}
          end
      end
  | _ => Err Malformed
  end.

(** [SignedCrl::verify] of the verifier, whose errors are its own. *)
Definition crl_verify_error (e : CrlError) : VerifyError := match e with CrlBadKey _ => Malformed | _ => CrlInvalid end.

(** The digest that names an SVID in a list. *)
Definition svid_cert_sha (jws : string) : string := hex_encode P (vec_to_list (sha384 P (as_bytes jws))).

Definition verify_unrevoked (jws : string) (jwks : JwkSet) (now leeway_secs : Z) : result VerifyError Verified :=
  let? verified := svid_verify jws jwks now leeway_secs in
  match js_crl jwks with
  | None => Err CrlStale
  | Some signed =>
      let? body := map_err crl_verify_error (crl_verify signed jwks) in
      if negb (is_fresh body now leeway_secs) then Err CrlStale else
      if revokes_svid body (svid_cert_sha jws) || revokes_host body (cl_sub (vd_claims verified)) then Err RevokedSvid else
      Ok verified
  end.
End Svid.

(** ** The revocation working set (cmis/src/state.rs) *)
(** The number is a u64, one more for each publication: it is never near 2^64. *)
Record Revocations := { rv_entries : list CrlEntry; rv_number : Z }.

(** Replace the first entry of the same target, or append. *)
Fixpoint replace_or_push (entry : CrlEntry) (es : list CrlEntry) : list CrlEntry :=
  match es with
  | [] => [entry]
  | e :: es => if bool_decide (ce_target e = ce_target entry) then entry :: es else e :: replace_or_push entry es
  end.
Definition revoke_target (target : RevocationTarget) (reason : string) (now : Z) (r : Revocations) : Revocations :=
  {| rv_entries := replace_or_push (crl_entry_new target reason now) (rv_entries r); rv_number := rv_number r |}.

Definition push_missing (reason : string) (now : Z) (es : list CrlEntry) (cert_sha : string) : list CrlEntry :=
  if existsb (λ e, bool_decide (ce_target e = RtSvid cert_sha)) es then es
  else es ++ [crl_entry_new (RtSvid cert_sha) reason now].
Definition unrevoke_host (spiffe_id : string) (keep_revoked : list string) (now : Z) (r : Revocations) : Revocations * bool :=
  match List.find (names_host spiffe_id) (rv_entries r) with
  | None => (r, false)
  | Some host =>
      let es := foldl (push_missing (ce_reason host) now) (rv_entries r) keep_revoked in
      ({| rv_entries := List.filter (λ e, negb (names_host spiffe_id e)) es; rv_number := rv_number r |}, true)
  end.

Definition is_host_revoked (r : Revocations) (spiffe_id : string) : bool := existsb (names_host spiffe_id) (rv_entries r).
Definition is_revoked (r : Revocations) (spiffe_id cert_sha : string) : bool :=
  existsb (λ e, names_host spiffe_id e || names_svid cert_sha e) (rv_entries r).

(** The first critical section of [publish_crl]: the entries are pruned and numbered, and the
    list to sign is taken from them.  Its signature is stored in another one, by
    [publish_crl_flow] of CmisService.v. *)
Definition take_crl (now : Z) (r : Revocations) : Revocations * CrlBody :=
  let r := {| rv_entries := List.filter (λ e, now <? ce_expires_at e) (rv_entries r); rv_number := rv_number r + 1 |} in
  (r, {| cb_issued_at := now; cb_number := rv_number r; cb_entries := rv_entries r |}).

(** ** Renewal (lifecycle.rs) *)
Definition REATTEST_WINDOW_SECS : Z := 24 * 3600.
Inductive ReattestReason := WindowExpired | PcrDrift | EpochBump.
Inductive RenewalDecision := ShortPath | FullReattest (r : ReattestReason).
Record LastAttestation := { la_at : Z; la_pcr_digest : list u8; la_policy_epoch : Z }.
Definition decide_renewal (last : LastAttestation) (now : Z) (current_pcr_digest : list u8) (current_epoch : Z) : RenewalDecision :=
  if negb (current_epoch =? la_policy_epoch last) then FullReattest EpochBump
  else if negb (bool_decide (current_pcr_digest = la_pcr_digest last)) then FullReattest PcrDrift
  else if REATTEST_WINDOW_SECS <? sat_i64 (now - la_at last) then FullReattest WindowExpired
  else ShortPath.

(** ** Strings *)
Lemma as_bytes_app a b : as_bytes (a +:+ b) = as_bytes a ++ as_bytes b.
Proof.
  unfold as_bytes. rewrite <- fmap_app. f_equal. induction a as [|x a IH]; cbn; [done|]. by rewrite <- IH.
Qed.
Lemma bytes_string_bytes s : bytes_string (as_bytes s) = s.
Proof. apply as_bytes_inj, as_bytes_string. Qed.

Lemma split_on_none sep l : (∀ b, b ∈ l → sep b = false) → split_on sep l = [l].
Proof.
  induction l as [|b l IH]; intros H; cbn; [done|]. rewrite (H b) by apply list_elem_of_here.
  rewrite IH; [done|]. intros c Hc. apply H. by apply list_elem_of_further.
Qed.
Lemma split_on_app sep l x r : (∀ b, b ∈ l → sep b = false) → sep x = true →
  split_on sep (l ++ x :: r) = l :: split_on sep r.
Proof.
  intros H Hx. induction l as [|b l IH]; cbn; [by rewrite Hx|]. rewrite (H b) by apply list_elem_of_here.
  rewrite IH; [done|]. intros c Hc. apply H. by apply list_elem_of_further.
Qed.

Lemma not_dot (l : list u8) : dot ∉ l → ∀ b, b ∈ l → bool_decide (b = dot) = false.
Proof. intros H b Hb. apply bool_decide_eq_false. by intros ->. Qed.

(** Three segments without dots, joined. *)
Lemma segments_join a b c : dot ∉ as_bytes a → dot ∉ as_bytes b → dot ∉ as_bytes c →
  segments ((a +:+ "." +:+ b) +:+ "." +:+ c) = [a; b; c].
Proof.
  intros Ha Hb Hc. unfold segments. rewrite !as_bytes_app. change (as_bytes ".") with [dot]. rewrite <- !app_assoc. cbn [app].
  rewrite (split_on_app _ (as_bytes a) dot) by (done || by apply not_dot).
  rewrite (split_on_app _ (as_bytes b) dot) by (done || by apply not_dot).
  rewrite split_on_none by (by apply not_dot). cbn. by rewrite !bytes_string_bytes.
Qed.

(** The three parts of a token are joined the way they were split. *)
Lemma segments_split jws a b c : segments jws = [a; b; c] → jws = (a +:+ "." +:+ b) +:+ "." +:+ c.
Proof.
  assert (∀ l, split_on (λ b, bool_decide (b = dot)) l ≠ []) as Hne.
  { intros [|x l]; cbn; [done|]. destruct (bool_decide _); [done|]. by destruct (split_on _ l). }
  assert (∀ l c cs, split_on (λ b, bool_decide (b = dot)) l = c :: cs →
    match cs with [] => l = c | _ => ∃ r, l = c ++ dot :: r ∧ split_on (λ b, bool_decide (b = dot)) r = cs end) as Hj.
  { induction l as [|x l IH]; cbn; intros d ds; [intros [= <- <-]; done|]. case_bool_decide as Hx.
    - intros [= <- <-]. subst x. destruct (split_on _ l) as [|e es] eqn:E; [by destruct (Hne l)|]. by exists l.
    - destruct (split_on _ l) as [|e es] eqn:E; [by destruct (Hne l)|]. intros [= <- <-].
      specialize (IH e es eq_refl). destruct es as [|e' es]; [by subst|]. destruct IH as (r & -> & Hr). by exists r. }
  unfold segments. intros H. destruct (split_on _ (as_bytes jws)) as [|x [|y [|z [|]]]] eqn:E; try done.
  cbn in H. injection H as <- <- <-. apply Hj in E as (r & E & Er). apply Hj in Er as (r2 & -> & Er). apply Hj in Er as ->.
  apply as_bytes_inj. rewrite E, !as_bytes_app, !as_bytes_string. change (as_bytes ".") with [dot]. by rewrite <- !app_assoc.
Qed.

(** ** Lemmas *)
Section SvidLemmas.
Context (P : Primitives) `{SJ : !SvidJson, SJL : !SvidJsonLaws, PL : !PrimitiveLaws P}.
Context (issue_leaf : list u8 → string → Z → Z → result string (list u8)).

Lemma jwk_round_trip kid pk : jwk_to_public_key P (jwk_from_public_key P kid pk) = Ok pk.
Proof.
  unfold jwk_to_public_key, jwk_from_public_key. cbn [jwk_public]. by rewrite b64url_round_trip, pk_concat_round_trip.
Qed.

(** What a successful issuance is made of. *)
Lemma issue_ok i rng params now s : issue P issue_leaf i rng params now = Ok s →
  ∃ iss hb pb sig,
    let claims := issued_claims P iss (is_spiffe_id s) params now in
    spiffe_host_id P (iss_trust_domain P i) (ip_ek_cert_sha384 params) = Ok (is_spiffe_id s) ∧
    spiffe_issuer_id (iss_trust_domain P i) = Ok iss ∧
    to_vec (jws_header (iss_kid P i)) = Ok hb ∧ to_vec claims = Ok pb ∧
    composite_sign P (iss_secret P i) rng SVID_SIGNING_CONTEXT (as_bytes (b64url_encode P hb +:+ "." +:+ b64url_encode P pb)) = Ok sig ∧
    is_jws s = compact P (b64url_encode P hb +:+ "." +:+ b64url_encode P pb) (sig_to_concat_bytes sig) ∧
    is_iat s = now ∧ is_exp s = cl_exp claims.
Proof.
  unfold issue, jws_signing_input. intros H. inv_ok H. injection H as <-. cbn [is_spiffe_id is_jws is_iat is_exp].
  repeat match goal with E : map_err _ _ = Ok _ |- _ => apply map_err_ok in E end.
  repeat match goal with E : (let? _ := _ in _) = Ok _ |- _ => inv_ok E; try injection E as <- end.
  repeat match goal with E : map_err _ _ = Ok _ |- _ => apply map_err_ok in E end.
  by eexists _, _, _, _.
Qed.

(** An issued token decodes to its claims, and its signature is the issuer's. *)
Lemma issued_decodes i rng params now s : issue P issue_leaf i rng params now = Ok s →
  ∃ iss input sig, let claims := issued_claims P iss (is_spiffe_id s) params now in
    jws_decode P (is_jws s) = Ok {| dj_header := jws_header (iss_kid P i); dj_claims := claims;
      dj_signing_input := input; dj_signature := sig_to_concat_bytes sig |} ∧
    is_exp s = cl_exp claims ∧
    composite_verify P (public_of P (iss_secret P i)) SVID_SIGNING_CONTEXT (as_bytes input) sig = Ok () ∧
    sig_from_concat_bytes (sig_to_concat_bytes sig) = Ok sig.
Proof using SJL PL.
  intros (iss & hb & pb & sig & _ & _ & Hh & Hp & [Hv Hs]%composite_sign_spec & Hj & _ & He)%issue_ok; [|done].
  exists iss, (b64url_encode P hb +:+ "." +:+ b64url_encode P pb), sig. split_and!; try done.
  unfold jws_decode, b64_segment. rewrite Hj. unfold compact. rewrite segments_join by apply b64url_no_dot.
  rewrite !b64url_round_trip. cbn [map_err]. by rewrite (from_to _ _ Hh), (from_to _ _ Hp).
Qed.

(** The verifier on a token that decodes, with its key published. *)
Lemma svid_verify_decoded jws d jwks jwk pk sig now leeway :
  jws_decode P jws = Ok d → dj_header d = jws_header (jh_kid (dj_header d)) →
  jwk_find jwks (jh_kid (dj_header d)) = Some jwk → jwk_kty jwk = COMPOSITE_KTY → jwk_to_public_key P jwk = Ok pk →
  sig_from_concat_bytes (dj_signature d) = Ok sig →
  composite_verify P pk SVID_SIGNING_CONTEXT (as_bytes (dj_signing_input d)) sig = Ok () →
  svid_verify P jws jwks now leeway =
    if wrap_i64 (now + leeway) <? cl_nbf (dj_claims d) then Err NotYetValid else
    if cl_exp (dj_claims d) <=? wrap_i64 (now - leeway) then Err Expired else
    Ok {| vd_claims := dj_claims d; vd_kid := jh_kid (dj_header d) |}.
Proof.
  clear SJL PL. unfold jws_decode, svid_verify, decode_json, b64_segment.
  destruct (segments jws) as [|p0 [|p1 [|p2 [|]]]]; try done.
  destruct (b64url_decode P p0) as [hb|]; [|done]. destruct (b64url_decode P p1) as [pb|]; [|done].
  destruct (b64url_decode P p2) as [sb|]; [|done]. cbn [map_err].
  destruct (from_slice hb) as [h|]; [|done]. destruct (from_slice pb) as [c|]; [|done]. cbn [map_err].
  intros [= <-] Hh Hf Hk Hp Hs Hv. cbn [dj_header dj_claims dj_signing_input dj_signature] in *.
  rewrite Hh. cbn [jws_header jh_alg jh_typ jh_kid]. rewrite !String.eqb_refl. cbn [negb]. rewrite Hf, Hk, String.eqb_refl. cbn [negb].
  rewrite Hp, Hs. cbn [map_err]. by rewrite Hv.
Qed.

Lemma crl_verify_body c jwks body : crl_verify P c jwks = Ok body → body = sc_body c.
Proof.
  clear SJL PL. unfold crl_verify. intros H. destruct (jwk_find jwks (sc_signer_kid c)); [|done]. inv_ok H.
  destruct (b64url_decode P (sc_signature_b64 c)); [|done]. inv_ok H. congruence.
Qed.

(** What the verifier checked of a token it accepts. *)
Lemma svid_verify_ok jws jwks now leeway v : svid_verify P jws jwks now leeway = Ok v →
  ∃ d jwk pk sig,
    jws_decode P jws = Ok d ∧ dj_claims d = vd_claims v ∧ jh_kid (dj_header d) = vd_kid v ∧
    dj_header d = jws_header (vd_kid v) ∧
    jwk_find jwks (vd_kid v) = Some jwk ∧ jwk_to_public_key P jwk = Ok pk ∧
    sig_from_concat_bytes (dj_signature d) = Ok sig ∧
    composite_verify P pk SVID_SIGNING_CONTEXT (as_bytes (dj_signing_input d)) sig = Ok () ∧
    cl_nbf (vd_claims v) ≤ wrap_i64 (now + leeway) ∧ wrap_i64 (now - leeway) < cl_exp (vd_claims v).
Proof.
  clear SJL PL. unfold svid_verify, jws_decode, decode_json, b64_segment.
  destruct (segments jws) as [|p0 [|p1 [|p2 [|]]]]; try done.
  destruct (b64url_decode P p0) as [hb|]; [|done]. destruct (from_slice hb) as [h|] eqn:Eh; [|done]. cbn [map_err].
  destruct (String.eqb_spec (jh_alg h) SVID_ALG) as [Ea|]; [|done]. destruct (String.eqb_spec (jh_typ h) SVID_TYP) as [Et|]; [|done].
  cbn [negb]. destruct (jwk_find jwks (jh_kid h)) as [jwk|] eqn:Ek; [|done]. destruct (negb _); [done|].
  destruct (jwk_to_public_key P jwk) as [pk|] eqn:Ep; [|done]. cbn [map_err].
  destruct (b64url_decode P p2) as [sb|]; [|done]. destruct (sig_from_concat_bytes sb) as [sig|] eqn:Es; [|done]. cbn [map_err].
  destruct (composite_verify P pk _ _ sig) as [[]|] eqn:Ev; [|done]. cbn [map_err].
  destruct (b64url_decode P p1) as [pb|]; [|done]. destruct (from_slice pb) as [c|] eqn:Ec; [|done]. cbn [map_err].
  destruct (Z.ltb_spec (wrap_i64 (now + leeway)) (cl_nbf c)); [done|]. destruct (Z.leb_spec (cl_exp c) (wrap_i64 (now - leeway))); [done|].
  intros [= <-]. cbn [vd_claims vd_kid map_err].
  eexists _, jwk, pk, sig. split; [reflexivity|]. cbn [dj_claims dj_header dj_signature dj_signing_input].
  split_and!; try done. destruct h as [a ty k]. cbn in *. by subst.
Qed.

Lemma crl_sign_verifies body kid sk rng c x crl : crl_sign P body kid sk rng = Ok c →
  crl_verify P c {| js_keys := [jwk_from_public_key P kid (public_of P sk)]; js_crl := crl; js_x509_bundle := x |} = Ok body.
Proof using PL.
  unfold crl_sign. intros H. inv_ok H. injection H as <-.
  match goal with Hc : composite_sign _ _ _ _ _ = Ok _ |- _ => apply composite_sign_spec in Hc as [Hv Hs]; [|done] end.
  unfold crl_verify, jwk_find. cbn [sc_signer_kid js_keys List.find jwk_kid jwk_from_public_key]. rewrite String.eqb_refl, jwk_round_trip.
  cbn [map_err sc_signature_b64 sc_body]. rewrite b64url_round_trip, Hs. cbn [map_err].
  match goal with Hj : to_vec _ = Ok _ |- _ => rewrite Hj end. cbn [map_err]. by rewrite Hv.
Qed.
End SvidLemmas.

(** ** The working set *)

(** An entry of the target that lasts at least until [x]. *)
Definition revoked_until (es : list CrlEntry) (target : RevocationTarget) (x : Z) : Prop :=
  ∃ e, e ∈ es ∧ ce_target e = target ∧ x ≤ ce_expires_at e.

Inductive RevOp :=
  | OpRevoke (target : RevocationTarget) (reason : string) (now : Z)
  | OpUnrevoke (spiffe_id : string) (keep : list string) (now : Z)
  | OpPublish (now : Z).
Definition rev_op (r : Revocations) (o : RevOp) : Revocations :=
  match o with
  | OpRevoke target reason now => revoke_target target reason now r
  | OpUnrevoke sid keep now => (unrevoke_host sid keep now r).1
  | OpPublish now => (take_crl now r).1
  end.

(** The operations that keep a revocation of [target] made at [t]: none lifts it, prunes at or
    after its expiry, or revokes the same target at an earlier clock. *)
Definition keeps (target : RevocationTarget) (t : Z) (o : RevOp) : Prop :=
  match o with
  | OpRevoke target' _ now => target' = target → t ≤ now
  | OpUnrevoke sid _ _ => target ≠ RtHost sid
  | OpPublish now => now < sat_i64 (t + CRL_ENTRY_TTL_SECS)
  end.

Lemma replace_or_push_new entry es : entry ∈ replace_or_push entry es.
Proof. induction es as [|e es IH]; cbn; [apply list_elem_of_here|]. case_bool_decide; set_solver. Qed.
Lemma replace_or_push_keeps entry es e : e ∈ es → ce_target e ≠ ce_target entry → e ∈ replace_or_push entry es.
Proof.
  intros He Hne. induction es as [|e' es IH]; cbn; [set_solver|].
  apply elem_of_cons in He as [<-|He]; (case_bool_decide; [|set_solver]); [done|set_solver].
Qed.
Lemma elem_of_push_missing reason now es ds e : e ∈ es → e ∈ foldl (push_missing reason now) es ds.
Proof.
  revert es. induction ds as [|d ds IH]; intros es He; cbn; [done|]. apply IH. unfold push_missing.
  destruct (existsb _ es); set_solver.
Qed.
Lemma push_missing_all reason now es ds d : d ∈ ds → ∃ e, e ∈ foldl (push_missing reason now) es ds ∧ ce_target e = RtSvid d.
Proof.
  revert es. induction ds as [|d' ds IH]; intros es Hd; [by apply elem_of_nil in Hd|]. cbn.
  apply elem_of_cons in Hd as [<-|Hd]; [|by apply IH].
  destruct (existsb (λ e, bool_decide (ce_target e = RtSvid d)) es) eqn:Ex.
  - apply existsb_exists in Ex as (e & He & Ht%bool_decide_eq_true). apply list_elem_of_In in He. exists e. split; [|done].
    apply elem_of_push_missing. unfold push_missing. destruct (existsb _ es); set_solver.
  - eexists. split; [apply elem_of_push_missing; unfold push_missing; rewrite Ex; apply elem_of_app; right; apply list_elem_of_here|done].
Qed.
Lemma existsb_false {A} (f : A → bool) l x : existsb f l = false → x ∈ l → f x = false.
Proof.
  intros H Hx%list_elem_of_In. apply not_true_is_false. intros Hf. apply not_true_iff_false in H. apply H, existsb_exists. by exists x.
Qed.
Lemma elem_of_filter_list {A} (f : A → bool) l x : x ∈ List.filter f l ↔ x ∈ l ∧ f x = true.
Proof. rewrite !list_elem_of_In. apply filter_In. Qed.

Lemma rev_op_keeps target t r o :
  keeps target t o → revoked_until (rv_entries r) target (sat_i64 (t + CRL_ENTRY_TTL_SECS)) →
  revoked_until (rv_entries (rev_op r o)) target (sat_i64 (t + CRL_ENTRY_TTL_SECS)).
Proof.
  intros Hk (e & He & Ht & Hx). destruct o as [target' reason now|sid ks now|now]; cbn in *.
  - destruct (decide (target' = target)) as [->|Hne].
    + exists (crl_entry_new target reason now). split; [apply replace_or_push_new|]. cbn. split; [done|].
      specialize (Hk eq_refl). unfold sat_i64. lia.
    + exists e. split; [|done]. apply replace_or_push_keeps; [done|]. cbn. congruence.
  - unfold unrevoke_host. destruct (List.find _ _) as [host|]; [|by exists e]. cbn. exists e. split; [|done].
    apply elem_of_filter_list. split; [by apply elem_of_push_missing|]. unfold names_host. rewrite Ht.
    destruct target as [|sid']; [done|]. destruct (String.eqb_spec sid' sid) as [->|]; [by destruct Hk|done].
  - exists e. split; [|done]. apply elem_of_filter_list. split; [done|]. apply Z.ltb_lt. lia.
Qed.

Lemma rev_ops_keep target t ops r :
  Forall (keeps target t) ops → revoked_until (rv_entries r) target (sat_i64 (t + CRL_ENTRY_TTL_SECS)) →
  revoked_until (rv_entries (foldl rev_op r ops)) target (sat_i64 (t + CRL_ENTRY_TTL_SECS)).
Proof.
  intros Hf. revert r. induction Hf as [|o ops Ho _ IH]; intros r H; cbn; [done|]. by apply IH, rev_op_keeps.
Qed.

(** ** Theorems *)
Lemma wrap_i64_small z : - 2 ^ 63 ≤ z < 2 ^ 63 → wrap_i64 z = z.
Proof. intros H. unfold wrap_i64. rewrite Z.mod_small by lia. lia. Qed.

Section SvidTheorems.
Context (P : Primitives) `{SJ : !SvidJson, SJL : !SvidJsonLaws, PL : !PrimitiveLaws P}.
Context (issue_leaf : list u8 → string → Z → Z → result string (list u8)).

(** The keys an issuer publishes, with its list. *)
Definition issuer_jwks (i : Issuer P) (crl : option SignedCrl) : JwkSet :=
  {| js_keys := [jwk_from_public_key P (iss_kid P i) (iss_public P i)]; js_crl := crl; js_x509_bundle := None |}.

(** The reference verifier on an issued token is exactly the check of its window. *)
Lemma issued_verify_window i rng params now s crl t leeway :
  issue P issue_leaf i rng params now = Ok s → iss_public P i = public_of P (iss_secret P i) →
  - 2 ^ 61 ≤ now ≤ 2 ^ 61 → 0 ≤ ip_ttl_secs params → - 2 ^ 61 ≤ t ≤ 2 ^ 61 → 0 ≤ leeway ≤ 2 ^ 61 →
  ∃ iss, let claims := issued_claims P iss (is_spiffe_id s) params now in
    is_exp s = cl_exp claims ∧
    svid_verify P (is_jws s) (issuer_jwks i crl) t leeway =
      if t + leeway <? now - 60 then Err NotYetValid else
      if is_exp s <=? t - leeway then Err Expired else Ok {| vd_claims := claims; vd_kid := iss_kid P i |}.
Proof using SJL PL.
  intros Hi Hpub Hn Httl Ht Hl. destruct (issued_decodes P issue_leaf _ _ _ _ _ Hi) as (iss & input & sig & Hd & He & Hv & Hs).
  exists iss. split; [done|].
  rewrite (svid_verify_decoded P (is_jws s) _ (issuer_jwks i crl) (jwk_from_public_key P (iss_kid P i) (iss_public P i)) (iss_public P i)
    sig t leeway Hd eq_refl).
  - cbn [dj_claims dj_header]. rewrite (wrap_i64_small (t + leeway)), (wrap_i64_small (t - leeway)) by lia. rewrite He.
    change (cl_nbf _) with (wrap_i64 (now - NBF_LOOKBACK_SECS)). by rewrite (wrap_i64_small (now - NBF_LOOKBACK_SECS)) by (unfold NBF_LOOKBACK_SECS; lia).
  - unfold jwk_find, issuer_jwks. cbn [js_keys List.find dj_header jws_header jh_kid jwk_from_public_key jwk_kid].
    by rewrite String.eqb_refl.
  - done.
  - by apply jwk_round_trip.
  - exact Hs.
  - cbn [dj_signing_input]. by rewrite Hpub.
Qed.

(** what CMIS issues, the reference verifier accepts with the published key exactly from a
    minute before issuance until the expiry (each widened by the leeway), returning the
    claims that were stamped; the lifetime is the requested one, at most 30 days. *)
Theorem issued_svid_verifies i rng params now s crl t leeway :
  issue P issue_leaf i rng params now = Ok s → iss_public P i = public_of P (iss_secret P i) →
  - 2 ^ 61 ≤ now ≤ 2 ^ 61 → 0 ≤ ip_ttl_secs params → - 2 ^ 61 ≤ t ≤ 2 ^ 61 → 0 ≤ leeway ≤ 2 ^ 61 →
  is_exp s = now + Z.min (ip_ttl_secs params) (30 * 24 * 3600) ∧
  ((∃ v, svid_verify P (is_jws s) (issuer_jwks i crl) t leeway = Ok v) ↔ now - 60 - leeway ≤ t < is_exp s + leeway) ∧
  (∀ v, svid_verify P (is_jws s) (issuer_jwks i crl) t leeway = Ok v →
     cl_sub (vd_claims v) = is_spiffe_id s ∧ cl_exp (vd_claims v) = is_exp s ∧ cl_cnf_jkt (vd_claims v) = ip_dpop_jkt params ∧
     at_policy_id (cl_attest (vd_claims v)) = ip_policy_id params).
Proof using SJL PL.
  intros Hi Hpub Hn Httl Ht Hl. destruct (issued_verify_window i rng params now s crl t leeway Hi Hpub Hn Httl Ht Hl) as (iss & He & ->).
  assert (is_exp s = now + Z.min (ip_ttl_secs params) (30 * 24 * 3600)) as He'.
  { rewrite He. cbn. apply wrap_i64_small. lia. }
  split; [done|]. destruct (Z.ltb_spec (t + leeway) (now - 60)), (Z.leb_spec (is_exp s) (t - leeway)).
  all: try (split; [split; [by intros [v ?]|lia]|by intros v ?]).
  split; [split; [lia|by eexists]|]. intros v [= <-]. cbn [vd_claims]. by rewrite He.
Qed.

(** an SVID the revocation-aware verifier accepts carries a valid composite signature of a
    published key over its header and claims, is inside its window, and a published list
    with a valid signature, at most 300 seconds old, names neither its digest nor its host;
    without such a list nothing is accepted. *)
Theorem verify_unrevoked_sound jws jwks now leeway v :
  verify_unrevoked P jws jwks now leeway = Ok v →
  ∃ d jwk pk sig signed,
    jws_decode P jws = Ok d ∧ dj_claims d = vd_claims v ∧ jh_kid (dj_header d) = vd_kid v ∧
    dj_header d = jws_header (vd_kid v) ∧
    jwk_find jwks (vd_kid v) = Some jwk ∧ jwk_to_public_key P jwk = Ok pk ∧
    sig_from_concat_bytes (dj_signature d) = Ok sig ∧
    composite_verify P pk SVID_SIGNING_CONTEXT (as_bytes (dj_signing_input d)) sig = Ok () ∧
    cl_nbf (vd_claims v) ≤ wrap_i64 (now + leeway) ∧ wrap_i64 (now - leeway) < cl_exp (vd_claims v) ∧
    js_crl jwks = Some signed ∧ crl_verify P signed jwks = Ok (sc_body signed) ∧
    wrap_i64 (- leeway) ≤ wrap_i64 (now - cb_issued_at (sc_body signed)) ≤ 300 ∧
    revokes_svid (sc_body signed) (svid_cert_sha P jws) = false ∧ revokes_host (sc_body signed) (cl_sub (vd_claims v)) = false.
Proof.
  clear SJL PL issue_leaf. unfold verify_unrevoked. intros H. destruct (svid_verify P jws jwks now leeway) as [v'|] eqn:Ev; [|done].
  destruct (js_crl jwks) as [signed|]; [|done]. destruct (crl_verify P signed jwks) as [body|] eqn:Ec; [|done]. cbn [map_err] in H.
  destruct (is_fresh body now leeway) eqn:Ef; [|done]. cbn [negb] in H.
  destruct (revokes_svid body _) eqn:Es; [done|]. destruct (revokes_host body _) eqn:Eh; [done|]. injection H as ->.
  pose proof (crl_verify_body P _ _ _ Ec) as ->.
  apply andb_true_iff in Ef as [Ha%Z.leb_le Hb%Z.leb_le]. unfold crl_age, CRL_MAX_AGE_SECS in *.
  destruct (svid_verify_ok P jws jwks now leeway v Ev) as (d & jwk & pk & sig & ? & ? & ? & ? & ? & ? & ? & ? & ? & ?).
  by exists d, jwk, pk, sig, signed.
Qed.

(** The signature changes nothing of a list. *)
Lemma signed_crl_body (i : Issuer P) rng body signed : issuer_sign_crl P i rng body = Ok signed → sc_body signed = body.
Proof. unfold issuer_sign_crl, crl_sign. intros Hs. inv_ok Hs. unfold map_err in Hs. inv_ok Hs. by injection Hs as <-. Qed.
(** Every list taken while a revocation lasts has an entry for its target. *)
Lemma published_names_target r target reason t ops (i : Issuer P) rng now signed :
  Forall (keeps target t) ops → now < sat_i64 (t + CRL_ENTRY_TTL_SECS) →
  issuer_sign_crl P i rng (take_crl now (foldl rev_op (revoke_target target reason t r) ops)).2 = Ok signed →
  ∃ e, e ∈ cb_entries (sc_body signed) ∧ ce_target e = target.
Proof.
  clear SJL PL issue_leaf. intros Hops Hnow Hpub.
  assert (revoked_until (rv_entries (foldl rev_op (revoke_target target reason t r) ops)) target (sat_i64 (t + CRL_ENTRY_TTL_SECS))) as Hr.
  { apply rev_ops_keep; [done|]. exists (crl_entry_new target reason t). split; [apply replace_or_push_new|done]. }
  destruct Hr as (e & He & Ht & Hx). exists e. split; [|done].
  rewrite (signed_crl_body _ _ _ _ Hpub). cbn [take_crl snd cb_entries rv_entries].
  apply elem_of_filter_list. split; [done|]. apply Z.ltb_lt. lia.
Qed.
Lemma named_is_revoked (es : list CrlEntry) e target : e ∈ es → ce_target e = target →
  (∀ s, existsb (names_svid s) es = false → target ≠ RtSvid s) ∧ (∀ s, existsb (names_host s) es = false → target ≠ RtHost s).
Proof.
  intros He Ht. split; intros s Hf ->; eapply existsb_false in Hf; try exact He.
  - unfold names_svid, eq_ignore_case in Hf. by rewrite Ht, String.eqb_refl in Hf.
  - unfold names_host in Hf. by rewrite Ht, String.eqb_refl in Hf.
Qed.


(** lifting a host's revocation frees the host and nothing else: every other entry stays,
    and each digest it is told to keep stays revoked. *)
Theorem unrevoke_host_exact sid keep now r r' :
  unrevoke_host sid keep now r = (r', true) →
  is_host_revoked r' sid = false ∧
  (∀ e, e ∈ rv_entries r → ce_target e ≠ RtHost sid → e ∈ rv_entries r') ∧
  (∀ d, d ∈ keep → ∃ e, e ∈ rv_entries r' ∧ ce_target e = RtSvid d) ∧
  (∀ e, e ∈ rv_entries r' → e ∈ rv_entries r ∨ ∃ d, d ∈ keep ∧ ce_target e = RtSvid d).
Proof.
  clear SJ SJL PL issue_leaf P. unfold unrevoke_host. destruct (List.find _ _) as [host|]; [|done]. intros [= <-]. cbn [rv_entries].
  assert (∀ e, names_host sid e = false ↔ ce_target e ≠ RtHost sid) as Hn.
  { intros e. unfold names_host. destruct (ce_target e) as [s|s]; [done|]. rewrite String.eqb_neq. split; congruence. }
  split_and!.
  - unfold is_host_revoked. cbn. apply not_true_is_false. intros (e & He & Hb)%existsb_exists.
    apply filter_In in He as [_ He]. by rewrite Hb in He.
  - intros e He Ht%Hn. apply elem_of_filter_list. rewrite Ht. split; [by apply elem_of_push_missing|done].
  - intros d Hd. destruct (push_missing_all (ce_reason host) now (rv_entries r) keep d Hd) as (e & He & Ht). exists e. split; [|done].
    apply elem_of_filter_list. split; [done|]. by rewrite (proj2 (Hn e)) by congruence.
  - intros e [He _]%elem_of_filter_list. revert He. generalize (rv_entries r) as es. induction keep as [|d ds IH]; intros es He; cbn in He.
    + by left.
    + apply IH in He as [He|(d' & Hd' & Ht)]; [|right; exists d'; set_solver]. unfold push_missing in He.
      destruct (existsb _ es); [by left|]. apply elem_of_app in He as [?|E]; [by left|apply list_elem_of_singleton in E as ->]. right. exists d. set_solver.
Qed.
End SvidTheorems.
