(* ===== verification/HostAuth.v ===== *)
(** Authentication of host calls (cmis/src/host_auth.rs) over the signed documents of
    ferro-svid/src/host_call.rs and the machine-key signature of ferro-sep, with concurrent
    calls on one node. *)
From stdpp Require Import gmap sorting relations.
From S2P Require Import Prelude AppModel AppDedup Order Composite AllowlistV2 AllowlistCompile AppPath MiaAllowlist HostCache Svid.
Open Scope Z_scope.

(** ** Documents (host_call.rs) *)
Definition AUDIT_FORWARD_CONTEXT : list u8 := as_bytes "ferrogate-audit-forward-v1".
Definition ROTATE_CONTEXT : list u8 := as_bytes "ferrogate-rotate-v1".
Definition DOC_VERSION : Z := 1.
Definition NONCE_LEN : nat := 16.
Definition MAX_DOC_BYTES : nat := 1024.

(** The trait [HostCallDoc]. *)
Class HostCallDoc (D : Type) := {
  doc_host_uuid : D → string; doc_issued_at_of : D → Z; doc_nonce : D → option (list u8) }.

Record AuditForwardDoc := {
  af_v : Z; af_host_uuid : string; af_issued_at : Z; af_nonce : list u8; af_event_sha384 : list u8 }.
Record RotateDoc := {
  rd_v : Z; rd_host_uuid : string; rd_issued_at : Z; rd_nonce : list u8; rd_svid_sha384 : list u8; rd_state_digest : list u8 }.
#[export] Instance audit_forward_doc : HostCallDoc AuditForwardDoc :=
  {| doc_host_uuid := af_host_uuid; doc_issued_at_of := af_issued_at; doc_nonce d := Some (af_nonce d) |}.
#[export] Instance rotate_doc : HostCallDoc RotateDoc :=
  {| doc_host_uuid := rd_host_uuid; doc_issued_at_of := rd_issued_at; doc_nonce d := Some (rd_nonce d) |}.

Inductive HostCallDocError :=
  | DocEncode (e : string) | DocDecode (e : string) | DocTooLarge (n : nat) | DocVersion (v : Z) | DocHostUuid.

(** The trait [DocError]: the reason code and the field a malformed document is refused with. *)
Class DocError (E : Type) := { err_reason : E → string; err_field : E → option string }.
#[export] Instance host_call_doc_error : DocError HostCallDocError :=
  {| err_reason _ := "malformed_doc"; err_field _ := None |}.

(** The checks every decoder ends with. *)
Definition check_doc (v : Z) (host_uuid : string) : result HostCallDocError unit :=
  if negb (v =? DOC_VERSION) then Err (DocVersion v)
  else if String.eqb host_uuid "" || (MAX_HOST_UUID_LEN <? String.length host_uuid)%nat then Err DocHostUuid else Ok tt.

Section Docs.
Context (P : Primitives) `{AFC : !Cbor AuditForwardDoc, RDC : !Cbor RotateDoc}.

Definition audit_forward_new (host_uuid : string) (issued_at : Z) (nonce event_cbor : list u8) : AuditForwardDoc :=
  {| af_v := DOC_VERSION; af_host_uuid := host_uuid; af_issued_at := issued_at; af_nonce := nonce;
     af_event_sha384 := vec_to_list (sha384 P event_cbor) |}.
Definition binds_event (d : AuditForwardDoc) (event_cbor : list u8) : bool :=
  bool_decide (vec_to_list (sha384 P event_cbor) = af_event_sha384 d).
Definition rotate_new (host_uuid : string) (issued_at : Z) (nonce : list u8) (svid_jws : string) (state_digest : list u8) : RotateDoc :=
  {| rd_v := DOC_VERSION; rd_host_uuid := host_uuid; rd_issued_at := issued_at; rd_nonce := nonce;
     rd_svid_sha384 := vec_to_list (sha384 P (as_bytes svid_jws)); rd_state_digest := state_digest |}.
Definition binds_svid (d : RotateDoc) (svid_jws : string) : bool :=
  bool_decide (vec_to_list (sha384 P (as_bytes svid_jws)) = rd_svid_sha384 d).

Definition encode_audit_forward (d : AuditForwardDoc) : result HostCallDocError (list u8) := map_err DocEncode (into_writer d).
Definition decode_audit_forward (bytes : list u8) : result HostCallDocError AuditForwardDoc :=
  if (MAX_DOC_BYTES <? length bytes)%nat then Err (DocTooLarge (length bytes)) else
  let? doc := map_err DocDecode (from_reader bytes) in
  let? _ := check_doc (af_v doc) (af_host_uuid doc) in
  Ok doc.
Definition encode_rotate (d : RotateDoc) : result HostCallDocError (list u8) := map_err DocEncode (into_writer d).
Definition decode_rotate (bytes : list u8) : result HostCallDocError RotateDoc :=
  if (MAX_DOC_BYTES <? length bytes)%nat then Err (DocTooLarge (length bytes)) else
  let? doc := map_err DocDecode (from_reader bytes) in
  let? _ := check_doc (rd_v doc) (rd_host_uuid doc) in
  Ok doc.
End Docs.

(** [host_call::signing_input]. *)
Definition doc_signing_input (context doc : list u8) : list u8 := context ++ doc.

(** ** Machine keys (ferro-sep) *)
Definition P256_SPKI_PREFIX : list u8 :=
  u8.of_Z <$> [48; 89; 48; 19; 6; 7; 42; 134; 72; 206; 61; 2; 1; 6; 8; 42; 134; 72; 206; 61; 3; 1; 7; 3; 66; 0].
Inductive SepError := SepMalformed | SepSign.

(** The [p256] crate: points, signatures, verification of SHA-256 of the message. *)
Record P256 := {
  VerifyingKey : Type; EcdsaSig : Type;
  from_sec1 : list u8 → option VerifyingKey; sig_from_der : list u8 → option EcdsaSig;
  p256_verify : VerifyingKey → list u8 → EcdsaSig → bool }.

Definition verifying_key_from_spki (Q : P256) (spki : list u8) : result SepError (VerifyingKey Q) :=
  let n := length P256_SPKI_PREFIX in
  let point :=
    if (length spki =? n + 65)%nat && bool_decide (take n spki = P256_SPKI_PREFIX) then Some (drop n spki)
    else if (length spki =? 65)%nat && bool_decide (head spki = Some Byte.x04) then Some spki
    else None in
  match point ≫= from_sec1 Q with Some vk => Ok vk | None => Err SepMalformed end.

Definition verify_p256 (Q : P256) (spki message der_sig : list u8) : result SepError unit :=
  let? vk := verifying_key_from_spki Q spki in
  match sig_from_der Q der_sig with
  | None => Err SepMalformed
  | Some sig => if p256_verify Q vk message sig then Ok tt else Err SepSign
  end.

(** ** The node *)
Definition TIER_HOST_KEY : string := "host-key".
Definition TIER_TPM : string := "tpm".
Definition MAX_SVID_JWS_BYTES : nat := 16 * 1024.
Definition MAX_SEP_PUB_BYTES : nat := 256.
Definition MAX_SIG_BYTES : nat := 80.

(** [HostCallConfig] and its [Default]. *)
Record HostCallConfig := {
  audit_forward_per_min : Z; app_submit_per_hour : Z; app_status_per_hour : Z; sync_min_interval_secs : Z;
  rotate_per_hour : Z; replay_capacity : nat }.
Definition default_host_call_config : HostCallConfig :=
  {| audit_forward_per_min := 600; app_submit_per_hour := 30; app_status_per_hour := 60; sync_min_interval_secs := 30;
     rotate_per_hour := 6; replay_capacity := Z.to_nat 262144 |}.

(** The five limiters of the guard. *)
Inductive LimiterId := LAuditForward | LAppSubmit | LAppStatus | LAllowlistSync | LRotate.
#[export] Instance LimiterId_eq_dec : EqDecision LimiterId.
Proof. solve_decision. Defined.
Record HostCallGuard := { g_replay : ReplayCache; g_limiter : LimiterId → HostRateLimiter }.
Definition guard_new (cfg : HostCallConfig) : HostCallGuard :=
  {| g_replay := replay_new (replay_capacity cfg);
     g_limiter id := match id with
       | LAuditForward => per_minute (audit_forward_per_min cfg)
       | LAppSubmit => per_hour (app_submit_per_hour cfg)
       | LAppStatus => per_hour (app_status_per_hour cfg)
       | LAllowlistSync => limiter_new 1 (sync_min_interval_secs cfg)
       | LRotate => per_hour (rotate_per_hour cfg)
       end |}.
Definition set_replay (c : ReplayCache) (g : HostCallGuard) : HostCallGuard :=
  {| g_replay := c; g_limiter := g_limiter g |}.
Definition set_limiter (id : LimiterId) (l : HostRateLimiter) (g : HostCallGuard) : HostCallGuard :=
  {| g_replay := g_replay g; g_limiter id' := if bool_decide (id' = id) then l else g_limiter g id' |}.

Record HostSvid := { hs_host_uuid : string; hs_cnf_jkt : string; hs_spiffe_id : string; hs_tier : string }.
Record AuthenticatedHost := { ah_host_uuid : string; ah_spiffe_id : string; ah_tier : string }.
Record HostCallAuth := { ha_svid_jws : string; ha_sep_pub : list u8; ha_sig : list u8 }.
Record HostCall (D E : Type) := {
  hc_auth : option HostCallAuth; hc_context : list u8; hc_doc : list u8; hc_max_doc_bytes : nat;
  hc_decode : list u8 → result E D; hc_bind : D → bool; hc_limiter : option LimiterId }.
Arguments hc_auth {D E}. Arguments hc_context {D E}. Arguments hc_doc {D E}. Arguments hc_max_doc_bytes {D E}.
Arguments hc_decode {D E}. Arguments hc_bind {D E}. Arguments hc_limiter {D E}.

(** [host_auth_failed], [exhausted]. *)
Definition host_auth_failed : Status := Unauthenticated "host_auth_failed".
Definition exhausted (reason : string) (wait : Z) : Status := ResourceExhausted reason (Z.max wait 1).

(** [rsplit_once]: what follows the last occurrence of a non-empty pattern. *)
Fixpoint after_last (pat l : list u8) : option (list u8) :=
  match l with
  | [] => None
  | _ :: r => match after_last pat r with Some x => Some x | None => strip_prefix pat l end
  end.

Section HostAuth.
Context (P : Primitives) `{SJ : !SvidJson} (Q : P256) (issuer : Issuer P).
Context {D E : Type} `{HD : !HostCallDoc D, HE : !DocError E}.

(** The host an SVID names. *)
Definition host_of_sub (sub : string) : option string :=
  match after_last (as_bytes "/host/") (as_bytes sub) with
  | Some [] | None => None
  | Some u => Some (bytes_string u)
  end.

Definition verify_host_svid (r : Revocations) (svid_jws : string) (now : Z) : result Status HostSvid :=
  let? decoded := map_err (λ _, host_auth_failed) (jws_decode P svid_jws) in
  let? sig := map_err (λ _, host_auth_failed) (sig_from_concat_bytes (dj_signature decoded)) in
  let? _ := map_err (λ _, host_auth_failed)
              (composite_verify P (iss_public P issuer) SVID_SIGNING_CONTEXT (as_bytes (dj_signing_input decoded)) sig) in
  let claims := dj_claims decoded in
  if (now <? cl_nbf claims) || (cl_exp claims <? now) then Err host_auth_failed else
  match host_of_sub (cl_sub claims) with
  | None => Err host_auth_failed
  | Some host_uuid =>
      if is_revoked r (cl_sub claims) (svid_cert_sha P svid_jws) then Err host_auth_failed else
      Ok {| hs_host_uuid := host_uuid; hs_cnf_jkt := cl_cnf_jkt claims; hs_spiffe_id := cl_sub claims;
            hs_tier := if String.eqb (at_policy_id (cl_attest claims)) TIER_HOST_KEY then TIER_HOST_KEY else TIER_TPM |}
  end.

(** Step 1: presence and sizes. *)
Definition proof_sized (call : HostCall D E) (auth : HostCallAuth) : bool :=
  negb (String.eqb (ha_svid_jws auth) "" || (MAX_SVID_JWS_BYTES <? String.length (ha_svid_jws auth))%nat
    || bool_decide (ha_sep_pub auth = []) || (MAX_SEP_PUB_BYTES <? length (ha_sep_pub auth))%nat
    || bool_decide (ha_sig auth = []) || (MAX_SIG_BYTES <? length (ha_sig auth))%nat
    || bool_decide (hc_doc call = []) || (hc_max_doc_bytes call <? length (hc_doc call))%nat).

(** Steps 1 to 8, which read nothing of the guard. *)
Definition auth_checks (r : Revocations) (call : HostCall D E) (now : Z) : result Status (HostSvid * D) :=
  match hc_auth call with
  | None => Err host_auth_failed
  | Some auth =>
      if negb (proof_sized call auth) then Err host_auth_failed else
      let? svid := verify_host_svid r (ha_svid_jws auth) now in
      if negb (String.eqb (b64url_encode P (vec_to_list (sha256 P (ha_sep_pub auth)))) (hs_cnf_jkt svid)) then Err host_auth_failed else
      let? _ := map_err (λ _, host_auth_failed)
                  (verify_p256 Q (ha_sep_pub auth) (doc_signing_input (hc_context call) (hc_doc call)) (ha_sig auth)) in
      let? doc := map_err (λ e, InvalidArgument (err_reason e) (err_field e)) (hc_decode call (hc_doc call)) in
      if negb (String.eqb (doc_host_uuid doc) (hs_host_uuid svid)) then Err (PermissionDenied "host_mismatch") else
      if MAX_SKEW_SECS <? Z.abs (doc_issued_at_of doc - now) then Err host_auth_failed else
      if negb (hc_bind call doc) then Err host_auth_failed else
      Ok (svid, doc)
  end.

(** Steps 9, 10 and 11: each takes one lock. *)
Definition step_seen (svid : HostSvid) (doc : D) (now : Z) (g : HostCallGuard) : HostCallGuard * result Status unit :=
  match doc_nonce doc with
  | None => (g, Ok tt)
  | Some n =>
      let '(c, seen) := replay_seen (hs_host_uuid svid, n) (doc_issued_at_of doc) now (g_replay g) in
      (set_replay c g, if seen then Err host_auth_failed else Ok tt)
  end.
Definition step_limit (svid : HostSvid) (limiter : option LimiterId) (now : Z) (g : HostCallGuard) : HostCallGuard * result Status unit :=
  match limiter with
  | None => (g, Ok tt)
  | Some id =>
      let '(l, res) := limiter_check (hs_host_uuid svid) now (g_limiter g id) in
      (set_limiter id l g, match res with Ok _ => Ok tt | Err wait => Err (exhausted "rate_limited" wait) end)
  end.
Definition step_insert (svid : HostSvid) (doc : D) (now : Z) (g : HostCallGuard) : HostCallGuard * result Status unit :=
  match doc_nonce doc with
  | None => (g, Ok tt)
  | Some n =>
      let '(c, fresh) := replay_insert (hs_host_uuid svid, n) (doc_issued_at_of doc) now (g_replay g) in
      (set_replay c g, if fresh then Ok tt else Err host_auth_failed)
  end.

Definition authenticated (svid : HostSvid) : AuthenticatedHost :=
  {| ah_host_uuid := hs_host_uuid svid; ah_spiffe_id := hs_spiffe_id svid; ah_tier := hs_tier svid |}.

(** [authenticate], without interruption between its locks. *)
Definition authenticate (r : Revocations) (call : HostCall D E) (now : Z) (g : HostCallGuard) :
    HostCallGuard * result Status (AuthenticatedHost * D) :=
  match auth_checks r call now with
  | Err s => (g, Err s)
  | Ok (svid, doc) =>
      let '(g, res) := step_seen svid doc now g in
      match res with
      | Err s => (g, Err s)
      | Ok _ =>
          let '(g, res) := step_limit svid (hc_limiter call) now g in
          match res with
          | Err s => (g, Err s)
          | Ok _ =>
              let '(g, res) := step_insert svid doc now g in
              match res with
              | Err s => (g, Err s)
              | Ok _ => (g, Ok (authenticated svid, doc))
              end
          end
      end
  end.

(** *** Concurrent calls on one node *)

(** A call between its locks, with what it read before. *)
Inductive Phase := AtSeen | AtLimit | AtInsert.
Record Pending := { pe_svid : HostSvid; pe_doc : D; pe_limiter : option LimiterId; pe_now : Z; pe_phase : Phase }.
(** An accepted call with its clock. *)
Record Accepted := { ac_svid : HostSvid; ac_doc : D; ac_now : Z }.
Record Node := {
  n_revocations : Revocations; n_guard : HostCallGuard; n_pending : list Pending; n_accepted : list Accepted;
  n_clocks : list Z }.

Definition at_phase (ph : Phase) (p : Pending) : Pending :=
  {| pe_svid := pe_svid p; pe_doc := pe_doc p; pe_limiter := pe_limiter p; pe_now := pe_now p; pe_phase := ph |}.

(** The lock of a phase, and where a call goes that passes it. *)
Definition run_phase (p : Pending) (g : HostCallGuard) : HostCallGuard * result Status unit :=
  match pe_phase p with
  | AtSeen => step_seen (pe_svid p) (pe_doc p) (pe_now p) g
  | AtLimit => step_limit (pe_svid p) (pe_limiter p) (pe_now p) g
  | AtInsert => step_insert (pe_svid p) (pe_doc p) (pe_now p) g
  end.
Definition passed (p : Pending) : list Pending * list Accepted :=
  match pe_phase p with
  | AtSeen => ([at_phase AtLimit p], [])
  | AtLimit => ([at_phase AtInsert p], [])
  | AtInsert => ([], [{| ac_svid := pe_svid p; ac_doc := pe_doc p; ac_now := pe_now p |}])
  end.

Inductive node_step (s : Node) : Node → Prop :=
  | node_start call now svid doc :
      auth_checks (n_revocations s) call now = Ok (svid, doc) →
      node_step s {| n_revocations := n_revocations s; n_guard := n_guard s;
        n_pending := {| pe_svid := svid; pe_doc := doc; pe_limiter := hc_limiter call; pe_now := now; pe_phase := AtSeen |} :: n_pending s;
        n_accepted := n_accepted s; n_clocks := now :: n_clocks s |}
  | node_lock ps p ps' g res :
      n_pending s = ps ++ p :: ps' → run_phase p (n_guard s) = (g, res) →
      node_step s {| n_revocations := n_revocations s; n_guard := g;
        n_pending := (match res with Ok _ => (passed p).1 | Err _ => [] end) ++ ps ++ ps';
        n_accepted := (match res with Ok _ => (passed p).2 | Err _ => [] end) ++ n_accepted s; n_clocks := n_clocks s |}
  | node_revocations o :
      node_step s {| n_revocations := rev_op (n_revocations s) o; n_guard := n_guard s; n_pending := n_pending s;
        n_accepted := n_accepted s; n_clocks := n_clocks s |}.
Definition node_init (cfg : HostCallConfig) (r : Revocations) : Node :=
  {| n_revocations := r; n_guard := guard_new cfg; n_pending := []; n_accepted := []; n_clocks := [] |}.
End HostAuth.
Arguments Pending : clear implicits.
Arguments Accepted : clear implicits.
Arguments Node : clear implicits.

(** ** What the checks establish *)
Section HostAuthTheorems.
Context (P : Primitives) `{SJ : !SvidJson} (Q : P256) (issuer : Issuer P).
Context {D E : Type} `{HD : !HostCallDoc D, HE : !DocError E}.
Local Abbreviation auth_checks := (auth_checks P Q issuer (D := D) (E := E)).
Local Abbreviation authenticate := (authenticate P Q issuer (D := D) (E := E)).
Local Abbreviation node_step := (node_step P Q issuer (D := D) (E := E)).

(** The facts behind an accepted SVID. *)
Record svid_facts (r : Revocations) (jws : string) (now : Z) (h : HostSvid) (d : DecodedJws) : Prop := {
  sf_decoded : jws_decode P jws = Ok d;
  sf_signed : ∃ sig, sig_from_concat_bytes (dj_signature d) = Ok sig ∧
    composite_verify P (iss_public P issuer) SVID_SIGNING_CONTEXT (as_bytes (dj_signing_input d)) sig = Ok ();
  sf_window : cl_nbf (dj_claims d) ≤ now ≤ cl_exp (dj_claims d);
  sf_host : host_of_sub (cl_sub (dj_claims d)) = Some (hs_host_uuid h);
  sf_unrevoked : is_revoked r (cl_sub (dj_claims d)) (svid_cert_sha P jws) = false;
  sf_jkt : hs_cnf_jkt h = cl_cnf_jkt (dj_claims d);
  sf_spiffe : hs_spiffe_id h = cl_sub (dj_claims d);
  sf_tier : hs_tier h = TIER_HOST_KEY ↔ at_policy_id (cl_attest (dj_claims d)) = TIER_HOST_KEY }.

Lemma verify_host_svid_ok r jws now h : verify_host_svid P issuer r jws now = Ok h → ∃ d, svid_facts r jws now h d.
Proof.
  unfold verify_host_svid. intros H. inv_ok H. rename a into d. exists d.
  match goal with Hb : _ || _ = false |- _ => apply orb_false_iff in Hb as [H1%Z.ltb_ge H2%Z.ltb_ge] end.
  destruct (host_of_sub _) as [u|] eqn:Eu; [|done]. destruct (is_revoked _ _ _) eqn:Er; [done|]. injection H as <-.
  split; cbn; try done; [by eexists|]. destruct (String.eqb_spec (at_policy_id (cl_attest (dj_claims d))) TIER_HOST_KEY); split; done.
Qed.

(** The facts behind a call that passed steps 1 to 8. *)
Record call_facts (r : Revocations) (call : HostCall D E) (now : Z) (h : HostSvid) (doc : D) (auth : HostCallAuth) (d : DecodedJws) : Prop := {
  cf_auth : hc_auth call = Some auth;
  cf_sized : proof_sized call auth = true;
  cf_svid : svid_facts r (ha_svid_jws auth) now h d;
  cf_key : b64url_encode P (vec_to_list (sha256 P (ha_sep_pub auth))) = cl_cnf_jkt (dj_claims d);
  cf_signed : verify_p256 Q (ha_sep_pub auth) (hc_context call ++ hc_doc call) (ha_sig auth) = Ok ();
  cf_doc : hc_decode call (hc_doc call) = Ok doc;
  cf_same_host : doc_host_uuid doc = hs_host_uuid h;
  cf_fresh : Z.abs (doc_issued_at_of doc - now) ≤ 300;
  cf_bound : hc_bind call doc = true }.

Lemma auth_checks_ok r call now h doc : auth_checks r call now = Ok (h, doc) → ∃ auth d, call_facts r call now h doc auth d.
Proof.
  unfold HostAuth.auth_checks. destruct (hc_auth call) as [auth|] eqn:Ea; [|done]. intros H. inv_ok H.
  repeat match goal with Hb : negb _ = false |- _ => apply negb_false_iff in Hb end.
  match goal with Hs : verify_host_svid _ _ _ _ _ = Ok _ |- _ => pose proof Hs as Hs'; apply verify_host_svid_ok in Hs' as [d Hd] end.
  injection H as -> ->. exists auth, d.
  repeat match goal with Hb : String.eqb _ _ = true |- _ => apply String.eqb_eq in Hb end.
  match goal with Hb : (_ <? _) = false |- _ => apply Z.ltb_ge in Hb end.
  split; try done. rewrite <- (sf_jkt _ _ _ _ _ Hd). done.
Qed.

Lemma authenticate_ok r call now g g' h doc : authenticate r call now g = (g', Ok (h, doc)) →
  ∃ svid, auth_checks r call now = Ok (svid, doc) ∧ h = authenticated svid ∧
    ∃ g1 g2, step_seen svid doc now g = (g1, Ok tt) ∧ step_limit svid (hc_limiter call) now g1 = (g2, Ok tt) ∧
      step_insert svid doc now g2 = (g', Ok tt).
Proof.
  unfold HostAuth.authenticate. destruct (auth_checks r call now) as [[svid doc']|]; [|done].
  destruct (step_seen svid doc' now g) as [g1 [[]|]] eqn:E1; [|done].
  destruct (step_limit svid (hc_limiter call) now g1) as [g2 [[]|]] eqn:E2; [|done].
  destruct (step_insert svid doc' now g2) as [g3 [[]|]] eqn:E3; [|done]. intros [= -> <- ->].
  exists svid. split_and!; try done. by exists g1, g2.
Qed.

(** an authenticated host call carries an SVID signed by this CMIS, inside its window and
    unrevoked, whose key is the one that signed the document under the call's context; the
    document names the SVID's host, is at most 300 seconds off the clock and satisfies the
    call's own binding. *)
Theorem authenticated_call_genuine r call now g g' h doc :
  authenticate r call now g = (g', Ok (h, doc)) →
  ∃ svid auth d, call_facts r call now svid doc auth d ∧
    ah_host_uuid h = doc_host_uuid doc ∧ host_of_sub (ah_spiffe_id h) = Some (doc_host_uuid doc) ∧
    (ah_tier h = TIER_HOST_KEY ↔ at_policy_id (cl_attest (dj_claims d)) = TIER_HOST_KEY).
Proof.
  intros (svid & Hc & -> & _)%authenticate_ok. apply auth_checks_ok in Hc as (auth & d & Hf). exists svid, auth, d.
  split; [exact Hf|]. destruct Hf as [_ _ [_ _ _ Hh _ _ Hs Ht] _ _ _ Hsame _ _]. cbn. rewrite Hsame, Hs. done.
Qed.

(** Who is told more than [host_auth_failed]. *)
Definition told (r : Revocations) (call : HostCall D E) (now : Z) (s : Status) : Prop :=
  s = host_auth_failed ∨
  ∃ auth svid d, hc_auth call = Some auth ∧ svid_facts r (ha_svid_jws auth) now svid d ∧
    verify_p256 Q (ha_sep_pub auth) (hc_context call ++ hc_doc call) (ha_sig auth) = Ok () ∧
    match s with
    | InvalidArgument m f => ∃ e, hc_decode call (hc_doc call) = Err e ∧ m = err_reason e ∧ f = err_field e
    | PermissionDenied m => ∃ doc, hc_decode call (hc_doc call) = Ok doc ∧ m = "host_mismatch" ∧ doc_host_uuid doc ≠ hs_host_uuid svid
    | ResourceExhausted m wait => m = "rate_limited" ∧ 1 ≤ wait ∧ ∃ doc, auth_checks r call now = Ok (svid, doc)
    | _ => False
    end.

Lemma verify_host_svid_err r jws now s : verify_host_svid P issuer r jws now = Err s → s = host_auth_failed.
Proof.
  unfold verify_host_svid. destruct (jws_decode P jws) as [d|]; cbn [map_err]; [|congruence].
  destruct (sig_from_concat_bytes _); cbn [map_err]; [|congruence]. destruct (composite_verify _ _ _ _ _); cbn [map_err]; [|congruence].
  destruct (_ || _); [congruence|]. destruct (host_of_sub _); [|congruence]. destruct (is_revoked _ _ _); congruence.
Qed.

Lemma auth_checks_err r call now s : auth_checks r call now = Err s → told r call now s.
Proof.
  unfold told, HostAuth.auth_checks. destruct (hc_auth call) as [auth|] eqn:Ea; [|intros [= <-]; by left].
  destruct (negb (proof_sized call auth)); [intros [= <-]; by left|].
  destruct (verify_host_svid P issuer r (ha_svid_jws auth) now) as [svid|s'] eqn:Es;
    [|intros [= <-]; left; by eapply verify_host_svid_err].
  apply verify_host_svid_ok in Es as [d Hd]. destruct (negb _); [intros [= <-]; by left|].
  destruct (verify_p256 Q _ _ _) as [[]|] eqn:Ev; cbn [map_err]; [|intros [= <-]; by left].
  destruct (hc_decode call (hc_doc call)) as [doc|e] eqn:Edoc; cbn [map_err].
  - destruct (String.eqb_spec (doc_host_uuid doc) (hs_host_uuid svid)); cbn [negb].
    + destruct (_ <? _); [intros [= <-]; by left|]. destruct (negb _); [intros [= <-]; by left|done].
    + intros [= <-]. right. exists auth, svid, d. split_and!; try done. by exists doc.
  - intros [= <-]. right. exists auth, svid, d. split_and!; try done. by exists e.
Qed.

(** a refused call is told nothing but [host_auth_failed], unless its signature verified
    under the key of a valid, unrevoked SVID: only such a caller learns that its document is
    malformed or names another host, or that it is over its rate. *)
Theorem refusals_uniform r call now g g' s :
  authenticate r call now g = (g', Err s) →
  told r call now s.
Proof.
  unfold HostAuth.authenticate. destruct (auth_checks r call now) as [[svid doc]|s'] eqn:Ec;
    [|intros [= _ <-]; by apply auth_checks_err].
  destruct (step_seen svid doc now g) as [g1 [[]|s1]] eqn:E1.
  2: { intros [= _ <-]. left. unfold step_seen in E1. destruct (doc_nonce doc); [|done].
       destruct (replay_seen _ _ _ _) as [c []]; congruence. }
  destruct (step_limit svid (hc_limiter call) now g1) as [g2 [[]|s2]] eqn:E2.
  2: { intros [= _ <-]. right. pose proof Ec as Ec'. apply auth_checks_ok in Ec' as (auth & d & Hf). exists auth, svid, d.
       destruct Hf as [Ha _ Hs _ Hv _ _ _ _]. split_and!; try done. unfold step_limit in E2. destruct (hc_limiter call); [|done].
       destruct (limiter_check _ _ _) as [lim [[]|w]]; [done|]. injection E2 as _ <-. cbn. split_and!; [done|lia|by exists doc]. }
  destruct (step_insert svid doc now g2) as [g3 [[]|s3]] eqn:E3; [done|]. intros [= _ <-]. left.
  unfold step_insert in E3. destruct (doc_nonce doc); [|done]. destruct (replay_insert _ _ _ _) as [c []]; congruence.
Qed.

(** ** Replays under concurrent calls *)

(** What the cache knows a call by. *)
Definition call_key (svid : HostSvid) (doc : D) : option ReplayKey := pair (hs_host_uuid svid) <$> doc_nonce doc.
(** A clock that lets the call accepted at [t] out of the cache. *)
Definition lapsed (clocks : list Z) (t : Z) : Prop := ∃ now, now ∈ clocks ∧ sat_i64 (t + REPLAY_TTL_SECS) ≤ now.

Definition replays (a b : Accepted D) : Prop :=
  ∃ k, call_key (ac_svid a) (ac_doc a) = Some k ∧ call_key (ac_svid b) (ac_doc b) = Some k ∧
    doc_issued_at_of (ac_doc a) = doc_issued_at_of (ac_doc b).

Record node_inv (s : Node D) : Prop := {
  ni_cache : cache_ok (g_replay (n_guard s));
  ni_pending : ∀ p, p ∈ n_pending s → pe_now p ∈ n_clocks s ∧ Z.abs (doc_issued_at_of (pe_doc p) - pe_now p) ≤ 300;
  ni_accepted : ∀ a k, a ∈ n_accepted s → call_key (ac_svid a) (ac_doc a) = Some k →
    refused_until (g_replay (n_guard s)) k (doc_issued_at_of (ac_doc a)) (sat_i64 (ac_now a + REPLAY_TTL_SECS)) ∨
    lapsed (n_clocks s) (ac_now a);
  ni_fresh : ∀ a, a ∈ n_accepted s → Z.abs (doc_issued_at_of (ac_doc a) - ac_now a) ≤ 300;
  ni_pairs : ∀ l1 a2 l2 a1 l3, n_accepted s = l1 ++ a2 :: l2 ++ a1 :: l3 → replays a1 a2 → lapsed (n_clocks s) (ac_now a1) }.

Lemma lapsed_cons now clocks t : lapsed clocks t → lapsed (now :: clocks) t.
Proof. intros (n & Hn & Hle). exists n. split; [by apply list_elem_of_further|done]. Qed.

(** A use of the cache at a clock the node saw keeps what was accepted. *)
Lemma refused_or_lapsed (c : ReplayCache) o clocks k i t :
  cache_ok c → op_now o ∈ clocks →
  refused_until c k i (sat_i64 (t + REPLAY_TTL_SECS)) ∨ lapsed clocks t →
  refused_until (cache_op c o) k i (sat_i64 (t + REPLAY_TTL_SECS)) ∨ lapsed clocks t.
Proof.
  intros Hc Ho [Hr|]; [|by right].
  destruct (Z.lt_ge_cases (op_now o) (sat_i64 (t + REPLAY_TTL_SECS))); [left; by apply op_refused|right; by exists (op_now o)].
Qed.

(** The cache operation of a lock, if it makes one. *)
Definition phase_op (p : Pending D) : option CacheOp :=
  match pe_phase p, call_key (pe_svid p) (pe_doc p) with
  | AtSeen, Some k => Some (OpSeen k (doc_issued_at_of (pe_doc p)) (pe_now p))
  | AtInsert, Some k => Some (OpInsert k (doc_issued_at_of (pe_doc p)) (pe_now p))
  | _, _ => None
  end.

Lemma run_phase_cache p g g' res : run_phase p g = (g', res) →
  g_replay g' = match phase_op p with Some o => cache_op (g_replay g) o | None => g_replay g end ∧
  (∀ k, pe_phase p = AtInsert → call_key (pe_svid p) (pe_doc p) = Some k → res = Ok tt →
     replay_insert k (doc_issued_at_of (pe_doc p)) (pe_now p) (g_replay g) = (g_replay g', true)).
Proof.
  unfold run_phase, phase_op, step_seen, step_limit, step_insert, call_key. destruct (pe_phase p).
  - destruct (doc_nonce (pe_doc p)) as [n|]; cbn; [|by intros [= <- <-]]. unfold replay_seen. by intros [= <- <-].
  - intros H. split; [|done]. destruct (doc_nonce (pe_doc p)); cbn; (destruct (pe_limiter p); [|by injection H as <- _]);
      destruct (limiter_check _ _ _) as [lim r']; by injection H as <- _.
  - destruct (doc_nonce (pe_doc p)) as [n|]; cbn; [|by intros [= <- <-]].
    destruct (replay_insert _ _ _ _) as [c f] eqn:Er. intros [= <- <-]. cbn. split; [done|]. intros k _ [= <-] Hf. rewrite Er. by destruct f.
Qed.

Lemma passed_accepted (p : Pending D) a : a ∈ (passed p).2 →
  pe_phase p = AtInsert ∧ a = {| ac_svid := pe_svid p; ac_doc := pe_doc p; ac_now := pe_now p |}.
Proof. unfold passed. destruct (pe_phase p); cbn; intros H; [by apply elem_of_nil in H..|]. by apply list_elem_of_singleton in H. Qed.
Lemma passed_pending (p p' : Pending D) : p' ∈ (passed p).1 → pe_now p' = pe_now p ∧ pe_doc p' = pe_doc p.
Proof.
  unfold passed. destruct (pe_phase p); cbn; intros H; [apply list_elem_of_singleton in H as ->; done..|by apply elem_of_nil in H].
Qed.

Lemma node_init_inv cfg r : node_inv (node_init cfg r).
Proof.
  split; cbn; try (intros; by match goal with H : _ ∈ [] |- _ => apply elem_of_nil in H end).
  - apply replay_new_ok.
  - by intros [].
Qed.

(** One lock: the cache keeps what it refused, and lets in only what had lapsed. *)
Lemma lock_step s ps p ps' g res : node_inv s → n_pending s = ps ++ p :: ps' → run_phase p (n_guard s) = (g, res) →
  cache_ok (g_replay g) ∧
  (∀ k i t, refused_until (g_replay (n_guard s)) k i (sat_i64 (t + REPLAY_TTL_SECS)) ∨ lapsed (n_clocks s) t →
     refused_until (g_replay g) k i (sat_i64 (t + REPLAY_TTL_SECS)) ∨ lapsed (n_clocks s) t) ∧
  (∀ k, pe_phase p = AtInsert → call_key (pe_svid p) (pe_doc p) = Some k → res = Ok tt →
     refused_until (g_replay g) k (doc_issued_at_of (pe_doc p)) (sat_i64 (pe_now p + REPLAY_TTL_SECS)) ∧
     ∀ t, refused_until (g_replay (n_guard s)) k (doc_issued_at_of (pe_doc p)) (sat_i64 (t + REPLAY_TTL_SECS)) ∨ lapsed (n_clocks s) t →
       lapsed (n_clocks s) t).
Proof.
  intros Hi Hp Hr. apply run_phase_cache in Hr as [Hg Hins]. pose proof (ni_cache _ Hi) as Hc.
  assert (pe_now p ∈ n_clocks s) as Hnow. { apply (ni_pending _ Hi). rewrite Hp. set_solver. }
  assert (∀ o, phase_op p = Some o → op_now o = pe_now p) as Hop.
  { intros o. unfold phase_op. destruct (pe_phase p), (call_key _ _); by intros [= <-]. }
  split_and!.
  - rewrite Hg. destruct (phase_op p); [by apply cache_op_ok|done].
  - intros k i t H. rewrite Hg. destruct (phase_op p) as [o|]; [|done]. apply refused_or_lapsed; [done| |done]. by rewrite (Hop o).
  - intros k Hph Hk Hres. specialize (Hins k Hph Hk Hres). split; [by eapply insert_accepted|].
    intros t [H|]; [|done]. destruct (Z.lt_ge_cases (pe_now p) (sat_i64 (t + REPLAY_TTL_SECS))); [|by exists (pe_now p)].
    pose proof (refused_insert _ _ _ _ _ Hc H0 H) as Hf. by rewrite Hins in Hf.
Qed.

Lemma node_step_inv s s' : node_step s s' → node_inv s → node_inv s'.
Proof.
  intros Hst Hi. destruct Hst as [call now svid doc Hc|ps p ps' g res Hp Hr|o].
  - apply auth_checks_ok in Hc as (auth & d & Hf). destruct Hi as [H1 H2 H3 H4 H5]. split; cbn; try done.
    + intros p [->|Hin]%elem_of_cons; cbn; [split; [apply list_elem_of_here|apply (cf_fresh _ _ _ _ _ _ _ Hf)]|].
      destruct (H2 p Hin). split; [by apply list_elem_of_further|done].
    + intros a k Ha Hk. destruct (H3 a k Ha Hk); [by left|right; by apply lapsed_cons].
    + intros l1 a2 l2 a1 l3 Hacc Hrep. by eapply lapsed_cons, H5.
  - destruct (lock_step s ps p ps' g res Hi Hp Hr) as (Hc & Hkeep & Hins). destruct Hi as [H1 H2 H3 H4 H5].
    destruct (H2 p) as [Hnow Hfr]; [rewrite Hp; set_solver|].
    assert (∀ p', p' ∈ ps ++ ps' → p' ∈ n_pending s) as Hsub by (rewrite Hp; set_solver).
    destruct res as [[]|]; cbn [app].
    + split; cbn; [done| | | |].
      * intros p' [Hin|Hin%Hsub]%elem_of_app; [|by apply H2]. by destruct (passed_pending p p' Hin) as [-> ->].
      * intros a k [Hin|Hin]%elem_of_app Hk; [|by apply Hkeep, H3].
        apply passed_accepted in Hin as [Hph ->]. left. by apply Hins.
      * intros a [Hin|Hin]%elem_of_app; [|by apply H4]. by apply passed_accepted in Hin as [_ ->].
      * intros l1 a2 l2 a1 l3 Eq (k & Hk1 & Hk2 & Hiss).
        destruct ((passed p).2) as [|a [|]] eqn:Epa; cbn in Eq.
        -- eapply H5; [exact Eq|]. by exists k.
        -- destruct (passed_accepted p a) as [Hph ->]; [rewrite Epa; apply list_elem_of_here|].
           destruct l1 as [|a' l1]; cbn in Eq; injection Eq as E1 E2; [|eapply H5; [exact E2|by exists k]].
           subst a2. cbn in Hk2, Hiss. destruct (Hins k Hph Hk2 eq_refl) as [_ Hl]. apply Hl. rewrite <- Hiss. apply H3; [|done].
           rewrite E2. set_solver.
        -- unfold passed in Epa. by destruct (pe_phase p).
    + split; cbn; try done.
      * intros p' Hin%Hsub. by apply H2.
      * intros a k Ha Hk. by apply Hkeep, H3.
  - destruct Hi as [H1 H2 H3 H4 H5]. by split.
Qed.

(** C6: no call that carries a nonce is accepted twice while its nonce is remembered: over every
    interleaving of concurrent calls on a node, with evictions and changes of the revocation
    set, when a document with a nonce is accepted from a host at [t1], and one with the same
    nonce and issue time from the same host again at [t2], some call on the node had read a
    clock of at least [t1 + 600]; and since it is fresh both times, [t2] is at most that.
    (The document of SubmitAppRequest carries no nonce and is not covered: there the
    source relies on client_request_id.) *)
Theorem replay_refused cfg r s l1 a2 l2 a1 l3 :
  rtc node_step (node_init cfg r) s → n_accepted s = l1 ++ a2 :: l2 ++ a1 :: l3 → replays a1 a2 →
  ac_now a2 ≤ ac_now a1 + 600 ∧ ∃ now, now ∈ n_clocks s ∧ sat_i64 (ac_now a1 + 600) ≤ now.
Proof.
  intros Hr Hacc Hrep. assert (node_inv s) as Hi.
  { clear Hacc. pose proof (node_init_inv cfg r) as Hi. induction Hr as [|x y z Hst _ IH]; [done|]. by eapply IH, node_step_inv. }
  split; [|by eapply (ni_pairs _ Hi)].
  destruct Hrep as (k & _ & _ & Hiss). pose proof (ni_fresh _ Hi a1) as F1. pose proof (ni_fresh _ Hi a2) as F2.
  rewrite Hacc in F1, F2. specialize (F1 ltac:(set_solver)). specialize (F2 ltac:(set_solver)). lia.
Qed.

(** A fresh cache, with one entry added, and with that entry at its expiry. *)
Lemma replay_new_seen k i t c : - 2 ^ 63 < i → replay_seen k i t (replay_new c) = (replay_new c, false).
Proof.
  intros Hi. unfold replay_seen. replace (replay_prune t (replay_new c)) with (replay_new c) by done. f_equal. cbn [replay_new rc_floor rc_seen].
  rewrite (proj2 (Z.leb_gt i (- 2 ^ 63))) by lia. cbn. apply bool_decide_eq_false. set_solver.
Qed.
Lemma replay_new_insert k i t c : - 2 ^ 63 < i → replay_insert k i t (replay_new c) =
  ({| rc_order := [(k, sat_i64 (t + REPLAY_TTL_SECS), i)]; rc_seen := {[k]} ∪ ∅; rc_floor := - 2 ^ 63; rc_capacity := Nat.max c 1 |}, true).
Proof.
  intros Hi. unfold replay_insert. replace (replay_prune t (replay_new c)) with (replay_new c) by done.
  cbn [replay_new rc_floor rc_seen rc_order rc_capacity evict_loop].
  rewrite (proj2 (Z.leb_gt i (- 2 ^ 63))) by lia. rewrite bool_decide_eq_false_2 by set_solver. done.
Qed.
Lemma replay_forgotten k i x c now : x ≤ now → - 2 ^ 63 < i →
  replay_seen k i now {| rc_order := [(k, x, i)]; rc_seen := {[k]} ∪ ∅; rc_floor := - 2 ^ 63; rc_capacity := Nat.max c 1 |} =
  (replay_new c, false).
Proof.
  intros Hx Hi. rewrite <- (replay_new_seen k i now c Hi). unfold replay_seen, replay_prune. cbn [rc_order rc_seen prune_loop replay_new].
  rewrite (proj2 (Z.ltb_ge now x)) by done. by replace (({[k]} ∪ ∅) ∖ {[k]}) with (∅ : gset ReplayKey) by set_solver.
Qed.

Lemma boundary_replay cfg r call t svid doc n :
  hc_limiter call = None → doc_nonce doc = Some n → - 2 ^ 63 < doc_issued_at_of doc → - 2 ^ 63 ≤ t + 600 < 2 ^ 63 →
  auth_checks r call t = Ok (svid, doc) → auth_checks r call (t + 600) = Ok (svid, doc) →
  ∃ g1 g2, authenticate r call t (guard_new cfg) = (g1, Ok (authenticated svid, doc)) ∧
    authenticate r call (t + 600) g1 = (g2, Ok (authenticated svid, doc)).
Proof.
  intros Hl Hn Hi Ht H1 H2.
  assert (sat_i64 (t + REPLAY_TTL_SECS) ≤ t + 600) as Hx by (unfold sat_i64, REPLAY_TTL_SECS, MAX_SKEW_SECS; lia).
  unfold HostAuth.authenticate. rewrite H1, H2. unfold step_seen, step_limit, step_insert. rewrite Hn, Hl.
  cbn [guard_new g_replay]. rewrite replay_new_seen by done. cbn [set_replay g_replay]. rewrite replay_new_insert by done.
  eexists _, _. split; [reflexivity|]. cbn [set_replay g_replay]. rewrite (replay_forgotten _ _ _ _ _ Hx Hi).
  cbn [set_replay g_replay]. rewrite replay_new_insert by done. reflexivity.
Qed.

(** A replay the cache lets through: a document issued 300 seconds ahead and accepted at [t] is
    fresh until [t + 600] inclusive, and its nonce is forgotten at [t + 600]. *)
Theorem replay_accepted_at_boundary cfg r call t svid doc n :
  hc_limiter call = None → doc_nonce doc = Some n → - 2 ^ 63 < doc_issued_at_of doc → - 2 ^ 63 ≤ t + 600 < 2 ^ 63 →
  auth_checks r call t = Ok (svid, doc) → auth_checks r call (t + 600) = Ok (svid, doc) →
  ∃ g1 g2, authenticate r call t (guard_new cfg) = (g1, Ok (authenticated svid, doc)) ∧
    authenticate r call (t + 600) g1 = (g2, Ok (authenticated svid, doc)).
Proof. apply boundary_replay. Qed.

(** A call that runs without interruption is one of the interleavings. *)
Lemma authenticate_steps r call now g g' h doc pend acc clocks :
  authenticate r call now g = (g', Ok (h, doc)) →
  ∃ svid, auth_checks r call now = Ok (svid, doc) ∧
    rtc node_step {| n_revocations := r; n_guard := g; n_pending := pend; n_accepted := acc; n_clocks := clocks |}
      {| n_revocations := r; n_guard := g'; n_pending := pend;
         n_accepted := {| ac_svid := svid; ac_doc := doc; ac_now := now |} :: acc; n_clocks := now :: clocks |}.
Proof.
  intros (svid & Hc & _ & g1 & g2 & H1 & H2 & H3)%authenticate_ok. exists svid. split; [done|].
  set (p := {| pe_svid := svid; pe_doc := doc; pe_limiter := hc_limiter call; pe_now := now; pe_phase := AtSeen |}).
  eapply rtc_l; [by apply (node_start _ _ _ _ call now svid doc)|].
  eapply rtc_l; [apply (node_lock _ _ _ _ [] p pend g1 (Ok tt)); [reflexivity|exact H1]|].
  eapply rtc_l; [apply (node_lock _ _ _ _ [] (at_phase AtLimit p) pend g2 (Ok tt)); [reflexivity|exact H2]|].
  eapply rtc_l; [apply (node_lock _ _ _ _ [] (at_phase AtInsert p) pend g' (Ok tt)); [reflexivity|exact H3]|]. apply rtc_refl.
Qed.
End HostAuthTheorems.
