(* ===== verification/HostWitnesses.v ===== *)
(** The theorems on SVIDs, revocation and host calls applied to one concrete host: a token
    issued to it, a list that revokes it, and a signed call. *)
From stdpp Require Import gmap relations.
From S2P Require Import Prelude AppModel AppDedup Order Composite AllowlistV2 AllowlistCompile AppPath MiaAllowlist HostCache Svid HostAuth.
Open Scope Z_scope.

(** ** Codecs: fields with a terminator *)
Fixpoint put_fields (fs : list (list u8)) : list u8 :=
  match fs with [] => [] | f :: fs => (f ≫= λ b, [Byte.x01; b]) ++ Byte.x00 :: put_fields fs end.
Fixpoint get_fields (l : list u8) : list (list u8) :=
  match l with
  | Byte.x00 :: r => [] :: get_fields r
  | Byte.x01 :: b :: r => match get_fields r with f :: fs => (b :: f) :: fs | [] => [] end
  | _ => []
  end.
Lemma get_put_fields fs : get_fields (put_fields fs) = fs.
Proof. induction fs as [|f fs IH]; [done|]. cbn [put_fields]. induction f as [|b f IHf]; cbn; [by rewrite IH|]. cbn in IHf. by rewrite IHf. Qed.

Definition zf (z : Z) : list u8 := pos_bytes (countable.encode z).
Definition fz (f : list u8) : Z := default 0 (countable.decode (bytes_pos f)).
Lemma fz_zf z : fz (zf z) = z.
Proof. unfold fz, zf. by rewrite bytes_pos_bytes, decode_encode. Qed.
Definition opt_f (o : option string) : list u8 := match o with Some s => Byte.x01 :: as_bytes s | None => [] end.
Definition fo (f : list u8) : option string := match f with _ :: s => Some (bytes_string s) | [] => None end.
Lemma fo_opt o : fo (opt_f o) = o.
Proof. destruct o; cbn; [by rewrite bytes_string_bytes|done]. Qed.

(** A codec from a view as fields. *)
Definition fields_json {A} (put : A → list (list u8)) (get : list (list u8) → option A) : Json A :=
  {| to_vec a := Ok (put_fields (put a));
     from_slice b := match get (get_fields b) with Some a => Ok a | None => Err "json" end |}.
Lemma fields_json_laws {A} (put : A → list (list u8)) get : (∀ a, get (put a) = Some a) → @JsonLaws A (fields_json put get).
Proof. intros H a b. cbn. intros [= <-]. by rewrite get_put_fields, H. Qed.

Definition header_fields (h : JwsHeader) : list (list u8) := [as_bytes (jh_alg h); as_bytes (jh_typ h); as_bytes (jh_kid h)].
Definition fields_header (fs : list (list u8)) : option JwsHeader :=
  match fs with
  | [a; t; k] => Some {| jh_alg := bytes_string a; jh_typ := bytes_string t; jh_kid := bytes_string k |}
  | _ => None
  end.
Definition claims_fields (c : SvidClaims) : list (list u8) :=
  let a := cl_attest c in
  [as_bytes (cl_iss c); as_bytes (cl_sub c); zf (cl_iat c); zf (cl_nbf c); zf (cl_exp c); as_bytes (cl_cnf_jkt c);
   as_bytes (at_ek_cert_sha384 a); as_bytes (at_pcr_digest_sha384 a); as_bytes (at_policy_id a); opt_f (at_tee_evidence_id a)].
Definition fields_claims (fs : list (list u8)) : option SvidClaims :=
  match fs with
  | [i; s; a; n; e; j; ek; pcr; pol; tee] => Some {|
      cl_iss := bytes_string i; cl_sub := bytes_string s; cl_iat := fz a; cl_nbf := fz n; cl_exp := fz e; cl_cnf_jkt := bytes_string j;
      cl_attest := {| at_ek_cert_sha384 := bytes_string ek; at_pcr_digest_sha384 := bytes_string pcr;
        at_policy_id := bytes_string pol; at_tee_evidence_id := fo tee |} |}
  | _ => None
  end.
Definition entry_fields (e : CrlEntry) : list (list u8) :=
  [match ce_target e with RtSvid s => Byte.x00 :: as_bytes s | RtHost s => Byte.x01 :: as_bytes s end;
   as_bytes (ce_reason e); zf (ce_revoked_at e); zf (ce_expires_at e)].
Fixpoint fields_entries (fs : list (list u8)) : option (list CrlEntry) :=
  match fs with
  | [] => Some []
  | (k :: s) :: r :: a :: x :: fs =>
      es ← fields_entries fs;
      Some ({| ce_target := (if Byte.eqb k Byte.x00 then RtSvid else RtHost) (bytes_string s); ce_reason := bytes_string r;
               ce_revoked_at := fz a; ce_expires_at := fz x |} :: es)
  | _ => None
  end.
Definition crl_fields (b : CrlBody) : list (list u8) := zf (cb_issued_at b) :: zf (cb_number b) :: (cb_entries b ≫= entry_fields).
Definition fields_crl (fs : list (list u8)) : option CrlBody :=
  match fs with
  | a :: n :: fs => es ← fields_entries fs; Some {| cb_issued_at := fz a; cb_number := fz n; cb_entries := es |}
  | _ => None
  end.
Lemma fields_entries_inv es : fields_entries (es ≫= entry_fields) = Some es.
Proof.
  induction es as [|[t r a x] es IH]; [done|]. rewrite bind_cons. destruct t; cbn -[zf fz bytes_string as_bytes]; rewrite IH; cbn -[zf fz bytes_string as_bytes];
    by rewrite !bytes_string_bytes, !fz_zf.
Qed.

#[export] Instance toy_svid_json : SvidJson := {|
  header_json := fields_json header_fields fields_header; claims_json := fields_json claims_fields fields_claims;
  crl_json := fields_json crl_fields fields_crl |}.
#[export] Instance toy_svid_json_laws : SvidJsonLaws.
Proof.
  split; apply fields_json_laws; intros a.
  - destruct a; cbn -[as_bytes bytes_string]. by rewrite !bytes_string_bytes.
  - destruct a as [? ? ? ? ? ? []]; cbn -[as_bytes bytes_string zf fz opt_f]. by rewrite !bytes_string_bytes, !fz_zf, fo_opt.
  - destruct a; cbn -[zf fz]. rewrite fields_entries_inv. cbn. by rewrite !fz_zf.
Qed.

#[export] Instance toy_forward_cbor : Cbor AuditForwardDoc := {|
  into_writer d := Ok (put_fields [zf (af_v d); as_bytes (af_host_uuid d); zf (af_issued_at d); af_nonce d; af_event_sha384 d]);
  from_reader b := match get_fields b with
    | [v; h; i; n; e] => Ok {| af_v := fz v; af_host_uuid := bytes_string h; af_issued_at := fz i; af_nonce := n; af_event_sha384 := e |}
    | _ => Err "cbor"
    end |}.

(** ** The host *)
Definition no_leaf (pub : list u8) (sub : string) (nbf exp : Z) : result string (list u8) := Err "no certificate".
Definition host_issuer : Issuer toy_primitives :=
  {| iss_secret := toy_sk; iss_public := public_of toy_primitives toy_sk; iss_kid := "k1"; iss_trust_domain := "t" |}.
Definition machine_key : list u8 := Byte.x04 :: replicate 64 Byte.x07.
Definition host_params : IssueParams :=
  {| ip_ek_cert_sha384 := replicate 16 Byte.x05; ip_pcr_digest := []; ip_policy_id := "host-key";
     ip_dpop_jkt := b64url_encode toy_primitives (vec_to_list (sha256 toy_primitives machine_key)); ip_ttl_secs := 3600;
     ip_tee_evidence_id := None; ip_subject_pub := None |}.
Definition host_svid : result IssueError IssuedSvid := issue toy_primitives no_leaf host_issuer (Ok []) host_params 1000.
Definition host_jws : string := match host_svid with Ok s => is_jws s | Err _ => "" end.
Definition host_id : string := match host_svid with Ok s => is_spiffe_id s | Err _ => "" end.
Definition no_revocations : Revocations := {| rv_entries := []; rv_number := 0 |}.

Definition is_ok {E A} (r : result E A) : bool := match r with Ok _ => true | Err _ => false end.
Lemma is_ok_eq {E A} (r : result E A) : is_ok r = true → ∃ a, r = Ok a.
Proof. destruct r as [a|]; [|done]. by exists a. Qed.

Lemma host_svid_ok : is_ok host_svid = true.
Proof. vm_compute. reflexivity. Qed.

Lemma issued_svid_verifies_witness :
  ∃ s v, host_svid = Ok s ∧ svid_verify toy_primitives (is_jws s) (issuer_jwks toy_primitives host_issuer None) 1500 0 = Ok v ∧
    is_exp s = 4600 ∧ cl_sub (vd_claims v) = is_spiffe_id s.
Proof.
  destruct (is_ok_eq _ host_svid_ok) as [s Hs]. unfold host_svid in Hs.
  destruct (issued_svid_verifies toy_primitives no_leaf host_issuer (Ok []) host_params 1000 s None 1500 0 Hs eq_refl
    ltac:(lia) ltac:(cbn; lia) ltac:(lia) ltac:(lia)) as (Hx & [_ Hw] & Hc). change (ip_ttl_secs host_params) with 3600 in Hx.
  destruct Hw as [v Hv]; [lia|]. assert (is_exp s = 4600) as Hx' by lia. exists s, v.
  exact (conj Hs (conj Hv (conj Hx' (proj1 (Hc v Hv))))).
Defined.

(** A list that revokes another host. *)
Definition one_revocation : Revocations := revoke_target (RtHost "spiffe://t/host/other") "lost" 1200 no_revocations.
Definition published := issuer_sign_crl toy_primitives host_issuer (Ok []) (take_crl 1400 (foldl rev_op one_revocation [OpPublish 1300])).2.
Definition host_crl : SignedCrl :=
  match published with
  | Ok s => s
  | Err _ => {| sc_body := {| cb_issued_at := 0; cb_number := 0; cb_entries := [] |}; sc_signer_kid := ""; sc_signature_b64 := "" |}
  end.
Definition host_jwks : JwkSet := issuer_jwks toy_primitives host_issuer (Some host_crl).

Lemma published_ok : is_ok published = true.
Proof. vm_compute. reflexivity. Qed.
Lemma published_eq : published = Ok host_crl.
Proof. unfold host_crl. destruct (is_ok_eq _ published_ok) as [s ->]. reflexivity. Qed.
Lemma host_verified : is_ok (verify_unrevoked toy_primitives host_jws host_jwks 1500 0) = true.
Proof. vm_compute. reflexivity. Qed.

Lemma verify_unrevoked_sound_witness :
  ∃ v signed, verify_unrevoked toy_primitives host_jws host_jwks 1500 0 = Ok v ∧ js_crl host_jwks = Some signed ∧
    revokes_host (sc_body signed) (cl_sub (vd_claims v)) = false.
Proof.
  destruct (is_ok_eq _ host_verified) as [v Hv].
  destruct (verify_unrevoked_sound toy_primitives host_jws host_jwks 1500 0 v Hv)
    as (d & jwk & pk & sig & signed & _ & _ & _ & _ & _ & _ & _ & _ & _ & _ & Hc & _ & _ & _ & Hh).
  exact (ex_intro _ v (ex_intro _ signed (conj Hv (conj Hc Hh)))).
Defined.


Lemma unrevoke_host_exact_witness :
  ∃ r', unrevoke_host "spiffe://t/host/other" ["ab"] 1300 one_revocation = (r', true) ∧ is_host_revoked r' "spiffe://t/host/other" = false.
Proof.
  eexists. split; [vm_compute; reflexivity|].
  refine (proj1 (unrevoke_host_exact "spiffe://t/host/other" ["ab"] 1300 one_revocation _ _)). vm_compute. reflexivity.
Defined.

(** ** A signed call *)
Definition toy_p256 : P256 := {|
  VerifyingKey := list u8; EcdsaSig := list u8; from_sec1 := Some; sig_from_der := Some;
  p256_verify vk m s := bytes_eqb s (vec_to_list (toy_hash 32 (vk ++ m))) |}.
Definition host_event : list u8 := as_bytes "event".
Definition host_doc_bytes : list u8 :=
  match encode_audit_forward (audit_forward_new toy_primitives "05050505-0505-8505-8505-050505050505" 1300 (replicate 16 Byte.x09) host_event) with
  | Ok b => b | Err _ => [] end.
Definition host_call_of (limiter : option LimiterId) : HostCall AuditForwardDoc HostCallDocError := {|
  hc_auth := Some {| ha_svid_jws := host_jws; ha_sep_pub := machine_key;
    ha_sig := vec_to_list (toy_hash 32 (machine_key ++ AUDIT_FORWARD_CONTEXT ++ host_doc_bytes)) |};
  hc_context := AUDIT_FORWARD_CONTEXT; hc_doc := host_doc_bytes; hc_max_doc_bytes := MAX_DOC_BYTES;
  hc_decode := decode_audit_forward; hc_bind d := binds_event toy_primitives d host_event; hc_limiter := limiter |}.
Abbreviation call_checks := (auth_checks toy_primitives toy_p256 host_issuer).
Abbreviation call_authenticate := (authenticate toy_primitives toy_p256 host_issuer).

Lemma call_ok : is_ok (call_authenticate no_revocations (host_call_of (Some LAuditForward)) 1000 (guard_new default_host_call_config)).2 = true.
Proof. vm_compute. reflexivity. Qed.
#[export] Instance HostSvid_eq_dec : EqDecision HostSvid.
Proof. solve_decision. Defined.
#[export] Instance AuditForwardDoc_eq_dec : EqDecision AuditForwardDoc.
Proof. solve_decision. Defined.
(** The same document passes the checks 300 seconds early and 300 seconds late. *)
Definition same_ok {E A} `{EqDecision A} (r1 r2 : result E A) : bool :=
  match r1, r2 with Ok a, Ok b => bool_decide (a = b) | _, _ => false end.
Lemma same_ok_eq {E A} `{EqDecision A} (r1 r2 : result E A) : same_ok r1 r2 = true → ∃ a, r1 = Ok a ∧ r2 = Ok a.
Proof. destruct r1 as [a|], r2 as [b|]; cbn; [|done..]. intros ->%bool_decide_eq_true. by exists b. Qed.
Lemma checks_ok : same_ok (call_checks no_revocations (host_call_of None) 1000) (call_checks no_revocations (host_call_of None) 1600) = true.
Proof. vm_compute. reflexivity. Qed.
Lemma checks_doc : match call_checks no_revocations (host_call_of None) 1000 with
  | Ok (_, d) => bool_decide (af_nonce d = replicate 16 Byte.x09) && (af_issued_at d =? 1300) | Err _ => false end = true.
Proof. vm_compute. reflexivity. Qed.

Lemma authenticated_call_genuine_witness :
  ∃ g' h doc, call_authenticate no_revocations (host_call_of (Some LAuditForward)) 1000 (guard_new default_host_call_config) = (g', Ok (h, doc)) ∧
    ah_host_uuid h = doc_host_uuid doc.
Proof.
  destruct (is_ok_eq _ call_ok) as [[h doc] Hok].
  destruct (call_authenticate no_revocations (host_call_of (Some LAuditForward)) 1000 (guard_new default_host_call_config)) as [g' res] eqn:Ea.
  cbn [snd] in Hok. subst res.
  destruct (authenticated_call_genuine toy_primitives toy_p256 host_issuer no_revocations (host_call_of (Some LAuditForward)) 1000
    (guard_new default_host_call_config) g' h doc Ea) as (svid & auth & d & _ & Hh & _).
  exact (ex_intro _ g' (ex_intro _ h (ex_intro _ doc (conj eq_refl Hh)))).
Defined.

(** The same call once its host is revoked. *)
Definition host_revoked : Revocations := revoke_target (RtHost host_id) "lost" 900 no_revocations.
Lemma revoked_call_refused : is_ok (call_authenticate host_revoked (host_call_of None) 1000 (guard_new default_host_call_config)).2 = false.
Proof. vm_compute. reflexivity. Qed.

Lemma refusals_uniform_witness :
  ∃ g' s, call_authenticate host_revoked (host_call_of None) 1000 (guard_new default_host_call_config) = (g', Err s) ∧
    told toy_primitives toy_p256 host_issuer host_revoked (host_call_of None) 1000 s.
Proof.
  pose proof revoked_call_refused as Hr.
  destruct (call_authenticate host_revoked (host_call_of None) 1000 (guard_new default_host_call_config)) as [g' [x|s]] eqn:Ea; [discriminate Hr|].
  exact (ex_intro _ g' (ex_intro _ s (conj eq_refl (refusals_uniform toy_primitives toy_p256 host_issuer host_revoked (host_call_of None) 1000
    (guard_new default_host_call_config) g' s Ea)))).
Defined.

Lemma boundary_checks : ∃ svid doc n, doc_nonce doc = Some n ∧ doc_issued_at_of doc = 1300 ∧
  call_checks no_revocations (host_call_of None) 1000 = Ok (svid, doc) ∧ call_checks no_revocations (host_call_of None) 1600 = Ok (svid, doc).
Proof.
  destruct (same_ok_eq _ _ checks_ok) as ([svid doc] & H1 & H2). pose proof checks_doc as Hd. rewrite H1 in Hd.
  apply andb_true_iff in Hd as [_ Hi%Z.eqb_eq]. exact (ex_intro _ svid (ex_intro _ doc (ex_intro _ _ (conj eq_refl (conj Hi (conj H1 H2)))))).
Qed.

Lemma replay_accepted_at_boundary_witness :
  ∃ g1 g2 h doc, call_authenticate no_revocations (host_call_of None) 1000 (guard_new default_host_call_config) = (g1, Ok (h, doc)) ∧
    call_authenticate no_revocations (host_call_of None) 1600 g1 = (g2, Ok (h, doc)).
Proof.
  destruct boundary_checks as (svid & doc & n & Hn & Hi & H1 & H2).
  destruct (replay_accepted_at_boundary toy_primitives toy_p256 host_issuer default_host_call_config no_revocations (host_call_of None) 1000 svid doc n
    eq_refl Hn ltac:(rewrite Hi; lia) ltac:(lia) H1 H2) as (g1 & g2 & A1 & A2).
  exact (ex_intro _ g1 (ex_intro _ g2 (ex_intro _ (authenticated svid) (ex_intro _ doc (conj A1 A2))))).
Defined.

Lemma replay_refused_witness :
  ∃ s a1 a2, rtc (node_step toy_primitives toy_p256 host_issuer (D := AuditForwardDoc) (E := HostCallDocError))
      (node_init default_host_call_config no_revocations) s ∧
    n_accepted s = [a2; a1] ∧ replays a1 a2 ∧ ac_now a2 ≤ ac_now a1 + 600.
Proof.
  destruct boundary_checks as (svid & doc & n & Hn & Hi & H1 & H2).
  destruct (boundary_replay toy_primitives toy_p256 host_issuer default_host_call_config no_revocations (host_call_of None) 1000 svid doc n
    eq_refl Hn ltac:(rewrite Hi; lia) ltac:(lia) H1 H2) as (g1 & g2 & A1 & A2).
  change (1000 + 600) with 1600 in A2.
  destruct (authenticate_steps toy_primitives toy_p256 host_issuer _ _ _ _ _ _ _ [] [] [] A1) as (s1 & C1 & R1).
  rewrite H1 in C1. injection C1 as <-.
  destruct (authenticate_steps toy_primitives toy_p256 host_issuer _ _ _ _ _ _ _ [] [{| ac_svid := svid; ac_doc := doc; ac_now := 1000 |}] [1000] A2)
    as (s2 & C2 & R2). rewrite H2 in C2. injection C2 as <-.
  assert (replays {| ac_svid := svid; ac_doc := doc; ac_now := 1000 |} {| ac_svid := svid; ac_doc := doc; ac_now := 1600 |}) as Hrep.
  { exists (hs_host_uuid svid, n). unfold call_key. cbn [ac_svid ac_doc]. rewrite Hn. exact (conj eq_refl (conj eq_refl eq_refl)). }
  pose proof (transitivity R1 R2) as R.
  pose proof (replay_refused toy_primitives toy_p256 host_issuer default_host_call_config no_revocations _ [] _ [] _ [] R eq_refl Hrep) as [Hle _].
  exact (ex_intro _ _ (ex_intro _ _ (ex_intro _ _ (conj R (conj eq_refl (conj Hrep Hle)))))).
Defined.
