(* ===== verification/HelperProto.v ===== *)
(** The helper protocol (mia-helper-proto/src/lib.rs, mia/src/helper/proto.rs): messages with
    their bounds, frames with a length prefix, and 128-bit identifiers as text. *)
From stdpp Require Import gmap.
From S2P Require Import Prelude AppModel AppDedup Order AllowlistV2 AppPath.
Open Scope Z_scope.

(** ** Bounds *)
Definition MAX_FRAME_LEN : Z := 64 * 1024.
Definition PROTOCOL_V2 : Z := 2.
Definition ID_LEN : nat := 16.
Definition MAX_REASON_CHARS : nat := 200.
Definition MAX_CLIENT_PATH_BYTES : nat := 4096.
Definition MAX_STATUS_IDS : nat := 50.
Definition MAX_USER_SEL_CHARS : nat := 256.
Definition MAX_TOKEN_FIELD_BYTES : nat := 2048.

(** ** Messages *)
Record HelperReq := { hr_audience : string; hr_dpop_jkt : string; hr_ttl_secs : Z }.
Record ChildToken := { ct_jws : string; ct_exp : Z }.
Inductive ErrorCode := PermissionDeniedCode | NoHostSvid | CrlStaleCode | MalformedRequest | RateLimited | InternalCode.
Inductive HelperResp := RespToken (t : ChildToken) | RespError (code : ErrorCode) (retry_after : option Z).

Inductive UserSel := SelUid (uid : Z) | SelName (name : string) | SelSid (sid : string).
Inductive HelperOp :=
  | OpToken (audience dpop_jkt : string) (ttl_secs : Z)
  | OpRegisterSelf (client_request_id : list u8) (reason : option string)
  | OpRegisterFile (client_request_id : list u8) (path : string) (for_user : option UserSel) (reason : option string)
  | OpRequestStatus (request_ids : list (list u8)).
Record HelperFrame := { hf_v : Z; hf_op : HelperOp }.
Inductive Request := Legacy (r : HelperReq) | V2 (f : HelperFrame).
Inductive ProtoError :=
  | ProtoIo | ProtoTooLarge (n : nat) | ProtoEncode (e : string) | ProtoDecode (e : string) | ProtoInvalid (field : string).

Inductive LocalState := Queued | LsPending | LsApproved | LsAutoApproved | LsDenied | LsExpired | LsRefused.
#[export] Instance LocalState_eq_dec : EqDecision LocalState.
Proof. solve_decision. Defined.
Definition ls_is_open (s : LocalState) : bool := match s with Queued | LsPending => true | _ => false end.
Definition ls_is_approved (s : LocalState) : bool := match s with LsApproved | LsAutoApproved => true | _ => false end.
Inductive RegErrorCode :=
  | RegPermissionDenied | RegistrationDisabled | ServerUnsupported | FileNotEligible | FileTooLarge | RegRateLimited
  | RegMalformedRequest | RegInternal.
Record LocalRequestStatus := {
  lr_local_id : list u8; lr_request_id : option (list u8); lr_state : LocalState; lr_revision : option Z;
  lr_approval_id : option (list u8); lr_path : string; lr_updated_at : Z; lr_deny_reason_code : option Z;
  lr_deny_message : option string }.
Inductive RegistrationResp :=
  | Submitted (request_id : option (list u8)) (local_id : list u8) (state : LocalState) (revision : option Z)
      (approval_id : option (list u8)) (retry_after : option Z)
  | AlreadyApproved (approval_id : list u8)
  | StatusResp (rows : list LocalRequestStatus)
  | RegError (code : RegErrorCode) (retry_after : option Z).

Definition frame_new (op : HelperOp) : HelperFrame := {| hf_v := PROTOCOL_V2; hf_op := op |}.

(** ** Validation *)

(** The characters of a string, which Rust keeps as valid UTF-8. *)
Definition chars (s : string) : list Z := default [] (utf8_decode (as_bytes s)).
(** [char::is_control]: general category Cc. *)
Definition is_control (c : Z) : bool := in_range 0 31 c || in_range 127 159 c.

Definition bounded_bytes (s : string) (max : nat) (field : string) : result ProtoError unit :=
  if (max <? String.length s)%nat then Err (ProtoInvalid field) else Ok tt.
Definition check_reason (reason : option string) : result ProtoError unit :=
  match reason with
  | Some r => if (MAX_REASON_CHARS <? length (chars r))%nat then Err (ProtoInvalid "reason") else Ok tt
  | None => Ok tt
  end.
Definition user_sel_validate (s : UserSel) : result ProtoError unit :=
  match s with
  | SelUid _ => Ok tt
  | SelName s | SelSid s =>
      if String.eqb s "" || (MAX_USER_SEL_CHARS <? length (chars s))%nat || existsb is_control (chars s)
      then Err (ProtoInvalid "for_user") else Ok tt
  end.
Definition frame_validate (f : HelperFrame) : result ProtoError unit :=
  if negb (hf_v f =? PROTOCOL_V2) then Err (ProtoInvalid "v") else
  match hf_op f with
  | OpToken audience dpop_jkt _ =>
      let? _ := bounded_bytes audience MAX_TOKEN_FIELD_BYTES "audience" in
      bounded_bytes dpop_jkt MAX_TOKEN_FIELD_BYTES "dpop_jkt"
  | OpRegisterSelf _ reason => check_reason reason
  | OpRegisterFile _ path for_user reason =>
      if String.eqb path "" || bool_decide (Byte.x00 ∈ as_bytes path) then Err (ProtoInvalid "path") else
      let? _ := bounded_bytes path MAX_CLIENT_PATH_BYTES "path" in
      let? _ := match for_user with Some sel => user_sel_validate sel | None => Ok tt end in
      check_reason reason
  | OpRequestStatus ids => if (MAX_STATUS_IDS <? length ids)%nat then Err (ProtoInvalid "request_ids") else Ok tt
  end.

(** ** Frames *)

(** [u32::to_be_bytes], [u32::from_be_bytes]. *)
Definition to_be_bytes (n : nat) : list u8 :=
  let z := Z.of_nat n in [u8.of_Z (z / 2 ^ 24); u8.of_Z (z / 2 ^ 16); u8.of_Z (z / 2 ^ 8); u8.of_Z z].
Definition from_be_bytes (b : list u8) : nat := Z.to_nat (foldl (λ acc x, 256 * acc + u8.to_Z x) 0 b).

Section Codec.
Context `{FC : !Cbor HelperFrame, RC : !Cbor HelperReq}.

Definition decode_request (body : list u8) : result ProtoError Request :=
  if MAX_FRAME_LEN <? Z.of_nat (length body) then Err (ProtoTooLarge (length body)) else
  match from_reader (A := HelperFrame) body with
  | Ok frame => let? _ := frame_validate frame in Ok (V2 frame)
  | Err v2 => match from_reader (A := HelperReq) body with Ok r => Ok (Legacy r) | Err _ => Err (ProtoDecode v2) end
  end.
End Codec.

Definition encode_frame {A} `{Cbor A} (value : A) : result ProtoError (list u8) :=
  let? body := map_err ProtoEncode (into_writer value) in
  if MAX_FRAME_LEN <? Z.of_nat (length body) then Err (ProtoTooLarge (length body)) else
  if 2 ^ 32 <=? Z.of_nat (length body) then Err (ProtoTooLarge (length body)) else
  Ok (to_be_bytes (length body) ++ body).
Definition decode_body {A} `{Cbor A} (body : list u8) : result ProtoError A :=
  if MAX_FRAME_LEN <? Z.of_nat (length body) then Err (ProtoTooLarge (length body)) else map_err ProtoDecode (from_reader body).
Definition frame_len (prefix : list u8) : result ProtoError nat :=
  let len := from_be_bytes prefix in if MAX_FRAME_LEN <? Z.of_nat len then Err (ProtoTooLarge len) else Ok len.

(** [Read::read_exact] on what a peer sent before closing: the bytes and the rest. *)
Definition read_exact (n : nat) (r : list u8) : result ProtoError (list u8 * list u8) :=
  if (length r <? n)%nat then Err ProtoIo else Ok (take n r, drop n r).
Definition read_frame_body (r : list u8) : result ProtoError (list u8 * list u8) :=
  let? p := read_exact 4 r in
  let? len := frame_len p.1 in
  read_exact len p.2.
Definition read_frame {A} `{Cbor A} (r : list u8) : result ProtoError A :=
  let? p := read_frame_body r in decode_body p.1.

(** ** Identifiers *)
Definition HEX : list u8 := as_bytes "0123456789abcdef".
Definition hex_pair (b : u8) : list u8 :=
  let z := u8.to_Z b in
  [nth (Z.to_nat (Z.shiftr z 4)) HEX Byte.x00; nth (Z.to_nat (Z.land z 15)) HEX Byte.x00].
Definition hyphen : u8 := Byte.x2d.
(** The loop of [format_id]: the text of the bytes from index [i] on. *)
Fixpoint format_loop (i : nat) (id : list u8) : list u8 :=
  match id with
  | [] => []
  | b :: rest =>
      (if bool_decide (i ∈ [4; 6; 8; 10]%nat) then [hyphen] else []) ++ hex_pair b ++ format_loop (S i) rest
  end.
Definition format_id (id : list u8) : list u8 := format_loop 0 id.

Definition nibble (c : u8) : option Z :=
  let z := u8.to_Z c in
  if in_range 48 57 z then Some (z - 48)
  else if in_range 97 102 z then Some (z - 97 + 10)
  else if in_range 65 70 z then Some (z - 65 + 10)
  else None.
Fixpoint parse_pairs (digits : list u8) : option (list u8) :=
  match digits with
  | a :: b :: rest =>
      x ← nibble a; y ← nibble b; r ← parse_pairs rest;
      Some (u8.of_Z (Z.lor (Z.shiftl x 4) y) :: r)
  | _ => Some []
  end.
Definition parse_id (text : list u8) : option (list u8) :=
  let digits :=
    if (length text =? 32)%nat then Some text
    else if (length text =? 36)%nat then
      if existsb (λ i, negb (bool_decide (text !! i = Some hyphen))) [8; 13; 18; 23]%nat then None
      else Some (filter (λ b, b ≠ hyphen) text)
    else None in
  match digits with
  | Some ds => if negb (length ds =? 32)%nat then None else parse_pairs ds
  | None => None
  end.
Definition uuid_v4 (random : list u8) : list u8 :=
  let b6 := u8.of_Z (Z.lor (Z.land (u8.to_Z (nth 6 random Byte.x00)) 15) 64) in
  let b8 := u8.of_Z (Z.lor (Z.land (u8.to_Z (nth 8 random Byte.x00)) 63) 128) in
  <[8%nat := b8]> (<[6%nat := b6]> random).

(** ** Theorems *)
Lemma from_to_be n : Z.of_nat n < 2 ^ 32 → from_be_bytes (to_be_bytes n) = n.
Proof.
  intros Hn. unfold from_be_bytes, to_be_bytes. cbn [foldl]. rewrite !u8_of_Z_to_Z.
  rewrite <- (Nat2Z.id n) at 5. f_equal. set (z := Z.of_nat n) in *.
  pose proof (Z.div_mod z (2 ^ 8) ltac:(lia)). pose proof (Z.div_mod (z / 2 ^ 8) (2 ^ 8) ltac:(lia)).
  pose proof (Z.div_mod (z / 2 ^ 16) (2 ^ 8) ltac:(lia)).
  rewrite !Z.div_div in * by lia. change (2 ^ 8 * 2 ^ 8) with (2 ^ 16) in *. change (2 ^ 16 * 2 ^ 8) with (2 ^ 24) in *.
  rewrite (Z.mod_small (z / 2 ^ 24) 256); [change 256 with (2 ^ 8); lia|].
  split; [apply Z.div_pos; lia|]. apply Z.div_lt_upper_bound; lia.
Qed.
Lemma to_be_bytes_length n : length (to_be_bytes n) = 4%nat.
Proof. done. Qed.

Lemma read_exact_app n a r : length a = n → read_exact n (a ++ r) = Ok (a, r).
Proof.
  intros <-. unfold read_exact. rewrite (proj2 (Nat.ltb_ge _ _)) by (rewrite length_app; lia).
  by rewrite take_app_length, drop_app_length.
Qed.

Lemma encode_frame_ok {A} `{Cbor A} (v : A) b : encode_frame v = Ok b →
  ∃ body, into_writer v = Ok body ∧ Z.of_nat (length body) ≤ MAX_FRAME_LEN ∧ Z.of_nat (length body) < 2 ^ 32 ∧ b = to_be_bytes (length body) ++ body.
Proof.
  unfold encode_frame. destruct (into_writer v) as [body|]; cbn [map_err]; [|done].
  destruct (Z.ltb_spec MAX_FRAME_LEN (Z.of_nat (length body))); [done|]. destruct (Z.leb_spec (2 ^ 32) (Z.of_nat (length body))); [done|].
  intros [= <-]. by exists body.
Qed.

(** A frame one side encodes, the other reads back with the rest of the stream untouched; a
    frame cut short is an I/O error, never a shorter message. *)
Theorem frame_roundtrip {A} `{CL : CborLaws A} (v : A) b rest :
  encode_frame v = Ok b →
  (∃ body, read_frame_body (b ++ rest) = Ok (body, rest)) ∧ read_frame (b ++ rest) = Ok v ∧
  ∀ n, (n < length b)%nat → read_frame_body (take n b) = Err ProtoIo.
Proof.
  intros (body & Hw & Hm & Hl & ->)%encode_frame_ok.
  assert (read_frame_body ((to_be_bytes (length body) ++ body) ++ rest) = Ok (body, rest)) as Hr.
  { unfold read_frame_body. rewrite <- app_assoc, read_exact_app by done. cbn [fst snd]. unfold frame_len.
    rewrite from_to_be by done. rewrite (proj2 (Z.ltb_ge _ _)) by done. by apply read_exact_app. }
  split_and!.
  - by exists body.
  - unfold read_frame. rewrite Hr. cbn [fst]. unfold decode_body. rewrite (proj2 (Z.ltb_ge _ _)) by done. by rewrite (from_into v body Hw).
  - intros n Hn. unfold read_frame_body. rewrite length_app, to_be_bytes_length in Hn.
    destruct (Nat.lt_ge_cases n 4) as [Hlt|Hge].
    + unfold read_exact at 1. rewrite (proj2 (Nat.ltb_lt _ _)); [done|]. rewrite length_take, length_app, to_be_bytes_length. lia.
    + rewrite take_app_ge by (rewrite to_be_bytes_length; lia). rewrite read_exact_app by done. cbn [fst snd]. unfold frame_len.
      rewrite from_to_be by done. rewrite (proj2 (Z.ltb_ge _ _)) by done. unfold read_exact.
      rewrite (proj2 (Nat.ltb_lt _ _)); [done|]. rewrite length_take, to_be_bytes_length. lia.
Qed.

(** What a decoded request satisfies, whatever bytes a local process sent. *)
Definition op_bounded (op : HelperOp) : Prop :=
  match op with
  | OpToken audience dpop_jkt _ => (String.length audience ≤ 2048 ∧ String.length dpop_jkt ≤ 2048)%nat
  | OpRegisterSelf _ reason => ∀ r, reason = Some r → (length (chars r) ≤ 200)%nat
  | OpRegisterFile _ path for_user reason =>
      path ≠ "" ∧ (Byte.x00 ∉ as_bytes path) ∧ (String.length path ≤ 4096)%nat ∧
      (∀ r, reason = Some r → (length (chars r) ≤ 200)%nat) ∧
      (∀ s, for_user = Some (SelName s) ∨ for_user = Some (SelSid s) →
         s ≠ "" ∧ (length (chars s) ≤ 256)%nat ∧ ∀ c, c ∈ chars s → is_control c = false)
  | OpRequestStatus ids => (length ids ≤ 50)%nat
  end.

Lemma bounded_bytes_ok s max field : bounded_bytes s max field = Ok tt → (String.length s ≤ max)%nat.
Proof. unfold bounded_bytes. destruct (Nat.ltb_spec max (String.length s)); [done|lia]. Qed.
Lemma check_reason_ok reason : check_reason reason = Ok tt → ∀ r, reason = Some r → (length (chars r) ≤ 200)%nat.
Proof. intros H r ->. unfold check_reason, MAX_REASON_CHARS in H. destruct (Nat.ltb_spec 200 (length (chars r))); [done|lia]. Qed.
Lemma user_sel_ok sel : user_sel_validate sel = Ok tt → ∀ s, sel = SelName s ∨ sel = SelSid s →
  s ≠ "" ∧ (length (chars s) ≤ 256)%nat ∧ ∀ c, c ∈ chars s → is_control c = false.
Proof.
  intros H s Hs. assert (String.eqb s "" || (MAX_USER_SEL_CHARS <? length (chars s))%nat || existsb is_control (chars s) = false) as Hb.
  { destruct Hs as [Hs|Hs]; subst sel; cbn in H; by destruct (_ || _). }
  apply orb_false_iff in Hb as [[H1%String.eqb_neq H2%Nat.ltb_ge]%orb_false_iff H3]. split_and!; [done|exact H2|].
  intros c Hc. apply not_true_is_false. intros Ht. apply not_true_iff_false in H3. apply H3, existsb_exists.
  exists c. by rewrite <- list_elem_of_In.
Qed.
Lemma frame_validate_ok f : frame_validate f = Ok tt → hf_v f = 2 ∧ op_bounded (hf_op f).
Proof.
  unfold frame_validate. destruct (Z.eqb_spec (hf_v f) PROTOCOL_V2) as [Hv|]; cbn [negb]; [|done]. intros H. split; [exact Hv|]. revert H.
  destruct (hf_op f) as [a d ttl|c r|c p u r|ids]; cbn [op_bounded].
  - destruct (bounded_bytes a _ _) as [[]|] eqn:Ea; [|done]. intros H%bounded_bytes_ok. apply bounded_bytes_ok in Ea. done.
  - apply check_reason_ok.
  - destruct (String.eqb_spec p "") as [|Hp]; cbn [orb]; [done|]. case_bool_decide as Hz; [done|].
    destruct (bounded_bytes p _ _) as [[]|] eqn:Ep; [|done]. apply bounded_bytes_ok in Ep.
    destruct u as [sel|].
    + destruct (user_sel_validate sel) as [[]|] eqn:Eu; [|done]. intros Hr. split_and!; try done; [by apply check_reason_ok|].
      intros s Hs. apply (user_sel_ok sel Eu). naive_solver.
    + intros Hr. split_and!; try done; [by apply check_reason_ok|]. intros s [|]; done.
  - unfold MAX_STATUS_IDS. destruct (Nat.ltb_spec 50 (length ids)); [done|lia].
Qed.

Section DecodeTheorems.
Context `{FC : !Cbor HelperFrame, RC : !Cbor HelperReq, FL : !CborLaws HelperFrame, RL : !CborLaws HelperReq}.

(** Every request the daemon acts on is within its bounds, and each client's encoding is taken
    for what it is: a valid v2 frame for that frame, and a v1 request for that request as long
    as its map does not decode as an envelope. *)
Theorem decode_request_correct :
  (∀ body req, decode_request body = Ok req →
     Z.of_nat (length body) ≤ 65536 ∧ match req with V2 f => hf_v f = 2 ∧ op_bounded (hf_op f) | Legacy _ => True end) ∧
  (∀ f body, into_writer f = Ok body → Z.of_nat (length body) ≤ 65536 → frame_validate f = Ok tt → decode_request body = Ok (V2 f)) ∧
  (∀ r body e, into_writer (A := HelperReq) r = Ok body → Z.of_nat (length body) ≤ 65536 → from_reader (A := HelperFrame) body = Err e →
     decode_request body = Ok (Legacy r)).
Proof using FL RL.
  unfold decode_request. change MAX_FRAME_LEN with 65536. split_and!.
  - intros body req. destruct (Z.ltb_spec 65536 (Z.of_nat (length body))); [done|].
    destruct (from_reader (A := HelperFrame) body) as [f|e].
    + destruct (frame_validate f) as [[]|] eqn:Ev; [|done]. intros [= <-]. split; [done|]. by apply frame_validate_ok.
    + destruct (from_reader (A := HelperReq) body); [|done]. by intros [= <-].
  - intros f body Hw Hl Hv. rewrite (proj2 (Z.ltb_ge _ _)) by done. by rewrite (from_into f body Hw), Hv.
  - intros r body e Hw Hl He. rewrite (proj2 (Z.ltb_ge _ _)) by done. by rewrite He, (from_into r body Hw).
Qed.
End DecodeTheorems.

(** *** Identifiers *)
Lemma hex_pair_one b : parse_pairs (hex_pair b) = Some [b].
Proof. revert b. apply (u8.forall1 (λ b, parse_pairs (hex_pair b) = Some [b])). vm_compute. reflexivity. Qed.
Lemma hex_pair_parse b rest : parse_pairs (hex_pair b ++ rest) = (r ← parse_pairs rest; Some (b :: r)).
Proof.
  pose proof (hex_pair_one b) as H. assert (∃ h l, hex_pair b = [h; l]) as (h & l & E) by (by eexists _, _). rewrite E in *.
  cbn [app parse_pairs] in *. destruct (nibble h) as [x|]; [|done]. cbn in *. destruct (nibble l) as [y|]; [|done]. cbn in *. by injection H as ->.
Qed.

Definition hex_text (id : list u8) : list u8 := id ≫= hex_pair.
Lemma hex_text_length id : length (hex_text id) = (2 * length id)%nat.
Proof. induction id as [|b id IH]; [done|]. unfold hex_text in *. rewrite bind_cons, length_app, IH. cbn. lia. Qed.
Lemma parse_hex_text id : parse_pairs (hex_text id) = Some id.
Proof. induction id as [|b id IH]; [done|]. unfold hex_text in *. rewrite bind_cons, hex_pair_parse, IH. done. Qed.
Lemma hex_pair_no_hyphen b : filter (λ x, x ≠ hyphen) (hex_pair b) = hex_pair b.
Proof. revert b. apply (u8.forall1 (λ b, filter (λ x, x ≠ hyphen) (hex_pair b) = hex_pair b)). vm_compute. reflexivity. Qed.
Lemma hex_text_no_hyphen id : filter (λ x, x ≠ hyphen) (hex_text id) = hex_text id.
Proof. induction id as [|b id IH]; [done|]. unfold hex_text in *. by rewrite bind_cons, filter_app, hex_pair_no_hyphen, IH. Qed.

Lemma format_loop_digits i id : filter (λ x, x ≠ hyphen) (format_loop i id) = hex_text id.
Proof.
  revert i. induction id as [|b id IH]; intros i; [done|]. cbn [format_loop]. unfold hex_text. rewrite bind_cons, !filter_app, hex_pair_no_hyphen, IH.
  by case_bool_decide.
Qed.
Lemma parse_pairs_length ds id : parse_pairs ds = Some id → length ds = (2 * (length ds / 2))%nat → length id = (length ds / 2)%nat.
Proof.
  revert id. induction ds as [|x|x y ds IH] using list_pair_ind; intros id H Hl; cbn [parse_pairs] in H.
  - by injection H as <-.
  - done.
  - destruct (nibble x); [|done]. cbn in H. destruct (nibble y); [|done]. cbn in H. destruct (parse_pairs ds) as [r|]; [|done]. injection H as <-.
    cbn [length] in *. replace (S (S (length ds))) with (length ds + 1 * 2)%nat in * by lia. rewrite Nat.div_add in * by lia.
    rewrite (IH r eq_refl); lia.
Qed.

(** The text of an identifier parses back to it, hyphenated or as 32 bare digits, and nothing
    but 16 bytes is ever parsed. *)
Theorem id_roundtrip :
  (∀ id, length id = 16%nat → parse_id (format_id id) = Some id ∧ parse_id (hex_text id) = Some id) ∧
  (∀ text id, parse_id text = Some id → length id = 16%nat).
Proof.
  split.
  - intros id Hid. split.
    + assert (length (format_id id) = 36%nat ∧
        existsb (λ i, negb (bool_decide (format_id id !! i = Some hyphen))) [8; 13; 18; 23]%nat = false) as [Hl Hp].
      { do 16 (destruct id as [|? id]; [done|]). by destruct id. }
      unfold parse_id. rewrite Hl, Hp. cbn [Nat.eqb]. unfold format_id. rewrite format_loop_digits, hex_text_length, Hid. apply parse_hex_text.
    + unfold parse_id. rewrite hex_text_length, Hid. cbn. rewrite hex_text_length, Hid. cbn. apply parse_hex_text.
  - intros text id. unfold parse_id. destruct (if (length text =? 32)%nat then Some text else _) as [ds|]; [|done].
    destruct (Nat.eqb_spec (length ds) 32) as [Hd|]; cbn [negb]; [|done]. intros H. apply parse_pairs_length in H; rewrite Hd in *; done.
Qed.
