(* ===== verification/ChildToken.v ===== *)
(** Child tokens: the minter (mia/src/helper/token.rs), the agent's revocation gate
    (mia/src/helper/crl.rs) and the reference verifier with its DPoP sender constraint
    (ferro-child-verify/src/lib.rs). *)
From stdpp Require Import gmap.
From S2P Require Import Prelude AppModel AppDedup Order Composite AllowlistV2 AllowlistCompile AppPath MiaAllowlist Svid.
Open Scope Z_scope.

(** ** Tokens *)
Definition MAX_CHILD_TTL_SECS : Z := 600.
Definition CHILD_TOKEN_TYP : string := "ferrogate-child+jwt".
Definition CHILD_TOKEN_SIGNING_CONTEXT : list u8 := as_bytes "ferrogate-child-token-v1".

(** [ChildHeader] has the members of [JwsHeader]; [cnf] holds the one member [jkt]. *)
Definition child_header (kid : string) : JwsHeader := {| jh_alg := COMPOSITE_JOSE_ALG; jh_typ := CHILD_TOKEN_TYP; jh_kid := kid |}.
Record FerrogateClaim := { fc_parent_svid : string; fc_actor_pid : Z; fc_actor_uid : Z; fc_actor_bin : string }.
Record ChildClaims := {
  cc_iss : string; cc_sub : string; cc_aud : string; cc_exp : Z; cc_iat : Z; cc_jti : string; cc_cnf_jkt : string;
  cc_ferrogate : FerrogateClaim }.

(** [CallerIdentity] (auth.rs); its path is the bytes of its text. *)
Record CallerIdentity := {
  ci_pid : Z; ci_uid : Z; ci_gid : Z; ci_bin_sha : list u8; ci_exe_path : option (list u8); ci_user_sid : option string }.

(** ** DPoP proofs *)
Definition DPOP_TYP : string := "dpop+jwt".
Definition DPOP_ALG : string := "EdDSA".
Record DpopJwk := { dk_kty : string; dk_crv : string; dk_x : string }.
Record DpopHeader := { dh_typ : string; dh_alg : string; dh_jwk : DpopJwk }.
Record DpopClaims := { dc_htm : string; dc_htu : string; dc_iat : Z }.
Record DpopExpectation := { de_htm : string; de_htu : string; de_max_age_secs : Z }.

Class ChildJson := {
  child_claims_json :: Json ChildClaims; dpop_header_json :: Json DpopHeader; dpop_claims_json :: Json DpopClaims }.
Class ChildJsonLaws `{ChildJson} := {
  child_claims_json_laws :: JsonLaws ChildClaims; dpop_header_json_laws :: JsonLaws DpopHeader;
  dpop_claims_json_laws :: JsonLaws DpopClaims }.

Inductive ChildVerifyError :=
  | CvMalformed | CvUnexpectedHeader | CvUnknownKid (kid : string) | CvBadSignature | CvExpired | MissingDpopProof
  | DpopProofInvalid | DpopBindingMismatch | DpopThumbprintMismatch | DpopStale.
Record ChildVerified := { cv_claims : ChildClaims; cv_kid : string }.

(** ** The minter *)
Inductive MintError := ParentExpired | MintSign (e : CompositeError) | MintPanic.
Record MintedToken := { mt_jws : string; mt_jti : list u8; mt_exp : Z }.

(** ** The gate on revocation *)
Definition CRL_FRESHNESS_LEEWAY_SECS : Z := 60.
Inductive CrlGate := GateOk | GateStale | GateRevoked.
Definition CrlCache : Type := option CrlBody.
Definition crl_store (body : CrlBody) (c : CrlCache) : CrlCache := Some body.
Definition crl_gate (c : CrlCache) (parent_cert_sha_hex host_spiffe_id : string) (now : Z) : CrlGate :=
  match c with
  | None => GateStale
  | Some body =>
      if negb (is_fresh body now CRL_FRESHNESS_LEEWAY_SECS) then GateStale
      else if revokes_svid body parent_cert_sha_hex || revokes_host body host_spiffe_id then GateRevoked
      else GateOk
  end.
Inductive CrlIngestError := MalformedJwks (e : string) | CrlAbsent | CrlIngestVerify (e : CrlError).
Inductive CrlRefreshError := CrlTransport | CrlIngest (e : CrlIngestError).

(** A double quote. *)
Definition dq : string := String (Ascii.ascii_of_nat 34) EmptyString.

Section ChildToken.
Context (P : Primitives) `{SJ : !SvidJson, CJ : !ChildJson, JJ : !Json JwkSet}.

Record MinterConfig := {
  mc_host_spiffe_id : string; mc_parent_svid_sha384 : list u8; mc_parent_expires_at : Z; mc_kid : string }.
Record ChildTokenMinter := { mn_secret : CompositeSecretKey (EdSk P) (MlSk P); mn_cfg : MinterConfig }.

Definition with_parent (m : ChildTokenMinter) (sha : list u8) (expires_at : Z) : ChildTokenMinter :=
  {| mn_secret := mn_secret m;
     mn_cfg := {| mc_host_spiffe_id := mc_host_spiffe_id (mn_cfg m); mc_parent_svid_sha384 := sha;
                  mc_parent_expires_at := expires_at; mc_kid := mc_kid (mn_cfg m) |} |}.
Definition parent_valid_at (m : ChildTokenMinter) (now : Z) : bool := now <? mc_parent_expires_at (mn_cfg m).
Definition parent_cert_sha_hex (m : ChildTokenMinter) : string := hex_encode P (mc_parent_svid_sha384 (mn_cfg m)).

(** The claims [mint] stamps. *)
Definition minted_claims (m : ChildTokenMinter) (audience dpop_jkt : string) (ttl_secs : Z) (actor : CallerIdentity) (now : Z)
    (jti : list u8) : ChildClaims :=
  let cfg := mn_cfg m in
  let actor_bin := hex_encode P (ci_bin_sha actor) in
  {| cc_iss := mc_host_spiffe_id cfg; cc_sub := mc_host_spiffe_id cfg +:+ "#app:" +:+ String.substring 0 16 actor_bin;
     cc_aud := audience; cc_exp := Z.min (wrap_i64 (now + Z.min ttl_secs MAX_CHILD_TTL_SECS)) (mc_parent_expires_at cfg);
     cc_iat := now; cc_jti := hex_encode P jti; cc_cnf_jkt := dpop_jkt;
     cc_ferrogate := {| fc_parent_svid := hex_encode P (mc_parent_svid_sha384 cfg); fc_actor_pid := ci_pid actor;
                        fc_actor_uid := ci_uid actor; fc_actor_bin := actor_bin |} |}.

(** [jti] and [rng] are what the system's generator returns. *)
Definition mint (m : ChildTokenMinter) (audience dpop_jkt : string) (ttl_secs : Z) (actor : CallerIdentity) (now : Z)
    (jti : list u8) (rng : result string (list u8)) : result MintError MintedToken :=
  if negb (parent_valid_at m now) then Err ParentExpired else
  let claims := minted_claims m audience dpop_jkt ttl_secs actor now jti in
  let? hb := map_err (λ _, MintPanic) (to_vec (child_header (mc_kid (mn_cfg m)))) in
  let? pb := map_err (λ _, MintPanic) (to_vec claims) in
  let signing_input := b64url_encode P hb +:+ "." +:+ b64url_encode P pb in
  let? sig := map_err MintSign (composite_sign P (mn_secret m) rng CHILD_TOKEN_SIGNING_CONTEXT (as_bytes signing_input)) in
  Ok {| mt_jws := signing_input +:+ "." +:+ b64url_encode P (sig_to_concat_bytes sig); mt_jti := jti; mt_exp := cc_exp claims |}.

(** ** Pulling the list *)
Definition crl_ingest (jwks_json : list u8) : result CrlIngestError CrlBody :=
  let? jwks := map_err MalformedJwks (from_slice (A := JwkSet) jwks_json) in
  match js_crl jwks with
  | None => Err CrlAbsent
  | Some signed => map_err CrlIngestVerify (crl_verify P signed jwks)
  end.
(** [refresh_once], over the answer of the JWKS call. *)
Definition refresh_once (answer : option (list u8)) (c : CrlCache) : CrlCache * result CrlRefreshError Z :=
  match answer with
  | None => (c, Err CrlTransport)
  | Some jwks_json =>
      match crl_ingest jwks_json with
      | Err e => (c, Err (CrlIngest e))
      | Ok body => (crl_store body c, Ok (cb_number body))
      end
  end.

(** ** Verification *)
Definition child_decode_json {A} `{Json A} (segment : string) : result ChildVerifyError A :=
  match b64url_decode P segment with
  | Some bytes => map_err (λ _, CvMalformed) (from_slice bytes)
  | None => Err CvMalformed
  end.
Definition decode_dpop_json {A} `{Json A} (segment : string) : result ChildVerifyError A :=
  match b64url_decode P segment with
  | Some bytes => map_err (λ _, DpopProofInvalid) (from_slice bytes)
  | None => Err DpopProofInvalid
  end.

Definition child_verify (jws : string) (jwks : JwkSet) (now leeway_secs : Z) : result ChildVerifyError ChildVerified :=
  match segments jws with
  | [p0; p1; p2] =>
      let? header := child_decode_json (A := JwsHeader) p0 in
      if negb (String.eqb (jh_alg header) COMPOSITE_JOSE_ALG) then Err CvUnexpectedHeader else
      if negb (String.eqb (jh_typ header) CHILD_TOKEN_TYP) then Err CvUnexpectedHeader else
      match jwk_find jwks (jh_kid header) with
      | None => Err (CvUnknownKid (jh_kid header))
      | Some jwk =>
          if negb (String.eqb (jwk_kty jwk) COMPOSITE_KTY) then Err CvUnexpectedHeader else
          let? pk := map_err (λ _, CvMalformed) (jwk_to_public_key P jwk) in
          match b64url_decode P p2 with
          | None => Err CvMalformed
          | Some sig_bytes =>
              let? sig := map_err (λ _, CvBadSignature) (sig_from_concat_bytes sig_bytes) in
              let? _ := map_err (λ _, CvBadSignature)
                          (composite_verify P pk CHILD_TOKEN_SIGNING_CONTEXT (as_bytes (p0 +:+ "." +:+ p1)) sig) in
              let? claims := child_decode_json (A := ChildClaims) p1 in
              if cc_exp claims <=? wrap_i64 (now - leeway_secs) then Err CvExpired else
              Ok {| cv_claims := claims; cv_kid := jh_kid header |}
          end
      end
  | _ => Err CvMalformed
  end.

Definition thumbprint_input (x_b64url : string) : string :=
  "{" +:+ dq +:+ "crv" +:+ dq +:+ ":" +:+ dq +:+ "Ed25519" +:+ dq +:+ "," +:+ dq +:+ "kty" +:+ dq +:+ ":" +:+ dq +:+ "OKP" +:+ dq
  +:+ "," +:+ dq +:+ "x" +:+ dq +:+ ":" +:+ dq +:+ x_b64url +:+ dq +:+ "}".
Definition jwk_thumbprint_ed25519 (x_b64url : string) : string :=
  b64url_encode P (vec_to_list (sha256 P (as_bytes (thumbprint_input x_b64url)))).

Definition verify_dpop_proof (proof_jws : string) (expect : DpopExpectation) (now leeway_secs : Z) : result ChildVerifyError string :=
  match segments proof_jws with
  | [p0; p1; p2] =>
      let? header := decode_dpop_json (A := DpopHeader) p0 in
      if negb (String.eqb (dh_typ header) DPOP_TYP) then Err DpopProofInvalid else
      if negb (String.eqb (dh_alg header) DPOP_ALG) then Err DpopProofInvalid else
      if negb (String.eqb (dk_kty (dh_jwk header)) "OKP") || negb (String.eqb (dk_crv (dh_jwk header)) "Ed25519")
      then Err DpopProofInvalid else
      match b64url_decode P (dk_x (dh_jwk header)) with
      | None => Err DpopProofInvalid
      | Some x_bytes =>
          if negb (length x_bytes =? 32)%nat then Err DpopProofInvalid else
          match ed_vk_from_bytes P x_bytes with
          | None => Err DpopProofInvalid
          | Some vk =>
              match b64url_decode P p2 with
              | None => Err DpopProofInvalid
              | Some sig_bytes =>
                  if negb (length sig_bytes =? 64)%nat then Err DpopProofInvalid else
                  if negb (verify_strict P vk (as_bytes (p0 +:+ "." +:+ p1)) sig_bytes) then Err DpopProofInvalid else
                  let? claims := decode_dpop_json (A := DpopClaims) p1 in
                  if negb (String.eqb (dc_htm claims) (de_htm expect)) || negb (String.eqb (dc_htu claims) (de_htu expect))
                  then Err DpopBindingMismatch else
                  if (wrap_i64 (now + leeway_secs) <? dc_iat claims) || (dc_iat claims <? wrap_i64 (now - de_max_age_secs expect))
                  then Err DpopStale else
                  Ok (jwk_thumbprint_ed25519 (dk_x (dh_jwk header)))
              end
          end
      end
  | _ => Err DpopProofInvalid
  end.

Definition verify_bound (jws : string) (jwks : JwkSet) (dpop_proof : option string) (expect : DpopExpectation) (now leeway_secs : Z) :
    result ChildVerifyError ChildVerified :=
  let? verified := child_verify jws jwks now leeway_secs in
  match dpop_proof with
  | None => Err MissingDpopProof
  | Some proof =>
      let? jkt := verify_dpop_proof proof expect now leeway_secs in
      if negb (String.eqb jkt (cc_cnf_jkt (cv_claims verified))) then Err DpopThumbprintMismatch else Ok verified
  end.
End ChildToken.
Arguments mn_secret {P}. Arguments mn_cfg {P}. Arguments with_parent {P}. Arguments parent_valid_at {P}. Arguments parent_cert_sha_hex {P}.

(** ** Theorems *)
Section ChildTheorems.
Context (P : Primitives) `{SJ : !SvidJson, CJ : !ChildJson, JJ : !Json JwkSet}.

(** What the verifier checked of a token it accepts. *)
Record child_facts (jws : string) (jwks : JwkSet) (now leeway : Z) (v : ChildVerified) (p0 p1 p2 : string) : Prop := {
  cf_segments : segments jws = [p0; p1; p2];
  cf_header : child_decode_json P p0 = Ok (child_header (cv_kid v));
  cf_claims : child_decode_json P p1 = Ok (cv_claims v);
  cf_signed : ∃ jwk pk sb sig, jwk_find jwks (cv_kid v) = Some jwk ∧ jwk_to_public_key P jwk = Ok pk ∧
    b64url_decode P p2 = Some sb ∧ sig_from_concat_bytes sb = Ok sig ∧
    composite_verify P pk CHILD_TOKEN_SIGNING_CONTEXT (as_bytes (p0 +:+ "." +:+ p1)) sig = Ok ();
  cf_unexpired : wrap_i64 (now - leeway) < cc_exp (cv_claims v) }.

Lemma child_verify_ok jws jwks now leeway v : child_verify P jws jwks now leeway = Ok v → ∃ p0 p1 p2, child_facts jws jwks now leeway v p0 p1 p2.
Proof.
  unfold child_verify. destruct (segments jws) as [|p0 [|p1 [|p2 [|]]]] eqn:Eseg; try done. intros H. inv_ok H. rename a into h.
  repeat match goal with Hb : negb _ = false |- _ => apply negb_false_iff, String.eqb_eq in Hb end.
  destruct (jwk_find jwks (jh_kid h)) as [jwk|] eqn:Ek; [|done]. inv_ok H. rename a into pk.
  destruct (b64url_decode P p2) as [sb|] eqn:Esb; [|done]. inv_ok H. injection H as <-.
  repeat match goal with E : map_err _ _ = Ok _ |- _ => apply map_err_ok in E end.
  match goal with E : (_ <=? _) = false |- _ => apply Z.leb_gt in E end.
  exists p0, p1, p2. split; cbn [cv_claims cv_kid]; try done.
  - destruct h as [al ty k]. cbn in *. by subst.
  - eexists _, _, _, _. done.
Qed.

(** The facts behind an accepted proof. *)
Record dpop_facts (proof : string) (expect : DpopExpectation) (now leeway : Z) (jkt : string) (x : string) : Prop := {
  df_key : jkt = jwk_thumbprint_ed25519 P x;
  df_signed : ∃ p0 p1 p2 xb vk sb claims, segments proof = [p0; p1; p2] ∧ b64url_decode P x = Some xb ∧ ed_vk_from_bytes P xb = Some vk ∧
    b64url_decode P p2 = Some sb ∧ verify_strict P vk (as_bytes (p0 +:+ "." +:+ p1)) sb = true ∧
    decode_dpop_json P p1 = Ok claims ∧ dc_htm claims = de_htm expect ∧ dc_htu claims = de_htu expect ∧
    wrap_i64 (now - de_max_age_secs expect) ≤ dc_iat claims ≤ wrap_i64 (now + leeway) }.

Lemma verify_dpop_ok proof expect now leeway jkt : verify_dpop_proof P proof expect now leeway = Ok jkt → ∃ x, dpop_facts proof expect now leeway jkt x.
Proof.
  unfold verify_dpop_proof. destruct (segments proof) as [|p0 [|p1 [|p2 [|]]]] eqn:Eseg; try done. intros H. inv_ok H. rename a into h.
  destruct (b64url_decode P (dk_x (dh_jwk h))) as [xb|] eqn:Ex; [|done]. destruct (negb _) in H; [done|].
  destruct (ed_vk_from_bytes P xb) as [vk|] eqn:Evk; [|done]. destruct (b64url_decode P p2) as [sb|] eqn:Esb; [|done]. inv_ok H. injection H as <-.
  repeat match goal with Hb : negb _ || negb _ = false |- _ => apply orb_false_iff in Hb as [?%negb_false_iff ?%negb_false_iff] end.
  repeat match goal with Hb : negb _ = false |- _ => apply negb_false_iff in Hb end.
  match goal with Hb : (_ <? _) || (_ <? _) = false |- _ => apply orb_false_iff in Hb as [?%Z.ltb_ge ?%Z.ltb_ge] end.
  repeat match goal with Hb : String.eqb _ _ = true |- _ => apply String.eqb_eq in Hb end.
  exists (dk_x (dh_jwk h)). split; [done|]. by eexists p0, p1, p2, xb, vk, sb, _.
Qed.

Lemma verify_bound_ok jws jwks proof expect now leeway v : verify_bound P jws jwks proof expect now leeway = Ok v →
  child_verify P jws jwks now leeway = Ok v ∧
  ∃ pr, proof = Some pr ∧ verify_dpop_proof P pr expect now leeway = Ok (cc_cnf_jkt (cv_claims v)).
Proof.
  unfold verify_bound. intros H. inv_ok H. destruct proof as [pr|]; [|done]. inv_ok H. injection H as ->. split; [done|].
  exists pr. split; [done|]. match goal with Hb : negb _ = false |- _ => apply negb_false_iff, String.eqb_eq in Hb as <- end. done.
Qed.

(** A token is only accepted with a proof of possession: the token carries a valid composite
    signature of a published key over its header and claims and is unexpired; the proof is
    signed by the key the token is bound to, for this method and URI, within its age. *)
Theorem verify_bound_sound jws jwks proof expect now leeway v :
  verify_bound P jws jwks proof expect now leeway = Ok v →
  ∃ p0 p1 p2 pr x, child_facts jws jwks now leeway v p0 p1 p2 ∧ proof = Some pr ∧
    dpop_facts pr expect now leeway (cc_cnf_jkt (cv_claims v)) x.
Proof.
  intros [(p0 & p1 & p2 & Hc)%child_verify_ok (pr & -> & [x Hx]%verify_dpop_ok)]%verify_bound_ok. by exists p0, p1, p2, pr, x.
Qed.

Lemma b64url_inj `{PL : !PrimitiveLaws P} a b : b64url_encode P a = b64url_encode P b → a = b.
Proof. intros H. pose proof (b64url_round_trip (P := P) a) as Ha. rewrite H, b64url_round_trip in Ha. by injection Ha. Qed.

Lemma app_tail_inj (a b : string) (s : list u8) : as_bytes a ++ s = as_bytes b ++ s → a = b.
Proof. intros H. apply as_bytes_inj. by apply app_inv_tail in H. Qed.
Lemma thumbprint_input_inj x y : as_bytes (thumbprint_input x) = as_bytes (thumbprint_input y) → x = y.
Proof.
  unfold thumbprint_input. rewrite !as_bytes_app. intros H. repeat (apply app_inv_head in H). by apply app_tail_inj in H.
Qed.

(** A stolen token is useless without its key: two proofs accepted for one token, at whatever
    times and requests, are by the same public key, or SHA-256 collides on the two
    thumbprint inputs. *)
Theorem token_bound_to_one_key `{PL : !PrimitiveLaws P} jws jwks pr1 e1 t1 l1 v1 pr2 e2 t2 l2 v2 :
  verify_bound P jws jwks (Some pr1) e1 t1 l1 = Ok v1 → verify_bound P jws jwks (Some pr2) e2 t2 l2 = Ok v2 →
  ∃ x1 x2, dpop_facts pr1 e1 t1 l1 (cc_cnf_jkt (cv_claims v1)) x1 ∧ dpop_facts pr2 e2 t2 l2 (cc_cnf_jkt (cv_claims v2)) x2 ∧
    (x1 = x2 ∨ as_bytes (thumbprint_input x1) ≠ as_bytes (thumbprint_input x2) ∧
       sha256 P (as_bytes (thumbprint_input x1)) = sha256 P (as_bytes (thumbprint_input x2))).
Proof.
  intros [C1 (q1 & [= <-] & D1)]%verify_bound_ok [C2 (q2 & [= <-] & D2)]%verify_bound_ok.
  apply child_verify_ok in C1 as (a0 & a1 & a2 & [S1 _ K1 _ _]). apply child_verify_ok in C2 as (b0 & b1 & b2 & [S2 _ K2 _ _]).
  rewrite S1 in S2. injection S2 as <- <- <-. rewrite K1 in K2. injection K2 as HK.
  apply verify_dpop_ok in D1 as [x1 F1]. apply verify_dpop_ok in D2 as [x2 F2]. exists x1, x2. split; [done|]. split; [done|].
  pose proof (df_key _ _ _ _ _ _ F1) as J1. pose proof (df_key _ _ _ _ _ _ F2) as J2. rewrite <- HK, J1 in J2.
  apply b64url_inj, vec_to_list_inj2 in J2.
  destruct (decide (x1 = x2)); [by left|]. right. split; [|done]. intros E. by apply thumbprint_input_inj in E.
Qed.

(** No string is both an SVID and a child token. *)
Theorem svid_and_child_disjoint jws jwks now leeway v jwks' now' leeway' :
  child_verify P jws jwks now leeway = Ok v → ∃ e, svid_verify P jws jwks' now' leeway' = Err e.
Proof.
  intros (p0 & p1 & p2 & [Hs Hh _ _ _])%child_verify_ok. unfold svid_verify. rewrite Hs. unfold decode_json.
  unfold child_decode_json in Hh. destruct (b64url_decode P p0) as [hb|]; [|by eexists]. destruct (from_slice hb) as [h|]; [|by eexists].
  cbn [map_err] in *. injection Hh as ->. cbn [child_header jh_alg jh_typ jh_kid]. by eexists.
Qed.

Lemma mint_ok m aud jkt ttl actor now jti rng tok : mint P m aud jkt ttl actor now jti rng = Ok tok →
  now < mc_parent_expires_at (mn_cfg m) ∧ ∃ hb pb sig,
    let claims := minted_claims P m aud jkt ttl actor now jti in
    to_vec (child_header (mc_kid (mn_cfg m))) = Ok hb ∧ to_vec claims = Ok pb ∧
    composite_sign P (mn_secret m) rng CHILD_TOKEN_SIGNING_CONTEXT (as_bytes (b64url_encode P hb +:+ "." +:+ b64url_encode P pb)) = Ok sig ∧
    mt_jws tok = (b64url_encode P hb +:+ "." +:+ b64url_encode P pb) +:+ "." +:+ b64url_encode P (sig_to_concat_bytes sig) ∧
    mt_jti tok = jti ∧ mt_exp tok = cc_exp claims.
Proof.
  unfold mint. intros H. inv_ok H. injection H as <-. cbn [mt_jws mt_jti mt_exp].
  match goal with Hb : negb _ = false |- _ => apply negb_false_iff, Z.ltb_lt in Hb end. split; [done|].
  repeat match goal with E : map_err _ _ = Ok _ |- _ => apply map_err_ok in E end. by eexists _, _, _.
Qed.

(** A minted token under the verifier. *)
Lemma minted_token_window `{SJL : !SvidJsonLaws, CJL : !ChildJsonLaws, PL : !PrimitiveLaws P} m aud jkt ttl actor now jti rng tok jwks t leeway :
  mint P m aud jkt ttl actor now jti rng = Ok tok →
  jwk_find jwks (mc_kid (mn_cfg m)) = Some (jwk_from_public_key P (mc_kid (mn_cfg m)) (public_of P (mn_secret m))) →
  - 2 ^ 61 ≤ now ≤ 2 ^ 61 → 0 ≤ ttl < 2 ^ 32 → - 2 ^ 61 ≤ t ≤ 2 ^ 61 → 0 ≤ leeway ≤ 2 ^ 61 →
  mt_exp tok ≤ now + 600 ∧ mt_exp tok ≤ now + ttl ∧ mt_exp tok ≤ mc_parent_expires_at (mn_cfg m) ∧
  child_verify P (mt_jws tok) jwks t leeway =
    if decide (t < mt_exp tok + leeway)
    then Ok {| cv_claims := minted_claims P m aud jkt ttl actor now jti; cv_kid := mc_kid (mn_cfg m) |} else Err CvExpired.
Proof.
  intros Hm Hk Hn Ht Htt Hl. apply mint_ok in Hm as (Hp & hb & pb & sig & Hh & Hc & Hsig & Hj & _ & He).
  apply composite_sign_spec in Hsig as [Hv Hs]; [|done].
  assert (mt_exp tok = Z.min (now + Z.min ttl 600) (mc_parent_expires_at (mn_cfg m))) as Hx.
  { rewrite He. cbn [minted_claims cc_exp]. by rewrite wrap_i64_small by (unfold MAX_CHILD_TTL_SECS; lia). }
  split_and!; [lia..|]. unfold child_verify. rewrite Hj, segments_join by apply b64url_no_dot. unfold child_decode_json.
  rewrite !b64url_round_trip, (from_to _ _ Hh). cbn [map_err child_header jh_alg jh_typ jh_kid]. rewrite !String.eqb_refl. cbn [negb].
  rewrite Hk. cbn [jwk_from_public_key jwk_kty]. rewrite String.eqb_refl. cbn [negb]. rewrite jwk_round_trip by done. cbn [map_err].
  rewrite Hs. cbn [map_err]. rewrite Hv. cbn [map_err]. rewrite (from_to _ _ Hc). cbn [map_err]. rewrite <- He, wrap_i64_small by lia.
  destruct (decide (t < mt_exp tok + leeway)); destruct (Z.leb_spec (mt_exp tok) (t - leeway)); try lia; done.
Qed.

(** What the agent mints, the reference verifier accepts under the host's published key exactly
    until its expiry (widened by the leeway), with the audience, binding and actor it was
    minted for; it lives at most the requested time, ten minutes, and its parent SVID. *)
Theorem minted_token_verifies `{SJL : !SvidJsonLaws, CJL : !ChildJsonLaws, PL : !PrimitiveLaws P} m aud jkt ttl actor now jti rng tok jwks t leeway :
  mint P m aud jkt ttl actor now jti rng = Ok tok →
  jwk_find jwks (mc_kid (mn_cfg m)) = Some (jwk_from_public_key P (mc_kid (mn_cfg m)) (public_of P (mn_secret m))) →
  - 2 ^ 61 ≤ now ≤ 2 ^ 61 → 0 ≤ ttl < 2 ^ 32 → - 2 ^ 61 ≤ t ≤ 2 ^ 61 → 0 ≤ leeway ≤ 2 ^ 61 →
  mt_exp tok ≤ now + 600 ∧ mt_exp tok ≤ now + ttl ∧ mt_exp tok ≤ mc_parent_expires_at (mn_cfg m) ∧
  child_verify P (mt_jws tok) jwks t leeway =
    if decide (t < mt_exp tok + leeway)
    then Ok {| cv_claims := minted_claims P m aud jkt ttl actor now jti; cv_kid := mc_kid (mn_cfg m) |} else Err CvExpired.
Proof. apply minted_token_window. Qed.
End ChildTheorems.
