(* ===== verification/CallerAuth.v ===== *)
(** Who a local caller is (mia/src/helper/auth.rs) and which path its executable has
    (mia/src/helper/exe_path.rs): the three platform authenticators over what the operating
    system answers, and the cross-check against the IMA measurement log. *)
From stdpp Require Import gmap pretty.
From S2P Require Import Prelude AppModel AppDedup Order Composite AllowlistV2 AllowlistCompile AppPath MiaAllowlist Svid ChildToken.
Open Scope Z_scope.

(** ** Identities and errors *)
Record PeerCred := { pc_pid : option Z; pc_uid : Z; pc_gid : Z }.
Inductive AuthError :=
  | PeerCredUnavailable
  | ExeUnreadable (part : option (Z * Z)) | ImaUnavailable (part : option (Z * Z)) | ImaMissingEntry (part : option (Z * Z))
  | ImaMismatch (part : option (Z * Z)) | ImageUnreadable (part : option (Z * Z)) | Untrusted (part : option (Z * Z)).
Definition auth_reason (e : AuthError) : string :=
  match e with
  | PeerCredUnavailable => "peer-cred-unavailable"
  | ExeUnreadable _ => "exe-unreadable"
  | ImaUnavailable _ => "ima-unavailable"
  | ImaMissingEntry _ => "ima-missing-entry"
  | ImaMismatch _ => "ima-mismatch"
  | ImageUnreadable _ => "image-unreadable"
  | Untrusted _ => "untrusted-binary"
  end.
Definition auth_partial (e : AuthError) : option (Z * Z) :=
  match e with
  | PeerCredUnavailable => None
  | ExeUnreadable p | ImaUnavailable p | ImaMissingEntry p | ImaMismatch p | ImageUnreadable p | Untrusted p => p
  end.

(** ** Text: [str::lines] and [str::split_whitespace], on characters *)
Definition newline : Z := 10.
Definition is_whitespace (c : Z) : bool :=
  in_range 9 13 c || (c =? 32) || (c =? 133) || (c =? 160) || (c =? 5760) || in_range 8192 8202 c || (c =? 8232)
  || (c =? 8233) || (c =? 8239) || (c =? 8287) || (c =? 12288).

(** The pieces of [split_inclusive('\n')]. *)
Fixpoint split_inclusive (l : list Z) : list (list Z) :=
  match l with
  | [] => []
  | c :: r =>
      if c =? newline then [c] :: split_inclusive r
      else match split_inclusive r with [] => [[c]] | p :: ps => (c :: p) :: ps end
  end.
(** A line without its ending: a carriage return is part of one only before a line feed. *)
Definition line_of (piece : list Z) : list Z :=
  match reverse piece with
  | 10 :: 13 :: r => reverse r
  | 10 :: r => reverse r
  | _ => piece
  end.
Definition lines (l : list Z) : list (list Z) := line_of <$> split_inclusive l.

Fixpoint split_whitespace (l : list Z) : list (list Z) :=
  match l with
  | [] => []
  | c :: r =>
      if is_whitespace c then split_whitespace r
      else match r with
           | d :: _ => if is_whitespace d then [c] :: split_whitespace r
                       else match split_whitespace r with w :: ws => (c :: w) :: ws | [] => [[c]] end
           | [] => [[c]]
           end
  end.
(** [join(" ")]. *)
Fixpoint join_space (ws : list (list Z)) : list Z :=
  match ws with [] => [] | [w] => w | w :: ws => w ++ 32 :: join_space ws end.
(** [split_once(':')]. *)
Fixpoint split_once (sep : Z) (l : list Z) : option (list Z * list Z) :=
  match l with
  | [] => None
  | c :: r => if c =? sep then Some ([], r) else match split_once sep r with Some (a, b) => Some (c :: a, b) | None => None end
  end.
Definition text_of (cs : list Z) : string := bytes_string (utf8_encode cs).

(** ** The measurement log *)
Inductive MismatchOutcome := OutMismatch | OutMissing.

Section Ima.
Context (hex_decode : string → option (list u8)).

(** The comparable measurement of one line for [exe_path], if it is one. *)
Definition line_measurement (exe_path line : list Z) : option (list u8) :=
  match split_whitespace line with
  | _pcr :: _hash :: _name :: file_hash :: rest =>
      if negb (bool_decide (join_space rest = exe_path)) then None else
      match split_once 58 file_hash with
      | Some (algo, hex_hash) => if negb (eq_ignore_case (text_of algo) "sha384") then None else hex_decode (text_of hex_hash)
      | None => None
      end
  | _ => None
  end.
Fixpoint ima_loop (disk_sha : list u8) (exe_path : list Z) (ls : list (list Z)) (saw_path : bool) : result MismatchOutcome (list u8) :=
  match ls with
  | [] => if saw_path then Err OutMismatch else Err OutMissing
  | line :: ls =>
      match line_measurement exe_path line with
      | None => ima_loop disk_sha exe_path ls saw_path
      | Some measured => if bool_decide (measured = disk_sha) then Ok disk_sha else ima_loop disk_sha exe_path ls true
      end
  end.
Definition cross_check_ima (disk_sha : list u8) (exe_path ima_log : list Z) : result MismatchOutcome (list u8) :=
  ima_loop disk_sha exe_path (lines ima_log) false.
End Ima.

(** ** Paths of open files (exe_path.rs) *)
Inductive ExePathError := Unresolved | InvalidPath (e : PathError).
Record FileKey := { fk_dev : Z; fk_ino : Z }.
#[export] Instance FileKey_eq_dec : EqDecision FileKey.
Proof. solve_decision. Defined.
Inductive PathBinding := Bound | Deleted | Unbound.
Definition classify (opened at_path : option FileKey) (unlinked : bool) : PathBinding :=
  match opened, at_path with
  | Some a, Some b => if bool_decide (a = b) then Bound else if unlinked then Deleted else Unbound
  | _, _ => if unlinked then Deleted else Unbound
  end.

(** An open file: what [fstat], [read_to_end], the link of its descriptor and [F_GETPATH]
    answer. *)
Record OpenFile := {
  fl_stat : option (FileKey * Z); fl_bytes : option (list u8); fl_fd_link : option (list u8); fl_getpath : option (list u8) }.
(** The rest of the operating system: links, opened paths, [lstat], [stat], a file as text. *)
Record Os := {
  os_read_link : string → option (list u8); os_open : list u8 → option OpenFile; os_lstat : list u8 → option FileKey;
  os_stat : list u8 → option FileKey; os_read_to_string : string → option (list Z) }.

Definition file_key (f : OpenFile) : option FileKey := fst <$> fl_stat f.
Definition bind_path (os : Os) (f : OpenFile) (canonical : CanonicalPath) (trust_deleted : bool) : option CanonicalPath :=
  match fl_stat f with
  | None => None
  | Some (key, nlink) =>
      match classify (Some key) (os_lstat os (cp_path canonical)) (nlink =? 0) with
      | Bound => Some {| cp_path := cp_path canonical; deleted_on_disk := false |}
      | Deleted => if trust_deleted then Some {| cp_path := cp_path canonical; deleted_on_disk := true |} else None
      | Unbound => None
      end
  end.
Record ProcessView := { pv_mount_ns : option FileKey; pv_root : option FileKey }.
Definition same_key (a b : option FileKey) : bool := match a, b with Some a, Some b => bool_decide (a = b) | _, _ => false end.
Definition same_view (theirs ours : ProcessView) : bool :=
  same_key (pv_mount_ns theirs) (pv_mount_ns ours) && same_key (pv_root theirs) (pv_root ours).
Definition view_of_proc (os : Os) (dir : string) : ProcessView :=
  {| pv_mount_ns := os_stat os (as_bytes (dir +:+ "/ns/mnt")); pv_root := os_stat os (as_bytes (dir +:+ "/root")) |}.
Definition proc_dir (pid : Z) : string := "/proc/" +:+ pretty pid.
Definition shares_view (os : Os) (pid : Z) : bool := same_view (view_of_proc os (proc_dir pid)) (view_of_proc os "/proc/self").
Definition linux_link (target : option (list u8)) : result ExePathError CanonicalPath :=
  match target with None => Err Unresolved | Some t => map_err InvalidPath (from_linux_link t) end.
Definition of_open_file_linux (f : OpenFile) : result ExePathError CanonicalPath := linux_link (fl_fd_link f).
Definition of_running_image (os : Os) (pid : Z) (f : OpenFile) : option CanonicalPath :=
  if negb (shares_view os pid) then None else
  match of_open_file_linux f with Err _ => None | Ok c => bind_path os f c true end.
Definition macos_resolve (os : Os) (f : OpenFile) : result ExePathError CanonicalPath :=
  match fl_getpath f with
  | None => Err Unresolved
  | Some raw =>
      if bool_decide (utf8_decode raw = None) then Err (InvalidPath PNotUtf8) else
      match file_key f with
      | None => Err Unresolved
      | Some opened => map_err InvalidPath (from_macos_path raw (λ stripped, bool_decide (os_stat os stripped = Some opened)))
      end
  end.
Definition macos_canonical (os : Os) (f : OpenFile) : option (list u8) :=
  match macos_resolve os f with Err _ => None | Ok c => cp_path <$> bind_path os f c false end.

(** ** The authenticators *)
Section Authenticators.
Context (P : Primitives) (hex_decode : string → option (list u8)).

Definition bin_sha384 (image : list u8) : list u8 := vec_to_list (sha384 P image).

Record ImaCallerAuth := { ia_ima_log_path : string; ia_require_ima : bool }.
Definition DEFAULT_IMA_LOG : string := "/sys/kernel/security/ima/binary_runtime_measurements".

Definition linux_identify (auth : ImaCallerAuth) (os : Os) (cred : PeerCred) : result AuthError CallerIdentity :=
  match pc_pid cred with
  | None => Err PeerCredUnavailable
  | Some pid =>
      let part := Some (pid, pc_uid cred) in
      let exe_link := proc_dir pid +:+ "/exe" in
      match os_read_link os exe_link with
      | None => Err (ExeUnreadable part)
      | Some exe_path =>
          match utf8_decode exe_path with
          | None => Err (ExeUnreadable part)
          | Some exe_path_str =>
              match os_open os (as_bytes exe_link) with
              | None => Err (ExeUnreadable part)
              | Some image =>
                  match fl_bytes image with
                  | None => Err (ExeUnreadable part)
                  | Some contents =>
                      let disk_sha := bin_sha384 contents in
                      let canonical := cp_path <$> of_running_image os pid image in
                      let ident sha := {| ci_pid := pid; ci_uid := pc_uid cred; ci_gid := pc_gid cred; ci_bin_sha := sha;
                                          ci_exe_path := canonical; ci_user_sid := None |} in
                      if negb (ia_require_ima auth) then Ok (ident disk_sha) else
                      match os_read_to_string os (ia_ima_log_path auth) with
                      | None => Err (ImaUnavailable part)
                      | Some ima_log =>
                          match cross_check_ima hex_decode disk_sha exe_path_str ima_log with
                          | Ok bin_sha => Ok (ident bin_sha)
                          | Err OutMismatch => Err (ImaMismatch part)
                          | Err OutMissing => Err (ImaMissingEntry part)
                          end
                      end
                  end
              end
          end
      end
  end.

(** macOS, over [proc_pidpath]. *)
Definition macos_identify (os : Os) (pidpath : Z → option (list u8)) (cred : PeerCred) : result AuthError CallerIdentity :=
  match pc_pid cred with
  | None => Err PeerCredUnavailable
  | Some pid =>
      let part := Some (pid, pc_uid cred) in
      if 2 ^ 31 <=? pid then Err (ExeUnreadable part) else
      match pidpath pid ≫= os_open os with
      | None => Err (ExeUnreadable part)
      | Some file =>
          match fl_bytes file with
          | None => Err (ExeUnreadable part)
          | Some bytes =>
              Ok {| ci_pid := pid; ci_uid := pc_uid cred; ci_gid := pc_gid cred; ci_bin_sha := bin_sha384 bytes;
                    ci_exe_path := macos_canonical os file; ci_user_sid := None |}
          end
      end
  end.

(** Windows: what ferro-winauth and the file system answer for a process. *)
Record WinProc := {
  wp_image_path : option (list u8); wp_bytes : list u8 → option (list u8); wp_final_path : list u8 → option (list u8);
  wp_sid : option string; wp_rid : option Z; wp_authenticode : list u8 → option bool }.
Definition windows_identify (require_authenticode : bool) (proc : Z → WinProc) (cred : PeerCred) : result AuthError CallerIdentity :=
  match pc_pid cred with
  | None => Err PeerCredUnavailable
  | Some pid =>
      let w := proc pid in
      let part := Some (pid, 0) in
      match wp_image_path w with
      | None => Err (ImageUnreadable part)
      | Some path =>
          match wp_bytes w path with
          | None => Err (ImageUnreadable part)
          | Some bytes =>
              match wp_rid w with
              | None => Err (ImageUnreadable part)
              | Some uid =>
                  let part := Some (pid, uid) in
                  let exe_path := match wp_final_path w path with
                    | Some p => match from_windows_final_path p with Ok c => Some (cp_path c) | Err _ => None end
                    | None => None end in
                  let ident := {| ci_pid := pid; ci_uid := uid; ci_gid := 0; ci_bin_sha := bin_sha384 bytes; ci_exe_path := exe_path;
                                  ci_user_sid := wp_sid w |} in
                  if require_authenticode then
                    match wp_authenticode w path with Some true => Ok ident | _ => Err (Untrusted part) end
                  else Ok ident
              end
          end
      end
  end.
End Authenticators.

(** ** Theorems *)
Section CallerTheorems.
Context (P : Primitives) (hex_decode : string → option (list u8)).
Local Abbreviation line_measurement := (line_measurement hex_decode).

Lemma ima_loop_spec disk_sha p ls saw :
  match ima_loop hex_decode disk_sha p ls saw with
  | Ok s => s = disk_sha ∧ ∃ line, line ∈ ls ∧ line_measurement p line = Some disk_sha
  | Err OutMismatch => (saw = true ∨ ∃ line m, line ∈ ls ∧ line_measurement p line = Some m) ∧ ∀ line, line ∈ ls → line_measurement p line ≠ Some disk_sha
  | Err OutMissing => saw = false ∧ ∀ line, line ∈ ls → line_measurement p line = None
  end.
Proof.
  revert saw. induction ls as [|line ls IH]; intros saw; cbn [ima_loop].
  - destruct saw; split; try done; try (by left); intros line Hl; by apply elem_of_nil in Hl.
  - destruct (line_measurement p line) as [m|] eqn:Em.
    + case_bool_decide as Hm; [subst m; split; [done|]; exists line; split; [apply list_elem_of_here|done]|].
      specialize (IH true). destruct (ima_loop _ _ _ ls true) as [s|[|]].
      * destruct IH as [-> (l & Hl & Hq)]. split; [done|]. exists l. split; [by apply list_elem_of_further|done].
      * destruct IH as [_ Hn]. split; [right; exists line, m; split; [apply list_elem_of_here|done]|].
        intros l [->|Hl]%elem_of_cons; [congruence|by apply Hn].
      * by destruct IH.
    + specialize (IH saw). destruct (ima_loop _ _ _ ls saw) as [s|[|]].
      * destruct IH as [-> (l & Hl & Hq)]. split; [done|]. exists l. split; [by apply list_elem_of_further|done].
      * destruct IH as [Hs Hn]. split.
        -- destruct Hs as [|(l & m & Hl & Hq)]; [by left|right]. exists l, m. split; [by apply list_elem_of_further|done].
        -- intros l [->|Hl]%elem_of_cons; [congruence|by apply Hn].
      * destruct IH as [Hs Hn]. split; [done|]. intros l [->|Hl]%elem_of_cons; [done|by apply Hn].
Qed.

(** The cross-check accepts exactly a hash the log has a SHA-384 measurement of for this path,
    and tells a path that was only ever measured with other hashes from one never measured. *)
Theorem cross_check_ima_exact disk_sha p log :
  (∀ s, cross_check_ima hex_decode disk_sha p log = Ok s ↔ s = disk_sha ∧ ∃ line, line ∈ lines log ∧ line_measurement p line = Some disk_sha) ∧
  (cross_check_ima hex_decode disk_sha p log = Err OutMissing ↔ ∀ line, line ∈ lines log → line_measurement p line = None) ∧
  (cross_check_ima hex_decode disk_sha p log = Err OutMismatch ↔
     (∃ line m, line ∈ lines log ∧ line_measurement p line = Some m) ∧ ∀ line, line ∈ lines log → line_measurement p line ≠ Some disk_sha).
Proof.
  unfold cross_check_ima. pose proof (ima_loop_spec disk_sha p (lines log) false) as H.
  destruct (ima_loop _ _ _ _ _) as [s|[|]].
  - destruct H as [-> (line & Hl & Hm)]. split_and!.
    + intros s. split; [intros [= <-]; split; [done|by exists line]|by intros [-> _]].
    + split; [done|]. intros Hn. by rewrite (Hn line Hl) in Hm.
    + split; [done|]. intros [_ Hn]. by destruct (Hn line Hl).
  - destruct H as [[|(line & m & Hl & Hm)] Hn]; [done|]. split_and!.
    + intros s. split; [done|]. intros [_ (l & Hl' & Hq)]. by destruct (Hn l Hl').
    + split; [done|]. intros Hx. by rewrite (Hx line Hl) in Hm.
    + split; [|done]. intros _. split; [by exists line, m|done].
  - destruct H as [_ Hn]. split_and!.
    + intros s. split; [done|]. intros [_ (l & Hl & Hq)]. by rewrite (Hn l Hl) in Hq.
    + done.
    + split; [done|]. intros [(line & m & Hl & Hm) _]. by rewrite (Hn line Hl) in Hm.
Qed.

(** What an executable path that is reported means: it is canonical, the process resolves
    paths as the daemon does, and it names the very file that was hashed, or where that file
    was before it lost its last name. *)
Record path_genuine (os : Os) (pid : Z) (f : OpenFile) (path : list u8) : Prop := {
  pg_view : shares_view os pid = true;
  pg_link : ∃ raw c, fl_fd_link f = Some raw ∧ from_linux_link raw = Ok c ∧ cp_path c = path;
  pg_bound : ∃ key nlink, fl_stat f = Some (key, nlink) ∧ (os_lstat os path = Some key ∨ nlink = 0) }.

Lemma of_running_image_genuine os pid f c : of_running_image os pid f = Some c → path_genuine os pid f (cp_path c).
Proof.
  unfold of_running_image, of_open_file_linux, linux_link. destruct (shares_view os pid) eqn:Ev; cbn [negb]; [|done].
  destruct (fl_fd_link f) as [raw|] eqn:Er; [|done]. destruct (from_linux_link raw) as [c0|] eqn:El; [|done]. cbn [map_err].
  unfold bind_path, classify. destruct (fl_stat f) as [[key nlink]|] eqn:Es; [|done]. intros H.
  assert (cp_path c = cp_path c0) as Hc.
  { destruct (os_lstat os (cp_path c0)); [case_bool_decide|]; try destruct (nlink =? 0); by simplify_eq. }
  split; [done|by exists raw, c0|]. exists key, nlink. split; [done|]. rewrite Hc.
  destruct (os_lstat os (cp_path c0)) as [k|]; [case_bool_decide; [subst; by left|]|]; destruct (Z.eqb_spec nlink 0); try done; by right.
Qed.

(** C31: The identity the Linux authenticator establishes comes from the kernel alone: the hash is
    that of the bytes read through the caller's own executable handle; with IMA required the
    log has a measurement of exactly that hash for the caller's path; a path is
    reported only when the caller sees paths as the daemon does and the path names that very
    file, or that file has no name left (a deleted image keeps the path it had); user and
    process come from the socket. *)
Theorem linux_identity_genuine auth os cred id :
  linux_identify P hex_decode auth os cred = Ok id →
  pc_pid cred = Some (ci_pid id) ∧ ci_uid id = pc_uid cred ∧ ci_gid id = pc_gid cred ∧ ci_user_sid id = None ∧
  ∃ link text image bytes, os_read_link os (proc_dir (ci_pid id) +:+ "/exe") = Some link ∧ utf8_decode link = Some text ∧
    os_open os (as_bytes (proc_dir (ci_pid id) +:+ "/exe")) = Some image ∧ fl_bytes image = Some bytes ∧
    ci_bin_sha id = vec_to_list (sha384 P bytes) ∧
    (∀ path, ci_exe_path id = Some path → path_genuine os (ci_pid id) image path) ∧
    (ia_require_ima auth = true → ∃ log line, os_read_to_string os (ia_ima_log_path auth) = Some log ∧ line ∈ lines log ∧
       line_measurement text line = Some (ci_bin_sha id)).
Proof.
  unfold linux_identify. destruct (pc_pid cred) as [pid|]; [|done]. destruct (os_read_link os _) as [link|] eqn:El; [|done].
  destruct (utf8_decode link) as [text|] eqn:Et; [|done]. destruct (os_open os _) as [image|] eqn:Eo; [|done].
  destruct (fl_bytes image) as [bytes|] eqn:Eb; [|done]. intros H.
  assert (∀ path, cp_path <$> of_running_image os pid image = Some path → path_genuine os pid image path) as Hp.
  { intros path (c & Hc & ->)%fmap_Some. by apply of_running_image_genuine. }
  assert (∃ sha, id = {| ci_pid := pid; ci_uid := pc_uid cred; ci_gid := pc_gid cred; ci_bin_sha := sha;
      ci_exe_path := cp_path <$> of_running_image os pid image; ci_user_sid := None |} ∧ sha = bin_sha384 P bytes ∧
      (ia_require_ima auth = true → ∃ log line, os_read_to_string os (ia_ima_log_path auth) = Some log ∧ line ∈ lines log ∧
        line_measurement text line = Some sha)) as (sha & -> & Hsha & Hima).
  { destruct (ia_require_ima auth); cbn [negb] in H; [|injection H as <-; eexists; by split_and!].
    destruct (os_read_to_string os _) as [log|] eqn:Elog; [|done].
    pose proof (ima_loop_spec (bin_sha384 P bytes) text (lines log) false) as Hl. unfold cross_check_ima in H.
    destruct (ima_loop _ _ _ _ _) as [s|[|]]; [|done..]. destruct Hl as [-> (line & Hin & Hm)]. injection H as <-.
    eexists. split_and!; [done|done|]. intros _. by exists log, line. }
  cbn [ci_pid ci_uid ci_gid ci_bin_sha ci_exe_path ci_user_sid]. split_and!; try done.
  exists link, text, image, bytes. by split_and!.
Qed.

(** A process whose executable was replaced by an upgrade is refused where IMA is required:
    the kernel's link then ends in the deleted marker, which no measured path has, although
    the log has a measurement of the running image under its path; where IMA is not required
    the same process is identified, with the path it had. *)
Theorem upgraded_process_refused_under_ima auth os cred pid path image bytes log :
  ia_require_ima auth = true → pc_pid cred = Some pid →
  os_read_link os (proc_dir pid +:+ "/exe") = Some (path ++ DELETED_SUFFIX) → is_Some (utf8_decode (path ++ DELETED_SUFFIX)) →
  os_open os (as_bytes (proc_dir pid +:+ "/exe")) = Some image → fl_bytes image = Some bytes →
  os_read_to_string os (ia_ima_log_path auth) = Some log →
  (∀ text line, utf8_decode (path ++ DELETED_SUFFIX) = Some text → line ∈ lines log → line_measurement text line = None) →
  linux_identify P hex_decode auth os cred = Err (ImaMissingEntry (Some (pid, pc_uid cred))) ∧
  ∃ id, linux_identify P hex_decode {| ia_ima_log_path := ia_ima_log_path auth; ia_require_ima := false |} os cred = Ok id ∧
    ci_bin_sha id = vec_to_list (sha384 P bytes) ∧ ci_exe_path id = cp_path <$> of_running_image os pid image.
Proof.
  intros Hr Hp Hl [text Ht] Ho Hb Hlog Hn. unfold linux_identify. rewrite Hp, Hl, Ht, Ho, Hb, Hr. cbn [negb ia_require_ima]. rewrite Hlog.
  split; [|by eexists]. unfold cross_check_ima. pose proof (ima_loop_spec (bin_sha384 P bytes) text (lines log) false) as H.
  destruct (ima_loop _ _ _ _ _) as [s|[|]]; [| |done].
  - destruct H as [_ (line & Hin & Hm)]. by rewrite (Hn text line) in Hm.
  - destruct H as [[|(line & m & Hin & Hm)] _]; [done|]. by rewrite (Hn text line) in Hm.
Qed.
End CallerTheorems.
