(* ===== verification/HelperServer.v ===== *)
(** The helper server (mia/src/helper/server/mod.rs): the token pipeline with its audit
    contract, the registration dispatch, and requests running concurrently with the tasks
    that swap the host SVID, the allowlist and the revocation list. *)
From stdpp Require Import gmap relations.
From S2P Require Import Prelude AppModel AppDedup Order Composite AllowlistV2 AllowlistCompile AppPath MiaAllowlist Svid ChildToken CallerAuth HelperProto.
Open Scope Z_scope.

(** The two events of the token path (ferro-audit/src/event.rs). *)
Inductive LocalEvent :=
  | LocalGrant (pid uid : Z) (bin_sha jti : list u8)
  | LocalDenied (pid uid : Z) (bin_sha : list u8) (reason : string).
Definition zero_sha : list u8 := replicate 48 Byte.x00.
Definition helper_err (code : ErrorCode) : HelperResp := RespError code None.
Definition caller_facts_of (id : CallerIdentity) : CallerFacts :=
  {| cf_uid := ci_uid id; cf_bin_sha := ci_bin_sha id; cf_exe_path := ci_exe_path id; cf_user_sid := ci_user_sid id |}.
Definition denied (id : CallerIdentity) (reason : string) : LocalEvent := LocalDenied (ci_pid id) (ci_uid id) (ci_bin_sha id) reason.

Section HelperServer.
Context (P : Primitives) `{SJ : !SvidJson, CJ : !ChildJson, FC : !Cbor HelperFrame, RC : !Cbor HelperReq}.
Context (to_uppercase : Z → list Z) (platform : Platform).
Local Abbreviation Minter := (ChildTokenMinter P).

(** [Shared], with the set of the caller ledger and the audit channel: its events so far and
    whether the receiver still exists. *)
Record Shared := {
  sh_minter : option Minter; sh_allowlist : option Allowlist; sh_crl : CrlCache; sh_ledger : gset (Z * list u8);
  sh_self_sha : option (list u8); sh_audit_open : bool; sh_events : list LocalEvent }.

Definition set_allowlist (al : option Allowlist) (s : Shared) : Shared :=
  {| sh_minter := sh_minter s; sh_allowlist := al; sh_crl := sh_crl s; sh_ledger := sh_ledger s; sh_self_sha := sh_self_sha s;
     sh_audit_open := sh_audit_open s; sh_events := sh_events s |}.
Definition set_minter (m : option Minter) (s : Shared) : Shared :=
  {| sh_minter := m; sh_allowlist := sh_allowlist s; sh_crl := sh_crl s; sh_ledger := sh_ledger s; sh_self_sha := sh_self_sha s;
     sh_audit_open := sh_audit_open s; sh_events := sh_events s |}.
Definition set_crl (c : CrlCache) (s : Shared) : Shared :=
  {| sh_minter := sh_minter s; sh_allowlist := sh_allowlist s; sh_crl := c; sh_ledger := sh_ledger s; sh_self_sha := sh_self_sha s;
     sh_audit_open := sh_audit_open s; sh_events := sh_events s |}.
(** [CallerLedger::observe]. *)
Definition observe (uid : Z) (bin_sha : list u8) (s : Shared) : Shared :=
  {| sh_minter := sh_minter s; sh_allowlist := sh_allowlist s; sh_crl := sh_crl s; sh_ledger := {[(uid, bin_sha)]} ∪ sh_ledger s;
     sh_self_sha := sh_self_sha s; sh_audit_open := sh_audit_open s; sh_events := sh_events s |}.
(** [record]: an event for a closed channel is dropped. *)
Definition record_event (e : LocalEvent) (s : Shared) : Shared :=
  {| sh_minter := sh_minter s; sh_allowlist := sh_allowlist s; sh_crl := sh_crl s; sh_ledger := sh_ledger s; sh_self_sha := sh_self_sha s;
     sh_audit_open := sh_audit_open s; sh_events := if sh_audit_open s then sh_events s ++ [e] else sh_events s |}.

(** *** The steps of [process_request]; each ends in an answer and its event, or goes on *)
Definition Refusal : Type := HelperResp * LocalEvent.
Definition step_identity (id : result AuthError CallerIdentity) : result Refusal CallerIdentity :=
  match id with
  | Ok id => Ok id
  | Err e =>
      let '(pid, uid) := default (0, 0) (auth_partial e) in
      Err (helper_err PermissionDeniedCode, LocalDenied pid uid zero_sha (auth_reason e))
  end.
Definition step_wellformed (id : CallerIdentity) (req : HelperReq) : result Refusal unit :=
  if String.eqb (hr_audience req) "" || String.eqb (hr_dpop_jkt req) "" || (hr_ttl_secs req =? 0)
  then Err (helper_err MalformedRequest, denied id "malformed-request") else Ok tt.
Definition step_minter (id : CallerIdentity) (minter : option Minter) (now : Z) : result Refusal Minter :=
  match minter with
  | None => Err (helper_err NoHostSvid, denied id "no-host-svid")
  | Some m => if negb (parent_valid_at m now) then Err (helper_err NoHostSvid, denied id "no-host-svid") else Ok m
  end.
Definition step_gate (id : CallerIdentity) (m : Minter) (crl : CrlCache) (now : Z) : result Refusal unit :=
  match crl_gate crl (parent_cert_sha_hex m) (mc_host_spiffe_id (mn_cfg m)) now with
  | GateOk => Ok tt
  | GateStale => Err (helper_err CrlStaleCode, denied id "crl-stale")
  | GateRevoked => Err (helper_err PermissionDeniedCode, denied id "svid-revoked")
  end.
Definition permitted (self_sha : option (list u8)) (al : option Allowlist) (id : CallerIdentity) (now : Z) : bool :=
  bool_decide (self_sha = Some (ci_bin_sha id))
  || match al with Some al => permits_caller P to_uppercase platform al (caller_facts_of id) now | None => false end.
Definition step_mint (self_sha : option (list u8)) (al : option Allowlist) (id : CallerIdentity) (m : Minter) (req : HelperReq) (now : Z)
    (jti : list u8) (rng : result string (list u8)) : Refusal :=
  if negb (permitted self_sha al id now) then (helper_err PermissionDeniedCode, denied id "not-allowlisted") else
  match mint P m (hr_audience req) (hr_dpop_jkt req) (hr_ttl_secs req) id now jti rng with
  | Err _ => (helper_err InternalCode, denied id "mint-failed")
  | Ok tok => (RespToken {| ct_jws := mt_jws tok; ct_exp := mt_exp tok |}, LocalGrant (ci_pid id) (ci_uid id) (ci_bin_sha id) (mt_jti tok))
  end.

(** [process_request] without interruption. *)
Definition answer_of (s : Shared) (id : CallerIdentity) (req : HelperReq) (now : Z) (jti : list u8) (rng : result string (list u8)) : Refusal :=
  match step_wellformed id req with Err r => r | Ok _ =>
  match step_minter id (sh_minter s) now with Err r => r | Ok m =>
  match step_gate id m (sh_crl s) now with Err r => r | Ok _ =>
  step_mint (sh_self_sha s) (sh_allowlist s) id m req now jti rng end end end.
Definition process_request (s : Shared) (id : result AuthError CallerIdentity) (req : HelperReq) (now : Z) (jti : list u8)
    (rng : result string (list u8)) : Shared * HelperResp :=
  match step_identity id with
  | Err (resp, ev) => (record_event ev s, resp)
  | Ok id =>
      let s := observe (ci_uid id) (ci_bin_sha id) s in
      let '(resp, ev) := answer_of s id req now jti rng in
      (record_event ev s, resp)
  end.

(** [serve_token]: [identify] answers [None] when the authenticator panicked. *)
Definition serve_token (identify : PeerCred → option (result AuthError CallerIdentity)) (s : Shared) (cred : result AuthError PeerCred)
    (req : HelperReq) (now : Z) (jti : list u8) (rng : result string (list u8)) : Shared * HelperResp :=
  match cred with
  | Err e => process_request s (Err e) req now jti rng
  | Ok cred =>
      match identify cred with
      | None => (record_event (LocalDenied (default 0 (pc_pid cred)) (pc_uid cred) zero_sha "auth-internal") s, helper_err InternalCode)
      | Some id_result => process_request s id_result req now jti rng
      end
  end.

(** [serve_registration]: the handler is the registrar, installed once. *)
Definition serve_registration (identify : PeerCred → option (result AuthError CallerIdentity))
    (handler : option (CallerIdentity → HelperOp → RegistrationResp)) (cred : result AuthError PeerCred) (op : HelperOp) : RegistrationResp :=
  match handler with
  | None => RegError RegistrationDisabled None
  | Some handle =>
      match cred with
      | Err _ => RegError RegPermissionDenied None
      | Ok cred =>
          match identify cred with
          | Some (Ok id) => handle id op
          | Some (Err _) => RegError RegPermissionDenied None
          | None => RegError RegInternal None
          end
      end
  end.

(** [serve_frame]: [None] drops the connection without a reply. *)
Definition serve_frame (identify : PeerCred → option (result AuthError CallerIdentity))
    (handler : option (CallerIdentity → HelperOp → RegistrationResp)) (s : Shared) (cred : result AuthError PeerCred) (body : list u8)
    (now : Z) (jti : list u8) (rng : result string (list u8)) : Shared * option (HelperResp + RegistrationResp) :=
  match decode_request body with
  | Err _ => (s, None)
  | Ok (Legacy req) => let '(s, r) := serve_token identify s cred req now jti rng in (s, Some (inl r))
  | Ok (V2 frame) =>
      match hf_op frame with
      | OpToken audience dpop_jkt ttl_secs =>
          let req := {| hr_audience := audience; hr_dpop_jkt := dpop_jkt; hr_ttl_secs := ttl_secs |} in
          let '(s, r) := serve_token identify s cred req now jti rng in (s, Some (inl r))
      | op => (s, Some (inr (serve_registration identify handler cred op)))
      end
  end.

(** *** Concurrency *)

(** A request between its locks. From [AtGate] on it holds the read guard of the minter. *)
Inductive ReqPhase := AtMinter | AtGate (m : Minter) (now : Z) | AtAllow (m : Minter) (now : Z) (crl : CrlCache).
Record Ongoing := { og_id : CallerIdentity; og_req : HelperReq; og_phase : ReqPhase }.
(** An answered request, with the identity if there was one. *)
Record Answered := { an_id : option CallerIdentity; an_req : HelperReq; an_resp : HelperResp; an_event : LocalEvent;
  an_used : option (Minter * Z * CrlCache * option Allowlist) }.
Record Helper := { hp_shared : Shared; hp_ongoing : list Ongoing; hp_answered : list Answered }.

Definition holds_minter (o : Ongoing) : bool := match og_phase o with AtMinter => false | _ => true end.
Definition finish (s : Shared) (os : list Ongoing) (done : list Answered) (id : option CallerIdentity) (req : HelperReq) (r : Refusal)
    (used : option (Minter * Z * CrlCache * option Allowlist)) : Helper :=
  {| hp_shared := record_event r.2 s; hp_ongoing := os;
     hp_answered := done ++ [{| an_id := id; an_req := req; an_resp := r.1; an_event := r.2; an_used := used |}] |}.

Inductive helper_step (h : Helper) : Helper → Prop :=
  | hs_unidentified e req r : step_identity (Err e) = Err r →
      helper_step h (finish (hp_shared h) (hp_ongoing h) (hp_answered h) None req r None)
  | hs_malformed id req r : step_wellformed id req = Err r →
      helper_step h (finish (observe (ci_uid id) (ci_bin_sha id) (hp_shared h)) (hp_ongoing h) (hp_answered h) (Some id) req r None)
  | hs_arrive id req : step_wellformed id req = Ok tt →
      helper_step h {| hp_shared := observe (ci_uid id) (ci_bin_sha id) (hp_shared h);
        hp_ongoing := {| og_id := id; og_req := req; og_phase := AtMinter |} :: hp_ongoing h; hp_answered := hp_answered h |}
  | hs_no_minter l id req l' now r :
      hp_ongoing h = l ++ {| og_id := id; og_req := req; og_phase := AtMinter |} :: l' → step_minter id (sh_minter (hp_shared h)) now = Err r →
      helper_step h (finish (hp_shared h) (l ++ l') (hp_answered h) (Some id) req r None)
  | hs_lock l id req l' now m :
      hp_ongoing h = l ++ {| og_id := id; og_req := req; og_phase := AtMinter |} :: l' → step_minter id (sh_minter (hp_shared h)) now = Ok m →
      helper_step h {| hp_shared := hp_shared h; hp_ongoing := {| og_id := id; og_req := req; og_phase := AtGate m now |} :: l ++ l';
        hp_answered := hp_answered h |}
  | hs_gate_refused l id req l' m now r :
      hp_ongoing h = l ++ {| og_id := id; og_req := req; og_phase := AtGate m now |} :: l' → step_gate id m (sh_crl (hp_shared h)) now = Err r →
      helper_step h (finish (hp_shared h) (l ++ l') (hp_answered h) (Some id) req r None)
  | hs_gate l id req l' m now :
      hp_ongoing h = l ++ {| og_id := id; og_req := req; og_phase := AtGate m now |} :: l' → step_gate id m (sh_crl (hp_shared h)) now = Ok tt →
      helper_step h {| hp_shared := hp_shared h;
        hp_ongoing := {| og_id := id; og_req := req; og_phase := AtAllow m now (sh_crl (hp_shared h)) |} :: l ++ l'; hp_answered := hp_answered h |}
  | hs_mint l id req l' m now crl jti rng :
      hp_ongoing h = l ++ {| og_id := id; og_req := req; og_phase := AtAllow m now crl |} :: l' →
      helper_step h (finish (hp_shared h) (l ++ l') (hp_answered h) (Some id) req
        (step_mint (sh_self_sha (hp_shared h)) (sh_allowlist (hp_shared h)) id m req now jti rng)
        (Some (m, now, crl, sh_allowlist (hp_shared h))))
  | hs_set_allowlist al :
      helper_step h {| hp_shared := set_allowlist al (hp_shared h); hp_ongoing := hp_ongoing h; hp_answered := hp_answered h |}
  | hs_set_minter m : (* the write lock waits for every read guard *)
      forallb (negb ∘ holds_minter) (hp_ongoing h) = true →
      helper_step h {| hp_shared := set_minter m (hp_shared h); hp_ongoing := hp_ongoing h; hp_answered := hp_answered h |}
  | hs_crl `{JJ : !Json JwkSet} answer :
      helper_step h {| hp_shared := set_crl (refresh_once P answer (sh_crl (hp_shared h))).1 (hp_shared h); hp_ongoing := hp_ongoing h;
        hp_answered := hp_answered h |}.
Definition helper_init (m : option Minter) (al : option Allowlist) (self : option (list u8)) : Helper :=
  {| hp_shared := {| sh_minter := m; sh_allowlist := al; sh_crl := None; sh_ledger := ∅; sh_self_sha := self; sh_audit_open := true;
                     sh_events := [] |}; hp_ongoing := []; hp_answered := [] |}.
End HelperServer.

(** ** Theorems *)
Section HelperTheorems.
Context (P : Primitives) `{SJ : !SvidJson, CJ : !ChildJson, FC : !Cbor HelperFrame, RC : !Cbor HelperReq}.
Context (to_uppercase : Z → list Z) (platform : Platform).
Local Abbreviation step := (helper_step P to_uppercase platform).
Local Abbreviation permitted := (permitted P to_uppercase platform).
Local Abbreviation step_mint := (step_mint P to_uppercase platform).
Local Abbreviation process_request := (process_request P to_uppercase platform).

(** A token answer goes with a grant that names the caller and the token, anything else with a
    denial. *)
Definition audited (id : option CallerIdentity) (resp : HelperResp) (ev : LocalEvent) : Prop :=
  match resp with
  | RespToken _ => ∃ i jti, id = Some i ∧ ev = LocalGrant (ci_pid i) (ci_uid i) (ci_bin_sha i) jti
  | RespError _ _ => ∃ pid uid sha reason, ev = LocalDenied pid uid sha reason
  end.

Lemma step_identity_err e r : step_identity (Err e) = Err r → audited None r.1 r.2.
Proof. unfold step_identity. destruct (default (0, 0) (auth_partial e)) as [pid uid]. intros [= <-]. by eexists _, _, _, _. Qed.
Lemma step_wellformed_err id req r : step_wellformed id req = Err r → audited (Some id) r.1 r.2.
Proof. unfold step_wellformed. destruct (_ || _); [|done]. intros [= <-]. by eexists _, _, _, _. Qed.
Lemma step_minter_err id (m : option (ChildTokenMinter P)) now r : step_minter P id m now = Err r → audited (Some id) r.1 r.2.
Proof. unfold step_minter. destruct m as [m|]; [destruct (negb _); [|done]|]; intros [= <-]; by eexists _, _, _, _. Qed.
Lemma step_gate_err id (m : ChildTokenMinter P) crl now r : step_gate P id m crl now = Err r → audited (Some id) r.1 r.2.
Proof. unfold step_gate. destruct (crl_gate _ _ _ _); [done|..]; intros [= <-]; by eexists _, _, _, _. Qed.
Lemma step_mint_audited self al id m req now jti rng : audited (Some id) (step_mint self al id m req now jti rng).1 (step_mint self al id m req now jti rng).2.
Proof.
  unfold HelperServer.step_mint. destruct (negb _); [by eexists _, _, _, _|]. destruct (mint P _ _ _ _ _ _ _ _); [by eexists _, _|by eexists _, _, _, _].
Qed.
Lemma step_minter_ok id (m : option (ChildTokenMinter P)) now m' : step_minter P id m now = Ok m' → m = Some m' ∧ now < mc_parent_expires_at (mn_cfg m').
Proof.
  unfold step_minter, parent_valid_at. destruct m as [m|]; [|done]. destruct (Z.ltb_spec now (mc_parent_expires_at (mn_cfg m))); cbn [negb]; [|done].
  by intros [= <-].
Qed.
Lemma step_gate_ok id (m : ChildTokenMinter P) crl now : step_gate P id m crl now = Ok tt →
  crl_gate crl (parent_cert_sha_hex m) (mc_host_spiffe_id (mn_cfg m)) now = GateOk.
Proof. unfold step_gate. by destruct (crl_gate _ _ _ _). Qed.

(** Why a token was granted. *)
Record grant_facts (self : option (list u8)) (id : CallerIdentity) (req : HelperReq) (m : ChildTokenMinter P) (now : Z) (crl : CrlCache)
    (al : option Allowlist) (t : ChildToken) : Prop := {
  gf_wellformed : hr_audience req ≠ "" ∧ hr_dpop_jkt req ≠ "" ∧ hr_ttl_secs req ≠ 0;
  gf_parent : now < mc_parent_expires_at (mn_cfg m);
  gf_gate : crl_gate crl (parent_cert_sha_hex m) (mc_host_spiffe_id (mn_cfg m)) now = GateOk;
  gf_permitted : self = Some (ci_bin_sha id) ∨ ∃ a, al = Some a ∧ permits_caller P to_uppercase platform a (caller_facts_of id) now = true;
  gf_minted : ∃ jti rng tok, mint P m (hr_audience req) (hr_dpop_jkt req) (hr_ttl_secs req) id now jti rng = Ok tok ∧
    t = {| ct_jws := mt_jws tok; ct_exp := mt_exp tok |} }.

Lemma step_wellformed_ok id req : step_wellformed id req = Ok tt → hr_audience req ≠ "" ∧ hr_dpop_jkt req ≠ "" ∧ hr_ttl_secs req ≠ 0.
Proof.
  unfold step_wellformed. destruct (_ || _) eqn:E; [done|]. intros _.
  apply orb_false_iff in E as [[?%String.eqb_neq ?%String.eqb_neq]%orb_false_iff ?%Z.eqb_neq]. done.
Qed.
Lemma step_mint_token self al id m req now jti rng t : (step_mint self al id m req now jti rng).1 = RespToken t →
  (self = Some (ci_bin_sha id) ∨ ∃ a, al = Some a ∧ permits_caller P to_uppercase platform a (caller_facts_of id) now = true) ∧
  ∃ tok, mint P m (hr_audience req) (hr_dpop_jkt req) (hr_ttl_secs req) id now jti rng = Ok tok ∧ t = {| ct_jws := mt_jws tok; ct_exp := mt_exp tok |}.
Proof.
  unfold HelperServer.step_mint. destruct (permitted self al id now) eqn:Ep; cbn [negb]; [|done].
  destruct (mint P _ _ _ _ _ _ _ _) as [tok|]; [|done]. intros [= <-]. split; [|by exists tok].
  apply orb_true_iff in Ep as [?%bool_decide_eq_true|H]; [by left|right]. destruct al as [a|]; [|done]. by exists a.
Qed.

(** *** What holds in every reachable state *)
Definition ongoing_ok (s : Shared P) (o : Ongoing P) : Prop :=
  (hr_audience (og_req P o) ≠ "" ∧ hr_dpop_jkt (og_req P o) ≠ "" ∧ hr_ttl_secs (og_req P o) ≠ 0) ∧
  match og_phase P o with
  | AtMinter _ => True
  | AtGate _ m now => sh_minter P s = Some m ∧ now < mc_parent_expires_at (mn_cfg m)
  | AtAllow _ m now crl => sh_minter P s = Some m ∧ now < mc_parent_expires_at (mn_cfg m) ∧
      crl_gate crl (parent_cert_sha_hex m) (mc_host_spiffe_id (mn_cfg m)) now = GateOk
  end.
Definition answered_ok (self : option (list u8)) (a : Answered P) : Prop :=
  audited (an_id P a) (an_resp P a) (an_event P a) ∧
  ∀ t, an_resp P a = RespToken t → ∃ id m now crl al, an_id P a = Some id ∧ an_used P a = Some (m, now, crl, al) ∧
    grant_facts self id (an_req P a) m now crl al t.
Record helper_inv (self : option (list u8)) (h : Helper P) : Prop := {
  hi_self : sh_self_sha P (hp_shared P h) = self;
  hi_open : sh_audit_open P (hp_shared P h) = true;
  hi_events : sh_events P (hp_shared P h) = an_event P <$> hp_answered P h;
  hi_ongoing : Forall (ongoing_ok (hp_shared P h)) (hp_ongoing P h);
  hi_answered : Forall (answered_ok self) (hp_answered P h) }.

Lemma ongoing_same_minter s s' os : sh_minter P s = sh_minter P s' → Forall (ongoing_ok s) os → Forall (ongoing_ok s') os.
Proof. intros E H. eapply Forall_impl; [exact H|]. intros o. unfold ongoing_ok. by rewrite E. Qed.
Lemma ongoing_split s l o l' : Forall (ongoing_ok s) (l ++ o :: l') → ongoing_ok s o ∧ Forall (ongoing_ok s) (l ++ l').
Proof. rewrite !Forall_app, Forall_cons. tauto. Qed.

(** Answering a request keeps the invariant. *)
Lemma finish_inv self s os done id req r used :
  sh_self_sha P s = self → sh_audit_open P s = true → sh_events P s = an_event P <$> done → Forall (ongoing_ok s) os →
  Forall (answered_ok self) done →
  answered_ok self {| an_id := id; an_req := req; an_resp := r.1; an_event := r.2; an_used := used |} →
  helper_inv self (finish P s os done id req r used).
Proof.
  intros Hs Ho He Hg Ha Hn. split; cbn.
  - done.
  - done.
  - rewrite Ho, He, fmap_app. done.
  - by eapply ongoing_same_minter, Hg.
  - apply Forall_app. split; [done|]. by apply Forall_singleton.
Qed.
Lemma refused_ok self id req r : audited id r.1 r.2 → (∀ t, r.1 ≠ RespToken t) →
  answered_ok self {| an_id := id; an_req := req; an_resp := r.1; an_event := r.2; an_used := None |}.
Proof. intros Ha Hn. split; cbn; [done|]. intros t Ht. by destruct (Hn t). Qed.

Lemma step_minter_no_token id (m : option (ChildTokenMinter P)) now r t : step_minter P id m now = Err r → r.1 ≠ RespToken t.
Proof. unfold step_minter. destruct m as [m|]; [destruct (negb _); [|done]|]; by intros [= <-]. Qed.
Lemma step_gate_no_token id (m : ChildTokenMinter P) crl now r t : step_gate P id m crl now = Err r → r.1 ≠ RespToken t.
Proof. unfold step_gate. destruct (crl_gate _ _ _ _); [done|..]; by intros [= <-]. Qed.

Lemma helper_step_inv self h h' : step h h' → helper_inv self h → helper_inv self h'.
Proof.
  intros Hst [H1 H2 H3 H4 H5]. destruct Hst as [e req r Hr|id req r Hr|id req Hr|l id req l' now r Hp Hr|l id req l' now m Hp Hr|
    l id req l' m now r Hp Hr|l id req l' m now Hp Hr|l id req l' m now crl jti rng Hp|al|m Hf|JJ answer].
  - apply finish_inv; try done. apply refused_ok; [by eapply step_identity_err|]. intros t. unfold step_identity in Hr.
    destruct (default (0, 0) _). by injection Hr as <-.
  - apply finish_inv; try done.
    apply refused_ok; [by eapply step_wellformed_err|]. intros t. unfold step_wellformed in Hr. destruct (_ || _); [|done]. by injection Hr as <-.
  - split; cbn; try done. apply Forall_cons. split; [split; [by apply (step_wellformed_ok id)|done]|]. by eapply ongoing_same_minter, H4.
  - rewrite Hp in H4. apply ongoing_split in H4 as [_ H4]. apply finish_inv; try done.
    apply refused_ok; [by eapply step_minter_err|]. intros t. by eapply step_minter_no_token.
  - rewrite Hp in H4. apply ongoing_split in H4 as [[Hw _] H4]. split; cbn; try done. apply Forall_cons. split; [|done].
    split; [done|]. cbn. by apply (step_minter_ok id).
  - rewrite Hp in H4. apply ongoing_split in H4 as [_ H4]. apply finish_inv; try done.
    apply refused_ok; [by eapply step_gate_err|]. intros t. by eapply step_gate_no_token.
  - rewrite Hp in H4. apply ongoing_split in H4 as [[Hw [Hm Hn]] H4]. split; cbn; try done. apply Forall_cons. split; [|done].
    split; [done|]. cbn. split_and!; [done|done|]. by apply (step_gate_ok id).
  - rewrite Hp in H4. apply ongoing_split in H4 as [[Hw (Hm & Hn & Hg)] H4]. apply finish_inv; try done. split; cbn; [apply step_mint_audited|].
    intros t (Hperm & tok & Hmint & Ht)%step_mint_token. exists id, m, now, crl, (sh_allowlist P (hp_shared P h)). split_and!; try done.
    split; try done; [by rewrite <- H1|by exists jti, rng, tok].
  - by split.
  - split; cbn; try done. rewrite forallb_forall in Hf. rewrite Forall_forall in H4 |- *. intros o Ho.
    specialize (H4 o Ho). apply list_elem_of_In, Hf in Ho. destruct H4 as [Hw _]. split; [done|].
    unfold holds_minter in Ho. cbn in Ho. by destruct (og_phase P o).
  - by split.
Qed.

Lemma helper_reachable_inv m al self h : rtc step (helper_init P m al self) h → helper_inv self h.
Proof.
  intros Hr. assert (helper_inv self (helper_init P m al self)) as Hi by (split; cbn; done || constructor).
  induction Hr as [|x y z Hst _ IH]; [done|]. by apply IH, (helper_step_inv self x).
Qed.

(** What stands behind an answered token. *)
Lemma answered_grant m0 al0 self h a t m now crl al :
  rtc step (helper_init P m0 al0 self) h → a ∈ hp_answered P h → an_resp P a = RespToken t → an_used P a = Some (m, now, crl, al) →
  ∃ id, an_id P a = Some id ∧ grant_facts self id (an_req P a) m now crl al t.
Proof.
  intros [_ _ _ _ Ha]%helper_reachable_inv Hin Ht Hu. rewrite Forall_forall in Ha.
  destruct (proj2 (Ha a Hin) t Ht) as (id & m' & now' & crl' & al' & Hid & Hu' & Hg). rewrite Hu in Hu'. injection Hu' as <- <- <- <-. by exists id.
Qed.

(** C7: Over every interleaving of requests with each other and with the tasks that swap the
    SVID, the allowlist and the revocation list, a token is only ever answered to a caller
    that is the agent's own binary or that the allowlist in force admitted, under a host SVID
    that had not expired and past a fresh revocation list that names neither that SVID nor the
    host; every answered request, granted or not, has exactly one audit event, in order, a
    grant naming the caller exactly when a token was answered. *)
Theorem tokens_only_for_admitted m al self h :
  rtc step (helper_init P m al self) h →
  sh_events P (hp_shared P h) = an_event P <$> hp_answered P h ∧
  ∀ a, a ∈ hp_answered P h →
    audited (an_id P a) (an_resp P a) (an_event P a) ∧
    ∀ t, an_resp P a = RespToken t → ∃ id m now crl al, an_id P a = Some id ∧ an_used P a = Some (m, now, crl, al) ∧
      grant_facts self id (an_req P a) m now crl al t.
Proof.
  intros [_ _ He _ Ha]%helper_reachable_inv. split; [done|]. intros a Hin. rewrite Forall_forall in Ha. by apply Ha.
Qed.

(** A swap of the host SVID is final: no request that is answered after it is answered with a
    token of the SVID before, even one that began under it. *)
Theorem minter_swap_is_final m al self h h' a t m' now crl al' :
  rtc step (helper_init P m al self) h → step h h' →
  hp_answered P h' = hp_answered P h ++ [a] → an_resp P a = RespToken t → an_used P a = Some (m', now, crl, al') →
  sh_minter P (hp_shared P h) = Some m' ∧ sh_allowlist P (hp_shared P h) = al'.
Proof.
  intros [_ _ _ Hg _]%helper_reachable_inv Hst Ha Ht Hu.
  destruct Hst as [e req r Hr|id req r Hr|id req Hr|l id req l' n r Hp Hr|l id req l' n mm Hp Hr|
    l id req l' mm n r Hp Hr|l id req l' mm n Hp Hr|l id req l' mm n c jti rng Hp|x|x Hf|JJ answer]; cbn [finish hp_answered] in Ha.
  all: try (apply app_inv_head in Ha; injection Ha as <-; cbn in Hu; try done).
  all: try (exfalso; apply (f_equal length) in Ha; rewrite length_app in Ha; cbn in Ha; lia).
  injection Hu as -> -> -> <-. rewrite Hp in Hg. apply ongoing_split in Hg as [[_ (Hm & _ & _)] _]. done.
Qed.

(** C23: A revocation takes effect on the agent within 300 seconds.  The host, or the SVID of
    the minter, is revoked at [t].  In every interleaving of requests and swaps, a token is
    answered past a list issued at or before [t], or past one signed from the working set
    after the revocation (with the revocation not lifted since, at no earlier clock repeated,
    and not yet thirty days old, whatever happened to other targets), only if the agent's
    clock was at most [t + 300]: no later than that past the older list, never past the newer. *)
Theorem revocation_stops_minting m0 al0 self h a tok m now al r target reason t (i : Issuer P) rng pub signed :
  rtc step (helper_init P m0 al0 self) h → a ∈ hp_answered P h → an_resp P a = RespToken tok →
  an_used P a = Some (m, now, Some (sc_body signed), al) →
  target = RtHost (mc_host_spiffe_id (mn_cfg m)) ∨ target = RtSvid (parent_cert_sha_hex m) →
  - 2 ^ 61 ≤ now ≤ 2 ^ 61 → - 2 ^ 61 ≤ cb_issued_at (sc_body signed) ≤ 2 ^ 61 →
  (cb_issued_at (sc_body signed) ≤ t → now ≤ t + 300) ∧
  ∀ ops, Forall (keeps target t) ops → pub < sat_i64 (t + CRL_ENTRY_TTL_SECS) →
    issuer_sign_crl P i rng (take_crl pub (foldl rev_op (revoke_target target reason t r) ops)).2 ≠ Ok signed.
Proof.
  intros Hr Hin Hresp Hu Ht Hn Hp. destruct (answered_grant _ _ _ _ _ _ _ _ _ _ Hr Hin Hresp Hu) as (id & _ & [_ _ Hg _ _]).
  unfold crl_gate in Hg. destruct (is_fresh _ _ _) eqn:Ef; cbn [negb] in Hg; [|done].
  destruct (revokes_svid _ _) eqn:Es; [done|]. destruct (revokes_host _ _) eqn:Eh; [done|]. split.
  - intros Hle. apply andb_true_iff in Ef as [Ha%Z.leb_le _]. unfold crl_age, CRL_MAX_AGE_SECS in Ha.
    rewrite wrap_i64_small in Ha by lia. lia.
  - intros ops Hk Hx Hpub. destruct (published_names_target P _ _ _ _ _ _ _ _ _ Hk Hx Hpub) as (e & He & Hte).
    destruct (named_is_revoked _ e target He Hte) as [H1 H2]. destruct Ht as [->| ->]; [by destruct (H2 _ Eh)|by destruct (H1 _ Es)].
Qed.

(** A step answers at most one request. *)
Lemma step_answered h h' : step h h' → hp_answered P h' = hp_answered P h ∨ ∃ a, hp_answered P h' = hp_answered P h ++ [a].
Proof. intros []; by (left + (right; eexists)). Qed.
Lemma answered_by_a_step h h' a : rtc step h h' → hp_answered P h = [] → hp_answered P h' = [a] →
  ∃ x y, rtc step h x ∧ step x y ∧ hp_answered P y = hp_answered P x ++ [a].
Proof.
  intros Hr H0. revert a. refine (rtc_ind_r (λ z, ∀ a, hp_answered P z = [a] → _) h _ _ h' Hr); [by rewrite H0|].
  intros x y Hx Hst IH a Ha.
  destruct (step_answered _ _ Hst) as [E|[b E]]; [apply IH; congruence|]. exists x, y. rewrite Ha in E.
  destruct (hp_answered P x) as [|c [|]]; [|done..]. by injection E as <-.
Qed.

(** A request that runs alone is one of the interleavings, with the answer and the state
    [process_request] gives. *)
Lemma process_request_steps h id req now jti rng s resp :
  process_request (hp_shared P h) id req now jti rng = (s, resp) →
  ∃ h' a, rtc step h h' ∧ hp_shared P h' = s ∧ hp_ongoing P h' = hp_ongoing P h ∧ hp_answered P h' = hp_answered P h ++ [a] ∧ an_resp P a = resp ∧
    (∀ t, resp = RespToken t → ∃ i m, id = Ok i ∧ an_id P a = Some i ∧ an_req P a = req ∧ sh_minter P (hp_shared P h) = Some m ∧
       an_used P a = Some (m, now, sh_crl P (hp_shared P h), sh_allowlist P (hp_shared P h))).
Proof.
  unfold HelperServer.process_request. destruct (step_identity id) as [i|[r ev]] eqn:Ei.
  2: { destruct id as [|e]; [done|]. intros [= <- <-]. eexists _, _. split; [apply rtc_once, (hs_unidentified _ _ _ h e req (r, ev) Ei)|].
       split_and!; try done. intros t ->. unfold step_identity in Ei. by destruct (default _ _). }
  destruct id as [id|]; [|cbn in Ei; by destruct (default _ _)]. injection Ei as ->. unfold answer_of.
  destruct (step_wellformed i req) as [[]|[r ev]] eqn:Ew.
  2: { intros [= <- <-]. eexists _, _. split; [apply rtc_once, (hs_malformed _ _ _ h i req (r, ev) Ew)|].
       split_and!; try done. intros t ->. unfold step_wellformed in Ew. by destruct (_ || _). }
  pose proof (hs_arrive P to_uppercase platform h i req Ew) as S1. set (s1 := observe P _ _ (hp_shared P h)) in *.
  set (mk := λ ph, {| hp_shared := s1; hp_ongoing := {| og_id := i; og_req := req; og_phase := ph |} :: hp_ongoing P h; hp_answered := hp_answered P h |}).
  destruct (step_minter P i (sh_minter P s1) now) as [m|[r ev]] eqn:Em.
  2: { intros [= <- <-]. eexists _, _. split; [eapply rtc_l; [exact S1|]; apply rtc_once|].
       - apply (hs_no_minter _ _ _ _ [] i req (hp_ongoing P h) now (r, ev)); [done|exact Em].
       - split_and!; try done. intros t ->. by destruct (step_minter_no_token _ _ _ _ t Em). }
  pose proof (hs_lock P to_uppercase platform (mk (AtMinter P)) [] i req (hp_ongoing P h) now m eq_refl Em) as S2.
  destruct (step_gate P i m (sh_crl P s1) now) as [[]|[r ev]] eqn:Eg.
  2: { intros [= <- <-]. eexists _, _. split; [eapply rtc_l; [exact S1|]; eapply rtc_l; [exact S2|]; apply rtc_once|].
       - apply (hs_gate_refused _ _ _ _ [] i req (hp_ongoing P h) m now (r, ev)); [done|exact Eg].
       - split_and!; try done. intros t ->. by destruct (step_gate_no_token _ _ _ _ _ t Eg). }
  pose proof (hs_gate P to_uppercase platform (mk (AtGate P m now)) [] i req (hp_ongoing P h) m now eq_refl Eg) as S3.
  destruct (step_mint (sh_self_sha P s1) (sh_allowlist P s1) i m req now jti rng) as [r ev] eqn:Emt. intros [= <- <-].
  pose proof (hs_mint P to_uppercase platform (mk (AtAllow P m now (sh_crl P s1))) [] i req (hp_ongoing P h) m now (sh_crl P s1) jti rng eq_refl) as S4.
  change (hp_shared P (mk (AtAllow P m now (sh_crl P s1)))) with s1 in S4. rewrite Emt in S4.
  eexists _, _. split; [eapply rtc_l; [exact S1|]; eapply rtc_l; [exact S2|]; eapply rtc_l; [exact S3|]; apply rtc_once; exact S4|].
  split_and!; try done. intros t _. exists i, m. apply step_minter_ok in Em as [Em _]. done.
Qed.
End HelperTheorems.
