(* ===== verification/HelperEndToEnd.v ===== *)
(** From an approval in the replicated ledger to a token a third party verifies: the helper
    server over the allowlist the agent synced from CMIS. *)
From stdpp Require Import gmap relations.
From S2P Require Import Prelude AppModel AppDedup AppSchema AppInvariants AppLedger AppOps Order Composite AllowlistV2 AllowlistCompile AllowlistServe AppPath MiaAllowlist AllowlistSync AllowlistEndToEnd Svid ChildToken CallerAuth HelperProto HelperServer.
Open Scope Z_scope.

Section HelperEndToEnd.
Context (P : Primitives) `{PL : !PrimitiveLaws P, CB : !AllowlistCbor, CBL : !AllowlistCborLaws}.
Context `{SJ : !SvidJson, SJL : !SvidJsonLaws, CJ : !ChildJson, CJL : !ChildJsonLaws}.
Context (parse_uuid : string → option (list u8)) (issuer : Issuer P) (allowlist_ttl_secs : Z).
Context (ledger_sha256 : list u8 → list u8) (to_cbor : ApprovalSnapshot → result LedgerError (list u8)).
Context (hex_decode : string → option (list u8)) (Hhex : ∀ b, hex_decode (hex_encode P b) = Some b).
Context (to_uppercase : Z → list Z) (platform : Platform) (state_to_json : SyncState → option (list u8)).
Local Abbreviation issuer_key := (public_of P (iss_secret P issuer)).
Local Abbreviation helper_step := (helper_step P to_uppercase platform).

(** C1: Whoever presents a verified token was approved by an administrator: if the helper server
    answered a token to another binary than the agent's own, under an allowlist the agent had
    applied from CMIS, then the caller is covered by an approval of this very host that was
    live in a state of the replicated ledger (or by the host's legacy body); and the token
    verifies under the host's published key, with the caller's binary, user and process and
    the requested audience and key in its claims, and expires with the parent SVID or ten
    minutes after it was minted.  Assumed: the agent trusts the issuer's key, the envelope it
    received is no forgery, and the clocks are within 2^61 seconds of the epoch. *)
Theorem token_actor_was_approved s cfg env tnow a a' g n al h m0 al0 self ans id m now crl t jwks :
  rtc (sys_step P parse_uuid issuer allowlist_ttl_secs ledger_sha256 to_cbor) sys_init s →
  tick P hex_decode state_to_json cfg env tnow a = (a', Applied g n) → ag_in_force a' = Some al → trusted_key P env = Some issuer_key →
  (∀ envelope g' signed doc,
     te_sync env = Ok {| sr_result := Some (SrSignedAllowlistV2 envelope); sr_generation := g' |} →
     allowlist_decode envelope = Ok signed → verify_v2 P signed issuer_key = Ok doc →
     ∃ b na signed', (dv_host_uuid doc, ServedBody (dv_generation doc) b na) ∈ s_answers s ∧
       allowlist_decode b = Ok signed' ∧ verify_v2 P signed' issuer_key = Ok doc) →
  rtc helper_step (helper_init P m0 al0 self) h → ans ∈ hp_answered P h →
  an_resp P ans = RespToken t → an_id P ans = Some id → an_used P ans = Some (m, now, crl, Some al) → self ≠ Some (ci_bin_sha id) →
  jwk_find jwks (mc_kid (mn_cfg m)) = Some (jwk_from_public_key P (mc_kid (mn_cfg m)) (public_of P (mn_secret m))) →
  - 2 ^ 61 ≤ now ≤ 2 ^ 61 → 0 < hr_ttl_secs (an_req P ans) < 2 ^ 32 →
  (∃ creds w, te_creds env = Some creds ∧ w ∈ s_trace s ∧
    ((∃ ap t0, approvals (w_db w) !! a_approval_id ap = Some ap ∧ a_host_uuid ap = hc_host_uuid creds ∧ is_live ap t0 = true ∧
        approval_covers P hex_decode to_uppercase platform (hc_host_uuid creds) (w_db w) ap (caller_facts_of id) now) ∨
     (∃ stored es e, w_legacy w !! hc_host_uuid creds = Some stored ∧ compile_legacy stored = Ok es ∧ e ∈ es ∧
        v2_admits P hex_decode to_uppercase platform (hc_host_uuid creds) e (caller_facts_of id) now))) ∧
  ∃ v, child_verify P (ct_jws t) jwks now 0 = Ok v ∧ cc_aud (cv_claims v) = hr_audience (an_req P ans) ∧
    cc_cnf_jkt (cv_claims v) = hr_dpop_jkt (an_req P ans) ∧ fc_actor_bin (cc_ferrogate (cv_claims v)) = hex_encode P (ci_bin_sha id) ∧
    fc_actor_uid (cc_ferrogate (cv_claims v)) = ci_uid id ∧ fc_actor_pid (cc_ferrogate (cv_claims v)) = ci_pid id ∧
    ct_exp t = cc_exp (cv_claims v) ∧ ct_exp t ≤ now + 600 ∧ ct_exp t ≤ mc_parent_expires_at (mn_cfg m).
Proof using All.
  intros Hr Ht Hf Hkey Hforge Hh Hin Hresp Hid Hused Hself Hjwk Hnow Httl.
  destruct (answered_grant _ _ _ _ _ _ _ _ _ _ _ _ _ Hh Hin Hresp Hused) as (id' & Hid' & [_ Hp _ Hperm (jti & rng & tok & Hmint & ->)]).
  rewrite Hid in Hid'. injection Hid' as <-.
  destruct Hperm as [|(al' & [= <-] & Hperm)]; [done|]. split.
  - exact (applied_permits_approved P parse_uuid hex_decode to_uppercase platform Hhex issuer allowlist_ttl_secs ledger_sha256 to_cbor
      state_to_json s cfg env tnow a a' g n al (caller_facts_of id) now Hr Ht Hf Hkey Hforge Hperm).
  - destruct (minted_token_window P m _ _ _ id now jti rng tok jwks now 0 Hmint Hjwk Hnow ltac:(lia) Hnow ltac:(lia)) as (H1 & H2 & H3 & Hv).
    rewrite decide_True in Hv; [|apply mint_ok in Hmint as (_ & hb & pb & sig & _ & _ & _ & _ & _ & ->); cbn [minted_claims cc_exp];
      rewrite wrap_i64_small by (unfold MAX_CHILD_TTL_SECS; lia); unfold MAX_CHILD_TTL_SECS; lia].
    eexists. split; [exact Hv|]. cbn. apply mint_ok in Hmint as (_ & hb & pb & sig & _ & _ & _ & _ & _ & He).
    split_and!; try done.
Qed.
End HelperEndToEnd.
