(* ===== verification/HelperWitnesses.v ===== *)
(** The theorems on child tokens, caller identities and the helper server applied to one
    concrete host: the caller of the sample approval asks for a token and presents it. *)
From stdpp Require Import gmap relations sorting.
From S2P Require Import Prelude AppModel AppDedup AppSchema AppInvariants AppLedger AppOps AppSample Order Composite AllowlistV2 AllowlistCompile AllowlistServe AppPath MiaAllowlist AllowlistSync AllowlistEndToEnd AllowlistWitnesses HostCache Svid HostAuth HostWitnesses ChildToken CallerAuth HelperProto HelperServer HelperEndToEnd.
Open Scope Z_scope.

(** ** Codecs *)
Definition child_fields (c : ChildClaims) : list (list u8) :=
  let f := cc_ferrogate c in
  [as_bytes (cc_iss c); as_bytes (cc_sub c); as_bytes (cc_aud c); zf (cc_exp c); zf (cc_iat c); as_bytes (cc_jti c); as_bytes (cc_cnf_jkt c);
   as_bytes (fc_parent_svid f); zf (fc_actor_pid f); zf (fc_actor_uid f); as_bytes (fc_actor_bin f)].
Definition fields_child (fs : list (list u8)) : option ChildClaims :=
  match fs with
  | [i; s; a; e; t; j; k; p; pid; uid; b] => Some {|
      cc_iss := bytes_string i; cc_sub := bytes_string s; cc_aud := bytes_string a; cc_exp := fz e; cc_iat := fz t; cc_jti := bytes_string j;
      cc_cnf_jkt := bytes_string k;
      cc_ferrogate := {| fc_parent_svid := bytes_string p; fc_actor_pid := fz pid; fc_actor_uid := fz uid; fc_actor_bin := bytes_string b |} |}
  | _ => None
  end.
Definition dpop_fields (h : DpopHeader) : list (list u8) :=
  [as_bytes (dh_typ h); as_bytes (dh_alg h); as_bytes (dk_kty (dh_jwk h)); as_bytes (dk_crv (dh_jwk h)); as_bytes (dk_x (dh_jwk h))].
Definition fields_dpop (fs : list (list u8)) : option DpopHeader :=
  match fs with
  | [t; a; k; c; x] => Some {| dh_typ := bytes_string t; dh_alg := bytes_string a;
      dh_jwk := {| dk_kty := bytes_string k; dk_crv := bytes_string c; dk_x := bytes_string x |} |}
  | _ => None
  end.
Definition dclaims_fields (c : DpopClaims) : list (list u8) := [as_bytes (dc_htm c); as_bytes (dc_htu c); zf (dc_iat c)].
Definition fields_dclaims (fs : list (list u8)) : option DpopClaims :=
  match fs with [m; u; i] => Some {| dc_htm := bytes_string m; dc_htu := bytes_string u; dc_iat := fz i |} | _ => None end.
#[export] Instance toy_child_json : ChildJson := {|
  child_claims_json := fields_json child_fields fields_child; dpop_header_json := fields_json dpop_fields fields_dpop;
  dpop_claims_json := fields_json dclaims_fields fields_dclaims |}.
#[export] Instance toy_child_json_laws : ChildJsonLaws.
Proof.
  split; apply fields_json_laws; intros a.
  - destruct a as [? ? ? ? ? ? ? []]; cbn -[as_bytes bytes_string zf fz]. by rewrite !bytes_string_bytes, !fz_zf.
  - destruct a as [? ? []]; cbn -[as_bytes bytes_string]. by rewrite !bytes_string_bytes.
  - destruct a; cbn -[as_bytes bytes_string zf fz]. by rewrite !bytes_string_bytes, !fz_zf.
Qed.

(** A request of the first protocol. *)
Definition req_fields (r : HelperReq) : list (list u8) := [as_bytes (hr_audience r); as_bytes (hr_dpop_jkt r); zf (hr_ttl_secs r)].
Definition fields_req (fs : list (list u8)) : option HelperReq :=
  match fs with
  | [a; k; t] => Some {| hr_audience := bytes_string a; hr_dpop_jkt := bytes_string k; hr_ttl_secs := fz t |}
  | _ => None
  end.
Definition fields_cbor {A} (put : A → list (list u8)) (get : list (list u8) → option A) : Cbor A :=
  {| into_writer a := Ok (put_fields (put a));
     from_reader b := match get (get_fields b) with Some a => Ok a | None => Err "cbor" end |}.
Lemma fields_cbor_laws {A} (put : A → list (list u8)) get : (∀ a, get (put a) = Some a) → @CborLaws A (fields_cbor put get).
Proof. intros H a b. cbn. intros [= <-]. by rewrite get_put_fields, H. Qed.
#[export] Instance toy_req_cbor : Cbor HelperReq := fields_cbor req_fields fields_req.
#[export] Instance toy_req_cbor_laws : CborLaws HelperReq.
Proof. apply fields_cbor_laws. intros []; cbn -[as_bytes bytes_string zf fz]. by rewrite !bytes_string_bytes, fz_zf. Qed.

(** ** Identifiers and frames *)
Definition demo_req : HelperReq := {| hr_audience := "https://api"; hr_dpop_jkt := "jkt"; hr_ttl_secs := 300 |}.
Lemma frame_roundtrip_witness : ∃ b, encode_frame demo_req = Ok b ∧ read_frame (b ++ [Byte.x01]) = Ok demo_req.
Proof.
  eexists. split; [vm_compute; reflexivity|].
  refine (proj1 (proj2 (frame_roundtrip demo_req _ [Byte.x01] _))). vm_compute. reflexivity.
Defined.

(** ** A caller on Linux *)
Definition demo_log : list Z := default [] (utf8_decode (as_bytes (
  "10 aa ima-ng sha384:" +:+ toy_hex_encode (vec_to_list (toy_hash 48 (as_bytes "image"))) +:+ " /opt/my tool"))).
Definition demo_image : OpenFile := {| fl_stat := Some ({| fk_dev := 1; fk_ino := 7 |}, 1); fl_bytes := Some (as_bytes "image");
  fl_fd_link := Some (as_bytes "/opt/my tool"); fl_getpath := None |}.
Definition demo_os (link : string) (image : OpenFile) : Os := {|
  os_read_link l := Some (as_bytes link); os_open p := Some image;
  os_lstat p := if bool_decide (p = as_bytes "/opt/my tool") then Some {| fk_dev := 1; fk_ino := 7 |} else None;
  os_stat p := Some {| fk_dev := 2; fk_ino := 2 |}; os_read_to_string p := Some demo_log |}.
Definition demo_auth : ImaCallerAuth := {| ia_ima_log_path := DEFAULT_IMA_LOG; ia_require_ima := true |}.
Definition demo_cred : PeerCred := {| pc_pid := Some 42; pc_uid := 1000; pc_gid := 1000 |}.

Lemma linux_identified : is_ok (linux_identify toy_primitives toy_hex_decode demo_auth (demo_os "/opt/my tool" demo_image) demo_cred) = true.
Proof. vm_compute. reflexivity. Qed.

Lemma linux_identity_genuine_witness :
  ∃ id, linux_identify toy_primitives toy_hex_decode demo_auth (demo_os "/opt/my tool" demo_image) demo_cred = Ok id ∧ ci_uid id = 1000.
Proof.
  destruct (is_ok_eq _ linux_identified) as [id Hid]. exists id.
  exact (conj Hid (proj1 (proj2 (linux_identity_genuine toy_primitives toy_hex_decode demo_auth (demo_os "/opt/my tool" demo_image) demo_cred id Hid)))).
Defined.

(** The same image after an upgrade replaced it on disk. *)
Definition upgraded_image : OpenFile := {| fl_stat := Some ({| fk_dev := 1; fk_ino := 9 |}, 0); fl_bytes := Some (as_bytes "image");
  fl_fd_link := Some (as_bytes "/opt/my tool (deleted)"); fl_getpath := None |}.
Definition no_measurement (text : option (list Z)) : bool :=
  match text with Some t => forallb (λ l, bool_decide (line_measurement toy_hex_decode t l = None)) (lines demo_log) | None => false end.
Lemma no_measurement_spec text : no_measurement text = true →
  ∀ t line, text = Some t → line ∈ lines demo_log → line_measurement toy_hex_decode t line = None.
Proof. intros H t line -> Hin%list_elem_of_In. cbn in H. rewrite forallb_forall in H. by apply (bool_decide_eq_true_1 _), H. Qed.

Lemma upgraded_process_refused_under_ima_witness :
  linux_identify toy_primitives toy_hex_decode demo_auth (demo_os "/opt/my tool (deleted)" upgraded_image) demo_cred =
    Err (ImaMissingEntry (Some (42, 1000))).
Proof.
  refine (proj1 (upgraded_process_refused_under_ima toy_primitives toy_hex_decode demo_auth (demo_os "/opt/my tool (deleted)" upgraded_image)
    demo_cred 42 (as_bytes "/opt/my tool") upgraded_image (as_bytes "image") demo_log eq_refl eq_refl eq_refl _ eq_refl eq_refl eq_refl _)).
  - eexists. vm_compute. reflexivity.
  - intros text line Ht. refine (no_measurement_spec (utf8_decode (as_bytes "/opt/my tool" ++ DELETED_SUFFIX)) _ text line Ht). vm_compute. reflexivity.
Defined.

(** ** Tokens *)
Definition demo_minter : ChildTokenMinter toy_primitives := {| mn_secret := toy_sk;
  mn_cfg := {| mc_host_spiffe_id := "spiffe://t/host/h1"; mc_parent_svid_sha384 := replicate 48 Byte.x05;
               mc_parent_expires_at := 500; mc_kid := "host-1" |} |}.
Definition demo_jwks : JwkSet := jwks_single (jwk_from_public_key toy_primitives "host-1" (public_of toy_primitives toy_sk)).
Definition demo_id : CallerIdentity := {| ci_pid := 42; ci_uid := 1000; ci_gid := 1000; ci_bin_sha := replicate 48 Byte.xaa;
  ci_exe_path := Some (as_bytes "/opt/tool"); ci_user_sid := None |}.

(** The application's key, its thumbprint and a proof of it. *)
Definition app_x : string := toy_hex_encode (replicate 32 Byte.x21).
Definition app_jkt : string := jwk_thumbprint_ed25519 toy_primitives app_x.
Definition demo_expect : DpopExpectation := {| de_htm := "GET"; de_htu := "https://api/x"; de_max_age_secs := 60 |}.
Definition proof_input (iat : Z) : string :=
  toy_hex_encode (put_fields (dpop_fields {| dh_typ := DPOP_TYP; dh_alg := DPOP_ALG;
    dh_jwk := {| dk_kty := "OKP"; dk_crv := "Ed25519"; dk_x := app_x |} |})) +:+ "." +:+
  toy_hex_encode (put_fields (dclaims_fields {| dc_htm := "GET"; dc_htu := "https://api/x"; dc_iat := iat |})).
Definition demo_proof (iat : Z) : string :=
  proof_input iat +:+ "." +:+ toy_hex_encode (toy_ed_sign (fit 32 (replicate 32 Byte.x21)) (as_bytes (proof_input iat))).

Abbreviation demo_minted :=
  (mint toy_primitives demo_minter "https://api" app_jkt 3600 demo_id 80 (replicate 16 Byte.x07) (Ok [])).
Definition demo_jws : string := match demo_minted with Ok t => mt_jws t | Err _ => "" end.
Lemma demo_minted_ok : is_ok demo_minted = true.
Proof. vm_compute. reflexivity. Qed.
Lemma demo_minted_exp : (match demo_minted with Ok t => mt_exp t | Err _ => 0 end) = 500.
Proof. vm_compute. reflexivity. Qed.
Lemma demo_kid : jwk_find demo_jwks (mc_kid (mn_cfg demo_minter)) =
  Some (jwk_from_public_key toy_primitives (mc_kid (mn_cfg demo_minter)) (public_of toy_primitives (mn_secret demo_minter))).
Proof. reflexivity. Qed.

Lemma minted_token_verifies_witness : ∃ tok v, demo_minted = Ok tok ∧ mt_exp tok ≤ 500 ∧
  child_verify toy_primitives (mt_jws tok) demo_jwks 499 0 = Ok v.
Proof.
  destruct (is_ok_eq _ demo_minted_ok) as [tok Htok]. pose proof demo_minted_exp as Hx. rewrite Htok in Hx.
  destruct (minted_token_verifies toy_primitives demo_minter "https://api" app_jkt 3600 demo_id 80 (replicate 16 Byte.x07) (Ok []) tok demo_jwks
    499 0 Htok demo_kid ltac:(lia) ltac:(lia) ltac:(lia) ltac:(lia)) as (_ & _ & H3 & Hv).
  rewrite decide_True in Hv by lia. exists tok. eexists. exact (conj Htok (conj H3 Hv)).
Defined.

Abbreviation demo_bound iat now := (verify_bound toy_primitives demo_jws demo_jwks (Some (demo_proof iat)) demo_expect now 5).
Lemma demo_bound_ok : is_ok (demo_bound 90 100) && is_ok (demo_bound 300 301) = true.
Proof. vm_compute. reflexivity. Qed.
Lemma demo_bound_eqs : (∃ v, demo_bound 90 100 = Ok v) ∧ ∃ v, demo_bound 300 301 = Ok v.
Proof. destruct (andb_prop _ _ demo_bound_ok) as [H1 H2]. exact (conj (is_ok_eq _ H1) (is_ok_eq _ H2)). Qed.

Lemma verify_bound_sound_witness : ∃ v x, demo_bound 90 100 = Ok v ∧
  dpop_facts toy_primitives (demo_proof 90) demo_expect 100 5 (cc_cnf_jkt (cv_claims v)) x.
Proof.
  destruct (proj1 demo_bound_eqs) as [v Hv].
  destruct (verify_bound_sound toy_primitives demo_jws demo_jwks _ demo_expect 100 5 v Hv) as (p0 & p1 & p2 & pr & x & _ & Hp & Hx).
  injection Hp as Hp. rewrite <- Hp in Hx. exists v, x. exact (conj Hv Hx).
Defined.

Lemma token_bound_to_one_key_witness : ∃ v1 v2 x1 x2, demo_bound 90 100 = Ok v1 ∧ demo_bound 300 301 = Ok v2 ∧
  dpop_facts toy_primitives (demo_proof 90) demo_expect 100 5 (cc_cnf_jkt (cv_claims v1)) x1 ∧
  dpop_facts toy_primitives (demo_proof 300) demo_expect 301 5 (cc_cnf_jkt (cv_claims v2)) x2.
Proof.
  destruct demo_bound_eqs as [[v1 H1] [v2 H2]].
  destruct (token_bound_to_one_key toy_primitives demo_jws demo_jwks _ demo_expect 100 5 v1 _ demo_expect 301 5 v2 H1 H2)
    as (x1 & x2 & F1 & F2 & _).
  exists v1, v2, x1, x2. exact (conj H1 (conj H2 (conj F1 F2))).
Defined.

Lemma svid_and_child_disjoint_witness : ∃ e, svid_verify toy_primitives demo_jws demo_jwks 100 5 = Err e.
Proof.
  destruct (proj1 demo_bound_eqs) as [v Hv]. apply verify_bound_ok in Hv as [Hc _].
  exact (svid_and_child_disjoint toy_primitives demo_jws demo_jwks 100 5 v demo_jwks 100 5 Hc).
Defined.

(** ** The server *)
Definition crl_key : Issuer toy_primitives := host_issuer.
Definition crl_out := issuer_sign_crl toy_primitives crl_key (Ok []) (take_crl 60 no_revocations).2.
Definition demo_crl : SignedCrl :=
  match crl_out with
  | Ok s => s
  | Err _ => {| sc_body := {| cb_issued_at := 0; cb_number := 0; cb_entries := [] |}; sc_signer_kid := ""; sc_signature_b64 := "" |}
  end.
Definition crl_jwks : JwkSet := issuer_jwks toy_primitives crl_key (Some demo_crl).
(** The server answers the list above, whatever its bytes. *)
Definition const_json : Json JwkSet := {| to_vec _ := Ok []; from_slice _ := Ok crl_jwks |}.

Definition demo_start : Helper toy_primitives := helper_init toy_primitives (Some demo_minter) (ag_in_force tick1.1) None.
Definition demo_helper : Helper toy_primitives :=
  {| hp_shared := set_crl toy_primitives (@refresh_once toy_primitives _ const_json (Some []) None).1 (hp_shared _ demo_start);
     hp_ongoing := []; hp_answered := [] |}.
Definition token_req : HelperReq := {| hr_audience := "https://api"; hr_dpop_jkt := app_jkt; hr_ttl_secs := 3600 |}.
Abbreviation served :=
  (process_request toy_primitives demo_upper Linux (hp_shared _ demo_helper) (Ok demo_id) token_req 80 (replicate 16 Byte.x07) (Ok [])).
Definition is_token (r : HelperResp) : bool := match r with RespToken _ => true | RespError _ _ => false end.
Lemma served_token : is_token served.2 = true.
Proof. vm_compute. reflexivity. Qed.
Lemma is_token_eq r : is_token r = true → ∃ t, r = RespToken t.
Proof. destruct r as [t|]; [|done]. by exists t. Qed.
Lemma served_eq : ∃ t, served = (served.1, RespToken t).
Proof. destruct (is_token_eq _ served_token) as [t Ht]. exists t. apply surjective_pairing_snd, Ht. Qed.
Abbreviation toy_helper_step := (helper_step toy_primitives demo_upper Linux).
Lemma demo_helper_reached : rtc toy_helper_step demo_start demo_helper.
Proof. apply rtc_once. exact (hs_crl toy_primitives demo_upper Linux demo_start (Some [])). Qed.

(** The run in which the caller is answered its token. *)
Lemma demo_answered : ∃ h a t m, rtc toy_helper_step demo_start h ∧ hp_answered _ h = [a] ∧ an_resp _ a = RespToken t ∧
  an_id _ a = Some demo_id ∧ an_req _ a = token_req ∧ an_used _ a = Some (m, 80, sh_crl _ (hp_shared _ demo_helper), ag_in_force tick1.1) ∧ m = demo_minter.
Proof.
  destruct served_eq as [t Ht].
  destruct (process_request_steps toy_primitives demo_upper Linux demo_helper _ _ _ _ _ _ _ Ht) as (h & a & Hr & _ & _ & Ha & Hresp & Hu).
  destruct (Hu t eq_refl) as (i & m & Hi & Hid & Hreq & Hm & Hused). injection Hi as <-.
  exists h, a, t, m. split; [exact (transitivity demo_helper_reached Hr)|]. injection Hm as <-.
  exact (conj Ha (conj Hresp (conj Hid (conj Hreq (conj Hused eq_refl))))).
Qed.

Lemma tokens_only_for_admitted_witness : ∃ h a, rtc toy_helper_step demo_start h ∧ hp_answered _ h = [a] ∧
  sh_events _ (hp_shared _ h) = [an_event _ a] ∧ audited (an_id _ a) (an_resp _ a) (an_event _ a).
Proof.
  destruct demo_answered as (h & a & t & m & Hr & Ha & _).
  destruct (tokens_only_for_admitted toy_primitives demo_upper Linux (Some demo_minter) (ag_in_force tick1.1) None h Hr) as [He Hall].
  rewrite Ha in He, Hall. exists h, a. exact (conj Hr (conj Ha (conj He (proj1 (Hall a (list_elem_of_here _ _)))))).
Defined.

Lemma minter_swap_is_final_witness : ∃ x y a t, toy_helper_step x y ∧ hp_answered _ y = hp_answered _ x ++ [a] ∧ an_resp _ a = RespToken t ∧
  sh_minter _ (hp_shared _ x) = Some demo_minter.
Proof.
  destruct demo_answered as (h & a & t & m & Hr & Ha & Ht & _ & _ & Hu & Hm). rewrite Hm in Hu.
  destruct (answered_by_a_step toy_primitives demo_upper Linux demo_start h a Hr eq_refl Ha) as (x & y & Hx & Hst & Hy).
  destruct (minter_swap_is_final toy_primitives demo_upper Linux (Some demo_minter) (ag_in_force tick1.1) None x y a t
    demo_minter 80 _ _ Hx Hst Hy Ht Hu) as [H1 _].
  exists x, y, a, t. exact (conj Hst (conj Hy (conj Ht H1))).
Defined.

Definition body_eqb (c : CrlCache) (b : CrlBody) : bool :=
  match c with
  | Some c => (cb_issued_at c =? cb_issued_at b) && (cb_number c =? cb_number b) && (length (cb_entries c) =? 0)%nat && (length (cb_entries b) =? 0)%nat
  | None => false
  end.
Lemma body_eqb_eq c b : body_eqb c b = true → c = Some b.
Proof.
  destruct c as [[? ? []]|], b as [? ? []]; cbn; rewrite ?andb_false_r; try done. rewrite !andb_true_r.
  by intros [->%Z.eqb_eq ->%Z.eqb_eq]%andb_true_iff.
Qed.
Lemma demo_crl_body : body_eqb (sh_crl _ (hp_shared _ demo_helper)) (sc_body demo_crl) = true.
Proof. vm_compute. reflexivity. Qed.

Lemma demo_crl_issued : cb_issued_at (sc_body demo_crl) = 60.
Proof. vm_compute. reflexivity. Qed.
(** The token is answered at 80 past the list issued at 60; the host is revoked at 60, and no
    list signed after that lets the token pass. *)
Lemma revocation_stops_minting_witness : ∃ h a tok al, rtc toy_helper_step demo_start h ∧ a ∈ hp_answered _ h ∧ an_resp _ a = RespToken tok ∧
  an_used _ a = Some (demo_minter, 80, Some (sc_body demo_crl), al) ∧ 80 ≤ 60 + 300 ∧
  issuer_sign_crl toy_primitives crl_key (Ok []) (take_crl 70 (revoke_target (RtHost "spiffe://t/host/h1") "lost" 60 no_revocations)).2 ≠ Ok demo_crl.
Proof.
  destruct demo_answered as (h & a & t & m & Hr & Ha & Ht & _ & _ & Hu & Hm). rewrite Hm, (body_eqb_eq _ _ demo_crl_body) in Hu.
  assert (a ∈ hp_answered _ h) as Hin by (rewrite Ha; apply list_elem_of_here).
  destruct (revocation_stops_minting toy_primitives demo_upper Linux (Some demo_minter) (ag_in_force tick1.1) None h a t demo_minter 80 (ag_in_force tick1.1)
    no_revocations (RtHost "spiffe://t/host/h1") "lost" 60 crl_key (Ok []) 70 demo_crl Hr Hin Ht Hu (or_introl eq_refl)
    ltac:(lia) ltac:(rewrite demo_crl_issued; lia)) as [H1 H2].
  exists h, a, t, (ag_in_force tick1.1). split; [exact Hr|]. split; [exact Hin|]. split; [exact Ht|]. split; [exact Hu|].
  split; [apply H1; rewrite demo_crl_issued; lia|]. refine (H2 [] _ _); [constructor|vm_compute; reflexivity].
Defined.

Lemma token_actor_was_approved_witness : ∃ s h ans t v, rtc demo_step sys_init s ∧ rtc toy_helper_step demo_start h ∧ ans ∈ hp_answered _ h ∧
  child_verify toy_primitives (ct_jws t) demo_jwks 80 0 = Ok v ∧ fc_actor_uid (cc_ferrogate (cv_claims v)) = 1000.
Proof.
  destruct demo_reachable as (s & Hs & H1 & _).
  destruct (applied_permits_eq _ _ _ tick1_applied) as (g & n & al & Ht & Hf & _).
  destruct demo_answered as (h & a & t & m & Hr & Ha & Hresp & Hid & Hreq & Hu & Hm). rewrite Hm, Hf in Hu.
  assert (a ∈ hp_answered _ h) as Hin by (rewrite Ha; apply list_elem_of_here).
  assert ((None : option (list u8)) ≠ Some (ci_bin_sha demo_id)) as Hself by discriminate.
  assert (0 < hr_ttl_secs (an_req _ a) < 2 ^ 32) as Httl by (rewrite Hreq; cbn [token_req hr_ttl_secs]; lia).
  destruct (token_actor_was_approved toy_primitives demo_uuid demo_issuer 3600 toy_sha256 toy_cbor toy_hex_decode toy_hex_roundtrip demo_upper Linux
    demo_json s demo_cfg _ 70 demo_agent _ g n al h (Some demo_minter) (ag_in_force tick1.1) None a demo_id demo_minter 80
    (sh_crl _ (hp_shared _ demo_helper)) t demo_jwks Hs Ht Hf (demo_key _ _)
    (served_not_forged toy_primitives demo_uuid demo_issuer 3600 toy_sha256 toy_cbor s "h1" _ _ _ _ _ Hs H1 eq_refl)
    Hr Hin Hresp Hid Hu Hself demo_kid ltac:(lia) Httl)
    as [_ (v & Hv & _ & _ & _ & Huid & _)].
  exists s, h, a, t, v. exact (conj Hs (conj Hr (conj Hin (conj Hv Huid)))).
Defined.
