(* ===== verification/AdminStore.v ===== *)
(** The replicated tables of administrator authentication and their accessors
    (crates/ferro-raft/src/admin.rs).

    A statement either changes rows and counts them or violates a constraint, which rolls
    its transaction back.  An accessor of [Cluster] is one transaction or one query, atomic
    in the replicated store; those that make two calls are programs of [AdminService]. *)
From S2P Require Import Prelude AppModel AppDedup AppSchema Order.
Open Scope Z_scope.

Definition ACCOUNT_PENDING : Z := 1.
Definition ACCOUNT_ACTIVE : Z := 2.
Definition ACCOUNT_DISABLED : Z := 3.
Definition TOKEN_BOOTSTRAP : Z := 1.
Definition TOKEN_ENROLL : Z := 2.
Definition TOKEN_RESET : Z := 3.
Definition TOKEN_RECOVERY : Z := 4.
Definition MAX_WEBAUTHN_CREDENTIALS : Z := 8.

(** The built-in groups with their permissions. *)
Definition BUILTIN_GROUPS : list (string * list string) :=
  [("ferrogate-viewers", ["app_request.list"; "app_request.read"; "approval.list"; "approval.read"; "host.list"]);
   ("ferrogate-approvers", ["app_request.list"; "app_request.read"; "approval.list"; "approval.read"; "host.list";
      "app_request.approve"; "app_request.deny"; "approval.update"; "approval.revoke"; "app.direct_register"]);
   ("ferrogate-account-admins", ["account.list"; "account.create"; "account.update"; "account.disable"; "account.reset";
      "session.revoke_any"]);
   ("ferrogate-platform-operators", ["host.list"; "legacy.allowlist.read"; "legacy.allowlist.write"; "svid.list";
      "svid.revoke"; "policy.epoch_bump"; "settings.allowlist_mode"; "allowlist.import"])].

(** ** Rows *)
Record AdminAccountRow := MkAccount {
  aa_admin_id : string; aa_username : string; aa_display_name : option string; aa_state : Z; aa_created_at : Z;
  aa_created_by : option string; aa_password_phc : option string; aa_pepper_id : option Z; aa_password_changed_at : option Z;
  aa_password_expires_at : option Z; aa_totp_secret_enc : option (list u8); aa_totp_last_step : option Z;
  aa_last_login_at : option Z; aa_disabled_at : option Z; aa_disabled_by : option string; aa_row_version : Z }.

(** The columns an UPDATE sets. *)
Definition set_password (phc : string) (pepper : option Z) (changed expires : Z) (a : AdminAccountRow) : AdminAccountRow :=
  let '(MkAccount i u d s c b _ _ _ _ te ts l da db v) := a in
  MkAccount i u d s c b (Some phc) pepper (Some changed) (Some expires) te ts l da db v.
Definition set_phc (phc : option string) (pepper : option Z) (a : AdminAccountRow) : AdminAccountRow :=
  let '(MkAccount i u d s c b _ _ pc px te ts l da db v) := a in MkAccount i u d s c b phc pepper pc px te ts l da db v.
Definition set_totp (enc : option (list u8)) (step : option Z) (a : AdminAccountRow) : AdminAccountRow :=
  let '(MkAccount i u d s c b p pe pc px _ _ l da db v) := a in MkAccount i u d s c b p pe pc px enc step l da db v.
Definition set_last_step (step : Z) (a : AdminAccountRow) : AdminAccountRow :=
  let '(MkAccount i u d s c b p pe pc px te _ l da db v) := a in MkAccount i u d s c b p pe pc px te (Some step) l da db v.
Definition set_last_login (now : Z) (a : AdminAccountRow) : AdminAccountRow :=
  let '(MkAccount i u d s c b p pe pc px te ts _ da db v) := a in MkAccount i u d s c b p pe pc px te ts (Some now) da db v.
Definition set_state (state : Z) (a : AdminAccountRow) : AdminAccountRow :=
  let '(MkAccount i u d _ c b p pe pc px te ts l da db v) := a in MkAccount i u d state c b p pe pc px te ts l da db v.
Definition set_disabled (at_ : option Z) (by_ : option string) (a : AdminAccountRow) : AdminAccountRow :=
  let '(MkAccount i u d s c b p pe pc px te ts l _ _ v) := a in MkAccount i u d s c b p pe pc px te ts l at_ by_ v.
Definition set_display (name : option string) (a : AdminAccountRow) : AdminAccountRow :=
  let '(MkAccount i u _ s c b p pe pc px te ts l da db v) := a in MkAccount i u name s c b p pe pc px te ts l da db v.
Definition bump (a : AdminAccountRow) : AdminAccountRow :=
  let '(MkAccount i u d s c b p pe pc px te ts l da db v) := a in MkAccount i u d s c b p pe pc px te ts l da db (v + 1).

Record AdminSessionRow := MkSession {
  ss_hash : list u8; ss_admin_id : string; ss_created_at : Z; ss_last_seen_at : Z; ss_absolute_expires_at : Z;
  ss_idle_timeout_secs : Z; ss_aal : Z; ss_mfa_at : Z; ss_mfa_method : Z; ss_source_ip : string;
  ss_client_cert : option (list u8); ss_client_kind : Z; ss_client_version : option string; ss_restricted : Z;
  ss_revoked_at : option Z; ss_revoked_reason : option Z; ss_stepup_failures : Z }.
Definition set_last_seen (now : Z) (s : AdminSessionRow) : AdminSessionRow :=
  let '(MkSession h a c _ x i l m mm ip cc k cv r ra rr f) := s in MkSession h a c now x i l m mm ip cc k cv r ra rr f.
Definition set_revoked (now reason : Z) (s : AdminSessionRow) : AdminSessionRow :=
  let '(MkSession h a c ls x i l m mm ip cc k cv r _ _ f) := s in MkSession h a c ls x i l m mm ip cc k cv r (Some now) (Some reason) f.
Definition set_stepup_failures (n : Z) (s : AdminSessionRow) : AdminSessionRow :=
  let '(MkSession h a c ls x i l m mm ip cc k cv r ra rr _) := s in MkSession h a c ls x i l m mm ip cc k cv r ra rr n.
Record MfaVerification := { mv_at : Z; mv_method : Z; mv_aal : Z }.
Definition rotated (new_hash : list u8) (mfa : option MfaVerification) (restricted : Z) (s : AdminSessionRow) : AdminSessionRow :=
  let '(MkSession _ a c ls x i l m mm ip cc k cv _ ra rr _) := s in
  MkSession new_hash a c ls x i (from_option mv_aal l mfa) (from_option mv_at m mfa) (from_option mv_method mm mfa) ip cc k cv restricted ra rr 0.

Record WebAuthnCredentialRow := {
  wc_credential_id : list u8; wc_admin_id : string; wc_cose_public_key : list u8; wc_sign_count : Z; wc_aaguid : option (list u8);
  wc_label : option string; wc_created_at : Z; wc_last_used_at : option Z }.
Definition set_used (count now : Z) (c : WebAuthnCredentialRow) : WebAuthnCredentialRow :=
  {| wc_credential_id := wc_credential_id c; wc_admin_id := wc_admin_id c; wc_cose_public_key := wc_cose_public_key c; wc_sign_count := count;
     wc_aaguid := wc_aaguid c; wc_label := wc_label c; wc_created_at := wc_created_at c; wc_last_used_at := Some now |}.

Record EnrollmentTokenRow := MkToken {
  et_token_hash : list u8; et_admin_id : option string; et_purpose : Z; et_created_by : option string; et_created_at : Z;
  et_expires_at : Z; et_used_at : option Z; et_pending_secret_enc : option (list u8) }.
Definition token_used (now : Z) (t : EnrollmentTokenRow) : EnrollmentTokenRow :=
  let '(MkToken h a p b c x _ s) := t in MkToken h a p b c x (Some now) s.
Definition token_owner (id : string) (t : EnrollmentTokenRow) : EnrollmentTokenRow :=
  let '(MkToken h _ p b c x u s) := t in MkToken h (Some id) p b c x u s.
Definition token_pending (sealed : list u8) (t : EnrollmentTokenRow) : EnrollmentTokenRow :=
  let '(MkToken h a p b c x u _) := t in MkToken h a p b c x u (Some sealed).

Record ThrottleRow := { th_key_hash : list u8; th_key_kind : Z; th_failures : Z; th_locked_until : Z; th_last_failure_at : Z }.
Record PasswordHistoryRow := { ph_password_phc : string; ph_pepper_id : option Z }.
Record MemberRow := { mb_granted_by : option string; mb_granted_at : Z }.
Record SecurityLogRow := { sl_at : Z; sl_event : string; sl_admin_id : option string;
  sl_username_attempted_hmac : option (list u8); sl_source_ip : option string; sl_detail : option string }.
Record PasswordUpdate := { pu_password_phc : string; pu_pepper_id : option Z; pu_changed_at : Z; pu_expires_at : Z }.
Record EnrollmentCompletion := {
  ec_token_hash : list u8; ec_admin_id : string; ec_password : option PasswordUpdate; ec_totp : option (list u8 * Z);
  ec_webauthn : option WebAuthnCredentialRow; ec_now : Z }.

(** ** The tables *)
Record AdminDb := MkAdminDb {
  ad_accounts : gmap string AdminAccountRow; ad_history : gmap (string * Z) PasswordHistoryRow;
  ad_webauthn : gmap (list u8) WebAuthnCredentialRow; ad_groups : gmap string string; ad_permissions : gset (string * string);
  ad_members : gmap (string * string) MemberRow; ad_sessions : gmap (list u8) AdminSessionRow;
  ad_tokens : gmap (list u8) EnrollmentTokenRow; ad_throttle : gmap (list u8) ThrottleRow; ad_security_log : list SecurityLogRow;
  ad_settings : gmap string string }.

Definition put_accounts x (d : AdminDb) : AdminDb :=
  MkAdminDb x (ad_history d) (ad_webauthn d) (ad_groups d) (ad_permissions d) (ad_members d) (ad_sessions d) (ad_tokens d) (ad_throttle d) (ad_security_log d) (ad_settings d).
Definition put_history x (d : AdminDb) : AdminDb :=
  MkAdminDb (ad_accounts d) x (ad_webauthn d) (ad_groups d) (ad_permissions d) (ad_members d) (ad_sessions d) (ad_tokens d) (ad_throttle d) (ad_security_log d) (ad_settings d).
Definition put_webauthn x (d : AdminDb) : AdminDb :=
  MkAdminDb (ad_accounts d) (ad_history d) x (ad_groups d) (ad_permissions d) (ad_members d) (ad_sessions d) (ad_tokens d) (ad_throttle d) (ad_security_log d) (ad_settings d).
Definition put_members x (d : AdminDb) : AdminDb :=
  MkAdminDb (ad_accounts d) (ad_history d) (ad_webauthn d) (ad_groups d) (ad_permissions d) x (ad_sessions d) (ad_tokens d) (ad_throttle d) (ad_security_log d) (ad_settings d).
Definition put_sessions x (d : AdminDb) : AdminDb :=
  MkAdminDb (ad_accounts d) (ad_history d) (ad_webauthn d) (ad_groups d) (ad_permissions d) (ad_members d) x (ad_tokens d) (ad_throttle d) (ad_security_log d) (ad_settings d).
Definition put_tokens x (d : AdminDb) : AdminDb :=
  MkAdminDb (ad_accounts d) (ad_history d) (ad_webauthn d) (ad_groups d) (ad_permissions d) (ad_members d) (ad_sessions d) x (ad_throttle d) (ad_security_log d) (ad_settings d).
Definition put_throttle x (d : AdminDb) : AdminDb :=
  MkAdminDb (ad_accounts d) (ad_history d) (ad_webauthn d) (ad_groups d) (ad_permissions d) (ad_members d) (ad_sessions d) (ad_tokens d) x (ad_security_log d) (ad_settings d).
Definition put_security_log x (d : AdminDb) : AdminDb :=
  MkAdminDb (ad_accounts d) (ad_history d) (ad_webauthn d) (ad_groups d) (ad_permissions d) (ad_members d) (ad_sessions d) (ad_tokens d) (ad_throttle d) x (ad_settings d).
Definition put_settings x (d : AdminDb) : AdminDb :=
  MkAdminDb (ad_accounts d) (ad_history d) (ad_webauthn d) (ad_groups d) (ad_permissions d) (ad_members d) (ad_sessions d) (ad_tokens d) (ad_throttle d) (ad_security_log d) x.

(** The tables [init_admin_schema] leaves behind on an empty store; built-in groups have
    their name as id. *)
Definition init_admin_schema : AdminDb :=
  MkAdminDb ∅ ∅ ∅ (list_to_map ((λ g, (g.1, g.1)) <$> BUILTIN_GROUPS)) (list_to_set (BUILTIN_GROUPS ≫= λ g, (λ p, (g.1, p)) <$> g.2))
    ∅ ∅ ∅ ∅ [] ∅.

(** ** Statements *)
Inductive ClusterError := Conflict (m : string) | StoreFailed.
Inductive SqlError := UniqueFailed | TriggerAborted.
Definition stmt : Type := AdminDb → result SqlError (AdminDb * Z).

(** [execute] and [txn], and the mapping of a violated UNIQUE constraint. *)
Definition execute (s : stmt) (d : AdminDb) : AdminDb * result ClusterError Z :=
  match s d with Ok (d', n) => (d', Ok n) | Err _ => (d, Err StoreFailed) end.
Fixpoint txn_loop (ss : list stmt) (d : AdminDb) : result SqlError (AdminDb * list Z) :=
  match ss with
  | [] => Ok (d, [])
  | s :: ss =>
      let? (d1, n) := s d in
      let? (d2, ns) := txn_loop ss d1 in
      Ok (d2, n :: ns)
  end.
Definition txn (ss : list stmt) (d : AdminDb) : AdminDb * result ClusterError (list Z) :=
  match txn_loop ss d with Ok (d', ns) => (d', Ok ns) | Err _ => (d, Err StoreFailed) end.
Definition txn_conflict (ss : list stmt) (d : AdminDb) : AdminDb * result ClusterError (list Z) :=
  match txn_loop ss d with
  | Ok (d', ns) => (d', Ok ns)
  | Err UniqueFailed => (d, Err (Conflict "unique constraint"))
  | Err TriggerAborted => (d, Err StoreFailed)
  end.

(** [UPDATE admin_accounts SET .. WHERE admin_id = id AND p]. *)
Definition update_account (id : string) (p : AdminAccountRow → bool) (f : AdminAccountRow → AdminAccountRow) : stmt := λ d,
  match ad_accounts d !! id with
  | Some a => if p a then Ok (put_accounts (<[id := f a]> (ad_accounts d)) d, 1) else Ok (d, 0)
  | None => Ok (d, 0)
  end.
(** [INSERT INTO admin_accounts], whose id and name are unique. *)
Definition insert_account (a : AdminAccountRow) : stmt := λ d,
  if not_null (ad_accounts d !! aa_admin_id a) || exists_row (λ x, is_ (aa_username x) (aa_username a)) (ad_accounts d)
  then Err UniqueFailed else Ok (put_accounts (<[aa_admin_id a := a]> (ad_accounts d)) d, 1).
Definition insert_history (id : string) (pw : PasswordUpdate) : stmt := λ d,
  if not_null (ad_history d !! (id, pu_changed_at pw)) then Err UniqueFailed
  else Ok (put_history (<[(id, pu_changed_at pw) := {| ph_password_phc := pu_password_phc pw; ph_pepper_id := pu_pepper_id pw |}]> (ad_history d)) d, 1).
Definition insert_token_stmt (t : EnrollmentTokenRow) : stmt := λ d,
  let '(MkToken h a p b c x _ _) := t in
  if not_null (ad_tokens d !! h) then Err UniqueFailed
  else Ok (put_tokens (<[h := MkToken h a p b c x None None]> (ad_tokens d)) d, 1).
(** [INSERT .. SELECT .. FROM admin_groups WHERE name = g]: a row for each group of that name. *)
Definition groups_named (g : string) (d : AdminDb) : list string :=
  (List.filter (λ kv, is_ (snd kv) g) (map_to_list (ad_groups d))).*1.
Fixpoint insert_memberships (id : string) (gs : list string) (m : MemberRow) : stmt := λ d,
  match gs with
  | [] => Ok (d, 0)
  | g :: gs =>
      if not_null (ad_members d !! (id, g)) then Err UniqueFailed else
      let? (d', n) := insert_memberships id gs m (put_members (<[(id, g) := m]> (ad_members d)) d) in
      Ok (d', n + 1)
  end.
Definition insert_member (id g : string) (by_ : option string) (at_ : Z) : stmt := λ d,
  insert_memberships id (groups_named g d) {| mb_granted_by := by_; mb_granted_at := at_ |} d.
Definition insert_webauthn (c : WebAuthnCredentialRow) : stmt := λ d,
  if not_null (ad_webauthn d !! wc_credential_id c) then Err UniqueFailed
  else Ok (put_webauthn (<[wc_credential_id c := c]> (ad_webauthn d)) d, 1).
(** A statement with a condition on the tables in its WHERE clause. *)
Definition where_ (p : AdminDb → bool) (s : stmt) : stmt := λ d, if p d then s d else Ok (d, 0).

(** ** Conditions *)
Definition token_live (tok : list u8) (now : Z) (d : AdminDb) : bool :=
  match ad_tokens d !! tok with Some t => is_null (et_used_at t) && (now <? et_expires_at t) | None => false end.
Definition token_live_for (tok : list u8) (now : Z) (id : string) (d : AdminDb) : bool :=
  token_live tok now d && match ad_tokens d !! tok with Some t => eq_null (et_admin_id t) (Some id) | None => false end.
Definition member_of (id name : string) (d : AdminDb) : bool :=
  existsb (λ kv, is_ (fst (fst kv)) id && eq_null (ad_groups d !! snd (fst kv)) (Some name)) (map_to_list (ad_members d)).
Definition active_account_admin (id : string) (d : AdminDb) : bool :=
  match ad_accounts d !! id with Some a => (aa_state a =? ACCOUNT_ACTIVE) && member_of id "ferrogate-account-admins" d | None => false end.
(** [?n = 0 OR (SELECT COUNT( * ) .. a2.admin_id <> id) >= 1]. *)
Definition other_admin (need : bool) (id : string) (d : AdminDb) : bool :=
  negb need || existsb (λ i, negb (is_ i id) && active_account_admin i d) ((map_to_list (ad_accounts d)).*1).
Definition credentials_of (id : string) (d : AdminDb) : Z := count_rows (λ c, is_ (wc_admin_id c) id) (ad_webauthn d).

(** ** Accessors: accounts *)
Definition admin_account_count (d : AdminDb) : Z := Z.of_nat (size (ad_accounts d)).
Definition admin_account (id : string) (d : AdminDb) : option AdminAccountRow := ad_accounts d !! id.
Definition admin_account_by_username (u : string) (d : AdminDb) : option AdminAccountRow :=
  head ((List.filter (λ kv, is_ (aa_username (snd kv)) u) (map_to_list (ad_accounts d))).*2).
(** [ORDER BY created_at, admin_id]. *)
Definition admin_accounts (d : AdminDb) : list AdminAccountRow :=
  sort_by (cmp_then (cmp_by aa_created_at Z.compare) (cmp_by aa_admin_id str_cmp)) ((map_to_list (ad_accounts d)).*2).
Definition check_groups_exist (gs : list string) (d : AdminDb) : result ClusterError unit :=
  match List.find (λ g, match groups_named g d with [] => true | _ => false end) gs with
  | Some bad => Err (Conflict bad)
  | None => Ok tt
  end.

(** The transaction of [admin_create_account]; the columns it does not name are NULL. *)
Definition create_account_txn (a : AdminAccountRow) (gs : list string) (t : EnrollmentTokenRow) : AdminDb → AdminDb * result ClusterError unit := λ d,
  let row := MkAccount (aa_admin_id a) (aa_username a) (aa_display_name a) (aa_state a) (aa_created_at a) (aa_created_by a)
    None None None None None None None None None 1 in
  let stmts := insert_account row :: ((λ g, insert_member (aa_admin_id a) g (aa_created_by a) (aa_created_at a)) <$> gs) ++ [insert_token_stmt t] in
  match txn_conflict stmts d with (d', Ok _) => (d', Ok tt) | (d', Err e) => (d', Err e) end.

(** The redemption that ends the two transactions below. *)
Definition redeem_stmt (tok : list u8) (now : Z) (p : AdminDb → bool) (f : EnrollmentTokenRow → EnrollmentTokenRow) : stmt :=
  where_ (λ d, token_live tok now d && p d) (λ d,
    match ad_tokens d !! tok with
    | Some t => Ok (put_tokens (<[tok := f (token_used now t)]> (ad_tokens d)) d, 1)
    | None => Ok (d, 0)
    end).
Definition last_is_one (ns : list Z) : bool := match last ns with Some n => n =? 1 | None => false end.
Definition redeemed (r : AdminDb * result ClusterError (list Z)) : AdminDb * result ClusterError unit :=
  match r with
  | (d, Ok ns) => (d, if last_is_one ns then Ok tt else Err (Conflict "token not live"))
  | (d, Err e) => (d, Err e)
  end.

(** The transaction of [admin_bootstrap_account]. *)
Definition bootstrap_txn (a : AdminAccountRow) (gs : list string) (c : EnrollmentCompletion) (pw : PasswordUpdate) (totp : list u8 * Z)
    (settings : list (string * string)) : AdminDb → AdminDb * result ClusterError unit := λ d,
  let live := token_live (ec_token_hash c) (ec_now c) in
  let row := MkAccount (aa_admin_id a) (aa_username a) (aa_display_name a) 2 (aa_created_at a) None (Some (pu_password_phc pw)) (pu_pepper_id pw)
    (Some (pu_changed_at pw)) (Some (pu_expires_at pw)) (Some totp.1) (Some totp.2) None None None 1 in
  let stmts := where_ live (insert_account row) :: where_ live (insert_history (aa_admin_id a) pw)
    :: ((λ g, where_ live (insert_member (aa_admin_id a) g None (ec_now c))) <$> gs)
    ++ ((λ kv, where_ live (λ d, Ok (put_settings (<[kv.1 := kv.2]> (ad_settings d)) d, 1))) <$> settings)
    ++ [redeem_stmt (ec_token_hash c) (ec_now c) (λ _, true) (token_owner (aa_admin_id a))] in
  redeemed (txn_conflict stmts d).
(** [admin_bootstrap_account] once the groups are known to exist. *)
Definition bootstrap_account_txn (a : AdminAccountRow) (gs : list string) (c : EnrollmentCompletion) (settings : list (string * string)) :
    AdminDb → AdminDb * result ClusterError unit :=
  match ec_password c, ec_totp c, ec_webauthn c with
  | None, _, _ => λ d, (d, Err (Conflict "bootstrap needs a password"))
  | _, None, _ => λ d, (d, Err (Conflict "bootstrap needs a second factor"))
  | _, _, Some _ => λ d, (d, Err (Conflict "bootstrap enrolls TOTP only"))
  | Some pw, Some totp, None => bootstrap_txn a gs c pw totp settings
  end.

(** [admin_complete_enrollment]. *)
Definition enrollment_stmts (c : EnrollmentCompletion) : list stmt :=
  let id := ec_admin_id c in
  let live := token_live_for (ec_token_hash c) (ec_now c) id in
  let always := λ _ : AdminAccountRow, true in
  match ec_password c with
  | Some pw => [where_ live (update_account id always (bump ∘ set_password (pu_password_phc pw) (pu_pepper_id pw) (pu_changed_at pw) (pu_expires_at pw)));
                where_ live (insert_history id pw)]
  | None => []
  end
  ++ match ec_totp c with Some (enc, step) => [where_ live (update_account id always (bump ∘ set_totp (Some enc) (Some step)))] | None => [] end
  ++ match ec_webauthn c with
     | Some w => [where_ (λ d, live d && (credentials_of id d <? MAX_WEBAUTHN_CREDENTIALS))
         (insert_webauthn {| wc_credential_id := wc_credential_id w; wc_admin_id := id; wc_cose_public_key := wc_cose_public_key w;
            wc_sign_count := wc_sign_count w; wc_aaguid := wc_aaguid w; wc_label := wc_label w; wc_created_at := wc_created_at w;
            wc_last_used_at := None |})]
     | None => []
     end
  ++ [where_ live (update_account id (λ a, (aa_state a =? 1) || (aa_state a =? 2)) (bump ∘ set_state 2));
      redeem_stmt (ec_token_hash c) (ec_now c) live (λ t, t)].
Definition admin_complete_enrollment (c : EnrollmentCompletion) : AdminDb → AdminDb * result ClusterError unit := λ d,
  redeemed (txn_conflict (enrollment_stmts c) d).

(** [n > 0], for the accessors that answer whether a row changed. *)
Definition affected (r : AdminDb * result ClusterError Z) : AdminDb * result ClusterError bool :=
  match r with (d, Ok n) => (d, Ok (0 <? n)) | (d, Err e) => (d, Err e) end.
Definition unit_of {A} (r : AdminDb * result ClusterError A) : AdminDb * result ClusterError unit :=
  match r with (d, Ok _) => (d, Ok tt) | (d, Err e) => (d, Err e) end.

Definition admin_advance_totp_step (id : string) (step : Z) (d : AdminDb) : AdminDb * result ClusterError bool :=
  affected (execute (update_account id (λ a, match aa_totp_last_step a with None => true | Some l => l <? step end) (set_last_step step)) d).
Definition admin_set_last_login (id : string) (now : Z) (d : AdminDb) : AdminDb * result ClusterError unit :=
  unit_of (execute (update_account id (λ _, true) (set_last_login now)) d).
Definition admin_rehash_password (id phc : string) (pepper : option Z) (d : AdminDb) : AdminDb * result ClusterError unit :=
  unit_of (execute (update_account id (λ _, true) (set_phc (Some phc) pepper)) d).
Definition admin_change_password (id : string) (pw : PasswordUpdate) (d : AdminDb) : AdminDb * result ClusterError unit :=
  unit_of (txn [update_account id (λ _, true) (bump ∘ set_password (pu_password_phc pw) (pu_pepper_id pw) (pu_changed_at pw) (pu_expires_at pw));
                insert_history id pw] d).
Definition admin_password_history (id : string) (d : AdminDb) : list PasswordHistoryRow :=
  (sort_by (cmp_by (λ kv, snd (fst kv)) Z.compare) (List.filter (λ kv, is_ (fst (fst kv)) id) (map_to_list (ad_history d)))).*2.

(** Supersede the unredeemed tokens of an account. *)
Definition supersede_stmt (id : string) (now : Z) : stmt := λ d,
  let hit t := eq_null (et_admin_id t) (Some id) && is_null (et_used_at t) in
  Ok (put_tokens ((λ t, if hit t then token_used now t else t) <$> ad_tokens d) d, count_rows hit (ad_tokens d)).
(** The transaction of [admin_set_account_state]: whether its first statement applied. *)
Definition set_account_state_txn (id : string) (state : Z) (by_ : string) (now : Z) (expected : option Z) (need : bool) :
    AdminDb → AdminDb * result ClusterError bool := λ d,
  let '(at_, b) := if state =? ACCOUNT_DISABLED then (Some now, Some by_) else (None, None) in
  let version a := match expected with None => true | Some v => aa_row_version a =? v end in
  match txn [where_ (other_admin need id) (update_account id version (bump ∘ set_disabled at_ b ∘ set_state state));
             where_ (λ d, match ad_accounts d !! id with Some a => aa_state a =? 3 | None => false end) (supersede_stmt id now)] d with
  | (d', Ok ns) => (d', Ok (match ns with n :: _ => n =? 1 | [] => false end))
  | (d', Err e) => (d', Err e)
  end.

(** [admin_update_account] after its check of the groups: whether the version bump applied. *)
Definition at_version (id : string) (v : Z) (d : AdminDb) : bool :=
  match ad_accounts d !! id with Some a => aa_row_version a =? v | None => false end.
Definition delete_members (id : string) : stmt := λ d,
  Ok (put_members (filter (λ kv, fst (fst kv) ≠ id) (ad_members d)) d,
      Z.of_nat (length (List.filter (λ kv, is_ (fst (fst kv)) id) (map_to_list (ad_members d))))).
Definition update_account_txn (id : string) (display : option (option string)) (gs : option (list string)) (by_ : string) (now expected : Z)
    (need : bool) : AdminDb → AdminDb * result ClusterError bool := λ d,
  let guard := λ d, at_version id expected d && other_admin need id d in
  let always := λ _ : AdminAccountRow, true in
  match txn (match display with Some name => [where_ guard (update_account id always (set_display name))] | None => [] end
             ++ match gs with
                | Some gs => where_ guard (delete_members id) :: ((λ g, where_ guard (insert_member id g (Some by_) now)) <$> gs)
                | None => []
                end
             ++ [where_ guard (update_account id always bump)]) d with
  | (d', Ok ns) => (d', Ok (last_is_one ns))
  | (d', Err e) => (d', Err e)
  end.

Definition admin_reset_credentials (id : string) (reset_password reset_mfa : bool) (t : EnrollmentTokenRow) (d : AdminDb) :
    AdminDb * result ClusterError unit :=
  let always := λ _ : AdminAccountRow, true in
  unit_of (txn (supersede_stmt id (et_created_at t)
    :: (if reset_password then [update_account id always (bump ∘ set_phc None None)] else [])
    ++ (if reset_mfa then [update_account id always (bump ∘ set_totp None None);
          λ d, Ok (put_webauthn (filter (λ kv, wc_admin_id kv.2 ≠ id) (ad_webauthn d)) d, credentials_of id d)] else [])
    ++ [insert_token_stmt t]) d).

(** ** Second factors *)
Definition admin_add_totp (id : string) (enc : list u8) (step : Z) (d : AdminDb) : AdminDb * result ClusterError bool :=
  affected (execute (update_account id (λ a, (aa_state a =? 2) && is_null (aa_totp_secret_enc a)) (bump ∘ set_totp (Some enc) (Some step))) d).
Definition admin_remove_totp (id : string) (d : AdminDb) : AdminDb * result ClusterError bool :=
  affected (execute (where_ (λ d, 1 <=? credentials_of id d)
    (update_account id (λ a, not_null (aa_totp_secret_enc a)) (bump ∘ set_totp None None))) d).
Definition admin_webauthn_credentials (id : string) (d : AdminDb) : list WebAuthnCredentialRow :=
  sort_by (cmp_then (cmp_by wc_created_at Z.compare) (cmp_by wc_credential_id bytes_cmp))
    (List.filter (λ c, is_ (wc_admin_id c) id) ((map_to_list (ad_webauthn d)).*2)).
Definition admin_add_webauthn_credential (c : WebAuthnCredentialRow) (d : AdminDb) : AdminDb * result ClusterError bool :=
  match where_ (λ d, credentials_of (wc_admin_id c) d <? MAX_WEBAUTHN_CREDENTIALS)
    (insert_webauthn {| wc_credential_id := wc_credential_id c; wc_admin_id := wc_admin_id c; wc_cose_public_key := wc_cose_public_key c;
       wc_sign_count := wc_sign_count c; wc_aaguid := wc_aaguid c; wc_label := wc_label c; wc_created_at := wc_created_at c;
       wc_last_used_at := None |}) d with
  | Ok (d', n) => (d', Ok (0 <? n))
  | Err UniqueFailed => (d, Err (Conflict "unique constraint"))
  | Err TriggerAborted => (d, Err StoreFailed)
  end.
Definition admin_webauthn_used (id : string) (cred : list u8) (count now : Z) (d : AdminDb) : AdminDb * result ClusterError bool :=
  match ad_webauthn d !! cred with
  | Some c =>
      if is_ (wc_admin_id c) id && ((wc_sign_count c <? count) || ((wc_sign_count c =? 0) && (count =? 0)))
      then (put_webauthn (<[cred := set_used count now c]> (ad_webauthn d)) d, Ok true) else (d, Ok false)
  | None => (d, Ok false)
  end.
Definition has_totp (id : string) (d : AdminDb) : bool :=
  match ad_accounts d !! id with Some a => not_null (aa_totp_secret_enc a) | None => false end.
Definition admin_remove_webauthn_credential (id : string) (cred : list u8) (d : AdminDb) : AdminDb * result ClusterError bool :=
  match ad_webauthn d !! cred with
  | Some c =>
      if is_ (wc_admin_id c) id && (1 <? credentials_of id d + (if has_totp id d then 1 else 0))
      then (put_webauthn (delete cred (ad_webauthn d)) d, Ok true) else (d, Ok false)
  | None => (d, Ok false)
  end.

(** ** Groups *)
Definition admin_groups_of (id : string) (d : AdminDb) : list string :=
  sort_by str_cmp (omap (λ kv, if is_ (fst (fst kv)) id then ad_groups d !! snd (fst kv) else None) (map_to_list (ad_members d))).
Definition admin_permissions_of (id : string) (d : AdminDb) : list string :=
  sort_by str_cmp (remove_dups (map_to_list (ad_members d) ≫= λ kv, if is_ (fst (fst kv)) id
    then (List.filter (λ gp, is_ (fst gp) (snd (fst kv))) (elements (ad_permissions d))).*2 else [])).
Definition admin_active_members_of (name : string) (d : AdminDb) : list string :=
  sort_by str_cmp (List.filter (λ i, match ad_accounts d !! i with Some a => (aa_state a =? 2) && member_of i name d | None => false end)
    ((map_to_list (ad_accounts d)).*1)).

(** ** Sessions *)
Definition admin_insert_session (s : AdminSessionRow) (d : AdminDb) : AdminDb * result ClusterError unit :=
  let '(MkSession h a c ls x i l m mm ip cc k cv r _ _ _) := s in
  if not_null (ad_sessions d !! h) then (d, Err StoreFailed)
  else (put_sessions (<[h := MkSession h a c ls x i l m mm ip cc k cv r None None 0]> (ad_sessions d)) d, Ok tt).
Definition admin_session (h : list u8) (d : AdminDb) : option AdminSessionRow := ad_sessions d !! h.
(** [ORDER BY created_at, session_hash]. *)
Definition session_cmp : AdminSessionRow → AdminSessionRow → comparison :=
  cmp_then (cmp_by ss_created_at Z.compare) (cmp_by ss_hash bytes_cmp).
Definition admin_live_sessions (id : string) (d : AdminDb) : list AdminSessionRow :=
  sort_by session_cmp (List.filter (λ s, is_ (ss_admin_id s) id && is_null (ss_revoked_at s)) ((map_to_list (ad_sessions d)).*2)).
Definition update_session (h : list u8) (p : AdminSessionRow → bool) (f : AdminSessionRow → AdminSessionRow) (d : AdminDb) :
    AdminDb * result ClusterError bool :=
  match ad_sessions d !! h with
  | Some s => if p s then (put_sessions (<[h := f s]> (ad_sessions d)) d, Ok true) else (d, Ok false)
  | None => (d, Ok false)
  end.
Definition admin_touch_session (h : list u8) (now : Z) (d : AdminDb) : AdminDb * result ClusterError unit :=
  unit_of (update_session h (λ _, true) (set_last_seen now) d).
Definition admin_revoke_session (h : list u8) (now reason : Z) (d : AdminDb) : AdminDb * result ClusterError bool :=
  update_session h (λ s, is_null (ss_revoked_at s)) (set_revoked now reason) d.
(** The primary key changes: a hash in use violates it. *)
Definition admin_rotate_session (old new : list u8) (mfa : option MfaVerification) (restricted : Z) (d : AdminDb) : AdminDb * result ClusterError bool :=
  match ad_sessions d !! old with
  | Some s =>
      if is_null (ss_revoked_at s) then
        if not_null (delete old (ad_sessions d) !! new) then (d, Err StoreFailed)
        else (put_sessions (<[new := rotated new mfa restricted s]> (delete old (ad_sessions d))) d, Ok true)
      else (d, Ok false)
  | None => (d, Ok false)
  end.
(** The UPDATE of [admin_session_stepup_failed]. *)
Definition stepup_failed_stmt (h : list u8) (d : AdminDb) : AdminDb * result ClusterError bool :=
  match ad_sessions d !! h with
  | Some s => (put_sessions (<[h := set_stepup_failures (ss_stepup_failures s + 1) s]> (ad_sessions d)) d, Ok true)
  | None => (d, Ok false)
  end.

(** ** Enrollment tokens *)
Definition admin_enrollment_token (h : list u8) (d : AdminDb) : option EnrollmentTokenRow := ad_tokens d !! h.
Definition admin_set_pending_secret (h sealed : list u8) (now : Z) (d : AdminDb) : AdminDb * result ClusterError bool :=
  match ad_tokens d !! h with
  | Some t => if token_live h now d then (put_tokens (<[h := token_pending sealed t]> (ad_tokens d)) d, Ok true) else (d, Ok false)
  | None => (d, Ok false)
  end.
Definition admin_insert_enrollment_token (t : EnrollmentTokenRow) (d : AdminDb) : AdminDb * result ClusterError unit :=
  unit_of (execute (insert_token_stmt t) d).
Definition admin_live_token_exists (purpose now : Z) (d : AdminDb) : bool :=
  0 <? count_rows (λ t, (et_purpose t =? purpose) && is_null (et_used_at t) && (now <? et_expires_at t)) (ad_tokens d).

(** ** Throttling, the security log and settings *)
Definition admin_throttle (h : list u8) (d : AdminDb) : option ThrottleRow := ad_throttle d !! h.
(** The row of the upsert. *)
Definition incremented (old : option ThrottleRow) (h : list u8) (kind now reset_after : Z) : ThrottleRow :=
  match old with
  | None => {| th_key_hash := h; th_key_kind := kind; th_failures := 1; th_locked_until := 0; th_last_failure_at := now |}
  | Some r =>
      let stale := th_last_failure_at r <=? now - reset_after in
      {| th_key_hash := h; th_key_kind := th_key_kind r; th_failures := if stale then 1 else th_failures r + 1;
         th_locked_until := if stale then 0 else th_locked_until r; th_last_failure_at := now |}
  end.
Definition admin_throttle_increment (h : list u8) (kind now reset_after : Z) (d : AdminDb) : AdminDb * result ClusterError ThrottleRow :=
  let r := incremented (ad_throttle d !! h) h kind now reset_after in (put_throttle (<[h := r]> (ad_throttle d)) d, Ok r).
Definition locked_to (until : Z) (r : ThrottleRow) : ThrottleRow :=
  {| th_key_hash := th_key_hash r; th_key_kind := th_key_kind r; th_failures := th_failures r;
     th_locked_until := Z.max (th_locked_until r) until; th_last_failure_at := th_last_failure_at r |}.
Definition admin_throttle_lock (h : list u8) (until : Z) (d : AdminDb) : AdminDb * result ClusterError unit :=
  (put_throttle (alter (locked_to until) h (ad_throttle d)) d, Ok tt).
Definition admin_clear_throttle (h : list u8) (d : AdminDb) : AdminDb * result ClusterError unit :=
  (put_throttle (delete h (ad_throttle d)) d, Ok tt).
Definition admin_security_log (r : SecurityLogRow) (d : AdminDb) : AdminDb * result ClusterError unit :=
  (put_security_log (ad_security_log d ++ [r]) d, Ok tt).
Definition admin_security_log_count (event : string) (since : Z) (d : AdminDb) : Z :=
  Z.of_nat (length (List.filter (λ r, is_ (sl_event r) event && (since <=? sl_at r)) (ad_security_log d))).
Definition setting (k : string) (d : AdminDb) : option string := ad_settings d !! k.
Definition put_setting (k v : string) (d : AdminDb) : AdminDb * result ClusterError unit := (put_settings (<[k := v]> (ad_settings d)) d, Ok tt).
(** The INSERT OR IGNORE of [setting_set_once]. *)
Definition set_once_stmt (k v : string) (d : AdminDb) : AdminDb * result ClusterError unit :=
  match ad_settings d !! k with Some _ => (d, Ok tt) | None => (put_settings (<[k := v]> (ad_settings d)) d, Ok tt) end.

(** ** Histories of the store *)
Inductive AdminOp :=
  | OpCreate (a : AdminAccountRow) (gs : list string) (t : EnrollmentTokenRow)
  | OpBootstrap (a : AdminAccountRow) (gs : list string) (c : EnrollmentCompletion) (settings : list (string * string))
  | OpEnroll (c : EnrollmentCompletion)
  | OpAdvanceTotp (id : string) (step : Z)
  | OpLastLogin (id : string) (now : Z)
  | OpRehash (id phc : string) (pepper : option Z)
  | OpChangePassword (id : string) (pw : PasswordUpdate)
  | OpSetState (id : string) (state : Z) (by_ : string) (now : Z) (expected : option Z) (need : bool)
  | OpUpdate (id : string) (display : option (option string)) (gs : option (list string)) (by_ : string) (now expected : Z) (need : bool)
  | OpReset (id : string) (pw mfa : bool) (t : EnrollmentTokenRow)
  | OpAddTotp (id : string) (enc : list u8) (step : Z)
  | OpRemoveTotp (id : string)
  | OpAddKey (c : WebAuthnCredentialRow)
  | OpKeyUsed (id : string) (cred : list u8) (count now : Z)
  | OpRemoveKey (id : string) (cred : list u8)
  | OpInsertSession (s : AdminSessionRow)
  | OpTouch (h : list u8) (now : Z)
  | OpRevoke (h : list u8) (now reason : Z)
  | OpRotate (old new : list u8) (mfa : option MfaVerification) (restricted : Z)
  | OpStepUpFailed (h : list u8)
  | OpPending (h sealed : list u8) (now : Z)
  | OpInsertToken (t : EnrollmentTokenRow)
  | OpThrottle (h : list u8) (kind now reset_after : Z)
  | OpLock (h : list u8) (until : Z)
  | OpClear (h : list u8)
  | OpLog (r : SecurityLogRow)
  | OpPutSetting (k v : string)
  | OpSetOnce (k v : string).

Definition run_op (o : AdminOp) (d : AdminDb) : AdminDb :=
  match o with
  | OpCreate a gs t => (create_account_txn a gs t d).1
  | OpBootstrap a gs c st => (bootstrap_account_txn a gs c st d).1
  | OpEnroll c => (admin_complete_enrollment c d).1
  | OpAdvanceTotp id step => (admin_advance_totp_step id step d).1
  | OpLastLogin id now => (admin_set_last_login id now d).1
  | OpRehash id phc pe => (admin_rehash_password id phc pe d).1
  | OpChangePassword id pw => (admin_change_password id pw d).1
  | OpSetState id s b now e n => (set_account_state_txn id s b now e n d).1
  | OpUpdate id dn gs b now e n => (update_account_txn id dn gs b now e n d).1
  | OpReset id pw mfa t => (admin_reset_credentials id pw mfa t d).1
  | OpAddTotp id enc step => (admin_add_totp id enc step d).1
  | OpRemoveTotp id => (admin_remove_totp id d).1
  | OpAddKey c => (admin_add_webauthn_credential c d).1
  | OpKeyUsed id c n now => (admin_webauthn_used id c n now d).1
  | OpRemoveKey id c => (admin_remove_webauthn_credential id c d).1
  | OpInsertSession s => (admin_insert_session s d).1
  | OpTouch h now => (admin_touch_session h now d).1
  | OpRevoke h now r => (admin_revoke_session h now r d).1
  | OpRotate o n m r => (admin_rotate_session o n m r d).1
  | OpStepUpFailed h => (stepup_failed_stmt h d).1
  | OpPending h s now => (admin_set_pending_secret h s now d).1
  | OpInsertToken t => (admin_insert_enrollment_token t d).1
  | OpThrottle h k now r => (admin_throttle_increment h k now r d).1
  | OpLock h u => (admin_throttle_lock h u d).1
  | OpClear h => (admin_clear_throttle h d).1
  | OpLog r => (admin_security_log r d).1
  | OpPutSetting k v => (put_setting k v d).1
  | OpSetOnce k v => (set_once_stmt k v d).1
  end.
Definition run_ops (os : list AdminOp) (d : AdminDb) : AdminDb := foldl (λ d o, run_op o d) d os.
