(* ===== verification/AdminStoreProofs.v ===== *)
(** What the admin tables guarantee over every history of accessor calls. *)
From S2P Require Import Prelude AppModel AppDedup AppSchema Order AdminStore.
Open Scope Z_scope.

(** ** Relations closed under statements *)
Definition closed (R : relation AdminDb) (s : stmt) : Prop := ∀ d d' n, s d = Ok (d', n) → R d d'.

Section Closed.
Context (R : relation AdminDb) `{!PreOrder R}.

Lemma closed_where p s : closed R s → closed R (where_ p s).
Proof. intros Hs d d' n. unfold where_. destruct (p d); [apply Hs|by intros [= <- _]]. Qed.
Lemma closed_txn ss d d' ns : Forall (closed R) ss → txn_loop ss d = Ok (d', ns) → R d d'.
Proof.
  intros Hss. revert d ns. induction Hss as [|s ss Hs _ IH]; intros d ns; cbn [txn_loop]; [by intros [= <- _]|].
  destruct (s d) as [[d1 n]|] eqn:E; [|done]. destruct (txn_loop ss d1) as [[d2 ms]|] eqn:E2; [|done]. intros [= <- _].
  etransitivity; [by eapply Hs|by eapply IH].
Qed.
Lemma closed_run_txn ss d : Forall (closed R) ss → R d (txn ss d).1 ∧ R d (txn_conflict ss d).1.
Proof.
  intros Hss. unfold txn, txn_conflict. destruct (txn_loop ss d) as [[d' ns]|[]] eqn:E; [|done..].
  apply closed_txn in E; [|done]. done.
Qed.
Lemma closed_execute s d : closed R s → R d (execute s d).1.
Proof. intros Hs. unfold execute. destruct (s d) as [[d' n]|] eqn:E; [by eapply Hs|done]. Qed.
Lemma closed_fmap {A} (f : A → stmt) l : (∀ x, closed R (f x)) → Forall (closed R) (f <$> l).
Proof. intros Hf. apply Forall_fmap, Forall_true, Hf. Qed.
End Closed.

(** The accessors around a transaction keep its database. *)
Lemma redeemed_fst r : (redeemed r).1 = r.1.
Proof. by destruct r as [d [ns|]]. Qed.
Lemma affected_fst r : (affected r).1 = r.1.
Proof. by destruct r as [d [n|]]. Qed.
Lemma unit_of_fst {A} (r : AdminDb * result ClusterError A) : (unit_of r).1 = r.1.
Proof. by destruct r as [d [n|]]. Qed.

(** ** The statements behind an accessor *)
Definition direct {A} (f : AdminDb → AdminDb * A) : stmt := λ d, Ok ((f d).1, 0).
Definition op_stmts (o : AdminOp) : list stmt :=
  let always := λ _ : AdminAccountRow, true in
  match o with
  | OpCreate a gs t =>
      insert_account (MkAccount (aa_admin_id a) (aa_username a) (aa_display_name a) (aa_state a) (aa_created_at a) (aa_created_by a)
        None None None None None None None None None 1)
      :: ((λ g, insert_member (aa_admin_id a) g (aa_created_by a) (aa_created_at a)) <$> gs) ++ [insert_token_stmt t]
  | OpBootstrap a gs c st =>
      match ec_password c, ec_totp c, ec_webauthn c with
      | Some pw, Some totp, None =>
          let live := token_live (ec_token_hash c) (ec_now c) in
          where_ live (insert_account (MkAccount (aa_admin_id a) (aa_username a) (aa_display_name a) 2 (aa_created_at a) None
            (Some (pu_password_phc pw)) (pu_pepper_id pw) (Some (pu_changed_at pw)) (Some (pu_expires_at pw)) (Some totp.1) (Some totp.2)
            None None None 1))
          :: where_ live (insert_history (aa_admin_id a) pw)
          :: ((λ g, where_ live (insert_member (aa_admin_id a) g None (ec_now c))) <$> gs)
          ++ ((λ kv : string * string, where_ live (λ d, Ok (put_settings (<[kv.1 := kv.2]> (ad_settings d)) d, 1))) <$> st)
          ++ [redeem_stmt (ec_token_hash c) (ec_now c) (λ _, true) (token_owner (aa_admin_id a))]
      | _, _, _ => []
      end
  | OpEnroll c => enrollment_stmts c
  | OpAdvanceTotp id step =>
      [update_account id (λ a, match aa_totp_last_step a with None => true | Some l => l <? step end) (set_last_step step)]
  | OpLastLogin id now => [update_account id always (set_last_login now)]
  | OpRehash id phc pe => [update_account id always (set_phc (Some phc) pe)]
  | OpChangePassword id pw =>
      [update_account id always (bump ∘ set_password (pu_password_phc pw) (pu_pepper_id pw) (pu_changed_at pw) (pu_expires_at pw));
       insert_history id pw]
  | OpSetState id s b now e n =>
      let '(at_, b) := if s =? ACCOUNT_DISABLED then (Some now, Some b) else (None, None) in
      [where_ (other_admin n id) (update_account id (λ a, match e with None => true | Some v => aa_row_version a =? v end)
         (bump ∘ set_disabled at_ b ∘ set_state s));
       where_ (λ d, match ad_accounts d !! id with Some a => aa_state a =? 3 | None => false end) (supersede_stmt id now)]
  | OpUpdate id dn gs b now e n =>
      let guard := λ d, at_version id e d && other_admin n id d in
      match dn with Some name => [where_ guard (update_account id always (set_display name))] | None => [] end
      ++ match gs with
         | Some gs => where_ guard (delete_members id) :: ((λ g, where_ guard (insert_member id g (Some b) now)) <$> gs)
         | None => []
         end
      ++ [where_ guard (update_account id always bump)]
  | OpReset id pw mfa t =>
      supersede_stmt id (et_created_at t)
      :: (if pw then [update_account id always (bump ∘ set_phc None None)] else [])
      ++ (if mfa then [update_account id always (bump ∘ set_totp None None);
            λ d, Ok (put_webauthn (filter (λ kv, wc_admin_id kv.2 ≠ id) (ad_webauthn d)) d, credentials_of id d)] else [])
      ++ [insert_token_stmt t]
  | OpAddTotp id enc step =>
      [update_account id (λ a, (aa_state a =? 2) && is_null (aa_totp_secret_enc a)) (bump ∘ set_totp (Some enc) (Some step))]
  | OpRemoveTotp id =>
      [where_ (λ d, 1 <=? credentials_of id d) (update_account id (λ a, not_null (aa_totp_secret_enc a)) (bump ∘ set_totp None None))]
  | OpAddKey c => [direct (admin_add_webauthn_credential c)]
  | OpKeyUsed id c n now => [direct (admin_webauthn_used id c n now)]
  | OpRemoveKey id c => [direct (admin_remove_webauthn_credential id c)]
  | OpInsertSession s => [direct (admin_insert_session s)]
  | OpTouch h now => [direct (admin_touch_session h now)]
  | OpRevoke h now r => [direct (admin_revoke_session h now r)]
  | OpRotate o n m r => [direct (admin_rotate_session o n m r)]
  | OpStepUpFailed h => [direct (stepup_failed_stmt h)]
  | OpPending h s now => [direct (admin_set_pending_secret h s now)]
  | OpInsertToken t => [insert_token_stmt t]
  | OpThrottle h k now r => [direct (admin_throttle_increment h k now r)]
  | OpLock h u => [direct (admin_throttle_lock h u)]
  | OpClear h => [direct (admin_clear_throttle h)]
  | OpLog r => [direct (admin_security_log r)]
  | OpPutSetting k v => [direct (put_setting k v)]
  | OpSetOnce k v => [direct (set_once_stmt k v)]
  end.

Lemma run_op_closed R `{!PreOrder R} o d : Forall (closed R) (op_stmts o) → R d (run_op o d).
Proof.
  intros Hss. pose proof (closed_run_txn R _ d Hss) as [H1 H2].
  assert (∀ A (f : AdminDb → AdminDb * A), op_stmts o = [direct f] → R d (f d).1) as Hdirect.
  { intros A f E. rewrite E in Hss. apply Forall_inv in Hss. by apply (Hss d _ 0). }
  assert (∀ s, op_stmts o = [s] → R d (execute s d).1) as Hexec.
  { intros s E. rewrite E in Hss. apply Forall_inv in Hss. by apply closed_execute. }
  destruct o; cbn [run_op]; try (by apply Hdirect); 
    try (unfold admin_advance_totp_step, admin_set_last_login, admin_rehash_password, admin_add_totp, admin_remove_totp, admin_insert_enrollment_token;
         rewrite ?unit_of_fst, ?affected_fst; by apply Hexec).
  - unfold create_account_txn. cbn [op_stmts] in H2. destruct (txn_conflict _ d) as [d' [ns|]]; exact H2.
  - unfold bootstrap_account_txn. cbn [op_stmts] in H2. destruct (ec_password c); [|done]. destruct (ec_totp c); [|by destruct (ec_webauthn c)].
    destruct (ec_webauthn c); [done|]. unfold bootstrap_txn. rewrite redeemed_fst. exact H2.
  - unfold admin_complete_enrollment. rewrite redeemed_fst. exact H2.
  - unfold admin_change_password. rewrite unit_of_fst. exact H1.
  - unfold set_account_state_txn. cbn [op_stmts] in H1. destruct (if state =? ACCOUNT_DISABLED then _ else _) as [at_ b].
    destruct (txn _ d) as [d' [ns|]]; exact H1.
  - unfold update_account_txn. cbn [op_stmts] in H1. destruct (txn _ d) as [d' [ns|]]; exact H1.
  - unfold admin_reset_credentials. rewrite unit_of_fst. exact H1.
Qed.
Lemma run_ops_closed R `{!PreOrder R} os d : Forall (λ o, Forall (closed R) (op_stmts o)) os → R d (run_ops os d).
Proof.
  intros H. revert d. induction H as [|o os Ho _ IH]; intros d; cbn [run_ops foldl]; [done|].
  transitivity (run_op o d); [by apply run_op_closed|apply IH].
Qed.

(** ** The evolution of the tables *)

(** What no accessor changes of an account. *)
Definition account_evolves (a a' : AdminAccountRow) : Prop :=
  aa_admin_id a' = aa_admin_id a ∧ aa_username a' = aa_username a ∧ aa_created_at a' = aa_created_at a ∧
  aa_created_by a' = aa_created_by a ∧ aa_row_version a ≤ aa_row_version a'.
#[export] Instance account_evolves_order : PreOrder account_evolves.
Proof. split; [done|]. intros a b c (? & ? & ? & ? & ?) (? & ? & ? & ? & ?). unfold account_evolves. split_and!; congruence || lia. Qed.
(** A revoked session stays revoked, when it was, for whom it was. *)
Definition session_evolves (s s' : AdminSessionRow) : Prop :=
  ss_admin_id s' = ss_admin_id s ∧ ss_revoked_at s' = ss_revoked_at s ∧ ss_revoked_reason s' = ss_revoked_reason s.
Definition sessions_evolve (m m' : gmap (list u8) AdminSessionRow) : Prop :=
  ∀ h s t, m !! h = Some s → ss_revoked_at s = Some t → ∃ s', m' !! h = Some s' ∧ session_evolves s s'.
#[export] Instance sessions_evolve_order : PreOrder sessions_evolve.
Proof.
  split; [intros m h s t Hs _; by exists s|]. intros m1 m2 m3 H1 H2 h s t Hs Ht.
  destruct (H1 h s t Hs Ht) as (s2 & Hs2 & E1 & E2 & E3). destruct (H2 h s2 t Hs2 ltac:(congruence)) as (s3 & Hs3 & F1 & F2 & F3).
  exists s3. split; [done|]. split_and!; congruence.
Qed.
(** A redeemed or superseded token never changes. *)
Definition tokens_evolve (m m' : gmap (list u8) EnrollmentTokenRow) : Prop :=
  ∀ h t u, m !! h = Some t → et_used_at t = Some u → m' !! h = Some t.
#[export] Instance tokens_evolve_order : PreOrder tokens_evolve.
Proof. split; [by intros m h t u Ht _|]. intros m1 m2 m3 H1 H2 h t u Ht Hu. by eapply H2; [eapply H1|]. Qed.

Record admin_evolves (d d' : AdminDb) : Prop := {
  ev_accounts : map_evolves account_evolves (ad_accounts d) (ad_accounts d');
  ev_sessions : sessions_evolve (ad_sessions d) (ad_sessions d');
  ev_tokens : tokens_evolve (ad_tokens d) (ad_tokens d');
  ev_history : ad_history d ⊆ ad_history d';
  ev_groups : ad_groups d' = ad_groups d ∧ ad_permissions d' = ad_permissions d;
  ev_log : ad_security_log d `prefix_of` ad_security_log d' }.
#[export] Instance admin_evolves_order : PreOrder admin_evolves.
Proof.
  split; [by intros d; split|]. intros d1 d2 d3 [A1 S1 T1 H1 [G1 P1] L1] [A2 S2 T2 H2 [G2 P2] L2].
  split; [by etransitivity..|split; congruence|by etransitivity].
Qed.

Lemma evolves_accounts d m : map_evolves account_evolves (ad_accounts d) m → admin_evolves d (put_accounts m d).
Proof. by intros H; split. Qed.
Lemma evolves_sessions d m : sessions_evolve (ad_sessions d) m → admin_evolves d (put_sessions m d).
Proof. by intros H; split. Qed.
Lemma evolves_tokens d m : tokens_evolve (ad_tokens d) m → admin_evolves d (put_tokens m d).
Proof. by intros H; split. Qed.

Lemma update_account_evolves id p f : (∀ a, account_evolves a (f a)) → closed admin_evolves (update_account id p f).
Proof.
  intros Hf d d' n. unfold update_account. destruct (ad_accounts d !! id) as [a|] eqn:E; [|by intros [= <- _]].
  destruct (p a); intros [= <- _]; [|done]. apply evolves_accounts. eapply map_evolves_update; [apply _|done|apply Hf].
Qed.
Lemma not_null_false {A} (x : option A) : not_null x = false → x = None.
Proof. by destruct x. Qed.
Lemma insert_account_evolves a : closed admin_evolves (insert_account a).
Proof.
  intros d d' n. unfold insert_account. destruct (not_null _) eqn:E; [done|]. destruct (exists_row _ _); [done|]. intros [= <- _].
  apply evolves_accounts, map_evolves_insert; [apply _|by apply not_null_false].
Qed.
Lemma insert_history_evolves id pw : closed admin_evolves (insert_history id pw).
Proof.
  intros d d' n. unfold insert_history. destruct (not_null _) eqn:E; [done|]. intros [= <- _]. split; try done.
  by apply insert_subseteq, not_null_false.
Qed.
Lemma insert_token_evolves t : closed admin_evolves (insert_token_stmt t).
Proof.
  intros d d' n. destruct t as [h a p b c x u s]. unfold insert_token_stmt. destruct (not_null _) eqn:E; [done|]. intros [= <- _].
  apply not_null_false in E. apply evolves_tokens. intros h' t' u' Ht Hu. rewrite lookup_insert_ne; [done|]. intros ->. congruence.
Qed.
Lemma insert_memberships_evolves id gs m : closed admin_evolves (insert_memberships id gs m).
Proof.
  induction gs as [|g gs IH]; intros d d' n; cbn [insert_memberships]; [by intros [= <- _]|]. destruct (not_null _); [done|].
  destruct (insert_memberships id gs m _) as [[d1 k]|] eqn:E; [|done]. intros [= <- _]. apply IH in E. etransitivity; [|exact E]. by split.
Qed.
Lemma insert_member_evolves id g b t : closed admin_evolves (insert_member id g b t).
Proof. intros d d' n. apply insert_memberships_evolves. Qed.
Lemma insert_webauthn_evolves c : closed admin_evolves (insert_webauthn c).
Proof. intros d d' n. unfold insert_webauthn. destruct (not_null _); [done|]. intros [= <- _]. by split. Qed.
Lemma token_live_unused tok now d : token_live tok now d = true → ∃ t, ad_tokens d !! tok = Some t ∧ et_used_at t = None ∧ now < et_expires_at t.
Proof.
  unfold token_live. destruct (ad_tokens d !! tok) as [t|]; [|done]. intros [Hu Hx]%andb_true_iff.
  exists t. split; [done|]. destruct (et_used_at t); [done|]. split; [done|]. by apply Z.ltb_lt.
Qed.
Lemma redeem_evolves tok now p f : closed admin_evolves (redeem_stmt tok now p f).
Proof.
  intros d d' n. unfold redeem_stmt, where_. destruct (token_live tok now d && p d) eqn:E; [|by intros [= <- _]].
  apply andb_true_iff in E as [(t & Ht & Hu & _)%token_live_unused _]. rewrite Ht. intros [= <- _]. apply evolves_tokens.
  intros h t' u' Ht' Hu'. rewrite lookup_insert_ne; [done|]. intros ->. congruence.
Qed.
Lemma supersede_evolves id now : closed admin_evolves (supersede_stmt id now).
Proof.
  intros d d' n. unfold supersede_stmt. intros [= <- _]. apply evolves_tokens. intros h t u Ht Hu. rewrite lookup_fmap, Ht. cbn [fmap option_fmap option_map].
  rewrite Hu. cbn [is_null]. by rewrite andb_false_r.
Qed.
Lemma update_session_evolves h p f d : (∀ s t, p s = true → ss_revoked_at s = Some t → session_evolves s (f s)) →
  admin_evolves d (update_session h p f d).1.
Proof.
  intros Hf. unfold update_session. destruct (ad_sessions d !! h) as [s|] eqn:E; [|done]. destruct (p s) eqn:Ep; [|done].
  apply evolves_sessions. intros h' s' t Hs Ht. destruct (decide (h = h')) as [<-|Hne].
  - rewrite E in Hs. injection Hs as <-. exists (f s). rewrite lookup_insert_eq. split; [done|]. by eapply Hf.
  - exists s'. by rewrite lookup_insert_ne.
Qed.
Lemma rotate_evolves o n m r d : admin_evolves d (admin_rotate_session o n m r d).1.
Proof.
  unfold admin_rotate_session. destruct (ad_sessions d !! o) as [s|] eqn:E; [|done]. destruct (is_null (ss_revoked_at s)) eqn:Er; [|done].
  destruct (not_null _) eqn:En; [done|]. apply not_null_false in En. apply evolves_sessions. intros h' s' t Hs Ht.
  assert (h' ≠ o) by (intros ->; rewrite E in Hs; injection Hs as <-; by rewrite Ht in Er).
  assert (h' ≠ n) by (intros ->; rewrite lookup_delete_ne in En by done; congruence).
  exists s'. by rewrite lookup_insert_ne, lookup_delete_ne.
Qed.
Lemma direct_evolves {A} (f : AdminDb → AdminDb * A) : (∀ d, admin_evolves d (f d).1) → closed admin_evolves (direct f).
Proof. intros Hf d d' n [= <- _]. apply Hf. Qed.

(** Statements as the ones above, in the shapes the accessors use them. *)
Ltac account_step := apply update_account_evolves; intros []; repeat split; cbn; lia.
Ltac session_step := apply direct_evolves; intros ?; unfold admin_touch_session, admin_revoke_session; rewrite ?unit_of_fst;
  apply update_session_evolves; intros [] ?; cbn; intros ? ->; done.
Create HintDb evolves.
#[export] Hint Resolve closed_where insert_account_evolves insert_history_evolves insert_token_evolves insert_member_evolves
  insert_webauthn_evolves redeem_evolves supersede_evolves : evolves.
#[export] Hint Extern 2 (closed _ (update_account _ _ _)) => account_step : evolves.
#[export] Hint Extern 2 (closed _ (λ _, Ok _)) => intros ? ? ? [= <- _]; by split : evolves.
#[export] Hint Extern 2 (closed _ (delete_members _)) => intros ? ? ? [= <- _]; by split : evolves.

Lemma op_evolves o : Forall (closed admin_evolves) (op_stmts o).
Proof.
  destruct o; cbn [op_stmts];
    repeat match goal with
    | |- context [match ?x with _ => _ end] => destruct x
    | |- Forall _ [] => constructor
    | |- Forall _ (_ :: _) => apply Forall_cons; split
    | |- Forall _ (_ ++ _) => apply Forall_app; split
    | |- Forall _ (_ <$> _) => apply closed_fmap; intros ?
    | |- Forall _ (enrollment_stmts _) => unfold enrollment_stmts
    end; auto 6 with evolves typeclass_instances.
  all: apply direct_evolves; intros d; try by split.
  - unfold admin_add_webauthn_credential. destruct (where_ _ _ d) as [[d' n]|[]] eqn:E; [|done..]. cbn.
    eapply closed_where, E; [apply _|auto with evolves].
  - unfold admin_webauthn_used. destruct (_ !! _); [|done]. by destruct (_ && _); [split|].
  - unfold admin_remove_webauthn_credential. destruct (_ !! _); [|done]. by destruct (_ && _); [split|].
  - destruct s. unfold admin_insert_session. destruct (not_null _) eqn:E; [done|]. apply not_null_false in E. apply evolves_sessions.
    intros h s t Hs Ht. exists s. rewrite lookup_insert_ne by congruence. done.
  - unfold admin_touch_session. rewrite unit_of_fst. apply update_session_evolves. by intros [].
  - apply update_session_evolves. by intros s t Hn Ht; rewrite Ht in Hn.
  - apply rotate_evolves.
  - apply (update_session_evolves h (λ _, true) (λ s, set_stepup_failures (ss_stepup_failures s + 1) s)). by intros [].
  - unfold admin_set_pending_secret. destruct (ad_tokens d !! h) as [t|] eqn:Et; [|done]. destruct (token_live h now d) eqn:El; [|done].
    apply token_live_unused in El as (t' & Ht' & Hu & _). rewrite Et in Ht'. injection Ht' as <-. apply evolves_tokens.
    intros h' t' u Ht' Hu'. rewrite lookup_insert_ne; [done|]. intros ->. congruence.
  - split; try done. by exists [r].
  - unfold set_once_stmt. by destruct (_ !! _); [|split].
Qed.
Lemma history_evolves os d : admin_evolves d (run_ops os d).
Proof. apply run_ops_closed; [apply _|]. apply Forall_true. apply op_evolves. Qed.

Lemma txn_loop_snoc ss s d d' ns : txn_loop (ss ++ [s]) d = Ok (d', ns) →
  ∃ d1 ms n, txn_loop ss d = Ok (d1, ms) ∧ s d1 = Ok (d', n) ∧ ns = ms ++ [n].
Proof.
  revert d ns. induction ss as [|s0 ss IH]; intros d ns; cbn [app txn_loop].
  - destruct (s d) as [[d1 n]|] eqn:E; [|done]. intros [= <- <-]. by exists d, [], n.
  - destruct (s0 d) as [[d1 n]|]; [|done]. destruct (txn_loop (ss ++ [s]) d1) as [[d2 ms]|] eqn:E; [|done]. intros [= <- <-].
    destruct (IH _ _ E) as (d3 & ms' & n' & -> & E2 & ->). by exists d3, (n :: ms'), n'.
Qed.
(** A transaction that redeems its token ran while the token was live. *)
Lemma redeemed_was_live ss tok now p f d : Forall (closed admin_evolves) ss →
  (redeemed (txn_conflict (ss ++ [redeem_stmt tok now p f]) d)).2 = Ok tt →
  ∃ d1 t, admin_evolves d d1 ∧ ad_tokens d1 !! tok = Some t ∧ et_used_at t = None.
Proof.
  intros Hss. unfold txn_conflict. destruct (txn_loop _ d) as [[d' ns]|[]] eqn:E; [|done..]. cbn [redeemed snd].
  destruct (txn_loop_snoc _ _ _ _ _ E) as (d1 & ms & n & E1 & E2 & ->). unfold last_is_one. rewrite last_snoc.
  unfold redeem_stmt, where_ in E2. destruct (token_live tok now d1 && p d1) eqn:El; [|by injection E2 as _ <-].
  apply andb_true_iff in El as [(t & Ht & Hu & _)%token_live_unused _]. intros _. exists d1, t. split; [|done].
  by eapply closed_txn, E1; [apply _|].
Qed.
Lemma used_not_redeemed ss tok now p f d t u : Forall (closed admin_evolves) ss → ad_tokens d !! tok = Some t → et_used_at t = Some u →
  (redeemed (txn_conflict (ss ++ [redeem_stmt tok now p f]) d)).2 ≠ Ok tt.
Proof.
  intros Hss Ht Hu (d1 & t1 & He & Ht1 & Hu1)%redeemed_was_live; [|done]. apply (ev_tokens _ _ He _ _ _ Ht) in Hu as E. congruence.
Qed.
Lemma enrollment_not_reused c d t u : ad_tokens d !! ec_token_hash c = Some t → et_used_at t = Some u →
  (admin_complete_enrollment c d).2 ≠ Ok tt.
Proof.
  intros Ht Hu. pose proof (op_evolves (OpEnroll c)) as Hss. cbn [op_stmts] in Hss. unfold admin_complete_enrollment.
  unfold enrollment_stmts in *.
  match goal with |- context [[?x; redeem_stmt ?a ?b ?p ?f]] =>
    change [x; redeem_stmt a b p f] with ([x] ++ [redeem_stmt a b p f]) in Hss |- * end.
  rewrite !app_assoc in Hss |- *. apply Forall_app in Hss as [Hss _]. by eapply used_not_redeemed.
Qed.
Lemma bootstrap_not_reused a gs c st d t u : ad_tokens d !! ec_token_hash c = Some t → et_used_at t = Some u →
  (bootstrap_account_txn a gs c st d).2 ≠ Ok tt.
Proof.
  intros Ht Hu. pose proof (op_evolves (OpBootstrap a gs c st)) as Hss. cbn [op_stmts] in Hss. unfold bootstrap_account_txn.
  destruct (ec_password c) as [pw|]; [|done]. destruct (ec_totp c) as [totp|]; [|by destruct (ec_webauthn c)].
  destruct (ec_webauthn c); [done|]. unfold bootstrap_txn. rewrite !app_comm_cons, !app_assoc in Hss |- *.
  apply Forall_app in Hss as [Hss _]. by eapply used_not_redeemed.
Qed.

(** Revocation, redemption and attribution are final.  Whatever calls follow: a revoked
    session keeps its revocation, a redeemed or superseded enrollment token never changes and
    cannot be redeemed (again), an account is never removed and keeps its id, name and
    creator, password history and security log only grow, and the groups keep their
    permissions. *)
Theorem admin_records_final os d :
  (∀ h s t, ad_sessions d !! h = Some s → ss_revoked_at s = Some t →
     ∃ s', ad_sessions (run_ops os d) !! h = Some s' ∧ ss_revoked_at s' = Some t ∧ ss_admin_id s' = ss_admin_id s) ∧
  (∀ h t u, ad_tokens d !! h = Some t → et_used_at t = Some u →
     ad_tokens (run_ops os d) !! h = Some t ∧
     ∀ c, ec_token_hash c = h → (admin_complete_enrollment c (run_ops os d)).2 ≠ Ok tt ∧
       ∀ a gs st, (bootstrap_account_txn a gs c st (run_ops os d)).2 ≠ Ok tt) ∧
  (∀ id a, ad_accounts d !! id = Some a → ∃ a', ad_accounts (run_ops os d) !! id = Some a' ∧
     aa_admin_id a' = aa_admin_id a ∧ aa_username a' = aa_username a ∧ aa_created_by a' = aa_created_by a) ∧
  ad_history d ⊆ ad_history (run_ops os d) ∧ ad_security_log d `prefix_of` ad_security_log (run_ops os d) ∧
  ad_permissions (run_ops os d) = ad_permissions d.
Proof.
  destruct (history_evolves os d) as [Ha Hs Ht Hh [_ Hp] Hl]. split_and!; try done.
  - intros h s t E1 E2. destruct (Hs h s t E1 E2) as (s' & H1 & H2 & H3 & _). exists s'. split_and!; congruence.
  - intros h t u E1 E2. pose proof (Ht h t u E1 E2) as E. split; [done|]. intros c <-. split; [by eapply enrollment_not_reused|]. intros. by eapply bootstrap_not_reused.
  - intros id a E. destruct (Ha id a E) as (a' & E' & ? & ? & _ & ? & _). by exists a'.
Qed.
