(* ===== verification/AdminFactors.v ===== *)
(** Second factors of administrators over every history of accessor calls: a TOTP code is
    accepted once, the last factor is never removed, and an account holds at most
    [MAX_WEBAUTHN_CREDENTIALS] security keys. *)
From S2P Require Import Prelude AppModel AppDedup AppSchema Order AdminStore AdminStoreProofs.
Open Scope Z_scope.

(** ** Counting rows *)
Section Count.
Context {K A : Type} `{Countable K} (p : A → bool).
Implicit Type m : gmap K A.

Definition b2z (b : bool) : Z := if b then 1 else 0.
Lemma length_filter_perm {B} (q : B → bool) l l' : l ≡ₚ l' → length (List.filter q l) = length (List.filter q l').
Proof. induction 1; cbn; repeat case_match; cbn; congruence. Qed.
Lemma count_insert m k x : m !! k = None → count_rows p (<[k:=x]> m) = count_rows p m + b2z (p x).
Proof.
  intros Hk. unfold count_rows. rewrite (length_filter_perm _ _ ((k, x) :: map_to_list m)) by by apply map_to_list_insert.
  cbn. destruct (p x); cbn [b2z length]; lia.
Qed.
Lemma count_delete m k x : m !! k = Some x → count_rows p (delete k m) = count_rows p m - b2z (p x).
Proof.
  intros Hk. rewrite <- (insert_delete_id m k x Hk) at 2. rewrite count_insert by apply lookup_delete_eq. lia.
Qed.
Lemma count_update m k x y : m !! k = Some x → p y = p x → count_rows p (<[k:=y]> m) = count_rows p m.
Proof.
  intros Hk Hp. rewrite <- insert_delete_eq, count_insert, (count_delete _ _ x), Hp by (done || apply lookup_delete_eq). lia.
Qed.
Lemma count_nonneg m : 0 ≤ count_rows p m.
Proof. unfold count_rows. lia. Qed.
Lemma count_filter (P : K * A → Prop) `{∀ kx, Decision (P kx)} m :
  count_rows p (filter P m) ≤ count_rows p m ∧ ((∀ k x, p x = true → P (k, x)) → count_rows p (filter P m) = count_rows p m).
Proof.
  induction m as [|k x m Hk IH] using map_ind; [by rewrite map_filter_empty|]. rewrite count_insert by done.
  assert (0 ≤ b2z (p x)) by (destruct (p x); cbn; lia). destruct (decide (P (k, x))) as [HP|HP].
  - rewrite map_filter_insert_True by done. rewrite count_insert by (apply map_lookup_filter_None; auto). destruct IH as [? IH]. split; [lia|].
    intros Hf. rewrite IH by done. done.
  - rewrite map_filter_insert_not' by (rewrite ?Hk; done || by intros ? [=]). destruct IH as [? IH]. split; [lia|]. intros Hf. rewrite IH by done.
    destruct (p x) eqn:E; [by destruct HP; apply Hf|]. cbn. lia.
Qed.
End Count.

(** ** Statements that leave the factors alone *)
Definition totp_of (id : string) (d : AdminDb) : option (list u8) * option Z :=
  match ad_accounts d !! id with Some a => (aa_totp_secret_enc a, aa_totp_last_step a) | None => (None, None) end.
Definition factors (id : string) (d : AdminDb) : Z := credentials_of id d + b2z (has_totp id d).

Definition same_factors (d d' : AdminDb) : Prop := (∀ id, totp_of id d' = totp_of id d) ∧ ad_webauthn d' = ad_webauthn d.
#[export] Instance same_factors_order : PreOrder same_factors.
Proof. split; [done|]. intros d1 d2 d3 [H1 W1] [H2 W2]. split; [intros id; by rewrite H2|congruence]. Qed.

Lemma has_totp_of id d : has_totp id d = not_null (totp_of id d).1.
Proof. unfold has_totp, totp_of. by destruct (ad_accounts d !! id). Qed.
Lemma totp_of_update id p f d d' n : update_account id p f d = Ok (d', n) →
  ad_webauthn d' = ad_webauthn d ∧ (∀ i, i ≠ id → totp_of i d' = totp_of i d) ∧
  (totp_of id d' = totp_of id d ∨
   ∃ a, ad_accounts d !! id = Some a ∧ p a = true ∧ totp_of id d' = (aa_totp_secret_enc (f a), aa_totp_last_step (f a))).
Proof.
  unfold update_account, totp_of. destruct (ad_accounts d !! id) as [a|] eqn:E; [|intros [= <- _]; rewrite E; split_and!; auto].
  destruct (p a) eqn:Ep; intros [= <- _]; cbn; [|rewrite E; split_and!; auto]. split; [done|]. split; [intros i Hi; by rewrite lookup_insert_ne|].
  right. exists a. by rewrite lookup_insert_eq.
Qed.
Lemma update_same_factors id p f :
  (∀ a, aa_totp_secret_enc (f a) = aa_totp_secret_enc a ∧ aa_totp_last_step (f a) = aa_totp_last_step a) →
  closed same_factors (update_account id p f).
Proof.
  intros Hf d d' n E. destruct (totp_of_update _ _ _ _ _ _ E) as (Hw & Ho & Hid). split; [|done]. intros i.
  destruct (decide (i = id)) as [->|]; [|auto]. destruct Hid as [?|(a & Ea & _ & ->)]; [done|]. destruct (Hf a) as [-> ->]. unfold totp_of. by rewrite Ea.
Qed.
Lemma insert_same_factors a : aa_totp_secret_enc a = None → aa_totp_last_step a = None → closed same_factors (insert_account a).
Proof.
  intros H1 H2 d d' n. unfold insert_account. destruct (not_null _) eqn:E; [done|]. destruct (exists_row _ _); [done|]. intros [= <- _].
  apply not_null_false in E. split; [|done]. intros i. unfold totp_of. cbn. destruct (decide (i = aa_admin_id a)) as [->|].
  - by rewrite lookup_insert_eq, E, H1, H2.
  - by rewrite lookup_insert_ne.
Qed.
Lemma memberships_same_factors id gs m : closed same_factors (insert_memberships id gs m).
Proof.
  induction gs as [|g gs IH]; intros d d' n; cbn [insert_memberships]; [by intros [= <- _]|]. destruct (not_null _); [done|].
  destruct (insert_memberships id gs m _) as [[d1 k]|] eqn:E; [|done]. intros [= <- _]. apply IH in E. exact E.
Qed.
Lemma member_same_factors id g b t : closed same_factors (insert_member id g b t).
Proof. intros d d' n. apply memberships_same_factors. Qed.
Lemma token_same_factors t : closed same_factors (insert_token_stmt t).
Proof. intros d d' n. destruct t. unfold insert_token_stmt. destruct (not_null _); [done|]. by intros [= <- _]. Qed.
Lemma redeem_same_factors tok now p f : closed same_factors (redeem_stmt tok now p f).
Proof. intros d d' n. unfold redeem_stmt, where_. destruct (_ && _); [|by intros [= <- _]]. destruct (_ !! _); by intros [= <- _]. Qed.
Lemma history_same_factors id pw : closed same_factors (insert_history id pw).
Proof. intros d d' n. unfold insert_history. destruct (not_null _); [done|]. by intros [= <- _]. Qed.

Create HintDb factors.
#[export] Hint Resolve closed_where member_same_factors token_same_factors redeem_same_factors history_same_factors : factors.
#[export] Hint Extern 2 (closed same_factors (insert_account _)) => by apply insert_same_factors : factors.
#[export] Hint Extern 2 (closed same_factors (update_account _ _ _)) => apply update_same_factors; by intros [] : factors.
#[export] Hint Extern 2 (closed same_factors (λ _, Ok _)) => intros ? ? ? [= <- _]; by split : factors.
#[export] Hint Extern 2 (closed same_factors (delete_members _)) => intros ? ? ? [= <- _]; by split : factors.
#[export] Hint Extern 2 (closed same_factors (supersede_stmt _ _)) => intros ? ? ? [= <- _]; by split : factors.

(** The accessors that touch a factor. *)
Definition touches_factors (o : AdminOp) : bool :=
  match o with
  | OpBootstrap _ _ _ _ | OpEnroll _ | OpAdvanceTotp _ _ | OpAddTotp _ _ _ | OpRemoveTotp _ | OpAddKey _ | OpKeyUsed _ _ _ _ | OpRemoveKey _ _ => true
  | OpReset _ _ mfa _ => mfa
  | _ => false
  end.
(** Split the statements of an accessor. *)
Ltac split_stmts :=
  repeat match goal with
  | |- context [match ?x with _ => _ end] => destruct x
  | |- Forall _ [] => constructor
  | |- Forall _ (_ :: _) => apply Forall_cons; split
  | |- Forall _ (_ ++ _) => apply Forall_app; split
  | |- Forall _ (_ <$> _) => apply closed_fmap; intros ?
  | |- Forall _ (enrollment_stmts _) => unfold enrollment_stmts
  end.
Lemma untouched_factors o : touches_factors o = false → Forall (closed same_factors) (op_stmts o).
Proof.
  destruct o; intros Ht; try done; cbn [op_stmts touches_factors] in *; try (destruct mfa; [done|]); split_stmts;
    auto 6 with factors typeclass_instances.
  all: intros d d' n [= <- _]; try by split.
  all: unfold admin_insert_session, admin_touch_session, admin_revoke_session, update_session, admin_rotate_session, stepup_failed_stmt,
    admin_set_pending_secret, set_once_stmt; rewrite ?unit_of_fst; repeat case_match; by split.
Qed.

(** ** Bounds on the factors of an account *)
Definition capped (d d' : AdminDb) : Prop := ∀ id, credentials_of id d ≤ MAX_WEBAUTHN_CREDENTIALS → credentials_of id d' ≤ MAX_WEBAUTHN_CREDENTIALS.
#[export] Instance capped_order : PreOrder capped.
Proof. split; [intros d id H; exact H|]. intros d1 d2 d3 H1 H2 id H. by apply H2, H1. Qed.
Definition factor_kept (id : string) (d d' : AdminDb) : Prop := 1 ≤ factors id d → 1 ≤ factors id d'.
#[export] Instance factor_kept_order id : PreOrder (factor_kept id).
Proof. split; [intros d H; exact H|]. intros d1 d2 d3 H1 H2 H. by apply H2, H1. Qed.
Definition totp_kept (id : string) (d d' : AdminDb) : Prop :=
  ∀ enc l, totp_of id d = (Some enc, Some l) → ∃ l', totp_of id d' = (Some enc, Some l') ∧ l ≤ l'.
#[export] Instance totp_kept_order id : PreOrder (totp_kept id).
Proof.
  split; [intros d enc l ->; by exists l|]. intros d1 d2 d3 H1 H2 enc l H. destruct (H1 _ _ H) as (l1 & E1 & ?).
  destruct (H2 _ _ E1) as (l2 & E2 & ?). exists l2. split; [done|lia].
Qed.

Lemma credentials_nonneg id d : 0 ≤ credentials_of id d.
Proof. apply count_nonneg. Qed.
Lemma b2z_bounds b : 0 ≤ b2z b ≤ 1.
Proof. destruct b; cbn; lia. Qed.
Lemma same_credentials id d d' : ad_webauthn d' = ad_webauthn d → credentials_of id d' = credentials_of id d.
Proof. unfold credentials_of. by intros ->. Qed.
Lemma same_capped d d' : same_factors d d' → capped d d'.
Proof. intros [_ Hw] id. by rewrite (same_credentials id _ _ Hw). Qed.
Lemma same_factor_kept id d d' : same_factors d d' → factor_kept id d d'.
Proof. intros [Ht Hw]. unfold factor_kept, factors. by rewrite (same_credentials id _ _ Hw), !has_totp_of, Ht. Qed.
Lemma same_totp_kept id d d' : same_factors d d' → totp_kept id d d'.
Proof. intros [Ht Hw] enc l. rewrite Ht. intros ->. by exists l. Qed.
Lemma closed_mono (R R' : relation AdminDb) s : (∀ d d', R d d' → R' d d') → closed R s → closed R' s.
Proof. intros HR Hs d d' n E. by eapply HR, Hs. Qed.

Lemma closed_mono_all (R R' : relation AdminDb) ss : (∀ d d', R d d' → R' d d') → Forall (closed R) ss → Forall (closed R') ss.
Proof. intros HR Hss. eapply Forall_impl; [exact Hss|]. intros s. by apply closed_mono. Qed.

(** New keys. *)
Lemma insert_webauthn_keys c d d' n : insert_webauthn c d = Ok (d', n) →
  (∀ id, totp_of id d' = totp_of id d) ∧ (∀ id, credentials_of id d' = credentials_of id d + b2z (is_ (wc_admin_id c) id)).
Proof.
  unfold insert_webauthn. destruct (not_null _) eqn:E; [done|]. intros [= <- _]. apply not_null_false in E. split; [done|].
  intros id. unfold credentials_of. cbn. by rewrite count_insert.
Qed.
Lemma new_key_capped p c id : wc_admin_id c = id →
  closed capped (where_ (λ d, p d && (credentials_of id d <? MAX_WEBAUTHN_CREDENTIALS)) (insert_webauthn c)).
Proof.
  intros <- d d' n. unfold where_. destruct (_ && _) eqn:E; [|by intros [= <- _]]. apply andb_true_iff in E as [_ E%Z.ltb_lt].
  intros [_ Hc]%insert_webauthn_keys id Hid. rewrite Hc. unfold is_. case_bool_decide as Hi; cbn [b2z]; [subst; lia|lia].
Qed.
Lemma new_key_kept id p c : closed (factor_kept id) (where_ p (insert_webauthn c)) ∧ closed (totp_kept id) (where_ p (insert_webauthn c)).
Proof.
  split; intros d d' n; unfold where_; (destruct (p d); [|by intros [= <- _]]); intros [Ht Hc]%insert_webauthn_keys.
  - unfold factor_kept, factors. rewrite Hc, !has_totp_of, Ht. pose proof (b2z_bounds (is_ (wc_admin_id c) id)). lia.
  - intros enc l. rewrite Ht. intros ->. by exists l.
Qed.
(** New accounts with a secret: the id was free. *)
Lemma insert_account_factors id p a :
  closed capped (where_ p (insert_account a)) ∧ closed (factor_kept id) (where_ p (insert_account a)) ∧
  closed (totp_kept id) (where_ p (insert_account a)).
Proof.
  assert (∀ d d' n, where_ p (insert_account a) d = Ok (d', n) → ad_webauthn d' = ad_webauthn d ∧
    (totp_of id d' = totp_of id d ∨ totp_of id d = (None, None))) as H.
  { intros d d' n. unfold where_. destruct (p d); [|intros [= <- _]; auto]. unfold insert_account. destruct (not_null _) eqn:E; [done|].
    destruct (exists_row _ _); [done|]. intros [= <- _]. split; [done|]. apply not_null_false in E. unfold totp_of. cbn.
    destruct (decide (id = aa_admin_id a)) as [->|]; [right; by rewrite E|left; by rewrite lookup_insert_ne]. }
  split_and!; intros d d' n [Hw Ht]%H.
  - intros i. by rewrite (same_credentials i _ _ Hw).
  - unfold factor_kept, factors. rewrite (same_credentials id _ _ Hw), !has_totp_of. destruct Ht as [->| ->]; [done|]. cbn.
    pose proof (b2z_bounds (not_null (totp_of id d').1)). lia.
  - intros enc l E. destruct Ht as [->|Ht]; [by exists l|congruence].
Qed.
(** Updates of the secret of an account. *)
Lemma update_capped id p f : closed capped (update_account id p f).
Proof. intros d d' n (Hw & _)%totp_of_update i. by rewrite (same_credentials i _ _ Hw). Qed.
Lemma update_factor_kept id i q p f :
  (∀ d a, q d = true → p a = true → is_Some (aa_totp_secret_enc (f a)) ∨ aa_totp_secret_enc (f a) = aa_totp_secret_enc a ∨ 1 ≤ credentials_of id d) →
  closed (factor_kept i) (where_ q (update_account id p f)).
Proof.
  intros Hf d d' n. unfold where_. destruct (q d) eqn:Eq; [|by intros [= <- _]]. intros (Hw & Ho & Hid)%totp_of_update.
  unfold factor_kept, factors. rewrite (same_credentials i _ _ Hw), !has_totp_of. destruct (decide (i = id)) as [->|]; [|by rewrite Ho].
  destruct Hid as [->|(a & Ea & Hp & ->)]; [done|]. unfold totp_of at 1. rewrite Ea. cbn [fst].
  pose proof (credentials_nonneg id d). pose proof (b2z_bounds (not_null (aa_totp_secret_enc (f a)))).
  destruct (Hf d a Eq Hp) as [[x ->]|[->|Hc]]; cbn [not_null is_null negb b2z]; [lia|done|lia].
Qed.
Lemma update_totp_kept id i q p f :
  (∀ a enc l, id = i → p a = true → aa_totp_secret_enc a = Some enc → aa_totp_last_step a = Some l →
     ∃ l', aa_totp_secret_enc (f a) = Some enc ∧ aa_totp_last_step (f a) = Some l' ∧ l ≤ l') →
  closed (totp_kept i) (where_ q (update_account id p f)).
Proof.
  intros Hf d d' n. unfold where_. destruct (q d) eqn:Eq; [|by intros [= <- _]]. intros (Hw & Ho & Hid)%totp_of_update enc l E.
  destruct (decide (i = id)) as [->|]; [|rewrite Ho; eauto with lia]. destruct Hid as [->|(a & Ea & Hp & ->)]; [eauto with lia|].
  unfold totp_of in E. rewrite Ea in E. injection E as E1 E2. destruct (Hf a enc l eq_refl Hp E1 E2) as (l' & -> & -> & ?). eauto.
Qed.

(** The accessors that touch security keys directly. *)
Lemma add_key_where c d : (admin_add_webauthn_credential c d).1 = d ∨ ∃ d' n c', wc_admin_id c' = wc_admin_id c ∧
  where_ (λ d, true && (credentials_of (wc_admin_id c) d <? MAX_WEBAUTHN_CREDENTIALS)) (insert_webauthn c') d = Ok (d', n) ∧
  (admin_add_webauthn_credential c d).1 = d'.
Proof.
  unfold admin_add_webauthn_credential. destruct (where_ _ (insert_webauthn ?[c']) d) as [[d' n]|[]] eqn:E; [|by left..].
  right. eexists d', n, _. split; [|split; [exact E|done]]. done.
Qed.
Lemma key_used_factors id cred count now d : (∀ i, totp_of i (admin_webauthn_used id cred count now d).1 = totp_of i d) ∧
  ∀ i, credentials_of i (admin_webauthn_used id cred count now d).1 = credentials_of i d.
Proof.
  unfold admin_webauthn_used. destruct (ad_webauthn d !! cred) as [c|] eqn:E; [|done]. destruct (_ && _); [|done]. split; [done|].
  intros i. unfold credentials_of. cbn. by eapply count_update.
Qed.
Lemma remove_key_factors id cred d : (∀ i, totp_of i (admin_remove_webauthn_credential id cred d).1 = totp_of i d) ∧
  ((admin_remove_webauthn_credential id cred d).1 = d ∨ 1 < factors id d ∧
   ∀ i, credentials_of i (admin_remove_webauthn_credential id cred d).1 = credentials_of i d - b2z (is_ id i)).
Proof.
  unfold admin_remove_webauthn_credential. destruct (ad_webauthn d !! cred) as [c|] eqn:E; [|auto]. destruct (_ && _) eqn:Ec; [|auto].
  apply andb_true_iff in Ec as [Hc%bool_decide_eq_true Hf%Z.ltb_lt]. split; [done|]. right. split; [exact Hf|]. intros i. unfold credentials_of. cbn.
  rewrite (count_delete _ _ _ c E). by rewrite Hc.
Qed.

Create HintDb factor_bounds.
#[export] Hint Resolve closed_where update_capped new_key_capped : factor_bounds.
#[export] Hint Extern 1 (closed capped (where_ _ (insert_account _))) => apply (insert_account_factors "") : factor_bounds.
#[export] Hint Extern 1 (closed _ (where_ _ (insert_account _))) => apply insert_account_factors : factor_bounds.
#[export] Hint Extern 1 (closed _ (where_ _ (insert_webauthn _))) => apply new_key_kept : factor_bounds.
#[export] Hint Extern 3 (closed capped _) => eapply closed_mono; [apply same_capped|] : factor_bounds.
#[export] Hint Extern 3 (closed (factor_kept _) _) => eapply closed_mono; [apply same_factor_kept|] : factor_bounds.
#[export] Hint Extern 3 (closed (totp_kept _) _) => eapply closed_mono; [apply same_totp_kept|] : factor_bounds.

Lemma ops_capped o : Forall (closed capped) (op_stmts o).
Proof.
  destruct (touches_factors o) eqn:Ht; [|apply untouched_factors in Ht; by eapply closed_mono_all, Ht; apply same_capped].
  destruct o; try done; cbn [op_stmts]; split_stmts; auto 7 with factor_bounds factors typeclass_instances.
  1-2: intros d d' k [= <- _] i Hi; etransitivity; [apply count_filter|exact Hi].
  - intros d d1 k [= <- _]. destruct (add_key_where c d) as [->|(d' & n & c' & Hc & E & ->)]; [done|]. eapply new_key_capped, E. done.
  - intros d d' k [= <- _] i. by rewrite (proj2 (key_used_factors _ _ _ _ _)).
  - intros d d' k [= <- _] i Hi. destruct (remove_key_factors id cred d) as [_ [->|[_ ->]]]; [done|]. pose proof (b2z_bounds (is_ id i)). lia.
Qed.

(** The accessors that may take the last factor, or the secret, of account [id]. *)
Definition resets_factors (id : string) (o : AdminOp) : bool := match o with OpReset i _ true _ => is_ i id | _ => false end.
Definition replaces_totp (id : string) (o : AdminOp) : bool :=
  match o with
  | OpEnroll c => is_ (ec_admin_id c) id && not_null (ec_totp c)
  | OpRemoveTotp i => is_ i id
  | o => resets_factors id o
  end.
Lemma reset_keys_factors i id d : i ≠ id →
  credentials_of i (put_webauthn (filter (λ kv, wc_admin_id kv.2 ≠ id) (ad_webauthn d)) d) = credentials_of i d.
Proof.
  intros Hne. unfold credentials_of. cbn. eapply (count_filter (λ c, is_ (wc_admin_id c) i) (λ kv, wc_admin_id kv.2 ≠ id)).
  intros k x Hx%bool_decide_eq_true. cbn. congruence.
Qed.
Lemma update_other_same_factor i id p f : i ≠ id → closed (factor_kept i) (update_account id p f) ∧ closed (totp_kept i) (update_account id p f).
Proof.
  intros Hne. split; intros d d' n (Hw & Ho & _)%totp_of_update.
  - unfold factor_kept, factors. by rewrite (same_credentials i _ _ Hw), !has_totp_of, Ho.
  - intros enc l. rewrite Ho by done. intros ->. by exists l.
Qed.
Lemma not_is {A} `{EqDecision A} (x y : A) : is_ x y = false → y ≠ x.
Proof. unfold is_. rewrite bool_decide_eq_false. congruence. Qed.

Lemma ops_factor_kept id o : resets_factors id o = false → Forall (closed (factor_kept id)) (op_stmts o).
Proof.
  intros Hr. destruct (touches_factors o) eqn:Ht; [|apply untouched_factors in Ht; eapply closed_mono_all, Ht; apply same_factor_kept].
  destruct o; try done; cbn [op_stmts touches_factors resets_factors] in *; try (destruct mfa; [apply not_is in Hr|done]); split_stmts;
    auto 7 with factor_bounds factors typeclass_instances; try (by apply update_other_same_factor).
  1-4: apply update_factor_kept; intros ? [] _ _; left; by eexists.
  - apply (update_factor_kept id0 id (λ _, true)). intros d [] _ _. by right; left.
  - intros d d' k [= <- _]. unfold factor_kept, factors. by rewrite reset_keys_factors.
  - intros d d' k [= <- _]. unfold factor_kept, factors. by rewrite reset_keys_factors.
  - apply (update_factor_kept id0 id (λ _, true)). intros d [] _ _. left. by eexists.
  - apply update_factor_kept. intros d a Hc%Z.leb_le _. auto.
  - intros d d1 k [= <- _]. destruct (add_key_where c d) as [->|(d' & n & c' & Hc & E & ->)]; [done|]. by eapply new_key_kept, E.
  - intros d d' k [= <- _]. destruct (key_used_factors id0 cred count now d) as [Ht' Hc]. unfold factor_kept, factors.
    by rewrite !has_totp_of, Ht', Hc.
  - intros d d' k [= <- _]. destruct (remove_key_factors id0 cred d) as [Ht' [->|[Hf Hc]]]; [done|]. unfold factor_kept, factors in *.
    rewrite has_totp_of in Hf. rewrite !has_totp_of, Ht', Hc. unfold is_. case_bool_decide; subst; cbn [b2z]; lia.
Qed.
Lemma ops_totp_kept id o : replaces_totp id o = false → Forall (closed (totp_kept id)) (op_stmts o).
Proof.
  intros Hr. destruct (touches_factors o) eqn:Ht; [|apply untouched_factors in Ht; eapply closed_mono_all, Ht; apply same_totp_kept].
  destruct o; try done; cbn [op_stmts touches_factors replaces_totp resets_factors] in *; try (destruct mfa; [apply not_is in Hr|done]); split_stmts;
    cbn [not_null is_null negb] in *; rewrite ?andb_true_r in *; auto 7 with factor_bounds factors typeclass_instances;
    try (by apply update_other_same_factor); try (by apply closed_where; [apply _|apply update_other_same_factor; apply not_is]).
  - apply (update_totp_kept id0 id (λ _, true)). intros [] enc l _; cbn. intros Hl -> ->. apply Z.ltb_lt in Hl. eauto with lia.
  - intros d d' k [= <- _]. unfold totp_kept. eauto with lia.
  - intros d d' k [= <- _]. unfold totp_kept. eauto with lia.
  - apply (update_totp_kept id0 id (λ _, true)). intros [] e l _; cbn. intros [_ Hn]%andb_true_iff -> ->. done.
  - intros d d1 k [= <- _]. destruct (add_key_where c d) as [->|(d' & n & c' & Hc & E & ->)]; [done|]. by eapply new_key_kept, E.
  - intros d d' k [= <- _]. destruct (key_used_factors id0 cred count now d) as [Ht' Hc]. intros e l. rewrite Ht'. eauto with lia.
  - intros d d' k [= <- _]. destruct (remove_key_factors id0 cred d) as [Ht' _]. intros e l. rewrite Ht'. eauto with lia.
Qed.

Lemma advance_totp_step_false id step enc l d : totp_of id d = (Some enc, Some l) → step ≤ l → admin_advance_totp_step id step d = (d, Ok false).
Proof.
  unfold totp_of, admin_advance_totp_step, execute, update_account. destruct (ad_accounts d !! id) as [a|]; [|done]. intros [= _ ->] Hl.
  rewrite (proj2 (Z.ltb_ge _ _)) by done. done.
Qed.
Lemma advance_totp_step_true id step enc l d d' : totp_of id d = (Some enc, l) → admin_advance_totp_step id step d = (d', Ok true) →
  totp_of id d' = (Some enc, Some step).
Proof.
  unfold totp_of, admin_advance_totp_step, execute, update_account. destruct (ad_accounts d !! id) as [[]|]; [|done]. cbn. intros [= -> ->].
  destruct (match l with Some _ => _ | None => true end); [|done]. intros [= <-]. cbn. by rewrite lookup_insert_eq.
Qed.

(** C29: A TOTP code is accepted once.  After the code of [step] has been accepted for an account,
    no code of that or an earlier step is accepted for it, whatever calls were made in
    between, until the secret itself is removed, reset or enrolled anew. *)
Theorem totp_single_use id enc l step d d1 os step' :
  totp_of id d = (Some enc, l) →
  admin_advance_totp_step id step d = (d1, Ok true) →
  Forall (λ o, replaces_totp id o = false) os →
  step' ≤ step →
  admin_advance_totp_step id step' (run_ops os d1) = (run_ops os d1, Ok false).
Proof.
  intros Ht Ha Hos Hs. pose proof (advance_totp_step_true _ _ _ _ _ _ Ht Ha) as E.
  assert (totp_kept id d1 (run_ops os d1)) as Hk by (apply run_ops_closed; [apply _|]; eapply Forall_impl; [exact Hos|]; intros o; apply ops_totp_kept).
  destruct (Hk _ _ E) as (l' & E' & ?). eapply advance_totp_step_false; [exact E'|lia].
Qed.

(** An account that has a second factor keeps one, whatever calls are made, unless an
    administrator resets its factors: neither removal takes the last one.  And no history
    gives an account more than [MAX_WEBAUTHN_CREDENTIALS] security keys. *)
Theorem second_factors_bounded os d id :
  (Forall (λ o, resets_factors id o = false) os → 1 ≤ factors id d → 1 ≤ factors id (run_ops os d)) ∧
  (credentials_of id d ≤ MAX_WEBAUTHN_CREDENTIALS → credentials_of id (run_ops os d) ≤ MAX_WEBAUTHN_CREDENTIALS).
Proof.
  split.
  - intros Hos. apply (run_ops_closed (factor_kept id)). eapply Forall_impl; [exact Hos|]. intros o. apply ops_factor_kept.
  - apply (run_ops_closed capped). apply Forall_true. apply ops_capped.
Qed.
