(* ===== verification/AdminGuard.v ===== *)
(** The last account administrator over histories of accessor calls: as long as every call
    that disables an active account administrator, or takes the group away from one, asks
    for the guard, one is left. *)
From S2P Require Import Prelude AppModel AppDedup AppSchema Order AdminStore AdminStoreProofs AdminFactors.
Open Scope Z_scope.

Abbreviation ACCOUNT_ADMINS := "ferrogate-account-admins".

Lemma eq_null_Some {A} `{EqDecision A} (x : option A) y : eq_null x (Some y) = true ↔ x = Some y.
Proof.
  unfold eq_null. destruct x as [x|]; [|split; congruence]. split; [by intros ->%bool_decide_eq_true|].
  intros [= ->]. by apply bool_decide_eq_true.
Qed.
Lemma is_eq {A} `{EqDecision A} (x y : A) : is_ x y = true → x = y.
Proof. apply bool_decide_eq_true. Qed.
Lemma is_refl {A} `{EqDecision A} (x : A) : is_ x x = true.
Proof. by apply bool_decide_eq_true. Qed.
Lemma member_of_true id name d : member_of id name d = true ↔ ∃ g m, ad_members d !! (id, g) = Some m ∧ ad_groups d !! g = Some name.
Proof.
  unfold member_of. rewrite existsb_exists. split.
  - intros ([[i g] m] & Hin & [Hi%is_eq Hg%eq_null_Some]%andb_true_iff). apply list_elem_of_In, elem_of_map_to_list in Hin. cbn [fst snd] in *. subst. by exists g, m.
  - intros (g & m & Hm & Hg). exists ((id, g), m). rewrite <- list_elem_of_In, elem_of_map_to_list. split; [done|]. cbn.
    apply andb_true_iff. rewrite is_refl, eq_null_Some. done.
Qed.
Lemma active_admin_true id d : active_account_admin id d = true ↔
  ∃ a g m, ad_accounts d !! id = Some a ∧ aa_state a = ACCOUNT_ACTIVE ∧ ad_members d !! (id, g) = Some m ∧ ad_groups d !! g = Some ACCOUNT_ADMINS.
Proof.
  unfold active_account_admin. destruct (ad_accounts d !! id) as [a|]; [|by split; [|intros (a & ? & ? & ? & _)]].
  rewrite andb_true_iff, Z.eqb_eq, member_of_true. split; [intros (? & g & m & ? & ?); by exists a, g, m|].
  intros (a' & g & m & [= <-] & ? & ? & ?). eauto.
Qed.
Lemma other_admin_true id d : other_admin true id d = true → ∃ i, i ≠ id ∧ active_account_admin i d = true.
Proof.
  unfold other_admin. cbn [negb orb]. rewrite existsb_exists. intros (i & _ & [Hi Ha]%andb_true_iff). exists i. split; [|done].
  intros ->. unfold is_ in Hi. by rewrite bool_decide_true in Hi.
Qed.

(** ** Statements that take the role from no one but [x] *)
Definition admins_grow (x : option string) (d d' : AdminDb) : Prop :=
  ∀ i, Some i ≠ x → active_account_admin i d = true → active_account_admin i d' = true.
#[export] Instance admins_grow_order x : PreOrder (admins_grow x).
Proof. split; [intros d i _ H; exact H|]. intros d1 d2 d3 H1 H2 i Hi H. by apply H2, H1. Qed.

Lemma same_admins x d d' : ad_accounts d' = ad_accounts d → ad_members d' = ad_members d → ad_groups d' = ad_groups d → admins_grow x d d'.
Proof. intros Ha Hm Hg i _. rewrite !active_admin_true. by rewrite Ha, Hm, Hg. Qed.
Lemma update_admins_grow x id p f : (∀ a, aa_state (f a) = aa_state a ∨ aa_state (f a) = ACCOUNT_ACTIVE) ∨ x = Some id →
  closed (admins_grow x) (update_account id p f).
Proof.
  intros Hf d d' n. unfold update_account. destruct (ad_accounts d !! id) as [a|] eqn:E; [|by intros [= <- _]].
  destruct (p a); intros [= <- _]; [|done]. intros i Hi (a' & g & m & Ha & Hs & Hm & Hg)%active_admin_true. apply active_admin_true. cbn.
  destruct (decide (i = id)) as [->|]; [|exists a', g, m; by rewrite lookup_insert_ne]. destruct Hf as [Hf|]; [|congruence].
  exists (f a), g, m. rewrite lookup_insert_eq. destruct (Hf a); split_and!; congruence.
Qed.
Lemma insert_account_grow x a : closed (admins_grow x) (insert_account a).
Proof.
  intros d d' n. unfold insert_account. destruct (not_null _) eqn:E; [done|]. destruct (exists_row _ _); [done|]. intros [= <- _].
  apply not_null_false in E. intros i Hi (a' & g & m & Ha & ?)%active_admin_true. apply active_admin_true. exists a', g, m. cbn.
  rewrite lookup_insert_ne; [done|]. intros <-. congruence.
Qed.
Lemma insert_memberships_keep id gs r d d' n : insert_memberships id gs r d = Ok (d', n) →
  ad_accounts d' = ad_accounts d ∧ ad_groups d' = ad_groups d ∧ ad_members d ⊆ ad_members d' ∧ ∀ g, g ∈ gs → is_Some (ad_members d' !! (id, g)).
Proof.
  revert d n. induction gs as [|g gs IH]; intros d n; cbn [insert_memberships]; [intros [= <- _]; split_and!; auto; by intros g ?%not_elem_of_nil|].
  destruct (not_null _) eqn:En; [done|]. apply not_null_false in En. destruct (insert_memberships id gs r _) as [[d1 k]|] eqn:E; [|done].
  intros [= <- _]. apply IH in E as (Ha & Hg & Hm & Hin). split_and!; [done..| |].
  - etransitivity; [|exact Hm]. by apply insert_subseteq.
  - intros g' [->|Hg']%elem_of_cons; [|auto]. exists r. eapply lookup_weaken, Hm. apply lookup_insert_eq.
Qed.
Lemma insert_member_grow x id g b t : closed (admins_grow x) (insert_member id g b t).
Proof.
  intros d d' n (Ha & Hg & Hm & _)%insert_memberships_keep i _. rewrite !active_admin_true, Ha, Hg.
  intros (a & g' & m & ? & ? & ? & ?). exists a, g', m. split_and!; try done. by eapply lookup_weaken.
Qed.
Lemma delete_members_grow id : closed (admins_grow (Some id)) (delete_members id).
Proof.
  intros d d' n. unfold delete_members. intros [= <- _] i Hi. rewrite !active_admin_true. cbn. intros (a & g & m & ? & ? & Hm & ?).
  exists a, g, m. split_and!; try done. apply map_lookup_filter_Some. split; [done|]. cbn. congruence.
Qed.
Lemma frame_grow x (s : stmt) :
  (∀ d d' n, s d = Ok (d', n) → ad_accounts d' = ad_accounts d ∧ ad_members d' = ad_members d ∧ ad_groups d' = ad_groups d) → closed (admins_grow x) s.
Proof. intros Hs d d' n (? & ? & ?)%Hs. by apply same_admins. Qed.

Ltac frame_db := apply frame_grow; intros ? ? ? E;
  unfold insert_history, insert_webauthn, insert_token_stmt, redeem_stmt, supersede_stmt, where_, direct, admin_add_webauthn_credential, admin_webauthn_used,
    admin_remove_webauthn_credential, admin_insert_session, admin_touch_session, admin_revoke_session, update_session, admin_rotate_session,
    stepup_failed_stmt, admin_set_pending_secret, set_once_stmt, unit_of in E; repeat (case_match; simplify_eq/=); simplify_eq/=; done.
Create HintDb admins.
#[export] Hint Resolve closed_where insert_account_grow insert_member_grow delete_members_grow : admins.
#[export] Hint Extern 2 (closed (admins_grow _) (update_account _ _ _)) => apply update_admins_grow; left; intros []; cbn; first [by left|by right] : admins.
#[export] Hint Extern 3 (closed (admins_grow (Some ?i)) (update_account ?i _ _)) => apply update_admins_grow; by right : admins.
#[export] Hint Extern 4 (closed (admins_grow _) _) => frame_db : admins.

(** The account whose role an accessor may take. *)
Definition demotes (o : AdminOp) : option string :=
  match o with OpSetState id _ _ _ _ _ => Some id | OpUpdate id _ (Some _) _ _ _ _ => Some id | _ => None end.
Lemma insert_webauthn_grow x c p : closed (admins_grow x) (where_ p (insert_webauthn c)).
Proof. auto with admins typeclass_instances. Qed.
Lemma ops_grow o : Forall (closed (admins_grow (demotes o))) (op_stmts o).
Proof.
  destruct o; cbn [op_stmts demotes]; split_stmts; auto 6 with admins typeclass_instances.
  intros d d1 k [= <- _]. destruct (add_key_where c d) as [->|(d' & n & c' & _ & E & ->)]; [done|]. by eapply insert_webauthn_grow, E.
Qed.
Lemma run_op_grow o d : admins_grow (demotes o) d (run_op o d).
Proof. apply run_op_closed; [apply _|apply ops_grow]. Qed.

(** ** Guarded calls *)
Definition has_account_admin (d : AdminDb) : Prop := ∃ i, active_account_admin i d = true.
(** A call that may take the role from an active account administrator without asking for
    the guard. *)
Definition unguarded (o : AdminOp) (d : AdminDb) : bool :=
  match o with
  | OpSetState id s _ _ _ need => negb need && negb (s =? ACCOUNT_ACTIVE) && active_account_admin id d
  | OpUpdate id _ (Some gs) _ _ _ need => negb need && negb (bool_decide (ACCOUNT_ADMINS ∈ gs)) && active_account_admin id d
  | _ => false
  end.
Fixpoint guarded (os : list AdminOp) (d : AdminDb) : bool :=
  match os with [] => true | o :: os => negb (unguarded o d) && guarded os (run_op o d) end.

Lemma admin_of_other x d d' : admins_grow x d d' → (∃ i, Some i ≠ x ∧ active_account_admin i d = true) → has_account_admin d'.
Proof. intros Hg (i & Hi & Ha). exists i. by apply Hg. Qed.
Lemma txn_loop_where g ss d : Forall (λ s, ∃ s', s = where_ g s') ss → g d = false → ∃ ns, txn_loop ss d = Ok (d, ns).
Proof.
  intros Hss Hg. induction Hss as [|s ss (s' & ->) _ IH]; cbn [txn_loop]; [by exists []|]. unfold where_ at 1. rewrite Hg.
  destruct IH as (ns & ->). by exists (0 :: ns).
Qed.
Lemma txn_loop_app A B d d' ns : txn_loop (A ++ B) d = Ok (d', ns) → ∃ d1 ms ks, txn_loop A d = Ok (d1, ms) ∧ txn_loop B d1 = Ok (d', ks).
Proof.
  revert d ns. induction A as [|s A IH]; intros d ns; cbn [app txn_loop]; [intros E; by eexists _, _, _|].
  destruct (s d) as [[d1 n]|]; [|done]. destruct (txn_loop (A ++ B) d1) as [[d2 ms]|] eqn:E; [|done]. intros [= <- _].
  destruct (IH _ _ E) as (d3 & ms' & ks & -> & EB). by eexists _, _, _.
Qed.

(** [admin_set_account_state]. *)
Lemma set_state_guarded id s b now e need d : unguarded (OpSetState id s b now e need) d = false → has_account_admin d →
  has_account_admin (run_op (OpSetState id s b now e need) d).
Proof.
  cbn [unguarded]. intros Hu (i & Hi). pose proof (run_op_grow (OpSetState id s b now e need) d) as Hgrow. cbn [demotes] in Hgrow.
  destruct (active_account_admin id d) eqn:Hid.
  2: { eapply admin_of_other; [exact Hgrow|]. exists i. split; [|done]. intros [= ->]. congruence. }
  rewrite andb_true_r in Hu. destruct (other_admin need id d) eqn:Ho.
  - destruct need; [apply other_admin_true in Ho as (j & Hj & Ha); eapply admin_of_other; [exact Hgrow|]; exists j; split; [congruence|done]|].
    cbn [negb andb] in Hu. apply negb_false_iff, Z.eqb_eq in Hu as ->. exists i. revert Hi.
    assert (admins_grow None d (run_op (OpSetState id ACCOUNT_ACTIVE b now e false) d)) as H; [|by apply H].
    apply (run_op_closed (admins_grow None)). cbn [op_stmts]. split_stmts; auto 6 with admins typeclass_instances.
  - exists i. cbn [run_op]. unfold set_account_state_txn. destruct (if s =? ACCOUNT_DISABLED then _ else _) as [at_ by0]. unfold txn. cbn [txn_loop].
    unfold where_ at 1. rewrite Ho. cbn [fst snd]. unfold where_, supersede_stmt.
    destruct (match ad_accounts d !! id with Some _ => _ | None => _ end); cbn; [|exact Hi]. by eapply (same_admins None).
Qed.

(** [admin_update_account] with a set of groups that keeps the role: while the statements
    before the version bump run, the account stays active at its version. *)
Section KeepsRole.
Context (id : string) (v : Z) (g : string).
Definition at_work (d : AdminDb) : Prop :=
  (∃ a, ad_accounts d !! id = Some a ∧ aa_state a = ACCOUNT_ACTIVE ∧ aa_row_version a = v) ∧ ad_groups d !! g = Some ACCOUNT_ADMINS.
Definition granted (d : AdminDb) : Prop := at_work d ∧ is_Some (ad_members d !! (id, g)).
Definition kept (P : AdminDb → Prop) (d d' : AdminDb) : Prop := P d → P d'.
#[export] Instance kept_order P : PreOrder (kept P).
Proof. split; [by intros d H|]. intros d1 d2 d3 H1 H2 H. auto. Qed.

Lemma at_work_frame d d' : ad_accounts d' = ad_accounts d → ad_groups d' = ad_groups d → at_work d → at_work d'.
Proof. unfold at_work. by intros -> ->. Qed.
Lemma display_at_work q name : closed (kept at_work) (where_ q (update_account id (λ _, true) (set_display name))).
Proof.
  apply closed_where; [apply _|]. intros d d' n. unfold update_account. destruct (ad_accounts d !! id) as [a|] eqn:E; [|by intros [= <- _]].
  intros [= <- _] [(a' & Ea & ?) Hg]. rewrite E in Ea. injection Ea as <-. split; [|done]. exists (set_display name a). cbn.
  rewrite lookup_insert_eq. split; [done|]. by destruct a.
Qed.
Lemma delete_at_work q : closed (kept at_work) (where_ q (delete_members id)).
Proof. apply closed_where; [apply _|]. intros d d' n [= <- _] H. by apply (at_work_frame d). Qed.
Lemma insert_at_work q h b t : closed (kept at_work) (where_ q (insert_member id h b t)) ∧ closed (kept granted) (where_ q (insert_member id h b t)).
Proof.
  split; (apply closed_where; [apply _|]); intros d d' n (Ha & Hg & Hm & _)%insert_memberships_keep.
  - intros H. by apply (at_work_frame d).
  - intros [Hw [m Hin]]. split; [by eapply at_work_frame|]. exists m. by eapply lookup_weaken.
Qed.
Lemma insert_grants b t d d' n : at_work d →
  where_ (λ d, at_version id v d && other_admin false id d) (insert_member id ACCOUNT_ADMINS b t) d = Ok (d', n) → granted d'.
Proof.
  intros Hw. unfold where_. pose proof Hw as [(a & Ea & Hs & Hv) Hg]. unfold at_version at 1. rewrite Ea, Hv, Z.eqb_refl. cbn [other_admin negb orb andb].
  intros (Ha & Hg' & _ & Hin)%insert_memberships_keep. split; [by eapply at_work_frame|]. apply Hin.
  unfold groups_named. apply list_elem_of_fmap. exists (g, ACCOUNT_ADMINS). split; [done|]. apply list_elem_of_In, filter_In.
  rewrite <- list_elem_of_In, elem_of_map_to_list. split; [done|]. apply is_refl.
Qed.
Lemma bump_active q d d' n : granted d → where_ q (update_account id (λ _, true) bump) d = Ok (d', n) → active_account_admin id d' = true.
Proof.
  intros [[(a & Ea & Hs & _) Hg] [m Hm]]. assert (active_account_admin id d = true) by (apply active_admin_true; by exists a, g, m).
  assert (closed (admins_grow None) (where_ q (update_account id (λ _, true) bump))) as Hc by auto with admins typeclass_instances.
  intros E. by apply (Hc _ _ _ E).
Qed.
End KeepsRole.

Lemma update_guarded id dn gs b now e need d : unguarded (OpUpdate id dn (Some gs) b now e need) d = false → has_account_admin d →
  has_account_admin (run_op (OpUpdate id dn (Some gs) b now e need) d).
Proof.
  cbn [unguarded]. intros Hu (i & Hi). pose proof (run_op_grow (OpUpdate id dn (Some gs) b now e need) d) as Hgrow. cbn [demotes] in Hgrow.
  destruct (active_account_admin id d) eqn:Hid.
  2: { eapply admin_of_other; [exact Hgrow|]. exists i. split; [|done]. intros [= ->]. congruence. }
  rewrite andb_true_r in Hu. cbn [run_op] in *. unfold update_account_txn, txn in *.
  set (guard := λ d, at_version id e d && other_admin need id d) in *. destruct (guard d) eqn:Hgd.
  2: { exists i. match goal with |- context [txn_loop ?ss d] => destruct (txn_loop_where guard ss d) as (ns & ->); [|done|exact Hi] end.
       destruct dn; split_stmts; try (by eexists). all: apply Forall_fmap, Forall_true; by eexists. }
  apply andb_true_iff in Hgd as [Hv Ho]. destruct need.
  - apply other_admin_true in Ho as (j & Hj & Ha). eapply admin_of_other; [exact Hgrow|]. exists j. split; [congruence|done].
  - cbn [negb andb] in Hu. apply negb_false_iff, bool_decide_eq_true in Hu. exists id.
    destruct (txn_loop _ d) as [[d' ns]|] eqn:E; [|exact Hid]. cbn [fst]. clear Hgrow.
    apply active_admin_true in Hid as (a & g & m & Ea & Hs & Hm & Hg).
    assert (at_work id e g d) as Hw by (split; [exists a; unfold at_version in Hv; rewrite Ea in Hv; apply Z.eqb_eq in Hv|]; done).
    apply list_elem_of_split in Hu as (l1 & l2 & ->). rewrite fmap_app, fmap_cons in E.
    rewrite app_comm_cons, <- app_assoc, app_assoc in E. apply txn_loop_app in E as (d1 & ms & ks & E1 & E).
    assert (at_work id e g d1) as Hw1.
    { refine (closed_txn (kept (at_work id e g)) _ _ _ _ _ E1 Hw). destruct dn; split_stmts;
        auto using display_at_work, delete_at_work. all: apply insert_at_work. }
    cbn [txn_loop app] in E. destruct (where_ guard _ d1) as [[d2 n]|] eqn:E2; [|done]. apply (insert_grants _ _ g) in E2; [|done].
    destruct (txn_loop _ d2) as [[d3 k3]|] eqn:E3; [|done]. injection E as <- _. apply txn_loop_snoc in E3 as (d4 & ? & ? & E4 & E5 & _).
    eapply (bump_active id e g), E5. refine (closed_txn (kept (granted id e g)) _ _ _ _ _ E4 E2). apply closed_fmap. intros. apply insert_at_work.
Qed.
Lemma op_guarded o d : unguarded o d = false → has_account_admin d → has_account_admin (run_op o d).
Proof.
  intros Hu Ha. destruct (demotes o) as [x|] eqn:Ed.
  - destruct o; try done; [by apply set_state_guarded|]. destruct gs; [by apply update_guarded|done].
  - pose proof (run_op_grow o d) as Hg. rewrite Ed in Hg. destruct Ha as (i & Hi). exists i. by apply Hg.
Qed.

(** An account administrator is always left.  As long as each call that disables an active
    account administrator, or replaces its groups by a set without the role, asks for the
    guard of the replicated store, every history keeps an active account administrator. *)
Theorem account_admin_left os d : has_account_admin d → guarded os d = true → has_account_admin (run_ops os d).
Proof.
  revert d. induction os as [|o os IH]; intros d Ha; cbn [guarded]; [done|]. intros [Hu%negb_true_iff Hg]%andb_true_iff.
  apply (IH (run_op o d)); [by apply op_guarded|done].
Qed.
