(* ===== verification/AdminPolicy.v ===== *)
(** The pure decisions of administrator authentication in CMIS (crates/cmis/src/admin):
    session lifetimes and tokens (session.rs), progressive throttling (throttle.rs), time
    based codes (totp.rs), the permissions and the method table (authz.rs), and which second
    factors a session may use (factors.rs).

    A Rust [i64] is a [Z]; [sat_i64] is the result of the saturating operations. *)
From S2P Require Import Prelude AppModel AppDedup AppSchema Order AppPath AllowlistCompile AdminStore.
Open Scope Z_scope.

(** ** Sessions (session.rs) *)
Definition TOKEN_PREFIX : list u8 := as_bytes "fgas_".
Definition TOKEN_LEN : nat := length TOKEN_PREFIX + 43.
Definition MAX_IDLE_SECS : Z := 900.
Definition MAX_ABSOLUTE_SECS : Z := 12 * 3600.
Definition TOUCH_INTERVAL_SECS : Z := 60.
Definition MAX_SESSIONS_PER_ACCOUNT : nat := 5.
Definition MAX_STEP_UP_FAILURES : Z := 5.
Definition CLIENT_TUI : Z := 1.
Definition CLIENT_TRAY : Z := 2.
Definition CLIENT_CLI : Z := 3.

Inductive MfaMethod := Totp | WebAuthn.
#[export] Instance MfaMethod_eq_dec : EqDecision MfaMethod.
Proof. solve_decision. Defined.
Definition mfa_code (m : MfaMethod) : Z := match m with Totp => 1 | WebAuthn => 2 end.
Definition mfa_label (m : MfaMethod) : string := match m with Totp => "totp" | WebAuthn => "webauthn" end.
Definition mfa_aal (m : MfaMethod) : Z := match m with Totp => 2 | WebAuthn => 3 end.

Inductive RevokeReason :=
  | RrLogout | ByUser | ByAdmin | IpMismatch | RrIdle | RrAbsolute | Evicted | PasswordChanged | AccountDisabled
  | CredentialsReset | GroupsChanged | StepUpFailures | CertMismatch | AccountInactive | FactorRemoved.
Definition reason_code (r : RevokeReason) : Z :=
  match r with
  | RrLogout => 1 | ByUser => 2 | ByAdmin => 3 | IpMismatch => 4 | RrIdle => 5 | RrAbsolute => 6 | Evicted => 7
  | PasswordChanged => 8 | AccountDisabled => 9 | CredentialsReset => 10 | GroupsChanged => 11 | StepUpFailures => 12
  | CertMismatch => 13 | AccountInactive => 14 | FactorRemoved => 15
  end.
Definition reason_label (r : RevokeReason) : string :=
  match r with
  | RrLogout => "logout" | ByUser => "revoked_by_user" | ByAdmin => "revoked_by_admin" | IpMismatch => "ip_mismatch"
  | RrIdle => "idle_timeout" | RrAbsolute => "absolute_timeout" | Evicted => "evicted" | PasswordChanged => "password_changed"
  | AccountDisabled => "account_disabled" | CredentialsReset => "credentials_reset" | GroupsChanged => "groups_changed"
  | StepUpFailures => "step_up_failures" | CertMismatch => "client_cert_mismatch" | AccountInactive => "account_inactive"
  | FactorRemoved => "factor_removed"
  end.

Definition in_bytes (lo hi : Z) (b : u8) : bool := in_range lo hi (u8.to_Z b).
Definition is_ascii_digit (b : u8) : bool := in_bytes 48 57 b.
Definition is_ascii_lowercase (b : u8) : bool := in_bytes 97 122 b.
Definition is_ascii_alphanumeric (b : u8) : bool := is_ascii_digit b || in_bytes 65 90 b || is_ascii_lowercase b.
Definition is_byte (c : Z) (b : u8) : bool := u8.to_Z b =? c.

(** A header value that is not UTF-8, lacks the scheme or is not a token reads as no token. *)
Definition bearer_token (header : list u8) : option (list u8) :=
  _ ← utf8_decode header;
  token ← strip_prefix (as_bytes "Bearer ") header;
  if bool_decide (length token = TOKEN_LEN) && starts_with TOKEN_PREFIX token
     && forallb (λ b, is_ascii_alphanumeric b || is_byte 45 b || is_byte 95 b) (drop (length TOKEN_PREFIX) token)
  then Some token else None.

Inductive Liveness := Live | Revoked | Idle | Absolute.
#[export] Instance Liveness_eq_dec : EqDecision Liveness.
Proof. solve_decision. Defined.
Definition liveness (row : AdminSessionRow) (now : Z) : Liveness :=
  if not_null (ss_revoked_at row) then Revoked
  else if ss_absolute_expires_at row <=? now then Absolute
  else if ss_idle_timeout_secs row <? sat_i64 (now - ss_last_seen_at row) then Idle
  else Live.

(** ** Throttling (throttle.rs) *)
Definition RESET_AFTER_SECS : Z := 24 * 3600.
Inductive KeyKind := Ip | IpDevice | Account.
#[export] Instance KeyKind_eq_dec : EqDecision KeyKind.
Proof. solve_decision. Defined.
Definition key_label (k : KeyKind) : string := match k with Ip => "ip" | IpDevice => "ip_device" | Account => "account" end.
Definition key_code (k : KeyKind) : Z := match k with Ip => 1 | IpDevice => 2 | Account => 3 end.

(** The third threshold and the step between later hour-long locks, after the first two. *)
Definition thresholds (k : KeyKind) : Z * Z * Z * Z :=
  match k with Ip | IpDevice => (3, 5, 7, 2) | Account => (9, 15, 21, 6) end.
Definition lock_secs (k : KeyKind) (failures : Z) : Z :=
  let '(t1, t2, t3, step) := thresholds k in
  if failures =? t1 then 60
  else if failures =? t2 then 900
  else if (t3 <=? failures) && (Z.rem (failures - t3) step =? 0) then 3600
  else 0.
Definition register_failure (prev : option ThrottleRow) (h : list u8) (k : KeyKind) (now : Z) : ThrottleRow :=
  let live := r ← prev; if sat_i64 (now - th_last_failure_at r) <? RESET_AFTER_SECS then Some r else None in
  let failures := sat_i64 (from_option th_failures 0 live + 1) in
  let lock := lock_secs k failures in
  let previous_lock := from_option th_locked_until 0 live in
  {| th_key_hash := h; th_key_kind := key_code k; th_failures := failures;
     th_locked_until := if 0 <? lock then Z.max previous_lock (sat_i64 (now + lock)) else previous_lock;
     th_last_failure_at := now |}.
Definition locked_for (row : ThrottleRow) (now : Z) : option Z :=
  if now <? th_locked_until row then Some (th_locked_until row - now) else None.

(** ** Time-based codes (totp.rs) *)
Definition STEP_SECS : Z := 30.
Definition DIGITS : nat := 6.
Definition SECRET_LEN : nat := 20.
Definition SKEW_STEPS : Z := 1.
Definition step_at (now : Z) : Z := now / STEP_SECS.
(** [{:06}] of a number below a million. *)
Definition digit (z : Z) : u8 := u8.of_Z (48 + z).
Definition six_digits (n : Z) : list u8 :=
  (λ p, digit (n / p mod 10)) <$> [100000; 10000; 1000; 100; 10; 1].

Section Totp.
(** HMAC-SHA-1, 20 bytes, of a message under a key. *)
Context (hmac_sha1 : list u8 → list u8 → list u8).
Definition u64_be (z : Z) : list u8 := (λ k, u8.of_Z (Z.shiftr z (8 * k))) <$> [7; 6; 5; 4; 3; 2; 1; 0].
Definition byte_at (d : list u8) (i : nat) : Z := u8.to_Z (nth i d Byte.x00).
Definition code_at (secret : list u8) (step : Z) : list u8 :=
  let digest := hmac_sha1 secret (u64_be (if 0 <=? step then step else 0)) in
  let offset := Z.to_nat (Z.land (byte_at digest (length digest - 1)) 15) in
  let binary := Z.lor (Z.lor (Z.lor (Z.shiftl (Z.land (byte_at digest offset) 127) 24) (Z.shiftl (byte_at digest (offset + 1)) 16))
                  (Z.shiftl (byte_at digest (offset + 2)) 8)) (byte_at digest (offset + 3)) in
  six_digits (binary mod 1000000).
(** Every candidate is compared; the last one that matches counts. *)
Definition totp_verify (secret code : list u8) (now : Z) (last_step : option Z) : option Z :=
  if negb (bool_decide (length code = DIGITS)) || negb (forallb is_ascii_digit code) then None else
  let current := step_at now in
  let matched := foldl (λ m step, if bool_decide (code_at secret step = code) then Some step else m) None
    (seqZ (current - SKEW_STEPS) (2 * SKEW_STEPS + 1)) in
  step ← matched;
  if match last_step with None => true | Some last => last <? step end then Some step else None.
End Totp.

(** ** Permissions and methods (authz.rs) *)
Inductive Permission :=
  | AppRequestList | AppRequestRead | ApprovalList | ApprovalRead | HostList | AppRequestApprove | AppRequestDeny
  | ApprovalUpdate | ApprovalRevoke | AppDirectRegister | AccountList | AccountCreate | AccountUpdate | AccountDisable
  | AccountReset | SessionRevokeAny | LegacyAllowlistRead | LegacyAllowlistWrite | SvidList | SvidRevoke | PolicyEpochBump
  | SettingsAllowlistMode | AllowlistImport.
#[export] Instance Permission_eq_dec : EqDecision Permission.
Proof. solve_decision. Defined.
Definition ALL_PERMISSIONS : list Permission :=
  [AppRequestList; AppRequestRead; ApprovalList; ApprovalRead; HostList; AppRequestApprove; AppRequestDeny; ApprovalUpdate;
   ApprovalRevoke; AppDirectRegister; AccountList; AccountCreate; AccountUpdate; AccountDisable; AccountReset; SessionRevokeAny;
   LegacyAllowlistRead; LegacyAllowlistWrite; SvidList; SvidRevoke; PolicyEpochBump; SettingsAllowlistMode; AllowlistImport].
Definition permission_str (p : Permission) : string :=
  match p with
  | AppRequestList => "app_request.list" | AppRequestRead => "app_request.read" | ApprovalList => "approval.list"
  | ApprovalRead => "approval.read" | HostList => "host.list" | AppRequestApprove => "app_request.approve"
  | AppRequestDeny => "app_request.deny" | ApprovalUpdate => "approval.update" | ApprovalRevoke => "approval.revoke"
  | AppDirectRegister => "app.direct_register" | AccountList => "account.list" | AccountCreate => "account.create"
  | AccountUpdate => "account.update" | AccountDisable => "account.disable" | AccountReset => "account.reset"
  | SessionRevokeAny => "session.revoke_any" | LegacyAllowlistRead => "legacy.allowlist.read"
  | LegacyAllowlistWrite => "legacy.allowlist.write" | SvidList => "svid.list" | SvidRevoke => "svid.revoke"
  | PolicyEpochBump => "policy.epoch_bump" | SettingsAllowlistMode => "settings.allowlist_mode"
  | AllowlistImport => "allowlist.import"
  end.
Definition permission_parse (s : string) : option Permission := List.find (λ p, is_ (permission_str p) s) ALL_PERMISSIONS.

Definition VIEWERS : string := "ferrogate-viewers".
Definition APPROVERS : string := "ferrogate-approvers".
Definition ACCOUNT_ADMINS : string := "ferrogate-account-admins".
Definition PLATFORM_OPERATORS : string := "ferrogate-platform-operators".
Definition ALL_GROUPS : list string := [VIEWERS; APPROVERS; ACCOUNT_ADMINS; PLATFORM_OPERATORS].

Record SessionRule := {
  sr_permission : option Permission; sr_step_up : bool; sr_allow_restricted : bool; sr_allow_factor_enrollment : bool }.
Inductive Access := Public | Host | AdminPublic | Session (r : SessionRule).
Definition session (p : option Permission) (step_up restricted enrollment : bool) : Access :=
  Session {| sr_permission := p; sr_step_up := step_up; sr_allow_restricted := restricted; sr_allow_factor_enrollment := enrollment |}.

Definition ADMIN_PREFIX : string := "/ferrogate.admin.v1.Admin/".
Definition mi (m : string) : string := String.append "/ferrogate.v1.MachineIdentity/" m.
Definition adm (m : string) : string := String.append ADMIN_PREFIX m.
Definition METHOD_ACCESS : list (string * Access) :=
  ((λ m, (mi m, Public)) <$> ["Attest"; "FetchSVID"; "JWKS"; "GetEnrollmentKey"; "GetAllowlist"; "Health"; "LatestSth"; "InclusionProof"; "ConsistencyProof"])
  ++ ((λ m, (mi m, Host)) <$> ["ProposeAllowlist"; "AppendAuditEvent"; "SubmitAppRequest"; "GetAppRequestStatus"; "SyncAllowlist"; "Rotate"])
  ++ [(mi "ListAllowlists", session (Some LegacyAllowlistRead) false false false);
      (mi "ListProposals", session (Some LegacyAllowlistRead) false false false);
      (mi "ListSvids", session (Some SvidList) false false false);
      (mi "SetAllowlist", session (Some LegacyAllowlistWrite) true false false);
      (mi "DeleteAllowlist", session (Some LegacyAllowlistWrite) true false false);
      (mi "DeleteProposal", session (Some LegacyAllowlistWrite) true false false);
      (mi "RevokeSvid", session (Some SvidRevoke) true false false);
      (mi "RevokeHost", session (Some SvidRevoke) true false false);
      (mi "UnrevokeHost", session (Some SvidRevoke) true false false);
      (mi "BumpEpoch", session (Some PolicyEpochBump) true false false)]
  ++ ((λ m, (adm m, AdminPublic)) <$> ["BeginLogin"; "Login"; "BeginEnrollment"; "CompleteEnrollment"])
  ++ [(adm "WhoAmI", session None false true true);
      (adm "Logout", session None false true true);
      (adm "ChangePassword", session None false true true);
      (adm "ListMySessions", session None false false false);
      (adm "RevokeSession", session None false false false);
      (adm "BeginStepUp", session None false true true);
      (adm "StepUp", session None false false false);
      (adm "ListMyFactors", session None false false true);
      (adm "BeginAddFactor", session None true false true);
      (adm "CompleteAddFactor", session None false false true);
      (adm "RemoveFactor", session None false false false);
      (adm "ListAdminAccounts", session (Some AccountList) false false false);
      (adm "ListAdminGroups", session (Some AccountList) false false false);
      (adm "CreateAdminAccount", session (Some AccountCreate) false false false);
      (adm "UpdateAdminAccount", session (Some AccountUpdate) false false false);
      (adm "SetAdminAccountState", session (Some AccountDisable) false false false);
      (adm "ResetAdminCredentials", session (Some AccountReset) false false false);
      (adm "ListAppRequests", session (Some AppRequestList) false false false);
      (adm "GetAppRequest", session (Some AppRequestRead) false false false);
      (adm "ListApprovals", session (Some ApprovalList) false false false);
      (adm "GetApproval", session (Some ApprovalRead) false false false);
      (adm "ApproveAppRequest", session (Some AppRequestApprove) true false false);
      (adm "DenyAppRequest", session (Some AppRequestDeny) true false false);
      (adm "UpdateApproval", session (Some ApprovalUpdate) true false false);
      (adm "SetLineageAutoUpdateFrozen", session (Some ApprovalUpdate) true false false);
      (adm "RevokeApproval", session (Some ApprovalRevoke) true false false);
      (adm "AdminRegisterApplication", session (Some AppDirectRegister) false false false);
      (adm "GetAllowlistMode", session None false false false);
      (adm "SetAllowlistMode", session (Some SettingsAllowlistMode) true false false);
      (adm "ImportLegacyAllowlists", session (Some AllowlistImport) true false false)].
Definition access_for (path : string) : option Access := snd <$> List.find (λ pa, is_ (fst pa) path) METHOD_ACCESS.

(** ** Configuration and second factors (config.rs, factors.rs) *)
Record AdminConfig := {
  cfg_legacy_admin_on_main : bool; cfg_strict_sod : bool; cfg_step_up_window_secs : Z; cfg_session_bind_ip : bool;
  cfg_idle_timeout_secs : Z; cfg_absolute_lifetime_secs : Z; cfg_trust_domain : string; cfg_tray_fido2_groups : list string }.
Record FactorPolicy := { fp_totp : bool; fp_webauthn : bool; fp_enrollment_required : bool }.
Definition fido2_required (c : AdminConfig) (client_kind : Z) (groups : list string) : bool :=
  (client_kind =? CLIENT_TRAY) && existsb (λ g, existsb (λ p, is_ p g) (cfg_tray_fido2_groups c)) groups.
Definition factor_policy (c : AdminConfig) (client_kind : Z) (groups : list string) (has_totp has_keys : bool) : FactorPolicy :=
  let bound := fido2_required c client_kind groups in
  {| fp_totp := has_totp && negb (bound && has_keys); fp_webauthn := (client_kind =? CLIENT_TRAY) && has_keys;
     fp_enrollment_required := bound && negb has_keys |}.
Definition password_expired (a : AdminAccountRow) (now : Z) : bool :=
  match aa_password_expires_at a with Some e => e <=? now | None => false end.

(** The effect of one failure on a counter: the increment, then the lock it calls for. *)
Definition after_failure (k : KeyKind) (h : list u8) (now : Z) (row : option ThrottleRow) : ThrottleRow :=
  let r := incremented row h (key_code k) now RESET_AFTER_SECS in
  let lock := lock_secs k (th_failures r) in
  if 0 <? lock then locked_to (sat_i64 (now + lock)) r else r.
