(* ===== verification/AdminPolicyProofs.v ===== *)
(** Properties of the pure decisions of administrator authentication. *)
From S2P Require Import Prelude AppModel AppDedup AppSchema Order AppPath AllowlistCompile AdminStore AdminStoreProofs AdminGuard AdminPolicy.
Open Scope Z_scope.

Lemma sat_i64_small z : - 2 ^ 63 ≤ z < 2 ^ 63 → sat_i64 z = z.
Proof. unfold sat_i64. lia. Qed.

(** ** Throttling *)

(** What a stored counter satisfies: its time and its count are far from the width. *)
Definition throttle_ok (k : KeyKind) (h : list u8) (now : Z) (r : ThrottleRow) : Prop :=
  th_key_hash r = h ∧ th_key_kind r = key_code k ∧ 0 ≤ th_failures r < 2 ^ 62 ∧ 0 ≤ th_last_failure_at r < 2 ^ 62.
Lemma lock_secs_bounds k n : 0 ≤ lock_secs k n ≤ 3600.
Proof. unfold lock_secs. destruct (thresholds k) as [[[??]?]?]. repeat case_match; lia. Qed.
Lemma after_failure_registered k h now row : 0 ≤ now < 2 ^ 62 → (∀ r, row = Some r → throttle_ok k h now r) →
  after_failure k h now row = register_failure row h k now.
Proof.
  intros Hnow Hrow. unfold after_failure, register_failure, incremented. destruct row as [r|]; cbn [mbind option_bind from_option].
  - destruct (Hrow r eq_refl) as (Hh & Hk & Hf & Hl). rewrite (sat_i64_small (now - th_last_failure_at r)) by lia.
    replace (now - th_last_failure_at r <? RESET_AFTER_SECS) with (negb (th_last_failure_at r <=? now - RESET_AFTER_SECS))
      by (destruct (Z.leb_spec (th_last_failure_at r) (now - RESET_AFTER_SECS)), (Z.ltb_spec (now - th_last_failure_at r) RESET_AFTER_SECS); first [done|exfalso; lia]).
    pose proof (lock_secs_bounds k 1). pose proof (lock_secs_bounds k (th_failures r + 1)).
    destruct (th_last_failure_at r <=? now - RESET_AFTER_SECS); cbn [negb from_option th_failures].
    + change (sat_i64 (0 + 1)) with 1. destruct (0 <? lock_secs k 1); unfold locked_to; cbn; by rewrite ?Hk.
    + rewrite (sat_i64_small (th_failures r + 1)) by lia. destruct (0 <? lock_secs k _); unfold locked_to; cbn; by rewrite ?Hk.
  - change (sat_i64 (0 + 1)) with 1. cbn [th_failures]. by destruct (0 <? lock_secs k 1).
Qed.

(** Attempts at the times [ts], each refused while the key is locked and failing otherwise. *)
Fixpoint admitted (k : KeyKind) (h : list u8) (row : option ThrottleRow) (ts : list Z) : bool :=
  match ts with
  | [] => true
  | t :: ts =>
      match row with Some r => is_null (locked_for r t) | None => true end
      && admitted k h (Some (after_failure k h t row)) ts
  end.
Definition third (k : KeyKind) : Z := let '(_, _, t3, _) := thresholds k in t3.
(** Failures left until the next hour-long lock. *)
Definition until_lock (k : KeyKind) (c : Z) : Z :=
  let '(_, _, t3, step) := thresholds k in if c <=? t3 then t3 - c else (t3 - c) mod step.

Lemma until_lock_bounds k c : 1 ≤ c → 0 ≤ until_lock k c < third k.
Proof.
  intros Hc. unfold until_lock, third. destruct k; cbn [thresholds]; destruct (Z.leb_spec c 7); destruct (Z.leb_spec c 21); 
  pose proof (Z.mod_pos_bound (7 - c) 2 ltac:(lia)); pose proof (Z.mod_pos_bound (21 - c) 6 ltac:(lia)); lia.
Qed.
Lemma until_lock_step k c : 1 ≤ c → until_lock k c ≠ 0 → until_lock k (c + 1) = until_lock k c - 1.
Proof.
  intros Hc. unfold until_lock. destruct k; cbn [thresholds]; destruct (Z.leb_spec c 7); destruct (Z.leb_spec (c + 1) 7);
    destruct (Z.leb_spec c 21); destruct (Z.leb_spec (c + 1) 21); intros Hne; try lia;
    pose proof (Z.div_mod (7 - c) 2); pose proof (Z.div_mod (7 - (c + 1)) 2);
    pose proof (Z.mod_pos_bound (7 - c) 2); pose proof (Z.mod_pos_bound (7 - (c + 1)) 2);
    pose proof (Z.div_mod (21 - c) 6); pose proof (Z.div_mod (21 - (c + 1)) 6);
    pose proof (Z.mod_pos_bound (21 - c) 6); pose proof (Z.mod_pos_bound (21 - (c + 1)) 6); lia.
Qed.
Lemma rem_of_mod t c step : 0 < step → t ≤ c → (t - c) mod step = 0 → Z.rem (c - t) step = 0.
Proof.
  intros Hs Hc H. rewrite Z.rem_mod_nonneg by lia. apply Z.mod_divide in H as [q Hq]; [|lia]. apply Z.mod_divide; [lia|]. exists (- q). lia.
Qed.
Lemma lock_of_until k c : 1 ≤ c → until_lock k c = 0 → lock_secs k c = 3600.
Proof.
  unfold until_lock, lock_secs. intros Hc. destruct k; cbn [thresholds]; case_match eqn:E; intros Hu; apply Z.leb_le in E || apply Z.leb_gt in E.
  all: try (assert (c = 7) as -> by lia; done); try (assert (c = 21) as -> by lia; done).
  all: rewrite !(proj2 (Z.eqb_neq _ _)), (rem_of_mod _ c) by lia || done; rewrite (proj2 (Z.leb_le _ _)) by lia; done.
Qed.

Section Hour.
Context (k : KeyKind) (h : list u8) (t0 : Z) (Ht0 : 0 ≤ t0 < 2 ^ 61).
Let inside (t : Z) : Prop := t0 ≤ t < t0 + 3600.

Lemma after_failure_inside r t : inside t → inside (th_last_failure_at r) →
  th_failures (after_failure k h t (Some r)) = th_failures r + 1 ∧ th_last_failure_at (after_failure k h t (Some r)) = t ∧
  (lock_secs k (th_failures r + 1) = 3600 → t0 + 3600 ≤ th_locked_until (after_failure k h t (Some r))).
Proof.
  unfold inside. intros Ht Hl. unfold after_failure, incremented.
  rewrite (proj2 (Z.leb_gt _ _)) by (unfold RESET_AFTER_SECS; lia). cbn [th_failures].
  pose proof (lock_secs_bounds k (th_failures r + 1)) as Hb.
  destruct (0 <? lock_secs k _) eqn:E; cbn; split_and!; try done; intros E'; rewrite E' in *; [|done]. rewrite sat_i64_small by lia. lia.
Qed.
Lemma hour_rest ts r : Forall inside ts → inside (th_last_failure_at r) → 1 ≤ th_failures r →
  (until_lock k (th_failures r) = 0 → t0 + 3600 ≤ th_locked_until r) →
  admitted k h (Some r) ts = true → Z.of_nat (length ts) ≤ until_lock k (th_failures r).
Proof.
  intros Hts. revert r. induction Hts as [|t ts Ht _ IH]; intros r Hl Hf Hlock; cbn [admitted length].
  { intros _. apply until_lock_bounds. done. }
  intros [Hfree Hrest]%andb_true_iff. destruct (decide (until_lock k (th_failures r) = 0)) as [E|E].
  { unfold locked_for in Hfree. rewrite (proj2 (Z.ltb_lt _ _)) in Hfree; [done|]. specialize (Hlock E). unfold inside in Ht. lia. }
  destruct (after_failure_inside r t Ht Hl) as (E1 & E2 & E3). apply IH in Hrest; rewrite ?E1, ?E2 in *; [|done|lia|].
  - rewrite until_lock_step in Hrest by lia. lia.
  - intros Eu. apply E3, lock_of_until; [lia|done].
Qed.
End Hour.
Lemma hour_bound k h row t0 ts : 0 ≤ t0 < 2 ^ 61 → (∀ r, row = Some r → 0 ≤ th_failures r) → Forall (λ t, t0 ≤ t < t0 + 3600) ts →
  admitted k h row ts = true → Z.of_nat (length ts) ≤ third k.
Proof.
  intros Ht0 Hrow Hts Ha. destruct ts as [|t ts]; [unfold third; destruct k; cbn; lia|]. cbn [admitted] in Ha. apply andb_true_iff in Ha as [_ Ha].
  apply Forall_cons in Hts as [Ht Hts]. set (r := after_failure k h t row) in *.
  assert (1 ≤ th_failures r ∧ th_last_failure_at r = t ∧ (lock_secs k (th_failures r) = 3600 → t0 + 3600 ≤ th_locked_until r)) as (Hf & Hl & Hk).
  { subst r. unfold after_failure. set (i := incremented row h (key_code k) t RESET_AFTER_SECS).
    assert (1 ≤ th_failures i ∧ th_last_failure_at i = t) as [Hf Hl].
    { subst i. unfold incremented. destruct row as [r|]; [|done]. pose proof (Hrow r eq_refl). destruct (_ <=? _); cbn; split; [lia|done|lia|done]. }
    pose proof (lock_secs_bounds k (th_failures i)). destruct (0 <? lock_secs k _) eqn:E; cbn; split_and!; try done; intros E'; rewrite E' in *; [|done].
    rewrite sat_i64_small by lia. lia. }
  apply (hour_rest k h t0 Ht0) in Ha; [|done|by rewrite Hl|done|intros E; apply Hk, lock_of_until; [lia|done]].
  pose proof (until_lock_bounds k (th_failures r) Hf). cbn [length]. lia.
Qed.
