(* ===== verification/AdminKeys.v ===== *)
(** Key material, tokens and nonces of the administrator plane
    (crates/cmis/src/admin/keys.rs, codec.rs, bootstrap.rs and the in-memory structures of
    state.rs).

    HMAC, SHA-256, XChaCha20-Poly1305, hexadecimal and base64url come from other crates and
    are the fields of [AdminCrypto]; random bytes are arguments. *)
From stdpp Require Import pretty.
From S2P Require Import Prelude AppModel AppDedup AppSchema Order Composite AppPath AllowlistCompile HelperProto AdminStore AdminPolicy.
Open Scope Z_scope.

Record AdminCrypto := {
  ac_hmac_sha256 : list u8 → list u8 → list u8;   (* key, message *)
  ac_hmac_sha1 : list u8 → list u8 → list u8;
  ac_sha256 : list u8 → list u8;
  ac_hex : list u8 → string;
  ac_b64url : list u8 → list u8;
  ac_b64url_decode : list u8 → option (list u8);
  ac_encrypt : list u8 → list u8 → list u8 → list u8 → option (list u8);   (* key, nonce, associated data, message *)
  ac_decrypt : list u8 → list u8 → list u8 → list u8 → option (list u8) }.

(** ** keys.rs *)
Record AdminKeys := { ak_totp_key : list u8; ak_server_key : list u8; ak_pseudonym_key : list u8; ak_key_check : string }.
Definition SEAL_VERSION : u8 := Byte.x01.
Definition SEAL_NONCE_LEN : nat := 24.
Definition totp_aad (admin_id : string) : list u8 := as_bytes admin_id ++ as_bytes "totp-v1".
(** What [mac] feeds the HMAC: the label, then each part behind its length. *)
Definition mac_part (part : list u8) : list u8 :=
  to_be_bytes (if bool_decide (Z.of_nat (length part) < 2 ^ 32) then length part else Z.to_nat (2 ^ 32 - 1)) ++ part.
Definition mac_input (label : string) (parts : list (list u8)) : list u8 := as_bytes label ++ (parts ≫= mac_part).

Section Keys.
Context (C : AdminCrypto).
Definition derive (root label : list u8) : list u8 := ac_hmac_sha256 C root label.
Definition from_material (secrets pseudonym : list u8) : AdminKeys :=
  let check_s := derive secrets (as_bytes "ferrogate-admin-key-check-v1") in
  let check_p := derive pseudonym (as_bytes "ferrogate-admin-key-check-v1") in
  {| ak_totp_key := derive secrets (as_bytes "ferrogate-admin-totp-aead-v1");
     ak_server_key := derive secrets (as_bytes "ferrogate-admin-server-mac-v1"); ak_pseudonym_key := pseudonym;
     ak_key_check := String.append (ac_hex C (take 8 check_s)) (String.append ":" (ac_hex C (take 8 check_p))) |}.

Context (K : AdminKeys).
(** [seal_totp], with the 24 random bytes it draws. *)
Definition seal_totp (nonce : list u8) (admin_id : string) (secret : list u8) : option (list u8) :=
  ct ← ac_encrypt C (ak_totp_key K) nonce (totp_aad admin_id) secret; Some (SEAL_VERSION :: nonce ++ ct).
Definition open_totp (admin_id : string) (blob : list u8) : option (list u8) :=
  if (length blob <=? 1 + SEAL_NONCE_LEN)%nat || negb (bool_decide (head blob = Some SEAL_VERSION)) then None
  else ac_decrypt C (ak_totp_key K) (take SEAL_NONCE_LEN (drop 1 blob)) (totp_aad admin_id) (drop (1 + SEAL_NONCE_LEN) blob).
Definition mac (label : string) (parts : list (list u8)) : list u8 := ac_hmac_sha256 C (ak_server_key K) (mac_input label parts).
Definition pseudonym_raw (label : string) (value : list u8) : list u8 :=
  ac_hmac_sha256 C (ak_pseudonym_key K) (as_bytes label ++ [Byte.x00] ++ value).
Definition pseudonym (label : string) (value : list u8) : string := ac_hex C (take 16 (pseudonym_raw label value)).
End Keys.

(** ** codec.rs *)
Definition B32 : list u8 := as_bytes "ABCDEFGHIJKLMNOPQRSTUVWXYZ234567".
Definition b32_char (v : Z) : u8 := nth (Z.to_nat (Z.land v 31)) B32 Byte.x00.
(** The inner loop: the letters ready in a buffer of at most twelve bits. *)
Fixpoint b32_flush (fuel : nat) (buffer bits : Z) : list u8 * Z :=
  match fuel with
  | S fuel => if 5 <=? bits then let '(out, rest) := b32_flush fuel buffer (bits - 5) in (b32_char (Z.shiftr buffer (bits - 5)) :: out, rest) else ([], bits)
  | O => ([], bits)
  end.
Fixpoint base32_loop (data : list u8) (buffer bits : Z) : list u8 :=
  match data with
  | [] => if 0 <? bits then [b32_char (Z.shiftl buffer (5 - bits))] else []
  | byte :: data =>
      let buffer := Z.lor (Z.shiftl buffer 8 mod 2 ^ 32) (u8.to_Z byte) in
      let '(out, bits) := b32_flush 3 buffer (bits + 8) in out ++ base32_loop data buffer bits
  end.
Definition base32_encode (data : list u8) : list u8 := base32_loop data 0 0.

(** Letters are compared in upper case; other characters end the decoding. *)
Definition to_ascii_uppercase (b : u8) : u8 := if is_ascii_lowercase b then u8.of_Z (u8.to_Z b - 32) else b.
Definition b32_position (b : u8) : option Z :=
  (λ iv, Z.of_nat (fst iv)) <$> list_find (λ x, x = to_ascii_uppercase b) B32.
Fixpoint base32_decode_loop (text : list u8) (buffer bits : Z) : option (list u8) :=
  match text with
  | [] => Some []
  | c :: text =>
      if is_byte 61 c || is_byte 45 c || is_byte 32 c then base32_decode_loop text buffer bits else
      v ← b32_position c;
      let buffer := Z.lor (Z.shiftl buffer 5 mod 2 ^ 32) v in
      let bits := bits + 5 in
      if 8 <=? bits then out ← base32_decode_loop text buffer (bits - 8); Some (u8.of_Z (Z.land (Z.shiftr buffer (bits - 8)) 255) :: out)
      else base32_decode_loop text buffer bits
  end.
Definition base32_decode (text : list u8) : option (list u8) := base32_decode_loop text 0 0.

(** ** Enrollment tokens (bootstrap.rs) *)
Definition BOOTSTRAP_PREFIX : list u8 := as_bytes "fgbt_".
Definition ENROLLMENT_PREFIX : list u8 := as_bytes "fget_".
Definition BOOTSTRAP_TTL_SECS : Z := 24 * 3600.
Definition ENROLLMENT_DEFAULT_TTL_SECS : Z := 24 * 3600.
Definition ENROLLMENT_MAX_TTL_SECS : Z := 72 * 3600.
Definition BOOTSTRAPPED_KEY : string := "admin_bootstrapped".

(** The nonces redeemed so far, by their random part, with their expiry. *)
Abbreviation Used := (gmap (list u8) Z).

Section Tokens.
Context (C : AdminCrypto) (K : AdminKeys) (trim : list u8 → list u8).
Definition checksum (raw : list u8) : list u8 := take 4 (ac_sha256 C (as_bytes "ferrogate-admin-token-v1" ++ raw)).
(** [new_token], with its 32 random bytes. *)
Definition new_enrollment_token (prefix raw : list u8) : list u8 * list u8 := (prefix ++ base32_encode (raw ++ checksum raw), ac_sha256 C raw).
Definition token_hash (text : list u8) : option (list u8) :=
  let text := trim text in
  if (128 <? length text)%nat then None else
  body ← match strip_prefix BOOTSTRAP_PREFIX text with Some b => Some b | None => strip_prefix ENROLLMENT_PREFIX text end;
  bytes ← base32_decode body;
  if negb (bool_decide (length bytes = 36%nat)) || negb (bool_decide (checksum (take 32 bytes) = drop 32 bytes)) then None
  else Some (ac_sha256 C (take 32 bytes)).

(** ** Session and device tokens (session.rs, state.rs) *)
Definition new_session_token (raw : list u8) : list u8 * list u8 :=
  let token := TOKEN_PREFIX ++ ac_b64url C raw in (token, ac_sha256 C token).
Definition session_ref (hash : list u8) : string := ac_hex C (take 12 hash).

Definition DEVICE_TOKEN_TTL_SECS : Z := 180 * 86400.
Definition DEVICE_TOKEN_PREFIX : list u8 := as_bytes "fgdt_".
(** [i64::to_be_bytes] and back. *)
Definition i64_be (z : Z) : list u8 := u64_be (z mod 2 ^ 64).
Definition i64_of_be (b : list u8) : Z :=
  let u := foldl (λ acc x, 256 * acc + u8.to_Z x) 0 b in if u <? 2 ^ 63 then u else u - 2 ^ 64.
Definition issue_device_token (now : Z) (random : list u8) (admin_id : string) : list u8 :=
  let m := mac C K "device-v1" [as_bytes admin_id; i64_be now; random] in
  DEVICE_TOKEN_PREFIX ++ ac_b64url C (i64_be now ++ random ++ take 16 m).
Definition device_token_valid (now : Z) (token : list u8) (admin_id : string) : bool :=
  match t ← strip_prefix DEVICE_TOKEN_PREFIX token; if (length t <=? 64)%nat then ac_b64url_decode C t else None with
  | None => false
  | Some raw =>
      if negb (bool_decide (length raw = 40%nat)) then false else
      let age := sat_i64 (now - i64_of_be (take 8 raw)) in
      if negb ((0 <=? age) && (age <? DEVICE_TOKEN_TTL_SECS)) then false else
      bool_decide (take 16 (mac C K "device-v1" [as_bytes admin_id; take 8 raw; take 16 (drop 8 raw)]) = drop 24 raw)
  end.
Definition throttle_key (k : KeyKind) (value : list u8) : list u8 := mac C K "throttle-v1" [i64_be (key_code k); value].

(** ** Nonces and the flood limit (state.rs) *)
Definition NONCE_TTL_SECS : Z := 120.
Definition BEGIN_LOGIN_PER_MINUTE : Z := 10.
Definition ANOMALY_FAILURES_10M : Z := 20.
Definition NONCE_LEN : nat := 40.
Definition USED_NONCE_SOFT_CAP : Z := 10000.
Definition USED_NONCE_HARD_CAP : Z := 200000.
Definition RATE_WINDOW_CAP : Z := 65536.

Definition issue_nonce (now : Z) (random : list u8) (label : string) (binding : list (list u8)) : list u8 :=
  i64_be now ++ random ++ take 16 (mac C K label (i64_be now :: random :: binding)).
(** The length, age and MAC of a nonce. *)
Definition nonce_issued (nonce : list u8) : Z := i64_of_be (take 8 nonce).
Definition nonce_random (nonce : list u8) : list u8 := take 16 (drop 8 nonce).
Definition nonce_genuine (label : string) (nonce : list u8) (binding : list (list u8)) (ttl now : Z) : bool :=
  let age := sat_i64 (now - nonce_issued nonce) in
  bool_decide (length nonce = NONCE_LEN) && (-5 <=? age) && (age <=? ttl)
  && bool_decide (take 16 (mac C K label (take 8 nonce :: nonce_random nonce :: binding)) = drop 24 nonce).
Definition redeem_nonce_within (label : string) (nonce : list u8) (binding : list (list u8)) (ttl now : Z) (used : Used) : Used * bool :=
  if negb (nonce_genuine label nonce binding ttl now) then (used, false) else
  let used := if USED_NONCE_SOFT_CAP <=? Z.of_nat (size used) then filter (λ kv, now < kv.2) used else used in
  if USED_NONCE_HARD_CAP <=? Z.of_nat (size used) then (used, false) else
  if not_null (used !! nonce_random nonce) then (used, false) else
  (<[nonce_random nonce := sat_i64 (nonce_issued nonce + ttl)]> used, true).
Definition redeem_nonce (label : string) (nonce : list u8) (binding : list (list u8)) : Z → Used → Used * bool :=
  redeem_nonce_within label nonce binding NONCE_TTL_SECS.
End Tokens.

(** ** Addresses *)
Inductive IpAddr := V4 (a b c d : u8) | V6 (segments : list Z).
#[export] Instance IpAddr_eq_dec : EqDecision IpAddr.
Proof. solve_decision. Defined.
#[export] Instance IpAddr_countable : Countable IpAddr.
Proof.
  refine (inj_countable' (λ i, match i with V4 a b c d => inl (a, b, c, d) | V6 s => inr s end)
    (λ x, match x with inl (a, b, c, d) => V4 a b c d | inr s => V6 s end) _). by intros [].
Qed.
(** [to_canonical]: an IPv4-mapped address is its IPv4 address. *)
Definition to_canonical (i : IpAddr) : IpAddr :=
  match i with
  | V6 [0; 0; 0; 0; 0; 65535; hi; lo] => V4 (u8.of_Z (hi / 256)) (u8.of_Z hi) (u8.of_Z (lo / 256)) (u8.of_Z lo)
  | i => i
  end.
Fixpoint hex_text_loop (fuel : nat) (z : Z) (acc : string) : string :=
  match fuel with
  | S fuel =>
      let d := Ascii.ascii_of_N (Z.to_N (z mod 16 + (if z mod 16 <? 10 then 48 else 87))) in
      if z <? 16 then String.String d acc else hex_text_loop fuel (z / 16) (String.String d acc)
  | O => acc
  end.
Definition hex_u16 (z : Z) : string := hex_text_loop 4 z String.EmptyString.
Definition join (sep : string) (l : list string) : string := String.concat sep l.
(** The longest run of zero segments, the first of that length. *)
Fixpoint zero_runs (i : nat) (run : nat) (segs : list Z) (best : nat * nat) : nat * nat :=
  match segs with
  | [] => best
  | s :: segs =>
      if s =? 0 then zero_runs (S i) (S run) segs (if (snd best <? S run)%nat then ((i - run)%nat, S run) else best)
      else zero_runs (S i) 0 segs best
  end.
Definition ip_text (i : IpAddr) : string :=
  match i with
  | V4 a b c d => join "." ((λ x, pretty (Z.to_N (u8.to_Z x))) <$> [a; b; c; d])
  | V6 segs =>
      let '(start, len) := zero_runs 0 0 segs (0%nat, 0%nat) in
      if (1 <? len)%nat
      then String.append (join ":" (hex_u16 <$> take start segs)) (String.append "::" (join ":" (hex_u16 <$> drop (start + len) segs)))
      else join ":" (hex_u16 <$> segs)
  end.
Definition canonical_ip (ip : option IpAddr) : string :=
  match ip with Some i => ip_text (to_canonical i) | None => String.EmptyString end.

(** The [BeginLogin] windows: ten calls per address and minute. *)
Abbreviation Windows := (gmap IpAddr (Z * Z)).
Definition allow_begin_login (ip : option IpAddr) (now : Z) (windows : Windows) : Windows * bool :=
  match ip with
  | None => (windows, false)
  | Some ip =>
      let full w := RATE_WINDOW_CAP <=? Z.of_nat (size w) in
      let windows := if full windows then filter (λ kv, sat_i64 (now - kv.2.1) < 60) windows else windows in
      if full windows then (windows, false) else
      let entry := default (now, 0) (windows !! ip) in
      let '(start, n) := if 60 <=? sat_i64 (now - entry.1) then (now, 0) else entry in
      (<[ip := (start, n + 1)]> windows, n + 1 <=? BEGIN_LOGIN_PER_MINUTE)
  end.

Example ip_examples :
  (canonical_ip (Some (V4 Byte.xc0 Byte.xa8 Byte.x00 Byte.x0a)),
   canonical_ip (Some (V6 [0; 0; 0; 0; 0; 65535; 49320; 10])),
   canonical_ip (Some (V6 [8193; 3512; 0; 0; 1; 0; 0; 1])),
   canonical_ip (Some (V6 [0; 0; 0; 0; 0; 0; 0; 1])), canonical_ip None)
  = ("192.168.0.10", "192.168.0.10", "2001:db8::1:0:0:1", "::1", String.EmptyString).
Proof. vm_compute. reflexivity. Qed.
