(* ===== verification/AdminKeysProofs.v ===== *)
(** Properties of the keys, tokens and nonces of the administrator plane. *)
From S2P Require Import Prelude AppModel AppDedup AppSchema Order Composite AppPath AllowlistCompile HelperProto AdminStore AdminStoreProofs AdminPolicy AdminPolicyProofs AdminKeys.
Open Scope Z_scope.

(** ** Nonces *)
Section Nonces.
Context (C : AdminCrypto) (K : AdminKeys).

(** One call of [redeem_nonce_within]. *)
Record Redemption := { rd_label : string; rd_nonce : list u8; rd_binding : list (list u8); rd_ttl : Z; rd_now : Z }.
Definition redeem (r : Redemption) (used : Used) : Used * bool :=
  redeem_nonce_within C K (rd_label r) (rd_nonce r) (rd_binding r) (rd_ttl r) (rd_now r) used.
Definition redeem_all (rs : list Redemption) (used : Used) : Used := foldl (λ u r, (redeem r u).1) used rs.

Lemma redeem_true r used used' : redeem r used = (used', true) →
  nonce_genuine C K (rd_label r) (rd_nonce r) (rd_binding r) (rd_ttl r) (rd_now r) = true ∧
  used' !! nonce_random (rd_nonce r) = Some (sat_i64 (nonce_issued (rd_nonce r) + rd_ttl r)).
Proof.
  unfold redeem, redeem_nonce_within. destruct (nonce_genuine _ _ _ _ _ _ _) eqn:E; [|done]. cbn [negb]. cbv zeta.
  destruct (USED_NONCE_HARD_CAP <=? _); [done|]. destruct (not_null _); [done|]. intros [= <-]. by rewrite lookup_insert_eq.
Qed.
Lemma redeem_keeps r used k e : rd_now r < e → used !! k = Some e → (redeem r used).1 !! k = Some e.
Proof.
  intros Hnow Hk. unfold redeem, redeem_nonce_within. destruct (negb _); [done|]. cbv zeta.
  set (u := if USED_NONCE_SOFT_CAP <=? _ then _ else _). assert (u !! k = Some e) as Hu.
  { subst u. destruct (_ <=? _); [|done]. apply map_lookup_filter_Some. done. }
  destruct (USED_NONCE_HARD_CAP <=? _); [done|]. destruct (not_null _) eqn:En; [done|]. apply not_null_false in En. cbn [fst].
  rewrite lookup_insert_ne; [done|]. congruence.
Qed.
Lemma redeem_all_keeps rs used k e : Forall (λ r, rd_now r < e) rs → used !! k = Some e → redeem_all rs used !! k = Some e.
Proof.
  intros H. revert used. induction H as [|r rs Hr _ IH]; intros used Hk; [done|]. apply (IH (redeem r used).1). by apply redeem_keeps.
Qed.
Lemma redeem_refused r used e : rd_now r < e → used !! nonce_random (rd_nonce r) = Some e → (redeem r used).2 = false.
Proof.
  intros Hnow Hk. unfold redeem, redeem_nonce_within. destruct (negb _); [done|]. cbv zeta.
  set (u := if USED_NONCE_SOFT_CAP <=? _ then _ else _). assert (u !! nonce_random (rd_nonce r) = Some e) as Hu.
  { subst u. destruct (_ <=? _); [|done]. apply map_lookup_filter_Some. done. }
  destruct (USED_NONCE_HARD_CAP <=? _); [done|]. by rewrite Hu.
Qed.

(** A nonce is redeemed at most once before its last second.  Once a nonce was redeemed, no
    later call redeems it again at a time before its expiry, whatever other redemptions
    happened in between, whether or not the table was purged. *)
Theorem nonce_single_use r used used' rs r' :
  redeem r used = (used', true) →
  let expiry := sat_i64 (nonce_issued (rd_nonce r) + rd_ttl r) in
  Forall (λ x, rd_now x < expiry) rs →
  nonce_random (rd_nonce r') = nonce_random (rd_nonce r) →
  rd_now r' < expiry →
  (redeem r' (redeem_all rs used')).2 = false.
Proof.
  intros [_ Hk]%redeem_true expiry Hrs Hr' Hnow. apply (redeem_refused _ _ expiry); [done|]. rewrite Hr'. by apply redeem_all_keeps.
Qed.

(** In the second in which it expires a nonce is redeemed twice, once the table of redeemed
    nonces holds [USED_NONCE_SOFT_CAP] entries: the purge drops an entry whose expiry is not
    after [now], while a nonce of age [ttl] is still accepted. *)
Theorem nonce_redeemed_twice (label : string) (nonce : list u8) (binding : list (list u8)) (ttl now : Z) (used : Used) :
  nonce_genuine C K label nonce binding ttl now = true →
  now = sat_i64 (nonce_issued nonce + ttl) →
  map_Forall (λ _ e, now < e) used →
  used !! nonce_random nonce = None →
  USED_NONCE_SOFT_CAP ≤ Z.of_nat (size used) < USED_NONCE_HARD_CAP →
  let r := {| rd_label := label; rd_nonce := nonce; rd_binding := binding; rd_ttl := ttl; rd_now := now |} in
  (redeem r used).2 = true ∧ (redeem r (redeem r used).1).2 = true.
Proof.
  intros Hg Hnow Hall Hnone Hsize r.
  assert (filter (λ kv : list u8 * Z, now < kv.2) used = used) as Hf by (apply map_filter_id; intros k e He; by apply (Hall k)).
  assert (redeem r used = (<[nonce_random nonce := now]> used, true)) as E1.
  { unfold redeem, redeem_nonce_within, r. cbn [rd_label rd_nonce rd_binding rd_ttl rd_now]. rewrite Hg. cbn [negb]. cbv zeta.
    rewrite (proj2 (Z.leb_le USED_NONCE_SOFT_CAP _)) by lia. rewrite Hf. rewrite (proj2 (Z.leb_gt USED_NONCE_HARD_CAP _)) by lia.
    rewrite Hnone. cbn [not_null is_null negb]. by rewrite <- Hnow. }
  rewrite E1. split; [done|]. cbn [fst]. unfold redeem, redeem_nonce_within, r. cbn [rd_label rd_nonce rd_binding rd_ttl rd_now].
  rewrite Hg. cbn [negb]. cbv zeta. rewrite map_size_insert_None by done.
  rewrite (proj2 (Z.leb_le USED_NONCE_SOFT_CAP _)) by lia. rewrite map_filter_insert_not' by (rewrite ?Hnone; done || cbn; lia).
  rewrite Hf. rewrite (proj2 (Z.leb_gt USED_NONCE_HARD_CAP _)) by lia. by rewrite Hnone.
Qed.
End Nonces.

(** ** Sealed secrets *)
Section Seal.
Context (C : AdminCrypto) (K : AdminKeys).
Hypothesis decrypt_encrypt : ∀ key nonce aad m c, ac_encrypt C key nonce aad m = Some c → ac_decrypt C key nonce aad c = Some m.
Hypothesis ciphertext_nonempty : ∀ key nonce aad m c, ac_encrypt C key nonce aad m = Some c → c ≠ [].

(** What [seal_totp] makes for an account, [open_totp] opens for it. *)
Lemma open_sealed nonce id secret blob : length nonce = SEAL_NONCE_LEN → seal_totp C K nonce id secret = Some blob → open_totp C K id blob = Some secret.
Proof.
  intros Hn. unfold seal_totp, open_totp. destruct (ac_encrypt _ _ _ _ _) as [c|] eqn:E; [|done]. cbn [mbind option_bind]. intros [= <-].
  assert (0 < length c)%nat by (destruct c; [by apply ciphertext_nonempty in E|cbn; lia]).
  rewrite (proj2 (Nat.leb_gt _ _)) by (cbn [length]; rewrite length_app; lia). cbn [head]. rewrite bool_decide_true by done. cbn [negb orb].
  change (drop 1 (SEAL_VERSION :: nonce ++ c)) with (nonce ++ c). change (drop (1 + SEAL_NONCE_LEN) (SEAL_VERSION :: nonce ++ c)) with (drop SEAL_NONCE_LEN (nonce ++ c)).
  rewrite <- Hn, take_app_length, drop_app_length. by apply decrypt_encrypt.
Qed.
End Seal.

(** ** MAC inputs *)
(** Every label the server key is used with. *)
Definition MAC_LABELS : list string :=
  ["login-v1"; "stepup-v1"; "addfactor-v1"; "enroll-webauthn-v1"; "device-v1"; "throttle-v1"; "webauthn-challenge-login-v1";
   "webauthn-challenge-stepup-v1"; "webauthn-challenge-addfactor-v1"; "webauthn-user-v1"; "webauthn-decoy-v1"; "webauthn-decoy-id-v1";
   "webauthn-decoy-shape-v1"].
Definition is_prefix (a b : list u8) : bool := bool_decide (take (length a) b = a).
Lemma labels_prefix_free : forallb (λ a, forallb (λ b, negb (is_prefix (as_bytes a) (as_bytes b)) || is_ a b) MAC_LABELS) MAC_LABELS = true.
Proof. vm_compute. reflexivity. Qed.
Lemma label_app_inj a b x y : a ∈ MAC_LABELS → b ∈ MAC_LABELS → as_bytes a ++ x = as_bytes b ++ y → a = b.
Proof.
  assert (∀ a b x y, a ∈ MAC_LABELS → b ∈ MAC_LABELS → (length (as_bytes a) ≤ length (as_bytes b))%nat → as_bytes a ++ x = as_bytes b ++ y → a = b) as H.
  { clear. intros a b x y Ha Hb Hl E. pose proof labels_prefix_free as Hf. rewrite forallb_forall in Hf.
    specialize (Hf a (proj1 (list_elem_of_In _ _) Ha)). cbv beta in Hf. rewrite forallb_forall in Hf. specialize (Hf b (proj1 (list_elem_of_In _ _) Hb)).
    cbv beta in Hf. apply orb_true_iff in Hf as [Hf|Hf]; [|by apply bool_decide_eq_true in Hf]. exfalso. apply negb_true_iff in Hf.
    unfold is_prefix in Hf. apply bool_decide_eq_false in Hf. apply Hf. apply (f_equal (take (length (as_bytes a)))) in E.
    rewrite take_app_length, take_app_le in E by done. done. }
  intros Ha Hb E. destruct (Nat.le_ge_cases (length (as_bytes a)) (length (as_bytes b))); [by eapply H|]. symmetry. by eapply H.
Qed.
Definition part_ok (p : list u8) : Prop := Z.of_nat (length p) < 2 ^ 32.
Lemma mac_part_app p q x y : part_ok p → part_ok q → mac_part p ++ x = mac_part q ++ y → p = q ∧ x = y.
Proof.
  unfold mac_part. intros Hp Hq. rewrite !bool_decide_true by done. rewrite <- !app_assoc. intros E.
  apply app_inj_1 in E as [El E]; [|by rewrite !to_be_bytes_length]. apply (f_equal from_be_bytes) in El. rewrite !from_to_be in El by done.
  by apply app_inj_1 in E.
Qed.
Lemma mac_parts_inj ps qs : Forall part_ok ps → Forall part_ok qs → ps ≫= mac_part = qs ≫= mac_part → ps = qs.
Proof.
  assert (∀ p x, mac_part p ++ x ≠ []) as Hne by (intros p x E; apply (f_equal length) in E; unfold mac_part in E; rewrite !length_app, to_be_bytes_length in E; cbn in E; lia).
  intros Hp. revert qs. induction Hp as [|p ps Hp _ IH]; intros qs Hq; destruct Hq as [|q qs Hq Hqs]; rewrite ?bind_cons; [done| | |].
  - intros E. symmetry in E. by apply Hne in E.
  - intros E. by apply Hne in E.
  - intros [-> E]%mac_part_app; [|done..]. f_equal. by apply IH.
Qed.

(** The server key never authenticates two messages as one: over every label it is used
    with, the bytes under the MAC determine the label and the parts, so a nonce, a device
    token, a throttle key or a challenge made for one purpose and binding is none for
    another. *)
Theorem mac_input_injective a b ps qs :
  a ∈ MAC_LABELS → b ∈ MAC_LABELS → Forall part_ok ps → Forall part_ok qs →
  mac_input a ps = mac_input b qs → a = b ∧ ps = qs.
Proof.
  unfold mac_input. intros Ha Hb Hp Hq E. pose proof (label_app_inj _ _ _ _ Ha Hb E) as ->. split; [done|].
  apply app_inv_head in E. by apply mac_parts_inj.
Qed.

(** ** Base32 *)
Definition val (base : Z) (acc : Z) (l : list Z) : Z := foldl (λ a x, base * a + x) acc l.
Abbreviation bytes_val acc data := (val 256 acc (u8.to_Z <$> data)).
Definition letter (d : Z) : u8 := nth (Z.to_nat d) B32 Byte.x00.

Lemma val_app base acc l1 l2 : val base acc (l1 ++ l2) = val base (val base acc l1) l2.
Proof. apply foldl_app. Qed.
Lemma val_cons base acc x l : val base acc (x :: l) = val base (base * acc + x) l.
Proof. done. Qed.
Lemma land_31 z : Z.land z 31 = z mod 32.
Proof. apply (Z.land_ones z 5). lia. Qed.
Lemma land_255 z : Z.land z 255 = z mod 256.
Proof. apply (Z.land_ones z 8). lia. Qed.
Lemma lor_low a b k : 0 ≤ k → 0 ≤ b < 2 ^ k → Z.lor (Z.shiftl a k mod 2 ^ 32) b = Z.shiftl a k mod 2 ^ 32 + b.
Proof.
  intros Hk Hb. rewrite <- Z.add_lor_land. assert (Z.land (Z.shiftl a k mod 2 ^ 32) b = 0) as ->; [|lia].
  apply Z.bits_inj'. intros n Hn. rewrite Z.land_spec, Z.bits_0. destruct (Z.lt_ge_cases n k).
  - destruct (Z.lt_ge_cases n 32); [rewrite Z.mod_pow2_bits_low, Z.shiftl_spec_low by lia; done|rewrite Z.mod_pow2_bits_high by lia; done].
  - rewrite <- (Z.mod_small b (2 ^ k)), (Z.mod_pow2_bits_high b) by lia.
    apply andb_false_r.
Qed.

Lemma encode_val data buffer bits A N : 0 ≤ bits < 5 → A * 2 ^ bits + buffer mod 2 ^ bits = N →
  ∃ ds p, base32_loop data buffer bits = letter <$> ds ∧ Forall (λ d, 0 ≤ d < 32) ds ∧ 0 ≤ p < 5 ∧
    val 32 A ds = bytes_val N data * 2 ^ p ∧ 5 * Z.of_nat (length ds) = 8 * Z.of_nat (length data) + bits + p.
Proof.
  revert buffer bits A N. induction data as [|b data IH]; intros buffer bits A N Hbits HN; cbn [base32_loop].
  - destruct (Z.ltb_spec 0 bits).
    + exists [(buffer * 2 ^ (5 - bits)) mod 32], (5 - bits). unfold b32_char. rewrite land_31, Z.shiftl_mul_pow2 by lia.
      split_and!; [done|constructor; [apply Z.mod_pos_bound; lia|constructor]|lia|lia| |cbn; lia]. cbn [val foldl fmap list_fmap].
      assert (bits = 1 ∨ bits = 2 ∨ bits = 3 ∨ bits = 4) as [->|[->|[->| ->]]] by lia; cbn in *; Z.to_euclidean_division_equations; lia.
    + assert (bits = 0) as -> by lia. exists [], 0. rewrite Z.mod_1_r in HN. split_and!; [done|constructor|lia|lia|cbn in *; lia|cbn; lia].
  - pose proof (u8.to_Z_range b) as Hb. rewrite lor_low, Z.shiftl_mul_pow2 by lia. set (B := (buffer * 2 ^ 8) mod 2 ^ 32 + u8.to_Z b).
    assert (bits = 0 ∨ bits = 1 ∨ bits = 2 ∨ bits = 3 ∨ bits = 4) as Hcase by lia.
    assert (B mod 2 ^ (bits + 8) = 256 * (buffer mod 2 ^ bits) + u8.to_Z b) as HB.
    { subst B. destruct Hcase as [->|[->|[->|[->| ->]]]]; cbn in *; Z.to_euclidean_division_equations; lia. }
    destruct (decide (bits < 2)) as [Hlt|Hge].
    + destruct (IH B (bits + 3) (32 * A + (B / 2 ^ (bits + 3)) mod 32) (256 * N + u8.to_Z b)) as (ds & p & E & Hds & Hp & Hv & Hl); [lia| |].
      { destruct Hcase as [->|[->|Hc]]; [| |lia]; cbn in *; Z.to_euclidean_division_equations; lia. }
      exists ((B / 2 ^ (bits + 3)) mod 32 :: ds), p. split_and!; [|constructor; [apply Z.mod_pos_bound; lia|done]|lia|lia|exact Hv|cbn [length]; lia].
      assert (b32_flush 3 B (bits + 8) = ([b32_char (Z.shiftr B (bits + 3))], bits + 3)) as -> by (destruct Hcase as [->|[->|Hc]]; [done|done|lia]).
      rewrite E. unfold b32_char. rewrite land_31, Z.shiftr_div_pow2 by lia. done.
    + destruct (IH B (bits - 2) (32 * (32 * A + (B / 2 ^ (bits + 3)) mod 32) + (B / 2 ^ (bits - 2)) mod 32) (256 * N + u8.to_Z b)) as (ds & p & E & Hds & Hp & Hv & Hl); [lia| |].
      { destruct Hcase as [->|[->|[->|[->| ->]]]]; try lia; cbn in *; Z.to_euclidean_division_equations; lia. }
      exists ((B / 2 ^ (bits + 3)) mod 32 :: (B / 2 ^ (bits - 2)) mod 32 :: ds), p.
      split_and!; [|constructor; [|constructor; [|done]]; apply Z.mod_pos_bound; lia|lia|lia|exact Hv|cbn [length]; lia].
      assert (b32_flush 3 B (bits + 8) = ([b32_char (Z.shiftr B (bits + 3)); b32_char (Z.shiftr B (bits - 2))], bits - 2)) as ->
        by (destruct Hcase as [->|[->|[->|[->| ->]]]]; [lia|lia|done..]).
      rewrite E. unfold b32_char. rewrite !land_31, !Z.shiftr_div_pow2 by lia. done.
Qed.
Lemma letters_ok : forallb (λ d, negb (is_byte 61 (letter d) || is_byte 45 (letter d) || is_byte 32 (letter d)) &&
  bool_decide (b32_position (letter d) = Some d)) (seqZ 0 32) = true.
Proof. vm_compute. reflexivity. Qed.
Lemma letter_ok d : 0 ≤ d < 32 → is_byte 61 (letter d) || is_byte 45 (letter d) || is_byte 32 (letter d) = false ∧ b32_position (letter d) = Some d.
Proof.
  intros Hd. pose proof letters_ok as H. rewrite forallb_forall in H. specialize (H d). rewrite <- list_elem_of_In, elem_of_seqZ in H. specialize (H ltac:(lia)).
  apply andb_true_iff in H as [H1%negb_true_iff H2%bool_decide_eq_true]. done.
Qed.
Lemma decode_val ds buffer bits D A : Forall (λ d, 0 ≤ d < 32) ds → 0 ≤ bits < 8 → D * 2 ^ bits + buffer mod 2 ^ bits = A →
  ∃ out q r, base32_decode_loop (letter <$> ds) buffer bits = Some out ∧ 0 ≤ q < 8 ∧ 0 ≤ r < 2 ^ q ∧
    bytes_val D out * 2 ^ q + r = val 32 A ds ∧ 8 * Z.of_nat (length out) + q = 5 * Z.of_nat (length ds) + bits.
Proof.
  intros Hds. revert buffer bits D A. induction Hds as [|d ds Hd _ IH]; intros buffer bits D A Hbits HA; cbn [fmap list_fmap base32_decode_loop].
  - exists [], bits, (buffer mod 2 ^ bits). pose proof (Z.mod_pos_bound buffer (2 ^ bits) ltac:(lia)). split_and!; [done|lia..|exact HA|cbn; lia].
  - destruct (letter_ok d Hd) as [-> ->]. cbn [mbind option_bind]. rewrite lor_low, Z.shiftl_mul_pow2 by lia. set (B := (buffer * 2 ^ 5) mod 2 ^ 32 + d).
    assert (bits = 0 ∨ bits = 1 ∨ bits = 2 ∨ bits = 3 ∨ bits = 4 ∨ bits = 5 ∨ bits = 6 ∨ bits = 7) as Hcase by lia.
    assert (B mod 2 ^ (bits + 5) = 32 * (buffer mod 2 ^ bits) + d) as HB.
    { subst B. destruct Hcase as [->|[->|[->|[->|[->|[->|[->| ->]]]]]]]; cbn in *; Z.to_euclidean_division_equations; lia. }
    destruct (Z.leb_spec 8 (bits + 5)).
    + destruct (IH B (bits + 5 - 8) (256 * D + (B / 2 ^ (bits + 5 - 8)) mod 256) (32 * A + d)) as (out & q & r & E & Hq & Hr & Hv & Hl); [lia| |].
      { destruct Hcase as [->|[->|[->|[->|[->|[->|[->| ->]]]]]]]; try lia; cbn in *; Z.to_euclidean_division_equations; lia. }
      rewrite E. cbn [mbind option_bind]. rewrite land_255, Z.shiftr_div_pow2 by lia. eexists _, q, r. split_and!; [done|lia..| |cbn [length]; lia].
      rewrite fmap_cons, val_cons, u8_of_Z_to_Z, Z.mod_mod by lia. exact Hv.
    + destruct (IH B (bits + 5) D (32 * A + d)) as (out & q & r & E & Hq & Hr & Hv & Hl); [lia| |].
      { destruct Hcase as [->|[->|[->|Hc]]]; try lia; cbn in *; Z.to_euclidean_division_equations; lia. }
      exists out, q, r. split_and!; [done|lia..|exact Hv|cbn [length]; lia].
Qed.
Lemma bytes_val_inj l1 l2 a1 a2 : length l1 = length l2 → bytes_val a1 l1 = bytes_val a2 l2 → l1 = l2 ∧ a1 = a2.
Proof.
  revert l2 a1 a2. induction l1 as [|b l1 IH]; intros [|c l2] a1 a2; try done. intros [= Hl]. rewrite !fmap_cons, !val_cons.
  intros [-> E]%IH; [|done]. pose proof (u8.to_Z_range b). pose proof (u8.to_Z_range c). assert (u8.to_Z b = u8.to_Z c ∧ a1 = a2) as [Eb ->] by lia.
  split; [|done]. f_equal. by apply u8.to_Z_inj.
Qed.
Lemma base32_round_trip data : base32_decode (base32_encode data) = Some data.
Proof.
  unfold base32_decode, base32_encode. destruct (encode_val data 0 0 0 0) as (ds & p & -> & Hds & Hp & Hv & Hl); [lia|done|].
  destruct (decode_val ds 0 0 0 0 Hds) as (out & q & r & -> & Hq & Hr & Hv' & Hl'); [lia|done|]. rewrite Hv in Hv'.
  assert (length out = length data ∧ p = q) as [Hlen ->] by lia. f_equal. apply (bytes_val_inj out data 0 0); [done|].
  pose proof (Z.pow_pos_nonneg 2 q). nia.
Qed.

(** ** Enrollment tokens *)
Section Tokens.
Context (C : AdminCrypto) (trim : list u8 → list u8).
Hypothesis sha256_length : ∀ m, length (ac_sha256 C m) = 32%nat.
(** [str::trim] keeps a text that neither starts nor ends with a space. *)
Hypothesis trim_token : ∀ prefix raw, prefix ∈ [BOOTSTRAP_PREFIX; ENROLLMENT_PREFIX] →
  trim (prefix ++ base32_encode raw) = prefix ++ base32_encode raw.

Lemma base32_length data : 5 * Z.of_nat (length (base32_encode data)) < 8 * Z.of_nat (length data) + 5.
Proof.
  unfold base32_encode. destruct (encode_val data 0 0 0 0) as (ds & p & -> & _ & Hp & _ & Hl); [lia|done|]. rewrite length_fmap. lia.
Qed.
Lemma strip_prefix_app p l : strip_prefix p (p ++ l) = Some l.
Proof. induction p as [|a p IH]; cbn [app strip_prefix]; [done|]. by rewrite bool_decide_true. Qed.

(** A bootstrap or enrollment token, as it is shown to its holder, reads back as the hash
    that is stored for it. *)
Theorem enrollment_token_round_trip prefix raw :
  prefix ∈ [BOOTSTRAP_PREFIX; ENROLLMENT_PREFIX] → length raw = 32%nat →
  let '(token, hash) := new_enrollment_token C prefix raw in token_hash C trim token = Some hash.
Proof.
  intros Hp Hraw. unfold new_enrollment_token, token_hash. rewrite trim_token by done.
  assert (length (checksum C raw) = 4%nat) as Hc by (unfold checksum; rewrite length_take, sha256_length; done).
  pose proof (base32_length (raw ++ checksum C raw)) as Hl. rewrite length_app, Hraw, Hc in Hl.
  assert (length prefix = 5%nat) as Hp5 by (apply elem_of_cons in Hp as [->|Hp]; [done|]; by apply list_elem_of_singleton in Hp as ->).
  rewrite (proj2 (Nat.ltb_ge _ _)) by (rewrite length_app; lia).
  assert (∀ l, match strip_prefix BOOTSTRAP_PREFIX (prefix ++ l) with Some b => Some b | None => strip_prefix ENROLLMENT_PREFIX (prefix ++ l) end = Some l) as ->.
  { intros l. apply elem_of_cons in Hp as [->|Hp]; [by rewrite strip_prefix_app|]. apply list_elem_of_singleton in Hp as ->. cbn [strip_prefix app].
    apply strip_prefix_app. }
  cbn [mbind option_bind]. rewrite base32_round_trip. cbn [mbind option_bind].
  rewrite (bool_decide_true (length _ = _)) by (rewrite length_app, Hraw, Hc; done). rewrite <- Hraw, take_app_length, drop_app_length, bool_decide_true by done. done.
Qed.
End Tokens.
