(* ===== verification/AdminPassword.v ===== *)
(** Administrator passwords (crates/cmis/src/admin/password.rs): the policy, the calendar
    year it forbids, and hashing and verification around Argon2.

    Unicode normalisation and the character tables of the standard library are the fields of
    [Unicode]; Argon2 and its PHC strings those of [Argon]. *)
From stdpp Require Import pretty sorting.
From S2P Require Import Prelude AppModel AppDedup AppSchema Order Composite AppPath AllowlistCompile AdminStore AdminPolicy AdminKeys.
Open Scope Z_scope.

Definition MIN_LEN : nat := 24.
Definition MAX_LEN : nat := 256.
Definition LIFETIME_SECS : Z := 180 * 86400.
Definition FORBIDDEN : list string := ["ferrogate"; "fgv"; "senha"; "password"; "cmis"].

Inductive PolicyFailure := TooShort | TooLong | ControlCharacters | CharacterClasses | ForbiddenContent | Blocklisted | Reused.
#[export] Instance PolicyFailure_eq_dec : EqDecision PolicyFailure.
Proof. solve_decision. Defined.
Definition failure_id (f : PolicyFailure) : string :=
  match f with
  | TooShort => "password_too_short" | TooLong => "password_too_long" | ControlCharacters => "control_characters"
  | CharacterClasses => "character_classes" | ForbiddenContent => "forbidden_content" | Blocklisted => "blocklisted" | Reused => "reused"
  end.

(** Text is its characters. *)
Record Unicode := {
  un_nfkc : list Z → list Z; un_lowercase : list Z → list Z; un_trim : list Z → list Z;
  is_control : Z → bool; is_uppercase : Z → bool; is_lowercase : Z → bool; is_numeric : Z → bool; is_alphanumeric : Z → bool;
  is_whitespace : Z → bool }.
Definition chars (s : string) : list Z := default [] (utf8_decode (as_bytes s)).
Definition text (cs : list Z) : string := bytes_string (cs ≫= utf8_char).

Fixpoint is_prefix_of (p l : list Z) : bool :=
  match p, l with
  | [], _ => true
  | a :: p, b :: l => (a =? b) && is_prefix_of p l
  | _ :: _, [] => false
  end.
Fixpoint contains (l needle : list Z) : bool :=
  is_prefix_of needle l || match l with [] => false | _ :: l => contains l needle end.
(** [split] at the characters that satisfy [p]. *)
Fixpoint split_at (p : Z → bool) (l : list Z) (cur : list Z) : list (list Z) :=
  match l with
  | [] => [cur]
  | c :: l => if p c then cur :: split_at p l [] else split_at p l (cur ++ [c])
  end.

Section Policy.
Context (U : Unicode).
Record PolicyContext := { pc_username : string; pc_display_name : option string; pc_trust_domain : string; pc_year : Z; pc_blocklist : list (list Z) }.
Definition normalize (p : string) : list Z := un_nfkc U (chars p).
Definition classes_ok (cs : list Z) : bool :=
  existsb (is_uppercase U) cs && existsb (is_lowercase U) cs && existsb (is_numeric U) cs
  && existsb (λ c, negb (is_alphanumeric U c) && negb (is_whitespace U c) && negb (is_control U c)) cs.
Definition forbidden (ctx : PolicyContext) : list (list Z) :=
  (chars <$> FORBIDDEN) ++ [chars (pretty (pc_year ctx))]
  ++ List.filter (λ v, 3 <=? Z.of_nat (length v)) ((λ v, un_lowercase U (un_trim U (chars v))) <$> [pc_username ctx; pc_trust_domain ctx])
  ++ match pc_display_name ctx with
     | Some name => List.filter (λ t, 3 <=? Z.of_nat (length t)) (split_at (λ c, negb (is_alphanumeric U c)) (un_lowercase U (un_nfkc U (chars name))) [])
     | None => []
     end.
(** The failures in the order of the type, which is the sorted order. *)
Definition check_policy (password : string) (ctx : PolicyContext) : result (list PolicyFailure) unit :=
  let n := normalize password in
  let lower := un_lowercase U n in
  let fails :=
    (if (length n <? MIN_LEN)%nat then [TooShort] else []) ++ (if (MAX_LEN <? length n)%nat then [TooLong] else [])
    ++ (if existsb (is_control U) n then [ControlCharacters] else []) ++ (if classes_ok n then [] else [CharacterClasses])
    ++ (if existsb (contains lower) (forbidden ctx) then [ForbiddenContent] else [])
    ++ (if bool_decide (lower ∈ pc_blocklist ctx) then [Blocklisted] else []) in
  match fails with [] => Ok tt | _ => Err fails end.
End Policy.

(** The Gregorian year of a Unix time. *)
Definition year_of (now : Z) : Z :=
  let days := now / 86400 in
  let z := days + 719468 in
  let era := z / 146097 in
  let doe := z - era * 146097 in
  let yoe := Z.quot (doe - Z.quot doe 1460 + Z.quot doe 36524 - Z.quot doe 146096) 365 in
  let doy := doe - (365 * yoe + Z.quot yoe 4 - Z.quot yoe 100) in
  let mp := Z.quot (5 * doy + 2) 153 in
  let month := if mp <? 10 then mp + 3 else mp - 9 in
  let year := yoe + era * 400 + (if month <=? 2 then 1 else 0) in
  if (- 2 ^ 31 <=? year) && (year <? 2 ^ 31) then year else 2 ^ 31 - 1.

(** ** Hashing *)
Record PasswordParams := { pp_m : Z; pp_t : Z; pp_p : Z }.
Definition stronger_than (a b : PasswordParams) : bool := (pp_m b <? pp_m a) || (pp_t b <? pp_t a) || (pp_p b <? pp_p a).
Inductive PasswordError := Busy | PwInternal.
Record PwVerified := { pv_ok : bool; pv_needs_rehash : bool }.
(** The PHC string of an input and a salt under parameters, its parameters, and whether an
    input matches it. *)
Record Argon := {
  ag_hash : PasswordParams → list u8 → list u8 → option string; ag_params : string → option PasswordParams; ag_verify : list u8 → string → bool }.
Record Hasher := { hs_params : PasswordParams; hs_pepper : option (Z * list u8) }.

Section Hashing.
Context (U : Unicode) (A : Argon) (C : AdminCrypto) (H : Hasher).
Definition prehash (password : string) (pepper_id : option Z) : result PasswordError (list u8) :=
  let bytes := normalize U password ≫= utf8_char in
  match pepper_id with
  | None => Ok bytes
  | Some id =>
      match hs_pepper H with
      | Some (i, key) => if i =? id then Ok (ac_hmac_sha256 C key bytes) else Err PwInternal
      | None => Err PwInternal
      end
  end.
Definition current_pepper : option Z := fst <$> hs_pepper H.
Definition hash_sync (salt : list u8) (password : string) : result PasswordError (string * option Z) :=
  let? input := prehash password current_pepper in
  match ag_hash A (hs_params H) input salt with Some phc => Ok (phc, current_pepper) | None => Err PwInternal end.
Definition verify_sync (password phc : string) (pepper_id : option Z) : result PasswordError PwVerified :=
  match ag_params A phc with
  | None => Err PwInternal
  | Some stored =>
      let? input := prehash password pepper_id in
      Ok {| pv_ok := ag_verify A input phc;
            pv_needs_rehash := stronger_than (hs_params H) stored || negb (is_ current_pepper pepper_id) |}
  end.
End Hashing.

(** ** Properties *)

(** The day, counted from 1970, on which a year begins. *)
Definition january_first (y : Z) : Z := 365 * (y - 1970) + ((y - 1) / 4 - (y - 1) / 100 + (y - 1) / 400) - (1969 / 4 - 1969 / 100 + 1969 / 400).
Example year_examples : (january_first 1970, january_first 2000 * 86400, january_first 2026 * 86400, year_of 0, year_of 951782400, year_of (january_first 2026 * 86400 - 1))
  = (0, 946684800, 1767225600, 1970, 2000, 2025).
Proof. vm_compute. reflexivity. Qed.
