(* ===== verification/AdminState.v ===== *)
(** The shared state of the administrator plane and the helpers every flow uses
    (crates/cmis/src/admin/state.rs).

    A flow is a [prog]: the calls it awaits on the replicated store, the accesses to its
    node's memory, the clock readings, the random bytes it draws and the audit events it
    records, in order.  Between two of them anyone else may act on the store. *)
From S2P Require Import Prelude AppModel AppDedup AppSchema Order Composite AppPath AllowlistCompile AdminStore AdminPolicy AdminKeys AdminPassword.
Open Scope Z_scope.

(** ** Programs *)
Inductive AdminEvent :=
  | AdminLoginSucceeded (admin_id session_ref : string) (aal : Z) (method : MfaMethod) (client_kind : Z) (src_ip_hmac : string)
  | AdminLoginFailed (account_ref_hmac reason src_ip_hmac : string) (lock_secs : Z)
  | AdminLockoutApplied (kind : KeyKind) (lock_secs : Z)
  | AdminLoginAnomaly (failures_10m : Z)
  | AdminLogout (admin_id session_ref : string)
  | AdminSessionRevoked (admin_id session_ref : string) (by_ : option string) (reason : RevokeReason)
  | AdminStepUp (admin_id session_ref : string) (method : MfaMethod) (success : bool)
  | AdminPasswordChanged (admin_id : string) (by_self : bool)
  | AdminAccountCreated (admin_id by_ : string) (groups : list string)
  | AdminAccountUpdated (admin_id by_ : string) (changed : list string) (groups : option (list string))
  | AdminAccountStateChanged (admin_id by_ state : string)
  | AdminCredentialsReset (admin_id by_ : string) (password mfa : bool)
  | AdminEnrollmentCompleted (admin_id purpose : string) (same_ip_as_creator : bool)
  | AdminMfaEnrolled (admin_id : string) (method : MfaMethod)
  | AdminMfaRemoved (admin_id : string) (method : MfaMethod) (by_ : option string)
  | AdminWebAuthnCloneDetected (admin_id factor_id : string)
  | AdminBootstrapCompleted (admin_id : string)
  | AdminAccessDenied (admin_id : option string) (method permission reason : string)
  | AdminCallAuthorized (admin_id session_ref method : string).

(** What a node keeps in memory. *)
Record Mem := { m_used_nonces : Used; m_begin_login : Windows; m_last_anomaly_at : Z; m_last_unclassified_audit : Z }.
Definition put_used (u : Used) (m : Mem) : Mem :=
  {| m_used_nonces := u; m_begin_login := m_begin_login m; m_last_anomaly_at := m_last_anomaly_at m; m_last_unclassified_audit := m_last_unclassified_audit m |}.
Definition put_windows (w : Windows) (m : Mem) : Mem :=
  {| m_used_nonces := m_used_nonces m; m_begin_login := w; m_last_anomaly_at := m_last_anomaly_at m; m_last_unclassified_audit := m_last_unclassified_audit m |}.
Definition put_anomaly (t : Z) (m : Mem) : Mem :=
  {| m_used_nonces := m_used_nonces m; m_begin_login := m_begin_login m; m_last_anomaly_at := t; m_last_unclassified_audit := m_last_unclassified_audit m |}.
Definition put_unclassified (t : Z) (m : Mem) : Mem :=
  {| m_used_nonces := m_used_nonces m; m_begin_login := m_begin_login m; m_last_anomaly_at := m_last_anomaly_at m; m_last_unclassified_audit := t |}.

Inductive prog (A : Type) : Type :=
  | Done (a : A)
  | Store {X : Type} (op : AdminDb → AdminDb * result ClusterError X) (k : result ClusterError X → prog A)
  | Local {X : Type} (op : Mem → Mem * X) (k : X → prog A)
  | Clock (k : Z → prog A)
  | Random (n : nat) (k : list u8 → prog A)
  | Work {X : Type} (r : result PasswordError X) (k : result PasswordError X → prog A)
  | Audit (e : AdminEvent) (k : prog A).
Arguments Done {A} a.
Arguments Store {A X} op k.
Arguments Local {A X} op k.
Arguments Clock {A} k.
Arguments Random {A} n k.
Arguments Work {A X} r k.
Arguments Audit {A} e k.

Fixpoint bind {A B} (p : prog A) (f : A → prog B) : prog B :=
  match p with
  | Done a => f a
  | Store op k => Store op (λ r, bind (k r) f)
  | Local op k => Local op (λ x, bind (k x) f)
  | Clock k => Clock (λ t, bind (k t) f)
  | Random n k => Random n (λ b, bind (k b) f)
  | Work r k => Work r (λ x, bind (k x) f)
  | Audit e k => Audit e (bind k f)
  end.
Definition try_bind {A B} (p : prog (result Status A)) (f : A → prog (result Status B)) : prog (result Status B) :=
  bind p (λ r, match r with Ok a => f a | Err s => Done (Err s) end).
Notation "'let*' x ':=' p 'in' k" := (bind p (λ x, k)) (at level 10, x pattern, p at level 100, k at level 200) : ferro_scope.
(** [?] on the answer. *)
Notation "'let+' x ':=' p 'in' k" := (try_bind p (λ x, k)) (at level 10, x pattern, p at level 100, k at level 200) : ferro_scope.

Definition store {X} (op : AdminDb → AdminDb * result ClusterError X) : prog (result ClusterError X) := Store op Done.
(** A consistent read. *)
Definition read {X} (f : AdminDb → X) : AdminDb → AdminDb * result ClusterError X := λ d, (d, Ok (f d)).
Definition store_error (e : ClusterError) : Status := Unavailable "store_unavailable".
(** [.map_err(|e| self.store_error(&e))]. *)
Definition map_err {A E F} (f : E → F) (r : result E A) : result F A := match r with Ok a => Ok a | Err e => Err (f e) end.
Definition query {X} (op : AdminDb → AdminDb * result ClusterError X) : prog (result Status X) :=
  let* r := store op in Done (map_err store_error r).
Definition clock : prog Z := Clock Done.
Definition random (n : nat) : prog (list u8) := Random n Done.
Definition audit (e : AdminEvent) : prog unit := Audit e (Done tt).
Definition local {X} (op : Mem → Mem * X) : prog X := Local op Done.
Definition give {A} (r : result Status A) : prog (result Status A) := Done r.
Definition ret {A} (a : A) : prog (result Status A) := Done (Ok a).
Definition fail {A} (s : Status) : prog (result Status A) := Done (Err s).

(** ** The accessors that make two calls *)
Definition ok_or {X Y} (r : result ClusterError X) (k : X → prog (result ClusterError Y)) : prog (result ClusterError Y) :=
  match r with Ok x => k x | Err e => Done (Err e) end.
Definition admin_session_stepup_failed (h : list u8) : prog (result ClusterError Z) :=
  let* r := store (stepup_failed_stmt h) in ok_or r (λ _,
  let* r := store (read (admin_session h)) in ok_or r (λ row, Done (Ok (from_option ss_stepup_failures 0 row)))).
Definition admin_create_account (a : AdminAccountRow) (gs : list string) (t : EnrollmentTokenRow) : prog (result ClusterError unit) :=
  let* r := store (λ d, (d, check_groups_exist gs d)) in ok_or r (λ _, store (create_account_txn a gs t)).
Definition admin_bootstrap_account (a : AdminAccountRow) (gs : list string) (c : EnrollmentCompletion) (settings : list (string * string)) :
    prog (result ClusterError unit) :=
  let* r := store (λ d, (d, check_groups_exist gs d)) in ok_or r (λ _, store (bootstrap_account_txn a gs c settings)).
Definition version_if (applied : bool) (id : string) : prog (result ClusterError (option Z)) :=
  if negb applied then Done (Ok None) else
  let* r := store (read (admin_account id)) in ok_or r (λ a, Done (Ok (aa_row_version <$> a))).
Definition admin_set_account_state (id : string) (state : Z) (by_ : string) (now : Z) (expected : option Z) (need : bool) :
    prog (result ClusterError (option Z)) :=
  let* r := store (set_account_state_txn id state by_ now expected need) in ok_or r (λ applied, version_if applied id).
Definition admin_update_account (id : string) (display : option (option string)) (gs : option (list string)) (by_ : string) (now expected : Z)
    (need : bool) : prog (result ClusterError (option Z)) :=
  let* r := match gs with Some gs => store (λ d, (d, check_groups_exist gs d)) | None => Done (Ok tt) end in ok_or r (λ _,
  let* r := store (update_account_txn id display gs by_ now expected need) in ok_or r (λ applied, version_if applied id)).

(** ** The environment of a node *)
Record PeerInfo := { pi_ip : option IpAddr; pi_client_cert_sha256 : option (list u8) }.
Record WebAuthnAssertion := {
  wa_credential_id : list u8; wa_authenticator_data : list u8; wa_client_data_json : list u8; wa_signature : list u8; wa_user_handle : list u8 }.
Record WebAuthnAttestation := { wt_credential_id : list u8; wt_attestation_object : list u8; wt_client_data_json : list u8; wt_label : string }.
Record Registered := { rg_credential_id : list u8; rg_cose_public_key : list u8; rg_sign_count : Z; rg_aaguid : list u8 }.
(** Configuration, keys, tables and the verifications of webauthn.rs: an assertion over a
    challenge under a public key answers its counter and whether the key may be backed up. *)
Record AdminEnv := {
  en_config : AdminConfig; en_crypto : AdminCrypto; en_keys : AdminKeys; en_unicode : Unicode; en_argon : Argon; en_hasher : Hasher;
  en_dummy_phc : string; en_blocklist : list (list Z); en_uuid_v7 : list u8 → string;
  en_verify_assertion : list u8 → list u8 → list u8 → list u8 → list u8 → option (Z * bool);
  en_verify_registration : list u8 → list u8 → list u8 → list u8 → option Registered;
  en_client_data_challenge : list u8 → option (list u8) }.

Section State.
Context (E : AdminEnv).
Abbreviation C := (en_crypto E).
Abbreviation K := (en_keys E).
Abbreviation cfg := (en_config E).

(** The hasher runs at most four jobs, and answers [Busy] to one that waits too long. *)
Definition hash_password (password : string) : prog (result PasswordError (string * option Z)) :=
  let* salt := random 16 in Work (hash_sync (en_unicode E) (en_argon E) C (en_hasher E) salt password) Done.
Definition verify_password (password phc : string) (pepper_id : option Z) : prog (result PasswordError PwVerified) :=
  Work (verify_sync (en_unicode E) (en_argon E) C (en_hasher E) password phc pepper_id) Done.
Definition verify_dummy (password : string) : prog (result PasswordError PwVerified) :=
  verify_password password (en_dummy_phc E) (current_pepper (en_hasher E)).

Definition src_ip_hmac (ip : option IpAddr) : string := pseudonym C K "src-ip-v1" (as_bytes (canonical_ip ip)).
Definition account_ref_hmac (username_key : string) : string := pseudonym C K "username-v1" (as_bytes username_key).
(** A failed append is logged and ignored. *)
Definition security_log (event : string) (admin_id username_key : option string) (ip : option IpAddr) (detail : option string) : prog unit :=
  let* now := clock in
  let* _ := store (admin_security_log {| sl_at := now; sl_event := event; sl_admin_id := admin_id;
    sl_username_attempted_hmac := (λ u, pseudonym_raw C K "username-v1" (as_bytes u)) <$> username_key;
    sl_source_ip := (λ i, canonical_ip (Some i)) <$> ip; sl_detail := detail |}) in
  Done tt.

Definition st_issue_nonce (label : string) (binding : list (list u8)) : prog (list u8) :=
  let* now := clock in let* r := random 16 in Done (issue_nonce C K now r label binding).
Definition st_redeem_within (label : string) (nonce : list u8) (binding : list (list u8)) (ttl : Z) : prog bool :=
  let* now := clock in
  local (λ m, let '(u, b) := redeem_nonce_within C K label nonce binding ttl now (m_used_nonces m) in (put_used u m, b)).
Definition st_redeem (label : string) (nonce : list u8) (binding : list (list u8)) : prog bool :=
  st_redeem_within label nonce binding NONCE_TTL_SECS.
Definition st_allow_begin_login (ip : option IpAddr) : prog bool :=
  let* now := clock in local (λ m, let '(w, b) := allow_begin_login ip now (m_begin_login m) in (put_windows w m, b)).

(** ** Throttling *)
Definition ThrottleKeys : Type := list (KeyKind * list u8).
Definition wait_max (wait : option Z) (w : Z) : option Z := Some (match wait with Some cur => Z.max cur w | None => w end).
Fixpoint throttle_wait_loop (keys : ThrottleKeys) (now : Z) (wait : option Z) : prog (result Status (option Z)) :=
  match keys with
  | [] => ret wait
  | (_, h) :: keys =>
      let+ row := query (read (admin_throttle h)) in
      throttle_wait_loop keys now (match row ≫= λ r, locked_for r now with Some w => wait_max wait w | None => wait end)
  end.
Definition throttle_wait (keys : ThrottleKeys) : prog (result Status (option Z)) :=
  let* now := clock in throttle_wait_loop keys now None.
Fixpoint throttle_failure_loop (keys : ThrottleKeys) (now applied : Z) : prog Z :=
  match keys with
  | [] => Done applied
  | (kind, h) :: keys =>
      let* r := store (admin_throttle_increment h (key_code kind) now RESET_AFTER_SECS) in
      match r with
      | Err _ => throttle_failure_loop keys now applied
      | Ok next =>
          let lock := lock_secs kind (th_failures next) in
          if 0 <? lock then
            let* _ := store (admin_throttle_lock h (sat_i64 (now + lock))) in
            let* _ := audit (AdminLockoutApplied kind lock) in
            throttle_failure_loop keys now (Z.max applied lock)
          else throttle_failure_loop keys now applied
      end
  end.
Definition throttle_failure (keys : ThrottleKeys) : prog Z := let* now := clock in throttle_failure_loop keys now 0.
Fixpoint throttle_clear (keys : ThrottleKeys) : prog unit :=
  match keys with
  | [] => Done tt
  | (_, h) :: keys => let* _ := store (admin_clear_throttle h) in throttle_clear keys
  end.
Definition check_anomaly : prog unit :=
  let* now := clock in
  let* r := store (read (admin_security_log_count "login.failed" (now - 600))) in
  match r with
  | Err _ => Done tt
  | Ok count =>
      let* raised := local (λ m, if (ANOMALY_FAILURES_10M <? count) && (60 <=? sat_i64 (now - m_last_anomaly_at m)) then (put_anomaly now m, true) else (m, false)) in
      if raised : bool then audit (AdminLoginAnomaly (Z.min count (2 ^ 32 - 1))) else Done tt
  end.

(** ** Sessions *)
Record AdminContext := {
  cx_admin_id : string; cx_session_ref : string; cx_groups : list string; cx_permissions : list Permission; cx_aal : Z; cx_mfa_at : Z;
  cx_source_ip : option IpAddr; cx_client_kind : Z; cx_restricted : bool; cx_factor_enrollment_required : bool; cx_session_hash : list u8 }.
Definition has (ctx : AdminContext) (p : Permission) : bool := bool_decide (p ∈ cx_permissions ctx).
Record Verified := { vf_method : MfaMethod; vf_aal : Z }.
Definition verified_totp : Verified := {| vf_method := Totp; vf_aal := mfa_aal Totp |}.

Definition revoke_session (row : AdminSessionRow) (reason : RevokeReason) (by_ : option string) : prog unit :=
  let* now := clock in
  let* r := store (admin_revoke_session (ss_hash row) now (reason_code reason)) in
  match r with
  | Ok true => audit (AdminSessionRevoked (ss_admin_id row) (session_ref C (ss_hash row)) by_ reason)
  | _ => Done tt
  end.
Fixpoint revoke_each (rows : list AdminSessionRow) (reason : RevokeReason) (by_ : option string) : prog unit :=
  match rows with
  | [] => Done tt
  | row :: rows => let* _ := revoke_session row reason by_ in revoke_each rows reason by_
  end.
Definition revoke_all_sessions (admin_id : string) (keep : option (list u8)) (reason : RevokeReason) (by_ : option string) : prog (result Status unit) :=
  let+ live := query (read (admin_live_sessions admin_id)) in
  let* _ := revoke_each (List.filter (λ r, match keep with Some k => negb (is_ (ss_hash r) k) | None => true end) live) reason by_ in
  ret tt.
(** The oldest sessions beyond the cap are evicted. *)
Definition to_evict (live : list AdminSessionRow) : list AdminSessionRow := take (length live - (MAX_SESSIONS_PER_ACCOUNT - 1)) live.
Definition open_session (account : AdminAccountRow) (peer : PeerInfo) (client : Z * option string) (verified : Verified) (restricted : bool) :
    prog (result Status (list u8 * AdminSessionRow)) :=
  let* now := clock in
  let+ live := query (read (admin_live_sessions (aa_admin_id account))) in
  let* _ := revoke_each (to_evict (List.filter (λ r, bool_decide (liveness r now = Live)) live)) Evicted None in
  let* raw := random 32 in
  let '(token, hash) := new_session_token C raw in
  let row := MkSession hash (aa_admin_id account) now now (sat_i64 (now + cfg_absolute_lifetime_secs cfg)) (cfg_idle_timeout_secs cfg)
    (vf_aal verified) now (mfa_code (vf_method verified)) (canonical_ip (pi_ip peer)) (pi_client_cert_sha256 peer) client.1 client.2
    (if restricted then 1 else 0) None None 0 in
  let+ _ := query (admin_insert_session row) in
  ret (token, row).

(** ** Second factors *)
(** [check_totp]: the code matches a step newer than the stored one, and the store advances it. *)
Definition check_totp (account : AdminAccountRow) (code : string) : prog (result Status bool) :=
  match aa_totp_secret_enc account with
  | None => ret false
  | Some sealed =>
      match open_totp C K (aa_admin_id account) sealed with
      | None => fail (Unavailable "store_unavailable")
      | Some secret =>
          let* now := clock in
          match totp_verify (ac_hmac_sha1 C) secret (as_bytes code) now (aa_totp_last_step account) with
          | None => ret false
          | Some step => query (admin_advance_totp_step (aa_admin_id account) step)
          end
      end
  end.
Definition second_factor_failed (ctx : AdminContext) : prog unit :=
  match cx_session_hash ctx with
  | [] => Done tt
  | _ =>
      let* r := admin_session_stepup_failed (cx_session_hash ctx) in
      match r with
      | Ok n =>
          if MAX_STEP_UP_FAILURES <=? n then
            let* s := store (read (admin_session (cx_session_hash ctx))) in
            match s with Ok (Some row) => revoke_session row StepUpFailures None | _ => Done tt end
          else Done tt
      | Err _ => Done tt
      end
  end.
End State.
