(* ===== verification/AdminAuthz.v ===== *)
(** Authentication and authorization of administrator calls: [AdminAuthz] of
    crates/cmis/src/admin/authz.rs and the layer of layer.rs in front of every listener. *)
From S2P Require Import Prelude AppModel AppDedup AppSchema Order Composite AppPath AllowlistCompile AdminStore AdminPolicy AdminKeys AdminPassword AdminState.
Open Scope Z_scope.

Section Authz.
Context (E : AdminEnv).
Abbreviation C := (en_crypto E).
Abbreviation cfg := (en_config E).

Definition session_invalid {A} : prog (result Status A) := fail (Unauthenticated "session_invalid").
(** Caller-chosen paths are cut to 128 characters. *)
Definition bounded_path (path : string) : string := text (take 128 (chars path)).
Definition deny (ctx : option AdminContext) (path : string) (rule : SessionRule) (reason : string) : prog unit :=
  audit (AdminAccessDenied (cx_admin_id <$> ctx) (bounded_path path) (from_option permission_str "" (sr_permission rule)) reason).
Definition require_step_up (ctx : AdminContext) : prog (result Status unit) :=
  let* now := clock in
  if cfg_step_up_window_secs cfg <? sat_i64 (now - cx_mfa_at ctx) then fail (FailedPrecondition "step_up_required") else ret tt.
Definition revoke_and_refuse {A} (row : AdminSessionRow) (reason : RevokeReason) : prog (result Status A) :=
  let* _ := revoke_session E row reason None in session_invalid.

(** [authorize], in the order of its checks. *)
Definition check_session (row : AdminSessionRow) (peer : PeerInfo) (now : Z) : prog (result Status unit) :=
  match liveness row now with
  | Revoked => session_invalid
  | Idle => revoke_and_refuse row RrIdle
  | Absolute => revoke_and_refuse row RrAbsolute
  | Live =>
      if cfg_session_bind_ip cfg && negb (not_null (pi_ip peer) && is_ (canonical_ip (pi_ip peer)) (ss_source_ip row))
      then revoke_and_refuse row IpMismatch
      else if match ss_client_cert row with Some bound => negb (bool_decide (pi_client_cert_sha256 peer = Some bound)) | None => false end
      then revoke_and_refuse row CertMismatch
      else ret tt
  end.
Definition make_context (row : AdminSessionRow) (account : AdminAccountRow) (groups permissions : list string) (peer : PeerInfo) (now : Z) : AdminContext :=
  {| cx_admin_id := aa_admin_id account; cx_session_ref := session_ref C (ss_hash row); cx_groups := groups;
     cx_permissions := omap permission_parse permissions; cx_aal := ss_aal row; cx_mfa_at := ss_mfa_at row; cx_source_ip := pi_ip peer;
     cx_client_kind := ss_client_kind row; cx_restricted := password_expired account now;
     cx_factor_enrollment_required := fido2_required cfg (ss_client_kind row) groups && negb (ss_mfa_method row =? mfa_code WebAuthn);
     cx_session_hash := ss_hash row |}.
(** The rule of the method on the context. *)
Definition refuse (ctx : AdminContext) (path : string) (rule : SessionRule) (reason : string) (s : Status) : prog (result Status unit) :=
  let* _ := deny (Some ctx) path rule reason in fail s.
Definition check_rule (ctx : AdminContext) (path : string) (rule : SessionRule) : prog (result Status unit) :=
  if cx_restricted ctx && negb (sr_allow_restricted rule)
  then refuse ctx path rule "password_expired" (FailedPrecondition "password_expired")
  else if cx_factor_enrollment_required ctx && negb (sr_allow_factor_enrollment rule)
  then refuse ctx path rule "factor_enrollment_required" (FailedPrecondition "factor_enrollment_required")
  else if match sr_permission rule with Some p => negb (has ctx p) | None => false end
  then refuse ctx path rule "permission_denied" (PermissionDenied "permission_denied")
  else if sr_step_up rule then require_step_up ctx else ret tt.
Definition touch (row : AdminSessionRow) (now : Z) : prog unit :=
  if TOUCH_INTERVAL_SECS <=? sat_i64 (now - ss_last_seen_at row)
  then let* _ := store (admin_touch_session (ss_hash row) now) in Done tt else Done tt.
Definition authorize (path : string) (rule : SessionRule) (authorization : option (list u8)) (peer : PeerInfo) : prog (result Status AdminContext) :=
  let* now := clock in
  match authorization ≫= bearer_token with
  | None => session_invalid
  | Some token =>
      let hash := ac_sha256 C token in
      let+ found := query (read (admin_session hash)) in
      match found with
      | None => session_invalid
      | Some row =>
          let+ _ := check_session row peer now in
          let+ account := query (read (admin_account (ss_admin_id row))) in
          match account with
          | Some account =>
              if aa_state account =? ACCOUNT_ACTIVE then
                let+ groups := query (read (admin_groups_of (aa_admin_id account))) in
                let+ permissions := query (read (admin_permissions_of (aa_admin_id account))) in
                let ctx := make_context row account groups permissions peer now in
                let+ _ := check_rule ctx path rule in
                let* _ := touch row now in
                let* _ := audit (AdminCallAuthorized (cx_admin_id ctx) (cx_session_ref ctx) path) in
                ret ctx
              else revoke_and_refuse row AccountInactive
          | None => revoke_and_refuse row AccountInactive
          end
      end
  end.

(** [require], called by every handler on the context the layer put into its request. *)
Definition require (ctx : option AdminContext) (path : string) : result Status AdminContext :=
  match access_for path with
  | Some (Session rule) =>
      match ctx with
      | None => Err (Unauthenticated "session_invalid")
      | Some ctx =>
          if match sr_permission rule with Some p => negb (has ctx p) | None => false end then Err (PermissionDenied "permission_denied")
          else if cx_restricted ctx && negb (sr_allow_restricted rule) then Err (FailedPrecondition "password_expired")
          else if cx_factor_enrollment_required ctx && negb (sr_allow_factor_enrollment rule) then Err (FailedPrecondition "factor_enrollment_required")
          else Ok ctx
      end
  | _ => Err (PermissionDenied "method_not_classified")
  end.

(** ** Separation of duties *)
Definition check_group_set (gs : list string) : result Status unit :=
  if cfg_strict_sod cfg && existsb (λ g, is_ g ACCOUNT_ADMINS) gs && existsb (λ g, is_ g APPROVERS) gs
  then Err (PermissionDenied "sod_violation") else Ok tt.
Definition check_sod (actor : AdminContext) (target : string) (new_groups : option (list string)) : result Status unit :=
  if is_ (cx_admin_id actor) target then Err (PermissionDenied "sod_violation") else
  match new_groups with Some g => check_group_set g | None => Ok tt end.
Definition check_last_account_admin (target : AdminAccountRow) (removes : bool) : prog (result Status unit) :=
  if negb removes || negb (aa_state target =? ACCOUNT_ACTIVE) then ret tt else
  let+ admins := query (read (admin_active_members_of ACCOUNT_ADMINS)) in
  if forallb (λ a, is_ a (aa_admin_id target)) admins then fail (PermissionDenied "sod_violation") else ret tt.
End Authz.

(** ** The layer (layer.rs) *)
Inductive ListenerKind := Main | Admin.
#[export] Instance ListenerKind_eq_dec : EqDecision ListenerKind.
Proof. solve_decision. Defined.
Record LayerConfig := { lc_authz : option AdminEnv; lc_listener : ListenerKind; lc_tls : bool; lc_legacy_admin_on_main : bool }.
Definition UNCLASSIFIED_AUDIT_INTERVAL_SECS : Z := 60.
Definition NO_RULE : SessionRule :=
  {| sr_permission := None; sr_step_up := false; sr_allow_restricted := false; sr_allow_factor_enrollment := false |}.
(** What of a request the layer reads and writes: the path, the header and the context. *)
Record Request := { rq_path : string; rq_authorization : option (list u8); rq_peer : PeerInfo; rq_context : option AdminContext }.
Definition set_context (c : option AdminContext) (r : Request) : Request :=
  {| rq_path := rq_path r; rq_authorization := rq_authorization r; rq_peer := rq_peer r; rq_context := c |}.
Definition drop_authorization (r : Request) : Request :=
  {| rq_path := rq_path r; rq_authorization := None; rq_peer := rq_peer r; rq_context := rq_context r |}.

Definition unclassified (c : LayerConfig) (path : string) : prog unit :=
  match lc_authz c with
  | None => Done tt
  | Some E =>
      let* now := clock in
      let* due := local (λ m, if UNCLASSIFIED_AUDIT_INTERVAL_SECS <=? sat_i64 (now - m_last_unclassified_audit m) then (put_unclassified now m, true) else (m, false)) in
      if due : bool then deny None path NO_RULE "method_not_classified" else Done tt
  end.
Definition layer_admit (c : LayerConfig) (req : Request) : prog (result Status Request) :=
  let req := set_context None req in
  let path := rq_path req in
  match access_for path with
  | None => let* _ := unclassified c path in fail (PermissionDenied "method_not_classified")
  | Some access =>
      if String.prefix ADMIN_PREFIX path && bool_decide (lc_listener c = Main) then fail (StUnimplemented "admin_listener_only") else
      match access with
      | Public | Host => ret req
      | AdminPublic =>
          if negb (lc_tls c) then fail (FailedPrecondition "tls_required")
          else match lc_authz c with None => fail (Unavailable "auth_unavailable") | Some _ => ret req end
      | Session rule =>
          if negb (lc_tls c) then fail (FailedPrecondition "tls_required")
          else if bool_decide (lc_listener c = Main) && negb (lc_legacy_admin_on_main c) then fail (StUnimplemented "admin_listener_only")
          else match lc_authz c with
               | None => fail (Unavailable "auth_unavailable")
               | Some E =>
                   let+ ctx := authorize E path rule (rq_authorization req) (rq_peer req) in
                   ret (set_context (Some ctx) (drop_authorization req))
               end
      end
  end.
