(* ===== verification/AdminRuns.v ===== *)
(** Runs of the flows of the administrator plane among others.

    A store call is executed, lost, or executed with its answer lost.  Between the steps of
    a flow anyone else may make any sequence of calls: [env].  [history_steps] justifies it:
    every step of every flow whose calls are accessors of the store is such a sequence. *)
From S2P Require Import Prelude AppModel AppDedup AppSchema Order Composite AppPath AllowlistCompile AdminStore AdminStoreProofs AdminGuard AdminPolicy AdminKeys AdminPassword AdminState.
Open Scope Z_scope.

Record World := { w_db : AdminDb; w_mem : Mem; w_audit : list AdminEvent }.
Definition put_db (d : AdminDb) (w : World) : World := {| w_db := d; w_mem := w_mem w; w_audit := w_audit w |}.
Definition put_mem (m : Mem) (w : World) : World := {| w_db := w_db w; w_mem := m; w_audit := w_audit w |}.
Definition put_audit (e : AdminEvent) (w : World) : World := {| w_db := w_db w; w_mem := w_mem w; w_audit := w_audit w ++ [e] |}.

Inductive answer {X} (op : AdminDb → AdminDb * result ClusterError X) (d : AdminDb) : AdminDb → result ClusterError X → Prop :=
  | an_answered d' r : op d = (d', r) → answer op d d' r
  | an_lost : answer op d d (Err StoreFailed)
  | an_unanswered d' r : op d = (d', r) → answer op d d' (Err StoreFailed).

(** ** One flow *)
(** What others do to the store meanwhile; nothing is assumed of the node's memory. *)
Definition later (d d' : AdminDb) : Prop := ∃ os, d' = run_ops os d.
Definition env (w w' : World) : Prop := later (w_db w) (w_db w').
#[export] Instance later_order : PreOrder later.
Proof.
  split; [by exists []|]. intros d1 d2 d3 [os ->] [os' ->]. exists (os ++ os'). unfold run_ops. by rewrite foldl_app.
Qed.
#[export] Instance env_order : PreOrder env.
Proof. split; [intros w; unfold env; done|]. intros w1 w2 w3. unfold env. apply transitivity. Qed.

(** What a flow sees on its way: a reading of the clock, the node's memory before and after an
    access of its own, the store before and after a call of its own. *)
Inductive seen := SawClock (t : Z) | SawMem (m m' : Mem) | SawStore (d d' : AdminDb).

Section Runs.
(** [run O p w w' a]: from [w], [p] may answer [a] in [w'], and [O] holds of all it sees.  A
    theorem for every [O] that concludes [O] of something says that the flow itself saw it. *)
Context (O : seen → Prop).
Fixpoint run {A} (p : prog A) (w w' : World) (a : A) : Prop :=
  match p with
  | Done x => env w w' ∧ x = a
  | Store op k => ∃ w0 d1 r, env w w0 ∧ answer op (w_db w0) d1 r ∧ O (SawStore (w_db w0) d1) ∧ run (k r) (put_db d1 w0) w' a
  | Local op k => ∃ w0, env w w0 ∧ let '(m, x) := op (w_mem w0) in O (SawMem (w_mem w0) m) ∧ run (k x) (put_mem m w0) w' a
  | Clock k => ∃ w0 t, env w w0 ∧ O (SawClock t) ∧ run (k t) w0 w' a
  | Random n k => ∃ w0 b, env w w0 ∧ length b = n ∧ run (k b) w0 w' a
  | Work r k => ∃ w0 x, env w w0 ∧ (x = r ∨ x = Err Busy) ∧ run (k x) w0 w' a
  | Audit e k => ∃ w0, env w w0 ∧ run k (put_audit e w0) w' a
  end.
End Runs.

Section RunLemmas.
Context {O : seen → Prop}.
Lemma run_env {A} (p : prog A) w w0 w' a : env w w0 → run O p w0 w' a → run O p w w' a.
Proof.
  intros He. destruct p; cbn [run].
  - intros [H ->]. split; [by etransitivity|done].
  - intros (w1 & d1 & r & H & Hr). exists w1, d1, r. split; [by etransitivity|done].
  - intros (w1 & H & Hr). exists w1. split; [by etransitivity|done].
  - intros (w1 & t & H & Hr). exists w1, t. split; [by etransitivity|done].
  - intros (w1 & b & H & Hr). exists w1, b. split; [by etransitivity|done].
  - intros (w1 & x & H & Hr). exists w1, x. split; [by etransitivity|done].
  - intros (w1 & H & Hr). exists w1. split; [by etransitivity|done].
Qed.
Lemma run_bind {A B} (p : prog A) (f : A → prog B) w w' b : run O (bind p f) w w' b ↔ ∃ w1 a, run O p w w1 a ∧ run O (f a) w1 w' b.
Proof.
  revert w. induction p; intros w; cbn [bind run].
  - split; [intros Hr; exists w, a; by split_and!|]. intros (w1 & x & [He ->] & Hr). by eapply run_env.
  - split.
    + intros (w0 & d1 & r & He & Ha & Ho & (w1 & a & H1 & H2)%H). exists w1, a. split; [by exists w0, d1, r|done].
    + intros (w1 & a & (w0 & d1 & r & He & Ha & Ho & H1) & H2). exists w0, d1, r. split_and!; [done..|]. apply H. by exists w1, a.
  - split.
    + intros (w0 & He & Hr). destruct (op (w_mem w0)) as [m x] eqn:Eo. destruct Hr as [Ho Hr]. apply H in Hr as (w1 & a & H1 & H2).
      exists w1, a. split; [|done]. exists w0. rewrite Eo. done.
    + intros (w1 & a & (w0 & He & Hr) & Hf). exists w0. split; [done|]. destruct (op (w_mem w0)) as [m x], Hr as [Ho Hr]. split; [done|].
      apply H. by exists w1, a.
  - split.
    + intros (w0 & t & He & Ho & (w1 & a & H1 & H2)%H). exists w1, a. split; [by exists w0, t|done].
    + intros (w1 & a & (w0 & t & He & Ho & H1) & H2). exists w0, t. split_and!; [done..|]. apply H. by exists w1, a.
  - split.
    + intros (w0 & t & He & Hn & (w1 & a & H1 & H2)%H). exists w1, a. split; [by exists w0, t|done].
    + intros (w1 & a & (w0 & t & He & Hn & H1) & H2). exists w0, t. split_and!; [done..|]. apply H. by exists w1, a.
  - split.
    + intros (w0 & t & He & Hn & (w1 & a & H1 & H2)%H). exists w1, a. split; [by exists w0, t|done].
    + intros (w1 & a & (w0 & t & He & Hn & H1) & H2). exists w0, t. split_and!; [done..|]. apply H. by exists w1, a.
  - split.
    + intros (w0 & He & (w1 & a & H1 & H2)%IHp). exists w1, a. split; [by exists w0|done].
    + intros (w1 & a & (w0 & He & H1) & H2). exists w0. split; [done|]. apply IHp. by exists w1, a.
Qed.
Lemma run_try {A B} (p : prog (result Status A)) (f : A → prog (result Status B)) w w' b : run O (try_bind p f) w w' (Ok b) →
  ∃ w1 a, run O p w w1 (Ok a) ∧ run O (f a) w1 w' (Ok b).
Proof.
  intros (w1 & [a|s] & H1 & H2)%run_bind; [by exists w1, a|]. cbn in H2. by destruct H2.
Qed.
(** A read answers what the store holds at some moment between. *)
Lemma run_store {X} (op : AdminDb → AdminDb * result ClusterError X) w w' r : run O (store op) w w' r →
  ∃ d d1, later (w_db w) d ∧ answer op d d1 r ∧ O (SawStore d d1) ∧ later d1 (w_db w').
Proof. intros (w0 & d1 & r' & He & Ha & Ho & [He' ->]). by exists (w_db w0), d1. Qed.
Lemma run_query {X} (op : AdminDb → AdminDb * result ClusterError X) w w' x : run O (query op) w w' (Ok x) →
  ∃ d d1, later (w_db w) d ∧ (op d = (d1, Ok x) ∧ O (SawStore d d1)) ∧ later d1 (w_db w').
Proof.
  intros (w1 & r & (d & d1 & H1 & Ha & Ho & H2)%run_store & [H3 E])%run_bind. exists d, d1. split; [done|].
  split; [|by etransitivity]. split; [|done]. destruct r as [y|]; [|done]. injection E as ->. by inversion Ha.
Qed.
Lemma run_read {X} (f : AdminDb → X) w w' x : run O (query (read f)) w w' (Ok x) →
  ∃ d, (later (w_db w) d ∧ O (SawStore d d)) ∧ x = f d ∧ later d (w_db w').
Proof. intros (d & d1 & H1 & [[= <- <-] Ho] & H2)%run_query. by exists d. Qed.
Lemma run_clock w w' t : run O clock w w' t → env w w' ∧ O (SawClock t).
Proof. intros (w0 & t' & H & Ho & H' & ->). split; [by etransitivity|done]. Qed.
End RunLemmas.

(** ** A flow alone *)
(** The flow on an idle node, every call answered, at the time [t] and with the bytes [rnd]. *)
Fixpoint exec {A} (t : Z) (rnd : nat → list u8) (p : prog A) (w : World) : World * A :=
  match p with
  | Done x => (w, x)
  | Store op k => let '(d, r) := op (w_db w) in exec t rnd (k r) (put_db d w)
  | Local op k => let '(m, x) := op (w_mem w) in exec t rnd (k x) (put_mem m w)
  | Clock k => exec t rnd (k t) w
  | Random n k => exec t rnd (k (rnd n)) w
  | Work r k => exec t rnd (k r) w
  | Audit e k => exec t rnd k (put_audit e w)
  end.
Lemma exec_bind {A B} t rnd (p : prog A) (f : A → prog B) w : exec t rnd (bind p f) w = let '(w1, a) := exec t rnd p w in exec t rnd (f a) w1.
Proof.
  revert w. induction p as [x|X op k IH|X op k IH|k IH|n k IH|X r k IH|e k IH]; intros w; cbn [bind exec]; [done|..].
  - destruct (op (w_db w)). apply IH.
  - destruct (op (w_mem w)). apply IH.
  - apply IH.
  - apply IH.
  - apply IH.
  - apply IH.
Qed.
(** It is one of its runs, with that time on the clock. *)
Definition at_time (t : Z) (s : seen) : Prop := match s with SawClock t' => t' = t | _ => True end.
Lemma exec_run {A} t rnd (p : prog A) w w' a : (∀ n, length (rnd n) = n) → exec t rnd p w = (w', a) → run (at_time t) p w w' a.
Proof.
  intros Hrnd. revert w. induction p as [x|X op k IH|X op k IH|k IH|n k IH|X r k IH|e k IH]; intros w; cbn [exec run].
  - by intros [= <- <-].
  - destruct (op (w_db w)) as [d r] eqn:Eo. intros Hr%IH. exists w, d, r. split_and!; [done|by constructor|exact I|done].
  - destruct (op (w_mem w)) as [m x] eqn:Eo. intros Hr%IH. exists w. rewrite Eo. done.
  - intros Hr%IH. by exists w, t.
  - intros Hr%IH. by exists w, (rnd n).
  - intros Hr%IH. exists w, r. split_and!; [done|by left|done].
  - intros Hr%IH. by exists w.
Qed.

(** ** Flows whose calls are accessors *)
Definition store_ok (G : AdminOp → Prop) {X} (op : AdminDb → AdminDb * result ClusterError X) : Prop :=
  ∀ d, (op d).1 = d ∨ ∃ o, G o ∧ (op d).1 = run_op o d.
Fixpoint calls_in (G : AdminOp → Prop) {A} (p : prog A) : Prop :=
  match p with
  | Done _ => True
  | Store op k => store_ok G op ∧ ∀ r, calls_in G (k r)
  | Local _ k => ∀ x, calls_in G (k x)
  | Clock k => ∀ t, calls_in G (k t)
  | Random _ k => ∀ b, calls_in G (k b)
  | Work _ k => ∀ x, calls_in G (k x)
  | Audit _ k => calls_in G k
  end.
Lemma calls_bind G {A B} (p : prog A) (f : A → prog B) : calls_in G p → (∀ a, calls_in G (f a)) → calls_in G (bind p f).
Proof. intros Hp Hf. induction p; cbn [bind calls_in] in *; naive_solver. Qed.
Lemma calls_try G {A B} (p : prog (result Status A)) (f : A → prog (result Status B)) : calls_in G p → (∀ a, calls_in G (f a)) → calls_in G (try_bind p f).
Proof. intros Hp Hf. apply calls_bind; [done|]. by intros [a|s]. Qed.
Lemma read_ok G {X} (f : AdminDb → X) : store_ok G (read f).
Proof. by left. Qed.
Lemma op_ok (G : AdminOp → Prop) {X} (op : AdminDb → AdminDb * result ClusterError X) o : G o → (∀ d, (op d).1 = run_op o d) → store_ok G op.
Proof. intros Ho H d. right. by exists o. Qed.
Lemma calls_store G {X} (op : AdminDb → AdminDb * result ClusterError X) : store_ok G op → calls_in G (store op).
Proof. intros H. by split. Qed.
Lemma calls_query G {X} (op : AdminDb → AdminDb * result ClusterError X) : store_ok G op → calls_in G (query op).
Proof. intros H. split; [done|]. by intros r. Qed.

(** One step of a flow. *)
Definition step {A} (p : prog A) (w w1 : World) (p1 : prog A) : Prop :=
  match p with
  | Done _ => False
  | Store op k => ∃ d1 r, answer op (w_db w) d1 r ∧ w1 = put_db d1 w ∧ p1 = k r
  | Local op k => let '(m, x) := op (w_mem w) in w1 = put_mem m w ∧ p1 = k x
  | Clock k => ∃ t, w1 = w ∧ p1 = k t
  | Random n k => ∃ b, length b = n ∧ w1 = w ∧ p1 = k b
  | Work r k => ∃ x, (x = r ∨ x = Err Busy) ∧ w1 = w ∧ p1 = k x
  | Audit e k => w1 = put_audit e w ∧ p1 = k
  end.
Lemma step_history G {A} (p p1 : prog A) w w1 : calls_in G p → step p w w1 p1 →
  calls_in G p1 ∧ ∃ os, Forall G os ∧ w_db w1 = run_ops os (w_db w).
Proof.
  intros Hc Hs. destruct p; cbn [step calls_in] in *.
  - done.
  - destruct Hs as (d1 & r & Ha & -> & ->), Hc as [Hop Hk]. split; [done|]. cbn.
    assert (d1 = w_db w ∨ (op (w_db w)).1 = d1) as [->|E] by (destruct Ha as [d' r E| |d' r E]; [right; by rewrite E|by left|right; by rewrite E]).
    + by exists [].
    + destruct (Hop (w_db w)) as [E'|(o & Ho & E')]; [exists []; split; [done|]; cbn; congruence|]. exists [o]. split; [by constructor|]. cbn. congruence.
  - destruct (op (w_mem w)) as [m x]. destruct Hs as [-> ->]. split; [done|]. by exists [].
  - destruct Hs as (t & -> & ->). split; [done|]. by exists [].
  - destruct Hs as (b & _ & -> & ->). split; [done|]. by exists [].
  - destruct Hs as (x & _ & -> & ->). split; [done|]. by exists [].
  - destruct Hs as [-> ->]. split; [done|]. by exists [].
Qed.

(** ** Any number of flows on any number of nodes *)
Record Thread := { th_result : Type; th_prog : prog th_result; th_node : nat }.
Record System := { sy_db : AdminDb; sy_mem : nat → Mem; sy_audit : list AdminEvent; sy_threads : list Thread }.
Definition world_of (s : System) (n : nat) : World := {| w_db := sy_db s; w_mem := sy_mem s n; w_audit := sy_audit s |}.
Section System.
(** The flows that may start. *)
Context (starts : Thread → Prop).
Inductive sys_step : System → System → Prop :=
  | sys_thread s t1 t2 A (p p1 : prog A) n w1 :
      sy_threads s = t1 ++ {| th_result := A; th_prog := p; th_node := n |} :: t2 →
      step p (world_of s n) w1 p1 →
      sys_step s {| sy_db := w_db w1; sy_mem := λ i, if bool_decide (i = n) then w_mem w1 else sy_mem s i; sy_audit := w_audit w1;
                    sy_threads := t1 ++ {| th_result := A; th_prog := p1; th_node := n |} :: t2 |}
  | sys_start s t : starts t →
      sys_step s {| sy_db := sy_db s; sy_mem := sy_mem s; sy_audit := sy_audit s; sy_threads := t :: sy_threads s |}.

Context (G : AdminOp → Prop) (Hstarts : ∀ t, starts t → calls_in G (th_prog t)).
Definition threads_in (s : System) : Prop := Forall (λ t, calls_in G (th_prog t)) (sy_threads s).
Lemma sys_step_history s s' : sys_step s s' → threads_in s → threads_in s' ∧ ∃ os, Forall G os ∧ sy_db s' = run_ops os (sy_db s).
Proof.
  intros Hs Ht. destruct Hs as [s t1 t2 A p p1 n w1 Et Hstep|s t Hst]; [|split; [constructor; [by apply Hstarts|done]|by exists []]].
  unfold threads_in in *. rewrite Et in Ht. apply Forall_app in Ht as [H1 Ht]. apply Forall_cons in Ht as [Hp H2]. cbn in Hp.
  destruct (step_history G p p1 _ _ Hp Hstep) as (Hp1 & os & Hos & E). split; [|by exists os]. apply Forall_app. split; [done|]. by constructor.
Qed.
(** The store of a system of such flows is a history of accessor calls in [G]. *)
Lemma sys_history s s' : rtc sys_step s s' → threads_in s → threads_in s' ∧ ∃ os, Forall G os ∧ sy_db s' = run_ops os (sy_db s).
Proof.
  intros Hr. induction Hr as [s|s s1 s2 Hs Hr IH]; intros Ht; [split; [done|]; by exists []|].
  destruct (sys_step_history _ _ Hs Ht) as (Ht1 & os1 & Hos1 & E1). destruct (IH Ht1) as (Ht2 & os & Hos & E). split; [done|].
  exists (os1 ++ os). split; [by apply Forall_app|]. rewrite E, E1. unfold run_ops. by rewrite foldl_app.
Qed.
End System.
