(* ===== verification/AdminFactorFlows.v ===== *)
(** Text clean-up of state.rs and the second-factor flows of
    crates/cmis/src/admin/factors.rs. *)
From S2P Require Import Prelude AppModel AppDedup AppSchema Order Composite AppPath AllowlistCompile AdminStore AdminPolicy AdminKeys AdminPassword AdminState AdminAuthz.
Open Scope Z_scope.

Definition CREATION_TTL_SECS : Z := 600.
Definition MAX_LABEL_CHARS : nat := 64.
Definition DEFAULT_KEY_LABEL : string := "Security key".
Definition FACTOR_TOTP : string := "totp".
Definition ADD_FACTOR_NONCE : string := "addfactor-v1".
Definition ENROLL_WEBAUTHN_NONCE : string := "enroll-webauthn-v1".
Definition STEP_UP_NONCE : string := "stepup-v1".
Definition MAX_CREDENTIAL_ID_LEN : nat := 1023.
Definition MAX_USER_HANDLE_LEN : nat := 64.
Inductive ChallengePurpose := PLogin | PStepUp | PAddFactor.
Definition purpose_label (p : ChallengePurpose) : string :=
  match p with PLogin => "webauthn-challenge-login-v1" | PStepUp => "webauthn-challenge-stepup-v1" | PAddFactor => "webauthn-challenge-addfactor-v1" end.
Inductive ProofFactor := TotpCode (code : string) | Assertion (a : WebAuthnAssertion).
Record MfaProof := { mp_f : option ProofFactor; mp_nonce : list u8 }.

(** [counter_advances] and [aal] (webauthn.rs). *)
Definition counter_advances (stored received : Z) : bool := ((stored =? 0) && (received =? 0)) || (stored <? received).
Definition webauthn_aal (backup_eligible : bool) : Z := if backup_eligible then 2 else 3.
Definition invalid_credentials : Status := Unauthenticated "invalid_credentials".
Definition is_empty (s : string) : bool := is_ s "".
Definition no_creds {A} (l : list A) : bool := match l with [] => true | _ => false end.

Section Flows.
Context (E : AdminEnv).
Abbreviation C := (en_crypto E).
Abbreviation K := (en_keys E).
Abbreviation cfg := (en_config E).
Abbreviation U := (en_unicode E).

(** ** Text (state.rs) *)
Definition normalize_username (raw : string) : option string :=
  if (256 <? String.length raw)%nat then None else
  let n := text (un_lowercase U (un_nfkc U (un_trim U (chars raw)))) in
  if (3 <=? String.length n)%nat && (String.length n <=? 64)%nat
     && forallb (λ b, is_ascii_lowercase b || is_ascii_digit b || is_byte 46 b || is_byte 95 b || is_byte 45 b) (as_bytes n)
  then Some n else None.
Definition username_throttle_key (raw : string) : string :=
  match normalize_username raw with Some n => n | None => text (un_lowercase U (take 128 (un_trim U (chars raw)))) end.
Definition clean_chars (raw : string) : list Z :=
  un_trim U (List.filter (λ c, negb (is_control U c) && negb (in_range 0x202A 0x202E c || in_range 0x2066 0x2069 c)) (un_nfkc U (chars raw))).
Definition clean_display_name (raw : string) : option string :=
  if (1024 <? String.length raw)%nat then None else
  if (length (clean_chars raw) <=? 128)%nat then Some (text (clean_chars raw)) else None.
Definition clean_label (raw : string) : result Status string :=
  match clean_display_name raw with
  | Some l => if (length (chars l) <=? MAX_LABEL_CHARS)%nat then Ok (if is_empty l then DEFAULT_KEY_LABEL else l) else Err (InvalidArgument "invalid_label" None)
  | None => Err (InvalidArgument "invalid_label" None)
  end.

(** ** Verification (factors.rs) *)
Definition factor_id (credential_id : list u8) : string := String.append "wa_" (ac_hex C (take 12 (ac_sha256 C credential_id))).
Definition add_factor_aad (nonce : list u8) : string := String.append "addfactor:" (ac_hex C nonce).
Definition pending_aad (token_hash : list u8) : string := String.append "enroll:" (ac_hex C token_hash).
Definition webauthn_challenge (p : ChallengePurpose) (nonce : list u8) : list u8 := mac C K (purpose_label p) [nonce].
Definition webauthn_user_handle (admin_id : string) : list u8 := mac C K "webauthn-user-v1" [as_bytes admin_id].

Definition webauthn_credentials (admin_id : string) : prog (result Status (list WebAuthnCredentialRow)) := query (read (admin_webauthn_credentials admin_id)).
Definition factor_holdings (admin_id : string) : prog (result Status (AdminAccountRow * list WebAuthnCredentialRow)) :=
  let+ account := query (read (admin_account admin_id)) in
  match account with
  | None => session_invalid
  | Some account => let+ creds := webauthn_credentials admin_id in ret (account, creds)
  end.
Definition clone_detected (account : AdminAccountRow) (cred : WebAuthnCredentialRow) (ip : option IpAddr) : prog (result Status (option Verified)) :=
  let fid := factor_id (wc_credential_id cred) in
  let* _ := audit (AdminWebAuthnCloneDetected (aa_admin_id account) fid) in
  let* _ := security_log E "webauthn.clone_detected" (Some (aa_admin_id account)) None ip (Some fid) in
  ret None.
Definition check_assertion (account : AdminAccountRow) (creds : list WebAuthnCredentialRow) (a : WebAuthnAssertion) (challenge : list u8)
    (ip : option IpAddr) : prog (result Status (option Verified)) :=
  if no_creds (wa_credential_id a) || (MAX_CREDENTIAL_ID_LEN <? length (wa_credential_id a))%nat || (MAX_USER_HANDLE_LEN <? length (wa_user_handle a))%nat
  then ret None else
  match List.find (λ c, is_ (wc_admin_id c) (aa_admin_id account) && is_ (wc_credential_id c) (wa_credential_id a)) creds with
  | None => ret None
  | Some cred =>
      if negb (no_creds (wa_user_handle a)) && negb (is_ (wa_user_handle a) (webauthn_user_handle (aa_admin_id account))) then ret None else
      match en_verify_assertion E challenge (wc_cose_public_key cred) (wa_authenticator_data a) (wa_client_data_json a) (wa_signature a) with
      | None => ret None
      | Some (sign_count, backup_eligible) =>
          if negb (counter_advances (wc_sign_count cred) sign_count) then clone_detected account cred ip else
          let* now := clock in
          let+ advanced := query (admin_webauthn_used (aa_admin_id account) (wc_credential_id cred) sign_count now) in
          if advanced : bool then ret (Some {| vf_method := WebAuthn; vf_aal := webauthn_aal backup_eligible |}) else clone_detected account cred ip
      end
  end.
Definition check_attestation (admin_id : string) (att : WebAuthnAttestation) (challenge : list u8) (label : string) : prog (option WebAuthnCredentialRow) :=
  match en_verify_registration E challenge (wt_credential_id att) (wt_attestation_object att) (wt_client_data_json att) with
  | None => Done None
  | Some c =>
      let* now := clock in
      Done (Some {| wc_credential_id := rg_credential_id c; wc_admin_id := admin_id; wc_cose_public_key := rg_cose_public_key c;
        wc_sign_count := rg_sign_count c; wc_aaguid := Some (rg_aaguid c); wc_label := Some label; wc_created_at := now; wc_last_used_at := None |})
  end.
Definition check_enrollment_attestation (token_hash : list u8) (admin_id : string) (att : WebAuthnAttestation) (label : string) :
    prog (option WebAuthnCredentialRow) :=
  match en_client_data_challenge E (wt_client_data_json att) with
  | None => Done None
  | Some challenge =>
      let* row := check_attestation admin_id att challenge label in
      match row with
      | None => Done None
      | Some row =>
          let* ok := st_redeem_within E ENROLL_WEBAUTHN_NONCE challenge [token_hash] CREATION_TTL_SECS in
          Done (if ok : bool then Some row else None)
      end
  end.
(** [verify_factor]: a step-up carries its redeemed nonce, a per-operation proof its own. *)
Definition verify_factor (ctx : AdminContext) (proof : option MfaProof) (stepup_nonce : option (list u8)) : prog (result Status Verified) :=
  match proof with
  | None | Some {| mp_f := None |} => fail invalid_credentials
  | Some {| mp_f := Some f; mp_nonce := proof_nonce |} =>
      let+ (account, creds) := factor_holdings (cx_admin_id ctx) in
      let policy := factor_policy cfg (cx_client_kind ctx) (cx_groups ctx) (not_null (aa_totp_secret_enc account)) (negb (no_creds creds)) in
      let+ verified :=
        match f with
        | TotpCode code =>
            if fp_totp policy then let+ ok := check_totp E account code in ret (if ok : bool then Some verified_totp else None) else ret None
        | Assertion a =>
            if fp_webauthn policy then
              let* nonce := match stepup_nonce with
                | Some n => Done (Some n)
                | None => let* ok := st_redeem E STEP_UP_NONCE proof_nonce [cx_session_hash ctx] in Done (if ok : bool then Some proof_nonce else None)
                end in
              match nonce with
              | Some n => check_assertion account creds a (webauthn_challenge PStepUp n) (cx_source_ip ctx)
              | None => ret None
              end
            else ret None
        end in
      match verified with
      | Some v => ret v
      | None => let* _ := second_factor_failed E ctx in fail invalid_credentials
      end
  end.
Definition verify_proof (ctx : AdminContext) (proof : option MfaProof) : prog (result Status unit) :=
  let+ _ := verify_factor ctx proof None in ret tt.

(** ** Factor management *)
Record CompleteAddFactorRequest := {
  ca_idempotency_key : string; ca_label : string; ca_totp_code : string; ca_enroll_nonce : list u8; ca_attestation : option WebAuthnAttestation;
  ca_proof : option MfaProof }.
(** The TOTP and the WebAuthn half of [complete_add_factor]: the new factor's id. *)
Definition add_totp_factor (ctx : AdminContext) (nonce sealed : list u8) (code : string) : prog (result Status string) :=
  match open_totp C K (add_factor_aad nonce) sealed with
  | None => fail invalid_credentials
  | Some secret =>
      let* now := clock in
      match totp_verify (ac_hmac_sha1 C) secret (as_bytes code) now None with
      | None => fail invalid_credentials
      | Some step =>
          let* r := random 24 in
          match seal_totp C K r (cx_admin_id ctx) secret with
          | None => fail (Internal "internal_error")
          | Some stored =>
              let+ added := query (admin_add_totp (cx_admin_id ctx) stored step) in
              if added : bool then ret FACTOR_TOTP else fail (AlreadyExists "factor_exists")
          end
      end
  end.
Definition add_key_factor (ctx : AdminContext) (nonce : list u8) (req_label : string) (att : WebAuthnAttestation) : prog (result Status string) :=
  if negb (cx_client_kind ctx =? CLIENT_TRAY) then fail (FailedPrecondition "method_not_available") else
  match clean_label (if no_creds (un_trim U (chars req_label)) then wt_label att else req_label) with
  | Err s => fail s
  | Ok label =>
      let* row := check_attestation (cx_admin_id ctx) att (webauthn_challenge PAddFactor nonce) label in
      match row with
      | None => fail invalid_credentials
      | Some row =>
          let* r := store (admin_add_webauthn_credential row) in
          match r with
          | Ok true => ret (factor_id (wc_credential_id row))
          | Ok false => fail (FailedPrecondition "factor_limit")
          | Err (Conflict _) => fail (AlreadyExists "factor_exists")
          | Err e => fail (store_error e)
          end
      end
  end.
Definition complete_add_factor (cx : option AdminContext) (req : CompleteAddFactorRequest) : prog (result Status string) :=
  let+ ctx := give (require cx (adm "CompleteAddFactor")) in
  if (128 <? String.length (ca_idempotency_key req))%nat || (1024 <? String.length (ca_label req))%nat || (16 <? String.length (ca_totp_code req))%nat
  then fail (InvalidArgument "request_too_large" None) else
  match ca_attestation req, is_empty (ca_totp_code req) with
  | Some _, false | None, true => fail (InvalidArgument "one_factor_required" None)
  | att, _ =>
      let method := if not_null att then WebAuthn else Totp in
      if (length (ca_enroll_nonce req) <? NONCE_LEN)%nat then fail invalid_credentials else
      let nonce := take NONCE_LEN (ca_enroll_nonce req) in
      let* ok := st_redeem_within E ADD_FACTOR_NONCE nonce [cx_session_hash ctx; as_bytes (mfa_label method)] CREATION_TTL_SECS in
      if negb ok then fail invalid_credentials else
      let+ _ := verify_proof ctx (ca_proof req) in
      let+ factor := match att with
        | None => add_totp_factor ctx nonce (drop NONCE_LEN (ca_enroll_nonce req)) (ca_totp_code req)
        | Some att => add_key_factor ctx nonce (ca_label req) att
        end in
      let* _ := audit (AdminMfaEnrolled (cx_admin_id ctx) method) in
      let* _ := security_log E "mfa.enrolled" (Some (cx_admin_id ctx)) None (cx_source_ip ctx) (Some factor) in
      ret factor
  end.
Record RemoveFactorRequest := { rf_idempotency_key : string; rf_factor_id : string; rf_proof : option MfaProof }.
Definition remove_factor (cx : option AdminContext) (req : RemoveFactorRequest) : prog (result Status unit) :=
  let+ ctx := give (require cx (adm "RemoveFactor")) in
  if (128 <? String.length (rf_idempotency_key req))%nat || (64 <? String.length (rf_factor_id req))%nat
  then fail (InvalidArgument "request_too_large" None) else
  let+ (account, creds) := factor_holdings (cx_admin_id ctx) in
  let key := wc_credential_id <$> List.find (λ c, is_ (factor_id (wc_credential_id c)) (rf_factor_id req)) creds in
  let totp := is_ (rf_factor_id req) FACTOR_TOTP && not_null (aa_totp_secret_enc account) in
  if negb totp && is_null key then fail (StNotFound "factor_not_found") else
  let method := if totp then Totp else WebAuthn in
  if (if not_null (aa_totp_secret_enc account) then 1 else 0) + Z.of_nat (length creds) <=? 1 then fail (FailedPrecondition "last_factor") else
  let+ _ := verify_proof ctx (rf_proof req) in
  let+ removed := query (match key with
    | Some id => if totp then admin_remove_totp (cx_admin_id ctx) else admin_remove_webauthn_credential (cx_admin_id ctx) id
    | None => admin_remove_totp (cx_admin_id ctx)
    end) in
  if negb removed then fail (FailedPrecondition "last_factor") else
  let+ _ := revoke_all_sessions E (cx_admin_id ctx) (Some (cx_session_hash ctx)) FactorRemoved (Some (cx_admin_id ctx)) in
  let* _ := audit (AdminMfaRemoved (cx_admin_id ctx) method None) in
  let* _ := security_log E "mfa.removed" (Some (cx_admin_id ctx)) None (cx_source_ip ctx) (Some (rf_factor_id req)) in
  ret tt.
(** [begin_add_factor]: the nonce, with a sealed secret behind it for TOTP. *)
Definition begin_add_factor (cx : option AdminContext) (method : Z) : prog (result Status (list u8)) :=
  let+ ctx := give (require cx (adm "BeginAddFactor")) in
  let+ _ := require_step_up E ctx in
  let+ (account, creds) := factor_holdings (cx_admin_id ctx) in
  if method =? 1 then
    if not_null (aa_totp_secret_enc account) then fail (AlreadyExists "factor_exists") else
    let* nonce := st_issue_nonce E ADD_FACTOR_NONCE [cx_session_hash ctx; as_bytes "totp"] in
    let* secret := random SECRET_LEN in
    let* r := random 24 in
    match seal_totp C K r (add_factor_aad nonce) secret with
    | None => fail (Internal "internal_error")
    | Some sealed => ret (nonce ++ sealed)
    end
  else if method =? 2 then
    if negb (cx_client_kind ctx =? CLIENT_TRAY) then fail (FailedPrecondition "method_not_available") else
    if MAX_WEBAUTHN_CREDENTIALS <=? Z.of_nat (length creds) then fail (FailedPrecondition "factor_limit") else
    let* nonce := st_issue_nonce E ADD_FACTOR_NONCE [cx_session_hash ctx; as_bytes "webauthn"] in ret nonce
  else fail (InvalidArgument "invalid_method" None).
End Flows.
