(* ===== verification/AdminService.v ===== *)
(** The handlers of the [Admin] service: login, sessions, passwords, enrollment and account
    administration (crates/cmis/src/admin/service.rs), and the arming of the bootstrap
    (bootstrap.rs). *)
From S2P Require Import Prelude AppModel AppDedup AppSchema Order Composite AppPath AllowlistCompile AdminStore AdminPolicy AdminKeys AdminPassword AdminState AdminAuthz AdminFactorFlows.
Open Scope Z_scope.

Definition throttled (wait : Z) : Status := ResourceExhausted "login_throttled" (Z.max wait 1).
Definition policy_failed (fs : list PolicyFailure) : Status := FailedPrecondition (String.append "password_policy:" (String.concat "," (failure_id <$> fs))).
Definition password_error (e : PasswordError) : Status := match e with Busy => Unavailable "auth_busy" | PwInternal => Internal "internal_error" end.
Record ClientInfo := { ci_kind : Z; ci_version : string }.
Definition is_ascii_graphic (c : Z) : bool := in_range 33 126 c.
Definition client_info (info : option ClientInfo) : Z * option string :=
  let kind := from_option ci_kind 0 info in
  (if in_range 1 3 kind then kind else 0,
   c ← info; let v := text (take 64 (List.filter is_ascii_graphic (chars (ci_version c)))) in if is_empty v then None else Some v).
Inductive SecondFactor := SfTotp (code : string) | SfAssertion (a : WebAuthnAssertion).

Section Service.
Context (E : AdminEnv).
Abbreviation C := (en_crypto E).
Abbreviation K := (en_keys E).
Abbreviation cfg := (en_config E).
Abbreviation U := (en_unicode E).

Definition validate_groups_loop (raw : list string) : result Status (list string) :=
  foldl (λ acc g, let? out := acc in
    let g := text (un_trim U (chars g)) in
    if negb (bool_decide (g ∈ ALL_GROUPS)) then Err (InvalidArgument "unknown_group" None) else
    Ok (if bool_decide (g ∈ out) then out else out ++ [g])) (Ok []) raw.
Definition validate_groups (raw : list string) : result Status (list string) :=
  match raw with
  | [] => Err (InvalidArgument "groups_required" None)
  | _ =>
      if (16 <? length raw)%nat then Err (InvalidArgument "too_many_groups" None) else
      let? out := validate_groups_loop raw in Ok (sort_by str_cmp out)
  end.
(** A result of the hasher, as a status. *)
Definition hashed {A} (p : prog (result PasswordError A)) : prog (result Status A) := let* r := p in Done (map_err password_error r).

Definition account (admin_id : string) : prog (result Status (option AdminAccountRow)) := query (read (admin_account admin_id)).
Definition groups_of (admin_id : string) : prog (result Status (list string)) := query (read (admin_groups_of admin_id)).
Definition target (admin_id : string) : prog (result Status AdminAccountRow) :=
  if (64 <? String.length admin_id)%nat then fail (InvalidArgument "invalid_admin_id" None) else
  let+ a := account admin_id in
  match a with Some a => ret a | None => fail (StNotFound "account_not_found") end.
Definition policy_ctx (username : string) (display_name : option string) (now : Z) : PolicyContext :=
  {| pc_username := username; pc_display_name := display_name; pc_trust_domain := cfg_trust_domain cfg; pc_year := year_of now; pc_blocklist := en_blocklist E |}.
Definition policy_check (password username : string) (display_name : option string) : prog (result Status unit) :=
  let* now := clock in give (map_err policy_failed (check_policy U password (policy_ctx username display_name now))).
(** A hash that cannot be checked is passed over. *)
Fixpoint reused_loop (candidate : string) (hashes : list (string * option Z)) : prog (result Status bool) :=
  match hashes with
  | [] => ret false
  | (phc, pepper_id) :: hashes =>
      let* v := verify_password E candidate phc pepper_id in
      match v with
      | Ok v => if pv_ok v then ret true else reused_loop candidate hashes
      | Err PwInternal => reused_loop candidate hashes
      | Err e => fail (password_error e)
      end
  end.
Definition reused (a : AdminAccountRow) (candidate : string) : prog (result Status bool) :=
  let+ history := query (read (admin_password_history (aa_admin_id a))) in
  reused_loop candidate (((λ h, (ph_password_phc h, ph_pepper_id h)) <$> history)
    ++ match aa_password_phc a with Some cur => [(cur, aa_pepper_id a)] | None => [] end).
Definition trim_bytes (b : list u8) : list u8 := as_bytes (text (un_trim U (chars (bytes_string b)))).
Definition live_token (token : string) : prog (result Status (option (EnrollmentTokenRow * option AdminAccountRow))) :=
  match token_hash C trim_bytes (as_bytes token) with
  | None => ret None
  | Some hash =>
      let+ row := query (read (admin_enrollment_token hash)) in
      match row with
      | None => ret None
      | Some row =>
          let* now := clock in
          if not_null (et_used_at row) || (et_expires_at row <=? now) then ret None else
          if et_purpose row =? TOKEN_BOOTSTRAP then
            let+ done := query (read (setting BOOTSTRAPPED_KEY)) in
            let+ count := query (read admin_account_count) in
            ret (if negb (bool_decide (done = Some "1")) && (count =? 0) then Some (row, None) else None)
          else if (et_purpose row =? TOKEN_ENROLL) || (et_purpose row =? TOKEN_RESET) then
            match et_admin_id row with
            | None => ret None
            | Some id =>
                let+ a := account id in
                ret (match a with Some a => if aa_state a =? ACCOUNT_DISABLED then None else Some (row, Some a) | None => None end)
            end
          else ret None
      end
  end.
Definition enrollment_failed {A} (peer : PeerInfo) (keys : ThrottleKeys) : prog (result Status A) :=
  let* _ := throttle_failure keys in
  let* _ := security_log E "enrollment.failed" None None (pi_ip peer) None in
  fail invalid_credentials.
Definition rotate (ctx : AdminContext) (mfa : option MfaVerification) (restricted : bool) : prog (result Status (list u8)) :=
  let* raw := random 32 in
  let '(token, hash) := new_session_token C raw in
  let+ rotated := query (admin_rotate_session (cx_session_hash ctx) hash mfa (if restricted then 1 else 0)) in
  if rotated : bool then ret token else session_invalid.
Definition refusal {A} (t : AdminAccountRow) (guarded : bool) : prog (result Status A) :=
  let* r := if guarded then check_last_account_admin t true else ret tt in
  match r with Err s => fail s | Ok _ => fail (Aborted "row_version_mismatch") end.
(** [pending_enrollment_secret] and [offer_enrollment_secret] (state.rs). *)
Definition pending_enrollment_secret (th : list u8) (sealed : option (list u8)) : option (list u8) :=
  s ← sealed; open_totp C K (pending_aad E th) s.
Definition offer_enrollment_secret (th : list u8) : prog (result Status (option (list u8))) :=
  let* secret := random SECRET_LEN in
  let* r := random 24 in
  match seal_totp C K r (pending_aad E th) secret with
  | None => fail (Internal "internal_error")
  | Some sealed =>
      let* now := clock in
      let+ stored := query (admin_set_pending_secret th sealed now) in
      ret (if stored : bool then Some secret else None)
  end.

(** ** Login *)
Record LoginRequest := {
  lr_username : string; lr_password : string; lr_second_factor : option SecondFactor; lr_device_token : string; lr_login_nonce : list u8;
  lr_client : option ClientInfo }.
Record LoginResponse := {
  lo_session_token : list u8; lo_session : AdminSessionRow; lo_password_change_required : bool; lo_device_token : list u8; lo_admin_id : string;
  lo_groups : list string; lo_factor_enrollment_required : bool }.
Definition account_of_username (username : string) : prog (result Status (option AdminAccountRow)) :=
  match normalize_username E username with Some u => query (read (admin_account_by_username u)) | None => ret None end.
(** The second factor of a login whose password matched; [inl] is the reason it was refused. *)
Definition login_second (a : AdminAccountRow) (creds : list WebAuthnCredentialRow) (policy : FactorPolicy) (req : LoginRequest) (peer : PeerInfo) :
    prog (result Status (string + Verified)) :=
  match lr_second_factor req with
  | Some (SfAssertion asr) =>
      if fp_webauthn policy then
        let+ v := check_assertion E a creds asr (webauthn_challenge E PLogin (lr_login_nonce req)) (pi_ip peer) in
        ret (match v with Some v => inr v | None => inl "invalid_credentials" end)
      else ret (inl "method_not_allowed")
  | sf =>
      let code := match sf with Some (SfTotp c) => c | _ => "" end in
      if negb (is_empty code) && negb (fp_totp policy) then ret (inl "method_not_allowed") else
      let+ ok := check_totp E a code in
      ret (if ok : bool then inr verified_totp else inl "invalid_credentials")
  end.
(** Every failure costs one verification. *)
Definition dummy {A} (password : string) (r : string + A) : prog (result Status (string + A)) :=
  let+ _ := hashed (verify_dummy E password) in ret r.
Definition rehash (password : string) (a : AdminAccountRow) : prog unit :=
  let* h := hash_password E password in
  match h with
  | Ok (phc, pepper) => let* _ := store (admin_rehash_password (aa_admin_id a) phc pepper) in Done tt
  | Err _ => Done tt
  end.
Definition login_verify (nonce_ok : bool) (acct : option AdminAccountRow) (creds : list WebAuthnCredentialRow) (groups : list string) (req : LoginRequest)
    (peer : PeerInfo) : prog (result Status (string + AdminAccountRow * Verified)) :=
  let password := lr_password req in
  if negb nonce_ok then dummy password (inl "nonce") else
  match acct with
  | None => dummy password (inl "invalid_credentials")
  | Some a =>
      let policy := factor_policy cfg (client_info (lr_client req)).1 groups (not_null (aa_totp_secret_enc a)) (negb (no_creds creds)) in
      if (aa_state a =? ACCOUNT_ACTIVE) && (not_null (aa_totp_secret_enc a) || negb (no_creds creds)) then
        match aa_password_phc a with
        | None => dummy password (inl "invalid_credentials")
        | Some phc =>
            let+ v := hashed (verify_password E password phc (aa_pepper_id a)) in
            if negb (pv_ok v) then ret (inl "invalid_credentials") else
            let+ second := login_second a creds policy req peer in
            match second with
            | inl reason => ret (inl reason)
            | inr second =>
                let* _ := if pv_needs_rehash v then rehash password a else Done tt in
                ret (inr (a, second))
            end
        end
      else dummy password (inl (if aa_state a =? ACCOUNT_DISABLED then "disabled" else "invalid_credentials"))
  end.
Definition login_failed {A} (nonce_ok : bool) (keys : ThrottleKeys) (key reason : string) (acct : option AdminAccountRow) (peer : PeerInfo) :
    prog (result Status A) :=
  let counted := List.filter (λ kh, nonce_ok || negb (bool_decide (fst kh = Account))) keys in
  let* lock := throttle_failure counted in
  let* _ := audit (AdminLoginFailed (account_ref_hmac E key) reason (src_ip_hmac E (pi_ip peer)) lock) in
  let* _ := security_log E "login.failed" (aa_admin_id <$> acct) (Some key) (pi_ip peer) (Some reason) in
  let* _ := check_anomaly in
  fail invalid_credentials.
Definition login_succeeded (device_ok : bool) (dev_key acct_key : KeyKind * list u8) (key : string) (groups : list string) (client : Z * option string)
    (a : AdminAccountRow) (second : Verified) (peer : PeerInfo) : prog (result Status LoginResponse) :=
  let* _ := throttle_clear (acct_key :: if device_ok then [dev_key] else []) in
  let* now := clock in
  let restricted := password_expired a now in
  let enroll := fido2_required cfg client.1 groups && negb (bool_decide (vf_method second = WebAuthn)) in
  let+ (token, row) := open_session E a peer client second restricted in
  let* _ := store (admin_set_last_login (aa_admin_id a) now) in
  let+ groups := groups_of (aa_admin_id a) in
  let* _ := audit (AdminLoginSucceeded (aa_admin_id a) (session_ref C (ss_hash row)) (ss_aal row) (vf_method second) (ss_client_kind row) (src_ip_hmac E (pi_ip peer))) in
  let* _ := security_log E "login.succeeded" (Some (aa_admin_id a)) (Some key) (pi_ip peer) None in
  let* t := clock in
  let* r := random 16 in
  ret {| lo_session_token := token; lo_session := row; lo_password_change_required := restricted;
         lo_device_token := issue_device_token C K t r (aa_admin_id a); lo_admin_id := aa_admin_id a; lo_groups := groups;
         lo_factor_enrollment_required := enroll |}.
Definition login (req : LoginRequest) (peer : PeerInfo) : prog (result Status LoginResponse) :=
  let device_token := lr_device_token req in
  if (256 <? String.length (lr_username req))%nat || (4 * MAX_LEN + 4 <? String.length (lr_password req))%nat || (128 <? String.length device_token)%nat
  then fail (InvalidArgument "request_too_large" None) else
  let client := client_info (lr_client req) in
  let ip := canonical_ip (pi_ip peer) in
  let key := username_throttle_key E (lr_username req) in
  let+ acct := account_of_username (lr_username req) in
  let* t := clock in
  let device_ok := match acct with Some a => negb (is_empty device_token) && device_token_valid C K t (as_bytes device_token) (aa_admin_id a) | None => false end in
  let dev_key := (IpDevice, throttle_key C K IpDevice (as_bytes (String.append ip (String.append "|" device_token)))) in
  let acct_key := (Account, throttle_key C K Account (as_bytes key)) in
  let keys := if device_ok then [dev_key] else [(Ip, throttle_key C K Ip (as_bytes ip)); acct_key] in
  let+ wait := throttle_wait keys in
  match wait with
  | Some wait => fail (throttled wait)
  | None =>
      let* nonce_ok := st_redeem E "login-v1" (lr_login_nonce req) [as_bytes ip; as_bytes key] in
      let id := from_option aa_admin_id "" acct in
      let+ creds := webauthn_credentials id in
      let+ groups := groups_of id in
      let+ verified := login_verify nonce_ok acct creds groups req peer in
      match verified with
      | inl reason => login_failed nonce_ok keys key reason acct peer
      | inr (a, second) => login_succeeded device_ok dev_key acct_key key groups client a second peer
      end
  end.

(** ** Sessions *)
Definition step_up (cx : option AdminContext) (stepup_nonce : list u8) (proof : option MfaProof) : prog (result Status (list u8 * Z)) :=
  let+ ctx := give (require cx (adm "StepUp")) in
  let attempted := match proof with Some {| mp_f := Some (Assertion _) |} => WebAuthn | _ => Totp end in
  let* ok := st_redeem E STEP_UP_NONCE stepup_nonce [cx_session_hash ctx] in
  let* verified := if ok : bool then verify_factor E ctx proof (Some stepup_nonce)
    else let* _ := second_factor_failed E ctx in fail invalid_credentials in
  let* rotated := match verified with
    | Ok v => let* now := clock in rotate ctx (Some {| mv_at := now; mv_method := mfa_code (vf_method v); mv_aal := vf_aal v |}) (cx_restricted ctx)
    | Err s => fail s
    end in
  let* _ := audit (AdminStepUp (cx_admin_id ctx) (cx_session_ref ctx) attempted (match rotated with Ok _ => true | Err _ => false end)) in
  match rotated with
  | Ok token => let* now := clock in ret (token, now + cfg_step_up_window_secs cfg)
  | Err s => fail s
  end.
Definition logout (cx : option AdminContext) : prog (result Status unit) :=
  let+ ctx := give (require cx (adm "Logout")) in
  let* now := clock in
  let* r := store (admin_revoke_session (cx_session_hash ctx) now (reason_code RrLogout)) in
  match r with
  | Ok true => let* _ := audit (AdminLogout (cx_admin_id ctx) (cx_session_ref ctx)) in ret tt
  | Ok false => ret tt
  | Err e => fail (store_error e)
  end.
Definition revoke_session_rpc (cx : option AdminContext) (admin_id wanted : string) : prog (result Status unit) :=
  let+ ctx := give (require cx (adm "RevokeSession")) in
  let own := is_empty admin_id || is_ admin_id (cx_admin_id ctx) in
  let+ id :=
    if own then ret (cx_admin_id ctx)
    else if negb (has ctx SessionRevokeAny) then
      let* _ := deny (Some ctx) (adm "RevokeSession")
        {| sr_permission := Some SessionRevokeAny; sr_step_up := true; sr_allow_restricted := false; sr_allow_factor_enrollment := false |} "permission_denied" in
      fail (PermissionDenied "permission_denied")
    else let+ _ := require_step_up E ctx in ret admin_id in
  let+ sessions := query (read (admin_live_sessions id)) in
  match List.find (λ s, is_ (session_ref C (ss_hash s)) wanted) sessions with
  | None => fail (StNotFound "session_not_found")
  | Some row => let* _ := revoke_session E row (if own then ByUser else ByAdmin) (Some (cx_admin_id ctx)) in ret tt
  end.
Definition change_password (cx : option AdminContext) (current new : string) (proof : option MfaProof) : prog (result Status (list u8 * Z)) :=
  let+ ctx := give (require cx (adm "ChangePassword")) in
  if (4 * MAX_LEN + 4 <? String.length current)%nat || (4 * MAX_LEN + 4 <? String.length new)%nat then fail (policy_failed [TooLong]) else
  let+ a := target (cx_admin_id ctx) in
  let+ _ := policy_check new (aa_username a) (aa_display_name a) in
  let+ _ := verify_proof E ctx proof in
  match aa_password_phc a with
  | None => fail invalid_credentials
  | Some phc =>
      let+ v := hashed (verify_password E current phc (aa_pepper_id a)) in
      if negb (pv_ok v) then let* _ := second_factor_failed E ctx in fail invalid_credentials else
      let+ again := reused a new in
      if again : bool then fail (policy_failed [Reused]) else
      let+ (new_phc, pepper_id) := hashed (hash_password E new) in
      let* now := clock in
      let+ _ := query (admin_change_password (aa_admin_id a)
        {| pu_password_phc := new_phc; pu_pepper_id := pepper_id; pu_changed_at := now; pu_expires_at := now + LIFETIME_SECS |}) in
      let+ _ := revoke_all_sessions E (aa_admin_id a) (Some (cx_session_hash ctx)) PasswordChanged (Some (aa_admin_id a)) in
      let+ token := rotate ctx None false in
      let* _ := audit (AdminPasswordChanged (aa_admin_id a) true) in
      ret (token, now + LIFETIME_SECS)
  end.
End Service.
