(* ===== verification/AdminAccounts.v ===== *)
(** Enrollment and account administration (crates/cmis/src/admin/service.rs) and the arming
    of the first-account bootstrap (bootstrap.rs). *)
From S2P Require Import Prelude AppModel AppDedup AppSchema Order Composite AppPath AllowlistCompile AdminStore AdminPolicy AdminKeys AdminPassword AdminState AdminAuthz AdminFactorFlows AdminService.
Open Scope Z_scope.

Definition new_account (id username : string) (display : option string) (state now : Z) (by_ : option string) : AdminAccountRow :=
  MkAccount id username display state now by_ None None None None None None None None None 1.
Definition nonempty (s : string) : option string := if is_empty s then None else Some s.

Section Accounts.
Context (E : AdminEnv).
Abbreviation C := (en_crypto E).
Abbreviation K := (en_keys E).
Abbreviation cfg := (en_config E).
Abbreviation U := (en_unicode E).

(** ** Enrollment *)
Record CompleteEnrollmentRequest := {
  er_enrollment_token : string; er_password : string; er_totp_code : string; er_username : string; er_display_name : string;
  er_attestation : option WebAuthnAttestation }.
Definition ip_keys (peer : PeerInfo) : ThrottleKeys := [(Ip, throttle_key C K Ip (as_bytes (canonical_ip (pi_ip peer))))].
(** The factors a begun enrollment shows: the TOTP secret, and whether a key may be registered. *)
Definition begin_enrollment (peer : PeerInfo) (token : string) : prog (result Status (option (list u8) * bool)) :=
  let+ wait := throttle_wait (ip_keys peer) in
  match wait with
  | Some w => fail (throttled w)
  | None =>
      let+ live := live_token E token in
      match live with
      | None => enrollment_failed E peer (ip_keys peer)
      | Some (row, acct) =>
          let+ (needs, key) := match acct with
            | None => ret (true, false)
            | Some a =>
                let+ creds := webauthn_credentials (aa_admin_id a) in
                let needs := is_null (aa_totp_secret_enc a) && no_creds creds in
                if needs then let* _ := st_issue_nonce E ENROLL_WEBAUTHN_NONCE [et_token_hash row] in ret (needs, true) else ret (needs, false)
            end in
          let+ secret := if needs : bool then
              let+ s := offer_enrollment_secret E (et_token_hash row) in
              match s with Some s => ret (Some s) | None => fail invalid_credentials end
            else ret None in
          let* _ := security_log E "enrollment.begin" (aa_admin_id <$> acct) None (pi_ip peer) None in
          ret (secret, key)
      end
  end.
Definition complete_bootstrap (row : EnrollmentTokenRow) (req : CompleteEnrollmentRequest) (peer : PeerInfo) : prog (result Status string) :=
  if not_null (er_attestation req) then fail (InvalidArgument "factor_not_offered" None) else
  match normalize_username E (er_username req), clean_display_name E (er_display_name req) with
  | None, _ => fail (InvalidArgument "invalid_username" None)
  | _, None => fail (InvalidArgument "invalid_display_name" None)
  | Some username, Some display =>
      let display := nonempty display in
      let+ _ := policy_check E (er_password req) username display in
      let* now := clock in
      match pending_enrollment_secret E (et_token_hash row) (et_pending_secret_enc row) with
      | None => enrollment_failed E peer (ip_keys peer)
      | Some secret =>
          match totp_verify (ac_hmac_sha1 C) secret (as_bytes (er_totp_code req)) now None with
          | None => enrollment_failed E peer (ip_keys peer)
          | Some step =>
              let* u := random 16 in
              let admin_id := en_uuid_v7 E u in
              let+ (phc, pepper_id) := hashed (hash_password E (er_password req)) in
              let* r := random 24 in
              match seal_totp C K r admin_id secret with
              | None => fail (Internal "internal_error")
              | Some sealed =>
                  let granted := if cfg_strict_sod cfg then [ACCOUNT_ADMINS] else ALL_GROUPS in
                  let completion := {| ec_token_hash := et_token_hash row; ec_admin_id := admin_id;
                    ec_password := Some {| pu_password_phc := phc; pu_pepper_id := pepper_id; pu_changed_at := now; pu_expires_at := now + LIFETIME_SECS |};
                    ec_totp := Some (sealed, step); ec_webauthn := None; ec_now := now |} in
                  let* res := admin_bootstrap_account (new_account admin_id username display ACCOUNT_ACTIVE now None) granted completion [(BOOTSTRAPPED_KEY, "1")] in
                  match res with
                  | Ok _ =>
                      let* _ := audit (AdminBootstrapCompleted admin_id) in
                      let* _ := security_log E "bootstrap.completed" (Some admin_id) None (pi_ip peer) None in
                      ret admin_id
                  | Err (Conflict _) => fail invalid_credentials
                  | Err e => fail (store_error e)
                  end
              end
          end
      end
  end.
(** The factors an enrollment adds, each proven; [inl tt] is a failed attempt. *)
Definition enroll_factors (row : EnrollmentTokenRow) (a : AdminAccountRow) (req : CompleteEnrollmentRequest) (label : option string) (now : Z) :
    prog (result Status (unit + option (list u8 * Z) * option WebAuthnCredentialRow)) :=
  if is_empty (er_totp_code req) && is_null (er_attestation req) then ret (inl tt) else
  let+ totp := if is_empty (er_totp_code req) then ret (inr None) else
    match pending_enrollment_secret E (et_token_hash row) (et_pending_secret_enc row) with
    | None => ret (inl tt)
    | Some secret =>
        match totp_verify (ac_hmac_sha1 C) secret (as_bytes (er_totp_code req)) now None with
        | None => ret (inl tt)
        | Some step =>
            let* r := random 24 in
            match seal_totp C K r (aa_admin_id a) secret with
            | None => fail (Internal "internal_error")
            | Some sealed => ret (inr (Some (sealed, step)))
            end
        end
    end in
  match totp with
  | inl _ => ret (inl tt)
  | inr totp =>
      match er_attestation req, label with
      | Some att, Some label =>
          let* cred := check_enrollment_attestation E (et_token_hash row) (aa_admin_id a) att label in
          match cred with Some cred => ret (inr (totp, Some cred)) | None => ret (inl tt) end
      | _, _ => ret (inr (totp, None))
      end
  end.
Fixpoint audit_enrolled (id : string) (ip : option IpAddr) (fs : list (MfaMethod * string)) : prog unit :=
  match fs with
  | [] => Done tt
  | (m, f) :: fs =>
      let* _ := audit (AdminMfaEnrolled id m) in
      let* _ := security_log E "mfa.enrolled" (Some id) None ip (Some f) in
      audit_enrolled id ip fs
  end.
Definition complete_enroll (row : EnrollmentTokenRow) (a : AdminAccountRow) (req : CompleteEnrollmentRequest) (peer : PeerInfo) : prog (result Status string) :=
  let blank := no_creds (un_trim U (chars (er_username req))) in
  if negb blank && negb (bool_decide (normalize_username E (er_username req) = Some (aa_username a))) then fail (InvalidArgument "username_mismatch" None) else
  let+ label := match er_attestation req with Some att => give (let? l := clean_label E (wt_label att) in Ok (Some l)) | None => ret None end in
  let* now := clock in
  let needs_password := is_null (aa_password_phc a) in
  let+ creds := webauthn_credentials (aa_admin_id a) in
  let needs_factor := is_null (aa_totp_secret_enc a) && no_creds creds in
  let+ _ := if needs_password then policy_check E (er_password req) (aa_username a) (aa_display_name a) else ret tt in
  let+ factors := if needs_factor then enroll_factors row a req label now
    else if not_null (er_attestation req) then fail (InvalidArgument "factor_not_offered" None)
    else let+ ok := check_totp E a (er_totp_code req) in ret (if ok : bool then inr (None, None) else inl tt) in
  match factors with
  | inl _ => enrollment_failed E peer (ip_keys peer)
  | inr (totp, webauthn) =>
      let+ password := if needs_password then
          let+ again := reused E a (er_password req) in
          if again : bool then fail (policy_failed [Reused]) else
          let+ (phc, pepper_id) := hashed (hash_password E (er_password req)) in
          ret (Some {| pu_password_phc := phc; pu_pepper_id := pepper_id; pu_changed_at := now; pu_expires_at := now + LIFETIME_SECS |})
        else ret None in
      let enrolled := match totp with Some _ => [(Totp, FACTOR_TOTP)] | None => [] end
        ++ match webauthn with Some cred => [(WebAuthn, factor_id E (wc_credential_id cred))] | None => [] end in
      let* res := store (admin_complete_enrollment {| ec_token_hash := et_token_hash row; ec_admin_id := aa_admin_id a; ec_password := password;
        ec_totp := totp; ec_webauthn := webauthn; ec_now := now |}) in
      match res with
      | Ok _ =>
          let* same_ip := match et_created_by row with
            | Some creator =>
                let* s := store (read (admin_live_sessions creator)) in
                Done (match s with Ok sessions => existsb (λ s, is_ (ss_source_ip s) (canonical_ip (pi_ip peer))) sessions | Err _ => false end)
            | None => Done false
            end in
          let purpose := if et_purpose row =? TOKEN_RESET then "reset" else "enroll" in
          let* _ := audit (AdminEnrollmentCompleted (aa_admin_id a) purpose same_ip) in
          let* _ := security_log E "enrollment.completed" (Some (aa_admin_id a)) None (pi_ip peer) (Some purpose) in
          let* _ := audit_enrolled (aa_admin_id a) (pi_ip peer) enrolled in
          ret (aa_admin_id a)
      | Err (Conflict _) => fail invalid_credentials
      | Err e => fail (store_error e)
      end
  end.
Definition complete_enrollment (peer : PeerInfo) (req : CompleteEnrollmentRequest) : prog (result Status string) :=
  let+ wait := throttle_wait (ip_keys peer) in
  match wait with
  | Some w => fail (throttled w)
  | None =>
      if (4 * MAX_LEN + 4 <? String.length (er_password req))%nat || (256 <? String.length (er_username req))%nat
      then fail (InvalidArgument "request_too_large" None) else
      let+ live := live_token E (er_enrollment_token req) in
      match live with
      | None => enrollment_failed E peer (ip_keys peer)
      | Some (row, None) => complete_bootstrap row req peer
      | Some (row, Some a) => complete_enroll row a req peer
      end
  end.

(** ** Account administration *)
Record CreateAdminAccountRequest := { cr_username : string; cr_display_name : string; cr_groups : list string; cr_ttl_secs : Z; cr_proof : option MfaProof }.
Definition enrollment_ttl (ttl : Z) : Z :=
  if ttl <=? 0 then ENROLLMENT_DEFAULT_TTL_SECS else Z.max 3600 (Z.min ttl ENROLLMENT_MAX_TTL_SECS).
Definition create_admin_account (cx : option AdminContext) (req : CreateAdminAccountRequest) : prog (result Status (string * list u8)) :=
  let+ ctx := give (require cx (adm "CreateAdminAccount")) in
  match normalize_username E (cr_username req), clean_display_name E (cr_display_name req) with
  | None, _ => fail (InvalidArgument "invalid_username" None)
  | _, None => fail (InvalidArgument "invalid_display_name" None)
  | Some username, Some display =>
      let+ granted := give (validate_groups E (cr_groups req)) in
      let+ _ := give (check_group_set E granted) in
      let+ taken := query (read (admin_account_by_username username)) in
      if not_null taken then fail (AlreadyExists "username_taken") else
      let+ _ := verify_proof E ctx (cr_proof req) in
      let* now := clock in
      let* u := random 16 in
      let admin_id := en_uuid_v7 E u in
      let* raw := random 32 in
      let '(token, hash) := new_enrollment_token C ENROLLMENT_PREFIX raw in
      let* res := admin_create_account (new_account admin_id username (nonempty display) ACCOUNT_PENDING now (Some (cx_admin_id ctx))) granted
        (MkToken hash (Some admin_id) TOKEN_ENROLL (Some (cx_admin_id ctx)) now (now + enrollment_ttl (cr_ttl_secs req)) None None) in
      match res with
      | Ok _ => let* _ := audit (AdminAccountCreated admin_id (cx_admin_id ctx) granted) in ret (admin_id, token)
      | Err (Conflict _) => fail (AlreadyExists "username_taken")
      | Err e => fail (store_error e)
      end
  end.
Record UpdateAdminAccountRequest := {
  ur_admin_id : string; ur_display_name : option string; ur_replace_groups : bool; ur_groups : list string; ur_expected_row_version : Z; ur_proof : option MfaProof }.
Definition update_admin_account (cx : option AdminContext) (req : UpdateAdminAccountRequest) : prog (result Status Z) :=
  let+ ctx := give (require cx (adm "UpdateAdminAccount")) in
  let+ t := target (ur_admin_id req) in
  let+ new_groups := if ur_replace_groups req then give (let? g := validate_groups E (ur_groups req) in Ok (Some g)) else ret None in
  let+ new_display := match ur_display_name req with
    | None => ret None
    | Some d => match clean_display_name E d with Some d => ret (Some d) | None => fail (InvalidArgument "invalid_display_name" None) end
    end in
  if is_null new_groups && is_null new_display then fail (InvalidArgument "nothing_to_update" None) else
  let+ demotes := match new_groups with
    | None => ret false
    | Some g =>
        let+ _ := give (check_sod E ctx (aa_admin_id t) (Some g)) in
        let+ was := groups_of (aa_admin_id t) in
        let demotes := existsb (λ x, is_ x ACCOUNT_ADMINS) was && negb (existsb (λ x, is_ x ACCOUNT_ADMINS) g) && (aa_state t =? ACCOUNT_ACTIVE) in
        let+ _ := check_last_account_admin t demotes in ret demotes
    end in
  if 2 ^ 63 <=? ur_expected_row_version req then fail (InvalidArgument "expected_row_version" None) else
  let+ _ := verify_proof E ctx (ur_proof req) in
  let* now := clock in
  let* res := admin_update_account (aa_admin_id t) (nonempty <$> new_display) new_groups (cx_admin_id ctx) now (ur_expected_row_version req) demotes in
  let+ version := give (map_err store_error res) in
  match version with
  | None => refusal t demotes
  | Some version =>
      let+ _ := if not_null new_groups then revoke_all_sessions E (aa_admin_id t) None GroupsChanged (Some (cx_admin_id ctx)) else ret tt in
      let changed := (if not_null new_display then ["display_name"] else []) ++ (if not_null new_groups then ["groups"] else []) in
      let* _ := audit (AdminAccountUpdated (aa_admin_id t) (cx_admin_id ctx) changed new_groups) in
      ret (if 0 <=? version then version else 0)
  end.
Definition set_admin_account_state (cx : option AdminContext) (admin_id : string) (state : Z) (proof : option MfaProof) : prog (result Status Z) :=
  let+ ctx := give (require cx (adm "SetAdminAccountState")) in
  let+ t := target admin_id in
  let+ _ := give (check_sod E ctx (aa_admin_id t) None) in
  if negb ((state =? 2) || (state =? 3)) then fail (InvalidArgument "invalid_state" None) else
  let wanted := if state =? 2 then ACCOUNT_ACTIVE else ACCOUNT_DISABLED in
  let+ removes := if wanted =? ACCOUNT_DISABLED then
      let+ removes := if aa_state t =? ACCOUNT_ACTIVE then let+ gs := groups_of (aa_admin_id t) in ret (existsb (λ x, is_ x ACCOUNT_ADMINS) gs) else ret false in
      let+ _ := check_last_account_admin t removes in ret removes
    else ret false in
  if (wanted =? ACCOUNT_ACTIVE) && (aa_state t =? ACCOUNT_PENDING) then fail (FailedPrecondition "enrollment_pending") else
  let stored := if (wanted =? ACCOUNT_ACTIVE) && is_null (aa_password_phc t) then ACCOUNT_PENDING else wanted in
  let+ _ := verify_proof E ctx proof in
  let* now := clock in
  let* res := admin_set_account_state (aa_admin_id t) stored (cx_admin_id ctx) now None removes in
  let+ version := give (map_err store_error res) in
  match version with
  | None => refusal t removes
  | Some version =>
      let+ _ := if wanted =? ACCOUNT_DISABLED then revoke_all_sessions E (aa_admin_id t) None AccountDisabled (Some (cx_admin_id ctx)) else ret tt in
      let* _ := audit (AdminAccountStateChanged (aa_admin_id t) (cx_admin_id ctx) (if wanted =? ACCOUNT_DISABLED then "disabled" else "active")) in
      ret (if 0 <=? version then version else 0)
  end.
Definition reset_admin_credentials (cx : option AdminContext) (admin_id : string) (reset_password reset_mfa : bool) (proof : option MfaProof) :
    prog (result Status (list u8 * Z)) :=
  let+ ctx := give (require cx (adm "ResetAdminCredentials")) in
  let+ t := target admin_id in
  let+ _ := give (check_sod E ctx (aa_admin_id t) None) in
  if negb reset_password && negb reset_mfa then fail (InvalidArgument "nothing_to_reset" None) else
  if aa_state t =? ACCOUNT_DISABLED then fail (FailedPrecondition "account_disabled") else
  if negb reset_mfa && is_null (aa_totp_secret_enc t) then fail (FailedPrecondition "reset_mfa_required") else
  let+ _ := verify_proof E ctx proof in
  let* now := clock in
  let* raw := random 32 in
  let '(token, hash) := new_enrollment_token C ENROLLMENT_PREFIX raw in
  let expires := now + ENROLLMENT_DEFAULT_TTL_SECS in
  let+ _ := query (admin_reset_credentials (aa_admin_id t) reset_password reset_mfa
    (MkToken hash (Some (aa_admin_id t)) TOKEN_RESET (Some (cx_admin_id ctx)) now expires None None)) in
  let+ _ := revoke_all_sessions E (aa_admin_id t) None CredentialsReset (Some (cx_admin_id ctx)) in
  let* _ := audit (AdminCredentialsReset (aa_admin_id t) (cx_admin_id ctx) reset_password reset_mfa) in
  ret (token, expires).

(** ** Arming the bootstrap (bootstrap.rs); whether this node leads, and whether the token
    file could be written, are answers of its surroundings *)
Inductive BootstrapOutcome := Armed | AlreadyBootstrapped | AccountsExist | TokenLive | NotLeader.
Definition arm (is_leader file_written : bool) : prog (result Status BootstrapOutcome) :=
  let+ done := query (read (setting BOOTSTRAPPED_KEY)) in
  if bool_decide (done = Some "1") then ret AlreadyBootstrapped else
  let+ count := query (read admin_account_count) in
  if 0 <? count then ret AccountsExist else
  if negb is_leader then ret NotLeader else
  let* now := clock in
  let+ live := query (read (admin_live_token_exists TOKEN_BOOTSTRAP now)) in
  if live : bool then ret TokenLive else
  let* raw := random 32 in
  let '(token, hash) := new_enrollment_token C BOOTSTRAP_PREFIX raw in
  if negb file_written then fail (Internal "bootstrap_token_file") else
  let+ _ := query (admin_insert_enrollment_token (MkToken hash None TOKEN_BOOTSTRAP None now (now + BOOTSTRAP_TTL_SECS) None None)) in
  ret Armed.
End Accounts.
