(* ===== verification/AdminAuthzProofs.v ===== *)
(** What an authorized administrator call has shown. *)
From S2P Require Import Prelude AppModel AppDedup AppSchema Order Composite AppPath AllowlistCompile AdminStore AdminStoreProofs AdminGuard AdminPolicy AdminPolicyProofs AdminKeys AdminPassword AdminState AdminAuthz AdminRuns.
Open Scope Z_scope.

(** A failed or refused flow does not answer [Ok]. *)
Section Refusals.
Context {O : seen → Prop}.
Lemma run_ret {A} (a b : A) w w' : run O (ret a) w w' (Ok b) → env w w' ∧ a = b.
Proof. intros [H [= ->]]. done. Qed.
Lemma run_fail {A} (s : Status) w w' (b : A) : run O (fail s) w w' (Ok b) → False.
Proof. by intros [_ ?]. Qed.
Lemma run_then_fail {A B} (p : prog A) (s : Status) w w' (b : B) : run O (let* _ := p in fail s) w w' (Ok b) → False.
Proof. intros (w1 & a & _ & H)%run_bind. by eapply run_fail. Qed.
End Refusals.

Lemma permission_parse_str s p : permission_parse s = Some p → permission_str p = s.
Proof. intros H. apply find_some in H as [_ H]. by apply bool_decide_eq_true in H. Qed.
Lemma permission_parse_inverse p : permission_parse (permission_str p) = Some p.
Proof. by destruct p. Qed.
(** The permissions read for an account come from a group it belongs to. *)
Lemma granted_permission id d s : s ∈ admin_permissions_of id d → ∃ g m, ad_members d !! (id, g) = Some m ∧ (g, s) ∈ ad_permissions d.
Proof.
  unfold admin_permissions_of. rewrite sort_by_Permutation. rewrite elem_of_remove_dups. intros ([[i g] m] & Hs & Hin)%list_elem_of_bind.
  apply elem_of_map_to_list in Hin. cbn [fst snd] in Hs. destruct (is_ i id) eqn:Ei; [|by apply not_elem_of_nil in Hs]. apply is_eq in Ei as ->.
  apply list_elem_of_fmap in Hs as ([g' s'] & -> & Hs). apply list_elem_of_In, filter_In in Hs as [Hs Hg]. apply is_eq in Hg. cbn in Hg. subst g'.
  exists g, m. split; [done|]. apply elem_of_elements. by apply list_elem_of_In.
Qed.

Section Authorize.
Context (E : AdminEnv) (O : seen → Prop).
Local Abbreviation run := (AdminRuns.run O).

Lemma check_session_ok row peer now w w' : run (check_session E row peer now) w w' (Ok tt) →
  env w w' ∧ liveness row now = Live ∧
  (cfg_session_bind_ip (en_config E) = true → is_Some (pi_ip peer) ∧ canonical_ip (pi_ip peer) = ss_source_ip row) ∧
  (∀ bound, ss_client_cert row = Some bound → pi_client_cert_sha256 peer = Some bound).
Proof.
  unfold check_session. destruct (liveness row now); [|by intros ?%run_fail|by intros ?%run_then_fail..].
  destruct (cfg_session_bind_ip _ && _) eqn:Ei; [by intros ?%run_then_fail|].
  destruct (match ss_client_cert row with Some _ => _ | None => _ end) eqn:Ec; [by intros ?%run_then_fail|].
  intros [H _]%run_ret. split_and!; [done|done| |].
  - intros Hb. rewrite Hb in Ei. cbn [andb] in Ei. apply negb_false_iff, andb_true_iff in Ei as [H1 H2%is_eq]. split; [|done].
    by destruct (pi_ip peer).
  - intros bound Hb. rewrite Hb in Ec. by apply negb_false_iff, bool_decide_eq_true in Ec.
Qed.
(** The rule of the method, with the step-up recent at a time the clock showed during the call. *)
Definition rule_holds (ctx : AdminContext) (rule : SessionRule) : Prop :=
  (cx_restricted ctx = true → sr_allow_restricted rule = true) ∧
  (cx_factor_enrollment_required ctx = true → sr_allow_factor_enrollment rule = true) ∧
  (∀ p, sr_permission rule = Some p → p ∈ cx_permissions ctx) ∧
  (sr_step_up rule = true → ∃ t, O (SawClock t) ∧ sat_i64 (t - cx_mfa_at ctx) ≤ cfg_step_up_window_secs (en_config E)).
Lemma check_rule_ok ctx path rule w w' : run (check_rule E ctx path rule) w w' (Ok tt) → env w w' ∧ rule_holds ctx rule.
Proof.
  unfold check_rule, rule_holds, refuse.
  destruct (cx_restricted ctx && _) eqn:E1; [by intros ?%run_then_fail|]. destruct (cx_factor_enrollment_required ctx && _) eqn:E2; [by intros ?%run_then_fail|].
  destruct (match sr_permission rule with Some _ => _ | None => _ end) eqn:E3; [by intros ?%run_then_fail|].
  intros Hr. assert (env w w' ∧ (sr_step_up rule = true → ∃ t, O (SawClock t) ∧ sat_i64 (t - cx_mfa_at ctx) ≤ cfg_step_up_window_secs (en_config E))) as [He Hs].
  { destruct (sr_step_up rule); [|apply run_ret in Hr as [? _]; by split]. unfold require_step_up in Hr. apply run_bind in Hr as (w1 & t & [H1 Ht]%run_clock & Hr).
    destruct (Z.ltb_spec (cfg_step_up_window_secs (en_config E)) (sat_i64 (t - cx_mfa_at ctx))); [by apply run_fail in Hr|].
    apply run_ret in Hr as [H2 _]. split; [by etransitivity|]. intros _. by exists t. }
  split; [done|]. split_and!; [intros Hx; rewrite Hx in E1; by destruct (sr_allow_restricted rule)|intros Hx; rewrite Hx in E2; by destruct (sr_allow_factor_enrollment rule)| |done].
  intros p Hp. rewrite Hp in E3. by apply negb_false_iff, bool_decide_eq_true in E3.
Qed.

(** A session read from the store [d1] with a token, live at a time the clock showed and bound
    to the peer; its account, read as active from [d2]; its permissions, read from [d3]: what an
    authorized call has shown. *)
Definition session_shown (d1 : AdminDb) (header : list u8) (peer : PeerInfo) (now : Z) (row : AdminSessionRow) : Prop :=
  O (SawStore d1 d1) ∧ O (SawClock now) ∧ (∃ token, bearer_token header = Some token ∧ admin_session (ac_sha256 (en_crypto E) token) d1 = Some row) ∧
  liveness row now = Live ∧
  (cfg_session_bind_ip (en_config E) = true → is_Some (pi_ip peer) ∧ canonical_ip (pi_ip peer) = ss_source_ip row) ∧
  (∀ bound, ss_client_cert row = Some bound → pi_client_cert_sha256 peer = Some bound).
Definition context_shown (d2 d3 : AdminDb) (row : AdminSessionRow) (rule : SessionRule) (ctx : AdminContext) : Prop :=
  O (SawStore d2 d2) ∧ O (SawStore d3 d3) ∧
  (∃ account, admin_account (ss_admin_id row) d2 = Some account ∧ aa_state account = ACCOUNT_ACTIVE ∧ cx_admin_id ctx = aa_admin_id account) ∧
  cx_session_hash ctx = ss_hash row ∧ cx_mfa_at ctx = ss_mfa_at row ∧
  (∀ p, p ∈ cx_permissions ctx → ∃ g m, ad_members d3 !! (cx_admin_id ctx, g) = Some m ∧ (g, permission_str p) ∈ ad_permissions d3) ∧
  rule_holds ctx rule.

Lemma authorize_shown path rule auth peer w w' ctx : run (authorize E path rule auth peer) w w' (Ok ctx) →
  ∃ header now row d1 d2 d3, auth = Some header ∧ later (w_db w) d1 ∧ later d1 d2 ∧ later d2 d3 ∧
    session_shown d1 header peer now row ∧ context_shown d2 d3 row rule ctx.
Proof.
  unfold authorize. intros (w0 & now & [H0 Hnow]%run_clock & Hr)%run_bind. destruct (auth ≫= bearer_token) as [token|] eqn:Et; [|by apply run_fail in Hr].
  destruct auth as [header|]; [|done]. cbn in Et. apply run_try in Hr as (w1 & found & Hread & Hr). apply run_read in Hread as (d1 & [Hd1 Ho1] & -> & Hw1).
  destruct (admin_session _ d1) as [row|] eqn:Es; [|by apply run_fail in Hr].
  apply run_try in Hr as (w2 & [] & (He2 & Hlive & Hip & Hcert)%check_session_ok & Hr).
  apply run_try in Hr as (w3 & account & (d2 & [Hd2 Ho2] & -> & Hw3)%run_read & Hr). destruct (admin_account _ d2) as [account|] eqn:Ea; [|by apply run_then_fail in Hr].
  destruct (Z.eqb_spec (aa_state account) ACCOUNT_ACTIVE) as [Hact|]; [|by apply run_then_fail in Hr].
  apply run_try in Hr as (w4 & groups & (dg & [Hdg _] & -> & Hw4)%run_read & Hr).
  apply run_try in Hr as (w5 & perms & (d3 & [Hd3 Ho3] & -> & Hw5)%run_read & Hr).
  apply run_try in Hr as (w6 & [] & (He6 & Hrule)%check_rule_ok & Hr).
  apply run_bind in Hr as (w7 & [] & _ & Hr). apply run_bind in Hr as (w8 & [] & _ & [_ <-]%run_ret).
  exists header, now, row, d1, d2, d3. split_and!; [done| | | | |].
  - by etransitivity.
  - etransitivity; [exact Hw1|]. by etransitivity.
  - etransitivity; [exact Hw3|]. etransitivity; [exact Hdg|]. by etransitivity.
  - split_and!; [done|done|by exists token|done..].
  - split_and!; [done|done|by exists account|done|done| |exact Hrule]. intros p Hp. cbn [cx_permissions make_context cx_admin_id] in *.
    apply list_elem_of_omap in Hp as (s & Hs & Hparse). apply permission_parse_str in Hparse as <-. by apply granted_permission.
Qed.

(** A revoked session is refused for ever: once the store holds a session as revoked, no
    call that carries its token is authorized, whatever anyone does in between and whichever
    method is called. *)
Lemma revoked_refused path rule header peer w w' ctx token row t :
  bearer_token header = Some token → ad_sessions (w_db w) !! ac_sha256 (en_crypto E) token = Some row → ss_revoked_at row = Some t →
  ¬ run (authorize E path rule (Some header) peer) w w' (Ok ctx).
Proof.
  intros Ht Hrow Hrev Hr. destruct (authorize_shown _ _ _ _ _ _ _ Hr) as (h & now & row' & d1 & d2 & d3 & [= <-] & [os Hd1] & _ & _ & (_ & _ & (token' & Ht' & Hs) & Hlive & _) & _).
  rewrite Ht in Ht'. injection Ht' as <-. destruct (history_evolves os (w_db w)) as [_ Hse _ _ _ _].
  destruct (Hse _ _ _ Hrow Hrev) as (row'' & Hs' & _ & Hrev' & _). rewrite <- Hd1 in Hs'. unfold admin_session in Hs. rewrite Hs in Hs'.
  injection Hs' as <-. unfold liveness in Hlive. by rewrite Hrev', Hrev in Hlive.
Qed.
End Authorize.

(** ** The layer *)
Section Layer.
Context (O : seen → Prop).
Local Abbreviation run := (AdminRuns.run O).
(** A request that reaches a session handler carries the context of an authorized session
    call over TLS, without its header; one that reaches any other handler carries no context;
    and one to the [Admin] service arrives on the admin listener only. *)
Lemma admit_shown c req w w' req' : run (layer_admit c req) w w' (Ok req') →
  rq_path req' = rq_path req ∧
  (String.prefix ADMIN_PREFIX (rq_path req) = true → lc_listener c = Admin) ∧
  match access_for (rq_path req) with
  | Some (Session rule) =>
      lc_tls c = true ∧ rq_authorization req' = None ∧
      ∃ E ctx w1, lc_authz c = Some E ∧ rq_context req' = Some ctx ∧ run (authorize E (rq_path req) rule (rq_authorization req) (rq_peer req)) w w1 (Ok ctx)
  | Some AdminPublic => lc_tls c = true ∧ rq_context req' = None
  | Some _ => rq_context req' = None
  | None => False
  end.
Proof.
  unfold layer_admit. cbn [rq_path set_context rq_authorization rq_peer]. destruct (access_for (rq_path req)) as [access|]; [|by intros ?%run_then_fail].
  destruct (_ && _) eqn:Ea; [by intros ?%run_fail|].
  assert (String.prefix ADMIN_PREFIX (rq_path req) = true → lc_listener c = Admin) as Hl.
  { intros Hp. rewrite Hp in Ea. cbn [andb] in Ea. apply bool_decide_eq_false in Ea. by destruct (lc_listener c). }
  destruct access as [| | |rule].
  - intros [_ <-]%run_ret. done.
  - intros [_ <-]%run_ret. done.
  - destruct (lc_tls c); [|by intros ?%run_fail]. destruct (lc_authz c); [|by intros ?%run_fail]. by intros [_ <-]%run_ret.
  - destruct (lc_tls c); cbn [negb]; [|by intros ?%run_fail]. destruct (bool_decide (lc_listener c = Main) && _); [by intros ?%run_fail|].
    destruct (lc_authz c) as [E|]; [|by intros ?%run_fail]. intros (w1 & ctx & Hr & [He <-]%run_ret)%run_try. split_and!; [done|done|done|done|].
    by exists E, ctx, w1.
Qed.

(** ** Theorems *)

(** C10: A request reaches a session handler only with the context of a live session.  The layer
    admits a call to a session method only over TLS (and to the [Admin] service only on the
    admin listener), for a session the store holds under the hash of its token, neither
    revoked nor expired, from the address and certificate it is bound to, of an account that
    is active; the context's permissions come from groups of that account, include the one
    the method asks for, and a step-up happened within the window where the method asks for
    it.  The expiry and the window are at times the clock showed to this call, and the
    session, the account and its permissions are what this call read from the store: [O] is any
    property of all this call saw, so [O (SawClock t)] holds only of a clock it read. *)
Theorem admit_sound c req w w' req' rule :
  access_for (rq_path req) = Some (Session rule) →
  run (layer_admit c req) w w' (Ok req') →
  lc_tls c = true ∧ (String.prefix ADMIN_PREFIX (rq_path req) = true → lc_listener c = Admin) ∧ rq_authorization req' = None ∧
  ∃ E ctx header now row d1 d2 d3, lc_authz c = Some E ∧ rq_context req' = Some ctx ∧ rq_authorization req = Some header ∧
    later (w_db w) d1 ∧ later d1 d2 ∧ later d2 d3 ∧ session_shown E O d1 header (rq_peer req) now row ∧ context_shown E O d2 d3 row rule ctx.
Proof.
  intros Ha Hr. destruct (admit_shown _ _ _ _ _ Hr) as (_ & Hl & H). rewrite Ha in H. destruct H as (Htls & Hauth & E & ctx & w1 & HE & Hctx & Hrun).
  destruct (authorize_shown _ _ _ _ _ _ _ _ _ Hrun) as (header & now & row & d1 & d2 & d3 & ? & ? & ? & ? & ? & ?).
  split_and!; [done..|]. by exists E, ctx, header, now, row, d1, d2, d3.
Qed.

(** Revocation takes effect: once the store holds a session as revoked, no request with its
    token is admitted to a session method, whatever anyone does in between. *)
Theorem revocation_effective c E req w w' req' rule header token row t :
  access_for (rq_path req) = Some (Session rule) → lc_authz c = Some E →
  rq_authorization req = Some header → bearer_token header = Some token →
  ad_sessions (w_db w) !! ac_sha256 (en_crypto E) token = Some row → ss_revoked_at row = Some t →
  ¬ run (layer_admit c req) w w' (Ok req').
Proof.
  intros Ha HE Hh Ht Hrow Hrev Hr. destruct (admit_shown _ _ _ _ _ Hr) as (_ & _ & H). rewrite Ha in H.
  destruct H as (_ & _ & E' & ctx & w1 & HE' & _ & Hrun). rewrite HE in HE'. injection HE' as <-. rewrite Hh in Hrun. by eapply revoked_refused.
Qed.
End Layer.
