(* ===== verification/AdminServiceProofs.v ===== *)
(** The handlers of the administrator plane call the store only through its accessors, and
    obey the separation of duties in what they ask of it. *)
From S2P Require Import Prelude AppModel AppDedup AppSchema Order Composite AppPath AllowlistCompile AdminStore AdminStoreProofs AdminFactors AdminGuard AdminPolicy AdminPolicyProofs AdminKeys AdminPassword AdminState AdminAuthz AdminFactorFlows AdminService AdminAccounts AdminRuns AdminAuthzProofs.
Open Scope Z_scope.

(** ** Separation of duties, per call *)
Definition set_ok (strict : bool) (gs : list string) : Prop := strict = true → ¬ (ACCOUNT_ADMINS ∈ gs ∧ APPROVERS ∈ gs).
(** Nobody changes their own groups or state, or resets their own credentials, and under the
    strict policy no set of groups makes an account administrator an approver. *)
Definition sod_ok (strict : bool) (o : AdminOp) : Prop :=
  match o with
  | OpCreate _ gs _ | OpBootstrap _ gs _ _ => set_ok strict gs
  | OpUpdate id _ (Some gs) by_ _ _ _ => set_ok strict gs ∧ id ≠ by_
  | OpSetState id _ by_ _ _ _ => id ≠ by_
  | OpReset id _ _ t => et_created_by t ≠ Some id
  | _ => True
  end.

(** A flow that depends on the answer of a check. *)
Lemma calls_give G {A B} (r : result Status A) (f : A → prog (result Status B)) : (∀ a, r = Ok a → calls_in G (f a)) → calls_in G (try_bind (give r) f).
Proof. intros Hf. destruct r as [a|s]; cbn; [by apply Hf|done]. Qed.

(** [calls_in] of a store call: it is a read, or an accessor that [sod_ok] allows. *)
Ltac store_call :=
  lazymatch goal with
  | |- store_ok _ (read _) => apply read_ok
  | |- store_ok _ (λ d, (d, _)) => by left
  | |- store_ok _ (admin_security_log ?r) => by apply (op_ok _ _ (OpLog r))
  | |- store_ok _ (admin_throttle_increment ?h ?k ?n ?r) => by apply (op_ok _ _ (OpThrottle h k n r))
  | |- store_ok _ (admin_throttle_lock ?h ?u) => by apply (op_ok _ _ (OpLock h u))
  | |- store_ok _ (admin_clear_throttle ?h) => by apply (op_ok _ _ (OpClear h))
  | |- store_ok _ (admin_revoke_session ?h ?n ?r) => by apply (op_ok _ _ (OpRevoke h n r))
  | |- store_ok _ (admin_insert_session ?s) => by apply (op_ok _ _ (OpInsertSession s))
  | |- store_ok _ (admin_touch_session ?h ?n) => by apply (op_ok _ _ (OpTouch h n))
  | |- store_ok _ (admin_rotate_session ?o ?n ?m ?r) => by apply (op_ok _ _ (OpRotate o n m r))
  | |- store_ok _ (stepup_failed_stmt ?h) => by apply (op_ok _ _ (OpStepUpFailed h))
  | |- store_ok _ (admin_advance_totp_step ?i ?s) => by apply (op_ok _ _ (OpAdvanceTotp i s))
  | |- store_ok _ (admin_webauthn_used ?i ?c ?n ?t) => by apply (op_ok _ _ (OpKeyUsed i c n t))
  | |- store_ok _ (admin_set_pending_secret ?h ?s ?n) => by apply (op_ok _ _ (OpPending h s n))
  | |- store_ok _ (admin_rehash_password ?i ?p ?q) => by apply (op_ok _ _ (OpRehash i p q))
  | |- store_ok _ (admin_set_last_login ?i ?n) => by apply (op_ok _ _ (OpLastLogin i n))
  | |- store_ok _ (admin_change_password ?i ?p) => by apply (op_ok _ _ (OpChangePassword i p))
  | |- store_ok _ (admin_add_totp ?i ?e ?s) => by apply (op_ok _ _ (OpAddTotp i e s))
  | |- store_ok _ (admin_remove_totp ?i) => by apply (op_ok _ _ (OpRemoveTotp i))
  | |- store_ok _ (admin_add_webauthn_credential ?c) => by apply (op_ok _ _ (OpAddKey c))
  | |- store_ok _ (admin_remove_webauthn_credential ?i ?c) => by apply (op_ok _ _ (OpRemoveKey i c))
  | |- store_ok _ (admin_complete_enrollment ?c) => by apply (op_ok _ _ (OpEnroll c))
  | |- store_ok _ (admin_insert_enrollment_token ?t) => by apply (op_ok _ _ (OpInsertToken t))
  | |- store_ok _ (create_account_txn ?a ?g ?t) => apply (op_ok _ _ (OpCreate a g t)); [|done]
  | |- store_ok _ (bootstrap_account_txn ?a ?g ?c ?s) => apply (op_ok _ _ (OpBootstrap a g c s)); [|done]
  | |- store_ok _ (set_account_state_txn ?i ?s ?b ?n ?e ?d) => apply (op_ok _ _ (OpSetState i s b n e d)); [|done]
  | |- store_ok _ (update_account_txn ?i ?d ?g ?b ?n ?e ?m) => apply (op_ok _ _ (OpUpdate i d g b n e m)); [|done]
  | |- store_ok _ (admin_reset_credentials ?i ?p ?m ?t) => apply (op_ok _ _ (OpReset i p m t)); [|done]
  end.
Create HintDb flows.
Ltac flow_step :=
  match goal with
  | |- calls_in _ (try_bind (give _) _) => apply calls_give; intros ? ?
  | |- calls_in _ (try_bind _ _) => apply calls_try; [|intros ?]
  | |- calls_in _ (bind _ _) => apply calls_bind; [|intros ?]
  | |- store_ok _ (match ?x with _ => _ end) => destruct x
  | |- store_ok _ _ => store_call
  | |- calls_in _ (store _) => apply calls_store
  | |- calls_in _ (query _) => apply calls_query
  | |- calls_in _ (Done _) => exact I
  | |- calls_in _ (ret _) => exact I
  | |- calls_in _ (fail _) => exact I
  | |- calls_in _ (give _) => exact I
  | |- calls_in _ session_invalid => exact I
  | |- calls_in _ clock => intros ?; exact I
  | |- calls_in _ (random _) => intros ?; exact I
  | |- calls_in _ (local _) => intros ?; exact I
  | |- calls_in _ (audit _) => exact I
  | |- calls_in _ (Work _ _) => intros ?; exact I
  | |- calls_in _ (match ?x with _ => _ end) => destruct x eqn:?
  | |- calls_in _ (let '(_, _) := ?x in _) => destruct x eqn:?
  | |- calls_in _ _ => solve [auto with flows nocore]
  end.
Ltac flow := repeat (cbv beta zeta; flow_step).
Ltac flow_of f := unfold f; flow.

Section Calls.
Context (E : AdminEnv).
Abbreviation strict := (cfg_strict_sod (en_config E)).
Abbreviation calls := (calls_in (sod_ok strict)).

Lemma check_group_set_ok gs : check_group_set E gs = Ok tt → set_ok strict gs.
Proof.
  unfold check_group_set, set_ok. destruct (_ && _ && _) eqn:Ec; [done|]. intros _ Hs [H1 H2]. rewrite Hs in Ec. cbn [andb] in Ec.
  assert (∀ g, g ∈ gs → existsb (λ x, is_ x g) gs = true) as Hin.
  { intros g Hg. apply existsb_exists. exists g. split; [by apply list_elem_of_In|apply is_refl]. }
  rewrite (Hin _ H1), (Hin _ H2) in Ec. done.
Qed.
Lemma check_sod_ok ctx id gs : check_sod E ctx id gs = Ok tt → id ≠ cx_admin_id ctx ∧ match gs with Some g => set_ok strict g | None => True end.
Proof.
  unfold check_sod. destruct (is_ _ _) eqn:Ei; [done|]. intros H. split; [by apply not_is in Ei|]. destruct gs; [by apply check_group_set_ok|done].
Qed.

Lemma security_log_calls e a u i d : calls (security_log E e a u i d).
Proof. flow_of @security_log. Qed.
Lemma hash_password_calls p : calls (hash_password E p).
Proof. flow_of @hash_password. Qed.
Lemma verify_password_calls p h i : calls (verify_password E p h i).
Proof. flow_of @verify_password. Qed.
Lemma verify_dummy_calls p : calls (verify_dummy E p).
Proof. apply verify_password_calls. Qed.
Lemma issue_nonce_calls l b : calls (st_issue_nonce E l b).
Proof. flow_of @st_issue_nonce. Qed.
Lemma redeem_within_calls l n b t : calls (st_redeem_within E l n b t).
Proof. flow_of @st_redeem_within. Qed.
Lemma redeem_calls l n b : calls (st_redeem E l n b).
Proof. apply redeem_within_calls. Qed.
Lemma throttle_wait_calls keys : calls (throttle_wait keys).
Proof.
  unfold throttle_wait. flow_step; [flow|]. generalize (@None Z). induction keys as [|[k h] keys IH]; intros o; cbn [throttle_wait_loop]; flow.
Qed.
Lemma throttle_failure_calls keys : calls (throttle_failure keys).
Proof.
  unfold throttle_failure. flow_step; [flow|]. generalize 0. induction keys as [|[k h] keys IH]; intros o; cbn [throttle_failure_loop]; flow.
Qed.
Lemma throttle_clear_calls keys : calls (throttle_clear keys).
Proof. induction keys as [|[k h] keys IH]; cbn [throttle_clear]; flow. Qed.
Lemma check_anomaly_calls : calls check_anomaly.
Proof. flow_of @check_anomaly. Qed.
Lemma revoke_session_calls r n b : calls (revoke_session E r n b).
Proof. flow_of @revoke_session. Qed.
#[local] Hint Resolve security_log_calls hash_password_calls verify_password_calls verify_dummy_calls issue_nonce_calls redeem_within_calls redeem_calls
  throttle_wait_calls throttle_failure_calls throttle_clear_calls check_anomaly_calls revoke_session_calls : flows.
Lemma revoke_each_calls rs n b : calls (revoke_each E rs n b).
Proof. induction rs as [|r rs IH]; cbn [revoke_each]; flow. Qed.
#[local] Hint Resolve revoke_each_calls : flows.
Lemma revoke_all_calls i k n b : calls (revoke_all_sessions E i k n b).
Proof. flow_of @revoke_all_sessions. Qed.
Lemma open_session_calls a p c v r : calls (open_session E a p c v r).
Proof. flow_of @open_session. Qed.
Lemma check_totp_calls a c : calls (check_totp E a c).
Proof. flow_of @check_totp. Qed.
Lemma second_factor_failed_calls ctx : calls (second_factor_failed E ctx).
Proof. flow_of @second_factor_failed. unfold admin_session_stepup_failed, ok_or. flow. Qed.
#[local] Hint Resolve revoke_all_calls open_session_calls check_totp_calls second_factor_failed_calls : flows.
Lemma factor_holdings_calls i : calls (factor_holdings i).
Proof. unfold factor_holdings, webauthn_credentials. flow. Qed.
Lemma check_assertion_calls a cs asr ch ip : calls (check_assertion E a cs asr ch ip).
Proof. unfold check_assertion, clone_detected. flow. Qed.
#[local] Hint Resolve factor_holdings_calls check_assertion_calls : flows.
Lemma verify_factor_calls ctx p n : calls (verify_factor E ctx p n).
Proof. flow_of @verify_factor. Qed.
Lemma require_step_up_calls ctx : calls (require_step_up E ctx).
Proof. flow_of @require_step_up. Qed.
#[local] Hint Resolve verify_factor_calls require_step_up_calls : flows.
Lemma verify_proof_calls ctx p : calls (verify_proof E ctx p).
Proof. flow_of @verify_proof. Qed.
#[local] Hint Resolve verify_proof_calls : flows.

(** The layer and [authorize]. *)
Lemma authorize_calls path rule auth peer : calls (authorize E path rule auth peer).
Proof. unfold authorize, check_session, check_rule, revoke_and_refuse, refuse, deny, touch. flow. Qed.
(** Factor management. *)
Lemma complete_add_factor_calls cx req : calls (complete_add_factor E cx req).
Proof. unfold complete_add_factor, add_totp_factor, add_key_factor, check_attestation. flow. Qed.
Lemma remove_factor_calls cx req : calls (remove_factor E cx req).
Proof. unfold remove_factor. flow. Qed.
Lemma begin_add_factor_calls cx m : calls (begin_add_factor E cx m).
Proof. unfold begin_add_factor. flow. Qed.
(** Login and sessions. *)
Lemma hashed_calls {A} (p : prog (result PasswordError A)) : calls p → calls (hashed p).
Proof. intros H. unfold hashed. flow_step; [done|flow]. Qed.
#[local] Hint Resolve hashed_calls : flows.
Lemma dummy_calls {A} p (r : string + A) : calls (dummy E p r).
Proof. unfold dummy. flow. Qed.
#[local] Hint Resolve dummy_calls : flows.
Lemma login_verify_calls n a cs gs req peer : calls (login_verify E n a cs gs req peer).
Proof. unfold login_verify, login_second, rehash. flow. Qed.
Lemma login_calls req peer : calls (login E req peer).
Proof.
  pose proof login_verify_calls. unfold login, account_of_username, login_failed, login_succeeded, groups_of, webauthn_credentials. flow.
Qed.
Lemma rotate_calls ctx m r : calls (rotate E ctx m r).
Proof. unfold rotate. flow. Qed.
#[local] Hint Resolve rotate_calls : flows.
Lemma step_up_calls cx n p : calls (step_up E cx n p).
Proof. unfold step_up. flow. Qed.
Lemma logout_calls cx : calls (logout cx).
Proof. unfold logout. flow. Qed.
Lemma revoke_session_rpc_calls cx i w : calls (revoke_session_rpc E cx i w).
Proof. unfold revoke_session_rpc, deny. flow. Qed.
Lemma target_calls i : calls (target i).
Proof. unfold target, account. flow. Qed.
Lemma policy_check_calls p u d : calls (policy_check E p u d).
Proof. unfold policy_check. flow. Qed.
Lemma reused_calls a c : calls (reused E a c).
Proof.
  unfold reused. flow_step; [flow|]. match goal with |- calls (reused_loop _ _ ?hs) => generalize hs end.
  intros l. induction l as [|[phc pe] l IH]; cbn [reused_loop]; flow.
Qed.
#[local] Hint Resolve target_calls policy_check_calls reused_calls : flows.
Lemma change_password_calls cx c n p : calls (change_password E cx c n p).
Proof. unfold change_password. flow. Qed.
(** Enrollment and accounts. *)
Lemma live_token_calls t : calls (live_token E t).
Proof. unfold live_token, account. flow. Qed.
Lemma enrollment_failed_calls {A} peer keys : calls (enrollment_failed (A := A) E peer keys).
Proof. unfold enrollment_failed. flow. Qed.
Lemma offer_secret_calls h : calls (offer_enrollment_secret E h).
Proof. unfold offer_enrollment_secret. flow. Qed.
Lemma enroll_factors_calls row a req l now : calls (enroll_factors E row a req l now).
Proof. unfold enroll_factors, check_enrollment_attestation, check_attestation. flow. Qed.
Lemma audit_enrolled_calls i ip fs : calls (audit_enrolled E i ip fs).
Proof. induction fs as [|[m f] fs IH]; cbn [audit_enrolled]; flow. Qed.
#[local] Hint Resolve live_token_calls enrollment_failed_calls offer_secret_calls enroll_factors_calls audit_enrolled_calls : flows.
Lemma begin_enrollment_calls peer t : calls (begin_enrollment E peer t).
Proof. unfold begin_enrollment, webauthn_credentials. flow. Qed.
Lemma complete_bootstrap_calls row req peer : calls (complete_bootstrap E row req peer).
Proof.
  unfold complete_bootstrap, admin_bootstrap_account, ok_or. flow. intros Hs [_ H2]. rewrite Hs in H2. by apply list_elem_of_singleton in H2.
Qed.
Lemma complete_enroll_calls row a req peer : calls (complete_enroll E row a req peer).
Proof. unfold complete_enroll, webauthn_credentials. flow. Qed.
#[local] Hint Resolve complete_bootstrap_calls complete_enroll_calls : flows.
Lemma complete_enrollment_calls peer req : calls (complete_enrollment E peer req).
Proof. unfold complete_enrollment. flow. Qed.
Lemma check_last_calls t r : calls (check_last_account_admin t r).
Proof. unfold check_last_account_admin. flow. Qed.
#[local] Hint Resolve check_last_calls : flows.
Lemma refusal_calls {A} t g : calls (refusal (A := A) t g).
Proof. unfold refusal. flow. Qed.
Lemma version_if_calls b i : calls (version_if b i).
Proof. unfold version_if, ok_or. flow. Qed.
#[local] Hint Resolve refusal_calls version_if_calls : flows.
Lemma create_admin_account_calls cx req : calls (create_admin_account E cx req).
Proof. unfold create_admin_account, admin_create_account, ok_or. flow. all: match goal with H : check_group_set _ _ = Ok ?x |- _ => destruct x; by apply check_group_set_ok end. Qed.
Lemma update_admin_account_calls cx req : calls (update_admin_account E cx req).
Proof.
  unfold update_admin_account. apply calls_give. intros ctx _. flow_step; [flow|]. rename a into t. flow_step; [flow|]. rename a into gs.
  flow_step; [flow|]. cbv beta. flow_step; [flow|].
  destruct (match gs with Some g => check_sod E ctx (aa_admin_id t) (Some g) | None => Ok tt end) as [[]|s] eqn:Hsod.
  - apply calls_try; [unfold groups_of; flow|]. intros demotes. flow_step; [flow|]. unfold admin_update_account, ok_or. flow.
    all: destruct gs as [g|]; [|exact I]; apply check_sod_ok in Hsod as [? ?]; done.
  - destruct gs as [g|]; [|done]. unfold try_bind at 1. rewrite Hsod. cbn. done.
Qed.
Lemma set_admin_account_state_calls cx i st p : calls (set_admin_account_state E cx i st p).
Proof.
  unfold set_admin_account_state, admin_set_account_state, groups_of, ok_or. flow.
  all: match goal with H : check_sod _ _ _ _ = Ok ?x |- _ => destruct x; apply check_sod_ok in H as [? _]; done end.
Qed.
Lemma reset_admin_credentials_calls cx i a b p : calls (reset_admin_credentials E cx i a b p).
Proof.
  unfold reset_admin_credentials. flow. all: match goal with H : check_sod _ _ _ _ = Ok ?x |- _ => destruct x; apply check_sod_ok in H as [? _]; cbn; congruence end.
Qed.
Lemma arm_calls l f : calls (arm E l f).
Proof. unfold arm. flow. Qed.
End Calls.
#[export] Hint Resolve security_log_calls hash_password_calls verify_password_calls verify_dummy_calls issue_nonce_calls redeem_within_calls redeem_calls throttle_wait_calls throttle_failure_calls throttle_clear_calls check_anomaly_calls revoke_session_calls revoke_each_calls revoke_all_calls open_session_calls check_totp_calls second_factor_failed_calls factor_holdings_calls check_assertion_calls verify_factor_calls require_step_up_calls verify_proof_calls hashed_calls dummy_calls rotate_calls target_calls policy_check_calls reused_calls live_token_calls enrollment_failed_calls offer_secret_calls enroll_factors_calls audit_enrolled_calls complete_bootstrap_calls complete_enroll_calls check_last_calls refusal_calls version_if_calls : flows.

(** ** Every flow of the plane *)
Inductive flow (E : AdminEnv) : Thread → Prop :=
  | fl_authorize path rule auth peer n : flow E {| th_prog := authorize E path rule auth peer; th_node := n |}
  | fl_login req peer n : flow E {| th_prog := login E req peer; th_node := n |}
  | fl_step_up cx nonce proof n : flow E {| th_prog := step_up E cx nonce proof; th_node := n |}
  | fl_logout cx n : flow E {| th_prog := logout cx; th_node := n |}
  | fl_revoke_session cx id wanted n : flow E {| th_prog := revoke_session_rpc E cx id wanted; th_node := n |}
  | fl_change_password cx cur new proof n : flow E {| th_prog := change_password E cx cur new proof; th_node := n |}
  | fl_begin_add_factor cx m n : flow E {| th_prog := begin_add_factor E cx m; th_node := n |}
  | fl_complete_add_factor cx req n : flow E {| th_prog := complete_add_factor E cx req; th_node := n |}
  | fl_remove_factor cx req n : flow E {| th_prog := remove_factor E cx req; th_node := n |}
  | fl_begin_enrollment peer token n : flow E {| th_prog := begin_enrollment E peer token; th_node := n |}
  | fl_complete_enrollment peer req n : flow E {| th_prog := complete_enrollment E peer req; th_node := n |}
  | fl_create cx req n : flow E {| th_prog := create_admin_account E cx req; th_node := n |}
  | fl_update cx req n : flow E {| th_prog := update_admin_account E cx req; th_node := n |}
  | fl_set_state cx id st proof n : flow E {| th_prog := set_admin_account_state E cx id st proof; th_node := n |}
  | fl_reset cx id pw mfa proof n : flow E {| th_prog := reset_admin_credentials E cx id pw mfa proof; th_node := n |}
  | fl_arm leader written n : flow E {| th_prog := arm E leader written; th_node := n |}.
Lemma flow_calls E t : flow E t → calls_in (sod_ok (cfg_strict_sod (en_config E))) (th_prog t).
Proof.
  destruct 1; cbn [th_prog].
  - apply authorize_calls.
  - apply login_calls.
  - apply step_up_calls.
  - apply logout_calls.
  - apply revoke_session_rpc_calls.
  - apply change_password_calls.
  - apply begin_add_factor_calls.
  - apply complete_add_factor_calls.
  - apply remove_factor_calls.
  - apply begin_enrollment_calls.
  - apply complete_enrollment_calls.
  - apply create_admin_account_calls.
  - apply update_admin_account_calls.
  - apply set_admin_account_state_calls.
  - apply reset_admin_credentials_calls.
  - apply arm_calls.
Qed.
Lemma plane_history E s s' : rtc (sys_step (flow E)) s s' → sy_threads s = [] →
  ∃ os, Forall (sod_ok (cfg_strict_sod (en_config E))) os ∧ sy_db s' = run_ops os (sy_db s).
Proof.
  intros Hr Ht. apply (sys_history _ _ (flow_calls E)) in Hr; [by destruct Hr|]. unfold threads_in. by rewrite Ht.
Qed.
