(* ===== verification/AdminSod.v ===== *)
(** The strict separation of duties over every execution of the administrator plane. *)
From S2P Require Import Prelude AppModel AppDedup AppSchema Order Composite AppPath AllowlistCompile AdminStore AdminStoreProofs AdminFactors AdminGuard AdminPolicy AdminPolicyProofs AdminKeys AdminPassword AdminState AdminAuthz AdminFactorFlows AdminService AdminAccounts AdminRuns AdminAuthzProofs AdminServiceProofs.
Open Scope Z_scope.

(** No account administrator is an approver; memberships are of accounts. *)
Record sod_db (d : AdminDb) : Prop := {
  sod_members : ∀ i g, is_Some (ad_members d !! (i, g)) → is_Some (ad_accounts d !! i);
  sod_apart : ∀ i g g', is_Some (ad_members d !! (i, g)) → is_Some (ad_members d !! (i, g')) →
    ¬ (ad_groups d !! g = Some ACCOUNT_ADMINS ∧ ad_groups d !! g' = Some APPROVERS) }.

(** Statements that add no memberships but those of [id] in groups named in [S]. *)
Definition adds (id : string) (S : list string) (d d' : AdminDb) : Prop :=
  ad_groups d' = ad_groups d ∧ (∀ i, is_Some (ad_accounts d !! i) → is_Some (ad_accounts d' !! i)) ∧
  ∀ i g, is_Some (ad_members d' !! (i, g)) → is_Some (ad_members d !! (i, g)) ∨ i = id ∧ ∃ n, n ∈ S ∧ ad_groups d !! g = Some n.
#[export] Instance adds_order id S : PreOrder (adds id S).
Proof.
  split; [intros d; split_and!; auto|]. intros d1 d2 d3 (G1 & A1 & M1) (G2 & A2 & M2). split_and!; [congruence|auto|]. intros i g [H|H]%M2; [auto|].
  right. by rewrite <- G1.
Qed.
Lemma adds_frame id S (s : stmt) :
  (∀ d d' n, s d = Ok (d', n) → ad_accounts d' = ad_accounts d ∧ ad_members d' = ad_members d ∧ ad_groups d' = ad_groups d) → closed (adds id S) s.
Proof. intros Hs d d' n (Ha & Hm & Hg)%Hs. split_and!; [done|by rewrite Ha|]. intros i g. rewrite Hm. auto. Qed.
Lemma update_adds id S i p f : closed (adds id S) (update_account i p f).
Proof.
  intros d d' n. unfold update_account. destruct (ad_accounts d !! i) as [a|] eqn:Ea; [|by intros [= <- _]]. destruct (p a); intros [= <- _]; [|done].
  split_and!; [done| |auto]. intros j Hj. cbn. destruct (decide (i = j)) as [<-|]; [by rewrite lookup_insert_eq|by rewrite lookup_insert_ne].
Qed.
Lemma insert_account_adds id S a : closed (adds id S) (insert_account a).
Proof.
  intros d d' n. unfold insert_account. destruct (_ || _); [done|]. intros [= <- _]. split_and!; [done| |auto]. intros j Hj. cbn.
  destruct (decide (aa_admin_id a = j)) as [<-|]; [by rewrite lookup_insert_eq|by rewrite lookup_insert_ne].
Qed.
Lemma delete_members_adds id S i : closed (adds id S) (delete_members i).
Proof.
  intros d d' n. unfold delete_members. intros [= <- _]. split_and!; [done|done|]. intros j g [m Hm]. cbn in Hm. apply map_lookup_filter_Some in Hm as [Hm _].
  left. by exists m.
Qed.
Lemma insert_memberships_rows id gs r d d' n i g : insert_memberships id gs r d = Ok (d', n) → is_Some (ad_members d' !! (i, g)) →
  is_Some (ad_members d !! (i, g)) ∨ i = id ∧ g ∈ gs.
Proof.
  revert d n. induction gs as [|h gs IH]; intros d n; cbn [insert_memberships]; [intros [= <- _]; auto|]. destruct (not_null _); [done|].
  destruct (insert_memberships id gs r _) as [[d1 k]|] eqn:E; [|done]. intros [= <- _] Hm. destruct (IH _ _ E Hm) as [H|[-> H]].
  - cbn in H. destruct (decide ((id, h) = (i, g))) as [[= <- <-]|]; [right; split; [done|left]|left; by rewrite lookup_insert_ne in H].
  - right. split; [done|by right].
Qed.
Lemma insert_member_adds id S g b t : g ∈ S → closed (adds id S) (insert_member id g b t).
Proof.
  intros Hg d d' n E. unfold insert_member in E. pose proof (insert_memberships_keep _ _ _ _ _ _ E) as (Ha & Hgr & _ & _). split_and!; [done|by rewrite Ha|].
  intros i h Hm. destruct (insert_memberships_rows _ _ _ _ _ _ _ _ E Hm) as [?|[-> Hh]]; [auto|]. right. split; [done|]. exists g. split; [done|].
  unfold groups_named in Hh. apply list_elem_of_fmap in Hh as ([h' n'] & -> & Hh). apply list_elem_of_In, filter_In in Hh as [Hh Hn%is_eq].
  apply list_elem_of_In, elem_of_map_to_list in Hh. cbn in *. by subst.
Qed.
Ltac adds_frame_db := apply adds_frame; intros ? ? ? Hst;
  unfold insert_history, insert_webauthn, insert_token_stmt, redeem_stmt, supersede_stmt, where_, direct, admin_webauthn_used,
    admin_remove_webauthn_credential, admin_insert_session, admin_touch_session, admin_revoke_session, update_session, admin_rotate_session,
    stepup_failed_stmt, admin_set_pending_secret, set_once_stmt, unit_of in Hst; repeat (case_match; simplify_eq/=); simplify_eq/=; done.
Create HintDb adds.
#[export] Hint Resolve closed_where insert_account_adds update_adds delete_members_adds : adds.
#[export] Hint Extern 4 (closed (adds _ _) _) => adds_frame_db : adds.

(** The accessors that grant groups. *)
Definition grants (o : AdminOp) : bool := match o with OpCreate _ _ _ | OpBootstrap _ _ _ _ | OpUpdate _ _ (Some _) _ _ _ _ => true | _ => false end.
Lemma add_key_adds id S c : closed (adds id S) (direct (admin_add_webauthn_credential c)).
Proof.
  intros d d1 k [= <- _]. destruct (add_key_where c d) as [->|(d' & n & c' & _ & E & ->)]; [done|].
  assert (closed (adds id S) (insert_webauthn c')) as H by auto with adds. eapply closed_where, E; [apply _|done].
Qed.
Lemma no_grant_adds o : grants o = false → Forall (closed (adds "" [])) (op_stmts o).
Proof. destruct o; intros Hg; try done; cbn [op_stmts grants] in *; split_stmts; auto 6 using add_key_adds with adds typeclass_instances. Qed.

Lemma sod_subset d d' : adds "" [] d d' → sod_db d → sod_db d'.
Proof.
  intros (Hg & Ha & Hm) [S1 S2]. assert (∀ i g, is_Some (ad_members d' !! (i, g)) → is_Some (ad_members d !! (i, g))) as Hsub.
  { intros i g [H|(_ & n & Hn & _)]%Hm; [done|]. by apply not_elem_of_nil in Hn. }
  split; [eauto|]. intros i g g' H1 H2. rewrite Hg. eapply S2; eauto.
Qed.
Lemma sod_granted strict id gs d d' : strict = true → set_ok strict gs → adds id gs d d' → (∀ g, ad_members d !! (id, g) = None) → is_Some (ad_accounts d' !! id) →
  sod_db d → sod_db d'.
Proof.
  intros Hstrict Hset (Hg & Ha & Hm) Hnone Hid [S1 S2]. split.
  - intros i g [H|(-> & _)]%Hm; [eauto|done].
  - intros i g g' H1 H2 [E1 E2]. rewrite Hg in *. apply Hm in H1 as [H1|(-> & n & Hn & En)], H2 as [H2|(? & n' & Hn' & En')]; subst.
    + by apply (S2 i g g').
    + rewrite Hnone in H1. by destruct H1.
    + rewrite Hnone in H2. by destruct H2.
    + apply (Hset eq_refl). split; congruence.
Qed.
(** An account that is inserted was not there, and is there afterwards. *)
Lemma insert_account_fresh a d d' n : insert_account a d = Ok (d', n) → ad_accounts d !! aa_admin_id a = None ∧ is_Some (ad_accounts d' !! aa_admin_id a).
Proof.
  unfold insert_account. destruct (not_null _) eqn:E; [done|]. destruct (exists_row _ _); [done|]. intros [= <- _]. apply not_null_false in E.
  split; [done|]. cbn. by rewrite lookup_insert_eq.
Qed.
Lemma adds_members_stmts id gs (P : AdminDb → bool) b t : Forall (closed (adds id gs)) ((λ g, where_ P (insert_member id g b t)) <$> gs) ∧
  Forall (closed (adds id gs)) ((λ g, insert_member id g b t) <$> gs).
Proof.
  split; apply Forall_fmap, Forall_forall; intros g Hg; cbn; [apply closed_where; [apply _|]|]; by apply insert_member_adds.
Qed.
Lemma sod_create strict a gs t d : strict = true → set_ok strict gs → sod_db d → sod_db (create_account_txn a gs t d).1.
Proof.
  intros Hs Hok Hd. unfold create_account_txn, txn_conflict. destruct (txn_loop _ d) as [[d' ns]|[]] eqn:E; [|exact Hd..]. cbn [fst].
  cbn [txn_loop] in E. destruct (insert_account _ d) as [[d1 n]|] eqn:E1; [|done]. destruct (txn_loop _ d1) as [[d2 ms]|] eqn:E2; [|done]. injection E as <- _.
  pose proof (insert_account_fresh _ _ _ _ E1) as [Hnew Hin]. cbn [aa_admin_id] in *.
  pose proof (insert_account_adds (aa_admin_id a) gs _ _ _ _ E1) as H1.
  assert (adds (aa_admin_id a) gs d1 d2) as H2.
  { eapply closed_txn, E2; [apply _|]. apply Forall_app. split; [apply (adds_members_stmts _ _ (λ _, true))|]. constructor; [auto with adds|constructor]. }
  eapply (sod_granted strict (aa_admin_id a) gs d d2 Hs Hok); [by etransitivity| |by apply H2|done].
  intros g. apply eq_None_not_Some. intros Hm. apply (sod_members _ Hd) in Hm. rewrite Hnew in Hm. by destruct Hm.
Qed.
Lemma sod_bootstrap strict a gs c st d : strict = true → set_ok strict gs → sod_db d → sod_db (bootstrap_account_txn a gs c st d).1.
Proof.
  intros Hs Hok Hd. unfold bootstrap_account_txn. destruct (ec_password c) as [pw|]; [|exact Hd].
  destruct (ec_totp c) as [totp|]; [|by destruct (ec_webauthn c)]. destruct (ec_webauthn c); [exact Hd|]. unfold bootstrap_txn. rewrite redeemed_fst. unfold txn_conflict.
  set (live := token_live (ec_token_hash c) (ec_now c)). rewrite !app_comm_cons, app_assoc.
  match goal with |- context [txn_loop (?A ++ ?B) d] => set (first := A); set (last_ := B) end.
  destruct (txn_loop (first ++ last_) d) as [[d' ns]|[]] eqn:E; [|exact Hd..]. cbn [fst].
  apply txn_loop_app in E as (d1 & ms & ks & E1 & E2).
  assert (adds "" [] d1 d') as Hlast by (eapply closed_txn, E2; [apply _|]; constructor; [auto with adds typeclass_instances|constructor]).
  apply (sod_subset d1); [exact Hlast|]. destruct (live d) eqn:Hlive.
  - subst first. cbn [app txn_loop] in E1. unfold where_ at 1 in E1. rewrite Hlive in E1. destruct (insert_account _ d) as [[d2 n]|] eqn:E3; [|done].
    destruct (where_ live (insert_history _ _) d2) as [[d3 n3]|] eqn:E4; [|done]. destruct (txn_loop _ d3) as [[d4 k4]|] eqn:E5; [|done]. injection E1 as <- _.
    pose proof (insert_account_fresh _ _ _ _ E3) as [Hnew Hin]. cbn [aa_admin_id] in *.
    pose proof (insert_account_adds (aa_admin_id a) gs _ _ _ _ E3) as H1.
    assert (adds (aa_admin_id a) gs d2 d4) as H2.
    { transitivity d3; [eapply (closed_where _ live (insert_history (aa_admin_id a) pw)), E4; auto with adds|].
      eapply closed_txn, E5; [apply _|]. apply Forall_app. split; [apply adds_members_stmts|]. apply closed_fmap. intros kv. auto with adds typeclass_instances. }
    eapply (sod_granted strict (aa_admin_id a) gs d d4 Hs Hok); [by etransitivity| |by apply H2|done].
    intros g. apply eq_None_not_Some. intros Hm. apply (sod_members _ Hd) in Hm. rewrite Hnew in Hm. by destruct Hm.
  - destruct (txn_loop_where live first d) as (ns' & E'); [|done|rewrite E' in E1; by injection E1 as <- _].
    subst first. repeat (apply Forall_cons; split; [by eexists|]). apply Forall_app. split; apply Forall_fmap, Forall_true; intros x; by eexists.
Qed.
Lemma sod_update strict id dn gs b now e need d : strict = true → set_ok strict gs → sod_db d → sod_db (update_account_txn id dn (Some gs) b now e need d).1.
Proof.
  intros Hs Hok Hd. unfold update_account_txn, txn. set (guard := λ d, at_version id e d && other_admin need id d).
  match goal with |- context [txn_loop (?A ++ (?D :: ?I) ++ ?B) d] => set (first := A); set (del := D); set (ins := I); set (last_ := B) end.
  destruct (txn_loop _ d) as [[d' ns]|] eqn:E; [|exact Hd]. cbn [fst].
  apply txn_loop_app in E as (d1 & ms & ks & E1 & E). assert (adds "" [] d d1) as H1.
  { eapply closed_txn, E1; [apply _|]. subst first. destruct dn; [apply Forall_singleton, closed_where; [apply _|auto with adds]|constructor]. }
  assert (sod_db d1) as Hd1 by by eapply sod_subset. destruct (guard d1) eqn:Hg.
  - cbn [app txn_loop] in E. subst del. unfold where_ at 1 in E. rewrite Hg in E. cbn [delete_members] in E.
    destruct (txn_loop (ins ++ last_) _) as [[d2 k2]|] eqn:E2; [|done]. injection E as <- _.
    set (d0 := put_members _ d1) in *.
    assert (sod_db d0) as Hd0 by (apply (sod_subset d1); [by eapply (delete_members_adds "" [] id d1)|done]).
    assert (adds id gs d0 d2) as H2.
    { eapply closed_txn, E2; [apply _|]. apply Forall_app. split; [apply adds_members_stmts|]. apply Forall_singleton. apply closed_where; [apply _|auto with adds]. }
    eapply (sod_granted strict id gs d0 d2 Hs Hok); [done| | |done].
    + intros g. subst d0. cbn. apply map_lookup_filter_None. right. intros m _. cbn. by intros Hne.
    + apply H2. cbn. apply andb_true_iff in Hg as [Hv _]. unfold at_version in Hv. by destruct (ad_accounts d1 !! id).
  - destruct (txn_loop_where guard ((del :: ins) ++ last_) d1) as (ns' & E'); [|done|rewrite E' in E; by injection E as <- _].
    apply Forall_cons; split; [by eexists|]. apply Forall_app. split; [apply Forall_fmap, Forall_true; intros x; by eexists|]. repeat constructor. by eexists.
Qed.
Lemma sod_op strict o d : strict = true → sod_ok strict o → sod_db d → sod_db (run_op o d).
Proof.
  intros Hs Hok Hd. destruct (grants o) eqn:Hg; [|eapply sod_subset, Hd; apply run_op_closed; [apply _|by apply no_grant_adds]].
  destruct o; try done; cbn [run_op sod_ok] in *.
  - by apply (sod_create strict).
  - by apply (sod_bootstrap strict).
  - destruct gs as [gs|]; [|done]. destruct Hok. by apply (sod_update strict).
Qed.
Lemma sod_history strict os d : strict = true → Forall (sod_ok strict) os → sod_db d → sod_db (run_ops os d).
Proof. intros Hs H. revert d. induction H as [|o os Ho _ IH]; intros d Hd; [done|]. apply (IH (run_op o d)). by apply (sod_op strict). Qed.
Lemma init_sod : sod_db init_admin_schema.
Proof. by split; [intros i g [m Hm]; cbv in Hm|intros i g g' [m Hm]; cbv in Hm]. Qed.

(** C27: Separation of duties.  However many administrators act, on however many nodes, with store
    calls lost or answered late: what the plane does to the store is a sequence of accessor
    calls in which nobody changes their own groups or state or resets their own credentials;
    and under the strict policy no account is ever both an account administrator and an
    approver. *)
Theorem separation_of_duties E s s' :
  rtc (sys_step (flow E)) s s' → sy_threads s = [] →
  (∃ os, Forall (sod_ok (cfg_strict_sod (en_config E))) os ∧ sy_db s' = run_ops os (sy_db s)) ∧
  (cfg_strict_sod (en_config E) = true → sod_db (sy_db s) → sod_db (sy_db s')).
Proof.
  intros Hr Ht. destruct (plane_history E s s' Hr Ht) as (os & Hos & Eq). split; [by exists os|]. intros Hs Hd. rewrite Eq. by eapply sod_history, Hd; [apply Hs|].
Qed.
