(* ===== verification/AdminLogin.v ===== *)
(** What a successful login, step-up or account change has shown. *)
From S2P Require Import Prelude AppModel AppDedup AppSchema Order Composite AppPath AllowlistCompile AdminStore AdminStoreProofs AdminGuard AdminPolicy AdminPolicyProofs AdminKeys AdminPassword AdminState AdminAuthz AdminFactorFlows AdminService AdminAccounts AdminRuns AdminAuthzProofs AdminServiceProofs.
Open Scope Z_scope.

(** ** The steps of a flow *)
(** Chains of moments. *)
Ltac chain := unfold env in *; first [done | match goal with H : later ?a ?x |- later ?a ?b => transitivity x; [exact H|clear H; chain] end].
Section Steps.
Context {O : seen → Prop}.
Local Abbreviation run := (AdminRuns.run O).
Lemma run_give {A} (r : result Status A) w w' a : run (give r) w w' (Ok a) → env w w' ∧ r = Ok a.
Proof. by intros [H ->]. Qed.
Lemma run_then {A B} (p : prog A) (q : prog B) w w' b : (∀ w1 w2 a, run p w1 w2 a → env w1 w2) → run (let* _ := p in q) w w' b →
  ∃ w1, env w w1 ∧ run q w1 w' b.
Proof. intros Hp (w1 & a & H%Hp & Hr)%run_bind. by exists w1. Qed.
(** Whatever a flow of accessor calls does, it is a history of them. *)
Lemma run_calls G {A} (p : prog A) w w' a : calls_in G p → run p w w' a → env w w'.
Proof.
  revert w. induction p as [x|X op k IH|X op k IH|k IH|n k IH|X r k IH|e k IH]; intros w Hc; cbn [run calls_in] in *.
  - by intros [? _].
  - destruct Hc as [Hop Hk]. intros (w0 & d1 & r & He & Ha & _ & Hr). etransitivity; [exact He|]. apply IH in Hr; [|done].
    unfold env in *. cbn in Hr. etransitivity; [|exact Hr].
    assert (d1 = w_db w0 ∨ d1 = (op (w_db w0)).1) as [->| ->] by (destruct Ha as [d' r Eq| |d' r Eq]; [right; by rewrite Eq|by left|right; by rewrite Eq]).
    + by exists [].
    + destruct (Hop (w_db w0)) as [->|(o & _ & ->)]; [by exists []|by exists [o]].
  - intros (w0 & He & Hr). destruct (op (w_mem w0)) as [m x], Hr as [_ Hr]. apply IH in Hr; [|done]. by etransitivity.
  - intros (w0 & t & He & _ & Hr). apply IH in Hr; [|done]. by etransitivity.
  - intros (w0 & b & He & _ & Hr). apply IH in Hr; [|done]. by etransitivity.
  - intros (w0 & x & He & _ & Hr). apply IH in Hr; [|done]. by etransitivity.
  - intros (w0 & He & Hr). apply IH in Hr; [|done]. by etransitivity.
Qed.
End Steps.

(** No matter which calls. *)
Definition any_calls {A} (p : prog A) : Prop := calls_in (λ _, True) p.
Lemma calls_any G {A} (p : prog A) : calls_in G p → any_calls p.
Proof.
  induction p as [x|X op k IH|X op k IH|k IH|n k IH|X r k IH|e k IH]; cbn [calls_in any_calls]; unfold any_calls in *; cbn [calls_in]; try naive_solver.
  intros [Hop Hk]. split; [|auto]. intros d. destruct (Hop d) as [|(o & _ & Ho)]; [by left|right; by exists o].
Qed.

Section Login.
Context (E : AdminEnv) (O : seen → Prop).
Local Abbreviation run := (AdminRuns.run O).
Abbreviation C := (en_crypto E).
Abbreviation K := (en_keys E).
#[local] Hint Extern 9 (calls_in (λ _, True) _) => apply (calls_any (sod_ok (cfg_strict_sod (en_config E)))); solve [auto with flows nocore] : flows.

(** ** Second factors *)
(** A code of the account's own secret at a step past the last one, which the store advanced. *)
Definition totp_shown (a : AdminAccountRow) (code : string) (d d1 : AdminDb) : Prop :=
  ∃ sealed secret now step, O (SawClock now) ∧ aa_totp_secret_enc a = Some sealed ∧ open_totp C K (aa_admin_id a) sealed = Some secret ∧
    totp_verify (ac_hmac_sha1 C) secret (as_bytes code) now (aa_totp_last_step a) = Some step ∧
    admin_advance_totp_step (aa_admin_id a) step d = (d1, Ok true).
(** An assertion by one of the account's keys over the challenge, whose counter the store advanced. *)
Definition key_shown (a : AdminAccountRow) (creds : list WebAuthnCredentialRow) (asr : WebAuthnAssertion) (challenge : list u8) (d d1 : AdminDb) : Prop :=
  ∃ cred n backup now, O (SawClock now) ∧ cred ∈ creds ∧ wc_admin_id cred = aa_admin_id a ∧ wc_credential_id cred = wa_credential_id asr ∧
    en_verify_assertion E challenge (wc_cose_public_key cred) (wa_authenticator_data asr) (wa_client_data_json asr) (wa_signature asr) = Some (n, backup) ∧
    counter_advances (wc_sign_count cred) n = true ∧
    admin_webauthn_used (aa_admin_id a) (wc_credential_id cred) n now d = (d1, Ok true).
(** Some write the flow makes to the store between two worlds is as [P] says. *)
Definition between (P : AdminDb → AdminDb → Prop) (w w' : World) : Prop :=
  ∃ d d1, later (w_db w) d ∧ (P d d1 ∧ O (SawStore d d1)) ∧ later d1 (w_db w').
Lemma between_env P w0 w w' w1 : env w0 w → between P w w' → env w' w1 → between P w0 w1.
Proof. intros H0 (d & d1 & H & HP & H') H1. exists d, d1. split; [by etransitivity|]. split; [done|by etransitivity]. Qed.

Lemma check_totp_shown a code w w' : run (check_totp E a code) w w' (Ok true) → between (totp_shown a code) w w'.
Proof.
  unfold check_totp. destruct (aa_totp_secret_enc a) as [sealed|] eqn:Es; [|by intros [_ ?]%run_ret]. destruct (open_totp _ _ _ _) as [secret|] eqn:Eo; [|by intros ?%run_fail].
  intros (w1 & now & [H1 Hnow]%run_clock & Hr)%run_bind. destruct (totp_verify _ _ _ _ _) as [step|] eqn:Ev; [|by apply run_ret in Hr as [_ ?]].
  apply run_query in Hr as (d & d1 & Hd & [Hop Ho] & Hd1). exists d, d1. split_and!; [by etransitivity| |done|done]. by exists sealed, secret, now, step.
Qed.
Lemma clone_not_ok a cred ip w w' v : ¬ run (clone_detected E a cred ip) w w' (Ok (Some v)).
Proof. intros (w1 & [] & _ & Hr)%run_bind. apply run_bind in Hr as (w2 & [] & _ & [_ ?]%run_ret). done. Qed.
Lemma check_assertion_shown a creds asr challenge ip w w' v : run (check_assertion E a creds asr challenge ip) w w' (Ok (Some v)) →
  between (key_shown a creds asr challenge) w w' ∧ vf_method v = WebAuthn.
Proof.
  unfold check_assertion. destruct (_ || _); [by intros [_ ?]%run_ret|]. destruct (List.find _ creds) as [cred|] eqn:Ef; [|by intros [_ ?]%run_ret].
  apply find_some in Ef as [Hin [Hid%is_eq Hc%is_eq]%andb_true_iff]. destruct (negb _ && _); [by intros [_ ?]%run_ret|].
  destruct (en_verify_assertion _ _ _ _ _ _) as [[n backup]|] eqn:Ev; [|by intros [_ ?]%run_ret]. destruct (counter_advances _ _) eqn:Ec; cbn [negb];
    [|by intros ?%clone_not_ok]. intros (w1 & now & [H1 Hnow]%run_clock & Hr)%run_bind. apply run_try in Hr as (w2 & adv & (d & d1 & Hd & [Hop Ho] & Hd1)%run_query & Hr).
  destruct adv; [|by apply clone_not_ok in Hr]. apply run_ret in Hr as [He [= <-]]. split; [|done].
  exists d, d1. split_and!; [by etransitivity| |done|by etransitivity]. exists cred, n, backup, now. split_and!; try done. by apply list_elem_of_In.
Qed.
(** A nonce the flow redeemed in the node's memory, at a time the clock showed it. *)
Definition redeemed_now (label : string) (nonce : list u8) (binding : list (list u8)) : Prop :=
  ∃ now m used', O (SawClock now) ∧ O (SawMem m (put_used used' m)) ∧
    redeem_nonce_within C K label nonce binding NONCE_TTL_SECS now (m_used_nonces m) = (used', true).
Lemma st_redeem_shown label nonce binding w w' : run (st_redeem E label nonce binding) w w' true → env w w' ∧ redeemed_now label nonce binding.
Proof.
  intros Hr. split; [eapply run_calls, Hr; apply (redeem_calls E)|]. apply run_bind in Hr as (w1 & now & [_ Hnow]%run_clock & w2 & _ & Hr).
  destruct (redeem_nonce_within _ _ _ _ _ _ _ _) as [u b] eqn:Eq in Hr. destruct Hr as (Ho & _ & ->). by exists now, (w_mem w2), u.
Qed.

(** ** Proofs of possession *)
(** The factor of a call made in a session: one of the session's account, used up during the
    call; an assertion is over the challenge of [nonce]. *)
Definition factor_shown (ctx : AdminContext) (f : ProofFactor) (nonce : list u8) (w w' : World) : Prop :=
  ∃ a d0, (later (w_db w) d0 ∧ O (SawStore d0 d0)) ∧ admin_account (cx_admin_id ctx) d0 = Some a ∧
  match f with
  | TotpCode code => between (totp_shown a code) w w'
  | Assertion asr => ∃ d1, (later (w_db w) d1 ∧ O (SawStore d1 d1)) ∧
      between (key_shown a (admin_webauthn_credentials (cx_admin_id ctx) d1) asr (webauthn_challenge E PStepUp nonce)) w w'
  end.
(** A proof carries such a factor, and with an assertion a nonce issued to this session. *)
Definition proof_shown (ctx : AdminContext) (proof : option MfaProof) (w w' : World) : Prop :=
  ∃ f nonce, proof = Some {| mp_f := Some f; mp_nonce := nonce |} ∧ factor_shown ctx f nonce w w' ∧
    (∀ asr, f = Assertion asr → redeemed_now STEP_UP_NONCE nonce [cx_session_hash ctx]).
Lemma factor_env ctx f n w0 w w' w1 : env w0 w → factor_shown ctx f n w w' → env w' w1 → factor_shown ctx f n w0 w1.
Proof.
  intros H0 (a & d0 & [Hd0 Ho0] & Ha & Hf) H1. exists a, d0. split_and!; [by etransitivity|done|done|]. destruct f as [code|asr].
  - by eapply between_env.
  - destruct Hf as (d1 & [Hd1 Ho1] & Hf). exists d1. split; [split; [by etransitivity|done]|]. by eapply between_env.
Qed.
Lemma factor_holdings_ok id w w' a creds : run (factor_holdings id) w w' (Ok (a, creds)) →
  ∃ d0 d1, (O (SawStore d0 d0) ∧ O (SawStore d1 d1)) ∧ later (w_db w) d0 ∧ later d0 d1 ∧ later d1 (w_db w') ∧ admin_account id d0 = Some a ∧ creds = admin_webauthn_credentials id d1.
Proof.
  unfold factor_holdings. intros (w1 & o & (d0 & [Hd0 Ho0] & -> & Hw1)%run_read & Hr)%run_try. destruct (admin_account id d0) as [b|] eqn:Ea; [|by apply run_fail in Hr].
  apply run_try in Hr as (w2 & cs & (d1 & [Hd1 Ho1] & -> & Hw2)%run_read & [He [= <- <-]]%run_ret). exists d0, d1.
  split_and!; [done|done|done|exact (transitivity Hw1 Hd1)|exact (transitivity Hw2 He)|done|done].
Qed.
Lemma verify_factor_shown ctx proof sn w w' v : run (verify_factor E ctx proof sn) w w' (Ok v) →
  ∃ f nonce, proof = Some {| mp_f := Some f; mp_nonce := nonce |} ∧ factor_shown ctx f (default nonce sn) w w' ∧
    (∀ asr, f = Assertion asr → sn = None → redeemed_now STEP_UP_NONCE nonce [cx_session_hash ctx]).
Proof.
  unfold verify_factor. destruct proof as [[[f|] nonce]|]; [|by intros ?%run_fail..].
  intros (w1 & [a creds] & (d0 & d1 & [Ho0 Ho1] & Hd0 & Hd1 & Hw1 & Ha & ->)%factor_holdings_ok & Hr)%run_try.
  apply run_try in Hr as (w2 & [ver|] & Hv & Hr); [|by apply run_then_fail in Hr]. apply run_ret in Hr as [He ->].
  assert (env w w1) as Hw by (unfold env; repeat (etransitivity; [eassumption|]); done). exists f, nonce. split; [done|]. destruct f as [code|asr].
  - destruct (fp_totp _); [|by apply run_ret in Hv as [_ ?]]. apply run_try in Hv as (w3 & ok & Hv & [He3 Eq]%run_ret). destruct ok; [|done].
    split; [|done]. exists a, d0. split_and!; [done|done|done|]. apply check_totp_shown in Hv. eapply between_env; [exact Hw|exact Hv|by etransitivity].
  - destruct (fp_webauthn _); [|by apply run_ret in Hv as [_ ?]]. apply run_bind in Hv as (w3 & n & Hn & Hv). destruct n as [n|]; [|by apply run_ret in Hv as [_ ?]].
    apply check_assertion_shown in Hv as [Hv _].
    assert (env w1 w3 ∧ n = default nonce sn ∧ (sn = None → redeemed_now STEP_UP_NONCE nonce [cx_session_hash ctx])) as (He3 & -> & Hred).
    { destruct sn as [sn|]; [by destruct Hn as [? [= ->]]|]. apply run_bind in Hn as (w4 & ok & Hok & [He4 Eq]). destruct ok; [|done]. injection Eq as ->.
      apply st_redeem_shown in Hok as [Hok Hred]. split_and!; [by etransitivity|done|done]. }
    split; [|by intros _ _]. exists a, d0. split_and!; [done|done|done|]. exists d1. split; [split; [exact (transitivity Hd0 Hd1)|done]|].
    eapply between_env; [exact (transitivity Hw He3)|exact Hv|done].
Qed.
Lemma verify_proof_shown ctx proof w w' : run (verify_proof E ctx proof) w w' (Ok tt) → proof_shown ctx proof w w'.
Proof.
  unfold verify_proof. intros (w1 & v & (f & n & -> & Hf & Hn)%verify_factor_shown & [He _]%run_ret)%run_try. exists f, n. split_and!; [done| |by intros asr ->; eapply Hn].
  by eapply factor_env, He.
Qed.

(** A flow that answers [Ok] only when [P] holds of its run. *)
Definition leads {A} (P : World → World → Prop) (p : prog (result Status A)) : Prop := ∀ w w' r, run p w w' (Ok r) → P w w'.
Section Leads.
Context (P : World → World → Prop) (HP : ∀ w0 w w' w1, env w0 w → P w w' → env w' w1 → P w0 w1).
Lemma leads_later {A B} (p : prog (result Status A)) (f : A → prog (result Status B)) : any_calls p → (∀ a, leads P (f a)) → leads P (try_bind p f).
Proof. intros Hc Hf w w' r (w1 & a & H1%(run_calls _ _ _ _ _ Hc) & Hr%Hf)%run_try. by eapply HP. Qed.
Lemma leads_bind {A B} (p : prog A) (f : A → prog (result Status B)) : any_calls p → (∀ a, leads P (f a)) → leads P (bind p f).
Proof. intros Hc Hf w w' r (w1 & a & H1%(run_calls _ _ _ _ _ Hc) & Hr%Hf)%run_bind. by eapply HP. Qed.
Lemma leads_give {A B} (x : result Status A) (f : A → prog (result Status B)) : (∀ a, x = Ok a → leads P (f a)) → leads P (try_bind (give x) f).
Proof. intros Hf w w' r (w1 & a & [H1 ->]%run_give & Hr%(Hf a eq_refl))%run_try. by eapply HP. Qed.
Lemma leads_here {A B} (p : prog (result Status A)) (f : A → prog (result Status B)) : leads P p → (∀ a, any_calls (f a)) → leads P (try_bind p f).
Proof. intros Hp Hc w w' r (w1 & a & H1%Hp & Hr%(run_calls _ _ _ _ _ (Hc a)))%run_try. by eapply HP. Qed.
Lemma leads_fail {A} (s : Status) : leads (A := A) P (fail s).
Proof. by intros w w' r ?%run_fail. Qed.
End Leads.
Lemma proof_env ctx proof w0 w w' w1 : env w0 w → proof_shown ctx proof w w' → env w' w1 → proof_shown ctx proof w0 w1.
Proof. intros H0 (f & n & -> & Hf & Hn) H1. exists f, n. split_and!; [done|by eapply factor_env|done]. Qed.
Lemma leads_proof {B} ctx proof (f : unit → prog (result Status B)) : (∀ a, any_calls (f a)) → leads (proof_shown ctx proof) (try_bind (verify_proof E ctx proof) f).
Proof. intros Hf. apply leads_here; [apply proof_env| |done]. intros w w' [] H. by apply verify_proof_shown. Qed.

Ltac lead :=
  repeat (cbv beta zeta; match goal with
  | |- leads _ (try_bind (verify_proof _ _ _) _) => apply leads_proof; intros []
  | |- leads _ (fail _) => apply leads_fail
  | |- leads _ (try_bind (give _) _) => apply leads_give; [apply proof_env|]; intros ? ?
  | |- leads _ (try_bind _ _) => apply leads_later; [apply proof_env| |intros ?]
  | |- leads _ (bind _ _) => apply leads_bind; [apply proof_env| |intros ?]
  | |- leads _ (match ?x with _ => _ end) => destruct x eqn:?
  end); unfold any_calls; flow; try exact I.
(** The calls that change accounts, credentials and factors. *)
Inductive sensitive : AdminContext → option MfaProof → ∀ A, prog (result Status A) → Prop :=
  | sv_create ctx req : sensitive ctx (cr_proof req) _ (create_admin_account E (Some ctx) req)
  | sv_update ctx req : sensitive ctx (ur_proof req) _ (update_admin_account E (Some ctx) req)
  | sv_set_state ctx id st proof : sensitive ctx proof _ (set_admin_account_state E (Some ctx) id st proof)
  | sv_reset ctx id pw mfa proof : sensitive ctx proof _ (reset_admin_credentials E (Some ctx) id pw mfa proof)
  | sv_add ctx req : sensitive ctx (ca_proof req) _ (complete_add_factor E (Some ctx) req)
  | sv_remove ctx req : sensitive ctx (rf_proof req) _ (remove_factor E (Some ctx) req)
  | sv_password ctx cur new proof : sensitive ctx proof _ (change_password E (Some ctx) cur new proof).
Lemma leads_require {A} ctx proof path (f : AdminContext → prog (result Status A)) : leads (proof_shown ctx proof) (f ctx) →
  leads (proof_shown ctx proof) (try_bind (give (require (Some ctx) path)) f).
Proof. intros Hf. apply leads_give; [apply proof_env|]. unfold require. intros a. repeat case_match; intros Eq; simplify_eq; done. Qed.
Lemma sensitive_proved ctx proof A p : sensitive ctx proof A p → leads (proof_shown ctx proof) p.
Proof.
  destruct 1; apply leads_require.
  - unfold admin_create_account, ok_or. lead.
  - unfold admin_update_account, groups_of, ok_or. lead.
  - unfold admin_set_account_state, groups_of, ok_or. lead.
  - lead.
  - unfold add_totp_factor, add_key_factor, check_attestation. lead.
  - lead.
  - lead.
Qed.

(** ** Login *)
(** No lock on a throttling key at [now], in a store the flow read. *)
Definition unlocked (w : World) (now : Z) (h : list u8) : Prop := ∃ d, (later (w_db w) d ∧ O (SawStore d d)) ∧ (admin_throttle h d ≫= λ r, locked_for r now) = None.
Lemma throttle_wait_loop_shown keys now wait w w' : run (throttle_wait_loop keys now wait) w w' (Ok None) →
  wait = None ∧ env w w' ∧ Forall (λ kh, unlocked w now kh.2) keys.
Proof.
  revert wait w. induction keys as [|[k h] keys IH]; intros wait w; cbn [throttle_wait_loop].
  { intros [He ->]%run_ret. split_and!; [done|done|constructor]. }
  intros (w1 & row & (d & [Hd Ho] & -> & Hw1)%run_read & Hr)%run_try. apply IH in Hr as (Hw & He & Hk).
  assert (env w w1) as H1 by exact (transitivity Hd Hw1). destruct (admin_throttle h d ≫= _) as [n|] eqn:El; [done|].
  split_and!; [done|by etransitivity|]. constructor; [by exists d|]. eapply Forall_impl; [exact Hk|]. intros kh (d' & [Hd' ?] & Hu). exists d'. split_and!; [by etransitivity|done|done].
Qed.
Lemma throttle_wait_shown keys w w' : run (throttle_wait keys) w w' (Ok None) → env w w' ∧ ∃ now, O (SawClock now) ∧ Forall (λ kh, unlocked w now kh.2) keys.
Proof.
  intros (w1 & now & [H1 Hnow]%run_clock & (_ & He & Hk)%throttle_wait_loop_shown)%run_bind. split; [by etransitivity|]. exists now. split; [done|].
  eapply Forall_impl; [exact Hk|]. intros kh (d' & [Hd' ?] & Hu). exists d'. split_and!; [by etransitivity|done|done].
Qed.
Lemma hashed_shown {A} (r : result PasswordError A) w w' v : run (hashed (Work r Done)) w w' (Ok v) → env w w' ∧ r = Ok v.
Proof.
  intros (w1 & x & (w0 & y & H0 & Hy & [H1 ->]) & [He Hv])%run_bind. split; [by repeat (etransitivity; [eassumption|])|].
  destruct Hy as [->| ->]; [|done]. by destruct r; simplify_eq/=.
Qed.
(** The second factor of a login, allowed by the policy for this client and account. *)
Definition second_shown (a : AdminAccountRow) (creds : list WebAuthnCredentialRow) (policy : FactorPolicy) (req : LoginRequest) (v : Verified) (w w' : World) : Prop :=
  match lr_second_factor req with
  | Some (SfAssertion asr) => fp_webauthn policy = true ∧ vf_method v = WebAuthn ∧
      between (key_shown a creds asr (webauthn_challenge E PLogin (lr_login_nonce req))) w w'
  | Some (SfTotp code) => v = verified_totp ∧ (is_empty code = true ∨ fp_totp policy = true) ∧ between (totp_shown a code) w w'
  | None => v = verified_totp ∧ between (totp_shown a "") w w'
  end.
Lemma second_env a creds policy req v w0 w w' w1 : env w0 w → second_shown a creds policy req v w w' → env w' w1 → second_shown a creds policy req v w0 w1.
Proof.
  intros H0 Hs H1. unfold second_shown in *. destruct (lr_second_factor req) as [[code|asr]|].
  - destruct Hs as (? & ? & Hs). split_and!; [done..|]. by eapply between_env.
  - destruct Hs as (? & ? & Hs). split_and!; [done..|]. by eapply between_env.
  - destruct Hs as (? & Hs). split; [done|]. by eapply between_env.
Qed.
Lemma login_second_shown a creds policy req peer w w' v : run (login_second E a creds policy req peer) w w' (Ok (inr v)) → second_shown a creds policy req v w w'.
Proof.
  unfold login_second, second_shown. assert (∀ code, run (let+ ok := check_totp E a code in ret (if ok : bool then inr verified_totp else inl "invalid_credentials")) w w'
    (Ok (inr v)) → v = verified_totp ∧ between (totp_shown a code) w w') as Ht.
  { intros code (w1 & ok & Hv & [He Eq]%run_ret)%run_try. destruct ok; [|done]. injection Eq as <-. split; [done|]. apply check_totp_shown in Hv. by eapply between_env. }
  destruct (lr_second_factor req) as [[code|asr]|].
  - destruct (negb (is_empty code) && negb (fp_totp policy)) eqn:Eg; [by intros [_ ?]%run_ret|]. intros [-> H]%Ht. split_and!; [done| |done].
    destruct (is_empty code); [by left|]. right. by destruct (fp_totp policy).
  - destruct (fp_webauthn policy); [|by intros [_ ?]%run_ret]. intros (w1 & o & Hv & [He Eq]%run_ret)%run_try. destruct o as [u|]; [|done]. injection Eq as <-.
    apply check_assertion_shown in Hv as [Hv Hm]. split_and!; [done|done|]. by eapply between_env.
  - cbn [is_empty negb andb]. intros [-> H]%Ht. done.
Qed.
Definition credentials_shown (a : AdminAccountRow) (creds : list WebAuthnCredentialRow) (groups : list string) (req : LoginRequest) (v : Verified) (w w' : World) : Prop :=
  aa_state a = ACCOUNT_ACTIVE ∧
  (∃ phc pv, aa_password_phc a = Some phc ∧ pv_ok pv = true ∧
    verify_sync (en_unicode E) (en_argon E) C (en_hasher E) (lr_password req) phc (aa_pepper_id a) = Ok pv) ∧
  second_shown a creds
    (factor_policy (en_config E) (client_info (lr_client req)).1 groups (not_null (aa_totp_secret_enc a)) (negb (no_creds creds))) req v w w'.
Lemma dummy_not_ok {A} password (r : string) w w' (x : A) : ¬ run (dummy E password (inl r)) w w' (Ok (inr x)).
Proof. intros (w1 & v & _ & [_ ?]%run_ret)%run_try. done. Qed.
Lemma login_verify_shown nonce_ok acct creds groups req peer w w' a v : run (login_verify E nonce_ok acct creds groups req peer) w w' (Ok (inr (a, v))) →
  nonce_ok = true ∧ acct = Some a ∧ credentials_shown a creds groups req v w w'.
Proof.
  unfold login_verify, credentials_shown. destruct nonce_ok; cbn [negb]; [|by intros ?%dummy_not_ok]. destruct acct as [b|]; [|by intros ?%dummy_not_ok].
  destruct (Z.eqb_spec (aa_state b) ACCOUNT_ACTIVE) as [Hact|]; cbn [andb]; [|by intros ?%dummy_not_ok]. destruct (not_null _ || _); [|by intros ?%dummy_not_ok].
  destruct (aa_password_phc b) as [phc|] eqn:Ep; [|by intros ?%dummy_not_ok]. intros (w1 & pv & [H1 Hpv]%hashed_shown & Hr)%run_try.
  destruct (pv_ok pv) eqn:Eok; cbn [negb] in Hr; [|by apply run_ret in Hr as [_ ?]]. apply run_try in Hr as (w2 & [reason|second] & Hs & Hr); [by apply run_ret in Hr as [_ ?]|].
  apply run_bind in Hr as (w3 & [] & H3 & [He [= <- <-]]%run_ret). apply (run_calls (λ _, True)) in H3; [|unfold rehash; flow].
  split_and!; [done|done|done|by exists phc, pv|]. apply login_second_shown in Hs.
  eapply second_env; [exact H1|exact Hs|by etransitivity].
Qed.
(** The session a login opens: the account's, under the hash of the token it answers, bound
    to the peer, with the assurance of the factor shown and within the configured lifetime. *)
Definition session_opened (a : AdminAccountRow) (v : Verified) (peer : PeerInfo) (token : list u8) (row : AdminSessionRow) (w w' : World) : Prop :=
  between (λ d d1, admin_insert_session row d = (d1, Ok tt)) w w' ∧
  (∃ raw, length raw = 32%nat ∧ token = TOKEN_PREFIX ++ ac_b64url C raw) ∧ ss_hash row = ac_sha256 C token ∧ ss_admin_id row = aa_admin_id a ∧
  ss_aal row = vf_aal v ∧ ss_source_ip row = canonical_ip (pi_ip peer) ∧ ss_client_cert row = pi_client_cert_sha256 peer ∧
  O (SawClock (ss_created_at row)) ∧ ss_mfa_at row = ss_created_at row ∧ ss_absolute_expires_at row = sat_i64 (ss_created_at row + cfg_absolute_lifetime_secs (en_config E)).
Lemma open_session_shown a peer client v restricted w w' token row : run (open_session E a peer client v restricted) w w' (Ok (token, row)) →
  session_opened a v peer token row w w' ∧ ss_restricted row = (if restricted then 1 else 0).
Proof.
  unfold open_session. intros (w1 & now & [H1 Hnow]%run_clock & Hr)%run_bind. apply run_try in Hr as (w2 & live & (d0 & [Hd0 _] & _ & Hw2)%run_read & Hr).
  apply run_bind in Hr as (w3 & [] & H3 & Hr). apply (run_calls (λ _, True)) in H3; [|flow]. apply run_bind in Hr as (w4 & raw & H4 & Hr).
  destruct H4 as (w5 & b & H5 & Hlen & [H6 ->]). cbn [new_session_token] in Hr. apply run_try in Hr as (w6 & [] & (d & d1 & Hd & [Hins Ho] & Hd1)%run_query & [He [= <- <-]]%run_ret).
  split; [|done]. split_and!; try done; [|by exists raw]. exists d, d1. split_and!; [chain|done|done|chain].
Qed.

(** The account a login names, as it read it from the store. *)
Definition login_account (req : LoginRequest) (w : World) (a : AdminAccountRow) : Prop :=
  ∃ u d, normalize_username E (lr_username req) = Some u ∧ (later (w_db w) d ∧ O (SawStore d d)) ∧ admin_account_by_username u d = Some a.
(** Either the device is known and its key is not locked, or neither the address nor the account
    is, at times the clock showed and in stores the flow read. *)
Definition not_throttled (req : LoginRequest) (peer : PeerInfo) (a : AdminAccountRow) (w : World) : Prop :=
  let ip := canonical_ip (pi_ip peer) in
  ∃ t now, (O (SawClock t) ∧ O (SawClock now)) ∧
  if negb (is_empty (lr_device_token req)) && device_token_valid C K t (as_bytes (lr_device_token req)) (aa_admin_id a)
  then unlocked w now (throttle_key C K IpDevice (as_bytes (String.append ip (String.append "|" (lr_device_token req)))))
  else unlocked w now (throttle_key C K Ip (as_bytes ip)) ∧ unlocked w now (throttle_key C K Account (as_bytes (username_throttle_key E (lr_username req)))).
Lemma unlocked_env w0 w now h : env w0 w → unlocked w now h → unlocked w0 now h.
Proof. intros H (d & [Hd ?] & Hu). exists d. split_and!; [by etransitivity|done|done]. Qed.
Lemma account_of_username_shown req w w' a : run (account_of_username E (lr_username req)) w w' (Ok (Some a)) → env w w' ∧ login_account req w a.
Proof.
  unfold account_of_username. destruct (normalize_username E (lr_username req)) as [u|] eqn:Eu; [|by intros [_ ?]%run_ret].
  intros (d & [Hd Ho] & Ha & Hw)%run_read. split; [exact (transitivity Hd Hw)|]. exists u, d. split_and!; [done|done|done|by symmetry].
Qed.
Lemma login_succeeded_shown device_ok dk ak key groups client a v peer w w' resp :
  run (login_succeeded E device_ok dk ak key groups client a v peer) w w' (Ok resp) →
  lo_admin_id resp = aa_admin_id a ∧ session_opened a v peer (lo_session_token resp) (lo_session resp) w w' ∧
  ss_restricted (lo_session resp) = (if lo_password_change_required resp then 1 else 0).
Proof.
  unfold login_succeeded. intros (w1 & [] & H1 & Hr)%run_bind. apply (run_calls (λ _, True)) in H1; [|flow].
  apply run_bind in Hr as (w2 & now & [H2 _]%run_clock & Hr). apply run_try in Hr as (w3 & [token row] & [Ho Hres]%open_session_shown & Hr).
  assert (env w3 w') as H3 by (eapply (run_calls (λ _, True)), Hr; unfold groups_of; flow).
  apply run_bind in Hr as (w4 & r4 & _ & Hr). apply run_try in Hr as (w5 & gs & _ & Hr). apply run_bind in Hr as (w6 & [] & _ & Hr).
  apply run_bind in Hr as (w7 & [] & _ & Hr). apply run_bind in Hr as (w8 & t & _ & Hr). apply run_bind in Hr as (w9 & r & _ & Hr).
  apply run_ret in Hr as [_ <-]. cbn [lo_admin_id lo_session_token lo_session lo_password_change_required]. split_and!; [done| |done].
  destruct Ho as [Hb Ho]. split; [|exact Ho]. eapply between_env; [|exact Hb|exact H3]. by etransitivity.
Qed.
(** What an answered login has shown. *)
Definition login_proves (req : LoginRequest) (peer : PeerInfo) (resp : LoginResponse) (w w' : World) : Prop :=
  ∃ a v d1 d2, login_account req w a ∧ lo_admin_id resp = aa_admin_id a ∧ not_throttled req peer a w ∧
    redeemed_now "login-v1" (lr_login_nonce req) [as_bytes (canonical_ip (pi_ip peer)); as_bytes (username_throttle_key E (lr_username req))] ∧
    (later (w_db w) d1 ∧ O (SawStore d1 d1)) ∧ (later d1 d2 ∧ O (SawStore d2 d2)) ∧
    credentials_shown a (admin_webauthn_credentials (aa_admin_id a) d1) (admin_groups_of (aa_admin_id a) d2) req v w w' ∧
    session_opened a v peer (lo_session_token resp) (lo_session resp) w w' ∧
    ss_restricted (lo_session resp) = (if lo_password_change_required resp then 1 else 0).
Lemma login_shown req peer w w' resp : run (login E req peer) w w' (Ok resp) → login_proves req peer resp w w'.
Proof.
  unfold login. destruct (_ || _); [by intros ?%run_fail|]. intros (w1 & acct & Ha & Hr)%run_try. apply run_bind in Hr as (w2 & t & [H2 Ht]%run_clock & Hr).
  apply run_try in Hr as (w3 & [wait|] & Hw & Hr); [by apply run_fail in Hr|]. apply throttle_wait_shown in Hw as (H3 & now & Hnow & Hun).
  apply run_bind in Hr as (w4 & ok & H4 & Hr). apply run_try in Hr as (w5 & creds & (d1 & [Hd1 Ho1] & -> & Hw5)%run_read & Hr).
  apply run_try in Hr as (w6 & gs & (d2 & [Hd2 Ho2] & -> & Hw6)%run_read & Hr). apply run_try in Hr as (w7 & [reason|[a v]] & Hv & Hr).
  { apply run_bind in Hr as (w8 & l & _ & Hr). apply run_bind in Hr as (w9 & [] & _ & Hr). apply run_bind in Hr as (w10 & [] & _ & Hr).
    by apply run_then_fail in Hr. }
  assert (env w6 w7) as H67 by (eapply run_calls, Hv; apply (login_verify_calls E)). apply login_verify_shown in Hv as (-> & -> & Hact & Hpw & Hs). cbn [from_option] in *. apply account_of_username_shown in Ha as [H1 Ha].
  apply st_redeem_shown in H4 as [H4 Hn].
  assert (env w7 w') as H7 by (eapply (run_calls (λ _, True)), Hr; unfold login_succeeded, groups_of; flow). apply login_succeeded_shown in Hr as (Hid & Ho & Hres). assert (env w w2) as H02 by chain. assert (env w w6) as H06 by chain.
  exists a, v, d1, d2. split_and!; [done|done| |done|chain|done|chain|done| | |done].
  - exists t, now. split; [done|]. destruct (_ && _); repeat (apply Forall_cons in Hun as [? Hun]); split_and?; by apply (unlocked_env w w2).
  - split_and!; [done|done|]. by eapply second_env.
  - destruct Ho as [Hb Ho]. split; [|exact Ho]. eapply between_env; [|exact Hb|done]. by etransitivity.
Qed.
End Login.

(** ** Theorems *)

(** C5: A login answers a session only to who has shown both factors.  Over every interleaving
    with other calls, with store calls lost or answered late: the account was active under
    the username given, its password was verified, a second factor the policy allows was
    used up in the store (a code past the last step, or an assertion over this login's
    challenge that advanced the key's counter), the nonce was redeemed for this address and
    username in the memory of the node, neither the address nor the account was locked (or a
    device of this account was shown whose own key was not), and the login inserted the new
    session of this account, bound to the peer, under the hash of the token answered.  The
    times are readings of the clock by this login, and the locks, the account, its factors and
    the counters are those of the stores it read and wrote: [O] is any property of all this
    login saw, so [O (SawClock now)] holds only of a clock it read. *)
Theorem login_sound E O req peer w w' resp : run O (login E req peer) w w' (Ok resp) → login_proves E O req peer resp w w'.
Proof. apply login_shown. Qed.

(** C13: A session alone changes nothing that matters.  The calls that create, change, disable or
    reset accounts, change a password, and add or remove a factor answer [Ok] only after a
    second factor of the session's own account was used up in the store during the call; an
    assertion is over a nonce issued to this session and redeemed by this call. *)
Theorem changes_need_fresh_factor E O ctx proof A (p : prog (result Status A)) w w' r :
  sensitive E ctx proof A p → run O p w w' (Ok r) → proof_shown E O ctx proof w w'.
Proof. intros Hs. by apply sensitive_proved. Qed.
