(* ===== verification/AdminThrottle.v ===== *)
(** Brute force against the administrator plane: what the stored counters admit. *)
From S2P Require Import Prelude AppModel AppDedup AppSchema Order AppPath AllowlistCompile AdminStore AdminStoreProofs AdminGuard AdminPolicy AdminPolicyProofs AdminKeys AdminPassword AdminState AdminRuns.
Open Scope Z_scope.

(** A failed attempt against one key, on its own: the counter that is stored, and the
    length of the lock. *)
Lemma throttle_failure_exec k h t rnd w :
  let row := admin_throttle h (w_db w) in
  let '(w', lock) := exec t rnd (throttle_failure [(k, h)]) w in
  admin_throttle h (w_db w') = Some (after_failure k h t row) ∧ lock = lock_secs k (th_failures (after_failure k h t row)).
Proof.
  cbv zeta. unfold throttle_failure, clock. cbn [bind exec throttle_failure_loop store admin_throttle_increment put_throttle w_db put_db].
  unfold after_failure, admin_throttle. set (r := incremented _ _ _ _ _). pose proof (lock_secs_bounds k (th_failures r)) as Hb.
  destruct (Z.ltb_spec 0 (lock_secs k (th_failures r))) as [Hl|Hl]; cbn [bind exec store admin_throttle_lock audit w_db put_db put_audit put_throttle ad_throttle th_failures locked_to].
  - rewrite lookup_alter_eq, lookup_insert_eq. cbn. split; [done|lia].
  - rewrite lookup_insert_eq. split; [done|lia].
Qed.

(** The two statements a failure makes on the replicated counter, an increment and a lock
    computed from what the increment answered, come to the transition of the in-memory
    policy: the same count, the same lock, the same reset after a quiet day. *)
Theorem throttle_reference k h t rnd w :
  0 ≤ t < 2 ^ 62 → (∀ r, admin_throttle h (w_db w) = Some r → throttle_ok k h t r) →
  admin_throttle h (w_db (exec t rnd (throttle_failure [(k, h)]) w).1) = Some (register_failure (admin_throttle h (w_db w)) h k t).
Proof.
  intros Ht Hrow. pose proof (throttle_failure_exec k h t rnd w) as H. cbv zeta in H. destruct (exec t rnd _ w) as [w' lock]. cbn [fst]. destruct H as [-> _].
  f_equal. by apply after_failure_registered.
Qed.

(** Attempts one after the other: each reads the lock, and fails when there is none. *)
Fixpoint attempts (k : KeyKind) (h : list u8) (rnd : nat → list u8) (ts : list Z) (w : World) : World * Z :=
  match ts with
  | [] => (w, 0)
  | t :: ts =>
      match exec t rnd (throttle_wait [(k, h)]) w with
      | (w1, Ok None) => let '(w2, n) := attempts k h rnd ts (exec t rnd (throttle_failure [(k, h)]) w1).1 in (w2, n + 1)
      | (w1, _) => attempts k h rnd ts w1
      end
  end.
Lemma throttle_wait_exec k h t rnd w :
  exec t rnd (throttle_wait [(k, h)]) w = (put_db (w_db w) w, Ok (admin_throttle h (w_db w) ≫= λ r, locked_for r t)).
Proof.
  unfold throttle_wait, clock. cbn [bind exec throttle_wait_loop]. unfold query, try_bind, store, read. cbn [bind exec map_err ret].
  by destruct (admin_throttle h (w_db w) ≫= _).
Qed.
Lemma attempts_admitted k h rnd ts w : ∃ us, sublist us ts ∧ (attempts k h rnd ts w).2 = Z.of_nat (length us) ∧
  admitted k h (admin_throttle h (w_db w)) us = true.
Proof.
  revert w. induction ts as [|t ts IH]; intros w; cbn [attempts]; [by exists []|]. rewrite throttle_wait_exec.
  destruct (admin_throttle h (w_db w) ≫= _) as [n|] eqn:El.
  - destruct (IH (put_db (w_db w) w)) as (us & Hs & Hn & Ha). exists us. split_and!; [by constructor|done|done].
  - pose proof (throttle_failure_exec k h t rnd (put_db (w_db w) w)) as H. cbv zeta in H.
    destruct (exec t rnd (throttle_failure _) _) as [w1 lock]. destruct H as [Hrow _]. cbn [fst]. destruct (IH w1) as (us & Hs & Hn & Ha).
    destruct (attempts k h rnd ts w1) as [w2 n]. cbn [snd] in *. exists (t :: us). split_and!; [by constructor|cbn [length]; lia|].
    cbn [admitted]. rewrite Hrow in Ha. apply andb_true_iff. split; [|exact Ha]. cbn in El. destruct (admin_throttle h (w_db w)) as [r|]; [|done]. cbn in El. by rewrite El.
Qed.

