(* ===== verification/AdminDemo.v ===== *)
(** A concrete administrator plane, on which the theorems about its flows are exercised: toy
    primitives, one node, two account administrators. *)
From S2P Require Import Prelude AppModel AppDedup AppSchema Order Composite AppPath AllowlistCompile AdminStore AdminPolicy AdminKeys AdminPassword AdminState AdminAuthz AdminFactorFlows AdminService AdminAccounts AdminRuns.
Open Scope Z_scope.

Module AdminDemo.
Definition pad (n : nat) (m : list u8) : list u8 := take n (m ++ replicate n Byte.x00).
Definition C0 : AdminCrypto := {|
  ac_hmac_sha256 := λ _ m, pad 32 (reverse m); ac_hmac_sha1 := λ _ _, replicate 20 Byte.x00; ac_sha256 := pad 32 ∘ reverse; ac_hex := bytes_string;
  ac_b64url := λ b, (λ _, Byte.x41) <$> seq 0 43; ac_b64url_decode := Some; ac_encrypt := λ _ _ _ m, Some (Byte.x00 :: m);
  ac_decrypt := λ _ _ _ c, Some (drop 1 c) |}.
Definition K0 : AdminKeys := {| ak_totp_key := []; ak_server_key := []; ak_pseudonym_key := []; ak_key_check := "" |}.
Definition U0 : Unicode := {|
  un_nfkc := id; un_lowercase := id; un_trim := id; is_control := λ _, false; is_uppercase := λ _, true; is_lowercase := λ _, true;
  is_numeric := λ _, true; is_alphanumeric := λ _, true; is_whitespace := λ _, false |}.
Definition params0 : PasswordParams := {| pp_m := 1; pp_t := 1; pp_p := 1 |}.
Definition A0 : Argon := {| ag_hash := λ _ _ _, Some "phc"; ag_params := λ _, Some params0; ag_verify := λ i _, bool_decide (i = as_bytes "secret") |}.
Definition cfg0 : AdminConfig := {|
  cfg_legacy_admin_on_main := false; cfg_strict_sod := true; cfg_step_up_window_secs := 300; cfg_session_bind_ip := true; cfg_idle_timeout_secs := 900;
  cfg_absolute_lifetime_secs := 28800; cfg_trust_domain := "example.org"; cfg_tray_fido2_groups := [] |}.
Definition E0 : AdminEnv := {|
  en_config := cfg0; en_crypto := C0; en_keys := K0; en_unicode := U0; en_argon := A0; en_hasher := {| hs_params := params0; hs_pepper := None |};
  en_dummy_phc := "phc"; en_blocklist := []; en_uuid_v7 := λ _, "new-account"; en_verify_assertion := λ _ _ _ _ _, None;
  en_verify_registration := λ _ _ _ _, None; en_client_data_challenge := λ _, None |}.

Definition now0 : Z := 1000.
Definition rnd0 (n : nat) : list u8 := replicate n Byte.x00.
Lemma rnd0_length n : length (rnd0 n) = n.
Proof. apply length_replicate. Qed.
Definition peer0 : PeerInfo := {| pi_ip := Some (V4 Byte.x0a Byte.x00 Byte.x00 Byte.x01); pi_client_cert_sha256 := None |}.
(** The code of every step, under the toy HMAC. *)
Definition code0 : string := "000000".
Definition sealed0 : list u8 := SEAL_VERSION :: replicate 24 Byte.x00 ++ Byte.x00 :: replicate 20 Byte.x07.
Definition alice : AdminAccountRow :=
  MkAccount "alice-id" "alice" None ACCOUNT_ACTIVE 0 None (Some "phc") None (Some 0) (Some 100000) (Some sealed0) None None None None 1.
Definition bob : AdminAccountRow := MkAccount "bob-id" "bob" None ACCOUNT_PENDING 0 (Some "alice-id") None None None None None None None None None 1.
Definition member0 : MemberRow := {| mb_granted_by := None; mb_granted_at := 0 |}.
Definition token0 : list u8 := TOKEN_PREFIX ++ replicate 43 Byte.x41.
Definition hash0 : list u8 := ac_sha256 C0 token0.
Definition session0 : AdminSessionRow :=
  MkSession hash0 "alice-id" 900 950 20000 900 2 900 1 (canonical_ip (pi_ip peer0)) None 1 None 0 None None 0.
(** Bob's enrollment token. *)
Definition bob_token : list u8 := replicate 32 Byte.x02.
Definition db0 : AdminDb :=
  MkAdminDb {["alice-id" := alice; "bob-id" := bob]} ∅ ∅ (ad_groups init_admin_schema) (ad_permissions init_admin_schema)
    {[("alice-id", ACCOUNT_ADMINS) := member0; ("bob-id", ACCOUNT_ADMINS) := member0]} ∅
    {[bob_token := MkToken bob_token (Some "bob-id") TOKEN_ENROLL (Some "alice-id") 0 100000 None None]} ∅ [] ∅.
Definition mem0 : Mem := {| m_used_nonces := ∅; m_begin_login := ∅; m_last_anomaly_at := 0; m_last_unclassified_audit := 0 |}.
Definition world0 : World := {| w_db := db0; w_mem := mem0; w_audit := [] |}.
(** Alice's session, and the same revoked. *)
Definition with_session (s : AdminSessionRow) : World := put_db (put_sessions {[hash0 := s]} db0) world0.
Definition context0 : AdminContext := {|
  cx_admin_id := "alice-id"; cx_session_ref := "ref"; cx_groups := [ACCOUNT_ADMINS]; cx_permissions := [AccountCreate; AccountDisable]; cx_aal := 2;
  cx_mfa_at := 900; cx_source_ip := pi_ip peer0; cx_client_kind := 1; cx_restricted := false; cx_factor_enrollment_required := false; cx_session_hash := hash0 |}.
Definition proof0 : option MfaProof := Some {| mp_f := Some (TotpCode code0); mp_nonce := [] |}.
Definition login0 : LoginRequest := {|
  lr_username := "alice"; lr_password := "secret"; lr_second_factor := Some (SfTotp code0); lr_device_token := "";
  lr_login_nonce := issue_nonce C0 K0 now0 (rnd0 16) "login-v1" [as_bytes (canonical_ip (pi_ip peer0)); as_bytes "alice"]; lr_client := None |}.
Definition create0 : CreateAdminAccountRequest :=
  {| cr_username := "carol"; cr_display_name := "Carol"; cr_groups := [VIEWERS]; cr_ttl_secs := 0; cr_proof := proof0 |}.
Definition layer0 : LayerConfig := {| lc_authz := Some E0; lc_listener := Admin; lc_tls := true; lc_legacy_admin_on_main := false |}.
Definition header0 : list u8 := as_bytes "Bearer " ++ token0.
Definition logout0 : Request := {| rq_path := adm "Logout"; rq_authorization := Some header0; rq_peer := peer0; rq_context := None |}.

(** A flow that answers [Ok] on its own. *)
Definition answers {A} (p : prog (result Status A)) (w : World) : bool := match (exec now0 rnd0 p w).2 with Ok _ => true | Err _ => false end.
Lemma answers_run {A} (p : prog (result Status A)) w : answers p w = true → ∃ w' r, run (at_time now0) p w w' (Ok r).
Proof.
  unfold answers. destruct (exec now0 rnd0 p w) as [w' [r|s]] eqn:Eq; [|done]. intros _. exists w', r. by eapply exec_run; [apply rnd0_length|].
Qed.
Lemma login0_answers : answers (login E0 login0 peer0) world0 = true.
Proof. vm_compute. reflexivity. Qed.
Lemma create0_answers : answers (create_admin_account E0 (Some context0) create0) world0 = true.
Proof. vm_compute. reflexivity. Qed.
Lemma logout0_admitted : answers (layer_admit layer0 logout0) (with_session session0) = true.
Proof. vm_compute. reflexivity. Qed.
End AdminDemo.
