(* ===== verification/AdminRace.v ===== *)
(** Flows among given calls of others, and a race that leaves no account administrator. *)
From S2P Require Import Prelude AppModel AppDedup AppSchema Order Composite AppPath AllowlistCompile AdminStore AdminStoreProofs AdminGuard AdminPolicy AdminKeys AdminPassword AdminState AdminAuthz AdminFactorFlows AdminService AdminAccounts AdminRuns AdminDemo.
Open Scope Z_scope.
Import AdminDemo.

(** The flow as in [exec], with the calls of others, one list of them before each of its own. *)
Fixpoint exec_among {A} (t : Z) (rnd : nat → list u8) (others : list (list AdminOp)) (p : prog A) (w : World) : World * A :=
  match p with
  | Done x => (w, x)
  | Store op k =>
      let '(d, r) := op (run_ops (default [] (head others)) (w_db w)) in exec_among t rnd (tail others) (k r) (put_db d w)
  | Local op k => let '(m, x) := op (w_mem w) in exec_among t rnd others (k x) (put_mem m w)
  | Clock k => exec_among t rnd others (k t) w
  | Random n k => exec_among t rnd others (k (rnd n)) w
  | Work r k => exec_among t rnd others (k r) w
  | Audit e k => exec_among t rnd others k (put_audit e w)
  end.
Lemma exec_among_run {A} t rnd others (p : prog A) w w' a : (∀ n, length (rnd n) = n) → exec_among t rnd others p w = (w', a) → run (at_time t) p w w' a.
Proof.
  intros Hrnd. revert others w. induction p as [x|X op k IH|X op k IH|k IH|n k IH|X r k IH|e k IH]; intros others w; cbn [exec_among run].
  - by intros [= <- <-].
  - set (d0 := run_ops _ (w_db w)). destruct (op d0) as [d r] eqn:Eo. intros Hr%IH. exists (put_db d0 w), d, r.
    split_and!; [by eexists|by constructor|exact I|done].
  - destruct (op (w_mem w)) as [m x] eqn:Eo. intros Hr%IH. exists w. rewrite Eo. done.
  - intros Hr%IH. by exists w, t.
  - intros Hr%IH. by exists w, (rnd n).
  - intros Hr%IH. exists w, r. split_and!; [done|by left|done].
  - intros Hr%IH. by exists w.
Qed.

(** Bob enrolls, and then disables Alice, asking for the guard. *)
Definition bob_enrolls : AdminOp := OpEnroll {|
  ec_token_hash := bob_token; ec_admin_id := "bob-id";
  ec_password := Some {| pu_password_phc := "phc"; pu_pepper_id := None; pu_changed_at := now0; pu_expires_at := 100000 |};
  ec_totp := Some (sealed0, 1); ec_webauthn := None; ec_now := now0 |}.
Definition bob_disables_alice : AdminOp := OpSetState "alice-id" ACCOUNT_DISABLED "bob-id" now0 None true.
(** Alice disables Bob, whose account was pending when she began; Bob acts between her own
    factor and her write, the fifth call. *)
Definition alice_disables_bob : prog (result Status Z) := set_admin_account_state E0 (Some context0) "bob-id" 3 proof0.
Definition raced : World * result Status Z := exec_among now0 rnd0 [[]; []; []; []; [bob_enrolls; bob_disables_alice]] alice_disables_bob world0.

Lemma raced_ok : match raced.2 with Ok _ => true | Err _ => false end = true.
Proof. vm_compute. reflexivity. Qed.
Lemma raced_disabled : forallb (λ kv, aa_state kv.2 =? ACCOUNT_DISABLED) (map_to_list (ad_accounts (w_db raced.1))) = true.
Proof. vm_compute. reflexivity. Qed.
Lemma disabled_no_admin d : forallb (λ kv, aa_state kv.2 =? ACCOUNT_DISABLED) (map_to_list (ad_accounts d)) = true → ¬ has_account_admin d.
Proof.
  rewrite forallb_forall. intros H [i Hi]. apply active_admin_true in Hi as (a & g & m & Ha & Hs & _). apply elem_of_map_to_list, list_elem_of_In in Ha.
  apply H, Z.eqb_eq in Ha. cbn in Ha. by rewrite Ha in Hs.
Qed.
Lemma alice_is_admin : active_account_admin "alice-id" db0 = true.
Proof. vm_compute. reflexivity. Qed.
Lemma bob_guarded : guarded [bob_enrolls; bob_disables_alice] db0 = true.
Proof. vm_compute. reflexivity. Qed.

