(* ===== verification/AdminWitnesses.v ===== *)
(** The theorems about administrators at concrete inputs. *)
From S2P Require Import Prelude AppModel AppDedup AppSchema Order Composite AppPath AllowlistCompile AdminStore AdminStoreProofs AdminFactors AdminGuard AdminPolicy AdminPolicyProofs AdminKeys AdminKeysProofs AdminPassword AdminState AdminAuthz AdminFactorFlows AdminService AdminAccounts AdminRuns AdminAuthzProofs AdminServiceProofs AdminSod AdminLogin AdminThrottle AdminDemo.
Open Scope Z_scope.
Import AdminDemo.

Module AdminWitnesses.

(** Login, account changes and the layer. *)
Lemma login_sound_witness : ∃ w' resp, run (at_time now0) (login E0 login0 peer0) world0 w' (Ok resp) ∧ login_proves E0 (at_time now0) login0 peer0 resp world0 w'.
Proof. destruct (answers_run _ _ login0_answers) as (w' & resp & H). exists w', resp. split; [exact H|]. exact (login_sound E0 (at_time now0) login0 peer0 world0 w' resp H). Defined.
Lemma changes_need_fresh_factor_witness : ∃ w', proof_shown E0 (at_time now0) context0 proof0 world0 w'.
Proof.
  destruct (answers_run _ _ create0_answers) as (w' & r & H). exists w'.
  exact (changes_need_fresh_factor E0 (at_time now0) context0 proof0 _ _ world0 w' r (sv_create E0 context0 create0) H).
Defined.
Lemma header0_token : bearer_token header0 = Some token0.
Proof. vm_compute. reflexivity. Qed.
Lemma admit_sound_witness : ∃ w' req' row d, run (at_time now0) (layer_admit layer0 logout0) (with_session session0) w' (Ok req') ∧
  later (w_db (with_session session0)) d ∧ admin_session hash0 d = Some row ∧ liveness row now0 = Live.
Proof.
  destruct (answers_run _ _ logout0_admitted) as (w' & req' & H).
  destruct (access_for (rq_path logout0)) as [[| | |rule]|] eqn:Ea; [discriminate Ea..| |discriminate Ea].
  destruct (admit_sound (at_time now0) layer0 logout0 _ w' req' rule Ea H) as (_ & _ & _ & E & ctx & header & now & row & d1 & d2 & d3 & HE & _ & Hh & Hd & _ & _ & Hs & _).
  destruct Hs as (_ & Hnow & (token & Ht & Hrow) & Hlive & _). injection HE as <-. injection Hh as <-.
  exists w', req', row, d1. split; [exact H|]. split; [exact Hd|]. cbn in Hnow. rewrite Hnow in Hlive. split; [|exact Hlive].
  rewrite header0_token in Ht. injection Ht as <-. exact Hrow.
Defined.
Definition revoked0 : AdminSessionRow := set_revoked 990 3 session0.
Lemma revocation_effective_witness : ¬ run (at_time now0) (layer_admit layer0 logout0) (with_session revoked0) (with_session revoked0) (Ok logout0).
Proof.
  destruct (access_for (rq_path logout0)) as [[| | |rule]|] eqn:Ea; [discriminate Ea..| |discriminate Ea].
  exact (revocation_effective (at_time now0) layer0 E0 logout0 _ _ _ rule header0 token0 revoked0 990 Ea eq_refl eq_refl header0_token (lookup_singleton_eq _ _) eq_refl).
Defined.
(** One call begins. *)
Definition system0 : System := {| sy_db := init_admin_schema; sy_mem := λ _, mem0; sy_audit := []; sy_threads := [] |}.
Abbreviation login_thread := {| th_prog := login E0 login0 peer0; th_node := 0%nat |}.
Abbreviation system1 := {| sy_db := sy_db system0; sy_mem := sy_mem system0; sy_audit := sy_audit system0; sy_threads := login_thread :: sy_threads system0 |}.
Lemma separation_of_duties_witness : sod_db (sy_db system1).
Proof.
  refine (proj2 (separation_of_duties E0 system0 system1 (rtc_once _ _ _) eq_refl) eq_refl init_sod).
  apply (sys_start _ system0 login_thread). apply fl_login.
Defined.

(** Factors and roles. *)
Lemma totp_single_use_witness : ∃ d1, admin_advance_totp_step "alice-id" 33 db0 = (d1, Ok true) ∧ admin_advance_totp_step "alice-id" 33 (run_ops [OpAddTotp "bob-id" [] 5] d1) = (run_ops [OpAddTotp "bob-id" [] 5] d1, Ok false).
Proof.
  eexists. split; [reflexivity|].
  apply (totp_single_use "alice-id" sealed0 None 33 db0); [reflexivity|reflexivity| |reflexivity || lia]. constructor; [reflexivity|constructor].
Defined.
Lemma account_admin_left_witness : has_account_admin (run_ops [OpSetState "alice-id" ACCOUNT_DISABLED "bob-id" now0 None true] db0).
Proof. apply account_admin_left; [exists "alice-id"; vm_compute; reflexivity|vm_compute; reflexivity]. Defined.
Lemma second_factors_bounded_witness : 1 ≤ factors "alice-id" (run_ops [OpRemoveTotp "alice-id"] db0).
Proof.
  apply (proj1 (second_factors_bounded [OpRemoveTotp "alice-id"] db0 "alice-id")); [constructor; [reflexivity|constructor]|]. vm_compute. discriminate.
Defined.

(** Nonces and tokens. *)
Abbreviation nonce0 := (issue_nonce C0 K0 now0 (rnd0 16) "login-v1" []).
Definition redemption0 : Redemption := {| rd_label := "login-v1"; rd_nonce := nonce0; rd_binding := []; rd_ttl := 120; rd_now := 1010 |}.
Definition redemption1 : Redemption := {| rd_label := "login-v1"; rd_nonce := nonce0; rd_binding := []; rd_ttl := 120; rd_now := 1119 |}.
Lemma nonce_single_use_witness : (redeem C0 K0 redemption1 (redeem_all C0 K0 [redemption0] (redeem C0 K0 redemption0 ∅).1)).2 = false.
Proof.
  apply (nonce_single_use C0 K0 redemption0 ∅ (redeem C0 K0 redemption0 ∅).1 [redemption0] redemption1);
    [vm_compute; reflexivity| |reflexivity|vm_compute; reflexivity]. constructor; [vm_compute; reflexivity|constructor].
Defined.
(** [n] nonces redeemed before. *)
Definition used_entry (n : nat) : list u8 * Z := (replicate n Byte.x01, 2000).
Definition used_entries (n : nat) : list (list u8 * Z) := used_entry <$> seq 17 n.
Definition used_full (n : nat) : gmap (list u8) Z := list_to_map (used_entries n).
Lemma used_entry_keys n : (used_entries n).*1 = (λ i, replicate i Byte.x01) <$> seq 17 n.
Proof. unfold used_entries. rewrite <- list_fmap_compose. done. Qed.
Lemma used_entries_nodup n : NoDup (used_entries n).*1.
Proof.
  rewrite used_entry_keys. apply NoDup_fmap_2; [|apply NoDup_seq]. intros a b E. apply (f_equal length) in E. by rewrite !length_replicate in E.
Qed.
Lemma used_full_size n : size (used_full n) = n.
Proof.
  unfold used_full. rewrite <- length_map_to_list. rewrite (Permutation_length (map_to_list_to_map _ (used_entries_nodup n))).
  unfold used_entries. by rewrite length_fmap, length_seq.
Qed.
Lemma used_full_later n : map_Forall (λ _ e, 1120 < e) (used_full n).
Proof.
  intros k e Hk. apply elem_of_list_to_map_2 in Hk. unfold used_entries in Hk. apply list_elem_of_fmap in Hk as (i & E & _). injection E as _ ->. lia.
Qed.
Lemma used_full_fresh n : used_full n !! nonce_random nonce0 = None.
Proof.
  apply not_elem_of_list_to_map_1. rewrite used_entry_keys. intros (i & E & Hi)%list_elem_of_fmap. apply (f_equal length) in E.
  rewrite length_replicate in E. apply elem_of_seq in Hi. vm_compute in E. lia.
Qed.
Lemma nonce_redeemed_twice_witness : let r := {| rd_label := "login-v1"; rd_nonce := nonce0; rd_binding := []; rd_ttl := 120; rd_now := 1120 |} in
  (redeem C0 K0 r (used_full (Z.to_nat 10000))).2 = true ∧ (redeem C0 K0 r (redeem C0 K0 r (used_full (Z.to_nat 10000))).1).2 = true.
Proof.
  apply (nonce_redeemed_twice C0 K0 "login-v1" nonce0 [] 120 1120 (used_full (Z.to_nat 10000)));
    [vm_compute; reflexivity|vm_compute; reflexivity|apply used_full_later|apply used_full_fresh|].
  rewrite used_full_size, Z2Nat.id by discriminate. split; [vm_compute; discriminate|vm_compute; reflexivity].
Defined.
Lemma mac_input_injective_witness : mac_input "login-v1" [[Byte.x01]] = mac_input "login-v1" [[Byte.x01]] → "login-v1" = "login-v1" ∧ [[Byte.x01]] = [[Byte.x01]].
Proof.
  intros H. apply (mac_input_injective "login-v1" "login-v1" [[Byte.x01]] [[Byte.x01]]); [left|left| | |exact H];
    (constructor; [vm_compute; reflexivity|constructor]).
Defined.
Lemma pad_length n m : length (pad n m) = n.
Proof. unfold pad. rewrite length_take, length_app, length_replicate. lia. Qed.
Lemma enrollment_token_round_trip_witness :
  let '(token, hash) := new_enrollment_token C0 ENROLLMENT_PREFIX (rnd0 32) in token_hash C0 id token = Some hash.
Proof.
  apply (enrollment_token_round_trip C0 id); [intros m; apply pad_length|intros; reflexivity|right; left|reflexivity].
Defined.

(** Throttling. *)
Definition key0 : list u8 := [Byte.x01].
Lemma throttle_reference_witness :
  admin_throttle key0 (w_db (exec now0 rnd0 (throttle_failure [(Account, key0)]) world0).1) = Some (register_failure (admin_throttle key0 (w_db world0)) key0 Account now0).
Proof. apply throttle_reference; [vm_compute; split; [discriminate|reflexivity]|]. intros r H. vm_compute in H. discriminate H. Defined.
End AdminWitnesses.
