(* ===== verification/Tpm.v ===== *)
(** TPM wire structures (ferro-attest/src/tpm.rs) and the attribute check of attestation keys
    (aik.rs).

    A reader is a function from the bytes that remain to a value and the bytes that remain
    after it.  The marshalled forms of the structures, with the fields the parsers skip, are
    the records [TpmsAttest], [TpmtPublic] and [TpmtSignature]; the parsers accept exactly
    their images. *)
From S2P Require Import Prelude.
Open Scope Z_scope.

(** ** Constants *)
Definition TPM_GENERATED_VALUE : Z := 0xFF544347.
Definition TPM_ST_ATTEST_QUOTE : Z := 0x8018.
Definition TPM_ALG_ECC : Z := 0x0023.
Definition TPM_ALG_ECDSA : Z := 0x0018.
Definition TPM_ALG_SHA256 : Z := 0x000B.
Definition TPM_ALG_SHA384 : Z := 0x000C.
Definition TPM_ECC_NIST_P256 : Z := 0x0003.
(** The literal 0x0010 of the source, TPM_ALG_NULL in its comments. *)
Definition TPM_ALG_NULL : Z := 0x0010.
Definition TPMA_FIXED_TPM : Z := Z.shiftl 1 1.
Definition TPMA_FIXED_PARENT : Z := Z.shiftl 1 4.
Definition TPMA_SENSITIVE_DATA_ORIGIN : Z := Z.shiftl 1 5.
Definition TPMA_USER_WITH_AUTH : Z := Z.shiftl 1 6.
Definition TPMA_RESTRICTED : Z := Z.shiftl 1 16.
Definition TPMA_DECRYPT : Z := Z.shiftl 1 17.
Definition TPMA_SIGN : Z := Z.shiftl 1 18.

Inductive ParseError :=
  | Truncated (ctx : string)
  | Unexpected (field : string) (got : Z)
  | TrailingBytes (n : nat)
  | BadLength (ctx : string) (declared remaining : nat).

(** ** Big-endian integers *)

(** [uN::to_be_bytes] and [uN::from_be_bytes] for [n] bytes. *)
Fixpoint be_bytes (n : nat) (z : Z) : list u8 :=
  match n with O => [] | S n' => be_bytes n' (z / 256) ++ [u8.of_Z z] end.
Definition be_value (b : list u8) : Z := foldl (λ acc x, 256 * acc + u8.to_Z x) 0 b.

(** ** The reader *)
Abbreviation reader A := (list u8 → result ParseError (A * list u8)).

Definition rd_take (n : nat) (ctx : string) : reader (list u8) := λ r,
  if (length r <? n)%nat then Err (Truncated ctx) else Ok (take n r, drop n r).
Definition rd_u8 (ctx : string) : reader Z := λ r,
  let? (b, r) := rd_take 1 ctx r in Ok (be_value b, r).
Definition rd_u16 (ctx : string) : reader Z := λ r,
  let? (b, r) := rd_take 2 ctx r in Ok (be_value b, r).
Definition rd_u32 (ctx : string) : reader Z := λ r,
  let? (b, r) := rd_take 4 ctx r in Ok (be_value b, r).
Definition rd_skip_u64 (ctx : string) : reader unit := λ r,
  let? (_, r) := rd_take 8 ctx r in Ok (tt, r).
Definition rd_tpm2b (ctx : string) : reader (list u8) := λ r,
  let? (len, r) := rd_u16 ctx r in
  if (length r <? Z.to_nat len)%nat then Err (BadLength ctx (Z.to_nat len) (length r))
  else rd_take (Z.to_nat len) ctx r.
Definition rd_finish (r : list u8) : result ParseError unit :=
  if negb (length r =? 0)%nat then Err (TrailingBytes (length r)) else Ok tt.

(** ** Quotes *)
Record PcrSelection := { ps_hash_alg : Z; ps_bitmap : list u8 }.
#[export] Instance PcrSelection_eq_dec : EqDecision PcrSelection.
Proof. solve_decision. Defined.
Record QuoteInfo := {
  qi_magic : Z; qi_attest_type : Z; qi_extra_data : list u8; qi_pcr_selection : list PcrSelection; qi_pcr_digest : list u8 }.
#[export] Instance QuoteInfo_eq_dec : EqDecision QuoteInfo.
Proof. solve_decision. Defined.

(** The inner loop over the bits of one byte; [u8::try_from] drops what does not fit. *)
Definition byte_indices (byte_idx : nat) (byte : u8) : list Z :=
  filter (λ idx, idx < 256)
    ((λ bit, 8 * Z.of_nat byte_idx + bit) <$>
     filter (λ bit, Z.land (u8.to_Z byte) (Z.shiftl 1 bit) ≠ 0) [0; 1; 2; 3; 4; 5; 6; 7]).
Definition selected_indices (s : PcrSelection) : list Z :=
  concat (imap byte_indices (ps_bitmap s)).

(** One turn of the loop over the selections. *)
Definition rd_selection : reader PcrSelection := λ r,
  let? (hash_alg, r) := rd_u16 "TPMS_PCR_SELECTION.hash" r in
  let? (size_of_select, r) := rd_u8 "TPMS_PCR_SELECTION.sizeofSelect" r in
  let? (bitmap, r) := rd_take (Z.to_nat size_of_select) "TPMS_PCR_SELECTION.pcrSelect" r in
  Ok ({| ps_hash_alg := hash_alg; ps_bitmap := bitmap |}, r).
(** [for _ in 0..count]; each turn reads at least three bytes or fails, so that the length of
    the input bounds the turns ([rd_selections_fuel]). *)
Fixpoint rd_selections (fuel : nat) (count : Z) : reader (list PcrSelection) := λ r,
  if count <=? 0 then Ok ([], r) else
  let? (s, r) := rd_selection r in
  match fuel with
  | O => Err (Truncated "fuel")
  | S fuel => let? (rest, r) := rd_selections fuel (count - 1) r in Ok (s :: rest, r)
  end.

(** The fields before the selections: magic, type, extraData, count. *)
Definition rd_quote_head : reader (Z * Z * list u8 * Z) := λ r,
  let? (magic, r) := rd_u32 "TPMS_ATTEST.magic" r in
  let? (attest_type, r) := rd_u16 "TPMS_ATTEST.type" r in
  let? (_, r) := rd_tpm2b "TPMS_ATTEST.qualifiedSigner" r in
  let? (extra_data, r) := rd_tpm2b "TPMS_ATTEST.extraData" r in
  let? (_, r) := rd_skip_u64 "TPMS_CLOCK_INFO.clock" r in
  let? (_, r) := rd_u32 "TPMS_CLOCK_INFO.resetCount" r in
  let? (_, r) := rd_u32 "TPMS_CLOCK_INFO.restartCount" r in
  let? (_, r) := rd_u8 "TPMS_CLOCK_INFO.safe" r in
  let? (_, r) := rd_skip_u64 "TPMS_ATTEST.firmwareVersion" r in
  let? (count, r) := rd_u32 "TPML_PCR_SELECTION.count" r in
  Ok (magic, attest_type, extra_data, count, r).
(** The argument of [Vec::with_capacity] in [QuoteInfo::parse], when it is reached. *)
Definition quote_capacity (buf : list u8) : option Z :=
  match rd_quote_head buf with Ok (_, _, _, count, _) => Some count | Err _ => None end.

Definition quote_parse (buf : list u8) : result ParseError QuoteInfo :=
  let? (magic, attest_type, extra_data, count, r) := rd_quote_head buf in
  let? (pcr_selection, r) := rd_selections (length r) count r in
  let? (pcr_digest, r) := rd_tpm2b "TPMS_QUOTE_INFO.pcrDigest" r in
  let? _ := rd_finish r in
  Ok {| qi_magic := magic; qi_attest_type := attest_type; qi_extra_data := extra_data;
        qi_pcr_selection := pcr_selection; qi_pcr_digest := pcr_digest |}.

(** ** Public areas *)
Record EccPublic := {
  ep_attributes : Z; ep_curve_id : Z; ep_scheme : Z; ep_scheme_hash : Z; ep_x : list u8; ep_y : list u8 }.
#[export] Instance EccPublic_eq_dec : EqDecision EccPublic.
Proof. solve_decision. Defined.

Definition ecc_parse (buf : list u8) : result ParseError EccPublic :=
  let? (obj_type, r) := rd_u16 "TPMT_PUBLIC.type" buf in
  if negb (obj_type =? TPM_ALG_ECC) then Err (Unexpected "TPMT_PUBLIC.type" obj_type) else
  let? (_, r) := rd_u16 "TPMT_PUBLIC.nameAlg" r in
  let? (attributes, r) := rd_u32 "TPMT_PUBLIC.objectAttributes" r in
  let? (_, r) := rd_tpm2b "TPMT_PUBLIC.authPolicy" r in
  let? (sym_alg, r) := rd_u16 "TPMT_SYM_DEF_OBJECT.algorithm" r in
  if negb (sym_alg =? TPM_ALG_NULL) then Err (Unexpected "TPMT_SYM_DEF_OBJECT.algorithm" sym_alg) else
  let? (scheme, r) := rd_u16 "TPMT_ECC_SCHEME.scheme" r in
  let? (scheme_hash, r) :=
    (if scheme =? TPM_ALG_NULL then Ok (0, r) else rd_u16 "TPMT_ECC_SCHEME.details.hashAlg" r) in
  let? (curve_id, r) := rd_u16 "TPMS_ECC_PARMS.curveID" r in
  let? (kdf, r) := rd_u16 "TPMT_KDF_SCHEME.scheme" r in
  if negb (kdf =? TPM_ALG_NULL) then Err (Unexpected "TPMT_KDF_SCHEME.scheme" kdf) else
  let? (x, r) := rd_tpm2b "TPMS_ECC_POINT.x" r in
  let? (y, r) := rd_tpm2b "TPMS_ECC_POINT.y" r in
  let? _ := rd_finish r in
  Ok {| ep_attributes := attributes; ep_curve_id := curve_id; ep_scheme := scheme; ep_scheme_hash := scheme_hash;
        ep_x := x; ep_y := y |}.

(** ** Signatures *)
Record EcdsaSignature := { es_hash_alg : Z; es_r : list u8; es_s : list u8 }.
#[export] Instance EcdsaSignature_eq_dec : EqDecision EcdsaSignature.
Proof. solve_decision. Defined.
Definition ecdsa_parse (buf : list u8) : result ParseError EcdsaSignature :=
  let? (sig_alg, r) := rd_u16 "TPMT_SIGNATURE.sigAlg" buf in
  if negb (sig_alg =? TPM_ALG_ECDSA) then Err (Unexpected "TPMT_SIGNATURE.sigAlg" sig_alg) else
  let? (hash_alg, r) := rd_u16 "TPMS_SIGNATURE_ECC.hash" r in
  let? (r_val, r) := rd_tpm2b "TPMS_SIGNATURE_ECC.signatureR" r in
  let? (s_val, r) := rd_tpm2b "TPMS_SIGNATURE_ECC.signatureS" r in
  let? _ := rd_finish r in
  Ok {| es_hash_alg := hash_alg; es_r := r_val; es_s := s_val |}.

(** ** Attestation keys (aik.rs) *)
Inductive AikRejection :=
  | MissingAttribute (name : string) | ForbiddenAttribute (name : string) | WrongCurve | WrongScheme.

Definition REQUIRED_ATTRIBUTES : list (Z * string) :=
  [(TPMA_FIXED_TPM, "fixedTPM"); (TPMA_FIXED_PARENT, "fixedParent");
   (TPMA_SENSITIVE_DATA_ORIGIN, "sensitiveDataOrigin"); (TPMA_RESTRICTED, "restricted"); (TPMA_SIGN, "sign")].
Fixpoint check_required (attrs : Z) (l : list (Z * string)) : result AikRejection unit :=
  match l with
  | [] => Ok tt
  | (bit, name) :: l => if Z.land attrs bit =? 0 then Err (MissingAttribute name) else check_required attrs l
  end.
Definition check_aik (a : EccPublic) : result AikRejection unit :=
  let? _ := check_required (ep_attributes a) REQUIRED_ATTRIBUTES in
  if negb (Z.land (ep_attributes a) TPMA_DECRYPT =? 0) then Err (ForbiddenAttribute "decrypt") else
  if negb (ep_curve_id a =? TPM_ECC_NIST_P256) then Err WrongCurve else
  if negb (ep_scheme a =? TPM_ALG_ECDSA) then Err WrongScheme else
  Ok tt.

(** ** The marshalled structures *)

(** TPMS_ATTEST with a TPMS_QUOTE_INFO, every field of it. *)
Record TpmsAttest := {
  at_quote : QuoteInfo; at_qualified_signer : list u8; at_clock_info : list u8; at_firmware_version : list u8 }.
Definition u16_ok (z : Z) : Prop := 0 ≤ z < 2 ^ 16.
Definition u32_ok (z : Z) : Prop := 0 ≤ z < 2 ^ 32.
Definition tpm2b_ok (b : list u8) : Prop := Z.of_nat (length b) < 2 ^ 16.
Definition tpm2b (b : list u8) : list u8 := be_bytes 2 (Z.of_nat (length b)) ++ b.
Definition marshal_selection (s : PcrSelection) : list u8 :=
  be_bytes 2 (ps_hash_alg s) ++ be_bytes 1 (Z.of_nat (length (ps_bitmap s))) ++ ps_bitmap s.
Definition selection_ok (s : PcrSelection) : Prop :=
  u16_ok (ps_hash_alg s) ∧ Z.of_nat (length (ps_bitmap s)) < 256.
Definition attest_ok (a : TpmsAttest) : Prop :=
  u32_ok (qi_magic (at_quote a)) ∧ u16_ok (qi_attest_type (at_quote a)) ∧ tpm2b_ok (at_qualified_signer a) ∧
  tpm2b_ok (qi_extra_data (at_quote a)) ∧ length (at_clock_info a) = 17%nat ∧ length (at_firmware_version a) = 8%nat ∧
  Forall selection_ok (qi_pcr_selection (at_quote a)) ∧ u32_ok (Z.of_nat (length (qi_pcr_selection (at_quote a)))) ∧
  tpm2b_ok (qi_pcr_digest (at_quote a)).
Definition marshal_attest (a : TpmsAttest) : list u8 :=
  let q := at_quote a in
  be_bytes 4 (qi_magic q) ++ be_bytes 2 (qi_attest_type q) ++ tpm2b (at_qualified_signer a) ++ tpm2b (qi_extra_data q) ++
  at_clock_info a ++ at_firmware_version a ++ be_bytes 4 (Z.of_nat (length (qi_pcr_selection q))) ++
  concat (marshal_selection <$> qi_pcr_selection q) ++ tpm2b (qi_pcr_digest q).

(** TPMT_PUBLIC of an ECC key without symmetric and KDF schemes. *)
Record TpmtPublic := { tp_ecc : EccPublic; tp_name_alg : Z; tp_auth_policy : list u8 }.
Definition public_ok (p : TpmtPublic) : Prop :=
  u32_ok (ep_attributes (tp_ecc p)) ∧ u16_ok (ep_curve_id (tp_ecc p)) ∧ u16_ok (ep_scheme (tp_ecc p)) ∧
  u16_ok (ep_scheme_hash (tp_ecc p)) ∧ (ep_scheme (tp_ecc p) = TPM_ALG_NULL → ep_scheme_hash (tp_ecc p) = 0) ∧
  tpm2b_ok (ep_x (tp_ecc p)) ∧ tpm2b_ok (ep_y (tp_ecc p)) ∧ u16_ok (tp_name_alg p) ∧ tpm2b_ok (tp_auth_policy p).
Definition marshal_public (p : TpmtPublic) : list u8 :=
  let e := tp_ecc p in
  be_bytes 2 TPM_ALG_ECC ++ be_bytes 2 (tp_name_alg p) ++ be_bytes 4 (ep_attributes e) ++ tpm2b (tp_auth_policy p) ++
  be_bytes 2 TPM_ALG_NULL ++ be_bytes 2 (ep_scheme e) ++
  (if ep_scheme e =? TPM_ALG_NULL then [] else be_bytes 2 (ep_scheme_hash e)) ++
  be_bytes 2 (ep_curve_id e) ++ be_bytes 2 TPM_ALG_NULL ++ tpm2b (ep_x e) ++ tpm2b (ep_y e).

(** TPMT_SIGNATURE of the ECDSA scheme. *)
Definition signature_ok (s : EcdsaSignature) : Prop := u16_ok (es_hash_alg s) ∧ tpm2b_ok (es_r s) ∧ tpm2b_ok (es_s s).
Definition marshal_signature (s : EcdsaSignature) : list u8 :=
  be_bytes 2 TPM_ALG_ECDSA ++ be_bytes 2 (es_hash_alg s) ++ tpm2b (es_r s) ++ tpm2b (es_s s).

(** ** Big-endian integers, inverse *)
Lemma be_bytes_length n z : length (be_bytes n z) = n.
Proof. revert z. induction n as [|n IH]; intros z; cbn [be_bytes]; [done|]. rewrite length_app, IH. cbn. lia. Qed.

Lemma be_value_snoc b x : be_value (b ++ [x]) = 256 * be_value b + u8.to_Z x.
Proof. unfold be_value. by rewrite foldl_app. Qed.

Lemma be_value_bytes n z : 0 ≤ z < 256 ^ Z.of_nat n → be_value (be_bytes n z) = z.
Proof.
  revert z. induction n as [|n IH]; intros z Hz; cbn [be_bytes].
  - change (256 ^ Z.of_nat 0) with 1 in Hz. cbn. lia.
  - rewrite be_value_snoc, u8_of_Z_to_Z, IH.
    + pose proof (Z.div_mod z 256). lia.
    + rewrite Nat2Z.inj_succ, Z.pow_succ_r in Hz by lia. split; [apply Z.div_pos; lia|].
      apply Z.div_lt_upper_bound; lia.
Qed.

Lemma be_value_range b : 0 ≤ be_value b < 256 ^ Z.of_nat (length b).
Proof.
  induction b as [|x b IH] using rev_ind; [cbn; lia|].
  rewrite be_value_snoc, length_app, Nat2Z.inj_add. cbn [length].
  rewrite Z.pow_add_r by lia. change (256 ^ Z.of_nat 1) with 256.
  pose proof (u8.to_Z_range x). nia.
Qed.

Lemma be_bytes_value n b : length b = n → be_bytes n (be_value b) = b.
Proof.
  intros <-. induction b as [|x b IH] using rev_ind; [done|].
  rewrite length_app, Nat.add_1_r. cbn [be_bytes]. rewrite be_value_snoc.
  pose proof (u8.to_Z_range x). f_equal.
  - rewrite Z.mul_comm, Z.div_add_l, Z.div_small, Z.add_0_r by lia. done.
  - f_equal. rewrite <- (u8.of_Z_to_Z x) at 2. unfold u8.of_Z. do 3 f_equal.
    rewrite Z.add_comm, Z.mul_comm, Z_mod_plus_full. done.
Qed.

(** ** What each reader accepts *)
Lemma rd_take_ok n ctx r v r' : rd_take n ctx r = Ok (v, r') ↔ length v = n ∧ r = v ++ r'.
Proof.
  unfold rd_take. split.
  - destruct (length r <? n)%nat eqn:E; [done|]. apply Nat.ltb_ge in E. intros [= <- <-].
    rewrite length_take, take_drop. split; [lia|done].
  - intros [<- ->]. rewrite length_app. destruct (_ <? _)%nat eqn:E; [apply Nat.ltb_lt in E; lia|].
    by rewrite take_app_length, drop_app_length.
Qed.

(** A number read from [n] bytes. *)
Lemma rd_number_ok n ctx r v r' :
  (let? (b, r) := rd_take n ctx r in Ok (be_value b, r)) = Ok (v, r') ↔
  0 ≤ v < 256 ^ Z.of_nat n ∧ r = be_bytes n v ++ r'.
Proof.
  split.
  - destruct (rd_take n ctx r) as [[b q]|] eqn:E; [|done]. apply rd_take_ok in E as [<- ->].
    intros [= <- <-]. split; [apply be_value_range|]. by rewrite be_bytes_value.
  - intros [Hv ->]. rewrite (proj2 (rd_take_ok n ctx _ (be_bytes n v) r')); [|by rewrite be_bytes_length].
    by rewrite be_value_bytes.
Qed.

Lemma rd_u8_ok ctx r v r' : rd_u8 ctx r = Ok (v, r') ↔ 0 ≤ v < 256 ∧ r = be_bytes 1 v ++ r'.
Proof. apply rd_number_ok. Qed.
Lemma rd_u16_ok ctx r v r' : rd_u16 ctx r = Ok (v, r') ↔ u16_ok v ∧ r = be_bytes 2 v ++ r'.
Proof. apply rd_number_ok. Qed.
Lemma rd_u32_ok ctx r v r' : rd_u32 ctx r = Ok (v, r') ↔ u32_ok v ∧ r = be_bytes 4 v ++ r'.
Proof. apply rd_number_ok. Qed.
Lemma rd_skip_u64_ok ctx r r' : rd_skip_u64 ctx r = Ok (tt, r') ↔ ∃ b, length b = 8%nat ∧ r = b ++ r'.
Proof.
  unfold rd_skip_u64. split.
  - destruct (rd_take 8 ctx r) as [[b q]|] eqn:E; [|done]. apply rd_take_ok in E. intros [= <-]. eauto.
  - intros (b & Hb & ->). by rewrite (proj2 (rd_take_ok 8 ctx _ b r')).
Qed.
Lemma rd_tpm2b_ok ctx r v r' : rd_tpm2b ctx r = Ok (v, r') ↔ tpm2b_ok v ∧ r = tpm2b v ++ r'.
Proof.
  unfold rd_tpm2b, tpm2b_ok, tpm2b. split.
  - destruct (rd_u16 ctx r) as [[len q]|] eqn:E; [|done]. apply rd_u16_ok in E as [Hl ->]. unfold u16_ok in Hl.
    destruct (_ <? _)%nat; [done|]. intros [Hv ->]%rd_take_ok. rewrite Hv, Z2Nat.id by lia.
    split; [lia|]. by rewrite <- app_assoc.
  - intros [Hv ->]. rewrite <- app_assoc.
    rewrite (proj2 (rd_u16_ok ctx _ (Z.of_nat (length v)) (v ++ r'))) by (unfold u16_ok; split; [lia|done]).
    rewrite Nat2Z.id, length_app. destruct (_ <? _)%nat eqn:E; [apply Nat.ltb_lt in E; lia|].
    by rewrite (proj2 (rd_take_ok _ ctx _ v r')).
Qed.
Lemma rd_finish_ok r u : rd_finish r = Ok u ↔ r = [].
Proof. destruct u. unfold rd_finish. destruct r; cbn; split; done. Qed.

(** Forwards: take the next reader of a successful parse apart.  Backwards: run the next
    reader on the bytes of its field. *)
Ltac read_step H :=
  match type of H with
  | match ?e with Ok _ => _ | Err _ => _ end = Ok _ =>
      let E := fresh "E" in
      destruct e as [?|?] eqn:E in H; [|discriminate H];
      repeat match goal with p : (_ * _)%type |- _ => destruct p | u : unit |- _ => destruct u end;
      first [ apply rd_u32_ok in E | apply rd_u16_ok in E | apply rd_u8_ok in E | apply rd_tpm2b_ok in E
            | apply rd_skip_u64_ok in E | apply rd_take_ok in E | apply rd_finish_ok in E | idtac ];
      repeat match type of E with
      | _ ∧ _ => let E1 := fresh "Hok" in destruct E as [E1 E]
      | ∃ _, _ => destruct E as [? E]
      end
  | (if negb (?a =? ?b) then _ else _) = Ok _ =>
      let E := fresh "Eq" in destruct (Z.eqb_spec a b) as [E|E]; cbn [negb] in H; [|discriminate H]
  end.
Ltac field_step :=
  first
  [ rewrite (proj2 (rd_u32_ok _ _ _ _)) by (split; cycle 1; [reflexivity|eassumption])
  | rewrite (proj2 (rd_u16_ok _ _ _ _)) by (split; cycle 1; [reflexivity|eassumption])
  | rewrite (proj2 (rd_u8_ok _ _ _ _)) by (split; cycle 1; [reflexivity|eassumption])
  | rewrite (proj2 (rd_tpm2b_ok _ _ _ _)) by (split; cycle 1; [reflexivity|eassumption]) ].

Lemma rd_selection_ok r s r' : rd_selection r = Ok (s, r') ↔ selection_ok s ∧ r = marshal_selection s ++ r'.
Proof.
  unfold rd_selection, selection_ok, marshal_selection. split.
  - intros H. repeat read_step H. injection H as <- <-. cbn [ps_hash_alg ps_bitmap]. subst.
    split; [split; [done|lia]|]. rewrite <- !app_assoc. do 2 f_equal. f_equal. lia.
  - destruct s as [h b]. cbn [ps_hash_alg ps_bitmap]. intros [[Hh Hb] ->]. rewrite <- !app_assoc.
    field_step. assert (0 ≤ Z.of_nat (length b) < 256) by lia. field_step. rewrite Nat2Z.id.
    by rewrite (proj2 (rd_take_ok _ _ _ b r')).
Qed.

Lemma marshal_selection_length s : (3 ≤ length (marshal_selection s))%nat.
Proof. unfold marshal_selection. rewrite !length_app, !be_bytes_length. lia. Qed.

(** With fuel at least the length of the input, the loop accepts exactly [count] selections. *)
Lemma rd_selections_ok fuel count r l r' :
  (length r ≤ fuel)%nat →
  rd_selections fuel count r = Ok (l, r') ↔
  Forall selection_ok l ∧ Z.of_nat (length l) = Z.max 0 count ∧ r = concat (marshal_selection <$> l) ++ r'.
Proof.
  revert count r l r'. induction fuel as [|fuel IH]; intros count r l r' Hf; cbn [rd_selections];
    destruct (Z.leb_spec count 0) as [Hc|Hc].
  1, 3: rewrite Z.max_l by lia; split;
    [intros [= <- <-]; split; [constructor|done]|intros (_ & Hl & ->); destruct l; [done|cbn in Hl; lia]].
  - split.
    + intros H. repeat read_step H. discriminate H.
    + intros (_ & Hl & ->). rewrite length_app in Hf. destruct l as [|s l]; [cbn in Hl; lia|].
      cbn in Hf. pose proof (marshal_selection_length s). rewrite length_app in Hf. lia.
  - rewrite Z.max_r by lia. split.
    + intros H. read_step H. apply rd_selection_ok in E as [Hs ->]. rewrite length_app in Hf.
      pose proof (marshal_selection_length p). read_step H. apply IH in E as (Hl & Hn & ->); [|lia].
      injection H as <- <-. split; [by constructor|]. cbn [length fmap list_fmap concat]. split; [lia|].
      by rewrite <- app_assoc.
    + intros (Hok & Hl & ->). destruct l as [|s l]; [cbn in Hl; lia|]. apply Forall_cons in Hok as [Hs Hok].
      cbn [fmap list_fmap concat] in *. rewrite <- app_assoc in *.
      rewrite (proj2 (rd_selection_ok _ s (concat (marshal_selection <$> l) ++ r'))) by done.
      rewrite length_app in Hf. pose proof (marshal_selection_length s).
      assert (Hf' : (length (concat (marshal_selection <$> l) ++ r') ≤ fuel)%nat) by lia.
      rewrite (proj2 (IH (count - 1) _ l r' Hf')); [done|]. cbn [length] in Hl. split; [done|]. split; [lia|done].
Qed.

Lemma be_bytes_of n b : length b = n → ∃ v, 0 ≤ v < 256 ^ Z.of_nat n ∧ b = be_bytes n v.
Proof. intros <-. exists (be_value b). split; [apply be_value_range|]. by rewrite be_bytes_value. Qed.

Lemma clock_info_words b :
  length b = 17%nat → ∃ c v1 v2 v3, length c = 8%nat ∧ u32_ok v1 ∧ u32_ok v2 ∧ 0 ≤ v3 < 256 ∧
    b = c ++ be_bytes 4 v1 ++ be_bytes 4 v2 ++ be_bytes 1 v3.
Proof.
  intros Hb. destruct (be_bytes_of 4 (take 4 (drop 8 b))) as (v1 & H1 & E1); [rewrite length_take, length_drop; lia|].
  destruct (be_bytes_of 4 (take 4 (drop 12 b))) as (v2 & H2 & E2); [rewrite length_take, length_drop; lia|].
  destruct (be_bytes_of 1 (drop 16 b)) as (v3 & H3 & E3); [rewrite length_drop; lia|].
  exists (take 8 b), v1, v2, v3. rewrite length_take. do 4 (split; [lia || done|]).
  rewrite <- E1, <- E2, <- E3. rewrite <- (take_drop 8 b) at 1. f_equal.
  rewrite <- (take_drop 4 (drop 8 b)) at 1. f_equal. rewrite drop_drop.
  rewrite <- (take_drop 4 (drop (8 + 4) b)) at 1. f_equal. by rewrite drop_drop.
Qed.

Lemma rd_quote_head_ok r m t e c r' :
  rd_quote_head r = Ok (m, t, e, c, r') ↔
  ∃ signer clock fw, u32_ok m ∧ u16_ok t ∧ tpm2b_ok signer ∧ tpm2b_ok e ∧ length clock = 17%nat ∧ length fw = 8%nat ∧
    u32_ok c ∧ r = be_bytes 4 m ++ be_bytes 2 t ++ tpm2b signer ++ tpm2b e ++ clock ++ fw ++ be_bytes 4 c ++ r'.
Proof.
  unfold rd_quote_head. split.
  - intros H. repeat read_step H. injection H as <- <- <- <- <-. subst.
    exists l1, (x ++ be_bytes 4 z1 ++ be_bytes 4 z2 ++ be_bytes 1 z3), x0.
    do 4 (split; [eassumption|]). rewrite !length_app, !be_bytes_length.
    split; [by rewrite Hok3|]. do 2 (split; [eassumption|]). by rewrite <- !app_assoc.
  - intros (signer & clock & fw & Hm & Ht & Hs & He & Hc & Hf & Hn & ->). do 4 field_step.
    destruct (clock_info_words clock Hc) as (b & v1 & v2 & v3 & Hb & H1 & H2 & H3 & ->). rewrite <- !app_assoc.
    rewrite (proj2 (rd_skip_u64_ok _ _ _)) by (exists b; split; [done|reflexivity]). do 3 field_step.
    rewrite (proj2 (rd_skip_u64_ok _ _ _)) by (exists fw; split; [done|reflexivity]).
    by field_step.
Qed.

(** The quote parser accepts exactly the marshalled attestations of type quote info. *)
Lemma quote_parse_ok buf q :
  quote_parse buf = Ok q ↔ ∃ a, at_quote a = q ∧ attest_ok a ∧ buf = marshal_attest a.
Proof.
  unfold quote_parse. split.
  - intros H. read_step H. apply rd_quote_head_ok in E as (sg & cl & fw & Hm & Ht & Hs & He & Hc & Hf & Hn & ->).
    read_step H. apply rd_selections_ok in E as (Hl & Hlen & ->); [|done]. repeat read_step H. injection H as <-. subst.
    unfold u32_ok in *. rewrite Z.max_r in Hlen by lia.
    eexists {| at_quote := _; at_qualified_signer := sg; at_clock_info := cl; at_firmware_version := fw |}.
    split; [reflexivity|]. unfold attest_ok, marshal_attest. cbn -[be_bytes Z.pow]. rewrite Hlen, app_nil_r. done.
  - intros ([q' sg cl fw] & <- & (Hm & Ht & Hs & He & Hc & Hf & Hsel & Hn & Hd) & ->). cbn [at_quote at_qualified_signer at_clock_info at_firmware_version] in *.
    destruct q' as [m t e l d]. cbn [qi_magic qi_attest_type qi_extra_data qi_pcr_selection qi_pcr_digest] in *.
    unfold marshal_attest. cbn [at_quote at_qualified_signer at_clock_info at_firmware_version qi_magic qi_attest_type qi_extra_data qi_pcr_selection qi_pcr_digest].
    rewrite (proj2 (rd_quote_head_ok _ m t e (Z.of_nat (length l)) (concat (marshal_selection <$> l) ++ tpm2b d)))
      by (exists sg, cl, fw; done).
    rewrite (proj2 (rd_selections_ok _ (Z.of_nat (length l)) _ l (tpm2b d) (le_n _))) by (split; [done|]; split; [lia|done]).
    rewrite (proj2 (rd_tpm2b_ok _ _ d [])) by (by rewrite app_nil_r). done.
Qed.

Lemma ecc_parse_ok buf e :
  ecc_parse buf = Ok e ↔ ∃ p, tp_ecc p = e ∧ public_ok p ∧ buf = marshal_public p.
Proof.
  unfold ecc_parse. split.
  - intros H. repeat read_step H. injection H as <-. rename z3 into scheme, z4 into hash.
    assert (Hh : u16_ok hash ∧ (scheme = TPM_ALG_NULL → hash = 0) ∧
      l5 = (if scheme =? TPM_ALG_NULL then [] else be_bytes 2 hash) ++ l6).
    { destruct (Z.eqb_spec scheme TPM_ALG_NULL) as [Hs|Hs].
      - injection E5 as <- <-. done.
      - apply rd_u16_ok in E5 as [Hh ->]. done. }
    destruct Hh as (Hh & Hnull & ->). subst.
    eexists {| tp_ecc := _; tp_name_alg := z0; tp_auth_policy := l2 |}. split; [reflexivity|].
    unfold public_ok, marshal_public. cbn -[be_bytes Z.pow Z.eqb]. rewrite app_nil_r. done.
  - intros ([[at' cu sc sh x y] na ap] & <- & (Ha & Hc & Hs & Hh & Hn & Hx & Hy & Hna & Hap) & ->).
    unfold marshal_public. cbn [tp_ecc tp_name_alg tp_auth_policy ep_attributes ep_curve_id ep_scheme ep_scheme_hash ep_x ep_y] in *.
    assert (u16_ok TPM_ALG_ECC) by (unfold u16_ok, TPM_ALG_ECC; lia).
    assert (u16_ok TPM_ALG_NULL) by (unfold u16_ok, TPM_ALG_NULL; lia).
    field_step. rewrite Z.eqb_refl. cbn [negb]. do 4 field_step. rewrite Z.eqb_refl. cbn [negb]. field_step.
    rewrite <- (app_nil_r (tpm2b y)).
    destruct (Z.eqb_spec sc TPM_ALG_NULL) as [E|E]; [rewrite (Hn E) in *; rewrite app_nil_l|field_step];
      do 2 field_step; rewrite Z.eqb_refl; cbn [negb]; do 2 field_step; done.
Qed.

Lemma ecdsa_parse_ok buf s : ecdsa_parse buf = Ok s ↔ signature_ok s ∧ buf = marshal_signature s.
Proof.
  unfold ecdsa_parse. split.
  - intros H. repeat read_step H. injection H as <-. subst. unfold signature_ok, marshal_signature.
    cbn [es_hash_alg es_r es_s]. rewrite app_nil_r. done.
  - destruct s as [h r s]. intros [(Hh & Hr & Hs) ->]. unfold marshal_signature. cbn [es_hash_alg es_r es_s] in *.
    assert (u16_ok TPM_ALG_ECDSA) by (unfold u16_ok, TPM_ALG_ECDSA; lia).
    rewrite <- (app_nil_r (tpm2b s)). field_step. rewrite Z.eqb_refl. cbn [negb]. do 3 field_step. done.
Qed.

(** C33: the parsers of TPM structures and the marshalled forms are inverse.  A quote body, public area or
    signature parses to [v] exactly when it is a marshalled structure, in range in every field, whose
    checked fields are [v]: nothing well formed is refused, and no truncated, extended or ambiguous bytes
    are accepted. *)
Theorem tpm_parsers_roundtrip buf :
  (∀ q, quote_parse buf = Ok q ↔ ∃ a, at_quote a = q ∧ attest_ok a ∧ buf = marshal_attest a) ∧
  (∀ e, ecc_parse buf = Ok e ↔ ∃ p, tp_ecc p = e ∧ public_ok p ∧ buf = marshal_public p) ∧
  (∀ s, ecdsa_parse buf = Ok s ↔ signature_ok s ∧ buf = marshal_signature s).
Proof. split; [apply quote_parse_ok|]. split; [apply ecc_parse_ok|apply ecdsa_parse_ok]. Qed.

(** ** Attestation keys *)
Definition aik_profile (a : EccPublic) : Prop :=
  (∀ i, i ∈ [1; 4; 5; 16; 18] → Z.testbit (ep_attributes a) i = true) ∧ Z.testbit (ep_attributes a) 17 = false ∧
  ep_curve_id a = TPM_ECC_NIST_P256 ∧ ep_scheme a = TPM_ALG_ECDSA.

Lemma land_bit_zero z i : 0 ≤ i → (Z.land z (Z.shiftl 1 i) =? 0) = negb (Z.testbit z i).
Proof.
  intros Hi. destruct (Z.eqb_spec (Z.land z (Z.shiftl 1 i)) 0) as [E|E].
  - assert (Z.testbit (Z.land z (Z.shiftl 1 i)) i = false) as H by (by rewrite E, Z.bits_0).
    rewrite Z.land_spec, Z.shiftl_spec, Z.sub_diag in H by lia. change (Z.testbit 1 0) with true in H.
    rewrite andb_true_r in H. by rewrite H.
  - destruct (Z.testbit z i) eqn:B; [done|]. exfalso. apply E. apply Z.bits_inj'. intros n Hn.
    rewrite Z.land_spec, Z.shiftl_spec, Z.bits_0 by lia. destruct (decide (n = i)) as [->|Hne]; [by rewrite B|].
    destruct (decide (n < i)); [rewrite (Z.testbit_neg_r 1) by lia; apply andb_false_r|].
    change 1 with (2 ^ 0). rewrite Z.pow2_bits_false by lia. apply andb_false_r.
Qed.

Lemma check_required_ok attrs l :
  check_required attrs l = Ok tt ↔ Forall (λ x, (Z.land attrs x.1 =? 0) = false) l.
Proof.
  induction l as [|[bit name] l IH]; cbn [check_required]; [by split|]. rewrite Forall_cons. cbn [fst].
  destruct (Z.land attrs bit =? 0); [split; [done|intros [? _]; done]|]. rewrite IH. naive_solver.
Qed.

Lemma check_aik_ok a : check_aik a = Ok tt ↔ aik_profile a.
Proof.
  assert (Hreq : check_required (ep_attributes a) REQUIRED_ATTRIBUTES = Ok tt ↔
                 ∀ i, i ∈ [1; 4; 5; 16; 18] → Z.testbit (ep_attributes a) i = true).
  { rewrite check_required_ok. unfold REQUIRED_ATTRIBUTES, TPMA_FIXED_TPM, TPMA_FIXED_PARENT, TPMA_SENSITIVE_DATA_ORIGIN, TPMA_RESTRICTED, TPMA_SIGN.
    rewrite !Forall_cons. cbn [fst]. rewrite !land_bit_zero, !negb_false_iff by lia.
    setoid_rewrite elem_of_cons. setoid_rewrite elem_of_cons. setoid_rewrite elem_of_cons. setoid_rewrite elem_of_cons.
    setoid_rewrite list_elem_of_singleton. split; [intros (?&?&?&?&?&_); naive_solver|]. intros H.
    split_and!; [..|constructor]; apply H; tauto. }
  unfold check_aik, aik_profile, TPMA_DECRYPT. rewrite land_bit_zero, negb_involutive by lia.
  destruct (check_required _ _) as [[]|e] eqn:E; [|split; [done|intros (H & _); apply Hreq in H; congruence]].
  destruct (Z.testbit (ep_attributes a) 17); [naive_solver|].
  destruct (Z.eqb_spec (ep_curve_id a) TPM_ECC_NIST_P256); cbn [negb]; [|naive_solver].
  destruct (Z.eqb_spec (ep_scheme a) TPM_ALG_ECDSA); cbn [negb]; naive_solver.
Qed.

(** ** Selections *)
Lemma elem_of_byte_indices i byte idx :
  idx ∈ byte_indices i byte ↔
  0 ≤ idx < 256 ∧ idx / 8 = Z.of_nat i ∧ Z.testbit (u8.to_Z byte) (idx mod 8) = true.
Proof.
  unfold byte_indices. rewrite list_elem_of_filter, list_elem_of_fmap.
  assert (Hb : ∀ bit, bit ∈ filter (λ bit, Z.land (u8.to_Z byte) (Z.shiftl 1 bit) ≠ 0) [0; 1; 2; 3; 4; 5; 6; 7] ↔
                      0 ≤ bit < 8 ∧ Z.testbit (u8.to_Z byte) bit = true).
  { intros bit. change [0; 1; 2; 3; 4; 5; 6; 7] with (seqZ 0 8). rewrite list_elem_of_filter, elem_of_seqZ.
    split; intros [H1 H2].
    - split; [lia|]. apply Z.eqb_neq in H1. rewrite land_bit_zero in H1 by lia. by apply negb_false_iff.
    - split; [|lia]. apply Z.eqb_neq. rewrite land_bit_zero by lia. by rewrite H2. }
  split.
  - intros [Hlt (bit & -> & [Hr Ht]%Hb)]. rewrite (Z.mul_comm 8), Z.div_add_l, (Z.div_small bit), Z.add_0_r by lia.
    rewrite Z.add_comm, Z_mod_plus_full, Z.mod_small by lia. split; [lia|done].
  - intros (Hr & Hd & Ht). split; [lia|]. exists (idx mod 8). rewrite Hb, <- Hd. pose proof (Z.div_mod idx 8 ltac:(lia)).
    pose proof (Z.mod_pos_bound idx 8 ltac:(lia)). split; [lia|]. done.
Qed.

Lemma elem_of_concat_imap {A B} (f : nat → A → list B) l y :
  y ∈ concat (imap f l) ↔ ∃ i x, l !! i = Some x ∧ y ∈ f i x.
Proof.
  rewrite list_elem_of_In, in_concat. setoid_rewrite <- list_elem_of_In. setoid_rewrite elem_of_lookup_imap. naive_solver.
Qed.

Lemma elem_of_selected_indices s idx :
  idx ∈ selected_indices s ↔
  0 ≤ idx < 256 ∧ ∃ byte, ps_bitmap s !! Z.to_nat (idx / 8) = Some byte ∧ Z.testbit (u8.to_Z byte) (idx mod 8) = true.
Proof.
  unfold selected_indices. rewrite elem_of_concat_imap. setoid_rewrite elem_of_byte_indices. split.
  - intros (i & byte & Hi & Hr & Hd & Ht). split; [done|]. exists byte. rewrite Hd, Nat2Z.id. done.
  - intros (Hr & byte & Hb & Ht). exists (Z.to_nat (idx / 8)), byte. rewrite Z2Nat.id by (apply Z.div_pos; lia). done.
Qed.

(** ** Memory *)
Lemma selections_bound buf q : quote_parse buf = Ok q → (3 * length (qi_pcr_selection q) ≤ length buf)%nat.
Proof.
  intros (a & <- & _ & ->)%quote_parse_ok. unfold marshal_attest. rewrite !length_app.
  assert (∀ l, (3 * length l ≤ length (concat (marshal_selection <$> l)))%nat).
  { induction l as [|s l IH]; cbn [fmap list_fmap concat length]; [lia|]. rewrite length_app.
    pose proof (marshal_selection_length s). lia. }
  specialize (H (qi_pcr_selection (at_quote a))). lia.
Qed.

(** An attestation that ends after a count of 2^32 - 1 selections. *)
Definition overdrawn_quote : list u8 := replicate 35 Byte.x00 ++ replicate 4 Byte.xff.

(** the room [QuoteInfo::parse] reserves is not bounded by its input.  An accepted quote has at most one
    selection per three bytes, but [Vec::with_capacity] is given the declared count before any selection is
    read: 39 bytes make it ask for 2^32 - 1 elements (of 32 bytes each), where the input is refused right
    after. *)
Theorem quote_capacity_unbounded :
  (∀ buf q, quote_parse buf = Ok q → (3 * length (qi_pcr_selection q) ≤ length buf)%nat) ∧
  length overdrawn_quote = 39%nat ∧ quote_capacity overdrawn_quote = Some (2 ^ 32 - 1) ∧
  quote_parse overdrawn_quote = Err (Truncated "TPMS_PCR_SELECTION.hash").
Proof. split; [exact selections_bound|]. by vm_compute. Qed.
