(* ===== verification/Rim.v ===== *)
(** Reference integrity measurements (ferro-attest/src/rim.rs), the signed bundles they come in
    (rim_bundle.rs) and the loader (rim_loader.rs).

    The store is what its lock protects; an operation is a function on it, atomic as the lock
    makes it.  A reload takes the lock twice: [try_reload] reads the version in one store and
    applies to a later one. *)
From stdpp Require Import gmap sorting relations.
From S2P Require Import Prelude AppModel AppDedup Order Composite AllowlistV2 AppPath Svid HelperProto CallerAuth.
Open Scope Z_scope.

Definition MAX_GENERATIONS : nat := 6.
Definition HOST_KEY_POLICY_ID : string := "host-key".

(** ** Text: [str::trim] and [str::eq_ignore_ascii_case], on characters *)
Fixpoint trim_start (l : list Z) : list Z :=
  match l with [] => [] | c :: r => if is_whitespace c then trim_start r else l end.
Definition trim (l : list Z) : list Z := reverse (trim_start (reverse (trim_start l))).
Definition ascii_lower (c : Z) : Z := if in_range 65 90 c then c + 32 else c.
Definition eq_ignore_ascii_case (a b : list Z) : bool := bool_decide (ascii_lower <$> a = ascii_lower <$> b).

Definition is_reserved (policy_id : string) : bool := eq_ignore_ascii_case (trim (chars policy_id)) (chars HOST_KEY_POLICY_ID).

(** ** Generations *)
Record RimGeneration := {
  rg_version : Z; rg_policy_id : string; rg_not_before : Z; rg_not_after : Z; rg_approved : gset (list u8) }.
Definition is_active (g : RimGeneration) (now : Z) : bool := (rg_not_before g <=? now) && (now <? rg_not_after g).
Definition approves (g : RimGeneration) (digest : list u8) : bool := bool_decide (digest ∈ rg_approved g).

(** [Inner]: the generations, oldest first, the manual approvals and the highest version applied. *)
Record RimStore := {
  rs_generations : list RimGeneration; rs_manual : gmap (list u8) string; rs_last_version : Z }.
Definition rim_new : RimStore := {| rs_generations := []; rs_manual := ∅; rs_last_version := 0 |}.

Record ApplyOutcome := { ao_version : Z; ao_retained : nat; ao_pruned : nat }.
Inductive ApplyError :=
  | NonMonotonic (current incoming : Z) | InvalidWindow (not_before not_after : Z) | ReservedPolicyId (id : string).

Definition rim_approve (digest : list u8) (policy_id : string) (s : RimStore) : result ApplyError unit * RimStore :=
  if is_reserved policy_id then (Err (ReservedPolicyId policy_id), s) else
  (Ok tt, {| rs_generations := rs_generations s; rs_manual := <[digest := policy_id]> (rs_manual s);
             rs_last_version := rs_last_version s |}).

(** The loop over the generations, newest first. *)
Fixpoint find_generation (f : RimGeneration → bool) (newest_first : list RimGeneration) : option string :=
  match newest_first with
  | [] => None
  | g :: gs => if f g then Some (rg_policy_id g) else find_generation f gs
  end.
Definition lookup_at (digest : list u8) (now : Z) (s : RimStore) : option string :=
  match rs_manual s !! digest with
  | Some p => Some p
  | None => find_generation (λ g, is_active g now && approves g digest) (reverse (rs_generations s))
  end.
Definition rim_lookup (digest : list u8) (s : RimStore) : option string :=
  match rs_manual s !! digest with
  | Some p => Some p
  | None => find_generation (λ g, approves g digest) (reverse (rs_generations s))
  end.

(** [while generations.len() > MAX_GENERATIONS { pop_front }]: what is left, and the turns. *)
Fixpoint prune (l : list RimGeneration) : list RimGeneration * nat :=
  match l with
  | g :: l' => if (MAX_GENERATIONS <? length l)%nat then let (r, n) := prune l' in (r, S n) else (l, O)
  | [] => ([], O)
  end.
Definition rim_apply (g : RimGeneration) (s : RimStore) : result ApplyError ApplyOutcome * RimStore :=
  if is_reserved (rg_policy_id g) then (Err (ReservedPolicyId (rg_policy_id g)), s) else
  if rg_not_after g <=? rg_not_before g then (Err (InvalidWindow (rg_not_before g) (rg_not_after g)), s) else
  if rg_version g <=? rs_last_version s then (Err (NonMonotonic (rs_last_version s) (rg_version g)), s) else
  let (kept, pruned) := prune (rs_generations s ++ [g]) in
  (Ok {| ao_version := rg_version g; ao_retained := length kept; ao_pruned := pruned |},
   {| rs_generations := kept; rs_manual := rs_manual s; rs_last_version := rg_version g |}).

Record RimGenerationSummary := {
  gs_version : Z; gs_policy_id : string; gs_not_before : Z; gs_not_after : Z; gs_approved_count : nat }.
Definition rim_generations (s : RimStore) : list RimGenerationSummary :=
  (λ g, {| gs_version := rg_version g; gs_policy_id := rg_policy_id g; gs_not_before := rg_not_before g;
           gs_not_after := rg_not_after g; gs_approved_count := size (rg_approved g) |}) <$> rs_generations s.
Definition rim_len (s : RimStore) : nat :=
  (size (rs_manual s) + sum_list_with (λ g, size (rg_approved g)) (rs_generations s))%nat.
Definition rim_is_empty (s : RimStore) : bool := (rim_len s =? 0)%nat.

(** ** Bundles *)
Definition RIM_SIGNING_CONTEXT : list u8 := as_bytes "ferrogate-rim-v1".
Record RimBundle := {
  rb_version : Z; rb_policy_id : string; rb_not_before : Z; rb_not_after : Z; rb_approved_digests_hex : list string }.
Record SignedRimBundle := { sr_bundle : RimBundle; sr_signer_kid : string; sr_signature_b64 : string }.
Inductive BundleError :=
  | BundleJson (e : string) | BundleSign (e : CompositeError) | RimUnknownKid (kid : string) | BundleBadSignature (e : string)
  | BadDigest (i : nat).

Section Bundles.
Context (P : Primitives) `{BJ : !Json RimBundle, SJ : !Json SignedRimBundle}.
(** [hex::decode]. *)
Context (hex_decode : string → option (list u8)).
Local Abbreviation PublicKey := (CompositePublicKey (EdVk P) (MlPk P)).
Local Abbreviation SecretKey := (CompositeSecretKey (EdSk P) (MlSk P)).

(** [TrustedKeys]: publisher keys by key id. *)
Definition TrustedKeys := gmap string PublicKey.
Definition trusted_add (kid : string) (pk : PublicKey) (t : TrustedKeys) : TrustedKeys := <[kid := pk]> t.
Definition trusted_get (kid : string) (t : TrustedKeys) : option PublicKey := t !! kid.

Definition rim_canonical_json (b : RimBundle) : result BundleError (list u8) := map_err BundleJson (to_vec b).
(** The loop of [to_generation], from index [i]. *)
Fixpoint decode_digests (i : nat) (l : list string) (approved : gset (list u8)) : result BundleError (gset (list u8)) :=
  match l with
  | [] => Ok approved
  | h :: l =>
      match hex_decode h with
      | None => Err (BadDigest i)
      | Some bytes => if negb (length bytes =? 48)%nat then Err (BadDigest i) else decode_digests (S i) l ({[bytes]} ∪ approved)
      end
  end.
Definition to_generation (b : RimBundle) : result BundleError RimGeneration :=
  let? approved := decode_digests 0 (rb_approved_digests_hex b) ∅ in
  Ok {| rg_version := rb_version b; rg_policy_id := rb_policy_id b; rg_not_before := rb_not_before b;
        rg_not_after := rb_not_after b; rg_approved := approved |}.

Definition rim_sign (b : RimBundle) (signer_kid : string) (signer : SecretKey) (rng : result string (list u8)) :
    result BundleError SignedRimBundle :=
  let? bytes := rim_canonical_json b in
  let? sig := map_err BundleSign (composite_sign P signer rng RIM_SIGNING_CONTEXT bytes) in
  Ok {| sr_bundle := b; sr_signer_kid := signer_kid; sr_signature_b64 := b64url_encode P (sig_to_concat_bytes sig) |}.
Definition rim_from_json (json : list u8) : result BundleError SignedRimBundle := map_err BundleJson (from_slice json).

Definition rim_verify (s : SignedRimBundle) (trust : TrustedKeys) : result BundleError RimBundle :=
  match trusted_get (sr_signer_kid s) trust with
  | None => Err (RimUnknownKid (sr_signer_kid s))
  | Some pk =>
      match b64url_decode P (sr_signature_b64 s) with
      | None => Err (BundleBadSignature "base64url")
      | Some sig_bytes =>
          let? sig := map_err (λ _, BundleBadSignature "length") (sig_from_concat_bytes sig_bytes) in
          let? payload := rim_canonical_json (sr_bundle s) in
          let? _ := map_err (λ _, BundleBadSignature "verify") (composite_verify P pk RIM_SIGNING_CONTEXT payload sig) in
          Ok (sr_bundle s)
      end
  end.

(** ** The loader *)
Inductive ReloadOutcome := RimApplied (o : ApplyOutcome) | RimUpToDate (version : Z).
Inductive ReloadError := ReloadIo | ReloadBundle (e : BundleError) | ReloadApply (e : ApplyError).

(** [file] is what reading the path gave; [seen] the store when the version is compared, [s] the
    store the generation is applied to. *)
Definition try_reload (file : option (list u8)) (trust : TrustedKeys) (seen s : RimStore) :
    result ReloadError ReloadOutcome * RimStore :=
  match file with
  | None => (Err ReloadIo, s)
  | Some bytes =>
      match (let? signed := rim_from_json bytes in rim_verify signed trust) with
      | Err e => (Err (ReloadBundle e), s)
      | Ok bundle =>
          if rb_version bundle <=? rs_last_version seen then (Ok (RimUpToDate (rs_last_version seen)), s) else
          match to_generation bundle with
          | Err e => (Err (ReloadBundle e), s)
          | Ok generation =>
              match rim_apply generation s with
              | (Ok o, s') => (Ok (RimApplied o), s')
              | (Err e, s') => (Err (ReloadApply e), s')
              end
          end
      end
  end.

(** ** Histories of the store *)

(** A bundle some trusted publisher key signed, in its canonical form and under this context. *)
Definition bundle_signed (trust : TrustedKeys) (b : RimBundle) : Prop :=
  ∃ kid pk payload sig, trust !! kid = Some pk ∧ to_vec b = Ok payload ∧
    composite_verify P pk RIM_SIGNING_CONTEXT payload sig = Ok tt.
(** A generation decoded from such a bundle. *)
Definition gen_published (trust : TrustedKeys) (g : RimGeneration) : Prop :=
  ∃ b, bundle_signed trust b ∧ to_generation b = Ok g.

(** One write to the store: a manual approval, or a reload of any file, with its outcome. *)
Inductive rim_step (trust : TrustedKeys) : RimStore → RimStore → Prop :=
  | step_approve d p s : rim_step trust s (rim_approve d p s).2
  | step_reload file seen s : rim_step trust s (try_reload file trust seen s).2.

Record rim_inv (trust : TrustedKeys) (s : RimStore) : Prop := {
  ri_sorted : StronglySorted Z.lt (rg_version <$> rs_generations s);
  ri_last : Forall (λ g, rg_version g ≤ rs_last_version s) (rs_generations s);
  ri_bound : (length (rs_generations s) ≤ MAX_GENERATIONS)%nat;
  ri_published : Forall (gen_published trust) (rs_generations s);
  ri_window : Forall (λ g, rg_not_before g < rg_not_after g) (rs_generations s);
  ri_reserved : Forall (λ g, is_reserved (rg_policy_id g) = false) (rs_generations s);
  ri_manual : map_Forall (λ _ p, is_reserved p = false) (rs_manual s) }.
End Bundles.

(** ** Lemmas *)
Lemma prune_spec l : prune l = (drop (length l - MAX_GENERATIONS) l, (length l - MAX_GENERATIONS)%nat).
Proof.
  induction l as [|g l IH]; [done|]. cbn [prune]. destruct (Nat.ltb_spec MAX_GENERATIONS (length (g :: l))) as [H|H].
  - rewrite IH. cbn [length] in *. replace (S (length l) - MAX_GENERATIONS)%nat with (S (length l - MAX_GENERATIONS)) by lia. done.
  - cbn [length] in *. replace (S (length l) - MAX_GENERATIONS)%nat with 0%nat by lia. done.
Qed.

Lemma find_generation_spec f l p :
  find_generation f l = Some p ↔
  ∃ l1 g l2, l = l1 ++ g :: l2 ∧ f g = true ∧ rg_policy_id g = p ∧ Forall (λ g, f g = false) l1.
Proof.
  induction l as [|g l IH]; cbn [find_generation].
  - split; [done|]. intros (l1 & g & l2 & H & _). by destruct l1.
  - destruct (f g) eqn:E.
    + split; [intros [= <-]; by exists [], g, l|]. intros (l1 & g' & l2 & Hl & Hf & <- & Hn).
      destruct l1 as [|g1 l1]; injection Hl as <- Hl; [done|]. apply Forall_cons in Hn as [Hn _]. congruence.
    + rewrite IH. split.
      * intros (l1 & g' & l2 & -> & Hf & Hp & Hn). exists (g :: l1), g', l2. auto.
      * intros (l1 & g' & l2 & Hl & Hf & Hp & Hn). destruct l1 as [|g1 l1]; injection Hl as <- Hl; [congruence|].
        apply Forall_cons in Hn as [_ Hn]. eauto 10.
Qed.

(** The answer of a lookup: a manual approval, or the newest active generation that approves. *)
Lemma lookup_at_spec digest now s p :
  lookup_at digest now s = Some p ↔
  rs_manual s !! digest = Some p ∨
  rs_manual s !! digest = None ∧
  ∃ older g newer, rs_generations s = older ++ g :: newer ∧ rg_policy_id g = p ∧
    rg_not_before g ≤ now < rg_not_after g ∧ digest ∈ rg_approved g ∧
    Forall (λ h, ¬ (rg_not_before h ≤ now < rg_not_after h ∧ digest ∈ rg_approved h)) newer.
Proof.
  assert (Hf : ∀ g, is_active g now && approves g digest = true ↔ rg_not_before g ≤ now < rg_not_after g ∧ digest ∈ rg_approved g).
  { intros g. unfold is_active, approves. rewrite !andb_true_iff, bool_decide_eq_true. lia || (rewrite Z.leb_le, Z.ltb_lt; tauto). }
  unfold lookup_at. destruct (rs_manual s !! digest) as [q|]; [naive_solver|].
  rewrite find_generation_spec. split.
  - intros (l1 & g & l2 & Hl & Hg & Hp & Hn). right. split; [done|]. exists (reverse l2), g, (reverse l1).
    apply Hf in Hg as [Hw Hd]. split.
    { rewrite <- (reverse_involutive (rs_generations s)), Hl, reverse_app, reverse_cons, <- app_assoc. done. }
    do 3 (split; [done|]). apply Forall_reverse. eapply Forall_impl; [exact Hn|]. cbn. intros h Hh Hx.
    apply Hf in Hx. congruence.
  - intros [?|[_ (older & g & newer & Hl & Hp & Hw & Hd & Hn)]]; [done|].
    exists (reverse newer), g, (reverse older). split; [by rewrite Hl, reverse_app, reverse_cons, <- app_assoc|].
    split; [by apply Hf|]. split; [done|]. apply Forall_reverse. eapply Forall_impl; [exact Hn|]. cbn. intros h Hh.
    apply not_true_is_false. intros Hx. by apply Hh, Hf.
Qed.

Lemma strongly_sorted_drop (l : list Z) n : StronglySorted Z.lt l → StronglySorted Z.lt (drop n l).
Proof.
  revert n. induction l as [|x l IH]; intros [|n] H; cbn [drop]; try done. apply StronglySorted_inv in H as [H _]. by apply IH.
Qed.

Lemma strongly_sorted_snoc (l : list Z) x : StronglySorted Z.lt l → Forall (λ y, y < x) l → StronglySorted Z.lt (l ++ [x]).
Proof.
  induction l as [|y l IH]; intros Hs Hf; cbn [app]; [repeat constructor|]. apply StronglySorted_inv in Hs as [Hs Hy].
  apply Forall_cons in Hf as [Hyx Hf]. constructor; [by apply IH|]. apply Forall_app. split; [done|by repeat constructor].
Qed.

Lemma rim_apply_cases g s :
  (∃ e, rim_apply g s = (Err e, s)) ∨
  is_reserved (rg_policy_id g) = false ∧ rg_not_before g < rg_not_after g ∧ rs_last_version s < rg_version g ∧
  ∃ n, rim_apply g s =
    (Ok {| ao_version := rg_version g; ao_retained := length (drop n (rs_generations s ++ [g])); ao_pruned := n |},
     {| rs_generations := drop n (rs_generations s ++ [g]); rs_manual := rs_manual s; rs_last_version := rg_version g |}) ∧
    n = (length (rs_generations s ++ [g]) - MAX_GENERATIONS)%nat.
Proof.
  unfold rim_apply. destruct (is_reserved _); [by eauto|].
  destruct (Z.leb_spec (rg_not_after g) (rg_not_before g)); [by eauto|].
  destruct (Z.leb_spec (rg_version g) (rs_last_version s)); [by eauto|].
  right. rewrite prune_spec. do 3 (split; [done|]). eauto.
Qed.

Section Lemmas.
Context (P : Primitives) `{BJ : !Json RimBundle, SJ : !Json SignedRimBundle} (hex_decode : string → option (list u8)).
Context (trust : TrustedKeys P).
Local Abbreviation rim_inv := (rim_inv P hex_decode trust).
Local Abbreviation gen_published := (gen_published P hex_decode trust).
Local Abbreviation try_reload := (try_reload P hex_decode).

Lemma rim_verify_ok sb b : rim_verify P sb trust = Ok b → b = sr_bundle sb ∧ bundle_signed P trust b.
Proof.
  unfold rim_verify, trusted_get, rim_canonical_json. destruct (trust !! sr_signer_kid sb) as [pk|] eqn:Ek; [|done].
  destruct (b64url_decode P _) as [raw|]; [|done]. destruct (sig_from_concat_bytes raw) as [sig|]; [|done].
  cbn [map_err]. destruct (to_vec (sr_bundle sb)) as [payload|] eqn:Ej; [|done]. cbn [map_err].
  destruct (composite_verify _ _ _ _ _) as [[]|] eqn:Ev; [|done]. cbn [map_err]. intros [= <-]. split; [done|].
  exists (sr_signer_kid sb), pk, payload, sig. done.
Qed.

(** A reload leaves the store, or applies a published generation to it. *)
Lemma try_reload_cases file seen s :
  (try_reload file trust seen s).2 = s ∨
  ∃ g, gen_published g ∧ (try_reload file trust seen s).2 = (rim_apply g s).2.
Proof.
  unfold try_reload. destruct file as [bytes|]; [|by left].
  destruct (rim_from_json bytes) as [sb|]; [|by left]. destruct (rim_verify P sb trust) as [b|] eqn:Ev; [|by left].
  apply rim_verify_ok in Ev as [-> Hs]. destruct (_ <=? _); [by left|].
  destruct (to_generation hex_decode (sr_bundle sb)) as [g|] eqn:Eg; [|by left]. right. exists g. split; [by exists (sr_bundle sb)|].
  by destruct (rim_apply g s) as [[]].
Qed.

Lemma rim_apply_inv g s : rim_inv s → gen_published g → rim_inv (rim_apply g s).2.
Proof.
  intros [Hs Hl Hb Hp Hw Hr Hm] Hg. destruct (rim_apply_cases g s) as [[e ->]|(Hres & Hwin & Hv & n & -> & ->)]; [done|].
  assert (Hd : ∀ Q : RimGeneration → Prop, Forall Q (rs_generations s) → Q g → ∀ n, Forall Q (drop n (rs_generations s ++ [g]))).
  { intros Q HQ Hq n. apply Forall_drop, Forall_app. split; [done|by repeat constructor]. }
  split; cbn [snd rs_generations rs_manual rs_last_version]; try by apply Hd.
  - rewrite fmap_drop, fmap_app. apply strongly_sorted_drop, strongly_sorted_snoc; [done|].
    apply Forall_fmap. eapply Forall_impl; [exact Hl|]. cbn. lia.
  - apply Hd; [|lia]. eapply Forall_impl; [exact Hl|]. cbn. lia.
  - rewrite length_drop. lia.
  - done.
Qed.

Lemma rim_step_inv s s' : rim_step P hex_decode trust s s' → rim_inv s → rim_inv s'.
Proof.
  intros [d p s0|file seen s0] Hi.
  - unfold rim_approve. destruct (is_reserved p) eqn:E; [done|]. destruct Hi. split; try done. by apply map_Forall_insert_2.
  - destruct (try_reload_cases file seen s0) as [->|(g & Hg & ->)]; [done|]. by apply rim_apply_inv.
Qed.

Lemma rim_new_inv : rim_inv rim_new.
Proof. split; cbn; [constructor|constructor|unfold MAX_GENERATIONS; lia|constructor..|apply map_Forall_empty]. Qed.

Lemma rim_step_version s s' : rim_step P hex_decode trust s s' → rs_last_version s ≤ rs_last_version s'.
Proof.
  intros [d p s0|file seen s0].
  - unfold rim_approve. by destruct (is_reserved p).
  - destruct (try_reload_cases file seen s0) as [->|(g & Hg & ->)]; [done|].
    destruct (rim_apply_cases g s0) as [[e ->]|(_ & _ & Hv & n & -> & _)]; [done|]. cbn. lia.
Qed.

(** A reachable store. *)
Definition rim_reachable (s : RimStore) : Prop := rtc (rim_step P hex_decode trust) rim_new s.
Lemma rim_reachable_inv s : rim_reachable s → rim_inv s.
Proof.
  intros H. pose proof rim_new_inv as Hi. unfold rim_reachable in H. revert Hi.
  induction H as [|x y z Hxy _ IH]; [done|]. eauto using rim_step_inv.
Qed.

(** A policy id a reachable store answers is not the reserved one. *)
Lemma lookup_at_not_reserved s digest now p :
  rim_inv s → lookup_at digest now s = Some p → is_reserved p = false.
Proof.
  intros Hi [Hm|(_ & older & g & newer & Hl & <- & _)]%lookup_at_spec.
  - exact (ri_manual _ _ _ _ Hi _ _ Hm).
  - pose proof (ri_reserved _ _ _ _ Hi) as Hr. rewrite Hl in Hr. apply Forall_app in Hr as [_ Hr].
    by apply Forall_cons in Hr as [? _].
Qed.
End Lemmas.

(** C28: over every history of manual approvals and reloads of arbitrary files, racing or not, the retained
    generations have strictly increasing versions up to the last one applied, are at most six, have non-empty
    windows, and each was decoded from a bundle whose canonical form a trusted publisher key signed; the
    version never goes back; and no policy id the store answers for a measurement is the reserved host-key
    id, in any spelling. *)
Theorem rim_history_sound (P : Primitives) `{BJ : !Json RimBundle, SJ : !Json SignedRimBundle}
    (hex_decode : string → option (list u8)) (trust : TrustedKeys P) s s' :
  rim_reachable P hex_decode trust s →
  rtc (rim_step P hex_decode trust) s s' →
  StronglySorted Z.lt (rg_version <$> rs_generations s') ∧
  (length (rs_generations s') ≤ MAX_GENERATIONS)%nat ∧
  (∀ g, g ∈ rs_generations s' →
    rg_version g ≤ rs_last_version s' ∧ rg_not_before g < rg_not_after g ∧ gen_published P hex_decode trust g) ∧
  rs_last_version s ≤ rs_last_version s' ∧
  (∀ digest now p, lookup_at digest now s' = Some p → is_reserved p = false).
Proof.
  intros Hs Hr. assert (Hi : rim_inv P hex_decode trust s') by exact (rim_reachable_inv _ _ _ _ (transitivity Hs Hr)).
  split; [apply Hi|]. split; [apply Hi|]. split; [|split].
  - intros g Hg. pose proof (ri_last _ _ _ _ Hi) as H1. pose proof (ri_window _ _ _ _ Hi) as H2.
    pose proof (ri_published _ _ _ _ Hi) as H3. rewrite Forall_forall in H1, H2, H3. auto.
  - clear Hs Hi. induction Hr as [|x y z Hxy _ IH]; [done|]. pose proof (rim_step_version P hex_decode trust _ _ Hxy). lia.
  - intros digest now p. by apply (lookup_at_not_reserved P hex_decode trust).
Qed.

(** Seven generations applied one after the other, each approving its own digest for all of time. *)
Definition weekly (v : Z) : RimGeneration :=
  {| rg_version := v; rg_policy_id := "p"; rg_not_before := 0; rg_not_after := 100; rg_approved := {[ replicate 48 (u8.of_Z v) ]} |}.
Definition after_weeks (n : nat) : RimStore := foldl (λ s v, (rim_apply (weekly v) s).2) rim_new (seqZ 1 (Z.of_nat n)).

(** the store retains six generations in all, not the active one and six before it.  With seven
    generations published in turn, all inside their windows, the measurement of the oldest is refused,
    although only six newer ones exist; with six published it is approved. *)
Theorem rim_retains_six_in_all :
  lookup_at (replicate 48 (u8.of_Z 1)) 50 (after_weeks 6) = Some "p" ∧
  lookup_at (replicate 48 (u8.of_Z 1)) 50 (after_weeks 7) = None ∧
  length (rs_generations (after_weeks 7)) = MAX_GENERATIONS.
Proof. by vm_compute. Qed.
