(* ===== verification/Attest.v ===== *)
(** Verification of attestation evidence (ferro-attest): the chain of an endorsement-key
    certificate to a vendor root (vendor.rs), the TPM quote (verify.rs), host-key evidence
    (host_key.rs) and the machine fingerprint it is about (ferro-machineid/src/lib.rs).

    The X.509 parser, PEM and the elliptic-curve library are records of what the sources call. *)
From stdpp Require Import gmap.
From S2P Require Import Prelude AppModel AppDedup Order Composite AllowlistV2 AppPath HelperProto CallerAuth Svid HostAuth Tpm Rim.
Open Scope Z_scope.

(** ** Vendor roots (vendor.rs) *)
Inductive Vendor := Infineon | Nuvoton | St | IntelPtt | OnPrem.
#[export] Instance Vendor_eq_dec : EqDecision Vendor.
Proof. solve_decision. Defined.
Definition VENDORS_ALL : list Vendor := [Infineon; Nuvoton; St; IntelPtt].
Definition vendor_name (v : Vendor) : string :=
  match v with
  | Infineon => "infineon" | Nuvoton => "nuvoton" | St => "st" | IntelPtt => "intel-ptt" | OnPrem => "on-prem"
  end.

Inductive ChainError := ChainMalformed (e : string) | NoIssuer | ChainBadSignature | ChainExpired | TooDeep | EmptyStore.

(** The [x509_parser] crate: certificates, their raw names, their window, [verify_signature]
    of the first under the key of the second, and the blocks of a PEM file. *)
Record X509 := {
  Certificate : Type;
  cert_from_der : list u8 → result string Certificate;
  cert_subject : Certificate → list u8; cert_issuer : Certificate → list u8;
  cert_not_before : Certificate → Z; cert_not_after : Certificate → Z;
  cert_signed_by : Certificate → Certificate → bool;
  pem_blocks : list u8 → list (result string (list u8)) }.

Record Root := { root_der : list u8; root_vendor : Vendor }.
(** [VendorTrustStore]. *)
Abbreviation TrustStore := (list Root).
Definition MAX_CHAIN_DEPTH : nat := 8.

Section Chain.
Context (X : X509).
(** The PEM files built in for each vendor. *)
Context (vendor_pem : Vendor → list u8).

Definition cert_of (der : list u8) : result ChainError (Certificate X) := map_err ChainMalformed (cert_from_der X der).
Definition parse_names (der : list u8) : result ChainError (list u8 * list u8 * bool) :=
  let? cert := cert_of der in
  Ok (cert_subject X cert, cert_issuer X cert, bool_decide (cert_subject X cert = cert_issuer X cert)).
Definition check_validity (der : list u8) (now : Z) : result ChainError unit :=
  let? cert := cert_of der in
  if (now <? cert_not_before X cert) || (cert_not_after X cert <? now) then Err ChainExpired else Ok tt.
Definition verify_signed_by (child_der issuer_der : list u8) : result ChainError bool :=
  let? child := cert_of child_der in
  let? issuer := cert_of issuer_der in
  Ok (cert_signed_by X child issuer).

Definition bundled_pem (v : Vendor) : list u8 := match v with OnPrem => [] | v => vendor_pem v end.
Definition add_root_der (der : list u8) (vendor : Vendor) (store : TrustStore) : result ChainError TrustStore :=
  let? _ := cert_of der in Ok (store ++ [{| root_der := der; root_vendor := vendor |}]).
(** The loop over PEM blocks; a failure keeps the roots added before it, as [&mut self] does. *)
Fixpoint add_blocks (blocks : list (result string (list u8))) (vendor : Vendor) (store : TrustStore) :
    result ChainError unit * TrustStore :=
  match blocks with
  | [] => (Ok tt, store)
  | Err e :: _ => (Err (ChainMalformed e), store)
  | Ok der :: blocks =>
      match add_root_der der vendor store with
      | Err e => (Err e, store)
      | Ok store => add_blocks blocks vendor store
      end
  end.
Definition add_root_pem (pem : list u8) (vendor : Vendor) (store : TrustStore) : result ChainError unit * TrustStore :=
  add_blocks (pem_blocks X pem) vendor store.
Definition load_vendor (vendor : Vendor) (store : TrustStore) : result ChainError unit * TrustStore :=
  add_blocks (pem_blocks X (bundled_pem vendor)) vendor store.
Definition with_vendor (vendor : Vendor) : result ChainError TrustStore :=
  match load_vendor vendor [] with (Ok _, s) => Ok s | (Err e, _) => Err e end.
(** The loop of [bundled]. *)
Fixpoint load_all (vs : list Vendor) (store : TrustStore) : result ChainError TrustStore :=
  match vs with
  | [] => Ok store
  | v :: vs => match load_vendor v store with (Ok _, s) => load_all vs s | (Err e, _) => Err e end
  end.
Definition bundled : result ChainError TrustStore := load_all VENDORS_ALL [].

Definition matching_root_vendor (store : TrustStore) (der : list u8) : option Vendor :=
  root_vendor <$> List.find (λ r, bool_decide (root_der r = der)) store.
Fixpoint issuer_root_for (roots : TrustStore) (issuer_raw child_der : list u8) : result ChainError (option Vendor) :=
  match roots with
  | [] => Ok None
  | root :: roots =>
      let? (root_subject, _, _) := parse_names (root_der root) in
      let? hit := (if bool_decide (root_subject = issuer_raw) then verify_signed_by child_der (root_der root) else Ok false) in
      if hit : bool then Ok (Some (root_vendor root)) else issuer_root_for roots issuer_raw child_der
  end.
Fixpoint issuer_intermediate_for (issuer_raw child_der : list u8) (intermediates : list (list u8)) :
    result ChainError (option (list u8)) :=
  match intermediates with
  | [] => Ok None
  | inter :: rest =>
      let? (inter_subject, _, _) := parse_names inter in
      let? hit := (if bool_decide (inter_subject = issuer_raw) then verify_signed_by child_der inter else Ok false) in
      if hit : bool then Ok (Some inter) else issuer_intermediate_for issuer_raw child_der rest
  end.

(** [for _ in 0..MAX_CHAIN_DEPTH]. *)
Fixpoint chain_loop (turns : nat) (roots : TrustStore) (intermediates : list (list u8)) (now : Z) (current : list u8) :
    result ChainError Vendor :=
  match turns with
  | O => Err TooDeep
  | S turns =>
      let? (subject_raw, issuer_raw, is_self_issued) := parse_names current in
      let? _ := check_validity current now in
      match (if is_self_issued : bool then matching_root_vendor roots current else None) with
      | Some vendor => Ok vendor
      | None =>
          let? found := issuer_root_for roots issuer_raw current in
          match found with
          | Some vendor => Ok vendor
          | None =>
              let? next := issuer_intermediate_for issuer_raw current intermediates in
              match next with
              | Some next =>
                  if bool_decide (subject_raw = issuer_raw) then Err NoIssuer
                  else chain_loop turns roots intermediates now next
              | None => Err NoIssuer
              end
          end
      end
  end.
Definition verify_ek_chain (roots : TrustStore) (ek_der : list u8) (intermediates : list (list u8)) (now : Z) :
    result ChainError Vendor :=
  match roots with [] => Err EmptyStore | _ => chain_loop MAX_CHAIN_DEPTH roots intermediates now ek_der end.
End Chain.

(** ** Quotes (verify.rs) *)
Definition PcrSet := gmap Z (list u8).
Record QuoteVerification := {
  qv_ek_cert_der : list u8; qv_ek_intermediates : list (list u8); qv_aik_pub : list u8; qv_quote_blob : list u8;
  qv_signature : list u8; qv_nonce : list u8; qv_pcrs : PcrSet; qv_now : Z }.
Record VerifiedQuote := { vq_vendor : Vendor; vq_policy_id : string; vq_pcr_digest : list u8 }.
Inductive RejectReason :=
  | EkChain (e : ChainError) | AikAttributes (e : AikRejection) | TpmMalformed (e : ParseError) | BadMagic | NotAQuote
  | NonceMismatch | SignatureInvalid | UnsupportedSigHash (alg : Z) | MissingPcr (idx : Z) | PcrDigestMismatch
  | PcrDigestNotSha384 | NotInRim.

(** What verify.rs uses of the [p256] crate beside [P256]. *)
Record Prehash (Q : P256) := {
  sig_from_scalars : list u8 → list u8 → option (EcdsaSig Q);
  verify_prehash : VerifyingKey Q → list u8 → EcdsaSig Q → bool }.
Arguments sig_from_scalars {Q} _ _ _.
Arguments verify_prehash {Q} _ _ _ _.

(** The loop that trims leading zeros. *)
Fixpoint trim_zeros (s : list u8) : list u8 :=
  match s with
  | b :: r => if (32 <? length s)%nat && bool_decide (b = Byte.x00) then trim_zeros r else s
  | [] => []
  end.
Definition pad32 (input : list u8) : list u8 :=
  let trimmed := trim_zeros input in
  let n := Nat.min (length trimmed) 32 in
  replicate (32 - n) Byte.x00 ++ drop (length trimmed - n) trimmed.

Definition ct_eq (a b : list u8) : bool := (length a =? length b)%nat && bool_decide (a = b).
Definition credential_secret_matches (expected got : list u8) : bool := ct_eq expected got.

Section Quotes.
Context (P : Primitives) (Q : P256) (H : Prehash Q) (X : X509).

(** The values fed to the hash for one selection, and for all of them. *)
Fixpoint pcr_values (pcrs : PcrSet) (idxs : list Z) : result RejectReason (list u8) :=
  match idxs with
  | [] => Ok []
  | idx :: idxs =>
      match pcrs !! idx with
      | None => Err (MissingPcr idx)
      | Some value => let? rest := pcr_values pcrs idxs in Ok (value ++ rest)
      end
  end.
Fixpoint selection_values (pcrs : PcrSet) (sel : list PcrSelection) : result RejectReason (list u8) :=
  match sel with
  | [] => Ok []
  | s :: sel =>
      if negb (ps_hash_alg s =? TPM_ALG_SHA384) then selection_values pcrs sel else
      let? here := pcr_values pcrs (selected_indices s) in
      let? rest := selection_values pcrs sel in
      Ok (here ++ rest)
  end.
Definition recompute_pcr_digest (q : QuoteInfo) (pcrs : PcrSet) : result RejectReason (list u8) :=
  let? input := selection_values pcrs (qi_pcr_selection q) in Ok (vec_to_list (sha384 P input)).

Definition verify_quote_signature (aik : EccPublic) (quote_blob signature : list u8) : result RejectReason unit :=
  let? sig := map_err TpmMalformed (ecdsa_parse signature) in
  let? prehash :=
    (if es_hash_alg sig =? TPM_ALG_SHA256 then Ok (vec_to_list (sha256 P quote_blob))
     else if es_hash_alg sig =? TPM_ALG_SHA384 then Ok (vec_to_list (sha384 P quote_blob))
     else Err (UnsupportedSigHash (es_hash_alg sig))) in
  match from_sec1 Q (Byte.x04 :: pad32 (ep_x aik) ++ pad32 (ep_y aik)) with
  | None => Err SignatureInvalid
  | Some vk =>
      match sig_from_scalars H (pad32 (es_r sig)) (pad32 (es_s sig)) with
      | None => Err SignatureInvalid
      | Some s => if verify_prehash H vk prehash s then Ok tt else Err SignatureInvalid
      end
  end.
Definition verify_aik_signature (aik_pub_marshaled message signature : list u8) : result RejectReason unit :=
  let? aik := map_err TpmMalformed (ecc_parse aik_pub_marshaled) in
  verify_quote_signature aik message signature.

(** [TpmQuoteVerifier::verify_quote] over the roots and the measurements of the verifier. *)
Definition verify_quote (trust : TrustStore) (rim : RimStore) (v : QuoteVerification) : result RejectReason VerifiedQuote :=
  let? vendor := map_err EkChain (verify_ek_chain X trust (qv_ek_cert_der v) (qv_ek_intermediates v) (qv_now v)) in
  let? aik := map_err TpmMalformed (ecc_parse (qv_aik_pub v)) in
  let? _ := map_err AikAttributes (check_aik aik) in
  let? quote := map_err TpmMalformed (quote_parse (qv_quote_blob v)) in
  if negb (qi_magic quote =? TPM_GENERATED_VALUE) then Err BadMagic else
  if negb (qi_attest_type quote =? TPM_ST_ATTEST_QUOTE) then Err NotAQuote else
  if negb (ct_eq (qi_extra_data quote) (qv_nonce v)) then Err NonceMismatch else
  let? _ := verify_quote_signature aik (qv_quote_blob v) (qv_signature v) in
  if negb (length (qi_pcr_digest quote) =? 48)%nat then Err PcrDigestNotSha384 else
  let? computed := recompute_pcr_digest quote (qv_pcrs v) in
  if negb (ct_eq computed (qi_pcr_digest quote)) then Err PcrDigestMismatch else
  match lookup_at computed (qv_now v) rim with
  | None => Err NotInRim
  | Some policy_id => Ok {| vq_vendor := vendor; vq_policy_id := policy_id; vq_pcr_digest := computed |}
  end.

(** ** Machine fingerprints (ferro-machineid) *)
Definition SEP : u8 := Byte.x1f.
Record MachineFacts := { mf_board_serial : string; mf_platform_uuid : string; mf_disk_serial : string }.
Definition norm (s : string) : string := to_ascii_uppercase (text_of (trim (chars s))).
Definition normalised (f : MachineFacts) : MachineFacts :=
  {| mf_board_serial := norm (mf_board_serial f); mf_platform_uuid := norm (mf_platform_uuid f);
     mf_disk_serial := norm (mf_disk_serial f) |}.
Definition fingerprint_input (f : MachineFacts) : list u8 :=
  let n := normalised f in
  as_bytes (mf_board_serial n) ++ [SEP] ++ as_bytes (mf_platform_uuid n) ++ [SEP] ++ as_bytes (mf_disk_serial n).
Definition fingerprint (f : MachineFacts) : list u8 := vec_to_list (sha384 P (fingerprint_input f)).
Definition is_complete (f : MachineFacts) : bool :=
  let n := normalised f in negb (String.eqb (mf_board_serial n) "") && negb (String.eqb (mf_platform_uuid n) "").

(** ** Host-key evidence (host_key.rs) *)
Inductive HostKeyRejection := FingerprintMismatch | BadFingerprintLen | NonceSignatureInvalid | CsrSignatureInvalid.
(** ferro-sep's message of phase 2. *)
Definition host_key_binding (nonce fp : list u8) : list u8 := nonce ++ fp.
Definition verify_host_key_evidence (board_serial platform_uuid disk_serial : string)
    (claimed_fingerprint sep_pub nonce signature : list u8) : result HostKeyRejection (list u8) :=
  if negb (length claimed_fingerprint =? 48)%nat then Err BadFingerprintLen else
  let fp := fingerprint {| mf_board_serial := board_serial; mf_platform_uuid := platform_uuid; mf_disk_serial := disk_serial |} in
  if negb (bool_decide (fp = claimed_fingerprint)) then Err FingerprintMismatch else
  let? _ := map_err (λ _, NonceSignatureInvalid) (verify_p256 Q sep_pub (host_key_binding nonce fp) signature) in
  Ok fp.
Definition verify_host_key_csr (sep_pub composite_pub signature : list u8) : result HostKeyRejection unit :=
  map_err (λ _, CsrSignatureInvalid) (verify_p256 Q sep_pub composite_pub signature).
End Quotes.

(** ** Chains *)
Section ChainProofs.
Context (X : X509) (roots : TrustStore) (intermediates : list (list u8)) (now : Z).

Definition valid_at (der : list u8) : Prop :=
  ∃ c, cert_from_der X der = Ok c ∧ cert_not_before X c ≤ now ≤ cert_not_after X c.
(** [parent] names the issuer of [child], and its key verifies the signature of [child]. *)
Definition issued (child parent : list u8) : Prop :=
  ∃ c p, cert_from_der X child = Ok c ∧ cert_from_der X parent = Ok p ∧ cert_subject X p = cert_issuer X c ∧
    cert_signed_by X c p = true.
(** [ek_path n der v]: a path of [n] certificates from [der] to a trusted root of [v], every one
    of them inside its window, each issued by the next. *)
Inductive ek_path : nat → list u8 → Vendor → Prop :=
  | path_is_root der r : valid_at der → r ∈ roots → root_der r = der → ek_path 1 der (root_vendor r)
  | path_root_issued der r : valid_at der → r ∈ roots → issued der (root_der r) → ek_path 1 der (root_vendor r)
  | path_intermediate n der next v :
      valid_at der → next ∈ intermediates → issued der next → ek_path n next v → ek_path (S n) der v.

Lemma cert_of_ok der c : cert_of X der = Ok c ↔ cert_from_der X der = Ok c.
Proof. unfold cert_of. destruct (cert_from_der X der); cbn; naive_solver. Qed.

Lemma parse_names_ok der subject issuer self :
  parse_names X der = Ok (subject, issuer, self) →
  ∃ c, cert_from_der X der = Ok c ∧ subject = cert_subject X c ∧ issuer = cert_issuer X c.
Proof.
  unfold parse_names. destruct (cert_of X der) as [c|] eqn:E; [|done]. apply cert_of_ok in E. intros [= <- <- _]. eauto.
Qed.

Lemma check_validity_ok der u : check_validity X der now = Ok u → valid_at der.
Proof.
  unfold check_validity. destruct (cert_of X der) as [c|] eqn:E; [|done]. apply cert_of_ok in E.
  destruct (_ || _) eqn:Ew; [done|]. apply orb_false_iff in Ew as [H1%Z.ltb_ge H2%Z.ltb_ge]. intros _. by exists c.
Qed.

(** The test both searches for an issuer make of a candidate. *)
Lemma issuer_hit child parent issuer_raw c :
  cert_from_der X child = Ok c → issuer_raw = cert_issuer X c →
  (let? (subject, _, _) := parse_names X parent in
   if bool_decide (subject = issuer_raw) then verify_signed_by X child parent else Ok false) = Ok true →
  issued child parent.
Proof.
  intros Hc Hi Ht. destruct (parse_names X parent) as [[[subject i] b]|] eqn:Ep; [|done].
  apply parse_names_ok in Ep as (p & Hp & -> & _).
  destruct (bool_decide_reflect (cert_subject X p = issuer_raw)) as [He|]; [|done].
  unfold verify_signed_by in Ht. rewrite (proj2 (cert_of_ok child c) Hc), (proj2 (cert_of_ok parent p) Hp) in Ht.
  injection Ht as Ht. exists c, p. split_and!; congruence.
Qed.

Lemma issuer_root_for_sound child c issuer_raw v :
  cert_from_der X child = Ok c → issuer_raw = cert_issuer X c →
  ∀ rs, issuer_root_for X rs issuer_raw child = Ok (Some v) → ∃ r, r ∈ rs ∧ root_vendor r = v ∧ issued child (root_der r).
Proof.
  intros Hc Hi. induction rs as [|r rs IH]; cbn [issuer_root_for]; [done|].
  pose proof (issuer_hit child (root_der r) issuer_raw c Hc Hi) as Hit.
  destruct (parse_names X (root_der r)) as [[[subject i] b]|]; [|done].
  destruct (if bool_decide (subject = issuer_raw) then _ else _) as [[]|]; [|intros ?|done].
  - intros [= <-]. exists r. split; [left|]. auto.
  - destruct IH as (r' & ? & ?); [done|]. exists r'. split; [by right|done].
Qed.

Lemma issuer_intermediate_for_sound child c issuer_raw next :
  cert_from_der X child = Ok c → issuer_raw = cert_issuer X c →
  ∀ its, issuer_intermediate_for X issuer_raw child its = Ok (Some next) → next ∈ its ∧ issued child next.
Proof.
  intros Hc Hi. induction its as [|i its IH]; cbn [issuer_intermediate_for]; [done|].
  pose proof (issuer_hit child i issuer_raw c Hc Hi) as Hit.
  destruct (parse_names X i) as [[[subject ii] b]|]; [|done].
  destruct (if bool_decide (subject = issuer_raw) then _ else _) as [[]|]; [|intros ?|done].
  - intros [= <-]. split; [left|]. auto.
  - destruct IH; [done|]. split; [by right|done].
Qed.

Lemma chain_loop_sound turns der v :
  chain_loop X turns roots intermediates now der = Ok v → ∃ n, (n ≤ turns)%nat ∧ ek_path n der v.
Proof.
  revert der. induction turns as [|turns IH]; intros der; cbn [chain_loop]; [done|].
  destruct (parse_names X der) as [[[subject issuer] self]|] eqn:Ep; [|done].
  destruct (check_validity X der now) as [u|] eqn:Ev; [|done]. apply check_validity_ok in Ev.
  apply parse_names_ok in Ep as (c & Hc & -> & Hi).
  destruct (if self then matching_root_vendor roots der else None) as [v'|] eqn:Em.
  { intros [= <-]. destruct self; [|done]. unfold matching_root_vendor in Em.
    destruct (List.find _ roots) as [r|] eqn:Ef; [|done]. apply List.find_some in Ef as [Hr Hd%bool_decide_eq_true].
    cbn in Em. injection Em as <-. exists 1%nat. split; [lia|]. apply path_is_root; [done|by apply list_elem_of_In|done]. }
  destruct (issuer_root_for X roots issuer der) as [[v'|]|] eqn:Er; [..|done].
  { intros [= <-]. destruct (issuer_root_for_sound der c issuer v' Hc Hi roots Er) as (r & Hr & <- & Hs).
    exists 1%nat. split; [lia|]. by apply path_root_issued. }
  destruct (issuer_intermediate_for X issuer der intermediates) as [[next|]|] eqn:Ei; [|done..].
  destruct (bool_decide _); [done|]. intros (n & Hn & Hp)%IH.
  destruct (issuer_intermediate_for_sound der c issuer next Hc Hi intermediates Ei).
  exists (S n). split; [lia|]. by eapply path_intermediate.
Qed.

Lemma verify_ek_chain_sound der v :
  verify_ek_chain X roots der intermediates now = Ok v → ∃ n, (n ≤ MAX_CHAIN_DEPTH)%nat ∧ ek_path n der v.
Proof. unfold verify_ek_chain. destruct roots eqn:E; [done|]. rewrite <- E. apply chain_loop_sound. Qed.
End ChainProofs.

(** ** Quotes *)
Section QuoteProofs.
Context (P : Primitives) (Q : P256) (H : Prehash Q) (X : X509).

(** [signed_by_aik aik message signature]: the parsed signature verifies under the key of [aik]
    over the SHA-256 or SHA-384 digest of [message]. *)
Definition signed_by_aik (aik : EccPublic) (message signature : list u8) : Prop :=
  ∃ sig vk s, ecdsa_parse signature = Ok sig ∧
    from_sec1 Q (Byte.x04 :: pad32 (ep_x aik) ++ pad32 (ep_y aik)) = Some vk ∧
    sig_from_scalars H (pad32 (es_r sig)) (pad32 (es_s sig)) = Some s ∧
    (es_hash_alg sig = TPM_ALG_SHA256 ∧ verify_prehash H vk (vec_to_list (sha256 P message)) s = true ∨
     es_hash_alg sig = TPM_ALG_SHA384 ∧ verify_prehash H vk (vec_to_list (sha384 P message)) s = true).

Lemma verify_quote_signature_ok aik message signature :
  verify_quote_signature P Q H aik message signature = Ok tt ↔ signed_by_aik aik message signature.
Proof.
  unfold verify_quote_signature, signed_by_aik. split.
  - destruct (ecdsa_parse signature) as [sig|]; [|done]. cbn [map_err].
    destruct (Z.eqb_spec (es_hash_alg sig) TPM_ALG_SHA256) as [E1|E1];
      [|destruct (Z.eqb_spec (es_hash_alg sig) TPM_ALG_SHA384) as [E2|E2]; [|done]];
      (destruct (from_sec1 Q _) as [vk|] eqn:Ek; [|done]); (destruct (sig_from_scalars H _ _) as [s|] eqn:Es; [|done]);
      (destruct (verify_prehash H vk _ s) eqn:Ev; [|done]); intros _; exists sig, vk, s; auto 12.
  - intros (sig & vk & s & Hp & Hk & Hs & Hv). rewrite Hp. cbn [map_err]. rewrite Hk, Hs.
    destruct Hv as [[-> Hv]|[-> Hv]];
      [change (TPM_ALG_SHA256 =? TPM_ALG_SHA256) with true|change (TPM_ALG_SHA384 =? TPM_ALG_SHA256) with false;
       change (TPM_ALG_SHA384 =? TPM_ALG_SHA384) with true]; cbn match; by rewrite Hv.
Qed.

Lemma ct_eq_spec a b : ct_eq a b = true ↔ a = b.
Proof.
  unfold ct_eq. rewrite andb_true_iff, bool_decide_eq_true. split; [by intros [_ ?]|]. intros ->. by rewrite Nat.eqb_refl.
Qed.

(** The PCRs the digest is over: of each SHA-384 selection, the selected indices. *)
Definition quoted_pcrs (q : QuoteInfo) : list Z :=
  concat (selected_indices <$> filter (λ s, ps_hash_alg s = TPM_ALG_SHA384) (qi_pcr_selection q)).
Definition pcr_concat (pcrs : PcrSet) (idxs : list Z) : list u8 := concat ((λ i, default [] (pcrs !! i)) <$> idxs).

Lemma pcr_values_ok pcrs idxs b :
  pcr_values pcrs idxs = Ok b ↔ Forall (λ i, is_Some (pcrs !! i)) idxs ∧ b = pcr_concat pcrs idxs.
Proof.
  unfold pcr_concat. revert b. induction idxs as [|i idxs IH]; intros b; cbn [pcr_values fmap list_fmap concat].
  { split; [intros [= <-]; done|]. by intros [_ ->]. }
  rewrite Forall_cons. destruct (pcrs !! i) as [v|] eqn:E; cbn [default].
  - destruct (pcr_values pcrs idxs) as [r|] eqn:Er.
    + destruct (proj1 (IH r) eq_refl) as [Hf ->]. split; [intros [= <-]; eauto|]. by intros [_ ->].
    + split; [done|]. intros [[_ Hf] _]. discriminate (proj2 (IH _) (conj Hf eq_refl)).
  - split; [done|]. intros [[[? ?] _] _]. done.
Qed.

Lemma selection_values_ok pcrs sel b :
  let idxs := concat (selected_indices <$> filter (λ s, ps_hash_alg s = TPM_ALG_SHA384) sel) in
  selection_values pcrs sel = Ok b ↔ Forall (λ i, is_Some (pcrs !! i)) idxs ∧ b = pcr_concat pcrs idxs.
Proof.
  cbn zeta. revert b. induction sel as [|s sel IH]; intros b; cbn [selection_values].
  { split; [intros [= <-]; done|]. by intros [_ ->]. }
  rewrite filter_cons. destruct (Z.eqb_spec (ps_hash_alg s) TPM_ALG_SHA384) as [E|E]; cbn [negb].
  - rewrite decide_True by done. cbn [fmap list_fmap concat]. unfold pcr_concat. rewrite fmap_app, concat_app, Forall_app.
    fold (pcr_concat pcrs (selected_indices s)). destruct (pcr_values pcrs (selected_indices s)) as [h|] eqn:Eh.
    + apply pcr_values_ok in Eh as [Hh ->]. destruct (selection_values pcrs sel) as [r|] eqn:Er.
      * destruct (proj1 (IH r) eq_refl) as [Hf ->]. split; [intros [= <-]; done|]. by intros [_ ->].
      * split; [done|]. intros [[_ Hf] _]. discriminate (proj2 (IH _) (conj Hf eq_refl)).
    + split; [done|]. intros [[Hh _] _]. by rewrite (proj2 (pcr_values_ok _ _ _) (conj Hh eq_refl)) in Eh.
  - rewrite decide_False by done. apply IH.
Qed.

Lemma recompute_ok q pcrs d :
  recompute_pcr_digest P q pcrs = Ok d ↔
  Forall (λ i, is_Some (pcrs !! i)) (quoted_pcrs q) ∧ d = vec_to_list (sha384 P (pcr_concat pcrs (quoted_pcrs q))).
Proof.
  unfold recompute_pcr_digest, quoted_pcrs. pose proof (selection_values_ok pcrs (qi_pcr_selection q)) as Hs. cbn zeta in Hs.
  destruct (selection_values pcrs (qi_pcr_selection q)) as [b|].
  - destruct (proj1 (Hs b) eq_refl) as [Hf ->]. split; [intros [= <-]; done|]. by intros [_ ->].
  - split; [done|]. intros [Hf _]. by specialize (proj2 (Hs _) (conj Hf eq_refl)).
Qed.

(** What an accepted quote is: the record of the facts the seven steps establish. *)
Record quote_facts (trust : TrustStore) (rim : RimStore) (v : QuoteVerification) (vq : VerifiedQuote)
    (aik : EccPublic) (a : TpmsAttest) : Prop := {
  qf_chain : verify_ek_chain X trust (qv_ek_cert_der v) (qv_ek_intermediates v) (qv_now v) = Ok (vq_vendor vq);
  qf_aik : ecc_parse (qv_aik_pub v) = Ok aik;
  qf_profile : aik_profile aik;
  qf_blob : qv_quote_blob v = marshal_attest a ∧ attest_ok a;
  qf_magic : qi_magic (at_quote a) = TPM_GENERATED_VALUE ∧ qi_attest_type (at_quote a) = TPM_ST_ATTEST_QUOTE;
  qf_nonce : qi_extra_data (at_quote a) = qv_nonce v;
  qf_signed : signed_by_aik aik (qv_quote_blob v) (qv_signature v);
  qf_pcrs : Forall (λ i, is_Some (qv_pcrs v !! i)) (quoted_pcrs (at_quote a));
  qf_digest : vq_pcr_digest vq = vec_to_list (sha384 P (pcr_concat (qv_pcrs v) (quoted_pcrs (at_quote a)))) ∧
              qi_pcr_digest (at_quote a) = vq_pcr_digest vq;
  qf_rim : lookup_at (vq_pcr_digest vq) (qv_now v) rim = Some (vq_policy_id vq) }.

Lemma verify_quote_ok trust rim v vq :
  verify_quote P Q H X trust rim v = Ok vq ↔ ∃ aik a, quote_facts trust rim v vq aik a.
Proof.
  unfold verify_quote. split.
  - destruct (verify_ek_chain _ _ _ _ _) as [vendor|] eqn:E1; [|done]. cbn [map_err].
    destruct (ecc_parse (qv_aik_pub v)) as [aik|] eqn:E2; [|done]. cbn [map_err].
    destruct (check_aik aik) as [[]|] eqn:E3; [|done]. cbn [map_err].
    destruct (quote_parse (qv_quote_blob v)) as [q|] eqn:E4; [|done]. cbn [map_err].
    destruct (Z.eqb_spec (qi_magic q) TPM_GENERATED_VALUE) as [E5|]; [|done]. cbn [negb].
    destruct (Z.eqb_spec (qi_attest_type q) TPM_ST_ATTEST_QUOTE) as [E6|]; [|done]. cbn [negb].
    destruct (ct_eq (qi_extra_data q) (qv_nonce v)) eqn:E7; [|done]. cbn [negb].
    destruct (verify_quote_signature _ _ _ _ _ _) as [[]|] eqn:E8; [|done].
    destruct (length (qi_pcr_digest q) =? 48)%nat; [|done]. cbn [negb].
    destruct (recompute_pcr_digest P q (qv_pcrs v)) as [d|] eqn:E10; [|done].
    destruct (ct_eq d (qi_pcr_digest q)) eqn:E11; [|done]. cbn [negb].
    destruct (lookup_at d (qv_now v) rim) as [p|] eqn:E12; [|done]. intros [= <-].
    apply quote_parse_ok in E4 as (a & <- & Ha & Hb). apply check_aik_ok in E3. apply ct_eq_spec in E7, E11.
    apply verify_quote_signature_ok in E8. apply recompute_ok in E10 as [Hf ->].
    exists aik, a. by split.
  - intros (aik & a & [Hc Ha Hp [Hb Hok] [Hm Ht] Hn Hs Hf [Hd1 Hd2] Hr]). rewrite Hc, Ha. cbn [map_err].
    rewrite (proj2 (check_aik_ok aik) Hp). cbn [map_err].
    rewrite (proj2 (quote_parse_ok _ (at_quote a))) by eauto. cbn [map_err].
    rewrite Hm, Ht, !Z.eqb_refl. cbn [negb]. rewrite (proj2 (ct_eq_spec _ _) Hn). cbn [negb].
    rewrite (proj2 (verify_quote_signature_ok _ _ _) Hs), Hd2, Hd1, length_vec_to_list. cbn [Nat.eqb negb].
    rewrite (proj2 (recompute_ok _ _ _) (conj Hf eq_refl)), (proj2 (ct_eq_spec _ _) eq_refl). cbn [negb].
    rewrite <- Hd1, Hr. by destruct vq.
Qed.
End QuoteProofs.

(** ** Fingerprints *)
Lemma app_sep_inj (sep : u8) a b a' b' :
  sep ∉ a → sep ∉ a' → a ++ [sep] ++ b = a' ++ [sep] ++ b' → a = a' ∧ b = b'.
Proof.
  revert a'. induction a as [|x a IH]; intros [|y a'] Ha Ha' E; cbn [app] in E; simplify_list_eq.
  - done.
  - exfalso. apply Ha'. left.
  - exfalso. apply Ha. left.
  - apply not_elem_of_cons in Ha as [_ Ha], Ha' as [_ Ha']. destruct (IH a' Ha Ha') as [-> ->]; done.
Qed.


(** Facts without the separator in the first two identifiers. *)
Definition separable (f : MachineFacts) : Prop :=
  (SEP ∉ as_bytes (mf_board_serial (normalised f))) ∧ (SEP ∉ as_bytes (mf_platform_uuid (normalised f))).

Lemma fingerprint_input_inj f g :
  separable f → separable g → fingerprint_input f = fingerprint_input g → normalised f = normalised g.
Proof.
  intros [Hf1 Hf2] [Hg1 Hg2] E. unfold fingerprint_input in E. cbn zeta in E.
  apply app_sep_inj in E as [E1 E]; [|done..]. apply app_sep_inj in E as [E2 E3]; [|done..].
  apply as_bytes_inj in E1, E2, E3. destruct (normalised f), (normalised g). cbn in *. by subst.
Qed.

(** ** Theorems *)

(** C11: an accepted quote.  When [verify_quote] accepts evidence against a store of measurements reached by
    any history, then: at most eight certificates, each inside its window and issued by the next, lead from
    the presented endorsement certificate to a trusted root of the answered vendor; the attestation key has
    exactly the required attributes; the quote body is a well-formed TPM quote carrying the nonce it was
    asked for, signed by that key; every PCR it selects was supplied, and their SHA-384 digest is the one in
    the quote; and that digest was approved by hand or by a generation that is inside its window and came
    from a bundle a trusted publisher signed, under a policy id that is never the host-key one. *)
Theorem quote_acceptance_sound (P : Primitives) (Q : P256) (H : Prehash Q) (X : X509)
    `{BJ : !Json RimBundle, SJ : !Json SignedRimBundle} (hex_decode : string → option (list u8)) (keys : TrustedKeys P)
    trust rim v vq :
  rim_reachable P hex_decode keys rim →
  verify_quote P Q H X trust rim v = Ok vq →
  (∃ n, (n ≤ MAX_CHAIN_DEPTH)%nat ∧
     ek_path X trust (qv_ek_intermediates v) (qv_now v) n (qv_ek_cert_der v) (vq_vendor vq)) ∧
  (∃ aik a, quote_facts P Q H X trust rim v vq aik a) ∧
  is_reserved (vq_policy_id vq) = false ∧
  (rs_manual rim !! vq_pcr_digest vq = Some (vq_policy_id vq) ∨
   ∃ g, g ∈ rs_generations rim ∧ gen_published P hex_decode keys g ∧ rg_policy_id g = vq_policy_id vq ∧
     rg_not_before g ≤ qv_now v < rg_not_after g ∧ vq_pcr_digest vq ∈ rg_approved g).
Proof.
  intros Hr (aik & a & Hq)%verify_quote_ok. pose proof (rim_reachable_inv P hex_decode keys rim Hr) as Hi.
  split; [exact (verify_ek_chain_sound X _ _ _ _ _ (qf_chain _ _ _ _ _ _ _ _ _ _ Hq))|]. split; [by exists aik, a|].
  pose proof (qf_rim _ _ _ _ _ _ _ _ _ _ Hq) as Hl. split; [exact (lookup_at_not_reserved P hex_decode keys _ _ _ _ Hi Hl)|].
  apply lookup_at_spec in Hl as [?|(_ & older & g & newer & Hg & Hp & Hw & Hd & _)]; [by left|]. right. exists g.
  assert (Hin : g ∈ rs_generations rim) by (rewrite Hg; apply elem_of_app; right; left).
  pose proof (ri_published _ _ _ _ Hi) as Hpub. rewrite Forall_forall in Hpub. auto.
Qed.

(** host-key evidence.  Accepted evidence carries the digest of the presented facts and a signature of the
    presented machine key over the server's nonce and that digest; and two hosts whose first two identifiers
    do not contain the separator get the same fingerprint only if their normalised identifiers agree, or
    SHA-384 collides on what was hashed. *)
Theorem host_key_evidence_sound (P : Primitives) (Q : P256) b p d claimed sep_pub nonce signature fp :
  verify_host_key_evidence P Q b p d claimed sep_pub nonce signature = Ok fp →
  let f := {| mf_board_serial := b; mf_platform_uuid := p; mf_disk_serial := d |} in
  fp = claimed ∧ fp = fingerprint P f ∧ length fp = 48%nat ∧
  verify_p256 Q sep_pub (nonce ++ fp) signature = Ok tt ∧
  (∀ g, separable f → separable g → fingerprint P g = fp →
     normalised g = normalised f ∨
     fingerprint_input g ≠ fingerprint_input f ∧ sha384 P (fingerprint_input g) = sha384 P (fingerprint_input f)).
Proof.
  unfold verify_host_key_evidence. cbn zeta. destruct (length claimed =? 48)%nat eqn:El; [|done]. cbn [negb].
  destruct (bool_decide_reflect (fingerprint P {| mf_board_serial := b; mf_platform_uuid := p; mf_disk_serial := d |} = claimed))
    as [Ec|]; [|done]. cbn [negb].
  destruct (verify_p256 _ _ _ _) as [[]|] eqn:Ev; [|done]. cbn [map_err]. intros [= <-]. apply Nat.eqb_eq in El.
  split; [done|]. split; [done|]. split; [congruence|]. split; [exact Ev|]. intros g Hf Hg Eg.
  destruct (decide (fingerprint_input g = fingerprint_input {| mf_board_serial := b; mf_platform_uuid := p; mf_disk_serial := d |})) as [E|E].
  - left. by apply fingerprint_input_inj.
  - right. split; [done|]. by apply vec_to_list_inj2 in Eg.
Qed.
