(* ===== verification/Fleet.v ===== *)
(** The fleet manifest (cmis/src/fleet_manifest.rs): which hosts may attest, and which machine
    keys the operator asserts for hosts without a TPM.  A manifest is applied only when a
    trusted publisher key signed it and it is newer than the one in force. *)
From stdpp Require Import gmap relations.
From S2P Require Import Prelude AppModel AppDedup Order Composite AllowlistV2 AppPath Svid HelperProto CallerAuth Rim.
Open Scope Z_scope.

Definition FLEET_SIGNING_CONTEXT : list u8 := as_bytes "ferrogate-fleet-v1".
Definition EK_SHA_HEX_LEN : nat := 96.

Record MachinePubkey := { mk_fingerprint : string; mk_sep_pub_b64 : string }.
Record FleetManifest := {
  fm_version : Z; fm_trust_domain : string; fm_issued_at : Z; fm_enrolled_ek_sha384 : list string;
  fm_enrolled_machine_id : list string; fm_enrolled_machine_pubkey : list MachinePubkey }.
Record SignedFleetManifest := { sf_manifest : FleetManifest; sf_signer_kid : string; sf_signature_b64 : string }.
Inductive FleetError :=
  | FleetJson (e : string) | FleetSign (e : CompositeError) | FleetUnknownKid (kid : string) | FleetBadSignature (e : string)
  | BadEkHash (kind : string) (i : nat).

(** [EnrolledHosts]. *)
Record EnrolledHosts := {
  eh_version : Z; eh_enforced : bool; eh_hashes : gset (list u8); eh_prereg : gmap (list u8) (list u8) }.
Definition unenforced : EnrolledHosts := {| eh_version := 0; eh_enforced := false; eh_hashes := ∅; eh_prereg := ∅ |}.
Inductive EnrollmentDecision := NotEnforced | Enrolled | Rejected.
#[export] Instance EnrollmentDecision_eq_dec : EqDecision EnrollmentDecision.
Proof. solve_decision. Defined.
Definition preregistered (h : EnrolledHosts) (fp : list u8) : option (list u8) := eh_prereg h !! fp.
Definition enrolled_contains (h : EnrolledHosts) (sha : list u8) : bool := bool_decide (sha ∈ eh_hashes h).
Definition enrolled_len (h : EnrolledHosts) : nat := size (eh_hashes h).
Definition fleet_decide (h : EnrolledHosts) (sha : list u8) : EnrollmentDecision :=
  if negb (eh_enforced h) then NotEnforced else if enrolled_contains h sha then Enrolled else Rejected.

(** [str::trim] as a string. *)
Definition trim_str (s : string) : string := text_of (trim (chars s)).

Section Fleet.
Context (P : Primitives) `{FJ : !Json FleetManifest, GJ : !Json SignedFleetManifest}.
Context (hex_decode : string → option (list u8)).
Local Abbreviation SecretKey := (CompositeSecretKey (EdSk P) (MlSk P)).

(** [copy_from_slice] of the decoded bytes, 48 of them since [hex::decode] halves 96 characters. *)
Definition decode_host_digest (h kind : string) (i : nat) : result FleetError (list u8) :=
  let h := trim_str h in
  if negb (String.length h =? EK_SHA_HEX_LEN)%nat then Err (BadEkHash kind i) else
  match hex_decode h with None => Err (BadEkHash kind i) | Some bytes => Ok bytes end.

(** The three loops of [to_enrolled], from index [i]. *)
Fixpoint insert_digests (kind : string) (i : nat) (l : list string) (hashes : gset (list u8)) : result FleetError (gset (list u8)) :=
  match l with
  | [] => Ok hashes
  | h :: l => let? d := decode_host_digest h kind i in insert_digests kind (S i) l ({[d]} ∪ hashes)
  end.
Fixpoint insert_pubkeys (i : nat) (l : list MachinePubkey) (acc : gset (list u8) * gmap (list u8) (list u8)) :
    result FleetError (gset (list u8) * gmap (list u8) (list u8)) :=
  match l with
  | [] => Ok acc
  | m :: l =>
      let? fp := decode_host_digest (mk_fingerprint m) "machine_pubkey" i in
      match b64url_decode P (trim_str (mk_sep_pub_b64 m)) with
      | None => Err (BadEkHash "machine_pubkey key" i)
      | Some pk =>
          if bool_decide (pk = []) then Err (BadEkHash "machine_pubkey empty" i)
          else insert_pubkeys (S i) l ({[fp]} ∪ acc.1, <[fp := pk]> acc.2)
      end
  end.
Definition to_enrolled (m : FleetManifest) : result FleetError EnrolledHosts :=
  let? hashes := insert_digests "ek" 0 (fm_enrolled_ek_sha384 m) ∅ in
  let? hashes := insert_digests "machine" 0 (fm_enrolled_machine_id m) hashes in
  let? (hashes, prereg) := insert_pubkeys 0 (fm_enrolled_machine_pubkey m) (hashes, ∅) in
  Ok {| eh_version := fm_version m; eh_enforced := true; eh_hashes := hashes; eh_prereg := prereg |}.

Definition fleet_canonical_json (m : FleetManifest) : result FleetError (list u8) := map_err FleetJson (to_vec m).
Definition fleet_sign (m : FleetManifest) (signer_kid : string) (signer : SecretKey) (rng : result string (list u8)) :
    result FleetError SignedFleetManifest :=
  let? bytes := fleet_canonical_json m in
  let? sig := map_err FleetSign (composite_sign P signer rng FLEET_SIGNING_CONTEXT bytes) in
  Ok {| sf_manifest := m; sf_signer_kid := signer_kid; sf_signature_b64 := b64url_encode P (sig_to_concat_bytes sig) |}.
Definition fleet_from_json (json : list u8) : result FleetError SignedFleetManifest := map_err FleetJson (from_slice json).
Definition fleet_verify (s : SignedFleetManifest) (trust : TrustedKeys P) : result FleetError FleetManifest :=
  match trusted_get P (sf_signer_kid s) trust with
  | None => Err (FleetUnknownKid (sf_signer_kid s))
  | Some pk =>
      match b64url_decode P (sf_signature_b64 s) with
      | None => Err (FleetBadSignature "base64url")
      | Some sig_bytes =>
          let? sig := map_err (λ _, FleetBadSignature "length") (sig_from_concat_bytes sig_bytes) in
          let? payload := fleet_canonical_json (sf_manifest s) in
          let? _ := map_err (λ _, FleetBadSignature "verify") (composite_verify P pk FLEET_SIGNING_CONTEXT payload sig) in
          Ok (sf_manifest s)
      end
  end.

Inductive FleetReloadOutcome := FleetApplied (version : Z) (enrolled : nat) | FleetUpToDate (version : Z).
Inductive FleetReloadError := FleetIo | FleetManifestError (e : FleetError).

(** [file] is what reading the path gave; the loader is the only writer of the store. *)
Definition fleet_try_reload (file : option (list u8)) (trust : TrustedKeys P) (h : EnrolledHosts) :
    result FleetReloadError FleetReloadOutcome * EnrolledHosts :=
  match file with
  | None => (Err FleetIo, h)
  | Some bytes =>
      match (let? signed := fleet_from_json bytes in fleet_verify signed trust) with
      | Err e => (Err (FleetManifestError e), h)
      | Ok manifest =>
          if fm_version manifest <=? eh_version h then (Ok (FleetUpToDate (eh_version h)), h) else
          match to_enrolled manifest with
          | Err e => (Err (FleetManifestError e), h)
          | Ok enrolled => (Ok (FleetApplied (eh_version enrolled) (enrolled_len enrolled)), enrolled)
          end
      end
  end.

(** ** Histories *)
Definition manifest_signed (trust : TrustedKeys P) (m : FleetManifest) : Prop :=
  ∃ kid pk payload sig, trust !! kid = Some pk ∧ to_vec m = Ok payload ∧
    composite_verify P pk FLEET_SIGNING_CONTEXT payload sig = Ok tt.
Definition fleet_step (trust : TrustedKeys P) (h h' : EnrolledHosts) : Prop := ∃ file, h' = (fleet_try_reload file trust h).2.
(** What is enrolled: nothing is enforced yet, or it is the content of a signed manifest. *)
Definition fleet_sound (trust : TrustedKeys P) (h : EnrolledHosts) : Prop :=
  h = unenforced ∨ ∃ m, manifest_signed trust m ∧ to_enrolled m = Ok h.
End Fleet.

(** ** Theorems *)
Section FleetTheorems.
Context (P : Primitives) `{FJ : !Json FleetManifest, GJ : !Json SignedFleetManifest}.
Context (hex_decode : string → option (list u8)) (trust : TrustedKeys P).
Local Abbreviation to_enrolled := (to_enrolled P hex_decode).
Local Abbreviation fleet_step := (fleet_step P hex_decode trust).
Local Abbreviation fleet_sound := (fleet_sound P hex_decode trust).

Lemma fleet_verify_ok s m : fleet_verify P s trust = Ok m → m = sf_manifest s ∧ manifest_signed P trust m.
Proof.
  unfold fleet_verify, trusted_get, fleet_canonical_json. destruct (trust !! sf_signer_kid s) as [pk|] eqn:Ek; [|done].
  destruct (b64url_decode P _) as [raw|]; [|done]. destruct (sig_from_concat_bytes raw) as [sig|]; [|done].
  cbn [map_err]. destruct (to_vec (sf_manifest s)) as [payload|] eqn:Ej; [|done]. cbn [map_err].
  destruct (composite_verify _ _ _ _ _) as [[]|] eqn:Ev; [|done]. cbn [map_err]. intros [= <-]. split; [done|].
  exists (sf_signer_kid s), pk, payload, sig. done.
Qed.

Lemma to_enrolled_enforced m h : to_enrolled m = Ok h → eh_enforced h = true ∧ eh_version h = fm_version m.
Proof.
  unfold Fleet.to_enrolled. destruct (insert_digests _ "ek" _ _ _) as [h1|]; [|done].
  destruct (insert_digests _ "machine" _ _ _) as [h2|]; [|done].
  destruct (insert_pubkeys _ _ _ _ _) as [[h3 pr]|]; [|done]. by intros [= <-].
Qed.

(** A reload leaves what is enrolled, or replaces it by a newer signed manifest. *)
Lemma fleet_step_cases h h' : fleet_step h h' →
  h' = h ∨ ∃ m, manifest_signed P trust m ∧ to_enrolled m = Ok h' ∧ eh_version h < eh_version h'.
Proof.
  intros [file ->]. unfold fleet_try_reload. destruct file as [bytes|]; [|by left].
  destruct (fleet_from_json bytes) as [s|]; [|by left]. destruct (fleet_verify P s trust) as [m|] eqn:Ev; [|by left].
  apply fleet_verify_ok in Ev as [-> Hs]. destruct (Z.leb_spec (fm_version (sf_manifest s)) (eh_version h)); [by left|].
  destruct (to_enrolled (sf_manifest s)) as [h'|] eqn:Ee; [|by left]. right. exists (sf_manifest s).
  apply to_enrolled_enforced in Ee as He. destruct He as [_ He]. cbn [snd]. rewrite He. auto.
Qed.

(** Pre-registered fingerprints are enrolled, and their keys are not empty. *)
Definition prereg_enrolled (h : EnrolledHosts) : Prop :=
  ∀ fp pk, eh_prereg h !! fp = Some pk → fp ∈ eh_hashes h ∧ pk ≠ [].

Lemma insert_pubkeys_enrolled i l acc acc' :
  (∀ fp pk, acc.2 !! fp = Some pk → fp ∈ acc.1 ∧ pk ≠ []) → insert_pubkeys P hex_decode i l acc = Ok acc' →
  ∀ fp pk, acc'.2 !! fp = Some pk → fp ∈ acc'.1 ∧ pk ≠ [].
Proof.
  revert i acc. induction l as [|m l IH]; intros i acc Ha; cbn [insert_pubkeys]; [by intros [= <-]|].
  destruct (decode_host_digest _ _ _ _) as [d|]; [|done]. destruct (b64url_decode P _) as [pk|]; [|done].
  destruct (bool_decide_reflect (pk = [])) as [|Hne]; [done|]. apply IH. cbn [fst snd]. intros fp k.
  destruct (decide (fp = d)) as [->|Hd].
  - rewrite lookup_insert_eq. intros [= <-]. split; [set_solver|done].
  - rewrite lookup_insert_ne by done. intros [H1 H2]%Ha. split; [set_solver|done].
Qed.

Lemma to_enrolled_prereg m h : to_enrolled m = Ok h → prereg_enrolled h.
Proof.
  unfold Fleet.to_enrolled, prereg_enrolled. destruct (insert_digests _ "ek" _ _ _) as [h1|]; [|done].
  destruct (insert_digests _ "machine" _ _ _) as [h2|]; [|done].
  destruct (insert_pubkeys _ _ _ _ _) as [[h3 pr]|] eqn:E; [|done]. intros [= <-]. cbn [eh_prereg eh_hashes].
  refine (insert_pubkeys_enrolled _ _ _ _ _ E). intros fp pk. cbn [snd]. by rewrite lookup_empty.
Qed.

Lemma fleet_history_inv h h' : fleet_sound h → rtc fleet_step h h' →
  fleet_sound h' ∧ eh_version h ≤ eh_version h' ∧ (eh_enforced h = true → eh_enforced h' = true).
Proof.
  intros Hs Hr. induction Hr as [h|h1 h2 h3 H12 _ IH]; [split_and!; [done|lia|done]|].
  destruct (fleet_step_cases h1 h2 H12) as [->|(m & Hm & He & Hv)]; [by apply IH|].
  destruct IH as (H1 & H2 & H3); [right; eauto|]. apply to_enrolled_enforced in He as [He _]. split; [done|].
  split; [lia|auto].
Qed.
End FleetTheorems.

(** enrolment over every history of reloads.  What is enrolled is either the initial set, which enforces
    nothing, or the content of a manifest whose canonical form a trusted publisher key signed; the version
    never goes back; once a manifest is in force, enforcement stays on, so that a host outside every signed
    manifest is rejected; and a fingerprint with an asserted machine key is itself enrolled. *)
Theorem fleet_history_sound (P : Primitives) `{FJ : !Json FleetManifest, GJ : !Json SignedFleetManifest}
    (hex_decode : string → option (list u8)) (trust : TrustedKeys P) h h' :
  rtc (fleet_step P hex_decode trust) unenforced h →
  rtc (fleet_step P hex_decode trust) h h' →
  (h' = unenforced ∨ ∃ m, manifest_signed P trust m ∧ to_enrolled P hex_decode m = Ok h' ∧ prereg_enrolled h') ∧
  eh_version h ≤ eh_version h' ∧
  (eh_enforced h = true → ∀ sha, fleet_decide h' sha = if decide (sha ∈ eh_hashes h') then Enrolled else Rejected).
Proof.
  intros H0 H1. destruct (fleet_history_inv P hex_decode trust unenforced h) as (Hs & _ & _); [by left|done|].
  destruct (fleet_history_inv P hex_decode trust h h' Hs H1) as (Hs' & Hv & He). split; [|split; [done|]].
  - destruct Hs' as [->|(m & Hm & Hto)]; [by left|]. right. exists m. split_and!; [done..|]. by eapply to_enrolled_prereg.
  - intros Hen sha. unfold fleet_decide, enrolled_contains. rewrite (He Hen). cbn [negb].
    by destruct (decide (sha ∈ eh_hashes h')), (bool_decide_reflect (sha ∈ eh_hashes h')).
Qed.
