(* ===== verification/AttestWitnesses.v ===== *)
(** The theorems on attestation applied to one TPM and one host key, over toy certificates and
    curves, with one signed bundle of measurements and one signed fleet manifest. *)
From stdpp Require Import gmap relations.
From S2P Require Import Prelude AppModel AppDedup Order Composite AllowlistV2 AllowlistCompile AppPath MiaAllowlist HostCache Svid HostAuth HostWitnesses HelperProto CallerAuth Tpm Rim Attest Fleet.
Open Scope Z_scope.

(** ** Certificates of three bytes: subject, issuer, signer *)
Definition toy_x509 : X509 := {|
  Certificate := list u8; cert_from_der b := if (length b =? 3)%nat then Ok b else Err "der";
  cert_subject c := take 1 c; cert_issuer c := take 1 (drop 1 c); cert_not_before _ := 0; cert_not_after _ := 10000;
  cert_signed_by c p := bytes_eqb (drop 2 c) (take 1 p); pem_blocks _ := [] |}.
Definition toy_trust : TrustStore := [{| root_der := [Byte.x01; Byte.x01; Byte.x01]; root_vendor := Nuvoton |}].
Definition intermediate : list u8 := [Byte.x02; Byte.x01; Byte.x01].
Definition toy_ek : list u8 := [Byte.x03; Byte.x02; Byte.x02].
Definition toy_prehash : Prehash toy_p256 :=
  Build_Prehash toy_p256 (λ r s, Some (r ++ s)) (λ vk m s, bytes_eqb s (vec_to_list (toy_hash 64 (vk ++ m)))).

(** ** A quote *)
Definition toy_aik : EccPublic :=
  {| ep_attributes := 2 ^ 1 + 2 ^ 4 + 2 ^ 5 + 2 ^ 16 + 2 ^ 18; ep_curve_id := TPM_ECC_NIST_P256; ep_scheme := TPM_ALG_ECDSA;
     ep_scheme_hash := TPM_ALG_SHA256; ep_x := replicate 32 Byte.x11; ep_y := replicate 32 Byte.x12 |}.
Definition aik_bytes : list u8 := marshal_public {| tp_ecc := toy_aik; tp_name_alg := TPM_ALG_SHA256; tp_auth_policy := [] |}.
Definition toy_nonce : list u8 := replicate 32 Byte.x21.
Definition pcr0 : list u8 := replicate 48 Byte.x31.
Definition pcr_digest : list u8 := vec_to_list (sha384 toy_primitives pcr0).
Definition quote_bytes : list u8 := marshal_attest {|
  at_quote := {| qi_magic := TPM_GENERATED_VALUE; qi_attest_type := TPM_ST_ATTEST_QUOTE; qi_extra_data := toy_nonce;
                 qi_pcr_selection := [{| ps_hash_alg := TPM_ALG_SHA384; ps_bitmap := [Byte.x01; Byte.x00; Byte.x00] |}]; qi_pcr_digest := pcr_digest |};
  at_qualified_signer := []; at_clock_info := replicate 17 Byte.x00; at_firmware_version := replicate 8 Byte.x00 |}.
(** The signature of the key over a message. *)
Definition aik_sign (m : list u8) : list u8 :=
  let s := vec_to_list (toy_hash 64 ((Byte.x04 :: replicate 32 Byte.x11 ++ replicate 32 Byte.x12) ++ vec_to_list (sha256 toy_primitives m))) in
  marshal_signature {| es_hash_alg := TPM_ALG_SHA256; es_r := take 32 s; es_s := drop 32 s |}.
Definition toy_quote : QuoteVerification :=
  {| qv_ek_cert_der := toy_ek; qv_ek_intermediates := [intermediate]; qv_aik_pub := aik_bytes; qv_quote_blob := quote_bytes;
     qv_signature := aik_sign quote_bytes; qv_nonce := toy_nonce; qv_pcrs := {[ 0 := pcr0 ]}; qv_now := 1000 |}.

(** ** Signed files *)
#[export] Instance bundle_json : Json RimBundle := {|
  to_vec b := Ok (put_fields (zf (rb_version b) :: as_bytes (rb_policy_id b) :: zf (rb_not_before b) :: zf (rb_not_after b) ::
                  (as_bytes <$> rb_approved_digests_hex b)));
  from_slice _ := Err "unused" |}.
Definition toy_bundle : RimBundle :=
  {| rb_version := 3; rb_policy_id := "fleet-a"; rb_not_before := 0; rb_not_after := 5000;
     rb_approved_digests_hex := [toy_hex_encode pcr_digest] |}.
Definition toy_keys : TrustedKeys toy_primitives := {[ "pub" := public_of toy_primitives toy_sk ]}.
Definition signed_bundle : SignedRimBundle :=
  match rim_sign toy_primitives toy_bundle "pub" toy_sk (Ok []) with
  | Ok s => s | Err _ => {| sr_bundle := toy_bundle; sr_signer_kid := ""; sr_signature_b64 := "" |} end.
#[export] Instance signed_bundle_json : Json SignedRimBundle := {| to_vec _ := Ok []; from_slice _ := Ok signed_bundle |}.
Definition rim1 : RimStore := (try_reload toy_primitives toy_hex_decode (Some []) toy_keys rim_new rim_new).2.
Lemma rim1_reachable : rim_reachable toy_primitives toy_hex_decode toy_keys rim1.
Proof. apply rtc_once. apply step_reload. Defined.

Lemma toy_ek_path : ek_path toy_x509 toy_trust [intermediate] 1000 2 toy_ek Nuvoton.
Proof.
  eapply path_intermediate with (next := intermediate); [by exists toy_ek|by left|by exists toy_ek, intermediate|].
  change Nuvoton with (root_vendor {| root_der := [Byte.x01; Byte.x01; Byte.x01]; root_vendor := Nuvoton |}).
  apply path_root_issued; [by exists intermediate|by left|by exists intermediate, [Byte.x01; Byte.x01; Byte.x01]].
Qed.
Lemma quote_acceptance_sound_witness :
  ∃ vq, verify_quote toy_primitives toy_p256 toy_prehash toy_x509 toy_trust rim1 toy_quote = Ok vq ∧
    ek_path toy_x509 toy_trust [intermediate] 1000 2 toy_ek Nuvoton ∧ is_reserved (vq_policy_id vq) = false.
Proof.
  assert (is_ok (verify_quote toy_primitives toy_p256 toy_prehash toy_x509 toy_trust rim1 toy_quote) = true) as Hok by (vm_compute; reflexivity).
  destruct (is_ok_eq _ Hok) as [vq Hvq]. exists vq. split; [exact Hvq|].
  destruct (quote_acceptance_sound toy_primitives toy_p256 toy_prehash toy_x509 toy_hex_decode toy_keys toy_trust rim1 toy_quote vq rim1_reachable Hvq)
    as (_ & _ & Hr & _). split; [|exact Hr].
  exact toy_ek_path.
Defined.

Lemma rim_history_sound_witness :
  lookup_at pcr_digest 1000 rim1 = Some "fleet-a" ∧ rs_last_version rim1 = 3 ∧
  (∀ digest now p, lookup_at digest now rim1 = Some p → is_reserved p = false).
Proof.
  split; [vm_compute; reflexivity|]. split; [vm_compute; reflexivity|].
  exact (proj2 (proj2 (proj2 (proj2 (rim_history_sound toy_primitives toy_hex_decode toy_keys rim_new rim1 (rtc_refl _ _) rim1_reachable))))).
Defined.

(** ** A host key *)
Definition toy_facts : MachineFacts := {| mf_board_serial := "b1 "; mf_platform_uuid := "u-2"; mf_disk_serial := "d3" |}.
Definition toy_fp : list u8 := fingerprint toy_primitives toy_facts.
Definition machine_sign (m : list u8) : list u8 := vec_to_list (toy_hash 32 (machine_key ++ m)).
Lemma host_key_evidence_sound_witness :
  verify_host_key_evidence toy_primitives toy_p256 "b1 " "u-2" "d3" toy_fp machine_key toy_nonce (machine_sign (toy_nonce ++ toy_fp)) = Ok toy_fp ∧
  length toy_fp = 48%nat.
Proof.
  assert (verify_host_key_evidence toy_primitives toy_p256 "b1 " "u-2" "d3" toy_fp machine_key toy_nonce (machine_sign (toy_nonce ++ toy_fp))
    = Ok toy_fp) as Hv by (vm_compute; reflexivity).
  split; [exact Hv|]. exact (proj1 (proj2 (proj2 (host_key_evidence_sound _ _ _ _ _ _ _ _ _ _ Hv)))).
Defined.

(** ** A fleet manifest with the host key *)
#[export] Instance manifest_json : Json FleetManifest := {| to_vec m := Ok (zf (fm_version m)); from_slice _ := Err "unused" |}.
Definition toy_manifest : FleetManifest :=
  {| fm_version := 7; fm_trust_domain := "t"; fm_issued_at := 0; fm_enrolled_ek_sha384 := [toy_hex_encode (vec_to_list (sha384 toy_primitives toy_ek))];
     fm_enrolled_machine_id := []; fm_enrolled_machine_pubkey := [{| mk_fingerprint := toy_hex_encode toy_fp; mk_sep_pub_b64 := toy_hex_encode machine_key |}] |}.
Definition signed_manifest : SignedFleetManifest :=
  match fleet_sign toy_primitives toy_manifest "pub" toy_sk (Ok []) with
  | Ok s => s | Err _ => {| sf_manifest := toy_manifest; sf_signer_kid := ""; sf_signature_b64 := "" |} end.
#[export] Instance signed_manifest_json : Json SignedFleetManifest := {| to_vec _ := Ok []; from_slice _ := Ok signed_manifest |}.
Definition fleet1 : EnrolledHosts := (fleet_try_reload toy_primitives toy_hex_decode (Some []) toy_keys unenforced).2.
Lemma fleet1_reached : rtc (fleet_step toy_primitives toy_hex_decode toy_keys) unenforced fleet1.
Proof. apply rtc_once. by exists (Some []). Defined.
Lemma fleet_history_sound_witness :
  eh_version fleet1 = 7 ∧ eh_enforced fleet1 = true ∧ preregistered fleet1 toy_fp = Some machine_key ∧
  ∀ sha, fleet_decide fleet1 sha = if decide (sha ∈ eh_hashes fleet1) then Enrolled else Rejected.
Proof.
  split; [vm_compute; reflexivity|]. split; [vm_compute; reflexivity|]. split; [vm_compute; reflexivity|].
  refine (proj2 (proj2 (fleet_history_sound toy_primitives toy_hex_decode toy_keys fleet1 fleet1 fleet1_reached (rtc_refl _ _))) _).
  vm_compute. reflexivity.
Defined.
