(* ===== verification/CmisState.v ===== *)
(** The state of an identity server (cmis/src/state.rs) and the stored form of its records
    (cluster_store.rs), with the flows that use them.

    A [flow] is what an asynchronous handler does between two awaits or locks, as a tree of
    calls: accesses to the node's memory (each under its lock), statements of the replicated
    store, the clock, random bytes, the audit log, the messages of a stream and the credential
    wrapper.  The sources use [async] functions; a flow is one of them. *)
From stdpp Require Import gmap.
From S2P Require Import Prelude AppModel AppDedup Order Composite AllowlistV2 AllowlistCompile AppPath HostCache Svid HostAuth HelperProto CallerAuth Tpm Rim Attest Fleet.
Open Scope Z_scope.

(** ** Audit events (ferro-audit/src/event.rs) *)
Inductive AuditEvent :=
  | AttestStart (ek_sha aik_sha : list u8) (policy_id : string)
  | AttestFail (reason : string)
  | SvidIssued (cert_sha : list u8) (spiffe_id : string)
  | SvidRevoked (cert_sha : list u8) (reason : string) (by_admin_id : option string)
  | HostRevoked (spiffe_id reason : string) (by_admin_id : option string)
  | HostUnrevoked (spiffe_id reason : string) (by_admin_id : option string) (svid_cert_sha : option (list u8))
  | HostEnrolled (ek_sha : list u8)
  | HostRejected (ek_sha : list u8) (reason : string)
  | PolicyEpochBumped (old_epoch new_epoch : Z) (reason : string) (by_admin_id : option string)
  | AllowlistSet (host_uuid : string) (entry_count not_after : Z) (by_admin_id : option string)
  | AllowlistDeleted (host_uuid : string) (by_admin_id : option string)
  | AllowlistProposed (host_uuid : string) (entry_count : Z) (proposer_spiffe_id : string)
  | AllowlistAutoAdopted (host_uuid : string) (entry_count not_after : Z)
  | AllowlistProposalRejected (host_uuid : string) (by_admin_id : option string)
  | KeyShareUsed (share_idx : Z) (mrenclave : list u8)
  | LocalGrant (pid uid : Z) (bin_sha jti : list u8)
  | LocalDenied (pid uid : Z) (bin_sha : list u8) (reason : string)
  | ConfigChanged (path : string) (by_uid : Z) (keys : list string)
  | AdminLoginSucceeded (admin_id session_ref : string) (aal : Z) (mfa_method : string) (client_kind : Z) (src_ip_hmac : string)
  | AdminLoginFailed (account_ref_hmac reason src_ip_hmac : string) (lock_secs : Z)
  | AdminLockoutApplied (key_kind : string) (lock_secs : Z)
  | AdminLoginAnomaly (failures_10m : Z)
  | AdminLogout (admin_id session_ref : string)
  | AdminSessionRevoked (admin_id session_ref : string) (by_admin_id : option string) (reason : string)
  | AdminStepUp (admin_id session_ref mfa_method : string) (success : bool)
  | AdminPasswordChanged (admin_id : string) (by_self : bool)
  | AdminAccountCreated (admin_id by_admin_id : string) (groups : list string)
  | AdminAccountUpdated (admin_id by_admin_id : string) (changed_fields : list string) (groups : option (list string))
  | AdminAccountStateChanged (admin_id by_admin_id state : string)
  | AdminCredentialsReset (admin_id by_admin_id : string) (password mfa : bool)
  | AdminEnrollmentCompleted (admin_id purpose : string) (same_ip_as_creator : bool)
  | AdminMfaEnrolled (admin_id method : string)
  | AdminMfaRemoved (admin_id method : string) (by_admin_id : option string)
  | AdminWebAuthnCloneDetected (admin_id factor_id : string)
  | AdminBootstrapCompleted (admin_id : string)
  | AdminSodModeChanged (strict : bool)
  | AdminAccessDenied (admin_id : option string) (method permission reason : string)
  | AdminCallAuthorized (admin_id session_ref method : string)
  | AppRequestSubmitted (request_id : list u8) (host_uuid : string) (lineage_id bin_sha : list u8) (revision kind origin : Z) (uid : option Z) (path_hash : list u8) (flags : Z)
  | AppRequestAutoApproved (request_id approval_id parent_approval_id lineage_id bin_sha : list u8) (continuity_basis : string)
  | AppRequestApproved (request_id approval_id : list u8) (admin_id session_ref : string) (update_policy user_scope path_match : Z) (expires_at : option Z)
  | AppRequestDenied (request_id : list u8) (admin_id session_ref : string) (reason_code : Z)
  | AppRequestExpired (request_id : list u8)
  | ApprovalUpdated (approval_id : list u8) (admin_id session_ref : string) (row_version : Z) (changed_fields : list string) (old_expires_at new_expires_at : option Z) (old_policy new_policy : Z)
  | ApprovalRevoked (approval_id : list u8) (admin_id session_ref : string) (reason_code : Z)
  | ApprovalExpired (approval_id : list u8)
  | LineageAutoUpdateFrozen (lineage_id : list u8) (admin_id : string) (frozen : bool)
  | AppApprovedBySameActor (request_id approval_id : list u8) (admin_id session_ref : string) (origin : Z) (mfa_method : string) (update_policy user_scope path_match : Z) (expires_at : option Z)
  | AdminDirectRegistration (request_id : list u8) (admin_id : string)
  | AllowlistCompiled (host_uuid : string) (generation entry_count : Z) (entries_digest : list u8)
  | AllowlistSyncApplied (host_uuid : string) (generation : Z)
  | AllowlistSyncRejected (host_uuid : string) (generation : Z) (reason : string)
  | AllowlistImported (host_uuid : string) (approvals_created : Z) (admin_id : string)
  | AllowlistModeChanged (old_mode new_mode admin_id session_ref : string) (approvals_not_reflected imports_readmitted entries_not_imported : Z).

(** ** Records *)
Record CmisConfig := {
  cf_svid_ttl_secs : Z; cf_policy_epoch : Z; cf_require_preregistered_host_key : bool; cf_host_key_svid_ttl_secs : option Z;
  cf_host_calls : HostCallConfig }.
Record IssuedRecord := {
  ir_params : IssueParams; ir_last_attestation : LastAttestation; ir_bundle : IssuedSvid; ir_hostname : option string;
  ir_child_pub : option (list u8) }.
Inductive BundleSwap := SwapReplaced | SwapSuperseded | SwapStoreFailed.
Inductive HostKeyBinding := FirstSeen | Pinned | PreRegistered | KeyMismatch | RejectedNotPreRegistered.
#[export] Instance HostKeyBinding_eq_dec : EqDecision HostKeyBinding.
Proof. solve_decision. Defined.

(** *** The stored form (cluster_store.rs) *)
Inductive WireError := WireJson (e : string) | WireHex (field : string).
Record WireIssuedRecord := {
  wi_ek_cert_sha384_hex : string; wi_pcr_digest_hex : string; wi_policy_id : string; wi_dpop_jkt : string; wi_ttl_secs : Z;
  wi_tee_evidence_id : option string; wi_last_attestation_at : Z; wi_last_pcr_digest_hex : string; wi_last_policy_epoch : Z;
  wi_jws : string; wi_spiffe_id : string; wi_iat : Z; wi_exp : Z; wi_hostname : option string; wi_subject_pub_hex : option string;
  wi_x509_leaf_der_hex : option string; wi_child_pub_hex : option string }.

Section Wire.
Context (P : Primitives) (hex_decode : string → option (list u8)) `{WJ : !Json WireIssuedRecord}.

Definition hex_48 (field s : string) : result WireError (list u8) :=
  match hex_decode s with
  | None => Err (WireHex field)
  | Some v => if negb (length v =? 48)%nat then Err (WireHex field) else Ok v
  end.
Definition from_record (r : IssuedRecord) : WireIssuedRecord :=
  {| wi_ek_cert_sha384_hex := hex_encode P (ip_ek_cert_sha384 (ir_params r)); wi_pcr_digest_hex := hex_encode P (ip_pcr_digest (ir_params r));
     wi_policy_id := ip_policy_id (ir_params r); wi_dpop_jkt := ip_dpop_jkt (ir_params r); wi_ttl_secs := ip_ttl_secs (ir_params r);
     wi_tee_evidence_id := ip_tee_evidence_id (ir_params r); wi_last_attestation_at := la_at (ir_last_attestation r);
     wi_last_pcr_digest_hex := hex_encode P (la_pcr_digest (ir_last_attestation r));
     wi_last_policy_epoch := la_policy_epoch (ir_last_attestation r); wi_jws := is_jws (ir_bundle r); wi_spiffe_id := is_spiffe_id (ir_bundle r);
     wi_iat := is_iat (ir_bundle r); wi_exp := is_exp (ir_bundle r); wi_hostname := ir_hostname r;
     wi_subject_pub_hex := hex_encode P <$> ip_subject_pub (ir_params r); wi_x509_leaf_der_hex := hex_encode P <$> is_x509 (ir_bundle r);
     wi_child_pub_hex := hex_encode P <$> ir_child_pub r |}.
(** An optional field. *)
Definition hex_opt (field : string) (h : option string) : result WireError (option (list u8)) :=
  match h with
  | Some h => match hex_decode h with Some b => Ok (Some b) | None => Err (WireHex field) end
  | None => Ok None
  end.
(** The metadata of the certificate is derived from the rest: an X.509-SVID is its leaf here. *)
Definition into_record (w : WireIssuedRecord) : result WireError IssuedRecord :=
  let? subject_pub := hex_opt "subject_pub_hex" (wi_subject_pub_hex w) in
  let? ek := hex_48 "ek_cert_sha384_hex" (wi_ek_cert_sha384_hex w) in
  let? pcr := hex_48 "pcr_digest_hex" (wi_pcr_digest_hex w) in
  let? last := hex_48 "last_pcr_digest_hex" (wi_last_pcr_digest_hex w) in
  let? x509 := hex_opt "x509_leaf_der_hex" (wi_x509_leaf_der_hex w) in
  let? child_pub := hex_opt "child_pub_hex" (wi_child_pub_hex w) in
  Ok {| ir_params := {| ip_ek_cert_sha384 := ek; ip_pcr_digest := pcr; ip_policy_id := wi_policy_id w; ip_dpop_jkt := wi_dpop_jkt w;
                        ip_ttl_secs := wi_ttl_secs w; ip_tee_evidence_id := wi_tee_evidence_id w; ip_subject_pub := subject_pub |};
        ir_last_attestation := {| la_at := wi_last_attestation_at w; la_pcr_digest := last; la_policy_epoch := wi_last_policy_epoch w |};
        ir_bundle := {| is_jws := wi_jws w; is_x509 := x509; is_spiffe_id := wi_spiffe_id w; is_iat := wi_iat w; is_exp := wi_exp w |};
        ir_hostname := wi_hostname w; ir_child_pub := child_pub |}.
Definition record_encode (r : IssuedRecord) : result WireError (list u8) := map_err WireJson (to_vec (from_record r)).
Definition record_decode (bytes : list u8) : result WireError IssuedRecord :=
  let? wire := map_err WireJson (from_slice bytes) in into_record wire.
End Wire.

(** ** The aggregate of reported PCR values (pcr.rs) *)
Definition by_index (a b : Z * list u8) : comparison := a.1 ?= b.1.
Definition aggregate_digest (P : Primitives) (pcrs : list (Z * list u8)) : list u8 :=
  vec_to_list (sha384 P (concat (snd <$> sort_by by_index pcrs))).
(** Two values of one index are both hashed, in the order given. *)
Lemma aggregate_duplicates P i a b : aggregate_digest P [(i, a); (i, b)] = vec_to_list (sha384 P (a ++ b)).
Proof.
  unfold aggregate_digest, sort_by. cbn [foldr sort_insert by_index fst]. unfold by_index. cbn [fst]. rewrite Z.compare_refl. cbn. by rewrite app_nil_r.
Qed.

(** ** The memory of a node *)
Record CmisMem := {
  cm_rim : RimStore; cm_fleet : EnrolledHosts; cm_pins : gmap (list u8) (list u8); cm_keys : list Jwk; cm_extra_roots : list Jwk;
  cm_revs : Revocations; cm_crl : option SignedCrl; cm_epoch : Z; cm_guard : HostCallGuard }.
Definition set_pins (x : gmap (list u8) (list u8)) (m : CmisMem) : CmisMem :=
  {| cm_rim := cm_rim m; cm_fleet := cm_fleet m; cm_pins := x; cm_keys := cm_keys m; cm_extra_roots := cm_extra_roots m;
     cm_revs := cm_revs m; cm_crl := cm_crl m; cm_epoch := cm_epoch m; cm_guard := cm_guard m |}.
Definition set_keys (x : list Jwk) (m : CmisMem) : CmisMem :=
  {| cm_rim := cm_rim m; cm_fleet := cm_fleet m; cm_pins := cm_pins m; cm_keys := x; cm_extra_roots := cm_extra_roots m;
     cm_revs := cm_revs m; cm_crl := cm_crl m; cm_epoch := cm_epoch m; cm_guard := cm_guard m |}.
Definition set_roots (x : list Jwk) (m : CmisMem) : CmisMem :=
  {| cm_rim := cm_rim m; cm_fleet := cm_fleet m; cm_pins := cm_pins m; cm_keys := cm_keys m; cm_extra_roots := x;
     cm_revs := cm_revs m; cm_crl := cm_crl m; cm_epoch := cm_epoch m; cm_guard := cm_guard m |}.
Definition set_revs (x : Revocations) (c : option SignedCrl) (m : CmisMem) : CmisMem :=
  {| cm_rim := cm_rim m; cm_fleet := cm_fleet m; cm_pins := cm_pins m; cm_keys := cm_keys m; cm_extra_roots := cm_extra_roots m;
     cm_revs := x; cm_crl := c; cm_epoch := cm_epoch m; cm_guard := cm_guard m |}.
Definition set_epoch (x : Z) (m : CmisMem) : CmisMem :=
  {| cm_rim := cm_rim m; cm_fleet := cm_fleet m; cm_pins := cm_pins m; cm_keys := cm_keys m; cm_extra_roots := cm_extra_roots m;
     cm_revs := cm_revs m; cm_crl := cm_crl m; cm_epoch := x; cm_guard := cm_guard m |}.
Definition set_guard (x : HostCallGuard) (m : CmisMem) : CmisMem :=
  {| cm_rim := cm_rim m; cm_fleet := cm_fleet m; cm_pins := cm_pins m; cm_keys := cm_keys m; cm_extra_roots := cm_extra_roots m;
     cm_revs := cm_revs m; cm_crl := cm_crl m; cm_epoch := cm_epoch m; cm_guard := x |}.

Definition check_enrollment (ek_sha : list u8) (m : CmisMem) : CmisMem * EnrollmentDecision := (m, fleet_decide (cm_fleet m) ek_sha).
Definition bind_host_key (fp sep_pub : list u8) (require_preregistered : bool) (m : CmisMem) : CmisMem * HostKeyBinding :=
  match preregistered (cm_fleet m) fp with
  | Some expected => (m, if bool_decide (expected = sep_pub) then PreRegistered else KeyMismatch)
  | None =>
      if require_preregistered then (m, RejectedNotPreRegistered) else
      match cm_pins m !! fp with
      | Some existing => (m, if bool_decide (existing = sep_pub) then Pinned else KeyMismatch)
      | None => (set_pins (<[fp := sep_pub]> (cm_pins m)) m, FirstSeen)
      end
  end.
Definition current_epoch (m : CmisMem) : CmisMem * Z := (m, cm_epoch m).
(** [fetch_add] on an [AtomicU64] wraps. *)
Definition bump_epoch (m : CmisMem) : CmisMem * (Z * Z) :=
  let old := cm_epoch m in (set_epoch ((old + 1) mod 2 ^ 64) m, (old, (old + 1) mod 2 ^ 64)).

Section Keys.
Context (P : Primitives) `{SJ : !SvidJson}.
Local Abbreviation PublicKey := (CompositePublicKey (EdVk P) (MlPk P)).

Definition has_kid (kid : string) (keys : list Jwk) : bool := existsb (λ k, String.eqb (jwk_kid k) kid) keys.
Definition register_child_key (pk : PublicKey) (m : CmisMem) : CmisMem * unit :=
  let kid := child_signing_kid P pk in
  if has_kid kid (cm_keys m) then (m, tt) else (set_keys (cm_keys m ++ [jwk_from_public_key P kid pk]) m, tt).

(** [Jwk::from_public_key_at], and a key with another creation time. *)
Definition set_created (created : Z) (k : Jwk) : Jwk :=
  {| jwk_kty := jwk_kty k; jwk_alg := jwk_alg k; jwk_kid := jwk_kid k; jwk_use := jwk_use k; jwk_public := jwk_public k;
     jwk_created := Some created |}.
Fixpoint restamp (kid : string) (created : Z) (roots : list Jwk) : option (list Jwk) :=
  match roots with
  | [] => None
  | k :: ks => if String.eqb (jwk_kid k) kid then Some (set_created created k :: ks) else cons k <$> restamp kid created ks
  end.
Definition register_root_key (pk : PublicKey) (kid : string) (created : Z) (m : CmisMem) : CmisMem * unit :=
  match restamp kid created (cm_extra_roots m) with
  | Some roots => (set_roots roots m, tt)
  | None => (set_roots (cm_extra_roots m ++ [set_created created (jwk_from_public_key P kid pk)]) m, tt)
  end.

(** Newest first; a key without a creation time is the oldest. *)
Definition newest_first (a b : Jwk) : comparison := created_at b ?= created_at a.
Definition published_jwks (x509_ca : result string (list u8)) (m : CmisMem) : JwkSet :=
  let '(issuer_root, child_keys) := match cm_keys m with k :: ks => ([k], ks) | [] => ([], []) end in
  let roots := sort_by newest_first (issuer_root ++ cm_extra_roots m) in
  {| js_keys := roots ++ child_keys; js_crl := cm_crl m;
     js_x509_bundle := match x509_ca with Ok der => Some (b64url_encode P der) | Err _ => None end |}.
End Keys.

(** ** Flows *)
Definition Db := gmap string (list u8).
Inductive db_op : Type → Type :=
  | UpsertSvid (spiffe_id : string) (payload : list u8) (at_ : Z) : db_op unit
  | ReplaceSvid (spiffe_id : string) (expected payload : list u8) (at_ : Z) : db_op bool
  | FetchSvid (spiffe_id : string) : db_op (option (list u8))
  | ListSvids : db_op (list (string * list u8)).
(** The statements of ferro-raft's cluster.rs on the table [issued_svids].  [ListSvids] is an
    eventually consistent read: in an execution, the table it sees may be an older one. *)
Definition db_apply {X} (op : db_op X) (d : Db) : Db * X :=
  match op in db_op X return Db * X with
  | UpsertSvid id payload _ => (<[id := payload]> d, tt)
  | ReplaceSvid id expected payload _ =>
      if bool_decide (d !! id = Some expected) then (<[id := payload]> d, true) else (d, false)
  | FetchSvid id => (d, d !! id)
  | ListSvids => (d, map_to_list d)
  end.

(** *** Messages of the attestation stream *)
Record HostKeyEvidence := {
  hk_facts : option MachineFacts; hk_fingerprint : list u8; hk_sep_pub : list u8; hk_signature : list u8 }.
Record AttestInit := {
  in_ek_cert : list u8; in_ek_intermediates : list (list u8); in_aik_pub : list u8; in_quote_blob : list u8; in_signature : list u8;
  in_pcr_values : list (Z * list u8); in_hostname : string; in_host_key : option HostKeyEvidence }.
Record CsrMsg := { csr_composite_pub : list u8; csr_aik_sig : list u8; csr_dpop_jkt : string }.
Inductive ReqPhase := ReqInit (i : AttestInit) | ReqChallengeResponse (secret : list u8) | ReqCsr (c : CsrMsg).
Record SvidBundle := {
  sb_jws : string; sb_issued_at : Z; sb_expires_at : Z; sb_spiffe_id : string; sb_x509_svid : list u8; sb_x509_bundle : list u8 }.
Inductive RespPhase := RespNonce (nonce : list u8) | RespChallenge (credential_blob secret_blob : list u8) | RespSvid (b : SvidBundle).
Record WrappedCredential := { wc_credential_blob : list u8; wc_secret_blob : list u8 }.

Inductive call : Type → Type :=
  | Local {X : Type} (op : CmisMem → CmisMem * X) : call X
  | StoreCall {X : Type} (op : db_op X) : call (result string X)
  | ReadClock : call Z
  | RandomBytes (n : nat) : call (list u8)
  | SignerRng : call (result string (list u8))
  | AppendEvent (e : AuditEvent) : call (result string Z)
  | ProduceSth (now : Z) : call bool
  | NextMessage : call (result Status (option (option ReqPhase)))
  | SendMessage (m : RespPhase) : call bool
  | MakeCredential (ek_pub aik_pub secret : list u8) : call (result string WrappedCredential).
Inductive flow (A : Type) : Type :=
  | Ret (a : A)
  | Ask {X : Type} (c : call X) (k : X → flow A).
Arguments Ret {A} a.
Arguments Ask {A X} c k.
Fixpoint fbind {A B} (p : flow A) (f : A → flow B) : flow B :=
  match p with Ret a => f a | Ask c k => Ask c (λ x, fbind (k x) f) end.
Definition ftry {A B} (p : flow (result Status A)) (f : A → flow (result Status B)) : flow (result Status B) :=
  fbind p (λ r, match r with Ok a => f a | Err s => Ret (Err s) end).
Notation "'let>' x ':=' p 'in' k" := (fbind p (λ x, k)) (at level 10, x pattern, p at level 100, k at level 200) : ferro_scope.
(** [?] on the answer. *)
Notation "'let>?' x ':=' p 'in' k" := (ftry p (λ x, k)) (at level 10, x pattern, p at level 100, k at level 200) : ferro_scope.
Definition ask {X} (c : call X) : flow X := Ask c Ret.
Definition local {X} (op : CmisMem → CmisMem * X) : flow X := ask (Local op).
Definition peek {X} (f : CmisMem → X) : flow X := local (λ m, (m, f m)).

(** *** The store (state.rs) *)
Section StoreFlows.
Context (P : Primitives) (hex_decode : string → option (list u8)) `{WJ : !Json WireIssuedRecord}.
Local Abbreviation record_encode := (record_encode P).
Local Abbreviation record_decode := (record_decode hex_decode).

(** A failed write is logged. *)
Definition record (r : IssuedRecord) : flow unit :=
  match record_encode r with
  | Ok payload => let> _ := ask (StoreCall (UpsertSvid (is_spiffe_id (ir_bundle r)) payload (is_iat (ir_bundle r)))) in Ret tt
  | Err _ => Ret tt
  end.
(** [Err] is [RecordUnavailable]. *)
Definition lookup_checked (spiffe_id : string) : flow (result unit (option IssuedRecord)) :=
  let> r := ask (StoreCall (FetchSvid spiffe_id)) in
  Ret (match r with
       | Ok (Some bytes) => match record_decode bytes with Ok rec => Ok (Some rec) | Err _ => Err tt end
       | Ok None => Ok None
       | Err _ => Err tt
       end).
Definition lookup (spiffe_id : string) : flow (option IssuedRecord) :=
  let> r := lookup_checked spiffe_id in Ret (match r with Ok o => o | Err _ => None end).
Definition list_records : flow (list IssuedRecord) :=
  let> r := ask (StoreCall ListSvids) in
  Ret (match r with
       | Ok rows => omap (λ row, match record_decode row.2 with Ok rec => Some rec | Err _ => None end) rows
       | Err _ => []
       end).
Definition with_bundle (b : IssuedSvid) (r : IssuedRecord) : IssuedRecord :=
  {| ir_params := ir_params r; ir_last_attestation := ir_last_attestation r; ir_bundle := b; ir_hostname := ir_hostname r;
     ir_child_pub := ir_child_pub r |}.
Definition jws_sha384 (jws : string) : list u8 := vec_to_list (sha384 P (as_bytes jws)).
Definition replace_bundle_if_current (spiffe_id : string) (expected_jws_sha384 : list u8) (bundle : IssuedSvid) : flow BundleSwap :=
  let> r := ask (StoreCall (FetchSvid spiffe_id)) in
  match r with
  | Err _ => Ret SwapStoreFailed
  | Ok None => Ret SwapSuperseded
  | Ok (Some current) =>
      match record_decode current with
      | Err _ => Ret SwapStoreFailed
      | Ok rec =>
          if negb (bool_decide (jws_sha384 (is_jws (ir_bundle rec)) = expected_jws_sha384)) then Ret SwapSuperseded else
          match record_encode (with_bundle bundle rec) with
          | Err _ => Ret SwapStoreFailed
          | Ok payload =>
              let> r := ask (StoreCall (ReplaceSvid spiffe_id current payload (is_iat bundle))) in
              Ret (match r with Ok true => SwapReplaced | Ok false => SwapSuperseded | Err _ => SwapStoreFailed end)
          end
      end
  end.

(** Deprecated: the unconditional write. *)
Definition update_bundle (spiffe_id : string) (bundle : IssuedSvid) : flow unit :=
  let> found := lookup spiffe_id in
  match found with Some rec => record (with_bundle bundle rec) | None => Ret tt end.

(** [rehydrate_child_keys]: the loop over the records. *)
Fixpoint register_all (recs : list IssuedRecord) : flow unit :=
  match recs with
  | [] => Ret tt
  | rec :: recs =>
      match ir_child_pub rec with
      | Some bytes =>
          match pk_from_concat_bytes P bytes with
          | Ok pk => let> _ := local (register_child_key P pk) in register_all recs
          | Err _ => register_all recs
          end
      | None => register_all recs
      end
  end.
Definition rehydrate_child_keys : flow unit := let> recs := list_records in register_all recs.
Definition ensure_child_key_published (kid : string) : flow bool :=
  let> here := peek (λ m, has_kid kid (cm_keys m)) in
  if here : bool then Ret true else
  if negb (starts_with (as_bytes "host-") (as_bytes kid)) then Ret false else
  let> _ := rehydrate_child_keys in
  peek (λ m, has_kid kid (cm_keys m)).
End StoreFlows.
