(* ===== verification/CmisService.v ===== *)
(** The handlers of the identity server (cmis/src/service.rs): the attestation handshake of
    TPM hosts and of host-key hosts, renewal, revocation and its lifting, the policy epoch,
    the published keys and forwarded audit events.

    The handlers of administrators take what [require] answered (AdminAuthz): the id of the
    administrator, or the refusal. *)
From stdpp Require Import gmap.
From S2P Require Import Prelude AppModel AppDedup Order Composite AllowlistV2 AllowlistCompile AppPath HostCache Svid HostAuth HelperProto CallerAuth Tpm Rim Attest Fleet CmisState.
Open Scope Z_scope.

Definition HOST_REVOKED : string := "host_revoked".
Definition ATTEST_HOST_REVOKED : string := "attest-host-revoked".
Definition MAX_SPIFFE_ID_LEN : nat := 2048.
Definition MAX_HOSTNAME_CHARS : nat := 64.
Definition MAX_FORWARDED_EVENT_BYTES : nat := Z.to_nat (64 * 1024).

Definition store_unavailable : Status := Unavailable "store_unavailable".
Definition reattest_required : Status := FailedPrecondition "re-attestation required".
Definition attestation_failed : Status := PermissionDenied "attestation failed".
Definition issuer_unavailable : Status := Unavailable "issuer temporarily unavailable".

(** ** Helpers *)
Definition audit_record (e : AuditEvent) (now : Z) : flow unit :=
  let> r := ask (AppendEvent e) in
  match r with
  | Err _ => Ret tt
  | Ok _ => let> _ := ask (ProduceSth now) in Ret tt
  end.
Definition audit_record_strict (e : AuditEvent) (now : Z) : flow (result Status unit) :=
  let> r := ask (AppendEvent e) in
  match r with
  | Err _ => Ret (Err (Unavailable "audit log unavailable"))
  | Ok _ => let> _ := ask (ProduceSth now) in Ret (Ok tt)
  end.
Definition audit_fail (opcode : string) (now : Z) : flow unit := audit_record (AttestFail opcode) now.
(** An audited refusal. *)
Definition refuse {A} (opcode : string) (now : Z) (s : Status) : flow (result Status A) :=
  let> _ := audit_fail opcode now in Ret (Err s).

Definition verifier_status (reason : RejectReason) : Status :=
  match reason with NotInRim => FailedPrecondition "attestation failed" | _ => attestation_failed end.
Definition quote_opcode (reason : RejectReason) : string :=
  match reason with NotInRim => "quote-not-in-rim" | _ => "quote-verify-failed" end.

(** [char::is_ascii_graphic]. *)
Definition is_ascii_graphic (c : Z) : bool := in_range 33 126 c.
Definition display_hostname (raw : string) : option string :=
  let cleaned := take MAX_HOSTNAME_CHARS (List.filter is_ascii_graphic (trim (chars raw))) in
  match cleaned with [] => None | _ => Some (text_of cleaned) end.
Definition revocation_reason (raw : string) : string :=
  match trim (chars raw) with [] => "unspecified" | t => text_of (take 64 t) end.

Definition send (m : RespPhase) : flow (result Status unit) :=
  let> ok := ask (SendMessage m) in Ret (if ok : bool then Ok tt else Err (Aborted "client closed stream")).
Definition next_request : flow (result Status ReqPhase) :=
  let>? m := ask NextMessage in
  Ret (match m with
       | Some (Some p) => Ok p
       | Some None => Err (InvalidArgument "empty attest request" None)
       | None => Err (Aborted "client closed stream early")
       end).

Definition reattest_opcode (r : ReattestReason) : string :=
  match r with
  | EpochBump => "rotate-reattest-epoch-bump"
  | PcrDrift => "rotate-reattest-state-drift"
  | WindowExpired => "rotate-reattest-window-expired"
  end.

(** The reported values by index; one that does not fit a [u8] counts as 255. *)
Definition pcr_index (index : Z) : Z := if index <? 256 then index else 255.
Definition pcr_set (values : list (Z * list u8)) : PcrSet :=
  foldl (λ s pv, <[pcr_index pv.1 := pv.2]> s) ∅ values.

Section Service.
Context (P : Primitives) `{SJ : !SvidJson} (Q : P256) (H : Prehash Q) (X : X509).
Context (issue_leaf : list u8 → string → Z → Z → result string (list u8)) (hex_decode : string → option (list u8)).
Context `{WJ : !Json WireIssuedRecord, RDC : !Cbor RotateDoc, AFC : !Cbor AuditForwardDoc}.
(** The node: its configuration, issuer, X.509 trust bundle and vendor roots. *)
Context (cfg : CmisConfig) (issuer : Issuer P) (x509_ca : result string (list u8)) (trust : TrustStore).
Local Abbreviation sha := (λ b, vec_to_list (sha384 P b)).
Local Abbreviation issue := (issue P issue_leaf issuer).
Local Abbreviation record := (record P).
Local Abbreviation lookup_checked := (lookup_checked hex_decode).
Local Abbreviation list_records := (list_records hex_decode).
Local Abbreviation replace_bundle_if_current := (replace_bundle_if_current P hex_decode).

Definition refuse_revoked_host (ek_cert_sha384 : list u8) (now : Z) : flow (result Status unit) :=
  match host_spiffe_id P issuer ek_cert_sha384 with
  | Err _ => refuse "issuance-failed" now issuer_unavailable
  | Ok spiffe_id =>
      let> revoked := peek (λ m, is_host_revoked (cm_revs m) spiffe_id) in
      if revoked : bool then refuse ATTEST_HOST_REVOKED now (PermissionDenied HOST_REVOKED) else Ret (Ok tt)
  end.

Definition to_bundle (issued : IssuedSvid) : SvidBundle :=
  let '(x509_svid, x509_bundle) := match is_x509 issued, x509_ca with
    | Some leaf, Ok ca => (leaf, ca)
    | Some _, Err _ => ([], [])
    | None, _ => ([], [])
    end in
  {| sb_jws := is_jws issued; sb_issued_at := is_iat issued; sb_expires_at := is_exp issued; sb_spiffe_id := is_spiffe_id issued;
     sb_x509_svid := x509_svid; sb_x509_bundle := x509_bundle |}.

(** Publish the key of the CSR; what cannot be parsed is left out of the certificate profile. *)
Definition publish_csr_key (composite_pub : list u8) : flow (option (list u8)) :=
  match pk_from_concat_bytes P composite_pub with
  | Ok pk => let> _ := local (register_child_key P pk) in Ret (Some composite_pub)
  | Err _ => Ret None
  end.
(** The end both handshakes share, line by line: issue, audit, record, send. *)
Definition issue_and_send (params : IssueParams) (pcr_digest : list u8) (hostname : option string) (csr : CsrMsg) (now : Z) :
    flow (result Status unit) :=
  let> rng := ask SignerRng in
  match issue rng params now with
  | Err _ => refuse "issuance-failed" now issuer_unavailable
  | Ok issued =>
      let> _ := audit_record (SvidIssued (sha (as_bytes (is_jws issued))) (is_spiffe_id issued)) now in
      let> epoch := local current_epoch in
      let> _ := record {| ir_params := params;
                          ir_last_attestation := {| la_at := now; la_pcr_digest := pcr_digest; la_policy_epoch := epoch |};
                          ir_bundle := issued; ir_hostname := hostname; ir_child_pub := Some (csr_composite_pub csr) |} in
      send (RespSvid (to_bundle issued))
  end.

(** The gate on the fleet manifest; [k] goes on. *)
Definition pre_admission (digest : list u8) (now : Z) (k : flow (result Status unit)) : flow (result Status unit) :=
  let> decision := local (check_enrollment digest) in
  match decision with
  | Rejected => let> _ := audit_record (HostRejected digest "not-enrolled") now in Ret (Err attestation_failed)
  | Enrolled => let> _ := audit_record (HostEnrolled digest) now in k
  | NotEnforced => k
  end.

(** ** Attestation of a host key *)
Definition run_attest_host_key (nonce : list u8) (evidence : HostKeyEvidence) (hostname : option string) (now : Z) :
    flow (result Status unit) :=
  let facts := default {| mf_board_serial := ""; mf_platform_uuid := ""; mf_disk_serial := "" |} (hk_facts evidence) in
  match verify_host_key_evidence P Q (mf_board_serial facts) (mf_platform_uuid facts) (mf_disk_serial facts)
          (hk_fingerprint evidence) (hk_sep_pub evidence) nonce (hk_signature evidence) with
  | Err _ => refuse "host-key-verify-failed" now attestation_failed
  | Ok fp =>
      pre_admission fp now (
      let> binding := local (bind_host_key fp (hk_sep_pub evidence) (cf_require_preregistered_host_key cfg)) in
      match binding with
      | KeyMismatch => let> _ := audit_record (HostRejected fp "key-rebind") now in Ret (Err attestation_failed)
      | RejectedNotPreRegistered => let> _ := audit_record (HostRejected fp "not-preregistered") now in Ret (Err attestation_failed)
      | _ =>
          let> _ := audit_record (AttestStart fp (sha (hk_sep_pub evidence)) TIER_HOST_KEY) now in
          let>? p := next_request in
          match p with
          | ReqCsr csr =>
              match verify_host_key_csr Q (hk_sep_pub evidence) (csr_composite_pub csr) (csr_aik_sig csr) with
              | Err _ => refuse "host-key-csr-sig-invalid" now attestation_failed
              | Ok _ =>
                  let>? _ := refuse_revoked_host fp now in
                  let> subject_pub := publish_csr_key (csr_composite_pub csr) in
                  issue_and_send
                    {| ip_ek_cert_sha384 := fp; ip_pcr_digest := fp; ip_policy_id := TIER_HOST_KEY; ip_dpop_jkt := csr_dpop_jkt csr;
                       ip_ttl_secs := default (cf_svid_ttl_secs cfg) (cf_host_key_svid_ttl_secs cfg); ip_tee_evidence_id := None;
                       ip_subject_pub := subject_pub |} fp hostname csr now
              end
          | _ => refuse "csr-expected" now (InvalidArgument "expected CSR" None)
          end
      end)
  end.

(** ** Attestation of a TPM *)

(** Phases 3 and 4, after the quote was verified. *)
Definition attest_activated (init : AttestInit) (verified : VerifiedQuote) (hostname : option string) (now : Z) :
    flow (result Status unit) :=
  let> secret := ask (RandomBytes 32) in
  let> wrapped := ask (MakeCredential (in_ek_cert init) (in_aik_pub init) secret) in
  match wrapped with
  | Err _ => refuse "credential-wrap-failed" now issuer_unavailable
  | Ok wrapped =>
      let>? _ := send (RespChallenge (wc_credential_blob wrapped) (wc_secret_blob wrapped)) in
      let>? p := next_request in
      match p with
      | ReqChallengeResponse got =>
          if negb (credential_secret_matches secret got) then refuse "credential-mismatch" now attestation_failed else
          let>? p := next_request in
          match p with
          | ReqCsr csr =>
              match verify_aik_signature P Q H (in_aik_pub init) (csr_composite_pub csr) (csr_aik_sig csr) with
              | Err _ => refuse "aik-sig-invalid" now attestation_failed
              | Ok _ =>
                  let ek_cert_sha384 := sha (in_ek_cert init) in
                  let>? _ := refuse_revoked_host ek_cert_sha384 now in
                  let> subject_pub := publish_csr_key (csr_composite_pub csr) in
                  issue_and_send
                    {| ip_ek_cert_sha384 := ek_cert_sha384; ip_pcr_digest := vq_pcr_digest verified;
                       ip_policy_id := vq_policy_id verified; ip_dpop_jkt := csr_dpop_jkt csr; ip_ttl_secs := cf_svid_ttl_secs cfg;
                       ip_tee_evidence_id := None; ip_subject_pub := subject_pub |} (vq_pcr_digest verified) hostname csr now
              end
          | _ => refuse "csr-expected" now (InvalidArgument "expected CSR" None)
          end
      | _ => refuse "challenge-resp-expected" now (InvalidArgument "expected challenge response" None)
      end
  end.

(** What the verifier is asked. *)
Definition quote_request (init : AttestInit) (nonce : list u8) (now : Z) : QuoteVerification :=
  {| qv_ek_cert_der := in_ek_cert init; qv_ek_intermediates := in_ek_intermediates init; qv_aik_pub := in_aik_pub init;
     qv_quote_blob := in_quote_blob init; qv_signature := in_signature init; qv_nonce := nonce;
     qv_pcrs := pcr_set (in_pcr_values init); qv_now := now |}.

Definition run_attest : flow (result Status unit) :=
  let> now := ask ReadClock in
  let> nonce := ask (RandomBytes 32) in
  let>? _ := send (RespNonce nonce) in
  let>? p := next_request in
  match p with
  | ReqInit init =>
      let hostname := display_hostname (in_hostname init) in
      match in_host_key init with
      | Some host_key => run_attest_host_key nonce host_key hostname now
      | None =>
          let ek_sha := sha (in_ek_cert init) in
          pre_admission ek_sha now (
          let> rim := peek cm_rim in
          match verify_quote P Q H X trust rim (quote_request init nonce now) with
          | Err reason => refuse (quote_opcode reason) now (verifier_status reason)
          | Ok verified =>
              let> _ := audit_record (AttestStart (sha (in_ek_cert init)) (sha (in_aik_pub init)) (vq_policy_id verified)) now in
              attest_activated init verified hostname now
          end)
      end
  | _ => refuse "init-expected" now (InvalidArgument "expected attest init" None)
  end.

(** ** Renewal *)
Record RotateRequest := { rr_auth : option HostCallAuth; rr_doc : list u8; rr_current_svid : string }.

(** [authenticate]: the checks under the revocations of one moment, then the three locks. *)
Definition authenticate_flow {D E} `{!HostCallDoc D, !DocError E} (call : HostCall D E) (now : Z) :
    flow (result Status (AuthenticatedHost * D)) :=
  let> revs := peek cm_revs in
  match auth_checks P Q issuer revs call now with
  | Err s => Ret (Err s)
  | Ok (svid, doc) =>
      let on_guard (f : HostCallGuard → HostCallGuard * result Status unit) (m : CmisMem) :=
        let '(g, r) := f (cm_guard m) in (set_guard g m, r) in
      let>? _ := local (on_guard (step_seen svid doc now)) in
      let>? _ := local (on_guard (step_limit svid (hc_limiter call) now)) in
      let>? _ := local (on_guard (step_insert svid doc now)) in
      Ret (Ok (authenticated svid, doc))
  end.

Definition rotate_call (req : RotateRequest) : HostCall RotateDoc HostCallDocError :=
  {| hc_auth := rr_auth req; hc_context := ROTATE_CONTEXT; hc_doc := rr_doc req; hc_max_doc_bytes := MAX_DOC_BYTES;
     hc_decode := decode_rotate;
     hc_bind doc := match rr_auth req with
       | Some auth => binds_svid P doc (ha_svid_jws auth) &&
           (String.eqb (rr_current_svid req) "" || String.eqb (rr_current_svid req) (ha_svid_jws auth))
       | None => false
       end;
     hc_limiter := Some LRotate |}.

Definition rotate_with_host_proof (req : RotateRequest) (now : Z) : flow (result Status SvidBundle) :=
  if (MAX_SVID_JWS_BYTES <? String.length (rr_current_svid req))%nat then Ret (Err (InvalidArgument "field_too_long" None)) else
  let>? (host, doc) := authenticate_flow (rotate_call req) now in
  if negb (String.eqb (ah_tier host) TIER_HOST_KEY) then refuse "rotate-tier-requires-attest" now reattest_required else
  let> found := lookup_checked (ah_spiffe_id host) in
  match found with
  | Err _ => refuse "rotate-store-failed" now store_unavailable
  | Ok None => refuse "rotate-unknown-subject" now (StNotFound "unknown subject; full attestation required")
  | Ok (Some rec) =>
      if negb (bool_decide (sha (as_bytes (is_jws (ir_bundle rec))) = rd_svid_sha384 doc))
      then refuse "rotate-superseded" now reattest_required else
      let> epoch := local current_epoch in
      match decide_renewal (ir_last_attestation rec) now (rd_state_digest doc) epoch with
      | FullReattest reason => refuse (reattest_opcode reason) now reattest_required
      | ShortPath =>
          let> rng := ask SignerRng in
          match issue rng (ir_params rec) now with
          | Err _ => refuse "issuance-failed" now issuer_unavailable
          | Ok issued =>
              let> swap := replace_bundle_if_current (ah_spiffe_id host) (rd_svid_sha384 doc) issued in
              match swap with
              | SwapSuperseded => refuse "rotate-superseded" now reattest_required
              | SwapStoreFailed => refuse "rotate-store-failed" now store_unavailable
              | SwapReplaced =>
                  let> _ := audit_record (SvidIssued (sha (as_bytes (is_jws issued))) (is_spiffe_id issued)) now in
                  Ret (Ok (to_bundle issued))
              end
          end
      end
  end.
Definition rotate (req : RotateRequest) : flow (result Status SvidBundle) :=
  let> now := ask ReadClock in rotate_with_host_proof req now.

(** ** Reads *)
Definition fetch_svid (spiffe_id : string) : flow (result Status SvidBundle) :=
  let> found := lookup hex_decode spiffe_id in
  Ret (match found with Some rec => Ok (to_bundle (ir_bundle rec)) | None => Err (StNotFound "no SVID for subject") end).
Definition jwks `{JJ : !Json JwkSet} (kid_hint : string) : flow (result Status (list u8)) :=
  let> _ := if String.eqb kid_hint "" then Ret false else ensure_child_key_published P hex_decode kid_hint in
  let> keys := peek (published_jwks P x509_ca) in
  Ret (map_err (λ _, Internal "jwks encode") (to_vec keys)).
Definition get_enrollment_key : flow (result Status (list u8)) := Ret (Ok (pk_to_concat_bytes P (iss_public P issuer))).

(** ** Revocation *)
Definition revoke_op (target : RevocationTarget) (reason : string) (now : Z) (m : CmisMem) : CmisMem * unit :=
  (set_revs (revoke_target target reason now (cm_revs m)) (cm_crl m) m, tt).
Definition unrevoke_op (spiffe_id : string) (keep_revoked : list string) (now : Z) (m : CmisMem) : CmisMem * bool :=
  let '(revs, existed) := unrevoke_host spiffe_id keep_revoked now (cm_revs m) in (set_revs revs (cm_crl m) m, existed).
(** [CmisState::publish_crl]: the working set is pruned and numbered under one lock, the signed
    list stored under another. *)
Definition prune_revs (now : Z) (m : CmisMem) : CmisMem * (list CrlEntry * Z) :=
  let r := rev_op (cm_revs m) (OpPublish now) in (set_revs r (cm_crl m) m, (rv_entries r, rv_number r)).
Definition store_crl (signed : SignedCrl) (m : CmisMem) : CmisMem * unit := (set_revs (cm_revs m) (Some signed) m, tt).
Definition publish_crl_flow (now : Z) : flow (result IssueError Z) :=
  let> (entries, number) := local (prune_revs now) in
  let> rng := ask SignerRng in
  match issuer_sign_crl P issuer rng {| cb_issued_at := now; cb_number := number; cb_entries := entries |} with
  | Err e => Ret (Err e)
  | Ok signed => let> _ := local (store_crl signed) in Ret (Ok number)
  end.
Definition publish_crl_now (now : Z) : flow (result Status Z) :=
  let> r := publish_crl_flow now in Ret (map_err (λ _, issuer_unavailable) r).

Definition paired_x509_cert_sha (jws_cert_sha : string) : flow (option string) :=
  let> recs := list_records in
  Ret (match List.find (λ rec, String.eqb (hex_encode P (sha (as_bytes (is_jws (ir_bundle rec))))) jws_cert_sha) recs with
       | Some rec => (λ leaf, hex_encode P (sha leaf)) <$> is_x509 (ir_bundle rec)
       | None => None
       end).
Definition parse_cert_sha (s : string) : result Status (list u8) :=
  match hex_decode (text_of (trim (chars s))) with
  | None => Err (InvalidArgument "cert_sha is not hex" None)
  | Some bytes => if negb (length bytes =? 48)%nat then Err (InvalidArgument "cert_sha must be 48 bytes (SHA-384)" None) else Ok bytes
  end.

Definition revoke_svid (admin : result Status string) (cert_sha reason : string) : flow (result Status Z) :=
  match admin with
  | Err s => Ret (Err s)
  | Ok admin_id =>
      let> now := ask ReadClock in
      match parse_cert_sha cert_sha with
      | Err s => Ret (Err s)
      | Ok cert_bytes =>
          let cert_sha := hex_encode P cert_bytes in
          let reason := revocation_reason reason in
          let> _ := local (revoke_op (RtSvid cert_sha) reason now) in
          let> _ := audit_record (SvidRevoked cert_bytes reason (Some admin_id)) now in
          let> leaf := paired_x509_cert_sha cert_sha in
          let> _ := match leaf with
                    | Some leaf_sha => local (revoke_op (RtSvid leaf_sha) reason now)
                    | None => Ret tt
                    end in
          publish_crl_now now
      end
  end.
Definition revoke_host (admin : result Status string) (spiffe_id reason : string) : flow (result Status Z) :=
  match admin with
  | Err s => Ret (Err s)
  | Ok admin_id =>
      let> now := ask ReadClock in
      if String.eqb spiffe_id "" then Ret (Err (InvalidArgument "empty spiffe_id" None)) else
      let reason := revocation_reason reason in
      let> _ := local (revoke_op (RtHost spiffe_id) reason now) in
      let> _ := audit_record (HostRevoked spiffe_id reason (Some admin_id)) now in
      publish_crl_now now
  end.

(** What of the stored record stays revoked when the host is let back. *)
Definition keep_revoked_of (rec : option IssuedRecord) : list string :=
  match rec with
  | Some rec => hex_encode P (sha (as_bytes (is_jws (ir_bundle rec)))) ::
      match is_x509 (ir_bundle rec) with Some leaf => [hex_encode P (sha leaf)] | None => [] end
  | None => []
  end.
Definition unrevoke_host_rpc (admin : result Status string) (spiffe_id reason : string) : flow (result Status (bool * Z)) :=
  match admin with
  | Err s => Ret (Err s)
  | Ok admin_id =>
      let> now := ask ReadClock in
      if String.eqb spiffe_id "" then Ret (Err (InvalidArgument "empty spiffe_id" None)) else
      if (MAX_SPIFFE_ID_LEN <? String.length spiffe_id)%nat then Ret (Err (InvalidArgument "spiffe_id too long" None)) else
      let> revoked := peek (λ m, is_host_revoked (cm_revs m) spiffe_id) in
      if negb revoked then Ret (Ok (false, 0)) else
      let reason := revocation_reason reason in
      let> found := lookup_checked spiffe_id in
      match found with
      | Err _ => Ret (Err store_unavailable)
      | Ok rec =>
          let keep_revoked := keep_revoked_of rec in
          let>? _ := audit_record_strict
            (HostUnrevoked spiffe_id reason (Some admin_id) ((λ rec, sha (as_bytes (is_jws (ir_bundle rec)))) <$> rec)) now in
          let> existed := local (unrevoke_op spiffe_id keep_revoked now) in
          let>? number := publish_crl_now now in
          Ret (Ok (existed, number))
      end
  end.

(** ** The policy epoch and the list of SVIDs *)
Definition bump_epoch_rpc (admin : result Status string) (reason : string) : flow (result Status Z) :=
  match admin with
  | Err s => Ret (Err s)
  | Ok admin_id =>
      let> now := ask ReadClock in
      let> (old_epoch, new_epoch) := local bump_epoch in
      let> _ := audit_record (PolicyEpochBumped old_epoch new_epoch (revocation_reason reason) (Some admin_id)) now in
      Ret (Ok new_epoch)
  end.
Record SvidSummary := {
  su_spiffe_id : string; su_cert_sha : string; su_issued_at : Z; su_expires_at : Z; su_policy_id : string; su_policy_epoch : Z;
  su_hostname : string }.
Definition svid_summary (rec : IssuedRecord) : SvidSummary :=
  {| su_spiffe_id := is_spiffe_id (ir_bundle rec); su_cert_sha := hex_encode P (sha (as_bytes (is_jws (ir_bundle rec))));
     su_issued_at := is_iat (ir_bundle rec); su_expires_at := is_exp (ir_bundle rec); su_policy_id := ip_policy_id (ir_params rec);
     su_policy_epoch := la_policy_epoch (ir_last_attestation rec); su_hostname := default "" (ir_hostname rec) |}.
Definition list_svids_rpc (admin : result Status string) : flow (result Status (list SvidSummary)) :=
  match admin with
  | Err s => Ret (Err s)
  | Ok _ => let> recs := list_records in Ret (Ok (svid_summary <$> recs))
  end.

(** ** Forwarded audit events *)
Definition host_forwardable (event : AuditEvent) : bool :=
  match event with
  | LocalGrant _ _ _ _ | LocalDenied _ _ _ _ | ConfigChanged _ _ _ | AllowlistSyncApplied _ _ | AllowlistSyncRejected _ _ _ => true
  | _ => false
  end.
Definition forwarded_for_itself (event : AuditEvent) (host_uuid : string) : bool :=
  match event with
  | AllowlistSyncApplied h _ | AllowlistSyncRejected h _ _ => String.eqb h host_uuid
  | _ => true
  end.
Record AppendAuditRequest := { aa_auth : option HostCallAuth; aa_doc : list u8; aa_event_cbor : list u8 }.
Definition forward_call (req : AppendAuditRequest) : HostCall AuditForwardDoc HostCallDocError :=
  {| hc_auth := aa_auth req; hc_context := AUDIT_FORWARD_CONTEXT; hc_doc := aa_doc req; hc_max_doc_bytes := MAX_DOC_BYTES;
     hc_decode := decode_audit_forward; hc_bind doc := binds_event P doc (aa_event_cbor req); hc_limiter := Some LAuditForward |}.
Definition append_audit_event `{EC : !Cbor AuditEvent} (req : AppendAuditRequest) : flow (result Status Z) :=
  let> now := ask ReadClock in
  if (MAX_FORWARDED_EVENT_BYTES <? length (aa_event_cbor req))%nat then Ret (Err (InvalidArgument "field_too_long" None)) else
  let>? (host, _) := authenticate_flow (forward_call req) now in
  match from_reader (aa_event_cbor req) with
  | Err _ => Ret (Err (InvalidArgument "malformed audit event" None))
  | Ok event =>
      if negb (host_forwardable event) then Ret (Err (PermissionDenied "event_not_forwardable")) else
      if negb (forwarded_for_itself event (ah_host_uuid host)) then Ret (Err (PermissionDenied "host_mismatch")) else
      let> r := ask (AppendEvent event) in
      match r with
      | Err _ => Ret (Err (Unavailable "audit log unavailable"))
      | Ok leaf_index => let> _ := ask (ProduceSth now) in Ret (Ok leaf_index)
      end
  end.
End Service.
