(* ===== verification/CmisExec.v ===== *)
(** Executions of the flows of CmisState.v, as traces of events.

    An execution makes no assumption on what other handlers, loaders and nodes do between two
    of its calls: each event carries the memory or the table at its own moment, any memory at
    all.  It may also stop at any call and never be resumed.  What is proved of an execution
    therefore holds in every interleaving; a history of several executions is an interleaving
    of their traces in which each event starts where the one before it ended ([chained]). *)
From stdpp Require Import gmap.
From S2P Require Import Prelude AllowlistCompile Svid HostAuth CmisState.
Open Scope Z_scope.

(** ** Events *)
Inductive StoreEvent :=
  | DidUpsert (spiffe_id : string) (payload : list u8) (r : result string unit)
  | DidReplace (spiffe_id : string) (expected payload : list u8) (r : result string bool)
  | DidFetch (spiffe_id : string) (r : result string (option (list u8)))
  | DidList (r : result string (list (string * list u8))).
Definition store_event {X} (op : db_op X) : result string X → StoreEvent :=
  match op in db_op X return result string X → StoreEvent with
  | UpsertSvid id payload _ => DidUpsert id payload
  | ReplaceSvid id expected payload _ => DidReplace id expected payload
  | FetchSvid id => DidFetch id
  | ListSvids => DidList
  end.

Inductive event :=
  | EvLocal (before after : CmisMem)
  | EvStore (o : StoreEvent) (before after : Db)
  | EvClock (now : Z)
  | EvDrew (bytes : list u8)
  | EvSigner (r : result string (list u8))
  | EvLogged (e : AuditEvent) (r : result string Z)
  | EvSth (now : Z) (ok : bool)
  | EvGot (r : result Status (option (option ReqPhase)))
  | EvSent (m : RespPhase) (ok : bool)
  | EvWrapped (ek_pub aik_pub secret : list u8) (r : result string WrappedCredential).

(** What a call may be answered, and the event it leaves.  A statement of the store is carried
    out and answered, carried out with its answer lost, or fails. *)
Definition answers {X} (c : call X) : X → event → Prop :=
  match c in call X return X → event → Prop with
  | Local op => λ x e, ∃ m, x = (op m).2 ∧ e = EvLocal m (op m).1
  | StoreCall op => λ x e, ∃ d,
      (x = Ok (db_apply op d).2 ∧ e = EvStore (store_event op x) d (db_apply op d).1) ∨
      (∃ s, x = Err s ∧ (e = EvStore (store_event op x) d (db_apply op d).1 ∨ e = EvStore (store_event op x) d d))
  | ReadClock => λ x e, e = EvClock x
  | RandomBytes n => λ x e, length x = n ∧ e = EvDrew x
  | SignerRng => λ x e, e = EvSigner x
  | AppendEvent a => λ x e, e = EvLogged a x
  | ProduceSth now => λ x e, e = EvSth now x
  | NextMessage => λ x e, e = EvGot x
  | SendMessage m => λ x e, e = EvSent m x
  | MakeCredential ek aik secret => λ x e, e = EvWrapped ek aik secret x
  end.

(** ** Executions *)

(** [exec p tr r]: [p] runs through [tr] and returns [a] ([r = Some a]), or is somewhere before
    its end ([r = None]). *)
Fixpoint exec {A} (p : flow A) (tr : list event) (r : option A) : Prop :=
  match p with
  | Ret a => tr = [] ∧ (r = Some a ∨ r = None)
  | Ask c k => (tr = [] ∧ r = None) ∨ ∃ x e tr', tr = e :: tr' ∧ answers c x e ∧ exec (k x) tr' r
  end.

(** A history in one memory and one table. *)
Fixpoint chained (m : CmisMem) (d : Db) (h : list event) (m' : CmisMem) (d' : Db) : Prop :=
  match h with
  | [] => m = m' ∧ d = d'
  | EvLocal before after :: h => before = m ∧ chained after d h m' d'
  | EvStore _ before after :: h => before = d ∧ chained m after h m' d'
  | _ :: h => chained m d h m' d'
  end.
Inductive interleaving {A} : list A → list A → list A → Prop :=
  | il_nil : interleaving [] [] []
  | il_left x l1 l2 l : interleaving l1 l2 l → interleaving (x :: l1) l2 (x :: l)
  | il_right x l1 l2 l : interleaving l1 l2 l → interleaving l1 (x :: l2) (x :: l).

Lemma exec_none {A} (p : flow A) tr r : exec p tr r → exec p tr None.
Proof.
  revert tr. induction p as [a|X c k IH]; intros tr; cbn.
  - intros [-> _]. auto.
  - intros [[-> _]|(x & e & tr' & -> & Ha & Hk)]; [auto|]. right. exists x, e, tr'. auto.
Qed.
Lemma exec_bind_inv {A B} (p : flow A) (f : A → flow B) tr r :
  exec (fbind p f) tr r →
  (r = None ∧ exec p tr None) ∨ ∃ a t1 t2, tr = t1 ++ t2 ∧ exec p t1 (Some a) ∧ exec (f a) t2 r.
Proof.
  revert tr. induction p as [a|X c k IH]; intros tr; cbn.
  - intros Hf. right. exists a, [], tr. auto.
  - intros [[-> ->]|(x & e & tr' & -> & Ha & Hk)]; [left; auto|].
    destruct (IH x tr' Hk) as [[-> Hn]|(a & t1 & t2 & -> & H1 & H2)]; [left; split; [done|]; right; exists x, e, tr'; auto|].
    right. exists a, (e :: t1), t2. split; [done|]. split; [|done]. right. exists x, e, t1. auto.
Qed.
Lemma exec_bind_intro {A B} (p : flow A) (f : A → flow B) a t1 t2 r :
  exec p t1 (Some a) → exec (f a) t2 r → exec (fbind p f) (t1 ++ t2) r.
Proof.
  revert t1. induction p as [a'|X c k IH]; intros t1; cbn.
  - intros [-> [[= ->]|?]]; done.
  - intros [[_ ?]|(x & e & tr' & -> & Ha & Hk)] Hf; [done|]. right. exists x, e, (tr' ++ t2). auto.
Qed.
Lemma exec_ask {X} (c : call X) tr a : exec (ask c) tr (Some a) ↔ ∃ e, tr = [e] ∧ answers c a e.
Proof.
  cbn. split.
  - intros [[_ ?]|(x & e & tr' & -> & Ha & -> & [[= ->]|?])]; eauto; done.
  - intros (e & -> & Ha). right. exists a, e, []. auto.
Qed.
Lemma exec_try {A B} (p : flow (result Status A)) (f : A → flow (result Status B)) tr b :
  exec (ftry p f) tr (Some (Ok b)) → ∃ a t1 t2, tr = t1 ++ t2 ∧ exec p t1 (Some (Ok a)) ∧ exec (f a) t2 (Some (Ok b)).
Proof.
  intros [[? _]|([a|s] & t1 & t2 & -> & H1 & H2)]%exec_bind_inv; [done|eauto 6|]. by destruct H2 as [_ [?|?]].
Qed.
Lemma exec_ret {A} (a : A) tr b : exec (Ret a) tr (Some b) ↔ tr = [] ∧ a = b.
Proof. cbn. split; [intros [-> [[= ->]|?]]; done|intros [-> ->]; auto]. Qed.

(** ** Calls that are never made *)

(** The calls an execution of [p] can make all satisfy [Q]. *)
Fixpoint only (Q : ∀ X, call X → Prop) {A} (p : flow A) : Prop :=
  match p with
  | Ret _ => True
  | Ask c k => Q _ c ∧ ∀ x, only Q (k x)
  end.
Lemma only_bind Q {A B} (p : flow A) (f : A → flow B) : only Q p → (∀ a, only Q (f a)) → only Q (fbind p f).
Proof. induction p as [a|X c k IH]; cbn; [auto|]. intros [Hc Hk] Hf. auto. Qed.
Lemma only_try Q {A B} (p : flow (result Status A)) (f : A → flow (result Status B)) :
  only Q p → (∀ a, only Q (f a)) → only Q (ftry p f).
Proof. intros Hp Hf. apply only_bind; [done|]. by intros [a|s]. Qed.
Lemma only_ask Q {X} (c : call X) : Q X c → only Q (ask c).
Proof. cbn. auto. Qed.
Lemma only_impl (Q R : ∀ X, call X → Prop) {A} (p : flow A) : (∀ X c, Q X c → R X c) → only Q p → only R p.
Proof. intros Hi. induction p as [a|X c k IH]; cbn; [done|]. intros [Hc Hk]. auto. Qed.

Create HintDb flow.
#[export] Hint Resolve only_bind only_try only_ask : flow.
(** Walk through a handler: its binds, its branches, its calls. *)
Ltac only_step :=
  match goal with
  | |- only _ (fbind _ _) => apply only_bind
  | |- only _ (ftry _ _) => apply only_try
  | |- only _ (ask _) => apply only_ask
  | |- only _ (local _) => apply only_ask
  | |- only _ (peek _) => apply only_ask
  | |- only _ (Ret _) => exact I
  | |- ∀ _, _ => intros ?
  | |- only _ (match ?x with _ => _ end) => destruct x
  | |- only _ (let '(_, _) := ?x in _) => destruct x
  end.
Ltac only_auto := repeat first [only_step | exact I | solve [eauto with flow]].

(** No SVID is sent. *)
Definition quiet X (c : call X) : Prop := match c with SendMessage (RespSvid _) => False | _ => True end.
Definition svid_sent (b : SvidBundle) (tr : list event) : Prop := ∃ ok, EvSent (RespSvid b) ok ∈ tr.
Lemma quiet_exec {A} (p : flow A) tr r b : only quiet p → exec p tr r → ¬ svid_sent b tr.
Proof.
  revert tr. induction p as [a|X c k IH]; intros tr; cbn.
  - intros _ [-> _] [ok H]. set_solver.
  - intros [Hc Hk] [[-> _]|(x & e & tr' & -> & Ha & Hx)] [ok Hin]; [set_solver|].
    apply elem_of_cons in Hin as [<-|Hin]; [|exact (IH x tr' (Hk x) Hx (ex_intro _ ok Hin))].
    destruct c; cbn in Ha; naive_solver.
Qed.
Lemma svid_sent_app b t1 t2 : svid_sent b (t1 ++ t2) ↔ svid_sent b t1 ∨ svid_sent b t2.
Proof. unfold svid_sent. setoid_rewrite elem_of_app. naive_solver. Qed.

(** The send is in the continuation. *)
Lemma exec_bind_sent {A B} (p : flow A) (f : A → flow B) tr r b :
  only quiet p → exec (fbind p f) tr r → svid_sent b tr →
  ∃ a t1 t2, tr = t1 ++ t2 ∧ exec p t1 (Some a) ∧ exec (f a) t2 r ∧ svid_sent b t2.
Proof.
  intros Hq [[-> Hp]|(a & t1 & t2 & -> & H1 & H2)]%exec_bind_inv Hs; [by destruct (quiet_exec p tr None b)|].
  apply svid_sent_app in Hs as [Hs|Hs]; [by destruct (quiet_exec p t1 (Some a) b)|eauto 7].
Qed.
Lemma exec_try_sent {A B} (p : flow (result Status A)) (f : A → flow (result Status B)) tr r b :
  only quiet p → exec (ftry p f) tr r → svid_sent b tr →
  ∃ a t1 t2, tr = t1 ++ t2 ∧ exec p t1 (Some (Ok a)) ∧ exec (f a) t2 r ∧ svid_sent b t2.
Proof.
  intros Hq He Hs. destruct (exec_bind_sent _ _ _ _ _ Hq He Hs) as ([a|s] & t1 & t2 & -> & H1 & H2 & H3); [eauto 7|].
  destruct H2 as [-> _]. destruct H3 as [ok H3]. set_solver.
Qed.
(** Its first call answered. *)
Lemma exec_ask_sent {A X} (c : call X) (f : X → flow A) tr r b :
  quiet X c → exec (fbind (ask c) f) tr r → svid_sent b tr →
  ∃ x e t, tr = e :: t ∧ answers c x e ∧ exec (f x) t r ∧ svid_sent b t.
Proof.
  intros Hq He Hs. destruct (exec_bind_sent _ _ _ _ _ (only_ask quiet c Hq) He Hs) as (x & t1 & t2 & -> & H1 & H2 & H3).
  apply exec_ask in H1 as (e & -> & Ha). cbn. eauto 7.
Qed.

(** A sub-trace, found event by event. *)
Lemma sub_cons {A} (e : A) l t : l `sublist_of` t → e :: l `sublist_of` e :: t.
Proof. by constructor. Qed.
Lemma sub_app {A} (l t1 t2 : list A) : l `sublist_of` t2 → l `sublist_of` t1 ++ t2.
Proof. intros. by apply sublist_inserts_l. Qed.

(** ** An event that a part of a handler cannot leave *)
Definition avoids (e : event) X (c : call X) : Prop := ∀ x, ¬ answers c x e.
Lemma avoids_exec e {A} (p : flow A) tr r : only (avoids e) p → exec p tr r → e ∉ tr.
Proof.
  revert tr. induction p as [a|X c k IH]; intros tr; cbn.
  - intros _ [-> _]. set_solver.
  - intros [Hc Hk] [[-> _]|(x & e' & tr' & -> & Ha & Hx)]; [set_solver|].
    intros [->|Hin]%elem_of_cons; [exact (Hc x Ha)|exact (IH x tr' (Hk x) Hx Hin)].
Qed.
(** The event is in the continuation. *)
Lemma exec_bind_event {A B} (p : flow A) (f : A → flow B) tr r e :
  exec (fbind p f) tr r → e ∈ tr → only (avoids e) p →
  ∃ a t1 t2, tr = t1 ++ t2 ∧ exec p t1 (Some a) ∧ exec (f a) t2 r ∧ e ∈ t2.
Proof.
  intros [[-> Hp]|(a & t1 & t2 & -> & H1 & H2)]%exec_bind_inv Hs Hq; [by destruct (avoids_exec e p tr None)|].
  apply elem_of_app in Hs as [Hs|Hs]; [by destruct (avoids_exec e p t1 (Some a))|eauto 7].
Qed.
Lemma exec_try_event {A B} (p : flow (result Status A)) (f : A → flow (result Status B)) tr r e :
  exec (ftry p f) tr r → e ∈ tr → only (avoids e) p →
  ∃ a t1 t2, tr = t1 ++ t2 ∧ exec p t1 (Some (Ok a)) ∧ exec (f a) t2 r ∧ e ∈ t2.
Proof.
  intros He Hs Hq. destruct (exec_bind_event _ _ _ _ _ He Hs Hq) as ([a|s] & t1 & t2 & -> & H1 & H2 & H3); [eauto 7|].
  destruct H2 as [-> _]. set_solver.
Qed.
Ltac avoid := only_auto; intros ?; cbn; naive_solver.

(** ** Running a flow

    Memory and table are kept; everything else is answered from a list. *)
Inductive input :=
  | InClock (now : Z) | InDraw (b : list u8) | InSigner (r : result string (list u8)) | InLog (r : result string Z) | InSth (ok : bool)
  | InMessage (r : result Status (option (option ReqPhase))) | InSend (ok : bool) | InWrap (r : result string WrappedCredential).
Definition feed {X} (c : call X) (i : input) : option (X * event) :=
  match c in call X return option (X * event) with
  | ReadClock => match i with InClock x => Some (x, EvClock x) | _ => None end
  | RandomBytes n => match i with InDraw x => if (length x =? n)%nat then Some (x, EvDrew x) else None | _ => None end
  | SignerRng => match i with InSigner x => Some (x, EvSigner x) | _ => None end
  | AppendEvent a => match i with InLog x => Some (x, EvLogged a x) | _ => None end
  | ProduceSth now => match i with InSth x => Some (x, EvSth now x) | _ => None end
  | NextMessage => match i with InMessage x => Some (x, EvGot x) | _ => None end
  | SendMessage m => match i with InSend x => Some (x, EvSent m x) | _ => None end
  | MakeCredential ek aik s => match i with InWrap x => Some (x, EvWrapped ek aik s x) | _ => None end
  | Local _ | StoreCall _ => None
  end.
(** A call the node answers itself. *)
Definition own {X} (c : call X) (m : CmisMem) (d : Db) : option (X * event * CmisMem * Db) :=
  match c in call X return option (X * event * CmisMem * Db) with
  | Local op => Some ((op m).2, EvLocal m (op m).1, (op m).1, d)
  | StoreCall op => let r := Ok (db_apply op d).2 in Some (r, EvStore (store_event op r) d (db_apply op d).1, m, (db_apply op d).1)
  | _ => None
  end.
Fixpoint play {A} (p : flow A) (ins : list input) (m : CmisMem) (d : Db) : option (list event * A * CmisMem * Db) :=
  match p with
  | Ret a => Some ([], a, m, d)
  | Ask c k =>
      match own c m d with
      | Some (x, e, m, d) => match play (k x) ins m d with Some (tr, a, m, d) => Some (e :: tr, a, m, d) | None => None end
      | None =>
          match ins with
          | i :: ins =>
              match feed c i with
              | Some (x, e) => match play (k x) ins m d with Some (tr, a, m, d) => Some (e :: tr, a, m, d) | None => None end
              | None => None
              end
          | [] => None
          end
      end
  end.
Lemma own_answers {X} (c : call X) m d x e m' d' h m2 d2 : own c m d = Some (x, e, m', d') →
  answers c x e ∧ (chained m' d' h m2 d2 → chained m d (e :: h) m2 d2).
Proof. destruct c; cbn; intros [= <- <- <- <-]; cbn; [|]; split; eauto. Qed.
Lemma feed_answers {X} (c : call X) i x e m d h m2 d2 : feed c i = Some (x, e) →
  answers c x e ∧ (chained m d h m2 d2 → chained m d (e :: h) m2 d2).
Proof.
  destruct c, i; cbn; try done; try (by intros [= <- <-]).
  destruct (Nat.eqb_spec (length b) n); [|done]. by intros [= <- <-].
Qed.
Lemma play_exec {A} (p : flow A) ins m d tr a m' d' :
  play p ins m d = Some (tr, a, m', d') → exec p tr (Some a) ∧ chained m d tr m' d'.
Proof.
  revert ins m d tr. induction p as [b|X c k IH]; intros ins m d tr; cbn; [intros [= <- <- <- <-]; by split_and!; auto|].
  destruct (own c m d) as [[[[x e] m1] d1]|] eqn:Eo.
  - destruct (play (k x) ins m1 d1) as [[[[t b] m2] d2]|] eqn:Ep; [|done]. intros [= <- <- <- <-].
    destruct (IH _ _ _ _ _ Ep) as [He Hc]. destruct (own_answers c _ _ _ _ _ _ t m2 d2 Eo) as [Ha Hc']. split; [right; by exists x, e, t|by apply Hc'].
  - destruct ins as [|i ins]; [done|]. destruct (feed c i) as [[x e]|] eqn:Ef; [|done].
    destruct (play (k x) ins m d) as [[[[t b] m2] d2]|] eqn:Ep; [|done]. intros [= <- <- <- <-].
    destruct (IH _ _ _ _ _ Ep) as [He Hc]. destruct (feed_answers c _ _ _ m d t m2 d2 Ef) as [Ha Hc']. split; [right; by exists x, e, t|by apply Hc'].
Qed.
