(* ===== verification/CmisProofs.v ===== *)
(** What the identity server's handlers guarantee in every execution: an SVID is only sent at
    the end of a complete handshake, revocation and its lifting, the keys and pins a node
    keeps, forwarded events. *)
From stdpp Require Import gmap.
From S2P Require Import Prelude AppModel AppDedup Order Composite AllowlistV2 AllowlistCompile AppPath HostCache Svid HostAuth HelperProto CallerAuth Tpm Rim Attest Fleet CmisState CmisService CmisExec.
Open Scope Z_scope.

(** ** Helpers of the service *)
Lemma quiet_audit_record e now : only quiet (audit_record e now).
Proof. unfold audit_record. only_auto. Qed.
#[export] Hint Resolve quiet_audit_record : flow.
Lemma quiet_refuse {A} o now s : only quiet (refuse (A := A) o now s).
Proof. unfold refuse, audit_fail. only_auto. Qed.
#[export] Hint Resolve quiet_refuse : flow.
Lemma quiet_next_request : only quiet next_request.
Proof. unfold next_request. only_auto. Qed.
#[export] Hint Resolve quiet_next_request : flow.
Lemma next_request_ok tr p : exec next_request tr (Some (Ok p)) → tr = [EvGot (Ok (Some (Some p)))].
Proof.
  intros (m & t1 & t2 & -> & He & Hr)%exec_try. apply exec_ask in He as (e & -> & ->). apply exec_ret in Hr as [-> Hp].
  by destruct m as [[m|]|]; [injection Hp as ->| |].
Qed.
Lemma send_ok m tr : exec (send m) tr (Some (Ok tt)) → tr = [EvSent m true].
Proof.
  intros [[? _]|(ok & t1 & t2 & -> & He & Hr)]%exec_bind_inv; [done|]. apply exec_ask in He as (e & -> & ->). apply exec_ret in Hr as [-> Hp].
  by destruct ok.
Qed.
Lemma send_sent m tr r b ok : exec (send m) tr r → EvSent (RespSvid b) ok ∈ tr → RespSvid b = m ∧ [EvSent (RespSvid b) ok] `sublist_of` tr.
Proof.
  intros Ht Hin. assert (∃ x, tr = [] ∨ tr = [EvSent m x]) as [x [->| ->]].
  - destruct (exec_bind_inv _ _ _ _ Ht) as [[_ Hn]|(x & u1 & u2 & -> & Ha & Hr)].
    + destruct Hn as [[-> _]|(x & e & u & -> & Ha & -> & _)]; [exists true; auto|]. exists x. cbn in Ha. subst e. auto.
    + apply exec_ask in Ha as (e & -> & Ha). cbn in Ha. subst e. destruct Hr as [-> _]. exists x. by right.
  - set_solver.
  - apply list_elem_of_singleton in Hin as [= -> ->]. auto.
Qed.
(** The first event of an audit record is its append. *)
Lemma audit_record_logged e now tr : exec (audit_record e now) tr (Some tt) → ∃ r t, tr = EvLogged e r :: t.
Proof.
  intros [[? _]|(r & t1 & t2 & -> & He & _)]%exec_bind_inv; [done|]. apply exec_ask in He as (e' & -> & ->). by exists r, t2.
Qed.
Lemma refuse_not_sent {A} o now s tr (r : option (result Status A)) b : exec (refuse o now s) tr r → ¬ svid_sent b tr.
Proof. apply quiet_exec, quiet_refuse. Qed.
Lemma refuse_not_ok {A} o now s tr (a : A) : exec (refuse o now s) tr (Some (Ok a)) → False.
Proof. intros [[? _]|([] & ? & ? & _ & _ & Hr)]%exec_bind_inv; [done|]. by apply exec_ret in Hr as [_ ?]. Qed.

Section Service.
Context (P : Primitives) `{SJ : !SvidJson} (Q : P256) (H : Prehash Q) (X : X509).
Context (issue_leaf : list u8 → string → Z → Z → result string (list u8)) (hex_decode : string → option (list u8)).
Context `{WJ : !Json WireIssuedRecord, RDC : !Cbor RotateDoc, AFC : !Cbor AuditForwardDoc}.
Context (cfg : CmisConfig) (issuer : Issuer P) (x509_ca : result string (list u8)) (trust : TrustStore).
Local Abbreviation sha := (λ b, vec_to_list (sha384 P b)).
Local Abbreviation issue := (issue P issue_leaf issuer).
Local Abbreviation to_bundle := (to_bundle x509_ca).
Local Abbreviation run_attest := (run_attest P Q H X issue_leaf cfg issuer x509_ca trust).
Local Abbreviation issue_and_send := (issue_and_send P issue_leaf issuer x509_ca).

Lemma quiet_record r : only quiet (record P r).
Proof. unfold record. only_auto. Qed.
Lemma quiet_publish_csr_key k : only quiet (publish_csr_key P k).
Proof. unfold publish_csr_key. only_auto. Qed.
Lemma quiet_refuse_revoked_host d now : only quiet (refuse_revoked_host P issuer d now).
Proof. unfold refuse_revoked_host. only_auto. Qed.

(** *** The end of a handshake *)

(** The event of an issuance in the audit log. *)
Definition issued_event (issued : IssuedSvid) : AuditEvent := SvidIssued (sha (as_bytes (is_jws issued))) (is_spiffe_id issued).

Lemma issue_and_send_sent params pd hn csr now tr r b :
  exec (issue_and_send params pd hn csr now) tr r → svid_sent b tr →
  ∃ rng issued lr ok, issue rng params now = Ok issued ∧ b = to_bundle issued ∧
    [EvSigner rng; EvLogged (issued_event issued) lr; EvSent (RespSvid b) ok] `sublist_of` tr.
Proof.
  intros He Hs. destruct (exec_ask_sent SignerRng _ _ _ _ I He Hs) as (rng & e & t & -> & Ha & He1 & Hs1). cbn in Ha. subst e.
  destruct (issue rng params now) as [issued|err] eqn:Ei; [|by destruct (refuse_not_sent _ _ _ _ _ _ He1 Hs1)].
  destruct (exec_bind_sent _ _ _ _ _ (quiet_audit_record _ _) He1 Hs1) as ([] & t1 & t2 & -> & (lr & t1' & ->)%audit_record_logged & He2 & Hs2).
  destruct (exec_ask_sent (Local current_epoch) _ _ _ _ I He2 Hs2) as (ep & ev & t3 & -> & _ & He3 & Hs3).
  destruct (exec_bind_sent _ _ _ _ _ (quiet_record _) He3 Hs3) as ([] & t4 & t5 & -> & _ & He4 & [ok Hs4]).
  exists rng, issued, lr, ok. split; [done|].
  destruct (send_sent _ _ _ _ _ He4 Hs4) as [[= ->] Hl]. split; [done|]. apply sub_cons. cbn [app]. apply sub_cons, sub_app, sublist_cons, sub_app. done.
Qed.
Lemma refuse_revoked_host_ok d now tr :
  exec (refuse_revoked_host P issuer d now) tr (Some (Ok tt)) →
  ∃ sid m, host_spiffe_id P issuer d = Ok sid ∧ is_host_revoked (cm_revs m) sid = false ∧ tr = [EvLocal m m].
Proof.
  unfold refuse_revoked_host. destruct (host_spiffe_id P issuer d) as [sid|]; intros He.
  2: by apply refuse_not_ok in He.
  destruct (exec_bind_inv _ _ _ _ He) as [[? _]|(rv & t1 & t2 & -> & Ha & Hr)]; [done|].
  apply exec_ask in Ha as (e & -> & m & -> & ->). cbn [snd] in Hr. destruct (is_host_revoked (cm_revs m) sid) eqn:Er.
  - by apply refuse_not_ok in Hr.
  - apply exec_ret in Hr as [-> _]. exists sid, m. auto.
Qed.
Lemma issued_subject rng params now issued sid :
  issue rng params now = Ok issued → host_spiffe_id P issuer (ip_ek_cert_sha384 params) = Ok sid → is_spiffe_id issued = sid.
Proof. unfold Svid.issue. intros Hi Hs. rewrite Hs in Hi. cbn in Hi. inv_ok Hi. by injection Hi as <-. Qed.

(** From the verified CSR on, after the events [before]: the host is not revoked at that moment, and what is sent is what
    the issuer made of these parameters, logged before. *)
Definition admitted (before : list event) (params : option (list u8) → IssueParams) (now : Z) (b : SvidBundle) (tr : list event) : Prop :=
  ∃ sub m rng issued lr ok,
    host_spiffe_id P issuer (ip_ek_cert_sha384 (params sub)) = Ok (sb_spiffe_id b) ∧
    is_host_revoked (cm_revs m) (sb_spiffe_id b) = false ∧
    issue rng (params sub) now = Ok issued ∧ b = to_bundle issued ∧
    before ++ [EvLocal m m; EvSigner rng; EvLogged (issued_event issued) lr; EvSent (RespSvid b) ok] `sublist_of` tr.
Lemma admitted_cons e before params now b tr : admitted before params now b tr → admitted (e :: before) params now b (e :: tr).
Proof. intros (sub & m & rng & i & lr & ok & ? & ? & ? & ? & ?). exists sub, m, rng, i, lr, ok. split_and!; [done..|]. by apply sub_cons. Qed.
Lemma admitted_app before params now b t1 t2 : admitted before params now b t2 → admitted before params now b (t1 ++ t2).
Proof. intros (sub & m & rng & i & lr & ok & ? & ? & ? & ? & ?). exists sub, m, rng, i, lr, ok. split_and!; [done..|]. by apply sub_app. Qed.
Lemma admitted_tail (params : option (list u8) → IssueParams) d pd hn csr now tr r b :
  (∀ sub, ip_ek_cert_sha384 (params sub) = d) →
  exec (ftry (refuse_revoked_host P issuer d now) (λ _,
    fbind (publish_csr_key P (csr_composite_pub csr)) (λ sub, issue_and_send (params sub) pd hn csr now))) tr r →
  svid_sent b tr → admitted [] params now b tr.
Proof.
  intros Hd He Hs.
  destruct (exec_try_sent _ _ _ _ _ (quiet_refuse_revoked_host _ _) He Hs) as ([] & t1 & t2 & -> & (sid & m & Hsid & Hr & ->)%refuse_revoked_host_ok & He1 & Hs1).
  destruct (exec_bind_sent _ _ _ _ _ (quiet_publish_csr_key _) He1 Hs1) as (sub & t3 & t4 & -> & _ & He2 & Hs2).
  destruct (issue_and_send_sent _ _ _ _ _ _ _ _ He2 Hs2) as (rng & issued & lr & ok & Hi & -> & Hl).
  assert (sb_spiffe_id (to_bundle issued) = sid) as Hsb.
  { rewrite <-(issued_subject rng (params sub) now issued sid Hi) by (by rewrite Hd). unfold CmisService.to_bundle.
    by destruct (is_x509 issued), x509_ca. }
  exists sub, m, rng, issued, lr, ok. rewrite Hsb, Hd. split_and!; [done..|]. cbn [app]. by apply sub_cons, sub_app.
Qed.

(** *** The gate on the fleet manifest *)
Lemma pre_admission_sent d now k tr r b :
  exec (pre_admission d now k) tr r → svid_sent b tr →
  ∃ m t1 t2, fleet_decide (cm_fleet m) d ≠ Rejected ∧ tr = EvLocal m m :: t1 ++ t2 ∧ exec k t2 r ∧ svid_sent b t2.
Proof.
  intros He Hs. destruct (exec_ask_sent (Local (check_enrollment d)) _ _ _ _ I He Hs) as (dec & e & t & -> & (m & -> & ->) & He1 & Hs1).
  cbn in He1. exists m. destruct (fleet_decide (cm_fleet m) d) eqn:Ed.
  all: try (exists [], t; by auto).
  all: destruct (exec_bind_sent _ _ _ _ _ (quiet_audit_record _ _) He1 Hs1) as ([] & t1 & t2 & -> & _ & He2 & Hs2); try by eauto 7.
  destruct He2 as [-> _], Hs2 as [ok Hs2]. set_solver.
Qed.

(** *** The handshakes *)
Definition got (p : ReqPhase) : event := EvGot (Ok (Some (Some p))).

(** The events that lead to the SVID of a TPM host, with what was checked at each. *)
Definition tpm_handshake (b : SvidBundle) (tr : list event) : Prop :=
  ∃ now nonce init mf mr verified secret wrapped csr,
    length nonce = 32%nat ∧ length secret = 32%nat ∧ in_host_key init = None ∧
    fleet_decide (cm_fleet mf) (sha (in_ek_cert init)) ≠ Rejected ∧
    verify_quote P Q H X trust (cm_rim mr) (quote_request init nonce now) = Ok verified ∧
    verify_aik_signature P Q H (in_aik_pub init) (csr_composite_pub csr) (csr_aik_sig csr) = Ok tt ∧
    admitted
      [EvClock now; EvDrew nonce; EvSent (RespNonce nonce) true; got (ReqInit init); EvLocal mf mf; EvLocal mr mr; EvDrew secret;
       EvWrapped (in_ek_cert init) (in_aik_pub init) secret (Ok wrapped);
       EvSent (RespChallenge (wc_credential_blob wrapped) (wc_secret_blob wrapped)) true;
       got (ReqChallengeResponse secret); got (ReqCsr csr)]
      (λ sub, {| ip_ek_cert_sha384 := sha (in_ek_cert init); ip_pcr_digest := vq_pcr_digest verified; ip_policy_id := vq_policy_id verified;
                 ip_dpop_jkt := csr_dpop_jkt csr; ip_ttl_secs := cf_svid_ttl_secs cfg; ip_tee_evidence_id := None; ip_subject_pub := sub |})
      now b tr.
(** The events that lead to the SVID of a host key. *)
Definition host_key_handshake (b : SvidBundle) (tr : list event) : Prop :=
  ∃ now nonce init ev facts fp mf mb mb' csr,
    length nonce = 32%nat ∧ in_host_key init = Some ev ∧
    facts = default {| mf_board_serial := ""; mf_platform_uuid := ""; mf_disk_serial := "" |} (hk_facts ev) ∧
    verify_host_key_evidence P Q (mf_board_serial facts) (mf_platform_uuid facts) (mf_disk_serial facts)
      (hk_fingerprint ev) (hk_sep_pub ev) nonce (hk_signature ev) = Ok fp ∧
    fleet_decide (cm_fleet mf) fp ≠ Rejected ∧
    (match preregistered (cm_fleet mb) fp with
     | Some expected => expected = hk_sep_pub ev ∧ mb' = mb
     | None => cf_require_preregistered_host_key cfg = false ∧ cm_pins mb' !! fp = Some (hk_sep_pub ev) ∧
               (cm_pins mb !! fp = Some (hk_sep_pub ev) ∨ cm_pins mb !! fp = None)
     end) ∧
    verify_host_key_csr Q (hk_sep_pub ev) (csr_composite_pub csr) (csr_aik_sig csr) = Ok tt ∧
    admitted
      [EvClock now; EvDrew nonce; EvSent (RespNonce nonce) true; got (ReqInit init); EvLocal mf mf; EvLocal mb mb'; got (ReqCsr csr)]
      (λ sub, {| ip_ek_cert_sha384 := fp; ip_pcr_digest := fp; ip_policy_id := TIER_HOST_KEY; ip_dpop_jkt := csr_dpop_jkt csr;
                 ip_ttl_secs := default (cf_svid_ttl_secs cfg) (cf_host_key_svid_ttl_secs cfg); ip_tee_evidence_id := None;
                 ip_subject_pub := sub |})
      now b tr.

Lemma quiet_send m : (∀ b, m ≠ RespSvid b) → only quiet (send m).
Proof. intros Hm. unfold send. apply only_bind; [|by intros ?]. apply only_ask. destruct m as [| |b]; [done..|by destruct (Hm b)]. Qed.
Lemma send_step {A} m (k : () → flow (result Status A)) tr r b :
  exec (ftry (send m) k) tr r → svid_sent b tr → (∀ b, m ≠ RespSvid b) → ∃ t, tr = EvSent m true :: t ∧ exec (k tt) t r ∧ svid_sent b t.
Proof.
  intros He Hs Hm. destruct (exec_try_sent _ _ _ _ _ (quiet_send m Hm) He Hs) as ([] & t1 & t2 & -> & ->%send_ok & He1 & Hs1). eauto.
Qed.
Lemma next_step {A} (k : ReqPhase → flow (result Status A)) tr r b :
  exec (ftry next_request k) tr r → svid_sent b tr → ∃ p t, tr = got p :: t ∧ exec (k p) t r ∧ svid_sent b t.
Proof.
  intros He Hs. destruct (exec_try_sent _ _ _ _ _ quiet_next_request He Hs) as (p & t1 & t2 & -> & ->%next_request_ok & He1 & Hs1).
  exists p, t2. auto.
Qed.
Lemma audit_step {A} e now (k : () → flow A) tr r b :
  exec (fbind (audit_record e now) k) tr r → svid_sent b tr → ∃ t1 t2, tr = t1 ++ t2 ∧ exec (k tt) t2 r ∧ svid_sent b t2.
Proof.
  intros He Hs. destruct (exec_bind_sent _ _ _ _ _ (quiet_audit_record _ _) He Hs) as ([] & t1 & t2 & -> & _ & He1 & Hs1). eauto.
Qed.
(** A branch that only refuses. *)
Ltac refused He Hs := by destruct (refuse_not_sent _ _ _ _ _ _ He Hs).

Lemma activated_sent init verified hn now tr r b :
  exec (attest_activated P Q H issue_leaf cfg issuer x509_ca init verified hn now) tr r → svid_sent b tr →
  ∃ secret wrapped csr, length secret = 32%nat ∧
    verify_aik_signature P Q H (in_aik_pub init) (csr_composite_pub csr) (csr_aik_sig csr) = Ok tt ∧
    admitted
      [EvDrew secret; EvWrapped (in_ek_cert init) (in_aik_pub init) secret (Ok wrapped);
       EvSent (RespChallenge (wc_credential_blob wrapped) (wc_secret_blob wrapped)) true;
       got (ReqChallengeResponse secret); got (ReqCsr csr)]
      (λ sub, {| ip_ek_cert_sha384 := sha (in_ek_cert init); ip_pcr_digest := vq_pcr_digest verified; ip_policy_id := vq_policy_id verified;
                 ip_dpop_jkt := csr_dpop_jkt csr; ip_ttl_secs := cf_svid_ttl_secs cfg; ip_tee_evidence_id := None; ip_subject_pub := sub |})
      now b tr.
Proof.
  intros He Hs. destruct (exec_ask_sent (RandomBytes 32) _ _ _ _ I He Hs) as (secret & e & t1 & -> & [Hlen ->] & He1 & Hs1).
  destruct (exec_ask_sent (MakeCredential _ _ _) _ _ _ _ I He1 Hs1) as (w & e & t2 & -> & Ha & He2 & Hs2). cbn in Ha. subst e.
  destruct w as [wrapped|err]; [|refused He2 Hs2].
  destruct (send_step _ _ _ _ _ He2 Hs2 ltac:(done)) as (t3 & -> & He3 & Hs3).
  destruct (next_step _ _ _ _ He3 Hs3) as (p & t4 & -> & He4 & Hs4).
  destruct p as [i|resp|c]; [refused He4 Hs4| |refused He4 Hs4].
  destruct (credential_secret_matches secret resp) eqn:Em; [|refused He4 Hs4]. apply ct_eq_spec in Em as <-. cbn [negb] in He4.
  destruct (next_step _ _ _ _ He4 Hs4) as (p & t5 & -> & He5 & Hs5). destruct p as [i|resp|csr]; [refused He5 Hs5..|].
  destruct (verify_aik_signature _ _ _ _ _ _) as [[]|] eqn:Ev; [|refused He5 Hs5].
  exists secret, wrapped, csr. split; [done|]. split; [done|]. do 5 apply admitted_cons. by eapply admitted_tail; [|exact He5|].
Qed.

Lemma host_key_sent nonce ev hn now tr r b :
  exec (run_attest_host_key P Q issue_leaf cfg issuer x509_ca nonce ev hn now) tr r → svid_sent b tr →
  ∃ facts fp mf mb mb' csr,
    facts = default {| mf_board_serial := ""; mf_platform_uuid := ""; mf_disk_serial := "" |} (hk_facts ev) ∧
    verify_host_key_evidence P Q (mf_board_serial facts) (mf_platform_uuid facts) (mf_disk_serial facts)
      (hk_fingerprint ev) (hk_sep_pub ev) nonce (hk_signature ev) = Ok fp ∧
    fleet_decide (cm_fleet mf) fp ≠ Rejected ∧
    (match preregistered (cm_fleet mb) fp with
     | Some expected => expected = hk_sep_pub ev ∧ mb' = mb
     | None => cf_require_preregistered_host_key cfg = false ∧ cm_pins mb' !! fp = Some (hk_sep_pub ev) ∧
               (cm_pins mb !! fp = Some (hk_sep_pub ev) ∨ cm_pins mb !! fp = None)
     end) ∧
    verify_host_key_csr Q (hk_sep_pub ev) (csr_composite_pub csr) (csr_aik_sig csr) = Ok tt ∧
    admitted [EvLocal mf mf; EvLocal mb mb'; got (ReqCsr csr)]
      (λ sub, {| ip_ek_cert_sha384 := fp; ip_pcr_digest := fp; ip_policy_id := TIER_HOST_KEY; ip_dpop_jkt := csr_dpop_jkt csr;
                 ip_ttl_secs := default (cf_svid_ttl_secs cfg) (cf_host_key_svid_ttl_secs cfg); ip_tee_evidence_id := None;
                 ip_subject_pub := sub |}) now b tr.
Proof.
  intros He Hs. unfold run_attest_host_key in He. set (facts := default _ (hk_facts ev)) in He.
  destruct (verify_host_key_evidence _ _ _ _ _ _ _ _ _) as [fp|] eqn:Ee; [|refused He Hs].
  destruct (pre_admission_sent _ _ _ _ _ _ He Hs) as (mf & t1 & t2 & Hf & -> & He1 & Hs1).
  destruct (exec_ask_sent (Local (bind_host_key _ _ _)) _ _ _ _ I He1 Hs1) as (bnd & e & t3 & -> & (mb & Hb & ->) & He2 & Hs2).
  set (mb' := (bind_host_key fp (hk_sep_pub ev) (cf_require_preregistered_host_key cfg) mb).1).
  assert (bnd ≠ KeyMismatch ∧ bnd ≠ RejectedNotPreRegistered ∧ ∃ csr,
    verify_host_key_csr Q (hk_sep_pub ev) (csr_composite_pub csr) (csr_aik_sig csr) = Ok tt ∧ 
    admitted [got (ReqCsr csr)]
      (λ sub, {| ip_ek_cert_sha384 := fp; ip_pcr_digest := fp; ip_policy_id := TIER_HOST_KEY; ip_dpop_jkt := csr_dpop_jkt csr;
                 ip_ttl_secs := default (cf_svid_ttl_secs cfg) (cf_host_key_svid_ttl_secs cfg); ip_tee_evidence_id := None;
                 ip_subject_pub := sub |}) now b t3) as (Hn1 & Hn2 & csr & Hcsr & Had).
  { destruct bnd; destruct (audit_step _ _ _ _ _ _ He2 Hs2) as (t4 & t5 & -> & He3 & Hs3).
    4,5: destruct He3 as [-> _], Hs3 as [ok Hs3]; set_solver.
    all: split; [done|]; split; [done|].
    all: destruct (next_step _ _ _ _ He3 Hs3) as (p & t6 & -> & He4 & Hs4); destruct p as [i|resp|csr]; [refused He4 Hs4..|].
    all: destruct (verify_host_key_csr _ _ _ _) as [[]|] eqn:Ev; [|refused He4 Hs4]; exists csr; split; [done|].
    all: apply admitted_app, admitted_cons; by eapply admitted_tail; [|exact He4|]. }
  exists facts, fp, mf, mb, mb', csr. split_and!; [done..| |done|].
  - subst bnd mb'. unfold bind_host_key in *. destruct (preregistered (cm_fleet mb) fp) as [ex|].
    + cbn in *. by case_bool_decide.
    + destruct (cf_require_preregistered_host_key cfg); [done|]. destruct (cm_pins mb !! fp) as [ex|] eqn:Ep; cbn in *.
      * case_bool_decide as Hx; [subst ex|done]. rewrite Ep. auto.
      * rewrite lookup_insert_eq. auto.
  - apply admitted_cons, admitted_app, admitted_cons. done.
Qed.

(** C2: in every execution of the attestation handler, whatever else the node does meanwhile and
    whatever the peer sends, an SVID leaves only at the end of a complete handshake.  A TPM
    host: a fresh 32-byte nonce was drawn and sent, the fleet manifest admits the EK
    certificate, the quote over that nonce verifies under the reference measurements of the
    moment, a fresh secret was wrapped for the EK and AIK and that very secret came back, and
    the CSR is signed by the AIK.  A host key: the evidence verifies over the nonce, the key is
    the pre-registered one, or pinned to this fingerprint now, and signs the CSR.  In both the
    host is not revoked at the moment asked, and an append of the issuance to the audit log was
    made before the SVID was sent ([lr] is its outcome: a failed append is only reported, and
    the SVID is sent nevertheless). *)
Theorem attestation_sound tr r b : exec run_attest tr r → svid_sent b tr → tpm_handshake b tr ∨ host_key_handshake b tr.
Proof.
  intros He Hs. destruct (exec_ask_sent ReadClock _ _ _ _ I He Hs) as (now & e & t1 & -> & Ha & He1 & Hs1). cbn in Ha. subst e.
  destruct (exec_ask_sent (RandomBytes 32) _ _ _ _ I He1 Hs1) as (nonce & e & t2 & -> & [Hlen ->] & He2 & Hs2).
  destruct (send_step _ _ _ _ _ He2 Hs2 ltac:(done)) as (t3 & -> & He3 & Hs3).
  destruct (next_step _ _ _ _ He3 Hs3) as (p & t4 & -> & He4 & Hs4). destruct p as [init|resp|c]; [|refused He4 Hs4..].
  destruct (in_host_key init) as [ev|] eqn:Ek.
  - right. destruct (host_key_sent _ _ _ _ _ _ _ He4 Hs4) as (facts & fp & mf & mb & mb' & csr & Hf & He' & Hd & Hb & Hc & Had).
    exists now, nonce, init, ev, facts, fp, mf, mb, mb', csr. split_and!; [done..|]. by do 4 apply admitted_cons.
  - left. destruct (pre_admission_sent _ _ _ _ _ _ He4 Hs4) as (mf & t5 & t6 & Hf & -> & He5 & Hs5).
    destruct (exec_ask_sent (Local (λ m, (m, cm_rim m))) _ _ _ _ I He5 Hs5) as (rim & e & t7 & -> & (mr & -> & ->) & He6 & Hs6).
    cbn [snd fst] in *. destruct (verify_quote _ _ _ _ _ _ _) as [verified|] eqn:Ev; [|refused He6 Hs6].
    destruct (audit_step _ _ _ _ _ _ He6 Hs6) as (t8 & t9 & -> & He7 & Hs7).
    destruct (activated_sent _ _ _ _ _ _ _ He7 Hs7) as (secret & wrapped & csr & Hl & Hc & Had).
    exists now, nonce, init, mf, mr, verified, secret, wrapped, csr. split_and!; [done..|].
    do 5 apply admitted_cons. apply admitted_app, admitted_cons, admitted_app. done.
Qed.
End Service.
