(* ===== verification/CmisRenewal.v ===== *)
(** Renewal (service.rs, state.rs): the stored form of a record round-trips, a renewal that
    succeeds was entitled to, and of two that race from one SVID at most one lands. *)
From stdpp Require Import gmap.
From S2P Require Import Prelude AppModel AppDedup Order Composite AllowlistV2 AllowlistCompile AppPath HostCache Svid HostAuth HelperProto CallerAuth Tpm Rim Attest Fleet CmisState CmisService CmisExec CmisProofs.
Open Scope Z_scope.

(** ** The stored form *)
Section Wire.
Context (P : Primitives) (hex_decode : string → option (list u8)) `{WJ : !Json WireIssuedRecord, WJL : !JsonLaws WireIssuedRecord}.
Hypothesis hex_inverse : ∀ b, hex_decode (hex_encode P b) = Some b.

(** The digests of a record have their length. *)
Definition record_sized (r : IssuedRecord) : Prop :=
  length (ip_ek_cert_sha384 (ir_params r)) = 48%nat ∧ length (ip_pcr_digest (ir_params r)) = 48%nat ∧
  length (la_pcr_digest (ir_last_attestation r)) = 48%nat.

Lemma hex_48_inverse field b : length b = 48%nat → hex_48 hex_decode field (hex_encode P b) = Ok b.
Proof using hex_inverse. intros Hl. unfold hex_48. by rewrite hex_inverse, Hl. Qed.
Lemma hex_48_ok field s b : hex_48 hex_decode field s = Ok b → length b = 48%nat.
Proof.
  unfold hex_48. destruct (hex_decode s) as [v|]; [|done]. destruct (Nat.eqb_spec (length v) 48); [|done]. by intros [= <-].
Qed.
Lemma hex_opt_inverse field o : hex_opt hex_decode field (hex_encode P <$> o) = Ok o.
Proof using hex_inverse. destruct o as [b|]; [|done]. cbn. by rewrite hex_inverse. Qed.
Lemma into_from_record r : record_sized r → into_record hex_decode (from_record P r) = Ok r.
Proof using hex_inverse.
  intros (H1 & H2 & H3). unfold into_record, from_record.
  cbn [wi_subject_pub_hex wi_ek_cert_sha384_hex wi_pcr_digest_hex wi_last_pcr_digest_hex wi_x509_leaf_der_hex wi_child_pub_hex].
  rewrite !hex_opt_inverse, !hex_48_inverse by done. cbn. by destruct r as [[] [] [] ? ?].
Qed.
Lemma record_round_trip r bytes : record_sized r → record_encode P r = Ok bytes → record_decode hex_decode bytes = Ok r.
Proof using hex_inverse WJL.
  intros Hs He. unfold record_encode in He. destruct (to_vec (from_record P r)) as [b|] eqn:Eb; [|done]. injection He as <-.
  unfold record_decode. rewrite (from_to _ _ Eb). cbn. by apply into_from_record.
Qed.
Lemma record_decode_sized bytes r : record_decode hex_decode bytes = Ok r → record_sized r.
Proof.
  unfold record_decode, into_record. intros H. inv_ok H. injection H as <-. cbn.
  repeat match goal with Hh : hex_48 _ _ _ = Ok _ |- _ => apply hex_48_ok in Hh end. done.
Qed.
End Wire.

(** ** What leaves the table as it was *)
Definition still (e : event) : Prop := match e with EvStore _ d d' => d' = d | _ => True end.
Definition readonly X (c : call X) : Prop :=
  match c with StoreCall (UpsertSvid _ _ _) | StoreCall (ReplaceSvid _ _ _ _) => False | _ => True end.
Lemma readonly_exec {A} (p : flow A) tr r : only readonly p → exec p tr r → Forall still tr.
Proof.
  revert tr. induction p as [a|X c k IH]; intros tr; cbn.
  - by intros _ [-> _].
  - intros [Hc Hk] [[-> _]|(x & e & tr' & -> & Ha & Hx)]; [done|]. constructor; [|by apply (IH x)]. clear IH Hk Hx.
    destruct c as [Y op|Y op| | | | | | | |]; cbn in Ha; try (subst; exact I).
    + by destruct Ha as (? & _ & ->).
    + destruct Ha as (d & [[_ ->]|(s & _ & [->| ->])]); cbn; [by destruct op..|done].
    + by destruct Ha as [_ ->].
Qed.
Lemma still_chained h m d m' d' : Forall still h → chained m d h m' d' → d' = d.
Proof.
  intros Hf. revert m d. induction Hf as [|e h He _ IH]; intros m d; cbn; [by intros [_ ->]|].
  destruct e; try apply IH; intros [-> Hc]; [by apply IH in Hc|]. cbn in He. subst. by apply IH in Hc.
Qed.
Lemma chained_app h1 h2 m d m' d' : chained m d (h1 ++ h2) m' d' → ∃ m1 d1, chained m d h1 m1 d1 ∧ chained m1 d1 h2 m' d'.
Proof.
  revert m d. induction h1 as [|e h1 IH]; intros m d; cbn; [by exists m, d|].
  destruct e; try (intros Hc; by apply IH); intros [-> Hc]; apply IH in Hc as (m1 & d1 & ? & ?); by exists m1, d1.
Qed.

(** Two traces with one marked event each, interleaved. *)
Lemma interleaving_sym {A} (l1 l2 l : list A) : interleaving l1 l2 l → interleaving l2 l1 l.
Proof. induction 1; by constructor. Qed.
Lemma interleaving_still l1 l2 l : interleaving l1 l2 l → Forall still l1 → Forall still l2 → Forall still l.
Proof. induction 1; intros H1 H2; [done|..]; [inversion H1|inversion H2]; constructor; auto. Qed.
Lemma interleaving_one pre e post l2 h :
  interleaving (pre ++ e :: post) l2 h → Forall still pre → Forall still post → Forall still l2 →
  ∃ h1 h2, h = h1 ++ e :: h2 ∧ Forall still h1 ∧ Forall still h2.
Proof.
  intros Hi. remember (pre ++ e :: post) as l1 eqn:El. revert pre El.
  induction Hi as [|x l1 l2 l Hi IH|x l1 l2 l Hi IH]; intros pre El H1 H2 H3; [by destruct pre|..].
  - destruct pre as [|y pre]; injection El as -> ->; [exists [], l; by split_and!; [..|eapply interleaving_still]|].
    inversion H1. destruct (IH pre eq_refl) as (h1 & h2 & -> & ? & ?); [done..|]. exists (y :: h1), h2. split_and!; [done|by constructor|done].
  - inversion H3. destruct (IH pre El) as (h1 & h2 & -> & ? & ?); [done..|]. exists (x :: h1), h2. split_and!; [done|by constructor|done].
Qed.
Lemma interleaving_two pre1 e1 post1 pre2 e2 post2 h :
  interleaving (pre1 ++ e1 :: post1) (pre2 ++ e2 :: post2) h → Forall still pre1 → Forall still post1 → Forall still pre2 → Forall still post2 →
  ∃ h1 h2 h3, (h = h1 ++ e1 :: h2 ++ e2 :: h3 ∨ h = h1 ++ e2 :: h2 ++ e1 :: h3) ∧ Forall still h1 ∧ Forall still h2 ∧ Forall still h3.
Proof.
  intros Hi. remember (pre1 ++ e1 :: post1) as l1 eqn:E1. remember (pre2 ++ e2 :: post2) as l2 eqn:E2. revert pre1 E1 pre2 E2.
  induction Hi as [|x l1 l2 l Hi IH|x l1 l2 l Hi IH]; intros pre1 E1 pre2 E2 H1 H2 H3 H4; [by destruct pre1|..].
  - destruct pre1 as [|y pre1]; injection E1 as -> ->.
    + subst l2. apply interleaving_sym in Hi. destruct (interleaving_one _ _ _ _ _ Hi) as (h1 & h2 & -> & ? & ?); [done..|].
      exists [], h1, h2. split_and!; [by left|done..].
    + inversion H1. destruct (IH pre1 eq_refl pre2 E2) as (h1 & h2 & h3 & Hh & ? & ? & ?); [done..|]. exists (y :: h1), h2, h3.
      split_and!; [destruct Hh as [->| ->]; auto|by constructor|done..].
  - destruct pre2 as [|y pre2]; injection E2 as -> ->.
    + subst l1. destruct (interleaving_one _ _ _ _ _ Hi) as (h1 & h2 & -> & ? & ?); [done..|].
      exists [], h1, h2. split_and!; [by right|done..].
    + inversion H3. destruct (IH pre1 E1 pre2 eq_refl) as (h1 & h2 & h3 & Hh & ? & ? & ?); [done..|]. exists (y :: h1), h2, h3.
      split_and!; [destruct Hh as [->| ->]; auto|by constructor|done..].
Qed.

(** ** A renewal that succeeds *)
Section Renewal.
Context (P : Primitives) `{SJ : !SvidJson} (Q : P256).
Context (issue_leaf : list u8 → string → Z → Z → result string (list u8)) (hex_decode : string → option (list u8)).
Context `{WJ : !Json WireIssuedRecord, RDC : !Cbor RotateDoc}.
Context (issuer : Issuer P) (x509_ca : result string (list u8)).
Local Abbreviation sha := (λ b, vec_to_list (sha384 P b)).
Local Abbreviation issue := (issue P issue_leaf issuer).
Local Abbreviation rotate := (rotate P Q issue_leaf hex_decode issuer x509_ca).
Local Abbreviation record_decode := (record_decode hex_decode).

Lemma authenticate_flow_ok {D E} `{!HostCallDoc D, !DocError E} (call : HostCall D E) now tr h doc :
  exec (authenticate_flow P Q issuer call now) tr (Some (Ok (h, doc))) →
  ∃ m svid t, auth_checks P Q issuer (cm_revs m) call now = Ok (svid, doc) ∧ h = authenticated svid ∧ tr = EvLocal m m :: t ∧ Forall still t.
Proof.
  intros [[? _]|(revs & t1 & t2 & -> & Ha & He)]%exec_bind_inv; [done|]. apply exec_ask in Ha as (e & -> & m & -> & ->). cbn [snd fst] in *.
  destruct (auth_checks P Q issuer (cm_revs m) call now) as [[svid doc']|s] eqn:Ec; [|by apply exec_ret in He as [_ ?]].
  assert (Forall still t2) as Hs by (eapply readonly_exec; [|exact He]; only_auto).
  apply exec_try in He as (? & u1 & u2 & -> & _ & He). apply exec_try in He as (? & u3 & u4 & -> & _ & He).
  apply exec_try in He as (? & u5 & u6 & -> & _ & He). apply exec_ret in He as [-> [= <- <-]]. by exists m, svid, (u1 ++ u3 ++ u5 ++ []).
Qed.
Lemma fetch_ok sid tr x : exec (ask (StoreCall (FetchSvid sid))) tr (Some (Ok x)) → ∃ d, tr = [EvStore (DidFetch sid (Ok x)) d d] ∧ d !! sid = x.
Proof. intros (e & -> & d & [[[= ->] ->]|(s & ? & _)])%exec_ask; [|done]. by exists d. Qed.
Lemma lookup_checked_some sid tr rec :
  exec (lookup_checked hex_decode sid) tr (Some (Ok (Some rec))) →
  ∃ current d, tr = [EvStore (DidFetch sid (Ok (Some current))) d d] ∧ d !! sid = Some current ∧ record_decode current = Ok rec.
Proof.
  intros [[? _]|(r & t1 & t2 & -> & Ha & He)]%exec_bind_inv; [done|]. apply exec_ret in He as [-> He].
  destruct r as [[current|]|]; [|done..]. destruct (CmisState.record_decode hex_decode current) as [rec'|] eqn:Ed; [|done]. injection He as ->.
  apply fetch_ok in Ha as (d & -> & Hd). by exists current, d.
Qed.
Lemma replace_landed sid dg bundle tr :
  exec (replace_bundle_if_current P hex_decode sid dg bundle) tr (Some SwapReplaced) →
  ∃ d0 current rec payload d,
    tr = [EvStore (DidFetch sid (Ok (Some current))) d0 d0; EvStore (DidReplace sid current payload (Ok true)) d (<[sid := payload]> d)] ∧
    d !! sid = Some current ∧ record_decode current = Ok rec ∧ jws_sha384 P (is_jws (ir_bundle rec)) = dg ∧
    record_encode P (with_bundle bundle rec) = Ok payload.
Proof.
  intros [[? _]|(r & t1 & t2 & -> & Ha & He)]%exec_bind_inv; [done|].
  destruct r as [[current|]|]; [|by apply exec_ret in He as [_ ?]..]. apply fetch_ok in Ha as (d0 & -> & Hd0).
  destruct (CmisState.record_decode hex_decode current) as [rec|] eqn:Ed; [|by apply exec_ret in He as [_ ?]].
  case_bool_decide as Hj; [|by apply exec_ret in He as [_ ?]]. cbn [negb] in He.
  destruct (record_encode P (with_bundle bundle rec)) as [payload|] eqn:Ee; [|by apply exec_ret in He as [_ ?]].
  apply exec_bind_inv in He as [[? _]|(r & u1 & u2 & -> & Ha & He)]; [done|]. apply exec_ret in He as [-> He].
  destruct r as [[]|]; [|done..]. apply exec_ask in Ha as (e & -> & d & [[Hx ->]|(s & ? & _)]); [|done]. cbn in *.
  case_bool_decide as Hc; [|done]. by exists d0, current, rec, payload, d.
Qed.

(** The facts behind a renewal. *)
Record renewed (req : RotateRequest) (b : SvidBundle) (tr : list event) (auth : HostCallAuth) (svid : HostSvid) (current payload : list u8)
    (rec : IssuedRecord) (issued : IssuedSvid) (pre : list event) (d : Db) (post : list event) : Prop := {
  rn_call : ∃ now doc m dj, call_facts P Q issuer (cm_revs m) (rotate_call P req) now svid doc auth dj ∧
    (** the record the new SVID is issued from, its state unchanged since its attestation *)
    ∃ current0 rec0 d0 me rng lr, record_decode current0 = Ok rec0 ∧ jws_sha384 P (is_jws (ir_bundle rec0)) = jws_sha384 P (ha_svid_jws auth) ∧
      decide_renewal (ir_last_attestation rec0) now (rd_state_digest doc) (cm_epoch me) = ShortPath ∧
      issue rng (ir_params rec0) now = Ok issued ∧
      [EvClock now; EvLocal m m; EvStore (DidFetch (hs_spiffe_id svid) (Ok (Some current0))) d0 d0; EvLocal me me; EvSigner rng] `sublist_of` pre ∧
      [EvLogged (issued_event P issued) lr] `sublist_of` post;
  rn_tier : hs_tier svid = TIER_HOST_KEY;
  rn_bundle : b = to_bundle x509_ca issued;
  rn_trace : tr = pre ++ EvStore (DidReplace (hs_spiffe_id svid) current payload (Ok true)) d (<[hs_spiffe_id svid := payload]> d) :: post;
  rn_pre : Forall still pre;
  rn_post : Forall still post;
  rn_here : d !! hs_spiffe_id svid = Some current;
  rn_record : record_decode current = Ok rec;
  rn_latest : jws_sha384 P (is_jws (ir_bundle rec)) = jws_sha384 P (ha_svid_jws auth);
  rn_payload : record_encode P (with_bundle issued rec) = Ok payload }.
Lemma rotate_renewed req tr b :
  exec (rotate req) tr (Some (Ok b)) → ∃ auth svid current payload rec issued pre d post, renewed req b tr auth svid current payload rec issued pre d post.
Proof.
  intros [[? _]|(now & t0 & t & -> & Ha & He)]%exec_bind_inv; [done|]. apply exec_ask in Ha as (e & -> & Ha). cbn in Ha. subst e.
  unfold rotate_with_host_proof in He. destruct (_ <? _)%nat; [by apply exec_ret in He as [_ ?]|].
  apply exec_try in He as ([h doc] & t1 & t2 & -> & (m & svid & t1' & Hc & -> & -> & Hst)%authenticate_flow_ok & He).
  cbn [ah_tier ah_spiffe_id authenticated] in He.
  destruct (String.eqb_spec (hs_tier svid) TIER_HOST_KEY) as [Ht|]; cbn [negb] in He; [|by apply refuse_not_ok in He].
  apply auth_checks_ok in Hc as (auth & dj & Hcf).
  assert (jws_sha384 P (ha_svid_jws auth) = rd_svid_sha384 doc) as Hb.
  { pose proof (cf_bound _ _ _ _ _ _ _ _ _ _ Hcf) as Hb. pose proof (cf_auth _ _ _ _ _ _ _ _ _ _ Hcf) as Hau. cbn in Hb, Hau. rewrite Hau in Hb.
    apply andb_true_iff in Hb as [Hb%bool_decide_eq_true _]. exact Hb. }
  apply exec_bind_inv in He as [[? _]|(found & t3 & t4 & -> & Hl & He)]; [done|].
  destruct found as [[rec0|]|]; [|by apply refuse_not_ok in He..]. apply lookup_checked_some in Hl as (current0 & d0 & -> & Hd0 & Hrec0).
  case_bool_decide as Hj0; [|by apply refuse_not_ok in He]. cbn [negb] in He.
  apply exec_bind_inv in He as [[? _]|(epoch & t5 & t6 & -> & Hl & He)]; [done|]. apply exec_ask in Hl as (e & -> & me & -> & ->).
  cbn [current_epoch snd fst] in *. destruct (decide_renewal _ _ _ _) eqn:Edr; [|by apply refuse_not_ok in He].
  apply exec_bind_inv in He as [[? _]|(rng & t7 & t8 & -> & Hl & He)]; [done|]. apply exec_ask in Hl as (e & -> & Hl). cbn in Hl. subst e.
  destruct (issue rng (ir_params rec0) now) as [issued|] eqn:Ei; [|by apply refuse_not_ok in He].
  apply exec_bind_inv in He as [[? _]|(swap & t9 & t10 & -> & Hl & He)]; [done|].
  destruct swap; [|by apply refuse_not_ok in He..]. apply replace_landed in Hl as (d1 & current & rec & payload & d & -> & Hhere & Hrec & Hj & Hp).
  assert (Forall still t10) as Hpost by (eapply readonly_exec; [|exact He]; unfold audit_record; only_auto).
  apply exec_bind_inv in He as [[? _]|([] & u1 & u2 & -> & (lr & u1' & ->)%audit_record_logged & He)]; [done|]. apply exec_ret in He as [-> [= <-]].
  exists auth, svid, current, payload, rec, issued,
    (EvClock now :: EvLocal m m :: t1' ++ [EvStore (DidFetch (hs_spiffe_id svid) (Ok (Some current0))) d0 d0; EvLocal me me; EvSigner rng;
       EvStore (DidFetch (hs_spiffe_id svid) (Ok (Some current))) d1 d1]), d, ((EvLogged (issued_event P issued) lr :: u1') ++ []).
  split; [|done|done| |..|done|done|done|by rewrite Hb|done].
  - exists now, doc, m, dj. split; [done|]. exists current0, rec0, d0, me, rng, lr. split_and!; [done|by rewrite Hb|done|done| |].
    + do 2 apply sub_cons. apply sub_app. do 3 apply sub_cons. apply sublist_nil_l.
    + apply sub_cons, sublist_nil_l.
  - cbn. by rewrite <-!(assoc_L app).
  - do 2 (constructor; [done|]). apply Forall_app. split; [done|]. by repeat constructor.
Qed.

(** C12: a renewal that succeeds was called for by an attested, unrevoked host-key host whose
    key signed a fresh document over the presented SVID; the stored record still holds that
    SVID when it is read and again when it is replaced, so the replacement is atomic; the
    state reported is the attested one, under the current epoch and inside the window; the new
    SVID is what the issuer made of the stored parameters, and it is appended to the audit log. *)
Theorem renewal_sound req tr b :
  exec (rotate req) tr (Some (Ok b)) →
  ∃ auth svid current payload rec issued pre d post, renewed req b tr auth svid current payload rec issued pre d post.
Proof. apply rotate_renewed. Qed.

Context `{WJL : !JsonLaws WireIssuedRecord}.
Hypothesis hex_inverse : ∀ b, hex_decode (hex_encode P b) = Some b.

(** What a landed renewal leaves in the table. *)
Lemma renewed_leaves req b tr auth svid current payload rec issued pre d post :
  renewed req b tr auth svid current payload rec issued pre d post →
  ∃ rec', record_decode payload = Ok rec' ∧ is_jws (ir_bundle rec') = sb_jws b.
Proof using hex_inverse WJL.
  intros R. destruct R. exists (with_bundle issued rec). split.
  - eapply record_round_trip; [done..| |exact rn_payload0]. exact (record_decode_sized _ _ _ rn_record0).
  - rewrite rn_bundle0. cbn. unfold to_bundle. by destruct (is_x509 issued), x509_ca.
Qed.

(** The later of two renewals finds what the earlier one left. *)
Lemma later_renewal_sees req1 b1 tr1 auth1 svid1 cur1 pay1 rec1 i1 pre1 d1 post1 req2 b2 tr2 auth2 svid2 cur2 pay2 rec2 i2 pre2 d2 post2
    h1 h2 h3 m d m' d' :
  renewed req1 b1 tr1 auth1 svid1 cur1 pay1 rec1 i1 pre1 d1 post1 → renewed req2 b2 tr2 auth2 svid2 cur2 pay2 rec2 i2 pre2 d2 post2 →
  hs_spiffe_id svid1 = hs_spiffe_id svid2 → Forall still h2 →
  chained m d (h1 ++ EvStore (DidReplace (hs_spiffe_id svid1) cur1 pay1 (Ok true)) d1 (<[hs_spiffe_id svid1 := pay1]> d1) :: h2 ++
    EvStore (DidReplace (hs_spiffe_id svid2) cur2 pay2 (Ok true)) d2 (<[hs_spiffe_id svid2 := pay2]> d2) :: h3) m' d' →
  jws_sha384 P (sb_jws b1) = jws_sha384 P (ha_svid_jws auth2).
Proof using hex_inverse WJL.
  intros R1 R2 Hid Hst Hc. apply chained_app in Hc as (m1 & x1 & _ & [-> Hc]). apply chained_app in Hc as (m2 & x2 & Hs & [-> _]).
  apply still_chained in Hs as ->; [|done]. destruct (renewed_leaves _ _ _ _ _ _ _ _ _ _ _ _ R1) as (rec' & Hrec' & <-).
  destruct R2. unfold Db in *. rewrite Hid, lookup_insert_eq in rn_here0. injection rn_here0 as <-. rewrite Hrec' in rn_record0. by injection rn_record0 as <-.
Qed.

(** C8: of two renewals that race from one SVID of a host at most one lands: in every history of
    the two, the compare-and-swap lets both succeed only if one of the new SVIDs has the digest
    of the presented one.  (The store keeps what is written and reads it back.) *)
Theorem one_renewal_lands req1 req2 auth1 auth2 tr1 tr2 b1 b2 h m d m' d' :
  exec (rotate req1) tr1 (Some (Ok b1)) → exec (rotate req2) tr2 (Some (Ok b2)) →
  interleaving tr1 tr2 h → chained m d h m' d' →
  rr_auth req1 = Some auth1 → rr_auth req2 = Some auth2 → ha_svid_jws auth1 = ha_svid_jws auth2 →
  jws_sha384 P (sb_jws b1) = jws_sha384 P (ha_svid_jws auth1) ∨ jws_sha384 P (sb_jws b2) = jws_sha384 P (ha_svid_jws auth1).
Proof using hex_inverse WJL.
  intros He1 He2 Hi Hc Ha1 Ha2 Hsame. apply rotate_renewed in He1 as (a1 & s1 & c1 & p1 & r1 & i1 & pre1 & d1 & post1 & R1).
  apply rotate_renewed in He2 as (a2 & s2 & c2 & p2 & r2 & i2 & pre2 & d2 & post2 & R2).
  assert (a1 = auth1 ∧ a2 = auth2 ∧ hs_spiffe_id s1 = hs_spiffe_id s2) as (-> & -> & Hid).
  { destruct (rn_call _ _ _ _ _ _ _ _ _ _ _ _ R1) as (? & ? & ? & dj1 & C1 & _), (rn_call _ _ _ _ _ _ _ _ _ _ _ _ R2) as (? & ? & ? & dj2 & C2 & _).
    destruct C1 as [A1 _ [D1 _ _ _ _ _ S1 _] _ _ _ _ _ _], C2 as [A2 _ [D2 _ _ _ _ _ S2 _] _ _ _ _ _ _]. cbn in A1, A2.
    rewrite Ha1 in A1. rewrite Ha2 in A2. injection A1 as <-. injection A2 as <-. rewrite <-Hsame, D1 in D2. injection D2 as <-. by rewrite S1, S2. }
  rewrite (rn_trace _ _ _ _ _ _ _ _ _ _ _ _ R1), (rn_trace _ _ _ _ _ _ _ _ _ _ _ _ R2) in Hi.
  destruct (interleaving_two _ _ _ _ _ _ _ Hi) as (h1 & h2 & h3 & Hh & _ & Hs2 & _); [by destruct R1|by destruct R1|by destruct R2|by destruct R2|].
  destruct Hh as [->| ->].
  - left. rewrite Hsame. exact (later_renewal_sees _ _ _ _ _ _ _ _ _ _ _ _ _ _ _ _ _ _ _ _ _ _ _ _ _ _ _ _ _ _ _ R1 R2 Hid Hs2 Hc).
  - right. exact (later_renewal_sees _ _ _ _ _ _ _ _ _ _ _ _ _ _ _ _ _ _ _ _ _ _ _ _ _ _ _ _ _ _ _ R2 R1 (eq_sym Hid) Hs2 Hc).
Qed.
End Renewal.
