(* ===== verification/CmisRevocation.v ===== *)
(** Revocation at the identity server: what a completed revocation publishes, that two
    publications can overtake each other, that a host is let back only on record, and that the
    audit log takes from a host only its own events. *)
From stdpp Require Import gmap.
From S2P Require Import Prelude AppModel AppDedup Order Composite AllowlistV2 AllowlistCompile AppPath HostCache Svid HostAuth HelperProto CallerAuth Tpm Rim Attest Fleet CmisState CmisService CmisExec CmisProofs CmisRenewal.
Open Scope Z_scope.

Section Revocation.
Context (P : Primitives) `{SJ : !SvidJson} (hex_decode : string → option (list u8)) `{WJ : !Json WireIssuedRecord}.
Context (issuer : Issuer P) (x509_ca : result string (list u8)).
Local Abbreviation revoke_host := (revoke_host P issuer).
Local Abbreviation publish_crl_flow := (publish_crl_flow P issuer).
Local Abbreviation unrevoke_host_rpc := (unrevoke_host_rpc P hex_decode issuer).

(** *** Publication *)
Lemma publish_flow_ok now tr n :
  exec (publish_crl_flow now) tr (Some (Ok n)) →
  ∃ m rng signed m2, let r := rev_op (cm_revs m) (OpPublish now) in
    tr = [EvLocal m (set_revs r (cm_crl m) m); EvSigner rng; EvLocal m2 (set_revs (cm_revs m2) (Some signed) m2)] ∧ n = rv_number r ∧
    issuer_sign_crl P issuer rng {| cb_issued_at := now; cb_number := n; cb_entries := rv_entries r |} = Ok signed.
Proof.
  intros [[? _]|([es k] & t1 & t2 & -> & Ha & He)]%exec_bind_inv; [done|]. apply exec_ask in Ha as (e & -> & m & [= -> ->] & ->).
  apply exec_bind_inv in He as [[? _]|(rng & t3 & t4 & -> & Ha & He)]; [done|]. apply exec_ask in Ha as (e & -> & Ha). cbn in Ha. subst e.
  destruct (issuer_sign_crl P issuer rng _) as [signed|] eqn:Es; [|by apply exec_ret in He as [_ ?]].
  apply exec_bind_inv in He as [[? _]|([] & t5 & t6 & -> & Ha & He)]; [done|]. apply exec_ask in Ha as (e & -> & m2 & _ & ->).
  apply exec_ret in He as [-> [= <-]]. by exists m, rng, signed, m2.
Qed.
Lemma publish_now_ok now tr n : exec (publish_crl_now P issuer now) tr (Some (Ok n)) → exec (publish_crl_flow now) tr (Some (Ok n)).
Proof.
  intros [[? _]|(r & t1 & t2 & -> & He & Hr)]%exec_bind_inv; [done|]. apply exec_ret in Hr as [-> Hr]. rewrite app_nil_r.
  destruct r; [|done]. by injection Hr as ->.
Qed.
(** *** Revocation of a host *)
Lemma revoke_host_ok admin sid reason tr n :
  exec (revoke_host (Ok admin) sid reason) tr (Some (Ok n)) →
  ∃ now m0 lr t1 t2, sid ≠ "" ∧
    tr = EvClock now :: EvLocal m0 (revoke_op (RtHost sid) (revocation_reason reason) now m0).1 ::
         (EvLogged (HostRevoked sid (revocation_reason reason) (Some admin)) lr :: t1) ++ t2 ∧
    (∃ ok, t1 = [] ∨ t1 = [EvSth now ok]) ∧ exec (publish_crl_flow now) t2 (Some (Ok n)).
Proof.
  intros [[? _]|(now & t0 & t & -> & Ha & He)]%exec_bind_inv; [done|]. apply exec_ask in Ha as (e & -> & Ha). cbn in Ha. subst e.
  destruct (String.eqb_spec sid ""); [by apply exec_ret in He as [_ ?]|].
  apply exec_bind_inv in He as [[? _]|([] & t1 & t2 & -> & Ha & He)]; [done|]. apply exec_ask in Ha as (e & -> & m0 & _ & ->).
  apply exec_bind_inv in He as [[? _]|([] & t3 & t4 & -> & Hl & He)]; [done|].
  apply exec_bind_inv in Hl as [[? _]|(lr & t5 & t6 & -> & Ha & Hl)]; [done|]. apply exec_ask in Ha as (e & -> & Ha). cbn in Ha. subst e.
  exists now, m0, lr, t6, t4. split_and!; [done|done| |by apply publish_now_ok].
  destruct lr; [|apply exec_ret in Hl as [-> _]; exists true; auto].
  apply exec_bind_inv in Hl as [[? _]|(ok & t7 & t8 & -> & Ha & Hl)]; [done|]. apply exec_ask in Ha as (e & -> & Ha). cbn in Ha. subst e.
  apply exec_ret in Hl as [-> _]. exists ok. auto.
Qed.
Lemma until_names sid x (es : list CrlEntry) : revoked_until es (RtHost sid) x → existsb (names_host sid) es = true.
Proof.
  intros (e & He & Ht & _). apply existsb_exists. exists e. split; [by apply list_elem_of_In|]. unfold names_host. by rewrite Ht, String.eqb_refl.
Qed.

Lemma revoked_then_pruned sid reason now r : 0 ≤ now < 2 ^ 62 →
  existsb (names_host sid) (rv_entries (rev_op (revoke_target (RtHost sid) reason now r) (OpPublish now))) = true.
Proof.
  intros Hnow. apply (until_names _ (sat_i64 (now + CRL_ENTRY_TTL_SECS))), (rev_op_keeps (RtHost sid) now).
  - cbn. unfold sat_i64, CRL_ENTRY_TTL_SECS, MAX_TTL_SECS. lia.
  - eexists. split; [apply replace_or_push_new|done].
Qed.

(** What others may do to the memory while a host is being revoked at [t]: anything but store a
    list, lift this revocation, or prune or date it back. *)
Definition spares (sid : string) (t : Z) (e : event) : Prop :=
  match e with
  | EvLocal before after => cm_crl after = cm_crl before ∧
      ∃ ops, Forall (keeps (RtHost sid) t) ops ∧ cm_revs after = foldl rev_op (cm_revs before) ops
  | _ => True
  end.
Lemma spares_chained sid t h m d m' d' : Forall (spares sid t) h → chained m d h m' d' →
  cm_crl m' = cm_crl m ∧ ∃ ops, Forall (keeps (RtHost sid) t) ops ∧ cm_revs m' = foldl rev_op (cm_revs m) ops.
Proof.
  intros Hf. revert m d. induction Hf as [|e h He _ IH]; intros m d; cbn [chained].
  { intros [-> _]. split; [done|]. by exists []. }
  destruct e; try apply IH; intros [-> Hc]; [|by eapply IH]. destruct He as (Hcrl & ops & Ho & Hr), (IH _ _ Hc) as (Hcrl' & ops' & Ho' & Hr').
  split; [congruence|]. exists (ops ++ ops'). split; [by apply Forall_app|]. by rewrite foldl_app, <- Hr.
Qed.
Lemma interleaving_cons_inv {A} (e : A) l1 l2 l : interleaving (e :: l1) l2 l → ∃ a b l', l2 = a ++ b ∧ l = a ++ e :: l' ∧ interleaving l1 b l'.
Proof.
  intros H. remember (e :: l1) as l0 eqn:E. revert l1 E. induction H as [|x k1 k2 k H IH|x k1 k2 k H IH]; intros l1 E; [done| |].
  - injection E as -> ->. by exists [], k2, k.
  - destruct (IH _ E) as (a & b & l' & -> & -> & Hi). by exists (x :: a), b, l'.
Qed.
Lemma interleaving_nil_inv {A} (l2 l : list A) : interleaving [] l2 l → l = l2.
Proof. remember [] as l1 eqn:E. induction 1 as [|x k1 k2 k H IH|x k1 k2 k H IH]; [done|done|]. by rewrite IH. Qed.
(** The next event of a flow among others that spare the host. *)
Lemma next_among sid t e l1 others h m d m' d' :
  interleaving (e :: l1) others h → Forall (spares sid t) others → chained m d h m' d' →
  ∃ others' h' m1 d1, interleaving l1 others' h' ∧ Forall (spares sid t) others' ∧ chained m1 d1 (e :: h') m' d' ∧
    cm_crl m1 = cm_crl m ∧ ∃ ops, Forall (keeps (RtHost sid) t) ops ∧ cm_revs m1 = foldl rev_op (cm_revs m) ops.
Proof.
  intros (a & b & h' & -> & -> & Hi)%interleaving_cons_inv [Ha Hb]%Forall_app (m1 & d1 & H1 & H2)%chained_app.
  exists b, h', m1, d1. destruct (spares_chained _ _ _ _ _ _ _ Ha H1) as [Hcrl Hr]. by split_and!.
Qed.

(** A published list that names a host, and the verifier. *)
Lemma named_list_rejects sid signed n m : is_host_revoked (cm_revs m) sid = true → cm_crl m = Some signed → cb_number (sc_body signed) = n →
  revokes_host (sc_body signed) sid = true →
  is_host_revoked (cm_revs m) sid = true ∧
  (∃ signed, js_crl (published_jwks P x509_ca m) = Some signed ∧ cb_number (sc_body signed) = n ∧ revokes_host (sc_body signed) sid = true) ∧
  (∀ jws t leeway v, verify_unrevoked P jws (published_jwks P x509_ca m) t leeway = Ok v → cl_sub (vd_claims v) ≠ sid).
Proof.
  intros Hr Hcrl Hn Hb. assert (js_crl (published_jwks P x509_ca m) = Some signed) as Hjs by (unfold published_jwks; by destruct (cm_keys m)).
  split; [done|]. split; [by exists signed|]. intros jws t leeway v Hv <-. unfold verify_unrevoked in Hv.
  destruct (svid_verify P jws _ t leeway) as [v'|]; [|done]. rewrite Hjs in Hv.
  destruct (crl_verify P signed _) as [body|] eqn:Ec; [|done]. pose proof (crl_verify_body P _ _ _ Ec) as ->. cbn [map_err] in Hv.
  destruct (is_fresh _ _ _); [|done]. cbn [negb] in Hv. destruct (revokes_svid _ _); [done|].
  destruct (revokes_host (sc_body signed) (cl_sub (vd_claims v'))) eqn:Eh; [done|]. injection Hv as ->. congruence.
Qed.

(** C16: when a revocation of a host is acknowledged, and whatever else happened on the node
    between its steps and after them except that a list was stored or the revocation of this
    host was lifted, pruned or dated back, the list in the published key set carries the
    number that was answered and names the host, and the working set refuses its attestation;
    the reference verifier, given that key set, accepts no SVID of the host at any time. *)
Theorem revoked_host_rejected admin sid reason tr n others h m d m' d' :
  exec (revoke_host (Ok admin) sid reason) tr (Some (Ok n)) →
  (∀ now, EvClock now ∈ tr → 0 ≤ now < 2 ^ 62 ∧ Forall (spares sid now) others) →
  interleaving tr others h → chained m d h m' d' →
  is_host_revoked (cm_revs m') sid = true ∧
  (∃ signed, js_crl (published_jwks P x509_ca m') = Some signed ∧ cb_number (sc_body signed) = n ∧ revokes_host (sc_body signed) sid = true) ∧
  (∀ jws t leeway v, verify_unrevoked P jws (published_jwks P x509_ca m') t leeway = Ok v → cl_sub (vd_claims v) ≠ sid).
Proof.
  clear hex_decode WJ. intros (now & m0 & lr & t1 & t2 & Hne & -> & (ok & Ht1) & Hp)%revoke_host_ok Hnow Hi Hc.
  destruct (Hnow now ltac:(set_solver)) as [Hb Ho]. clear Hnow.
  apply publish_flow_ok in Hp as (m1 & rng & signed & m2 & -> & -> & Hs).
  set (x := sat_i64 (now + CRL_ENTRY_TTL_SECS)). assert (now < x) as Hx by (unfold x, sat_i64, CRL_ENTRY_TTL_SECS, MAX_TTL_SECS; lia).
  (* the clock and the revocation *)
  destruct (next_among _ _ _ _ _ _ _ _ _ _ Hi Ho Hc) as (o1 & h1 & n1 & e1 & Hi1 & Ho1 & Hc1 & _). clear Hi Ho Hc. cbn [chained] in Hc1.
  destruct (next_among _ _ _ _ _ _ _ _ _ _ Hi1 Ho1 Hc1) as (o2 & h2 & n2 & e2 & Hi2 & Ho2 & Hc2 & _). clear Hi1 Ho1 Hc1.
  destruct Hc2 as [-> Hc2]. set (w := (revoke_op _ _ _ _).1) in Hc2.
  assert (revoked_until (rv_entries (cm_revs w)) (RtHost sid) x) as Hr by (eexists; split; [apply replace_or_push_new|done]).
  (* the audit log *)
  assert (∃ o3 h3 n3 e3, interleaving [EvLocal m1 (set_revs (rev_op (cm_revs m1) (OpPublish now)) (cm_crl m1) m1); EvSigner rng;
      EvLocal m2 (set_revs (cm_revs m2) (Some signed) m2)] o3 h3 ∧ Forall (spares sid now) o3 ∧ chained n3 e3 h3 m' d' ∧
      revoked_until (rv_entries (cm_revs n3)) (RtHost sid) x) as (o3 & h3 & n3 & e3 & Hi3 & Ho3 & Hc3 & Hr3).
  { destruct (next_among _ _ _ _ _ _ _ _ _ _ Hi2 Ho2 Hc2) as (o3 & h3 & n3 & e3 & Hi3 & Ho3 & Hc3 & _ & ops & Hops & Er).
    pose proof (rev_ops_keep _ _ _ _ Hops Hr) as Hr3. rewrite <- Er in Hr3. destruct Ht1 as [->| ->]; [by exists o3, h3, n3, e3|].
    destruct (next_among _ _ _ _ _ _ _ _ _ _ Hi3 Ho3 Hc3) as (o4 & h4 & n4 & e4 & Hi4 & Ho4 & Hc4 & _ & ops' & Hops' & Er').
    pose proof (rev_ops_keep _ _ _ _ Hops' Hr3) as Hr4. rewrite <- Er' in Hr4. by exists o4, h4, n4, e4. }
  clear Hi2 Ho2 Hc2 Ht1.
  (* the publication *)
  destruct (next_among _ _ _ _ _ _ _ _ _ _ Hi3 Ho3 Hc3) as (o5 & h5 & n5 & e5 & Hi5 & Ho5 & [<- Hc5] & _ & ops & Hops & Er).
  pose proof (rev_ops_keep _ _ _ _ Hops Hr3) as Hr5. rewrite <- Er in Hr5. set (r := rev_op (cm_revs m1) (OpPublish now)) in *.
  assert (revoked_until (rv_entries r) (RtHost sid) x) as Hr6 by (by apply (rev_op_keeps (RtHost sid) now)).
  destruct (next_among _ _ _ _ _ _ _ _ _ _ Hi5 Ho5 Hc5) as (o6 & h6 & n6 & e6 & Hi6 & Ho6 & Hc6 & _ & ops6 & Hops6 & Er6). cbn [chained] in Hc6.
  destruct (next_among _ _ _ _ _ _ _ _ _ _ Hi6 Ho6 Hc6) as (o7 & h7 & n7 & e7 & Hi7 & Ho7 & [<- Hc7] & _ & ops7 & Hops7 & Er7).
  apply interleaving_nil_inv in Hi7 as ->. destruct (spares_chained _ _ _ _ _ _ _ Ho7 Hc7) as (Hcrl & ops8 & Hops8 & Er8).
  cbn [cm_crl cm_revs set_revs] in *.
  assert (revoked_until (rv_entries (cm_revs m')) (RtHost sid) x) as Hr8.
  { rewrite Er8, Er7, Er6. by repeat apply (rev_ops_keep (RtHost sid) now). }
  apply signed_crl_body in Hs. assert (revokes_host (sc_body signed) sid = true) as Hn by (rewrite Hs; by eapply until_names).
  by eapply named_list_rejects; [|exact Hcrl|rewrite Hs|]; [eapply until_names|..].
Qed.

(** *** Two publications *)
Lemma interleaving_right_all {A} (l : list A) : interleaving [] l l.
Proof. induction l; by constructor. Qed.
Lemma interleaving_left_all {A} (l : list A) : interleaving l [] l.
Proof. induction l; by constructor. Qed.

(** The run of the periodic publisher around a revocation: it takes the working set, the whole
    revocation runs, and it stores its own list last. *)
Definition publish_start (m : CmisMem) (now : Z) : CmisMem := (prune_revs now m).1.
Definition crl_of (m : CmisMem) (now : Z) : CrlBody :=
  let r := rev_op (cm_revs m) (OpPublish now) in {| cb_issued_at := now; cb_number := rv_number r; cb_entries := rv_entries r |}.

(** C35: publications are not ordered with the numbering of the lists.  The periodic publisher
    can take the working set, an administrator's revocation be carried out, published and
    acknowledged with a higher number, and the publisher then put its older list in its place:
    the key set names a lower number than was answered and not the revoked host, although the
    revocation is acknowledged and in the working set. *)
Theorem acknowledged_revocation_unpublished admin sid reason m d now rng1 rng2 s1 s2 :
  sid ≠ "" → 0 ≤ now < 2 ^ 62 → existsb (names_host sid) (rv_entries (cm_revs m)) = false →
  let m1 := publish_start m now in
  let m2 := (revoke_op (RtHost sid) (revocation_reason reason) now m1).1 in
  issuer_sign_crl P issuer rng1 (crl_of m now) = Ok s1 → issuer_sign_crl P issuer rng2 (crl_of m2 now) = Ok s2 →
  ∃ tr1 tr2 h m' d' n1 n2,
    exec (publish_crl_flow now) tr1 (Some (Ok n1)) ∧ exec (revoke_host (Ok admin) sid reason) tr2 (Some (Ok n2)) ∧
    interleaving tr1 tr2 h ∧ chained m d h m' d' ∧ n1 < n2 ∧ is_host_revoked (cm_revs m') sid = true ∧
    ∃ signed, js_crl (published_jwks P x509_ca m') = Some signed ∧ cb_number (sc_body signed) = n1 ∧
      revokes_host (sc_body signed) sid = false.
Proof.
  intros Hne Hnow Hfree m1 m2 Hs1 Hs2.
  set (m3 := publish_start m2 now). set (m4 := set_revs (cm_revs m3) (Some s2) m3). set (m5 := set_revs (cm_revs m4) (Some s1) m4).
  exists [EvLocal m m1; EvSigner rng1; EvLocal m4 m5].
  exists [EvClock now; EvLocal m1 m2; EvLogged (HostRevoked sid (revocation_reason reason) (Some admin)) (Ok 0); EvSth now true;
          EvLocal m2 m3; EvSigner rng2; EvLocal m3 m4].
  exists [EvLocal m m1; EvSigner rng1; EvClock now; EvLocal m1 m2; EvLogged (HostRevoked sid (revocation_reason reason) (Some admin)) (Ok 0);
          EvSth now true; EvLocal m2 m3; EvSigner rng2; EvLocal m3 m4; EvLocal m4 m5].
  exists m5, d, (cb_number (crl_of m now)), (cb_number (crl_of m2 now)). split_and!.
  - unfold CmisService.publish_crl_flow. eapply (exec_bind_intro _ _ _ [EvLocal m m1]); [apply exec_ask; eexists; split; [done|]; by exists m|].
    cbn [prune_revs snd]. eapply (exec_bind_intro _ _ _ [EvSigner rng1]); [by apply exec_ask; eexists|]. fold (crl_of m now) in *.
    change (issuer_sign_crl P issuer rng1 _) with (issuer_sign_crl P issuer rng1 (crl_of m now)). rewrite Hs1.
    eapply (exec_bind_intro _ _ _ [EvLocal m4 m5]); [apply exec_ask; eexists; split; [done|]; by exists m4|]. by apply exec_ret.
  - unfold CmisService.revoke_host. eapply (exec_bind_intro _ _ _ [EvClock now]); [by apply exec_ask; eexists|].
    destruct (String.eqb_spec sid ""); [done|]. eapply (exec_bind_intro _ _ _ [EvLocal m1 m2]); [apply exec_ask; eexists; split; [done|]; by exists m1|].
    eapply (exec_bind_intro _ _ tt [EvLogged _ (Ok 0); EvSth now true]).
    { unfold audit_record. eapply (exec_bind_intro _ _ (Ok 0) [EvLogged _ (Ok 0)]); [by apply exec_ask; eexists|].
      eapply (exec_bind_intro _ _ true [EvSth now true]); [by apply exec_ask; eexists|]. by apply exec_ret. }
    unfold publish_crl_now. rewrite <-(app_nil_r [EvLocal m2 m3; _; _]). eapply (exec_bind_intro _ _ (Ok _)); [|by apply exec_ret].
    unfold CmisService.publish_crl_flow. eapply (exec_bind_intro _ _ _ [EvLocal m2 m3]); [apply exec_ask; eexists; split; [done|]; by exists m2|].
    cbn [prune_revs snd]. eapply (exec_bind_intro _ _ _ [EvSigner rng2]); [by apply exec_ask; eexists|].
    change (issuer_sign_crl P issuer rng2 _) with (issuer_sign_crl P issuer rng2 (crl_of m2 now)). rewrite Hs2.
    eapply (exec_bind_intro _ _ _ [EvLocal m3 m4]); [apply exec_ask; eexists; split; [done|]; by exists m3|]. by apply exec_ret.
  - do 2 constructor. do 7 constructor. apply interleaving_left_all.
  - by cbn.
  - cbn. lia.
  - by apply revoked_then_pruned.
  - exists s1. split_and!; [unfold published_jwks; by destruct (cm_keys m5)|by rewrite (signed_crl_body P _ _ _ _ Hs1)|].
    rewrite (signed_crl_body P _ _ _ _ Hs1). unfold revokes_host. cbn [crl_of cb_entries rev_op rv_entries].
    apply not_true_iff_false. intros (e & He & Hn)%existsb_exists. apply list_elem_of_In, elem_of_filter_list in He as [He _].
    pose proof (existsb_false _ _ _ Hfree He). congruence.
Qed.

(** *** A host is let back *)
Definition unrevoked_event (sid reason admin : string) (rec : option IssuedRecord) : AuditEvent :=
  HostUnrevoked sid (revocation_reason reason) (Some admin) ((λ rec, vec_to_list (sha384 P (as_bytes (is_jws (ir_bundle rec))))) <$> rec).
Lemma lookup_checked_ok sid tr rec :
  exec (lookup_checked hex_decode sid) tr (Some (Ok rec)) →
  ∃ o d, tr = [EvStore (DidFetch sid (Ok o)) d d] ∧ d !! sid = o ∧
    match o with Some bytes => ∃ x, record_decode hex_decode bytes = Ok x ∧ rec = Some x | None => rec = None end.
Proof.
  destruct rec as [rec|]; intros He; [destruct (lookup_checked_some _ _ _ _ He) as (c & d & -> & Hd & Hr); by exists (Some c), d; eauto|].
  apply exec_bind_inv in He as [[? _]|(r & t1 & t2 & -> & Ha & He)]; [done|]. apply exec_ret in He as [-> He].
  destruct r as [[current|]|]; [by destruct (record_decode hex_decode current)| |done]. apply fetch_ok in Ha as (d & -> & Hd). by exists None, d.
Qed.
Lemma strict_ok e now tr : exec (audit_record_strict e now) tr (Some (Ok tt)) → ∃ idx t, tr = EvLogged e (Ok idx) :: t.
Proof.
  intros [[? _]|(r & t1 & t2 & -> & Ha & He)]%exec_bind_inv; [done|]. apply exec_ask in Ha as (e' & -> & Ha). cbn in Ha. subst e'.
  destruct r as [idx|]; [by exists idx, t2|]. by apply exec_ret in He as [_ ?].
Qed.

(** The digests of the record stay revoked, the host's entry goes. *)
Lemma unrevoke_keeps sid rec now m :
  is_host_revoked (cm_revs m) sid = true →
  is_host_revoked (cm_revs (unrevoke_op sid (keep_revoked_of P rec) now m).1) sid = false ∧
  ∀ x sub, rec = Some x → is_revoked (cm_revs (unrevoke_op sid (keep_revoked_of P rec) now m).1) sub (svid_cert_sha P (is_jws (ir_bundle x))) = true.
Proof.
  unfold is_host_revoked. intros Hh. unfold unrevoke_op, unrevoke_host. destruct (List.find (names_host sid) (rv_entries (cm_revs m))) as [host|] eqn:Ef.
  2: { apply existsb_exists in Hh as (e & He & Hn). pose proof (find_none _ _ Ef e He). congruence. }
  cbn [fst cm_revs set_revs rv_entries]. split.
  - apply not_true_iff_false. intros (e & He & Hn)%existsb_exists. apply list_elem_of_In, elem_of_filter_list in He as [_ He]. by rewrite Hn in He.
  - intros x sub ->. destruct (push_missing_all (ce_reason host) now (rv_entries (cm_revs m)) (keep_revoked_of P (Some x)) (svid_cert_sha P (is_jws (ir_bundle x)))) as (e & He & Ht).
    { cbn. apply list_elem_of_here. }
    apply existsb_exists. exists e. split; [apply list_elem_of_In, elem_of_filter_list; split; [done|]; unfold names_host; by rewrite Ht|].
    unfold names_svid, eq_ignore_case. rewrite Ht. by rewrite String.eqb_refl, orb_true_r.
Qed.

(** C25: in every execution of an un-revocation, complete or not, nothing of the node changes
    before the host was found revoked, its stored record was read and the lifting was durably
    appended to the audit log: without the record of it or the store, nothing is lifted.  A
    lifting that succeeds removes the host's entry and leaves the SVID that was stored for the
    host revoked by its digest. *)
Theorem unrevoke_on_record admin sid reason tr r :
  exec (unrevoke_host_rpc (Ok admin) sid reason) tr r →
  (∀ before after, EvLocal before after ∈ tr → before ≠ after → ∃ pre rest m0 o d rec idx,
     tr = pre ++ rest ∧ EvLocal before after ∈ rest ∧ is_host_revoked (cm_revs m0) sid = true ∧ d !! sid = o ∧
     match o with Some bytes => ∃ x, record_decode hex_decode bytes = Ok x ∧ rec = Some x | None => rec = None end ∧
     [EvLocal m0 m0; EvStore (DidFetch sid (Ok o)) d d; EvLogged (unrevoked_event sid reason admin rec) (Ok idx)] `sublist_of` pre) ∧
  (∀ n, r = Some (Ok (true, n)) → ∃ mu mu' now rec, EvLocal mu mu' ∈ tr ∧ mu' = (unrevoke_op sid (keep_revoked_of P rec) now mu).1 ∧
     is_host_revoked (cm_revs mu') sid = false ∧
     (∃ o d, EvStore (DidFetch sid (Ok o)) d d ∈ tr ∧
        match o with Some bytes => ∃ x, record_decode hex_decode bytes = Ok x ∧ rec = Some x | None => rec = None end) ∧
     (∀ x sub, rec = Some x → is_revoked (cm_revs mu') sub (svid_cert_sha P (is_jws (ir_bundle x))) = true)).
Proof.
  intros He. split.
  - intros before after Hin Hne.
    destruct (exec_bind_event _ _ _ _ _ He Hin) as (now & t0 & t & -> & _ & He1 & Hin1); [avoid|].
    destruct (String.eqb sid ""); [destruct He1 as [-> _]; set_solver|]. destruct (_ <? _)%nat; [destruct He1 as [-> _]; set_solver|].
    destruct (exec_bind_event _ _ _ _ _ He1 Hin1) as (rv & t1 & t2 & -> & Ha & He2 & Hin2); [avoid|].
    apply exec_ask in Ha as (e & -> & m0 & -> & ->). cbn [snd fst] in *.
    destruct (is_host_revoked (cm_revs m0) sid) eqn:Er; cbn [negb] in He2; [|destruct He2 as [-> _]; set_solver].
    destruct (exec_bind_event _ _ _ _ _ He2 Hin2) as (found & t3 & t4 & -> & Hl & He3 & Hin3); [unfold lookup_checked; avoid|].
    destruct found as [rec|]; [|destruct He3 as [-> _]; set_solver]. apply lookup_checked_ok in Hl as (o & d & -> & Hd & Hrec).
    destruct (exec_try_event _ _ _ _ _ He3 Hin3) as ([] & t5 & t6 & -> & (idx & t5' & ->)%strict_ok & He4 & Hin4); [unfold audit_record_strict; avoid|].
    exists (t0 ++ [EvLocal m0 m0] ++ [EvStore (DidFetch sid (Ok o)) d d] ++ EvLogged (unrevoked_event sid reason admin rec) (Ok idx) :: t5'), t6, m0, o, d, rec, idx.
    split_and!; [by rewrite <-!(assoc_L app)|done..|]. apply sub_app. cbn [app]. do 3 apply sub_cons. apply sublist_nil_l.
  - intros n ->. apply exec_bind_inv in He as [[? _]|(now & t0 & t & -> & _ & He)]; [done|].
    destruct (String.eqb sid ""); [by apply exec_ret in He as [_ ?]|]. destruct (_ <? _)%nat; [by apply exec_ret in He as [_ ?]|].
    apply exec_bind_inv in He as [[? _]|(rv & t1 & t2 & -> & _ & He)]; [done|]. destruct rv; cbn [negb] in He; [|by apply exec_ret in He as [_ ?]].
    apply exec_bind_inv in He as [[? _]|(found & t3 & t4 & -> & Hl & He)]; [done|]. destruct found as [rec|]; [|by apply exec_ret in He as [_ ?]].
    apply lookup_checked_ok in Hl as (o & d & -> & Hd & Hrec). apply exec_try in He as ([] & t5 & t6 & -> & _ & He).
    apply exec_bind_inv in He as [[? _]|(existed & t7 & t8 & -> & Ha & He)]; [done|]. apply exec_ask in Ha as (e & -> & mu & -> & ->).
    apply exec_try in He as (num & t9 & t10 & -> & _ & He). apply exec_ret in He as [-> [= Hex _]].
    assert (is_host_revoked (cm_revs mu) sid = true) as Hh.
    { unfold unrevoke_op, unrevoke_host in Hex. destruct (List.find _ _) as [host|] eqn:Ef; [|done].
      apply find_some in Ef as [Hi Hn]. apply existsb_exists. eauto. }
    destruct (unrevoke_keeps sid rec now mu Hh) as [H1 H2]. exists mu, (unrevoke_op sid (keep_revoked_of P rec) now mu).1, now, rec.
    split_and!; [set_solver|done|done|exists o, d; split; [set_solver|done]|done].
Qed.
End Revocation.

(** *** Forwarded events *)
Section Forward.
Context (P : Primitives) `{SJ : !SvidJson} (Q : P256) `{AFC : !Cbor AuditForwardDoc, EC : !Cbor AuditEvent} (issuer : Issuer P).

(** C26: in every execution, an event reaches the audit log through a host's call only when it is
    one of the five kinds agents produce, it is the decoding of the bytes whose digest is in a
    document signed by the key of an unrevoked SVID of the issuer, and, where it names a host,
    it names the authenticated one: no host can write issuance, revocation or administration
    records, or allowlist outcomes of another host. *)
Theorem forwarded_events_owned req tr r e lr :
  exec (append_audit_event P Q issuer req) tr r → EvLogged e lr ∈ tr →
  from_reader (aa_event_cbor req) = Ok e ∧
  match e with
  | LocalGrant _ _ _ _ | LocalDenied _ _ _ _ | ConfigChanged _ _ _ => True
  | AllowlistSyncApplied h _ | AllowlistSyncRejected h _ _ => ∃ auth dj, jws_decode P (ha_svid_jws auth) = Ok dj ∧ aa_auth req = Some auth ∧ host_of_sub (cl_sub (dj_claims dj)) = Some h
  | _ => False
  end ∧
  ∃ now m svid auth doc dj, call_facts P Q issuer (cm_revs m) (forward_call P req) now svid doc auth dj ∧
    vec_to_list (sha384 P (aa_event_cbor req)) = af_event_sha384 doc ∧
    [EvClock now; EvLocal m m; EvLogged e lr] `sublist_of` tr.
Proof.
  intros He Hin. destruct (exec_bind_event _ _ _ _ _ He Hin) as (now & t0 & t & -> & Ha & He1 & Hin1); [avoid|].
  apply exec_ask in Ha as (ev & -> & Ha). cbn in Ha. subst ev.
  destruct (_ <? _)%nat; [destruct He1 as [-> _]; set_solver|].
  destruct (exec_try_event _ _ _ _ _ He1 Hin1) as ([h doc] & t1 & t2 & -> & (m & svid & t1' & Hc & -> & -> & _)%authenticate_flow_ok & He2 & Hin2).
  { unfold authenticate_flow. avoid. }
  destruct (from_reader (aa_event_cbor req)) as [ev|] eqn:Ed; [|destruct He2 as [-> _]; set_solver].
  destruct (host_forwardable ev) eqn:Ef; cbn [negb] in He2; [|destruct He2 as [-> _]; set_solver].
  destruct (forwarded_for_itself ev (ah_host_uuid (authenticated svid))) eqn:Eo; cbn [negb] in He2; [|destruct He2 as [-> _]; set_solver].
  apply auth_checks_ok in Hc as (auth & dj & Hcf).
  assert (ev = e ∧ [EvLogged e lr] `sublist_of` t2) as [-> Hsub].
  { destruct He2 as [[-> _]|(x & e' & t3 & -> & Ha & He3)]; [set_solver|]. cbn in Ha. subst e'.
    apply elem_of_cons in Hin2 as [[= <- <-]|Hin3]; [split; [done|apply sub_cons, sublist_nil_l]|].
    cbn in He3. destruct x as [idx|]; [|destruct He3 as [-> _]; set_solver]. destruct He3 as [[-> _]|(y & e' & t4 & -> & Ha & -> & _)]; [set_solver|].
    cbn in Ha. subst e'. set_solver. }
  split; [done|]. split.
  { destruct Hcf as [A _ [D _ _ Hh _ _ _ _] _ _ _ _ _ _]. cbn in A.
    destruct e; cbn in Ef, Eo; try done; exists auth, dj; apply String.eqb_eq in Eo as ->; auto. }
  exists now, m, svid, auth, doc, dj. split; [done|]. split.
  - pose proof (cf_bound _ _ _ _ _ _ _ _ _ _ Hcf) as Hb. cbn in Hb. by apply bool_decide_eq_true in Hb.
  - cbn [app]. do 2 apply sub_cons. by apply sub_app.
Qed.
End Forward.
