(* ===== verification/CmisNode.v ===== *)
(** A node over its whole life: every handler, the periodic publisher and the loaders of the
    reference measurements and of the fleet manifest, in any interleaving. *)
From stdpp Require Import gmap.
From S2P Require Import Prelude AppModel AppDedup Order Composite AllowlistV2 AllowlistCompile AppPath MiaAllowlist HostCache Svid HostAuth HelperProto CallerAuth Tpm Rim Attest Fleet CmisState CmisService CmisExec CmisProofs CmisRenewal CmisRevocation.
Open Scope Z_scope.

Section Node.
Context (P : Primitives) `{SJ : !SvidJson} (Q : P256) (H : Prehash Q) (X : X509).
Context (issue_leaf : list u8 → string → Z → Z → result string (list u8)) (hex_decode : string → option (list u8)).
Context `{WJ : !Json WireIssuedRecord, RDC : !Cbor RotateDoc, AFC : !Cbor AuditForwardDoc, EC : !Cbor AuditEvent, JJ : !Json JwkSet}.
Context `{BJ : !Json RimBundle, RJ : !Json SignedRimBundle, FJ : !Json FleetManifest, GJ : !Json SignedFleetManifest}.
Context (cfg : CmisConfig) (issuer : Issuer P) (x509_ca : result string (list u8)) (trust : TrustStore).
Context (rim_trust fleet_trust : TrustedKeys P).

(** ** Handlers *)
Inductive handler : ∀ {A}, flow A → Prop :=
  | H_attest : handler (run_attest P Q H X issue_leaf cfg issuer x509_ca trust)
  | H_rotate req : handler (rotate P Q issue_leaf hex_decode issuer x509_ca req)
  | H_fetch sid : handler (fetch_svid hex_decode x509_ca sid)
  | H_jwks hint : handler (jwks P hex_decode x509_ca hint)
  | H_key : handler (get_enrollment_key P issuer)
  | H_revoke_svid admin sha reason : handler (revoke_svid P hex_decode issuer admin sha reason)
  | H_revoke_host admin sid reason : handler (revoke_host P issuer admin sid reason)
  | H_unrevoke admin sid reason : handler (unrevoke_host_rpc P hex_decode issuer admin sid reason)
  | H_bump admin reason : handler (bump_epoch_rpc admin reason)
  | H_list admin : handler (list_svids_rpc P hex_decode admin)
  | H_append req : handler (append_audit_event P Q issuer req)
  | H_publish now : handler (publish_crl_flow P issuer now)
  | H_rehydrate : handler (rehydrate_child_keys P hex_decode).

(** What a handler may do to the memory at once. *)
Record local_step (m m' : CmisMem) : Prop := {
  ls_rim : cm_rim m' = cm_rim m;
  ls_fleet : cm_fleet m' = cm_fleet m;
  ls_roots : cm_extra_roots m' = cm_extra_roots m;
  ls_pins : cm_pins m' = cm_pins m ∨ ∃ fp key facts claimed nonce sig,
    verify_host_key_evidence P Q (mf_board_serial facts) (mf_platform_uuid facts) (mf_disk_serial facts) claimed key nonce sig = Ok fp ∧
    cm_pins m !! fp = None ∧ cm_pins m' = <[fp := key]> (cm_pins m);
  ls_keys : cm_keys m' = cm_keys m ∨ ∃ pk, has_kid (child_signing_kid P pk) (cm_keys m) = false ∧
    cm_keys m' = cm_keys m ++ [jwk_from_public_key P (child_signing_kid P pk) pk];
  ls_crl : cm_crl m' = cm_crl m ∨ ∃ rng body signed, issuer_sign_crl P issuer rng body = Ok signed ∧ cm_crl m' = Some signed;
  ls_epoch : cm_epoch m' = cm_epoch m ∨ cm_epoch m' = (cm_epoch m + 1) mod 2 ^ 64 }.
Definition does Y (c : call Y) : Prop := match c with Local op => ∀ m, local_step m (op m).1 | _ => True end.

Lemma local_step_refl m : local_step m m.
Proof. split; auto. Qed.
Lemma does_peek {Y} (f : CmisMem → Y) : does Y (Local (λ m, (m, f m))).
Proof. intros m. apply local_step_refl. Qed.
Lemma does_guard Y (f : HostCallGuard → HostCallGuard * Y) :
  does Y (Local (λ m, let '(g, r) := f (cm_guard m) in (set_guard g m, r))).
Proof. intros m. destruct (f (cm_guard m)). split; cbn; auto. Qed.
Lemma does_epoch : does _ (Local current_epoch).
Proof. intros m. apply local_step_refl. Qed.
Lemma does_bump : does _ (Local bump_epoch).
Proof. intros m. split; cbn; auto. Qed.
Lemma does_enrollment d : does _ (Local (check_enrollment d)).
Proof. intros m. apply local_step_refl. Qed.
Lemma does_register pk : does _ (Local (register_child_key P pk)).
Proof.
  intros m. unfold register_child_key. destruct (has_kid _ (cm_keys m)) eqn:E; cbn; [apply local_step_refl|]. split; cbn; auto. right. by exists pk.
Qed.
Lemma does_revoke t reason now : does _ (Local (revoke_op t reason now)).
Proof. intros m. split; cbn; auto. Qed.
Lemma does_unrevoke sid keep now : does _ (Local (unrevoke_op sid keep now)).
Proof. intros m. unfold unrevoke_op. destruct (unrevoke_host _ _ _ _). split; cbn; auto. Qed.
Lemma does_prune now : does _ (Local (prune_revs now)).
Proof. intros m. split; cbn; auto. Qed.
Lemma does_store_crl rng body signed : issuer_sign_crl P issuer rng body = Ok signed → does _ (Local (store_crl signed)).
Proof. intros Hs m. split; cbn; auto. right. by exists rng, body, signed. Qed.
Lemma does_bind facts claimed key nonce sig fp req :
  verify_host_key_evidence P Q (mf_board_serial facts) (mf_platform_uuid facts) (mf_disk_serial facts) claimed key nonce sig = Ok fp →
  does _ (Local (bind_host_key fp key req)).
Proof.
  intros Hv m. unfold bind_host_key. destruct (preregistered _ _); cbn; [apply local_step_refl|]. destruct req; cbn; [apply local_step_refl|].
  destruct (cm_pins m !! fp) eqn:Ep; cbn; [apply local_step_refl|]. split; cbn; auto. right. by exists fp, key, facts, claimed, nonce, sig.
Qed.
Hint Resolve does_peek does_guard does_epoch does_bump does_enrollment does_register does_revoke does_unrevoke does_prune does_store_crl
  does_bind : flow.
Hint Extern 1 (does _ _) => exact I : flow.
(** [only_auto], keeping what was tested. *)
Ltac walk := repeat first [only_step_eqn | exact I | solve [eauto with flow]]
with only_step_eqn :=
  match goal with
  | |- only _ (match ?x with _ => _ end) => let E := fresh "E" in destruct x eqn:E
  | _ => only_step
  end.

Lemma only_record r : only does (record P r).
Proof. unfold record. walk. Qed.
Lemma only_audit e now : only does (audit_record e now).
Proof. unfold audit_record. walk. Qed.
Lemma only_refuse {A} o now s : only does (refuse (A := A) o now s).
Proof. unfold refuse, audit_fail. apply only_bind; [apply only_audit|by intros]. Qed.
Lemma only_send m : only does (send m).
Proof. unfold send. walk. Qed.
Lemma only_next : only does next_request.
Proof. unfold next_request. walk. Qed.
Lemma only_lookup_checked sid : only does (lookup_checked hex_decode sid).
Proof. unfold lookup_checked. walk. Qed.
Lemma only_list_records : only does (list_records hex_decode).
Proof. unfold list_records. walk. Qed.
Hint Resolve only_record only_audit only_refuse only_send only_next only_lookup_checked only_list_records : flow.
Lemma only_register_all recs : only does (register_all P recs).
Proof. induction recs as [|rec recs IH]; cbn [register_all]; [exact I|]. walk. Qed.
Lemma only_replace sid dg b : only does (replace_bundle_if_current P hex_decode sid dg b).
Proof. unfold replace_bundle_if_current. walk. Qed.
Lemma only_publish now : only does (publish_crl_flow P issuer now).
Proof. unfold publish_crl_flow. walk. Qed.
Hint Resolve only_register_all only_replace only_publish : flow.
Lemma only_issue_and_send params pd hn csr now : only does (issue_and_send P issue_leaf issuer x509_ca params pd hn csr now).
Proof. unfold issue_and_send. walk. Qed.
Lemma only_revoked d now : only does (refuse_revoked_host P issuer d now).
Proof. unfold refuse_revoked_host. walk. Qed.
Lemma only_csr_key k : only does (publish_csr_key P k).
Proof. unfold publish_csr_key. walk. Qed.
Lemma only_authenticate {D E} `{!HostCallDoc D, !DocError E} (call : HostCall D E) now : only does (authenticate_flow P Q issuer call now).
Proof. unfold authenticate_flow. walk. Qed.
Lemma only_publish_now now : only does (publish_crl_now P issuer now).
Proof. unfold publish_crl_now. walk. Qed.
Lemma only_paired s : only does (paired_x509_cert_sha P hex_decode s).
Proof. unfold paired_x509_cert_sha. walk. Qed.
Hint Resolve only_issue_and_send only_revoked only_csr_key only_authenticate only_publish_now only_paired : flow.
Lemma only_host_key nonce ev hn now : only does (run_attest_host_key P Q issue_leaf cfg issuer x509_ca nonce ev hn now).
Proof. unfold run_attest_host_key, pre_admission. walk. Qed.
Lemma only_activated init v hn now : only does (attest_activated P Q H issue_leaf cfg issuer x509_ca init v hn now).
Proof. unfold attest_activated. walk. Qed.
Hint Resolve only_host_key only_activated : flow.
Lemma handler_does {A} (p : flow A) : handler p → only does p.
Proof.
  intros Hh. destruct Hh.
  - unfold run_attest, pre_admission. walk.
  - unfold rotate, rotate_with_host_proof. walk.
  - unfold fetch_svid, lookup. walk.
  - unfold jwks, ensure_child_key_published, rehydrate_child_keys. walk.
  - exact I.
  - unfold revoke_svid. walk.
  - unfold revoke_host. walk.
  - unfold unrevoke_host_rpc, audit_record_strict. walk.
  - unfold bump_epoch_rpc. walk.
  - unfold list_svids_rpc. walk.
  - unfold append_audit_event. walk.
  - walk.
  - unfold rehydrate_child_keys. walk.
Qed.

(** ** Histories *)

(** [CmisState::new]. *)
Definition cmis_new : CmisMem :=
  {| cm_rim := rim_new; cm_fleet := unenforced; cm_pins := ∅; cm_keys := [jwk_from_public_key P (iss_kid P issuer) (iss_public P issuer)];
     cm_extra_roots := []; cm_revs := {| rv_entries := []; rv_number := 0 |}; cm_crl := None; cm_epoch := cf_policy_epoch cfg;
     cm_guard := guard_new (cf_host_calls cfg) |}.
Definition set_rim (x : RimStore) (m : CmisMem) : CmisMem :=
  {| cm_rim := x; cm_fleet := cm_fleet m; cm_pins := cm_pins m; cm_keys := cm_keys m; cm_extra_roots := cm_extra_roots m;
     cm_revs := cm_revs m; cm_crl := cm_crl m; cm_epoch := cm_epoch m; cm_guard := cm_guard m |}.
Definition set_fleet (x : EnrolledHosts) (m : CmisMem) : CmisMem :=
  {| cm_rim := cm_rim m; cm_fleet := x; cm_pins := cm_pins m; cm_keys := cm_keys m; cm_extra_roots := cm_extra_roots m;
     cm_revs := cm_revs m; cm_crl := cm_crl m; cm_epoch := cm_epoch m; cm_guard := cm_guard m |}.

(** An event of the node: of some execution of a handler, a reload, or a registered root. *)
Inductive node_event : event → Prop :=
  | ne_handler {A} (p : flow A) tr r e : handler p → exec p tr r → e ∈ tr → node_event e
  | ne_rim m file seen : node_event (EvLocal m (set_rim (try_reload P hex_decode file rim_trust seen (cm_rim m)).2 m))
  | ne_fleet m fleet : fleet_step P hex_decode fleet_trust (cm_fleet m) fleet → node_event (EvLocal m (set_fleet fleet m))
  | ne_root m pk kid created : node_event (EvLocal m (register_root_key P pk kid created m).1).

Lemma does_exec {A} (p : flow A) tr r m m' : only does p → exec p tr r → EvLocal m m' ∈ tr → local_step m m'.
Proof.
  revert tr. induction p as [a|Y c k IH]; intros tr; cbn.
  - intros _ [-> _]. set_solver.
  - intros [Hc Hk] [[-> _]|(x & e & tr' & -> & Ha & Hx)]; [set_solver|].
    intros [<-|Hin]%elem_of_cons; [|exact (IH x tr' (Hk x) Hx Hin)]. destruct c; cbn in Ha; naive_solver.
Qed.

(** What holds of a node at every moment. *)
Record node_inv (m : CmisMem) : Prop := {
  ni_pins : ∀ fp key, cm_pins m !! fp = Some key → ∃ facts claimed nonce sig,
    verify_host_key_evidence P Q (mf_board_serial facts) (mf_platform_uuid facts) (mf_disk_serial facts) claimed key nonce sig = Ok fp;
  ni_keys : ∃ pks, cm_keys m = jwk_from_public_key P (iss_kid P issuer) (iss_public P issuer) ::
    ((λ pk, jwk_from_public_key P (child_signing_kid P pk) pk) <$> pks);
  ni_kids : NoDup (jwk_kid <$> cm_keys m);
  ni_crl : ∀ signed, cm_crl m = Some signed → ∃ rng body, issuer_sign_crl P issuer rng body = Ok signed;
  ni_rim : rim_inv P hex_decode rim_trust (cm_rim m);
  ni_manual : rs_manual (cm_rim m) = ∅;
  ni_fleet : fleet_sound P hex_decode fleet_trust (cm_fleet m) }.
(** What only grows. *)
Definition node_le (m m' : CmisMem) : Prop := cm_pins m ⊆ cm_pins m' ∧ cm_keys m `prefix_of` cm_keys m'.
#[local] Instance node_le_preorder : PreOrder node_le.
Proof. split; [by intros m; split|]. intros m1 m2 m3 [] []. split; by etrans. Qed.

Lemma has_kid_false kid ks : has_kid kid ks = false → kid ∉ jwk_kid <$> ks.
Proof.
  intros Hf (k & -> & Hk)%list_elem_of_fmap. pose proof (existsb_false _ _ _ Hf Hk) as E. cbn in E. by rewrite String.eqb_refl in E.
Qed.
Lemma local_step_inv m m' : local_step m m' → node_inv m → node_inv m' ∧ node_le m m'.
Proof.
  intros [Hrim Hfleet _ Hpins Hkeys Hcrl _] [I1 (pks & I2) I3 I4 I5 I6 I7]. split; [|split].
  - split; [| | | |by rewrite Hrim|by rewrite Hrim|by rewrite Hfleet].
    + destruct Hpins as [->|(fp & key & facts & cl & n & sg & Hv & _ & ->)]; [done|]. intros fp' key'.
      rewrite lookup_insert_Some. intros [[-> ->]|[_ Hl]]; [by exists facts, cl, n, sg|by apply I1].
    + destruct Hkeys as [->|(pk & _ & ->)]; [by exists pks|]. exists (pks ++ [pk]). by rewrite I2, fmap_app.
    + destruct Hkeys as [->|(pk & Hf & ->)]; [done|]. rewrite fmap_app. apply NoDup_app. split; [done|]. split; [|apply NoDup_singleton].
      intros kid Hin ->%list_elem_of_singleton. by apply (has_kid_false _ _ Hf).
    + destruct Hcrl as [->|(rng & body & signed & Hs & ->)]; [done|]. intros s [= <-]. eauto.
  - destruct Hpins as [->|(fp & key & facts & cl & n & sg & _ & Hn & ->)]; [done|]. by apply insert_subseteq.
  - destruct Hkeys as [->|(pk & _ & ->)]; [done|]. by apply prefix_app_r.
Qed.
Lemma reload_manual file seen s : rs_manual (try_reload P hex_decode file rim_trust seen s).2 = rs_manual s.
Proof.
  destruct (try_reload_cases P hex_decode rim_trust file seen s) as [->|(g & _ & ->)]; [done|].
  by destruct (rim_apply_cases g s) as [[e ->]|(_ & _ & _ & n & -> & _)].
Qed.
Lemma node_event_inv m m' : node_event (EvLocal m m') → node_inv m → node_inv m' ∧ node_le m m'.
Proof.
  intros He. remember (EvLocal m m') as e eqn:Ee. destruct He as [A p tr r e Hh Hx Hin|m1 file seen|m1 fl Hf|m1 pk kid cr].
  - subst e. apply local_step_inv. by eapply does_exec; [apply handler_does| |].
  - injection Ee as -> <-. intros [I1 I2 I3 I4 I5 I6 I7]. split; [|by split]. split; try done; cbn.
    + exact (rim_step_inv P hex_decode rim_trust _ _ (step_reload P hex_decode rim_trust file seen _) I5).
    + by rewrite reload_manual.
  - injection Ee as -> <-. intros [I1 I2 I3 I4 I5 I6 I7]. split; [|by split]. split; try done. cbn.
    by apply (fleet_history_inv P hex_decode fleet_trust (cm_fleet m)), rtc_once.
  - injection Ee as -> <-. unfold register_root_key. intros [I1 I2 I3 I4 I5 I6 I7]. by destruct (restamp _ _ _); (split; [|by split]); split.
Qed.
Lemma history_inv h m d m' d' : Forall node_event h → chained m d h m' d' → node_inv m → node_inv m' ∧ node_le m m'.
Proof.
  intros Hf. revert m d. induction Hf as [|e h He _ IH]; intros m d; cbn; [intros [-> _] Hi; by split|].
  destruct e as [b a| | | | | | | | |]; intros Hc Hi; try (by eapply IH; [exact Hc|]); destruct Hc as [-> Hc].
  - destruct (node_event_inv _ _ He Hi) as [Hi' Hle]. destruct (IH _ _ Hc Hi') as [Hi'' Hle']. split; [done|by etrans].
  - by eapply IH.
Qed.
Lemma cmis_new_inv : node_inv cmis_new.
Proof.
  split; cbn; [done|by exists []|apply NoDup_singleton|done|apply rim_new_inv|done|by left].
Qed.

(** A policy id that is not reserved in any spelling is not the host key's. *)
Lemma not_reserved_tier p : is_reserved p = false → p ≠ TIER_HOST_KEY.
Proof. intros Hr ->. by vm_compute in Hr. Qed.

(** C9: over every history of a node, of any handlers in any interleaving with reloads of the
    reference measurements and the fleet manifest, pins are never changed or dropped and each
    was made for a fingerprint whose evidence verified under the pinned key; the keys of the
    issuer and of hosts, which are published beside the rotation roots, are never withdrawn,
    no two have one identifier, the issuer's is the first and the others are host keys under
    their own identifiers; a published list is signed by the issuer; every measurement the
    store approves is of a signed bundle inside its window, and what is enrolled is the
    content of a signed manifest or nothing is enforced; and so a quote is never accepted
    under the host-key tier, which alone can renew without attestation.  (A node only reloads
    measurements: the manual approval of the store has no caller in it.) *)
Theorem node_history_sound h h' m d m' d' d0 :
  Forall node_event h → chained cmis_new d0 h m d → Forall node_event h' → chained m d h' m' d' →
  node_inv m ∧ node_inv m' ∧ cm_pins m ⊆ cm_pins m' ∧ cm_keys m `prefix_of` cm_keys m' ∧
  (∀ digest now p, lookup_at digest now (cm_rim m') = Some p → ∃ g, gen_published P hex_decode rim_trust g ∧
     rg_policy_id g = p ∧ rg_not_before g ≤ now < rg_not_after g ∧ digest ∈ rg_approved g) ∧
  (∀ q v, verify_quote P Q H X trust (cm_rim m') q = Ok v → vq_policy_id v ≠ TIER_HOST_KEY).
Proof.
  intros Hh Hc Hh' Hc'. destruct (history_inv _ _ _ _ _ Hh Hc cmis_new_inv) as [Hi _].
  destruct (history_inv _ _ _ _ _ Hh' Hc' Hi) as [Hi' [Hp Hk]]. split_and!; try done.
  { intros digest now p. rewrite lookup_at_spec, (ni_manual _ Hi'). intros [?|(_ & older & g & newer & Hl & Hp' & Hw & Hin & _)]; [done|].
    exists g. split; [|done]. pose proof (ri_published _ _ _ _ (ni_rim _ Hi')) as Hpub. rewrite Hl in Hpub. rewrite Forall_forall in Hpub. apply Hpub. set_solver. }
  intros q v (aik & a & Hf)%verify_quote_ok. apply not_reserved_tier.
  exact (lookup_at_not_reserved P hex_decode rim_trust _ _ _ _ (ni_rim _ Hi') (qf_rim _ _ _ _ _ _ _ _ _ _ Hf)).
Qed.
End Node.

(** ** The published keys and the reference verifier *)
Section Forge.
Context (P : Primitives) `{SJ : !SvidJson, SJL : !SvidJsonLaws, PL : !PrimitiveLaws P} (x509_ca : result string (list u8)).

Lemma find_unique (kid : string) (l1 l2 : list Jwk) k :
  Forall (λ k, jwk_kid k ≠ kid) l1 → jwk_kid k = kid → List.find (λ k, String.eqb (jwk_kid k) kid) (l1 ++ k :: l2) = Some k.
Proof.
  intros Hf Hk. induction Hf as [|x l1 Hx _ IH]; cbn.
  - by rewrite Hk, String.eqb_refl.
  - by destruct (String.eqb_spec (jwk_kid x) kid).
Qed.
(** A key that was registered is found under its identifier. *)
Lemma registered_found pk m :
  cm_keys m ≠ [] → has_kid (child_signing_kid P pk) (cm_keys m ++ cm_extra_roots m) = false →
  jwk_find (published_jwks P x509_ca (register_child_key P pk m).1) (child_signing_kid P pk) = Some (jwk_from_public_key P (child_signing_kid P pk) pk).
Proof.
  intros Hne Hf. unfold has_kid in Hf. rewrite existsb_app in Hf. apply orb_false_iff in Hf as [Hk Hr].
  assert (∀ l, existsb (λ k, String.eqb (jwk_kid k) (child_signing_kid P pk)) l = false → Forall (λ k, jwk_kid k ≠ child_signing_kid P pk) l) as Hall.
  { intros l Hl. apply Forall_forall. intros x Hx E. pose proof (existsb_false _ _ _ Hl Hx) as Hx'. cbn in Hx'. by rewrite E, String.eqb_refl in Hx'. }
  unfold jwk_find, register_child_key. unfold has_kid. rewrite Hk. cbn [fst]. destruct (cm_keys m) as [|k ks] eqn:Eks; [done|].
  unfold published_jwks. cbn [set_keys cm_keys cm_extra_roots app js_keys]. rewrite (assoc_L app). apply find_unique; [|done].
  apply Hall in Hk, Hr. apply Forall_cons in Hk as [Hk Hks]. apply Forall_app. split; [|done].
  rewrite sort_by_Permutation. by constructor.
Qed.

(** C34: a host's own key is accepted as an issuer of SVIDs.  Once the key of an attested host's
    CSR is registered, the reference verifier, given the key set the server publishes, accepts
    every token the holder of that key signs as an SVID, whatever subject, attestation and
    lifetime it claims (inside its own window): it looks the signer up by the identifier in the
    token's header and does not tell the issuer's keys from the hosts'. *)
Theorem child_key_forges_svid sk m claims rng input sig now leeway :
  let pk := public_of P sk in
  let kid := child_signing_kid P pk in
  cm_keys m ≠ [] → has_kid kid (cm_keys m ++ cm_extra_roots m) = false →
  jws_signing_input P (jws_header kid) claims = Ok input →
  composite_sign P sk rng SVID_SIGNING_CONTEXT (as_bytes input) = Ok sig →
  cl_nbf claims ≤ wrap_i64 (now + leeway) → wrap_i64 (now - leeway) < cl_exp claims →
  svid_verify P (compact P input (sig_to_concat_bytes sig)) (published_jwks P x509_ca (register_child_key P pk m).1) now leeway =
    Ok {| vd_claims := claims; vd_kid := kid |}.
Proof using SJL PL.
  intros pk kid Hne Hf Hin [Hv Hs]%composite_sign_spec Hnbf Hexp; [|done].
  unfold jws_signing_input in Hin. destruct (to_vec (jws_header kid)) as [hb|] eqn:Eh; [|done].
  destruct (to_vec claims) as [pb|] eqn:Ec; [|done]. injection Hin as <-.
  rewrite (svid_verify_decoded P _ {| dj_header := jws_header kid; dj_claims := claims;
    dj_signing_input := b64url_encode P hb +:+ "." +:+ b64url_encode P pb; dj_signature := sig_to_concat_bytes sig |}
    _ (jwk_from_public_key P kid pk) pk sig).
  - cbn [dj_claims dj_header]. apply Z.ltb_ge in Hnbf as ->. apply Z.leb_gt in Hexp as ->. done.
  - unfold jws_decode, b64_segment, compact. rewrite segments_join by apply b64url_no_dot. rewrite !b64url_round_trip. cbn [map_err].
    by rewrite (from_to _ _ Eh), (from_to _ _ Ec).
  - done.
  - by apply registered_found.
  - done.
  - by apply jwk_round_trip.
  - exact Hs.
  - exact Hv.
Qed.
End Forge.
