(* ===== verification/CmisWitnesses.v ===== *)
(** The theorems on the identity server applied to runs of its handlers on one node: a TPM
    attestation, renewals, a revocation and its lifting, a forwarded event, a forged token. *)
From stdpp Require Import gmap relations.
From S2P Require Import Prelude AppModel AppDedup Order Composite AllowlistV2 AllowlistCompile AppPath MiaAllowlist HostCache Svid HostAuth HostWitnesses HelperProto CallerAuth Tpm Rim Attest Fleet AttestWitnesses CmisState CmisService CmisExec CmisProofs CmisRenewal CmisRevocation CmisNode.
Open Scope Z_scope.

(** ** Codecs *)
Definition wire_fields (w : WireIssuedRecord) : list (list u8) :=
  [as_bytes (wi_ek_cert_sha384_hex w); as_bytes (wi_pcr_digest_hex w); as_bytes (wi_policy_id w); as_bytes (wi_dpop_jkt w); zf (wi_ttl_secs w);
   opt_f (wi_tee_evidence_id w); zf (wi_last_attestation_at w); as_bytes (wi_last_pcr_digest_hex w); zf (wi_last_policy_epoch w);
   as_bytes (wi_jws w); as_bytes (wi_spiffe_id w); zf (wi_iat w); zf (wi_exp w); opt_f (wi_hostname w); opt_f (wi_subject_pub_hex w);
   opt_f (wi_x509_leaf_der_hex w); opt_f (wi_child_pub_hex w)].
Definition fields_wire (fs : list (list u8)) : option WireIssuedRecord :=
  match fs with
  | [a; b; c; d; e; f; g; h; i; j; k; l; m; n; o; p; q] => Some {|
      wi_ek_cert_sha384_hex := bytes_string a; wi_pcr_digest_hex := bytes_string b; wi_policy_id := bytes_string c; wi_dpop_jkt := bytes_string d;
      wi_ttl_secs := fz e; wi_tee_evidence_id := fo f; wi_last_attestation_at := fz g; wi_last_pcr_digest_hex := bytes_string h;
      wi_last_policy_epoch := fz i; wi_jws := bytes_string j; wi_spiffe_id := bytes_string k; wi_iat := fz l; wi_exp := fz m; wi_hostname := fo n;
      wi_subject_pub_hex := fo o; wi_x509_leaf_der_hex := fo p; wi_child_pub_hex := fo q |}
  | _ => None
  end.
#[export] Instance wire_json : Json WireIssuedRecord := fields_json wire_fields fields_wire.
#[export] Instance wire_json_laws : JsonLaws WireIssuedRecord.
Proof.
  apply fields_json_laws. intros a. destruct a; cbn -[as_bytes bytes_string zf fz opt_f fo]. by rewrite !bytes_string_bytes, !fz_zf, !fo_opt.
Qed.
#[export] Instance rotate_cbor : Cbor RotateDoc := {|
  into_writer d := Ok (put_fields [zf (rd_v d); as_bytes (rd_host_uuid d); zf (rd_issued_at d); rd_nonce d; rd_svid_sha384 d; rd_state_digest d]);
  from_reader b := match get_fields b with
    | [v; h; i; n; e; s] => Ok {| rd_v := fz v; rd_host_uuid := bytes_string h; rd_issued_at := fz i; rd_nonce := n; rd_svid_sha384 := e; rd_state_digest := s |}
    | _ => Err "cbor"
    end |}.
Lemma toy_hex_inverse b : toy_hex_decode (hex_encode toy_primitives b) = Some b.
Proof. exact (b64url_round_trip (P := toy_primitives) b). Qed.

(** ** The node *)
Definition toy_cfg : CmisConfig :=
  {| cf_svid_ttl_secs := 3600; cf_policy_epoch := 1; cf_require_preregistered_host_key := true; cf_host_key_svid_ttl_secs := None;
     cf_host_calls := default_host_call_config |}.
Definition mem0 : CmisMem := set_fleet fleet1 (set_rim rim1 (cmis_new toy_primitives toy_cfg host_issuer)).
Definition csr_pub : list u8 := pk_to_concat_bytes toy_primitives (public_of toy_primitives toy_sk).
Definition toy_init : AttestInit :=
  {| in_ek_cert := toy_ek; in_ek_intermediates := [intermediate]; in_aik_pub := aik_bytes; in_quote_blob := quote_bytes;
     in_signature := aik_sign quote_bytes; in_pcr_values := [(0, pcr0)]; in_hostname := "node-1"; in_host_key := None |}.
Definition toy_csr : CsrMsg := {| csr_composite_pub := csr_pub; csr_aik_sig := aik_sign csr_pub; csr_dpop_jkt := "jkt" |}.
Definition toy_secret : list u8 := replicate 32 Byte.x41.
Definition message (p : ReqPhase) : input := InMessage (Ok (Some (Some p))).
Abbreviation attest_run :=
  (play (run_attest toy_primitives toy_p256 toy_prehash toy_x509 (λ _ _ _ _, Ok [Byte.x77]) toy_cfg host_issuer (Ok [Byte.x78]) toy_trust)
    [InClock 1000; InDraw toy_nonce; InSend true; message (ReqInit toy_init); InLog (Ok 0); InSth true; InLog (Ok 1); InSth true;
     InDraw toy_secret; InWrap (Ok {| wc_credential_blob := [Byte.x01]; wc_secret_blob := [Byte.x02] |}); InSend true;
     message (ReqChallengeResponse toy_secret); message (ReqCsr toy_csr); InSigner (Ok []); InLog (Ok 2); InSth true; InSend true] mem0 ∅).
(** A run that ended well, with a test of its trace. *)
Definition ran {A} (test : list event → CmisMem → A → bool) (r : option (list event * result Status A * CmisMem * Db)) : bool :=
  match r with Some (tr, Ok a, m, _) => test tr m a | _ => false end.
Lemma ran_exec {A} (p : flow (result Status A)) ins m d test : ran test (play p ins m d) = true →
  ∃ tr a m' d', exec p tr (Some (Ok a)) ∧ chained m d tr m' d' ∧ test tr m' a = true.
Proof.
  unfold ran. destruct (play p ins m d) as [[[[tr [a|]] m'] d']|] eqn:E; [|done..]. intros Ht.
  destruct (play_exec _ _ _ _ _ _ _ _ E). by exists tr, a, m', d'.
Qed.

(** ** Attestation *)
Definition sends_svid (tr : list event) : bool := existsb (λ e, match e with EvSent (RespSvid _) _ => true | _ => false end) tr.
Lemma sends_svid_spec tr : sends_svid tr = true → ∃ b, svid_sent b tr.
Proof. intros (e & He & Hs)%existsb_exists. destruct e as [| | | | | | | |[| |b] ok|]; try done. exists b, ok. by apply list_elem_of_In. Qed.
Lemma attest_ran : ran (λ tr _ _, sends_svid tr) attest_run = true.
Proof. vm_compute. reflexivity. Qed.
Lemma attestation_sound_witness :
  ∃ tr b, exec (run_attest toy_primitives toy_p256 toy_prehash toy_x509 (λ _ _ _ _, Ok [Byte.x77]) toy_cfg host_issuer (Ok [Byte.x78]) toy_trust)
      tr (Some (Ok tt)) ∧ svid_sent b tr ∧
    (tpm_handshake toy_primitives toy_p256 toy_prehash toy_x509 (λ _ _ _ _, Ok [Byte.x77]) toy_cfg host_issuer (Ok [Byte.x78]) toy_trust b tr ∨
     host_key_handshake toy_primitives toy_p256 (λ _ _ _ _, Ok [Byte.x77]) toy_cfg host_issuer (Ok [Byte.x78]) b tr).
Proof.
  destruct (ran_exec _ _ _ _ _ attest_ran) as (tr & [] & m' & d' & He & _ & Ht). destruct (sends_svid_spec tr Ht) as [b Hb].
  exists tr, b. split; [exact He|]. split; [exact Hb|]. exact (attestation_sound _ _ _ _ _ _ _ _ _ _ _ _ He Hb).
Defined.

(** ** Renewal *)
Definition key_params : IssueParams :=
  {| ip_ek_cert_sha384 := toy_fp; ip_pcr_digest := toy_fp; ip_policy_id := TIER_HOST_KEY;
     ip_dpop_jkt := b64url_encode toy_primitives (vec_to_list (sha256 toy_primitives machine_key)); ip_ttl_secs := 3600;
     ip_tee_evidence_id := None; ip_subject_pub := None |}.
Definition key_svid : IssuedSvid :=
  match issue toy_primitives no_leaf host_issuer (Ok []) key_params 1000 with
  | Ok s => s | Err _ => {| is_jws := ""; is_x509 := None; is_spiffe_id := ""; is_iat := 0; is_exp := 0 |} end.
Definition key_record : IssuedRecord :=
  {| ir_params := key_params; ir_last_attestation := {| la_at := 900; la_pcr_digest := toy_fp; la_policy_epoch := 1 |}; ir_bundle := key_svid;
     ir_hostname := None; ir_child_pub := None |}.
Definition key_db : Db :=
  {[ is_spiffe_id key_svid := match record_encode toy_primitives key_record with Ok b => b | Err _ => [] end ]}.
Definition key_uuid : string := default "" (host_of_sub (is_spiffe_id key_svid)).
Definition rotate_doc_of (nonce : u8) : list u8 :=
  put_fields [zf 1; as_bytes key_uuid; zf 1000; replicate 16 nonce; vec_to_list (sha384 toy_primitives (as_bytes (is_jws key_svid))); toy_fp].
Definition rotate_auth (nonce : u8) : HostCallAuth :=
  {| ha_svid_jws := is_jws key_svid; ha_sep_pub := machine_key; ha_sig := machine_sign (ROTATE_CONTEXT ++ rotate_doc_of nonce) |}.
Lemma same_svid n : ha_svid_jws (rotate_auth n) = is_jws key_svid.
Proof. unfold rotate_auth. cbn [ha_svid_jws]. reflexivity. Qed.
Definition rotate_request (nonce : u8) : RotateRequest :=
  {| rr_auth := Some (rotate_auth nonce); rr_doc := rotate_doc_of nonce; rr_current_svid := "" |}.
Lemma request_auth n : rr_auth (rotate_request n) = Some (rotate_auth n).
Proof. unfold rotate_request. cbn [rr_auth]. reflexivity. Qed.
Abbreviation rotate0 := (rotate toy_primitives toy_p256 no_leaf toy_hex_decode host_issuer (Ok [])).
Abbreviation rotate_run nonce m d := (play (rotate0 (rotate_request nonce)) [InClock 1000; InSigner (Ok []); InLog (Ok 0); InSth true] m d).
Definition mem_of {A} (r : option (list event * A * CmisMem * Db)) : CmisMem := match r with Some (_, _, m, _) => m | None => mem0 end.
Definition db_of {A} (r : option (list event * A * CmisMem * Db)) : Db := match r with Some (_, _, _, d) => d | None => ∅ end.
Definition any {A} (_ : list event) (_ : CmisMem) (_ : A) : bool := true.
Lemma ran_chain {A} (p : flow (result Status A)) ins m d : ran any (play p ins m d) = true →
  ∃ tr a, exec p tr (Some (Ok a)) ∧ chained m d tr (mem_of (play p ins m d)) (db_of (play p ins m d)).
Proof.
  unfold ran. destruct (play p ins m d) as [[[[tr [a|]] m'] d']|] eqn:E; [|done..]. intros _.
  destruct (play_exec _ _ _ _ _ _ _ _ E). by exists tr, a.
Qed.
Lemma interleaving_seq {A} (l1 l2 : list A) : interleaving l1 l2 (l1 ++ l2).
Proof. induction l1; [apply interleaving_right_all|by constructor]. Qed.
Lemma chained_seq h1 h2 m d m1 d1 m2 d2 : chained m d h1 m1 d1 → chained m1 d1 h2 m2 d2 → chained m d (h1 ++ h2) m2 d2.
Proof.
  revert m d. induction h1 as [|e h1 IH]; intros m d; cbn; [by intros [-> ->]|].
  destruct e; try apply IH; intros [-> Hc] H2; (split; [done|]); by eapply IH.
Qed.

Lemma rotate_ran : ran any (rotate_run Byte.x01 mem0 key_db) = true.
Proof. vm_compute. reflexivity. Qed.
Lemma renewal_sound_witness :
  ∃ tr b, exec (rotate0 (rotate_request Byte.x01)) tr (Some (Ok b)) ∧ ∃ auth svid current payload rec issued pre d post,
    renewed toy_primitives toy_p256 no_leaf toy_hex_decode host_issuer (Ok []) (rotate_request Byte.x01) b tr auth svid current payload rec issued pre d post.
Proof.
  destruct (ran_chain _ _ _ _ rotate_ran) as (tr & b & He & _). exists tr, b. split; [exact He|].
  exact (renewal_sound toy_primitives toy_p256 no_leaf toy_hex_decode host_issuer (Ok []) _ _ _ He).
Defined.

(** A second renewal in the same second makes the same token. *)
Abbreviation mem1 := (mem_of (rotate_run Byte.x01 mem0 key_db)).
Abbreviation db1 := (db_of (rotate_run Byte.x01 mem0 key_db)).
Lemma rotate_again_ran : ran any (rotate_run Byte.x02 mem1 db1) = true.
Proof. vm_compute. reflexivity. Qed.
Lemma one_renewal_lands_witness :
  ∃ tr1 tr2 b1 b2 h m' d', exec (rotate0 (rotate_request Byte.x01)) tr1 (Some (Ok b1)) ∧ exec (rotate0 (rotate_request Byte.x02)) tr2 (Some (Ok b2)) ∧
    interleaving tr1 tr2 h ∧ chained mem0 key_db h m' d' ∧
    (jws_sha384 toy_primitives (sb_jws b1) = jws_sha384 toy_primitives (ha_svid_jws (rotate_auth Byte.x01)) ∨
     jws_sha384 toy_primitives (sb_jws b2) = jws_sha384 toy_primitives (ha_svid_jws (rotate_auth Byte.x01))).
Proof.
  destruct (ran_chain _ _ _ _ rotate_ran) as (tr1 & b1 & He1 & Hc1). destruct (ran_chain _ _ _ _ rotate_again_ran) as (tr2 & b2 & He2 & Hc2).
  pose proof (chained_seq _ _ _ _ _ _ _ _ Hc1 Hc2) as Hc. exists tr1, tr2, b1, b2, (tr1 ++ tr2). eexists _, _.
  split; [exact He1|]. split; [exact He2|]. split; [apply interleaving_seq|]. split; [exact Hc|].
  exact (one_renewal_lands toy_primitives toy_p256 no_leaf toy_hex_decode host_issuer (Ok []) toy_hex_inverse (rotate_request Byte.x01)
    (rotate_request Byte.x02) (rotate_auth Byte.x01) (rotate_auth Byte.x02) tr1 tr2 b1 b2 (tr1 ++ tr2) _ _ _ _ He1 He2 (interleaving_seq _ _) Hc
    (request_auth _) (request_auth _) (eq_trans (same_svid _) (eq_sym (same_svid _)))).
Defined.

(** ** Revocation *)
Definition key_host : string := is_spiffe_id key_svid.
Abbreviation revoke_run :=
  (play (revoke_host toy_primitives host_issuer (Ok "root") key_host "lost") [InClock 1000; InLog (Ok 0); InSth true; InSigner (Ok [])] mem0 ∅).
Definition clocks (tr : list event) : list Z := omap (λ e, match e with EvClock n => Some n | _ => None end) tr.
Lemma revoke_ran : ran (λ tr _ _, bool_decide (clocks tr = [1000])) revoke_run = true.
Proof. vm_compute. reflexivity. Qed.
Lemma elem_of_clocks tr n : EvClock n ∈ tr → n ∈ clocks tr.
Proof. intros H. apply list_elem_of_omap. by exists (EvClock n). Qed.
(** Afterwards another host is revoked. *)
Abbreviation revoke_other m := (revoke_op (RtHost "spiffe://t/host/other") "lost" 1001 m).1.
Lemma interleaving_after {A} (l1 l2 : list A) : interleaving l1 l2 (l1 ++ l2).
Proof. induction l1; cbn; [apply interleaving_right_all|by constructor]. Qed.
Lemma revoked_host_rejected_witness :
  ∃ tr n m' d', exec (revoke_host toy_primitives host_issuer (Ok "root") key_host "lost") tr (Some (Ok n)) ∧ chained mem0 ∅ tr m' d' ∧
    is_host_revoked (cm_revs (revoke_other m')) key_host = true ∧
    ∀ jws t leeway v, verify_unrevoked toy_primitives jws (published_jwks toy_primitives (Ok []) (revoke_other m')) t leeway = Ok v → cl_sub (vd_claims v) ≠ key_host.
Proof.
  destruct (ran_exec _ _ _ _ _ revoke_ran) as (tr & n & m' & d' & He & Hc & Ht%bool_decide_eq_true).
  assert (∀ now, EvClock now ∈ tr → 0 ≤ now < 2 ^ 62 ∧ Forall (spares key_host now) [EvLocal m' (revoke_other m')]) as Hn.
  { intros now Hin%elem_of_clocks. rewrite Ht in Hin. apply list_elem_of_singleton in Hin as ->. split; [lia|].
    apply Forall_singleton. split; [reflexivity|]. exists [OpRevoke (RtHost "spiffe://t/host/other") "lost" 1001]. split; [|reflexivity].
    apply Forall_singleton. intros H. lia. }
  destruct (revoked_host_rejected toy_primitives host_issuer (Ok []) "root" key_host "lost" tr n _ _ mem0 ∅ (revoke_other m') d' He Hn
    (interleaving_after tr _) (chained_seq _ [EvLocal m' (revoke_other m')] _ _ _ _ _ _ Hc (conj eq_refl (conj eq_refl eq_refl)))) as (H1 & _ & H3).
  exists tr, n, m', d'. split; [exact He|]. split; [exact Hc|]. split; [exact H1|exact H3].
Defined.

Lemma crl_signed body : ∃ s, issuer_sign_crl toy_primitives host_issuer (Ok []) body = Ok s.
Proof. apply is_ok_eq. unfold issuer_sign_crl, crl_sign, composite_sign, try_sign. reflexivity. Qed.
Lemma acknowledged_revocation_unpublished_witness :
  ∃ tr1 tr2 h m' d' n1 n2, exec (publish_crl_flow toy_primitives host_issuer 1000) tr1 (Some (Ok n1)) ∧
    exec (revoke_host toy_primitives host_issuer (Ok "root") key_host "lost") tr2 (Some (Ok n2)) ∧ interleaving tr1 tr2 h ∧ chained mem0 ∅ h m' d' ∧
    n1 < n2 ∧ is_host_revoked (cm_revs m') key_host = true ∧
    ∃ signed, js_crl (published_jwks toy_primitives (Ok []) m') = Some signed ∧ cb_number (sc_body signed) = n1 ∧
      revokes_host (sc_body signed) key_host = false.
Proof.
  destruct (crl_signed (crl_of mem0 1000)) as [s1 H1].
  destruct (crl_signed (crl_of (revoke_op (RtHost key_host) (revocation_reason "lost") 1000 (publish_start mem0 1000)).1 1000)) as [s2 H2].
  refine (acknowledged_revocation_unpublished toy_primitives host_issuer (Ok []) "root" key_host "lost" mem0 ∅ 1000 (Ok []) (Ok []) s1 s2 _ _ _ H1 H2);
    [vm_compute; discriminate|lia|reflexivity].
Defined.

Definition revoked_mem : CmisMem := mem_of revoke_run.
Abbreviation unrevoke_run := (play (unrevoke_host_rpc toy_primitives toy_hex_decode host_issuer (Ok "root") key_host "cleaned")
  [InClock 1100; InLog (Ok 5); InSth true; InSigner (Ok [])] revoked_mem key_db).
Lemma unrevoke_ran : ran (λ _ _ a, a.1) unrevoke_run = true.
Proof. vm_compute. reflexivity. Qed.
Lemma unrevoke_on_record_witness :
  ∃ tr n mu mu', exec (unrevoke_host_rpc toy_primitives toy_hex_decode host_issuer (Ok "root") key_host "cleaned") tr (Some (Ok (true, n))) ∧
    EvLocal mu mu' ∈ tr ∧ is_host_revoked (cm_revs mu') key_host = false.
Proof.
  destruct (ran_exec _ _ _ _ _ unrevoke_ran) as (tr & [ex n] & m' & d' & He & _ & Hex). cbn in Hex. subst ex.
  destruct (unrevoke_on_record toy_primitives toy_hex_decode host_issuer "root" key_host "cleaned" tr _ He) as [_ H2].
  destruct (H2 n eq_refl) as (mu & mu' & now & rec & Hin & _ & Hf & _). exists tr, n, mu, mu'. split; [exact He|]. split; [exact Hin|exact Hf].
Defined.

(** ** A forwarded event *)
#[export] Instance event_cbor : Cbor AuditEvent := {|
  into_writer e := Ok []; from_reader b := match b with [Byte.x01] => Ok (AllowlistSyncApplied key_uuid 3) | _ => Err "cbor" end |}.
Definition forward_doc : list u8 :=
  put_fields [zf 1; as_bytes key_uuid; zf 1000; replicate 16 Byte.x03; vec_to_list (sha384 toy_primitives [Byte.x01])].
Definition forward_request : AppendAuditRequest :=
  {| aa_auth := Some {| ha_svid_jws := is_jws key_svid; ha_sep_pub := machine_key; ha_sig := machine_sign (AUDIT_FORWARD_CONTEXT ++ forward_doc) |};
     aa_doc := forward_doc; aa_event_cbor := [Byte.x01] |}.
Abbreviation append0 := (append_audit_event toy_primitives toy_p256 host_issuer forward_request).
Definition logs (tr : list event) : bool := existsb (λ e, match e with EvLogged _ _ => true | _ => false end) tr.
Lemma forward_ran : ran (λ tr _ _, logs tr) (play append0 [InClock 1000; InLog (Ok 9); InSth true] mem0 ∅) = true.
Proof. vm_compute. reflexivity. Qed.
Lemma forwarded_events_owned_witness :
  ∃ tr e lr n, exec append0 tr (Some (Ok n)) ∧ EvLogged e lr ∈ tr ∧ from_reader [Byte.x01] = Ok e.
Proof.
  destruct (ran_exec _ _ _ _ _ forward_ran) as (tr & n & m' & d' & He & _ & Ht).
  assert (∃ e lr, EvLogged e lr ∈ tr) as (e & lr & Hin).
  { apply existsb_exists in Ht as (ev & Hev & Hs). destruct ev as [| | | | |e lr| | | |]; try done. exists e, lr. by apply list_elem_of_In. }
  exists tr, e, lr, n. split; [exact He|]. split; [exact Hin|].
  exact (proj1 (forwarded_events_owned toy_primitives toy_p256 host_issuer forward_request tr _ e lr He Hin)).
Defined.

(** ** A node that loads its files and revokes a host *)
#[export] Instance keys_json : Json JwkSet := {| to_vec _ := Ok []; from_slice _ := Err "unused" |}.
Abbreviation event_of := (node_event toy_primitives toy_p256 toy_prehash toy_x509 no_leaf toy_hex_decode toy_cfg host_issuer (Ok []) toy_trust toy_keys toy_keys).
Definition new0 : CmisMem := cmis_new toy_primitives toy_cfg host_issuer.
Definition loaded : list event := [EvLocal new0 (set_rim rim1 new0); EvLocal (set_rim rim1 new0) mem0].
Lemma loaded_events : Forall event_of loaded.
Proof.
  apply Forall_cons. split; [apply ne_rim|]. apply Forall_cons. split; [|apply Forall_nil_2]. apply ne_fleet. exists (Some []). reflexivity.
Qed.
Lemma node_history_sound_witness :
  ∃ h m', chained new0 ∅ loaded mem0 ∅ ∧ chained mem0 ∅ h m' ∅ ∧ is_host_revoked (cm_revs m') key_host = true ∧
    cm_keys mem0 `prefix_of` cm_keys m' ∧
    ∀ q v, verify_quote toy_primitives toy_p256 toy_prehash toy_x509 toy_trust (cm_rim m') q = Ok v → vq_policy_id v ≠ TIER_HOST_KEY.
Proof.
  assert (ran (λ _ m _, is_host_revoked (cm_revs m) key_host) revoke_run = true) as Hr by (vm_compute; reflexivity).
  destruct (ran_exec _ _ _ _ _ Hr) as (tr & n & m' & d' & He & Hc & Ht).
  assert (d' = ∅) as ->. { eapply still_chained; [|exact Hc]. eapply readonly_exec; [|exact He]. unfold revoke_host, publish_crl_now, publish_crl_flow, audit_record. only_auto. }
  assert (Forall event_of tr) as Hev.
  { apply Forall_forall. intros e Hin. eapply ne_handler; [apply (H_revoke_host _ _ _ _ _ _ _ _ _ _ (Ok "root") key_host "lost")|exact He|exact Hin]. }
  assert (chained new0 ∅ loaded mem0 ∅) as Hl by (split; [reflexivity|split; [reflexivity|split; reflexivity]]).
  destruct (node_history_sound toy_primitives toy_p256 toy_prehash toy_x509 no_leaf toy_hex_decode toy_cfg host_issuer (Ok []) toy_trust toy_keys toy_keys
    loaded tr mem0 ∅ m' ∅ ∅ loaded_events Hl Hev Hc) as (_ & _ & _ & Hk & _ & Hq).
  exists tr, m'. split; [exact Hl|]. split; [exact Hc|]. split; [exact Ht|]. split; [exact Hk|exact Hq].
Defined.

(** ** A token signed by a host's own key *)
Definition host_sk : CompositeSecretKey (EdSk toy_primitives) (MlSk toy_primitives) := toy_sk.
Definition forged_claims : SvidClaims := issued_claims toy_primitives "spiffe://t/cmis" "spiffe://t/host/other" host_params 1000.
Lemma toy_composite_signs sk ctx m : ∃ sig, composite_sign toy_primitives sk (Ok []) ctx m = Ok sig.
Proof. apply is_ok_eq. unfold composite_sign, try_sign. reflexivity. Qed.
Lemma forged_input :
  is_ok (jws_signing_input toy_primitives (jws_header (child_signing_kid toy_primitives (public_of toy_primitives host_sk))) forged_claims) = true.
Proof. vm_compute. reflexivity. Qed.
Lemma child_key_forges_svid_witness :
  ∃ jws, svid_verify toy_primitives jws (published_jwks toy_primitives (Ok []) (register_child_key toy_primitives (public_of toy_primitives host_sk) new0).1) 1500 0 =
    Ok {| vd_claims := forged_claims; vd_kid := child_signing_kid toy_primitives (public_of toy_primitives host_sk) |} ∧
    cl_sub forged_claims = "spiffe://t/host/other".
Proof.
  destruct (is_ok_eq _ forged_input) as [input Hi].
  destruct (toy_composite_signs host_sk SVID_SIGNING_CONTEXT (as_bytes input)) as [sig Hs].
  eexists. split; [|reflexivity].
  refine (child_key_forges_svid toy_primitives (Ok []) host_sk new0 forged_claims (Ok []) input sig 1500 0 _ _ Hi Hs _ _);
    [discriminate|vm_compute; reflexivity|vm_compute; discriminate|vm_compute; reflexivity].
Defined.
