(* ===== verification/LegacyAllowlist.v ===== *)
(** The calls of agents and operators of the first allowlist format (crates/cmis/src: the
    allowlist and proposal handlers of service.rs with the accessors of state.rs, apps/v1.rs and
    apps/proposals.rs; the tables of ferro-raft's cluster.rs and the guarded writes of its
    apps/legacy.rs).

    A [task] is what a handler awaits, in order: the memory of its node under a lock, the
    replicated store, the audit log, fresh ids and random bytes.  Between two of them other
    handlers and nodes act ([exec] in LegacyProofs.v).  The clock a handler reads is an
    argument, as is the answer of [require] to a handler of operators.

    A read of the local replica (the mode in [get_allowlist], [app_host_known_local]) is a
    read of a store like every other.  [exec] relates the stores of two events in no way, so
    a theorem on all executions covers a replica that lags behind; [chained] histories, in
    which each event starts from the store the one before left, are those without lag. *)
From stdpp Require Import gmap.
From S2P Require Import Prelude AppModel AppDedup Order AppSchema AppLedger AppOps Composite AllowlistV2 AllowlistCompile AppPath HostCache Svid HostAuth HelperProto CallerAuth Rim Fleet CmisState CmisService.
Open Scope Z_scope.

(** ** State *)
Record ProposalRecord := { pr_entries_cbor : list u8; pr_proposer_spiffe_id : string; pr_proposed_at : Z }.
(** The store: the ledger, settings and legacy bodies of [World], and the pending proposals. *)
Record LegacyState := { lg_world : World; lg_proposals : gmap string ProposalRecord }.
Record CachedV1 := { cv_entries : list AllowEntry; cv_issued_at : Z; cv_signed : list u8 }.
(** The memory of a node: what CmisState.v has of it, and the cache of signed v1 bodies. *)
Record LegacyMem := { lm_node : CmisMem; lm_v1 : gmap string CachedV1 }.

Inductive ProposalPolicy := PolicyOff | PolicyBootstrapOnly | PolicyAlways.
Record LegacyConfig := {
  lc_allowlist_ttl_secs : Z; lc_policy : ProposalPolicy; lc_legacy_get_allowlist : bool; lc_max_pending_per_host : Z;
  lc_max_pending_per_user : Z; lc_pending_ttl_secs : Z; lc_denied_cooldown_secs : Z }.

(** ** Tasks *)
Inductive task (A : Type) : Type :=
  | Return (a : A)
  | OnMem {X : Type} (op : LegacyMem → LegacyMem * X) (k : X → task A)
  | OnStore {X : Type} (op : LegacyState → LegacyState * result LedgerError X) (k : result LedgerError X → task A)
  | Log (e : AuditEvent) (now : Z) (k : task A)
  | FreshId (k : string → task A)
  | Random (k : result string (list u8) → task A).
Arguments Return {A} a.
Arguments OnMem {A X} op k.
Arguments OnStore {A X} op k.
Arguments Log {A} e now k.
Arguments FreshId {A} k.
Arguments Random {A} k.
Fixpoint tbind {A B} (p : task A) (f : A → task B) : task B :=
  match p with
  | Return a => f a
  | OnMem op k => OnMem op (λ x, tbind (k x) f)
  | OnStore op k => OnStore op (λ x, tbind (k x) f)
  | Log e now k => Log e now (tbind k f)
  | FreshId k => FreshId (λ x, tbind (k x) f)
  | Random k => Random (λ x, tbind (k x) f)
  end.
Definition ttry {E A B} (p : task (result E A)) (f : A → task (result E B)) : task (result E B) :=
  tbind p (λ r, match r with Ok a => f a | Err e => Return (Err e) end).
Notation "'do%' x ':=' p 'in' k" := (tbind p (λ x, k)) (at level 10, x pattern, p at level 100, k at level 200) : ferro_scope.
(** [?] on the answer. *)
Notation "'do%?' x ':=' p 'in' k" := (ttry p (λ x, k)) (at level 10, x pattern, p at level 100, k at level 200) : ferro_scope.
Definition store {X} (op : LegacyState → LegacyState * result LedgerError X) : task (result LedgerError X) := OnStore op Return.
Definition mem {X} (op : LegacyMem → LegacyMem * X) : task X := OnMem op Return.
Definition log (e : AuditEvent) (now : Z) : task unit := Log e now (Return tt).
(** A read, and [map_err(ledger_status)] on its answer. *)
Definition query {X} (f : LegacyState → X) : task (result LedgerError X) := store (λ s, (s, Ok (f s))).
Definition or_status {X} (p : task (result LedgerError X)) : task (result Status X) := do% r := p in Return (map_err ledger_status r).
Definition on_ledger {X} (f : AppSchema.Db → AppSchema.Db * result LedgerError X) (s : LegacyState) : LegacyState * result LedgerError X :=
  let '(w, r) := on_db f (lg_world s) in ({| lg_world := w; lg_proposals := lg_proposals s |}, r).
Definition db_of (s : LegacyState) : AppSchema.Db := w_db (lg_world s).

(** ** The tables (cluster.rs, apps/legacy.rs) *)
Definition set_bodies (f : gmap string (list u8) → gmap string (list u8)) (s : LegacyState) : LegacyState :=
  {| lg_world := {| w_db := w_db (lg_world s); w_settings := w_settings (lg_world s); w_legacy := f (w_legacy (lg_world s));
                    w_audit := w_audit (lg_world s) |}; lg_proposals := lg_proposals s |}.
Definition set_proposals (f : gmap string ProposalRecord → gmap string ProposalRecord) (s : LegacyState) : LegacyState :=
  {| lg_world := lg_world s; lg_proposals := f (lg_proposals s) |}.
(** The guard: the setting has the refused value. *)
Definition setting_guard_stmt (key refused_value : string) (s : LegacyState) : bool :=
  bool_decide (w_settings (lg_world s) !! key = Some refused_value).
Definition upsert_allowlist_unless_setting (host_uuid : string) (payload : list u8) (key refused_value : string) (s : LegacyState) :
    LegacyState * result LedgerError bool :=
  if setting_guard_stmt key refused_value s then (s, Ok false) else (set_bodies <[host_uuid := payload]> s, Ok true).
Definition delete_allowlist_unless_setting (host_uuid key refused_value : string) (s : LegacyState) :
    LegacyState * result LedgerError (option bool) :=
  if setting_guard_stmt key refused_value s then (s, Ok None)
  else (set_bodies (delete host_uuid) s, Ok (Some (bool_decide (is_Some (w_legacy (lg_world s) !! host_uuid))))).
Definition fetch_allowlist_consistent (host_uuid : string) (s : LegacyState) : option (list u8) := w_legacy (lg_world s) !! host_uuid.
Definition upsert_proposal (host_uuid : string) (rec : ProposalRecord) (s : LegacyState) : LegacyState * result LedgerError unit :=
  (set_proposals <[host_uuid := rec]> s, Ok tt).
Definition delete_proposal_row (host_uuid : string) (s : LegacyState) : LegacyState * result LedgerError bool :=
  (set_proposals (delete host_uuid) s, Ok (bool_decide (is_Some (lg_proposals s !! host_uuid)))).
Definition app_host_known_local (host_uuid : string) (s : LegacyState) : bool :=
  exists_row (λ a, is_ (a_host_uuid a) host_uuid) (approvals (db_of s)) || bool_decide (is_Some (w_legacy (lg_world s) !! host_uuid)).

(** ** Accessors (state.rs) *)
Definition MODE_APPROVALS : string := "mode_approvals".
Definition put_allowlist_in_legacy_mode (host_uuid : string) (signed_bytes : list u8) : task (result LedgerError bool) :=
  store (upsert_allowlist_unless_setting host_uuid signed_bytes ALLOWLIST_MODE_KEY (mode_as_str Approvals)).
Definition delete_allowlist_in_legacy_mode (host_uuid : string) : task (result LedgerError (option bool)) :=
  store (delete_allowlist_unless_setting host_uuid ALLOWLIST_MODE_KEY (mode_as_str Approvals)).
(** A failed read is logged and answers [None]. *)
Definition state_get_allowlist (host_uuid : string) : task (option (list u8)) :=
  do% r := query (fetch_allowlist_consistent host_uuid) in Return (match r with Ok b => b | Err _ => None end).
Definition state_list_allowlists : task (list (string * list u8)) :=
  do% r := query (λ s, map_to_list (w_legacy (lg_world s))) in Return (match r with Ok rows => rows | Err _ => [] end).
Definition put_proposal (host_uuid : string) (rec : ProposalRecord) : task (result LedgerError unit) := store (upsert_proposal host_uuid rec).
Definition state_list_proposals : task (list (string * ProposalRecord)) :=
  do% r := query (λ s, map_to_list (lg_proposals s)) in Return (match r with Ok rows => rows | Err _ => [] end).
Definition state_delete_proposal (host_uuid : string) : task (result LedgerError bool) := store (delete_proposal_row host_uuid).
Definition mode_now : task (result LedgerError AllowlistMode) := query (λ s, mode_current (lg_world s)).

(** ** Entries *)
Definition MAX_ALLOWLIST_TTL_SECS : Z := 30 * 86400.
Definition PROPOSAL_DEFERRED_RETRY_SECS : Z := 3600.
(** [(uid, bin_sha)] ordered as pairs; [None] first. *)
Definition pair_cmp : option Z * string → option Z * string → comparison := cmp_then (cmp_by fst opt_compare) (cmp_by snd str_cmp).
Definition entry_pair (e : AllowEntry) : option Z * string := (e_uid e, e_bin_sha e).
Definition entries_match (a b : list AllowEntry) : bool :=
  (length a =? length b)%nat && bool_decide (sort_by pair_cmp (entry_pair <$> a) = sort_by pair_cmp (entry_pair <$> b)).
Definition entry_count (es : list AllowEntry) : Z := Z.min (Z.of_nat (length es)) (2 ^ 32 - 1).
(** [str::trim().is_empty()]. *)
Definition blank_text (s : string) : bool := match trim (chars s) with [] => true | _ => false end.
Definition quoted (s : string) : string := String (Ascii.ascii_of_nat 34) s +:+ String (Ascii.ascii_of_nat 34) "".

Section Entries.
Context (hex_decode : string → option (list u8)).
Definition validate_bin_sha (s : string) : result Status unit :=
  if String.eqb (trim_str s) BIN_SHA_WILDCARD then Ok tt
  else match parse_cert_sha hex_decode s with
       | Ok _ => Ok tt
       | Err _ => Err (InvalidArgument ("entry bin_sha must be hex SHA-384 or " +:+ quoted "*") None)
       end.
(** The loop both writers share. *)
Fixpoint checked_entries (es : list AllowEntry) : result Status (list AllowEntry) :=
  match es with
  | [] => Ok []
  | e :: es =>
      let? _ := validate_bin_sha (e_bin_sha e) in
      let? rest := checked_entries es in
      Ok ({| e_uid := e_uid e; e_bin_sha := trim_str (e_bin_sha e) |} :: rest)
  end.
End Entries.

(** ** Compiling v1 from approvals (apps/v1.rs) *)
Definition LEGACY_GETALLOWLIST_DISABLED : string := "legacy_getallowlist_disabled".
Definition MAX_HOST_UUID : nat := 64.
Definition MAX_CACHED_HOSTS : nat := Z.to_nat 16384.

(** The uid of a v1 entry ([Some None]: any user), or that the approval must be left out. *)
Definition v1_uid (a : ApprovalRow) : option (option Z) :=
  if bool_decide (a_origin a = LegacyOrigin) then
    match a_uid a with Some u => Some <$> u32_try_from u | None => Some None end
  else
    match a_user_scope a, a_user_kind a with
    | AnyUser, _ => Some None
    | ExactUser, Some Unix => u ← a_uid a; Some <$> u32_try_from u
    | ExactUser, _ => None
    end.
Definition v1_entry (live : LiveApproval) (not_after : Z) : option AllowEntry :=
  let a := la_approval live in
  if negb (bool_decide (a_path_match a = PathAny)) then None else
  if match a_expires_at a with Some t => t <? not_after | None => false end then None else
  uid ← v1_uid a; Some {| e_uid := uid; e_bin_sha := a_bin_sha a |}.
(** [Vec::dedup]. *)
Fixpoint dedup (l : list AllowEntry) : list AllowEntry :=
  match l with
  | [] => []
  | e :: l' => match l' with e' :: _ => if bool_decide (e = e') then dedup l' else e :: dedup l' | [] => [e] end
  end.
Definition compile_v1 (live : list LiveApproval) (not_after : Z) : list AllowEntry :=
  dedup (sort_by (cmp_by entry_pair pair_cmp) (omap (λ l, v1_entry l not_after) live)).

(** The cache. *)
Definition v1_get (host_uuid : string) (entries : list AllowEntry) (now half_life : Z) (m : LegacyMem) : LegacyMem * option (list u8) :=
  (m, c ← lm_v1 m !! host_uuid;
      if bool_decide (cv_entries c = entries) && (cv_issued_at c <=? now) && (now - cv_issued_at c <=? half_life)
      then Some (cv_signed c) else None).
Definition v1_put (host_uuid : string) (entries : list AllowEntry) (issued_at : Z) (signed : list u8) (m : LegacyMem) : LegacyMem * unit :=
  let hosts := if (MAX_CACHED_HOSTS <=? size (lm_v1 m))%nat && negb (bool_decide (is_Some (lm_v1 m !! host_uuid))) then ∅ else lm_v1 m in
  ({| lm_node := lm_node m; lm_v1 := <[host_uuid := {| cv_entries := entries; cv_issued_at := issued_at; cv_signed := signed |}]> hosts |}, tt).

Section V1.
Context (P : Primitives) `{CB : !AllowlistCbor} (issuer : Issuer P) (cfg : LegacyConfig).
(** [uuid::Uuid::parse_str] and its display. *)
Context (parse_uuid : string → option (list u8)) (uuid_text : list u8 → string).

(** Sign a body and encode it; the two messages of the failures are the caller's. *)
Definition sign_body (entries : list AllowEntry) (now not_after : Z) (sign_failed encode_failed : Status) : task (result Status (list u8)) :=
  Random (λ rng, Return (
    let? signed := map_err (λ _, sign_failed) (issuer_sign_allowlist P issuer rng entries now not_after) in
    map_err (λ _, encode_failed) (allowlist_encode signed))).

Definition v1_serve (host_uuid : string) (now : Z) : task (result Status (list u8)) :=
  if (MAX_HOST_UUID <? String.length host_uuid)%nat then Return (Err (InvalidArgument "host_uuid too long" None)) else
  if negb (bool_decide (uuid_text <$> parse_uuid host_uuid = Some host_uuid)) then Return (Ok []) else
  do%? known := or_status (query (app_host_known_local host_uuid)) in
  if negb known then Return (Ok []) else
  do%? live := or_status (query (λ s, app_live_approvals host_uuid now (db_of s))) in
  let ttl := lc_allowlist_ttl_secs cfg in
  let not_after := sat_i64 (now + ttl) in
  let entries := compile_v1 live not_after in
  do% hit := mem (v1_get host_uuid entries now (Z.quot ttl 2)) in
  match hit with
  | Some body => Return (Ok body)
  | None =>
      do%? bytes := sign_body entries now not_after (Internal "internal") (Internal "internal") in
      do% _ := mem (v1_put host_uuid entries now bytes) in
      Return (Ok bytes)
  end.

(** ** Serving and writing bodies (service.rs) *)
Definition decode_live_doc (bytes : list u8) : option AllowlistDoc :=
  match (let? s := allowlist_decode bytes in allowlist_decode_body (sa_body s)) with Ok doc => Some doc | Err _ => None end.
Definition decode_live_entries (bytes : list u8) : option (list AllowEntry) := doc_entries <$> decode_live_doc bytes.
Definition refresh_served_allowlist (stored : list u8) (now : Z) : task (list u8) :=
  let ttl_secs := lc_allowlist_ttl_secs cfg in
  match decode_live_doc stored with
  | None => Return stored
  | Some doc =>
      let half_life := sat_i64 (doc_issued_at doc + Z.quot ttl_secs 2) in
      if (now <=? half_life) && (now <=? doc_not_after doc) then Return stored else
      do% fresh := sign_body (doc_entries doc) now (sat_i64 (now + ttl_secs)) (Internal "") (Internal "") in
      Return (match fresh with Ok b => b | Err _ => stored end)
  end.

Definition get_allowlist (host_uuid : string) (now : Z) : task (result Status (list u8)) :=
  if blank_text host_uuid then Return (Err (InvalidArgument "empty host_uuid" None)) else
  if negb (lc_legacy_get_allowlist cfg) then Return (Err (FailedPrecondition LEGACY_GETALLOWLIST_DISABLED)) else
  do%? mode := or_status mode_now in
  match mode with
  | Approvals => v1_serve host_uuid now
  | AllowlistCompile.Legacy =>
      do% stored := state_get_allowlist host_uuid in
      match stored with
      | Some stored => do% body := refresh_served_allowlist stored now in Return (Ok body)
      | None => Return (Ok [])
      end
  end.

Context (hex_decode : string → option (list u8)).
Definition refuse_in_approvals_mode : task (result Status unit) :=
  do% mode := mode_now in
  Return (match mode with
          | Ok AllowlistCompile.Legacy => Ok tt
          | Ok Approvals => Err (FailedPrecondition MODE_APPROVALS)
          | Err _ => Err store_unavailable
          end).
Definition signing_failed : Status := Internal "allowlist signing failed".
Definition encoding_failed : Status := Internal "allowlist encode failed".
(** A body stored in legacy mode. *)
Definition store_body (host_uuid : string) (bytes : list u8) : task (result Status unit) :=
  do% written := put_allowlist_in_legacy_mode host_uuid bytes in
  Return (match written with
          | Ok true => Ok tt
          | Ok false => Err (FailedPrecondition MODE_APPROVALS)
          | Err _ => Err store_unavailable
          end).

Record SetAllowlistRequest := { sl_host_uuid : string; sl_entries : list AllowEntry; sl_ttl_secs : Z }.
(** The answer: [issued_at] and [not_after]. *)
Definition set_allowlist (admin : result Status string) (req : SetAllowlistRequest) (now : Z) : task (result Status (Z * Z)) :=
  do%? admin_id := Return admin in
  do%? _ := refuse_in_approvals_mode in
  if blank_text (sl_host_uuid req) then Return (Err (InvalidArgument "empty host_uuid" None)) else
  do%? entries := Return (checked_entries hex_decode (sl_entries req)) in
  let ttl := if sl_ttl_secs req <=? 0 then lc_allowlist_ttl_secs cfg else Z.min (sl_ttl_secs req) MAX_ALLOWLIST_TTL_SECS in
  let not_after := sat_i64 (now + ttl) in
  do%? bytes := sign_body entries now not_after signing_failed encoding_failed in
  do%? _ := store_body (sl_host_uuid req) bytes in
  do% _ := log (AllowlistSet (sl_host_uuid req) (entry_count entries) not_after (Some admin_id)) now in
  Return (Ok (now, not_after)).

Definition delete_allowlist (admin : result Status string) (host_uuid : string) (now : Z) : task (result Status bool) :=
  do%? admin_id := Return admin in
  do%? _ := refuse_in_approvals_mode in
  if blank_text host_uuid then Return (Err (InvalidArgument "empty host_uuid" None)) else
  do% r := delete_allowlist_in_legacy_mode host_uuid in
  match r with
  | Err _ => Return (Err store_unavailable)
  | Ok None => Return (Err (FailedPrecondition MODE_APPROVALS))
  | Ok (Some existed) =>
      do% _ := if existed : bool then log (AllowlistDeleted host_uuid (Some admin_id)) now else Return tt in
      Return (Ok existed)
  end.

Record AllowlistSummary := { as_host_uuid : string; as_issued_at : Z; as_not_after : Z; as_entry_count : Z }.
Definition allowlist_summary (row : string * list u8) : option AllowlistSummary :=
  (λ doc, {| as_host_uuid := row.1; as_issued_at := doc_issued_at doc; as_not_after := doc_not_after doc;
             as_entry_count := entry_count (doc_entries doc) |}) <$> decode_live_doc row.2.
Definition list_allowlists (admin : result Status string) : task (result Status (list AllowlistSummary)) :=
  do%? _ := Return admin in
  do% rows := state_list_allowlists in
  Return (Ok (omap allowlist_summary rows)).
End V1.

(** ** Reads of the ledger the proposals use (reads.rs, search.rs) *)
Definition app_hash_history (lineage_id bin_sha : string) (d : AppSchema.Db) : bool * bool :=
  (exists_row (λ a, is_ (a_lineage_id a) lineage_id && is_ (a_bin_sha a) bin_sha && is_ (a_state a) AppModel.Revoked) (approvals d),
   exists_row (λ r, is_ (r_lineage_id r) lineage_id && is_ (r_bin_sha r) bin_sha && is_ (r_state r) ReqDenied) (requests d)).
Definition app_binaries_of (lineage_id : string) (d : AppSchema.Db) : list BinaryRow :=
  sort_by (cmp_by b_revision Z.compare) (rows_where (λ b, is_ (b_lineage_id b) lineage_id) (binaries d)).*2.
Definition app_approvals_of_lineage (lineage_id : string) (d : AppSchema.Db) : list ApprovalRow :=
  sort_by (cmp_then (cmp_by a_created_at Z.compare) (cmp_by a_approval_id str_cmp))
    (rows_where (λ a, is_ (a_lineage_id a) lineage_id) (approvals d)).*2.
(** All open requests of the host, and those for one user. *)
Definition app_pending_counts (host_uuid : string) (target : UserIdentity) (d : AppSchema.Db) : Z * Z :=
  let open := rows_where (λ r, is_ (r_host_uuid r) host_uuid && is_ (r_state r) ReqPending) (requests d) in
  (Z.of_nat (length open),
   Z.of_nat (length (List.filter (λ kr, is_ (kind (r_target kr.2)) (kind target) && is_ (uid (r_target kr.2)) (uid target)
     && is_ (to_ascii_uppercase <$> sid (r_target kr.2)) (to_ascii_uppercase <$> sid target)) open))).
(** One page of [app_list_requests] under the filter of [open_dedup_keys]: open requests of
    one host, oldest first, after a cursor. *)
Definition MAX_PAGE_SIZE : nat := 200.
Definition MAX_OPEN_PAGES : nat := 60.
Definition request_cmp : RequestRow → RequestRow → comparison :=
  cmp_then (cmp_by r_submitted_at Z.compare) (cmp_by r_request_id str_cmp).
Definition after_cursor (after : option (Z * string)) (r : RequestRow) : bool :=
  match after with
  | None => true
  | Some (at_, id) =>
      (at_ <? r_submitted_at r) || (r_submitted_at r =? at_) && match str_cmp (r_request_id r) id with Gt => true | _ => false end
  end.
Definition open_page (host_uuid : string) (after : option (Z * string)) (d : AppSchema.Db) : list RequestRow :=
  take MAX_PAGE_SIZE (sort_by request_cmp (rows_where (λ r, is_ (r_state r) ReqPending && is_ (r_host_uuid r) host_uuid
    && after_cursor after r && bool_decide (is_Some (lineages d !! r_lineage_id r))) (requests d)).*2).

(** ** Risk flags (apps/intake.rs) *)
Definition SIGNER_CHANGED : Z := 2 ^ 7.
Definition VERSION_COLLISION : Z := 2 ^ 8.
Definition VERSION_DOWNGRADE : Z := 2 ^ 9.
Definition HASH_PREVIOUSLY_REVOKED : Z := 2 ^ 10.
Definition HASH_PREVIOUSLY_DENIED : Z := 2 ^ 11.
Definition HOST_TIER_B : Z := 2 ^ 14.
(** [u64::from_str]: an optional plus sign, digits, no overflow. *)
Fixpoint digits (acc : Z) (l : list u8) : option Z :=
  match l with
  | [] => Some acc
  | b :: l =>
      let n := u8.to_Z b - 48 in
      if (0 <=? n) && (n <=? 9) then let acc := 10 * acc + n in if acc <? 2 ^ 64 then digits acc l else None else None
  end.
Definition parse_u64 (l : list u8) : option Z :=
  match l with
  | [] => None
  | b :: l' => if u8.to_Z b =? 43 then match l' with [] => None | _ => digits 0 l' end else digits 0 l
  end.
Definition dotted (v : string) : option (list Z) := mapM parse_u64 (split_on (λ b, u8.to_Z b =? 46) (as_bytes v)).
Definition lower (a b : list Z) : bool :=
  let at_ (v : list Z) (i : nat) := default 0 (v !! i) in
  (fix go (n i : nat) : bool :=
     match n with
     | O => false
     | S n => match at_ a i ?= at_ b i with Lt => true | Gt => false | Eq => go n (S i) end
     end) (length a `max` length b)%nat 0%nat.
(** [max_by_key] keeps the last of equal keys. *)
Definition newest_approved (bin_sha : string) (approvals : list ApprovalRow) : option (Z * string) :=
  foldl (λ best a, match a_revision a with
                   | Some r => if String.eqb (a_bin_sha a) bin_sha then best else
                               match best with Some (r', _) => if r <? r' then best else Some (r, a_bin_sha a) | None => Some (r, a_bin_sha a) end
                   | None => best
                   end) None approvals.
Definition flag (b : bool) (f : Z) : Z := if b then f else 0.
Definition parent_flags (parent binary : BinaryRow) : Z :=
  let signed := negb (b_signer_kind parent =? 0) || negb (b_signer_kind binary =? 0) in
  Z.lor (flag (signed && negb (bool_decide ((b_signer_kind parent, b_signer_id parent) = (b_signer_kind binary, b_signer_id binary)))) SIGNER_CHANGED)
    (flag (match b_declared_version binary ≫= dotted, b_declared_version parent ≫= dotted with
           | Some new, Some old => lower new old
           | _, _ => false
           end) VERSION_DOWNGRADE).
Definition cmis_flags (binary : BinaryRow) (host_tier : string) : task (result LedgerError Z) :=
  do%? (revoked, denied) := query (λ s, app_hash_history (b_lineage_id binary) (b_bin_sha binary) (db_of s)) in
  do%? binaries := query (λ s, app_binaries_of (b_lineage_id binary) (db_of s)) in
  let collision := negb (is_null (b_declared_version binary)) && existsb (λ b, negb (String.eqb (b_bin_sha b) (b_bin_sha binary))
                     && bool_decide (b_declared_version b = b_declared_version binary)) binaries in
  do%? approvals := query (λ s, app_approvals_of_lineage (b_lineage_id binary) (db_of s)) in
  let parent := x ← newest_approved (b_bin_sha binary) approvals; List.find (λ b, String.eqb (b_bin_sha b) x.2) binaries in
  Return (Ok (Z.lor (flag (String.eqb host_tier TIER_HOST_KEY) HOST_TIER_B)
    (Z.lor (flag revoked HASH_PREVIOUSLY_REVOKED) (Z.lor (flag denied HASH_PREVIOUSLY_DENIED)
      (Z.lor (flag collision VERSION_COLLISION) (match parent with Some p => parent_flags p binary | None => 0 end)))))).

(** ** Proposals in approvals mode (apps/proposals.rs) *)
Definition UNKNOWN_PATH : string := "(unknown path: proposed by a pre-F19 agent)".
Definition UNKNOWN_PATH_KEY_PREFIX : list u8 := [Byte.x00] ++ as_bytes "ferrogate-unknown-path-v1" ++ [Byte.x00].
Definition PLACEHOLDER_PLATFORM : Z := 1.
Definition FORMAT_OTHER : Z := 9.
Definition MAX_NEW_REQUESTS_PER_PROPOSAL : nat := 50.
Definition MAX_PROPOSAL_ENTRIES : nat := Z.to_nat 4096.
Definition PROPOSAL_REASON : string := "Observed by a pre-F19 agent (ProposeAllowlist): path and binary details unknown".
Definition unknown_path_key (bin_sha : string) : list u8 := UNKNOWN_PATH_KEY_PREFIX ++ as_bytes bin_sha.
Definition is_unknown_path (lineage : LineageRow) : bool := starts_with UNKNOWN_PATH_KEY_PREFIX (l_path_key lineage).

Record Proposer := { po_host_uuid : string; po_spiffe_id : string; po_tier : string }.
Record ProposalOutcome := { oc_recorded : nat; oc_pending : nat; oc_covered : nat; oc_skipped : nat; oc_deferred : nat }.
Definition tally (recorded pending covered skipped deferred : nat) (o : ProposalOutcome) : ProposalOutcome :=
  {| oc_recorded := oc_recorded o + recorded; oc_pending := oc_pending o + pending; oc_covered := oc_covered o + covered;
     oc_skipped := oc_skipped o + skipped; oc_deferred := oc_deferred o + deferred |}%nat.
Definition admits_on_some_path (live : list LiveApproval) (bin_sha : string) (uid : Z) : bool :=
  existsb (λ l, let a := la_approval l in
    (String.eqb (a_bin_sha a) bin_sha || String.eqb (a_bin_sha a) BIN_SHA_WILDCARD)
    && (is_ (a_user_scope a) AnyUser || is_null (a_sid a) && is_ (a_uid a) (Some uid))) live.
(** The distinct entries, in the order of a [BTreeSet]. *)
Definition distinct_entries (es : list AllowEntry) : list (option Z * string) :=
  sort_by pair_cmp (elements (list_to_set (entry_pair <$> es) : gset (option Z * string))).
Fixpoint open_dedup_keys (host_uuid : string) (pages : nat) (after : option (Z * string)) (keys : gset (list u8)) :
    task (result Status (gset (list u8))) :=
  match pages with
  | O => Return (Ok keys)
  | S pages =>
      do%? page := or_status (query (λ s, open_page host_uuid after (db_of s))) in
      let keys := keys ∪ list_to_set (r_dedup_key <$> page) in
      if (MAX_PAGE_SIZE <=? length page)%nat
      then open_dedup_keys host_uuid pages ((λ r, (r_submitted_at r, r_request_id r)) <$> last page) keys
      else Return (Ok keys)
  end.
(** [check] of the submission limiter of the node. *)
Definition app_submit_check (host_uuid : string) (now : Z) (m : LegacyMem) : LegacyMem * result Z unit :=
  let g := cm_guard (lm_node m) in
  let '(l, r) := limiter_check host_uuid now (g_limiter g LAppSubmit) in
  ({| lm_node := set_guard (set_limiter LAppSubmit l g) (lm_node m); lm_v1 := lm_v1 m |}, r).

Section Proposals.
Context (P : Primitives) `{CB : !AllowlistCbor} (issuer : Issuer P) (cfg : LegacyConfig).
Context (parse_uuid : string → option (list u8)) (hex_decode : string → option (list u8)).
Local Abbreviation sha256 := (λ b, vec_to_list (sha256 P b)).

(** [events::submitted]. *)
Definition uuid_bytes (id : string) : list u8 := default (replicate 16 Byte.x00) (parse_uuid id).
Definition event_sha (bin_sha : string) : list u8 :=
  match hex_decode bin_sha with Some b => if (length b =? 48)%nat then b else replicate 48 Byte.x00 | None => replicate 48 Byte.x00 end.
Definition code8 (c : Z) : Z := if (0 <=? c) && (c <? 256) then c else 255.
Definition submitted_event (r : RequestRow) (path_key : list u8) : AuditEvent :=
  AppRequestSubmitted (uuid_bytes (r_request_id r)) (r_host_uuid r) (uuid_bytes (r_lineage_id r)) (event_sha (r_bin_sha r))
    (default 0 (u32_try_from (r_revision r))) (code8 (code (r_kind r))) (code8 (code (r_origin r)))
    (uid (r_target r) ≫= u32_try_from) (path_hash P (r_host_uuid r) path_key) (r_flags r).

Definition proposal_binary (proposer : Proposer) (bin_sha new_lineage_id : string) (now : Z) : ObservedBinary :=
  {| o_host_uuid := po_host_uuid proposer; o_platform := PLACEHOLDER_PLATFORM; o_canonical_path := UNKNOWN_PATH;
     o_path_key := unknown_path_key bin_sha; o_new_lineage_id := new_lineage_id; o_bin_sha := bin_sha; o_file_size := 0;
     o_format := FORMAT_OTHER; o_declared_version := None; o_version_source := 0; o_product_name := None; o_bundle_id := None;
     o_package_name := None; o_signer_kind := 0; o_signer_id := None; o_signer_subject := None; o_signer_valid := false;
     o_seen_at := now |}.
Definition proposal_request (proposer : Proposer) (binary : BinaryRow) (bin_sha : string) (target : UserIdentity) (flags : Z)
    (dedup : list u8) (request_id client_id : string) (now : Z) : NewRequest :=
  {| n_request_id := request_id; n_host_uuid := po_host_uuid proposer; n_client_request_id := "prop:" +:+ client_id;
     n_lineage_id := b_lineage_id binary; n_bin_sha := bin_sha; n_revision := b_revision binary; n_origin := Observed;
     n_target := target; n_requester_uid := None; n_requester_user_name := None; n_requested_by_admin_id := None;
     n_reason := Some PROPOSAL_REASON; n_flags := flags; n_host_tier := po_tier proposer;
     n_proposer_spiffe_id := po_spiffe_id proposer; n_dedup_key := dedup; n_submitted_at := now;
     n_pending_expires_at := sat_i64 (now + lc_pending_ttl_secs cfg); n_auto_downgrade_reason := None |}.
Definition cooldown_since (now : Z) : option Z :=
  if 0 <? lc_denied_cooldown_secs cfg then Some (now - lc_denied_cooldown_secs cfg) else None.

Definition observed_target (u : Z) : UserIdentity := {| kind := Unix; uid := Some u; sid := None; user_name := None |}.
(** The rest of the loop body, once nothing answers the entry without the store. *)
Definition observe_new (proposer : Proposer) (bin_sha : string) (u : Z) (dedup : list u8) (out : ProposalOutcome)
    (open : gset (list u8)) (now : Z) : task (result Status (ProposalOutcome * gset (list u8))) :=
  let target := observed_target u in
  do% budget := mem (app_submit_check (po_host_uuid proposer) now) in
  match budget with
  | Err _ => Return (Ok (tally 0 0 0 0 1 out, open))
  | Ok _ =>
      do%? (host, user) := or_status (query (λ s, app_pending_counts (po_host_uuid proposer) target (db_of s))) in
      if (lc_max_pending_per_host cfg <=? host) || (lc_max_pending_per_user cfg <=? user)
      then Return (Ok (tally 0 0 0 0 1 out, open)) else
      FreshId (λ lineage_id,
      do%? (_, binary) := or_status (store (on_ledger (app_observe_binary (proposal_binary proposer bin_sha lineage_id now)))) in
      do%? flags := or_status (cmis_flags binary (po_tier proposer)) in
      FreshId (λ request_id, FreshId (λ client_id,
      let req := proposal_request proposer binary bin_sha target flags dedup request_id client_id now in
      do%? intake := or_status (store (on_ledger (app_submit_pending req
                                  {| ic_now := now; ic_denied_cooldown_since := cooldown_since now |}))) in
      match intake with
      | Recorded row =>
          do% _ := log (submitted_event row (unknown_path_key bin_sha)) now in
          Return (Ok (tally 1 1 0 0 0 out, {[r_dedup_key row]} ∪ open))
      | DuplicatePending _ => Return (Ok (tally 0 1 0 0 0 out, open))
      | Covered _ => Return (Ok (tally 0 0 1 0 0 out, open))
      | Replayed _ | RecentlyDenied _ => Return (Ok (tally 0 0 0 1 0 out, open))
      end)))
  end.
Definition observe_entry (proposer : Proposer) (live : list LiveApproval) (now : Z) (x : option Z * string)
    (out : ProposalOutcome) (open : gset (list u8)) : task (result Status (ProposalOutcome * gset (list u8))) :=
  let '(u, bin_sha) := x in
  match u with
  | None => Return (Ok (tally 0 0 0 1 0 out, open))
  | Some u =>
      if String.eqb bin_sha BIN_SHA_WILDCARD then Return (Ok (tally 0 0 0 1 0 out, open)) else
      if admits_on_some_path live bin_sha u then Return (Ok (tally 0 0 1 0 0 out, open)) else
      let dedup := dedup_key sha256 (po_host_uuid proposer) (unknown_path_key bin_sha) (observed_target u) bin_sha in
      if bool_decide (dedup ∈ open) then Return (Ok (tally 0 1 0 0 0 out, open)) else
      if (MAX_NEW_REQUESTS_PER_PROPOSAL <=? oc_recorded out)%nat then Return (Ok (tally 0 0 0 0 1 out, open)) else
      observe_new proposer bin_sha u dedup out open now
  end.
Fixpoint observe_loop (proposer : Proposer) (live : list LiveApproval) (now : Z) (xs : list (option Z * string))
    (out : ProposalOutcome) (open : gset (list u8)) : task (result Status ProposalOutcome) :=
  match xs with
  | [] => Return (Ok out)
  | x :: xs => do%? (out, open) := observe_entry proposer live now x out open in observe_loop proposer live now xs out open
  end.
Definition observe (proposer : Proposer) (entries : list AllowEntry) (now : Z) : task (result Status ProposalOutcome) :=
  let distinct := distinct_entries entries in
  if (MAX_PROPOSAL_ENTRIES <? length distinct)%nat then Return (Err (InvalidArgument "too_many_entries" (Some "entries"))) else
  do%? live := or_status (query (λ s, app_live_approvals (po_host_uuid proposer) now (db_of s))) in
  do%? open := open_dedup_keys (po_host_uuid proposer) MAX_OPEN_PAGES None ∅ in
  observe_loop proposer live now distinct (tally 0 0 0 0 0 {| oc_recorded := 0; oc_pending := 0; oc_covered := 0; oc_skipped := 0; oc_deferred := 0 |}) open.
End Proposals.

(** ** Proposals (service.rs) *)
Record ProposeAllowlistRequest := { pp_svid_jws : string; pp_sep_pub : list u8; pp_signed_proposal : list u8; pp_proposal_sig : list u8 }.
Inductive ProposeOutcome := OutUnchanged | OutPending | OutAutoAdopted.
Record ProposeAllowlistResponse := { pa_outcome : ProposeOutcome; pa_issued_at : Z; pa_not_after : Z }.
Definition outcome_only (o : ProposeOutcome) : ProposeAllowlistResponse := {| pa_outcome := o; pa_issued_at := 0; pa_not_after := 0 |}.
Definition auto_adopts (policy : ProposalPolicy) (has_existing : bool) : bool :=
  match policy with PolicyOff => false | PolicyBootstrapOnly => negb has_existing | PolicyAlways => true end.

Section Propose.
Context (P : Primitives) `{SJ : !SvidJson} (Q : P256) `{CB : !AllowlistCbor, EC : !Cbor (list AllowEntry)} (issuer : Issuer P) (cfg : LegacyConfig).
Context (parse_uuid : string → option (list u8)) (hex_decode : string → option (list u8)).

(** Steps 1 to 4: what is checked of a proposal before anything is stored. *)
Definition check_proposal (revs : Revocations) (req : ProposeAllowlistRequest) (now : Z) :
    result Status (HostSvid * ProposalDoc * list AllowEntry) :=
  let? svid := verify_host_svid P issuer revs (pp_svid_jws req) now in
  if negb (String.eqb (b64url_encode P (vec_to_list (sha256 P (pp_sep_pub req)))) (hs_cnf_jkt svid))
  then Err (Unauthenticated "sep_pub does not match svid cnf.jkt") else
  let? _ := map_err (λ _, Unauthenticated "proposal signature did not verify")
              (verify_p256 Q (pp_sep_pub req) (proposal_signing_input (pp_signed_proposal req)) (pp_proposal_sig req)) in
  let? proposal := map_err (λ _, InvalidArgument "malformed proposal body" None) (decode_proposal (pp_signed_proposal req)) in
  if negb (String.eqb (pd_host_uuid proposal) (hs_host_uuid svid))
  then Err (PermissionDenied "proposal host_uuid does not match the proposing SVID") else
  if sat_i64 (now + 300) <? pd_issued_at proposal then Err (InvalidArgument "proposal issued_at is in the future" None) else
  let? entries := checked_entries hex_decode (pd_entries proposal) in
  Ok (svid, proposal, entries).

(** Step 5. *)
Definition propose_observed (svid : HostSvid) (entries : list AllowEntry) (now : Z) : task (result Status ProposeAllowlistResponse) :=
  do%? out := observe P cfg parse_uuid hex_decode
                {| po_host_uuid := hs_host_uuid svid; po_spiffe_id := hs_spiffe_id svid; po_tier := hs_tier svid |} entries now in
  Return (if (0 <? oc_deferred out)%nat then Err (exhausted "rate_limited" PROPOSAL_DEFERRED_RETRY_SECS)
          else Ok (outcome_only (if (0 <? oc_pending out)%nat then OutPending else OutUnchanged))).

(** The two ends of step 6. *)
Definition adopt_proposal (host_uuid : string) (entries : list AllowEntry) (now : Z) : task (result Status ProposeAllowlistResponse) :=
  let not_after := sat_i64 (now + lc_allowlist_ttl_secs cfg) in
  do%? bytes := sign_body P issuer entries now not_after signing_failed encoding_failed in
  do%? _ := store_body host_uuid bytes in
  do% _ := state_delete_proposal host_uuid in
  do% _ := log (AllowlistAutoAdopted host_uuid (entry_count entries) not_after) now in
  Return (Ok {| pa_outcome := OutAutoAdopted; pa_issued_at := now; pa_not_after := not_after |}).
Definition queue_proposal (svid : HostSvid) (host_uuid : string) (entries : list AllowEntry) (now : Z) :
    task (result Status ProposeAllowlistResponse) :=
  match into_writer entries with
  | Err _ => Return (Err (Internal "proposal encode failed"))
  | Ok entries_cbor =>
      do% r := put_proposal host_uuid {| pr_entries_cbor := entries_cbor; pr_proposer_spiffe_id := hs_spiffe_id svid; pr_proposed_at := now |} in
      match r with
      | Err _ => Return (Err store_unavailable)
      | Ok _ =>
          do% _ := log (AllowlistProposed host_uuid (entry_count entries) (hs_spiffe_id svid)) now in
          Return (Ok (outcome_only OutPending))
      end
  end.

(** The call, with the revocations its check of the SVID finds. *)
Definition propose_with (revs : Revocations) (req : ProposeAllowlistRequest) (now : Z) : task (result Status ProposeAllowlistResponse) :=
  do%? (svid, proposal, entries) := Return (check_proposal revs req now) in
  do%? mode := or_status mode_now in
  match mode with
  | Approvals => propose_observed svid entries now
  | AllowlistCompile.Legacy =>
      do% current := state_get_allowlist (pd_host_uuid proposal) in
      if match current ≫= decode_live_entries with Some cur => entries_match cur entries | None => false end
      then Return (Ok (outcome_only OutUnchanged)) else
      if auto_adopts (lc_policy cfg) (negb (is_null current))
      then adopt_proposal (pd_host_uuid proposal) entries now
      else queue_proposal svid (pd_host_uuid proposal) entries now
  end.
Definition propose_allowlist (req : ProposeAllowlistRequest) (now : Z) : task (result Status ProposeAllowlistResponse) :=
  do% revs := mem (λ m, (m, cm_revs (lm_node m))) in propose_with revs req now.

Record PendingProposal := { pn_host_uuid : string; pn_entries : list AllowEntry; pn_proposer_spiffe_id : string; pn_proposed_at : Z }.
Definition list_proposals (admin : result Status string) : task (result Status (list PendingProposal)) :=
  do%? _ := Return admin in
  do% rows := state_list_proposals in
  Return (Ok (omap (λ row : string * ProposalRecord,
    match from_reader (pr_entries_cbor row.2) with
    | Ok entries => Some {| pn_host_uuid := row.1; pn_entries := entries; pn_proposer_spiffe_id := pr_proposer_spiffe_id row.2;
                            pn_proposed_at := pr_proposed_at row.2 |}
    | Err _ => None
    end) rows)).
Definition delete_proposal (admin : result Status string) (host_uuid : string) (now : Z) : task (result Status bool) :=
  do%? admin_id := Return admin in
  if blank_text host_uuid then Return (Err (InvalidArgument "empty host_uuid" None)) else
  do% r := state_delete_proposal host_uuid in
  match r with
  | Err _ => Return (Err store_unavailable)
  | Ok existed =>
      do% _ := if existed : bool then log (AllowlistProposalRejected host_uuid (Some admin_id)) now else Return tt in
      Return (Ok existed)
  end.

(** ** The handlers together *)
Context (uuid_text : list u8 → string).
Inductive LegacyCall :=
  | LcGet (host_uuid : string)
  | LcSet (admin : result Status string) (req : SetAllowlistRequest)
  | LcDelete (admin : result Status string) (host_uuid : string)
  | LcList (admin : result Status string)
  | LcPropose (req : ProposeAllowlistRequest)
  | LcListProposals (admin : result Status string)
  | LcDeleteProposal (admin : result Status string) (host_uuid : string).
(** A handler up to the shape of its answer. *)
Definition answered {A} (p : task (result Status A)) : task bool := do% r := p in Return (match r with Ok _ => true | Err _ => false end).
Definition handle (c : LegacyCall) (now : Z) : task bool :=
  match c with
  | LcGet h => answered (get_allowlist P issuer cfg parse_uuid uuid_text h now)
  | LcSet admin req => answered (set_allowlist P issuer cfg hex_decode admin req now)
  | LcDelete admin h => answered (delete_allowlist admin h now)
  | LcList admin => answered (list_allowlists admin)
  | LcPropose req => answered (propose_allowlist req now)
  | LcListProposals admin => answered (list_proposals admin)
  | LcDeleteProposal admin h => answered (delete_proposal admin h now)
  end.
End Propose.
