(* ===== verification/LegacyProofs.v ===== *)
(** What the handlers of LegacyAllowlist.v can do to the store, in every interleaving and with
    lost calls, and when a v1 body compiled from approvals admits a caller. *)
From stdpp Require Import gmap.
From S2P Require Import Prelude AppModel AppDedup Order AppSchema AppInvariants AppLedger AppOps AppProofs AppTheorems Composite AllowlistV2 AllowlistCompile AppPath MiaAllowlist HostCache Svid HostAuth HelperProto CallerAuth Rim Fleet CmisState CmisService LegacyAllowlist.
Open Scope Z_scope.

(** ** Executions *)
Inductive legacy_event :=
  | MemEv (before after : LegacyMem)
  | StoreEv (before after : LegacyState)
  | LogEv (e : AuditEvent)
  | DrewEv.
(** A call of the store: answered, or (under [faults]) lost before or after it took effect. *)
Definition store_answer (faults : bool) {X} (op : LegacyState → LegacyState * result LedgerError X) (s : LegacyState)
    (x : result LedgerError X) (s' : LegacyState) : Prop :=
  (x = (op s).2 ∧ s' = (op s).1) ∨ (faults = true ∧ (∃ e, x = Err (Store e)) ∧ (s' = s ∨ s' = (op s).1)).
(** [exec faults p tr r]: [p] runs through [tr] and returns [a] ([r = Some a]) or is still
    running.  Each event starts in the memory or store of its own moment. *)
Fixpoint exec (faults : bool) {A} (p : task A) (tr : list legacy_event) (r : option A) : Prop :=
  match p with
  | Return a => tr = [] ∧ (r = Some a ∨ r = None)
  | OnMem op k => (tr = [] ∧ r = None) ∨ ∃ m tr', tr = MemEv m (op m).1 :: tr' ∧ exec faults (k (op m).2) tr' r
  | OnStore op k => (tr = [] ∧ r = None) ∨
      ∃ s x s' tr', store_answer faults op s x s' ∧ tr = StoreEv s s' :: tr' ∧ exec faults (k x) tr' r
  | Log e _ k => (tr = [] ∧ r = None) ∨ ∃ tr', tr = LogEv e :: tr' ∧ exec faults k tr' r
  | FreshId k => (tr = [] ∧ r = None) ∨ ∃ id tr', tr = DrewEv :: tr' ∧ exec faults (k id) tr' r
  | Random k => (tr = [] ∧ r = None) ∨ ∃ x tr', tr = DrewEv :: tr' ∧ exec faults (k x) tr' r
  end.
(** Nobody else acts on the store. *)
Fixpoint chained (s : LegacyState) (tr : list legacy_event) (s' : LegacyState) : Prop :=
  match tr with
  | [] => s = s'
  | StoreEv before after :: tr => before = s ∧ chained after tr s'
  | _ :: tr => chained s tr s'
  end.

Lemma texec_bind faults {A B} (p : task A) (f : A → task B) tr r :
  exec faults (tbind p f) tr r →
  (r = None ∧ exec faults p tr None) ∨ ∃ a t1 t2, tr = t1 ++ t2 ∧ exec faults p t1 (Some a) ∧ exec faults (f a) t2 r.
Proof.
  revert tr. induction p as [a|X op k IH|X op k IH|e n k IH|k IH|k IH]; intros tr; cbn.
  - intros Hf. right. exists a, [], tr. auto.
  - intros [[-> ->]|(m & tr' & -> & Hk)]; [left; auto|]. apply IH in Hk as [[-> Hn]|(a & t1 & t2 & -> & H1 & H2)]; [left|right].
    + split; [done|]. right. by exists m, tr'.
    + exists a, (MemEv m (op m).1 :: t1), t2. split_and!; [done| |done]. right. by exists m, t1.
  - intros [[-> ->]|(s & x & s' & tr' & Ha & -> & Hk)]; [left; auto|].
    apply IH in Hk as [[-> Hn]|(a & t1 & t2 & -> & H1 & H2)]; [left|right].
    + split; [done|]. right. by exists s, x, s', tr'.
    + exists a, (StoreEv s s' :: t1), t2. split_and!; [done| |done]. right. by exists s, x, s', t1.
  - intros [[-> ->]|(tr' & -> & Hk)]; [left; auto|]. apply IH in Hk as [[-> Hn]|(a & t1 & t2 & -> & H1 & H2)]; [left|right].
    + split; [done|]. right. by exists tr'.
    + exists a, (LogEv e :: t1), t2. split_and!; [done| |done]. right. by exists t1.
  - intros [[-> ->]|(x & tr' & -> & Hk)]; [left; auto|]. apply IH in Hk as [[-> Hn]|(a & t1 & t2 & -> & H1 & H2)]; [left|right].
    + split; [done|]. right. by exists x, tr'.
    + exists a, (DrewEv :: t1), t2. split_and!; [done| |done]. right. by exists x, t1.
  - intros [[-> ->]|(x & tr' & -> & Hk)]; [left; auto|]. apply IH in Hk as [[-> Hn]|(a & t1 & t2 & -> & H1 & H2)]; [left|right].
    + split; [done|]. right. by exists x, tr'.
    + exists a, (DrewEv :: t1), t2. split_and!; [done| |done]. right. by exists x, t1.
Qed.

(** Every call of the store that [p] can make satisfies [Q]. *)
Fixpoint allows (Q : LegacyState → LegacyState → Prop) {A} (p : task A) : Prop :=
  match p with
  | Return _ => True
  | OnMem op k => ∀ x, allows Q (k x)
  | OnStore op k => (∀ s, Q s (op s).1) ∧ ∀ x, allows Q (k x)
  | Log _ _ k => allows Q k
  | FreshId k => ∀ x, allows Q (k x)
  | Random k => ∀ x, allows Q (k x)
  end.
Lemma allows_bind Q {A B} (p : task A) (f : A → task B) : allows Q p → (∀ a, allows Q (f a)) → allows Q (tbind p f).
Proof. induction p; cbn; naive_solver. Qed.
Lemma allows_try Q {E A B} (p : task (result E A)) (f : A → task (result E B)) :
  allows Q p → (∀ a, allows Q (f a)) → allows Q (ttry p f).
Proof. intros Hp Hf. apply allows_bind; [done|]. by intros [a|e]. Qed.
Lemma allows_known Q {E A B} (r : result E A) (f : A → task (result E B)) :
  (∀ a, r = Ok a → allows Q (f a)) → allows Q (ttry (Return r) f).
Proof. intros Hf. destruct r as [a|e]; cbn; [by apply Hf|done]. Qed.
Lemma allows_impl (Q R : LegacyState → LegacyState → Prop) {A} (p : task A) : (∀ s s', Q s s' → R s s') → allows Q p → allows R p.
Proof. intros Hi. induction p; cbn; naive_solver. Qed.
Lemma allows_query (Q : LegacyState → LegacyState → Prop) `{!Reflexive Q} {X} (f : LegacyState → X) : allows Q (query f).
Proof. cbn. split; [intros; reflexivity|done]. Qed.
Lemma allows_status Q {X} (p : task (result LedgerError X)) : allows Q p → allows Q (or_status p).
Proof. intros. by apply allows_bind. Qed.
Lemma allows_exec Q `{!Reflexive Q} faults {A} (p : task A) tr r s s' :
  allows Q p → exec faults p tr r → StoreEv s s' ∈ tr → Q s s'.
Proof.
  revert tr. induction p as [a|X op k IH|X op k IH|e n k IH|k IH|k IH]; intros tr; cbn.
  - intros _ [-> _] []%elem_of_nil.
  - intros H [[-> _]|(m & tr' & -> & He)]; [by intros []%elem_of_nil|]. intros [[=]|Hin]%elem_of_cons. by eapply IH.
  - intros [Hq H] [[-> _]|(s0 & x & s1 & tr' & Ha & -> & He)]; [by intros []%elem_of_nil|].
    intros [[= <- <-]|Hin]%elem_of_cons; [|by eapply IH].
    destruct Ha as [[_ ->]|(_ & _ & [->| ->])]; [apply Hq|reflexivity|apply Hq].
  - intros H [[-> _]|(tr' & -> & He)]; [by intros []%elem_of_nil|]. intros [[=]|Hin]%elem_of_cons. by eapply IH.
  - intros H [[-> _]|(x & tr' & -> & He)]; [by intros []%elem_of_nil|]. intros [[=]|Hin]%elem_of_cons. by eapply IH.
  - intros H [[-> _]|(x & tr' & -> & He)]; [by intros []%elem_of_nil|]. intros [[=]|Hin]%elem_of_cons. by eapply IH.
Qed.
(** Alone, what every call keeps is kept. *)
Lemma chained_keeps {X} (π : LegacyState → X) tr s s' :
  (∀ b a, StoreEv b a ∈ tr → π a = π b) → chained s tr s' → π s' = π s.
Proof.
  revert s. induction tr as [|[m m'|b a|e|] tr IH]; intros s Hk; cbn; [by intros ->|..].
  - apply IH. intros. apply Hk. set_solver.
  - intros [-> Hc]. rewrite (IH a); [apply Hk; set_solver| |done]. intros. apply Hk. set_solver.
  - apply IH. intros. apply Hk. set_solver.
  - apply IH. intros. apply Hk. set_solver.
Qed.

Create HintDb legacy.
#[export] Hint Resolve allows_query allows_status : legacy.
(** Walk through a handler. *)
Ltac allow_step :=
  match goal with
  | |- allows _ (tbind _ _) => apply allows_bind
  | |- allows _ (ttry (Return _) _) => apply allows_known
  | |- allows _ (ttry _ _) => apply allows_try
  | |- allows _ (or_status _) => apply allows_status
  | |- allows _ (query _) => apply allows_query; [apply _|..]
  | |- allows _ (mem _) => exact (λ _, I)
  | |- allows _ (log _ _) => exact I
  | |- allows _ (Return _) => exact I
  | |- allows _ (FreshId _) => cbn [allows]
  | |- ∀ _, _ => intros ?
  | |- allows _ (match ?x with _ => _ end) => destruct x
  | |- allows _ (let '(_, _) := ?x in _) => destruct x
  end.
Ltac allow_auto := repeat first [allow_step | exact I | solve [eauto with legacy]].

(** ** Entries *)
Section EntryLemmas.
Context (hex_decode : string → option (list u8)).
(** An entry a body may hold: trimmed, and naming a SHA-384 or any binary. *)
Definition entry_ok (e : AllowEntry) : Prop :=
  e_bin_sha e = BIN_SHA_WILDCARD ∨ ∃ b, hex_decode (e_bin_sha e) = Some b ∧ length b = 48%nat.
Lemma checked_entries_ok es es' : checked_entries hex_decode es = Ok es' →
  Forall entry_ok es' ∧ es' = (λ e, {| e_uid := e_uid e; e_bin_sha := trim_str (e_bin_sha e) |}) <$> es.
Proof.
  revert es'. induction es as [|e es IH]; intros es'; cbn; [intros [= <-]; done|].
  destruct (validate_bin_sha _ _) as [[]|] eqn:Ev; [|done]. destruct (checked_entries _ es) as [rest|]; [|done].
  intros [= <-]. destruct (IH rest eq_refl) as [Hok ->]. split; [constructor; [|done]|done].
  unfold validate_bin_sha, parse_cert_sha in Ev. unfold entry_ok. cbn. destruct (String.eqb_spec (trim_str (e_bin_sha e)) BIN_SHA_WILDCARD); [by left|right].
  unfold trim_str in *. destruct (hex_decode _) as [b|]; [|done]. exists b. split; [done|].
  destruct (Nat.eqb_spec (length b) 48); done.
Qed.
End EntryLemmas.

Section LegacyTheorems.
Context (P : Primitives) `{SJ : !SvidJson} (Q : P256) `{CB : !AllowlistCbor, EC : !Cbor (list AllowEntry)} (issuer : Issuer P) (cfg : LegacyConfig).
Context (parse_uuid : string → option (list u8)) (hex_decode : string → option (list u8)) (uuid_text : list u8 → string).
Local Abbreviation handle := (handle P Q issuer cfg parse_uuid hex_decode uuid_text).
Local Abbreviation propose_allowlist := (propose_allowlist P Q issuer cfg parse_uuid hex_decode).
Local Abbreviation check_proposal := (check_proposal P Q issuer hex_decode).

(** [bytes] is a body of [entries] the issuer signed. *)
Definition signed_body (entries : list AllowEntry) (now not_after : Z) (bytes : list u8) : Prop :=
  ∃ rng signed, issuer_sign_allowlist P issuer rng entries now not_after = Ok signed ∧ allowlist_encode signed = Ok bytes.

(** What stands behind an accepted proposal. *)
Record proposal_evidence (revs : Revocations) (req : ProposeAllowlistRequest) (now : Z) (svid : HostSvid) (proposal : ProposalDoc)
    (entries : list AllowEntry) (d : DecodedJws) : Prop := {
  pe_svid : svid_facts P issuer revs (pp_svid_jws req) now svid d;
  pe_key : b64url_encode P (vec_to_list (sha256 P (pp_sep_pub req))) = cl_cnf_jkt (dj_claims d);
  pe_signed : verify_p256 Q (pp_sep_pub req) (PROPOSAL_SIGNING_CONTEXT ++ pp_signed_proposal req) (pp_proposal_sig req) = Ok tt;
  pe_decoded : decode_proposal (pp_signed_proposal req) = Ok proposal;
  pe_host : pd_host_uuid proposal = hs_host_uuid svid;
  pe_issued : pd_issued_at proposal ≤ sat_i64 (now + 300);
  pe_entries : entries = (λ e, {| e_uid := e_uid e; e_bin_sha := trim_str (e_bin_sha e) |}) <$> pd_entries proposal;
  pe_valid : Forall (entry_ok hex_decode) entries }.
Lemma check_proposal_ok revs req now svid proposal entries : check_proposal revs req now = Ok (svid, proposal, entries) →
  ∃ d, proposal_evidence revs req now svid proposal entries d.
Proof.
  unfold LegacyAllowlist.check_proposal. intros H. inv_ok H. injection H as <- <- <-.
  repeat match goal with Hb : negb (String.eqb _ _) = false |- _ => apply negb_false_iff, String.eqb_eq in Hb end.
  match goal with Hb : (_ <? _) = false |- _ => apply Z.ltb_ge in Hb end.
  match goal with Hs : verify_host_svid _ _ _ _ _ = Ok _ |- _ => apply verify_host_svid_ok in Hs as [d Hd] end.
  match goal with He : checked_entries _ _ = Ok _ |- _ => apply checked_entries_ok in He as [Hv He] end.
  exists d. split; try done. by rewrite <- (sf_jkt _ _ _ _ _ _ _ Hd).
Qed.

(** Legacy bodies are open to writes. *)
Definition legacy_open (s : LegacyState) : Prop := w_settings (lg_world s) !! ALLOWLIST_MODE_KEY ≠ Some (mode_as_str Approvals).
Lemma guard_open s : setting_guard_stmt ALLOWLIST_MODE_KEY (mode_as_str Approvals) s = false ↔ legacy_open s.
Proof. unfold setting_guard_stmt, legacy_open. apply bool_decide_eq_false. Qed.

(** Every change of the store a handler makes, and what it rests on; an SVID is unrevoked in a
    memory of [M]. *)
Inductive accounted (M : LegacyMem → Prop) (c : LegacyCall) (now : Z) (s : LegacyState) : LegacyState → Prop :=
  | acc_none : accounted M c now s s
  | acc_set admin_id req entries not_after bytes :
      c = LcSet (Ok admin_id) req → legacy_open s → checked_entries hex_decode (sl_entries req) = Ok entries →
      not_after ≤ sat_i64 (now + Z.max (lc_allowlist_ttl_secs cfg) MAX_ALLOWLIST_TTL_SECS) →
      signed_body entries now not_after bytes → accounted M c now s (set_bodies <[sl_host_uuid req := bytes]> s)
  | acc_delete admin_id host_uuid :
      c = LcDelete (Ok admin_id) host_uuid → legacy_open s → accounted M c now s (set_bodies (delete host_uuid) s)
  | acc_adopted req m svid proposal entries d bytes :
      c = LcPropose req → legacy_open s → lc_policy cfg ≠ PolicyOff → M m → proposal_evidence (cm_revs (lm_node m)) req now svid proposal entries d →
      signed_body entries now (sat_i64 (now + lc_allowlist_ttl_secs cfg)) bytes →
      accounted M c now s (set_bodies <[hs_host_uuid svid := bytes]> s)
  | acc_queued req m svid proposal entries d cbor :
      c = LcPropose req → M m → proposal_evidence (cm_revs (lm_node m)) req now svid proposal entries d → into_writer entries = Ok cbor →
      accounted M c now s (set_proposals <[hs_host_uuid svid :=
        {| pr_entries_cbor := cbor; pr_proposer_spiffe_id := hs_spiffe_id svid; pr_proposed_at := now |}]> s)
  | acc_moot req m svid proposal entries d :
      c = LcPropose req → lc_policy cfg ≠ PolicyOff → M m → proposal_evidence (cm_revs (lm_node m)) req now svid proposal entries d →
      accounted M c now s (set_proposals (delete (hs_host_uuid svid)) s)
  | acc_rejected admin_id host_uuid :
      c = LcDeleteProposal (Ok admin_id) host_uuid → accounted M c now s (set_proposals (delete host_uuid) s)
  | acc_observed req m svid proposal entries d e b :
      c = LcPropose req → M m → proposal_evidence (cm_revs (lm_node m)) req now svid proposal entries d → e ∈ entries →
      o_host_uuid b = hs_host_uuid svid → o_bin_sha b = e_bin_sha e → o_path_key b = unknown_path_key (e_bin_sha e) →
      accounted M c now s (on_ledger (app_observe_binary b) s).1
  | acc_requested req m svid proposal entries d e u new checks :
      c = LcPropose req → M m → proposal_evidence (cm_revs (lm_node m)) req now svid proposal entries d → e ∈ entries → e_uid e = Some u →
      n_host_uuid new = hs_host_uuid svid → n_bin_sha new = e_bin_sha e → n_target new = observed_target u →
      n_origin new = Observed → n_proposer_spiffe_id new = cl_sub (dj_claims d) →
      accounted M c now s (on_ledger (app_submit_pending new checks) s).1.
#[local] Instance accounted_refl M c now : Reflexive (accounted M c now).
Proof. intros s. apply acc_none. Qed.

Lemma allows_sign R {A} entries now na s1 s2 (f : list u8 → task (result Status A)) :
  (∀ bytes, signed_body entries now na bytes → allows R (f bytes)) → allows R (ttry (sign_body P issuer entries now na s1 s2) f).
Proof.
  intros Hf. cbn. intros rng. destruct (issuer_sign_allowlist P issuer rng entries now na) as [signed|] eqn:Es; cbn; [|done].
  destruct (allowlist_encode signed) as [bytes|] eqn:Ee; cbn; [|done]. apply Hf. by exists rng, signed.
Qed.
Lemma allows_store_body R `{!Reflexive R} host bytes :
  (∀ s, legacy_open s → R s (set_bodies <[host := bytes]> s)) → allows R (store_body host bytes).
Proof.
  intros Hr. apply allows_bind; [|done]. split; [|done]. intros s. unfold upsert_allowlist_unless_setting.
  destruct (setting_guard_stmt _ _ s) eqn:E; cbn; [reflexivity|]. by apply Hr, guard_open.
Qed.
Lemma allows_moot R host : (∀ s, R s (set_proposals (delete host) s)) → allows R (state_delete_proposal host).
Proof. intros Hr. by split. Qed.

Lemma sat_i64_le a b : a ≤ b → sat_i64 a ≤ sat_i64 b.
Proof. unfold sat_i64. lia. Qed.
Lemma set_accounted M admin req now : allows (accounted M (LcSet admin req) now) (set_allowlist P issuer cfg hex_decode admin req now).
Proof.
  unfold set_allowlist. apply allows_known. intros admin_id ->.
  apply allows_try; [unfold refuse_in_approvals_mode, mode_now; allow_auto|intros _]. destruct (blank_text _); [exact I|].
  apply allows_known. intros entries Ec.
  apply allows_sign. intros bytes Hb. apply allows_try; [|allow_auto].
  apply allows_store_body; [apply _|]. intros s Ho. eapply acc_set; [done|done|done| |exact Hb].
  apply sat_i64_le. destruct (_ <=? 0); lia.
Qed.
Lemma delete_accounted M admin host now : allows (accounted M (LcDelete admin host) now) (delete_allowlist admin host now).
Proof.
  unfold delete_allowlist. apply allows_known. intros admin_id ->.
  apply allows_try; [unfold refuse_in_approvals_mode, mode_now; allow_auto|intros _]. destruct (blank_text _); [exact I|].
  apply allows_bind; [|allow_auto]. split; [|done]. intros s. unfold delete_allowlist_unless_setting.
  destruct (setting_guard_stmt _ _ s) eqn:E; cbn; [reflexivity|]. eapply acc_delete; [done|by apply guard_open].
Qed.
Lemma reads_allowed R `{!Reflexive R} host now : allows R (get_allowlist P issuer cfg parse_uuid uuid_text host now).
Proof.
  unfold get_allowlist, v1_serve, refresh_served_allowlist, state_get_allowlist. allow_auto.
  all: first [apply allows_sign; intros; allow_auto | cbn; done].
Qed.

(** What a proposal does in approvals mode, for any relation its two writes satisfy. *)
Section Observe.
Context (R : LegacyState → LegacyState → Prop) `{HRR : !Reflexive R} (svid : HostSvid) (entries : list AllowEntry) (now : Z).
Context (Hobs : ∀ s e b, e ∈ entries → o_host_uuid b = hs_host_uuid svid → o_bin_sha b = e_bin_sha e →
  o_path_key b = unknown_path_key (e_bin_sha e) → R s (on_ledger (app_observe_binary b) s).1).
Context (Hreq : ∀ s e u new checks, e ∈ entries → e_uid e = Some u → n_host_uuid new = hs_host_uuid svid → n_bin_sha new = e_bin_sha e →
  n_target new = observed_target u → n_origin new = Observed → n_proposer_spiffe_id new = hs_spiffe_id svid →
  R s (on_ledger (app_submit_pending new checks) s).1).
Local Abbreviation proposer := {| po_host_uuid := hs_host_uuid svid; po_spiffe_id := hs_spiffe_id svid; po_tier := hs_tier svid |}.

Lemma open_keys_allowed host n after keys : allows R (open_dedup_keys host n after keys).
Proof using HRR. revert after keys. induction n as [|n IH]; intros after keys; cbn [open_dedup_keys]; allow_auto. Qed.
Lemma flags_allowed b tier : allows R (cmis_flags b tier).
Proof using HRR. unfold cmis_flags. allow_auto. Qed.
Lemma observe_new_allowed e u dedup out open : e ∈ entries → e_uid e = Some u →
  allows R (observe_new P cfg parse_uuid hex_decode proposer (e_bin_sha e) u dedup out open now).
Proof using HRR Hobs Hreq.
  intros He Hu. unfold observe_new. allow_auto.
  - split; [|done]. intros s. by apply (Hobs s e).
  - apply flags_allowed.
  - split; [|done]. intros s. by apply (Hreq s e u).
Qed.
Lemma observe_entry_allowed live x out open : x ∈ entry_pair <$> entries →
  allows R (observe_entry P cfg parse_uuid hex_decode proposer live now x out open).
Proof using HRR Hobs Hreq.
  intros (e & -> & He)%list_elem_of_fmap. unfold observe_entry, entry_pair. destruct (e_uid e) as [u|] eqn:Eu; [|exact I].
  cbv zeta. repeat (destruct (_ : bool); [exact I|]). by apply observe_new_allowed.
Qed.
Lemma observe_loop_allowed live xs out open : Forall (.∈ entry_pair <$> entries) xs →
  allows R (observe_loop P cfg parse_uuid hex_decode proposer live now xs out open).
Proof using HRR Hobs Hreq.
  revert out open. induction xs as [|x xs IH]; intros out open; cbn; [done|]. intros [Hx Hxs]%Forall_cons.
  apply allows_try; [by apply observe_entry_allowed|]. intros [out' open']. by apply IH.
Qed.
Lemma propose_observed_allowed : allows R (propose_observed P cfg parse_uuid hex_decode svid entries now).
Proof using HRR Hobs Hreq.
  unfold propose_observed, observe. apply allows_try; [|allow_auto]. cbv zeta. destruct (_ <? _)%nat; [exact I|].
  apply allows_try; [allow_auto|intros live]. apply allows_try; [apply open_keys_allowed|intros open].
  apply observe_loop_allowed. apply Forall_forall. intros x Hx. unfold distinct_entries in Hx.
  rewrite sort_by_Permutation in Hx. by apply elem_of_elements, elem_of_list_to_set in Hx.
Qed.
End Observe.

(** The proposals of a verified host. *)
Section Proposal.
Context (M : LegacyMem → Prop) (m : LegacyMem) (Hm : M m) (req : ProposeAllowlistRequest) (now : Z) (svid : HostSvid) (proposal : ProposalDoc).
Context (entries : list AllowEntry) (d : DecodedJws) (Hev : proposal_evidence (cm_revs (lm_node m)) req now svid proposal entries d).
Local Abbreviation R := (accounted M (LcPropose req) now).

Lemma adopt_accounted : lc_policy cfg ≠ PolicyOff → allows R (adopt_proposal P issuer cfg (hs_host_uuid svid) entries now).
Proof using Hm Hev.
  intros Hp. apply allows_sign. intros bytes Hb. apply allows_try; [|intros _; apply allows_bind; [|allow_auto]].
  - apply allows_store_body; [apply _|]. intros s Ho. by eapply acc_adopted.
  - apply allows_moot. intros s. by eapply acc_moot.
Qed.
Lemma queue_accounted : allows R (queue_proposal svid (hs_host_uuid svid) entries now).
Proof using Hm Hev.
  unfold queue_proposal. destruct (into_writer entries) as [cbor|] eqn:Ec; [|exact I].
  apply allows_bind; [|allow_auto]. split; [|done]. intros s. by eapply acc_queued.
Qed.
Lemma observe_accounted : allows R (propose_observed P cfg parse_uuid hex_decode svid entries now).
Proof using Hm Hev.
  apply propose_observed_allowed; [apply _|..].
  - intros. by eapply acc_observed.
  - intros s e u new checks He Hu Hh Hb Ht Ho Hp. eapply acc_requested; try done. rewrite Hp.
    apply (sf_spiffe _ _ _ _ _ _ _ (pe_svid _ _ _ _ _ _ _ Hev)).
Qed.
End Proposal.

Lemma propose_accounted (M : LegacyMem → Prop) m req now : M m →
  allows (accounted M (LcPropose req) now) (propose_with P Q issuer cfg parse_uuid hex_decode (cm_revs (lm_node m)) req now).
Proof.
  intros Hm. unfold propose_with. apply allows_known. intros [[svid proposal] entries] Ec.
  apply check_proposal_ok in Ec as [d Hev]. apply allows_try; [unfold mode_now; allow_auto|intros []].
  2: by eapply observe_accounted.
  apply allows_bind; [unfold state_get_allowlist; allow_auto|intros current].
  destruct (match _ with Some _ => _ | None => _ end); [exact I|].
  rewrite (pe_host _ _ _ _ _ _ _ Hev). destruct (auto_adopts _ _) eqn:Ea; [|by eapply queue_accounted].
  eapply adopt_accounted; [done|done|]. intros Hp. rewrite Hp in Ea. done.
Qed.
(** The memories a run read. *)
Definition memories (tr : list legacy_event) (m : LegacyMem) : Prop := ∃ m', MemEv m m' ∈ tr.
Lemma handle_accounted c now tr r s s' : exec true (handle c now) tr r → StoreEv s s' ∈ tr → accounted (memories tr) c now s s'.
Proof.
  intros He Hin. unfold LegacyAllowlist.handle, answered in He. destruct c as [h|admin req|admin h|admin|req|admin|admin h].
  5: { cbn in He. destruct He as [[-> _]|(m & tr' & -> & He)]; [by apply elem_of_nil in Hin|].
       apply elem_of_cons in Hin as [[=]|Hin]. refine (allows_exec _ _ _ _ _ _ _ _ He Hin). apply allows_bind; [|done].
       apply propose_accounted. exists m. apply list_elem_of_here. }
  all: refine (allows_exec _ _ _ _ _ _ _ _ He Hin); apply allows_bind; [|done].
  - by apply reads_allowed, _.
  - apply set_accounted.
  - apply delete_accounted.
  - unfold list_allowlists, state_list_allowlists. allow_auto.
  - unfold list_proposals, state_list_proposals. allow_auto.
  - unfold delete_proposal. apply allows_known. intros admin_id ->.
    destruct (blank_text _); [exact I|]. apply allows_bind; [|allow_auto]. apply allows_moot. intros. by eapply acc_rejected.
Qed.

(** C19: whatever else happens to the store, and whichever calls are lost, every change a handler of
    the first format makes to it is one of these: an operator's body of validated entries,
    signed by the issuer, or its deletion; the adoption or the queueing of a proposal that the
    key bound to an SVID of that host signed, which the revocations in the memory of the node
    did not name when this call read them; an operator's rejection; requests for the entries
    of such a proposal.  Bodies change only in a store whose mode is not approvals. *)
Theorem legacy_writes_accounted c now tr r s s' :
  exec true (handle c now) tr r → StoreEv s s' ∈ tr →
  accounted (memories tr) c now s s' ∧ (w_legacy (lg_world s') ≠ w_legacy (lg_world s) → legacy_open s) ∧
  w_settings (lg_world s') = w_settings (lg_world s) ∧ (db_keyed (db_of s) → approvals (db_of s') = approvals (db_of s)).
Proof.
  intros He Hin. pose proof (handle_accounted _ _ _ _ _ _ He Hin) as Ha.
  split; [done|]. destruct Ha; try done.
  - pose proof (observe_approvals b (db_of s)) as Hk. unfold on_ledger, on_db, db_of in *.
    destruct (app_observe_binary b (w_db (lg_world s))) as [d' x]. done.
  - pose proof (submit_approvals new checks (db_of s)) as Hk. unfold on_ledger, on_db, db_of in *.
    destruct (app_submit_pending new checks (w_db (lg_world s))) as [d' x]. done.
Qed.

(** ** Adoption on first use *)

Lemma exec_query faults {X} (f : LegacyState → X) tr r : exec faults (query f) tr (Some r) →
  ∃ s, tr = [StoreEv s s] ∧ (r = Ok (f s) ∨ (faults = true ∧ ∃ e, r = Err (Store e))).
Proof.
  cbn. intros [[_ ?]|(s & x & s' & tr' & Ha & -> & -> & [[= <-]|?])]; [done| |done]. exists s.
  destruct Ha as [[-> ->]|(-> & [e ->] & [->| ->])]; eauto 7.
Qed.
Lemma texec_intro faults {A B} (p : task A) (f : A → task B) a t1 t2 r :
  exec faults p t1 (Some a) → exec faults (f a) t2 r → exec faults (tbind p f) (t1 ++ t2) r.
Proof.
  revert t1. induction p as [a'|X op k IH|X op k IH|e n k IH|k IH|k IH]; intros t1; cbn.
  - intros [-> [[= ->]|?]]; done.
  - intros [[_ ?]|(m & tr' & -> & Hk)] Hf; [done|]. right. exists m, (tr' ++ t2). auto.
  - intros [[_ ?]|(s & x & s' & tr' & Ha & -> & Hk)] Hf; [done|]. right. exists s, x, s', (tr' ++ t2). auto.
  - intros [[_ ?]|(tr' & -> & Hk)] Hf; [done|]. right. exists (tr' ++ t2). auto.
  - intros [[_ ?]|(x & tr' & -> & Hk)] Hf; [done|]. right. exists x, (tr' ++ t2). auto.
  - intros [[_ ?]|(x & tr' & -> & Hk)] Hf; [done|]. right. exists x, (tr' ++ t2). auto.
Qed.
Lemma legacy_chained_app s t1 t2 s' : chained s (t1 ++ t2) s' ↔ ∃ s1, chained s t1 s1 ∧ chained s1 t2 s'.
Proof.
  revert s. induction t1 as [|[m m'|b a|e|] t1 IH]; intros s; cbn; [naive_solver|..]; rewrite ?IH; naive_solver.
Qed.

(** A part of a handler that keeps the bodies. *)
Definition bodies_kept (s s' : LegacyState) : Prop := w_legacy (lg_world s') = w_legacy (lg_world s).
#[local] Instance bodies_kept_refl : Reflexive bodies_kept.
Proof. by intros s. Qed.
Lemma part_keeps faults {A} (p : task A) tr r s s' : allows bodies_kept p → exec faults p tr r → chained s tr s' → bodies_kept s s'.
Proof.
  intros Ha He Hc. apply (chained_keeps (λ s, w_legacy (lg_world s)) tr); [|done].
  intros b a Hin. by refine (allows_exec bodies_kept _ _ _ _ _ _ Ha He Hin).
Qed.
Lemma on_ledger_bodies {X} (f : AppSchema.Db → AppSchema.Db * result LedgerError X) s : bodies_kept s (on_ledger f s).1.
Proof. unfold bodies_kept, on_ledger, on_db. by destruct (f _). Qed.
Lemma observed_keeps svid entries now : allows bodies_kept (propose_observed P cfg parse_uuid hex_decode svid entries now).
Proof. apply propose_observed_allowed; [apply _|..]; intros; apply on_ledger_bodies. Qed.
Lemma queue_keeps svid h entries now : allows bodies_kept (queue_proposal svid h entries now).
Proof. unfold queue_proposal. destruct (into_writer entries); [|exact I]. apply allows_bind; [|allow_auto]. by split. Qed.

(** When the store answers and nobody else acts, trust on first use never replaces a list. *)
Lemma bootstrap_alone_keeps req now tr r s s' host old : lc_policy cfg = PolicyBootstrapOnly →
  (∀ revs svid proposal entries, check_proposal revs req now = Ok (svid, proposal, entries) → pd_host_uuid proposal = host) →
  w_legacy (lg_world s) !! host = Some old → exec false (propose_allowlist req now) tr r → chained s tr s' → bodies_kept s s'.
Proof.
  intros Hp Hh Hold He Hc. unfold LegacyAllowlist.propose_allowlist, LegacyAllowlist.propose_with in He.
  apply texec_bind in He as [[-> He]|(revs & t1 & t2 & -> & H1 & He)]; [by eapply part_keeps; [|done..]|].
  apply legacy_chained_app in Hc as (s1 & Hc1 & Hc). assert (bodies_kept s s1) as Hk1 by (by eapply part_keeps; [|exact H1|exact Hc1]). clear t1 H1 Hc1.
  destruct (check_proposal revs req now) as [[[svid proposal] entries]|] eqn:Ec; cbn [ttry tbind] in He.
  2: { destruct He as [-> _]. by rewrite <- Hc. }
  apply texec_bind in He as [[-> He]|(mode & t1 & t3 & -> & H1 & He)].
  { unfold bodies_kept in *. rewrite <- Hk1. eapply part_keeps; [|exact He|exact Hc]. unfold mode_now. allow_auto. }
  apply legacy_chained_app in Hc as (s2 & Hc1 & Hc).
  assert (bodies_kept s1 s2) as Hk2 by (eapply part_keeps; [|exact H1|exact Hc1]; unfold mode_now; allow_auto). clear t1 H1 Hc1.
  assert (w_legacy (lg_world s2) !! host = Some old) as Hold2 by (rewrite Hk2, Hk1; done).
  cut (bodies_kept s2 s'); [unfold bodies_kept in *; congruence|].
  destruct mode as [[|]|]; [|by eapply part_keeps; [apply observed_keeps|..]|destruct He as [-> _]; by rewrite <- Hc].
  apply texec_bind in He as [[-> He]|(cur & t1 & t4 & -> & H1 & He)].
  { eapply part_keeps; [|exact He|exact Hc]. unfold state_get_allowlist. allow_auto. }
  apply legacy_chained_app in Hc as (s3 & Hc1 & Hc).
  apply texec_bind in H1 as [[? _]|(b & u1 & u2 & -> & H1 & H2)]; [done|]. destruct H2 as [-> H2].
  apply exec_query in H1 as (s0 & -> & [->|[? _]]); [|done]. cbn in Hc1. destruct Hc1 as [<- <-].
  destruct H2 as [[= ->]|?]; [|done]. rewrite (Hh _ _ _ _ Ec) in He. unfold fetch_allowlist_consistent in He. rewrite Hold2 in He.
  destruct (match _ with Some _ => _ | None => _ end); [destruct He as [-> _]; by rewrite <- Hc|].
  rewrite Hp in He. cbn [auto_adopts is_null negb] in He. eapply part_keeps; [apply queue_keeps|exact He|exact Hc].
Qed.

(** An adoption whose read answered [x] in [s0] and whose write happened in [s]. *)
Definition adoption (host : string) (entries : list AllowEntry) (bytes : list u8) (m : LegacyMem) (s0 s : LegacyState) (now : Z) : list legacy_event :=
  let s1 := set_bodies <[host := bytes]> s in
  [MemEv m m; StoreEv s0 s0; StoreEv s0 s0; DrewEv; StoreEv s s1; StoreEv s1 (set_proposals (delete host) s1);
   LogEv (AllowlistAutoAdopted host (entry_count entries) (sat_i64 (now + lc_allowlist_ttl_secs cfg)))].
Definition adopted_at (now : Z) : ProposeAllowlistResponse :=
  {| pa_outcome := OutAutoAdopted; pa_issued_at := now; pa_not_after := sat_i64 (now + lc_allowlist_ttl_secs cfg) |}.
Lemma adoption_runs faults req now m s0 s svid proposal entries bytes x :
  lc_policy cfg = PolicyBootstrapOnly → check_proposal (cm_revs (lm_node m)) req now = Ok (svid, proposal, entries) →
  mode_current (lg_world s0) = AllowlistCompile.Legacy → legacy_open s →
  signed_body entries now (sat_i64 (now + lc_allowlist_ttl_secs cfg)) bytes →
  store_answer faults (λ s, (s, Ok (fetch_allowlist_consistent (pd_host_uuid proposal) s))) s0 x s0 →
  match x with Ok b => b | Err _ => None end = None →
  exec faults (propose_allowlist req now) (adoption (pd_host_uuid proposal) entries bytes m s0 s now) (Some (Ok (adopted_at now))).
Proof.
  intros Hp Hc Hm Ho (rng & signed & Hs & Hb) Hx Hn. unfold LegacyAllowlist.propose_allowlist, LegacyAllowlist.propose_with, adoption.
  apply (texec_intro _ _ _ (cm_revs (lm_node m)) [MemEv m m]); [right; exists m, []; cbn; auto|].
  rewrite Hc. cbn [ttry tbind]. apply (texec_intro _ _ _ (Ok AllowlistCompile.Legacy) [StoreEv s0 s0]).
  { right. eexists s0, _, s0, []. split; [by left|]. split; [done|]. cbn. rewrite Hm. auto. }
  apply (texec_intro _ _ _ None [StoreEv s0 s0]).
  { right. exists s0, x, s0, []. split; [done|]. split; [done|]. cbn. rewrite Hn. auto. }
  cbn [mbind option_bind is_null negb]. rewrite Hp. cbn [auto_adopts negb]. unfold adopt_proposal.
  apply (texec_intro _ _ _ (Ok bytes) [DrewEv]).
  { right. exists rng, []. rewrite Hs. cbn. rewrite Hb. auto. }
  apply (texec_intro _ _ _ (Ok tt) [StoreEv s (set_bodies <[pd_host_uuid proposal := bytes]> s)]).
  { right. eexists s, _, _, []. split; [by left|]. unfold upsert_allowlist_unless_setting.
    rewrite (proj2 (guard_open s) Ho). cbn. auto. }
  right. eexists _, _, _, _. split; [by left|]. split; [done|]. right. eexists. split; [done|]. cbn. auto.
Qed.
Lemma legacy_mode_open s : mode_current (lg_world s) = AllowlistCompile.Legacy → legacy_open s.
Proof. unfold mode_current, legacy_open. intros Hm Hs. by rewrite Hs in Hm. Qed.

(** C36: the policy of adopting on first use replaces a list a host already has.  When the one read
    of the list fails, or when an operator stores a list between that read and the write, the
    proposal of the host is adopted over it; only if the store answers and nobody else acts is
    an existing list kept. *)
Theorem bootstrap_overwrites_list req now m s svid proposal entries bytes old :
  lc_policy cfg = PolicyBootstrapOnly → check_proposal (cm_revs (lm_node m)) req now = Ok (svid, proposal, entries) →
  mode_current (lg_world s) = AllowlistCompile.Legacy → w_legacy (lg_world s) !! pd_host_uuid proposal = Some old →
  signed_body entries now (sat_i64 (now + lc_allowlist_ttl_secs cfg)) bytes →
  (∃ tr s', exec true (propose_allowlist req now) tr (Some (Ok (adopted_at now))) ∧ chained s tr s' ∧
     w_legacy (lg_world s') !! pd_host_uuid proposal = Some bytes) ∧
  (∀ s0, mode_current (lg_world s0) = AllowlistCompile.Legacy → w_legacy (lg_world s0) !! pd_host_uuid proposal = None →
     ∃ t1 t2 s1, exec false (propose_allowlist req now) (t1 ++ StoreEv s s1 :: t2) (Some (Ok (adopted_at now))) ∧
       chained s0 t1 s0 ∧ w_legacy (lg_world s1) !! pd_host_uuid proposal = Some bytes) ∧
  (∀ tr r s', exec false (propose_allowlist req now) tr r → chained s tr s' →
     w_legacy (lg_world s') !! pd_host_uuid proposal = Some old).
Proof.
  intros Hp Hc Hm Hold Hb. split_and!.
  - exists (adoption (pd_host_uuid proposal) entries bytes m s s now). eexists. split; [|split].
    + eapply (adoption_runs true _ _ _ _ _ _ _ _ _ (Err (Store "")) Hp Hc Hm (legacy_mode_open s Hm) Hb); [|done].
      right. split; [done|]. split; [by eexists|by left].
    + cbn. repeat split.
    + cbn. apply lookup_insert_eq.
  - intros s0 Hm0 Hn. set (s1 := set_bodies <[pd_host_uuid proposal := bytes]> s).
    exists [MemEv m m; StoreEv s0 s0; StoreEv s0 s0; DrewEv]. eexists _, s1. split_and!; [|done|cbn; apply lookup_insert_eq].
    refine (adoption_runs false _ _ _ s0 _ _ _ _ _ (Ok None) Hp Hc Hm0 (legacy_mode_open s Hm) Hb _ eq_refl).
    left. cbn. unfold fetch_allowlist_consistent. by rewrite Hn.
  - intros tr r s' He Hch. rewrite <- Hold. apply (f_equal (.!! pd_host_uuid proposal)).
    apply (bootstrap_alone_keeps req now tr r s s' (pd_host_uuid proposal) old Hp); [|done..].
    intros revs svid' proposal' entries' Hc'. apply check_proposal_ok in Hc as [d Hd], Hc' as [d' Hd'].
    pose proof (pe_decoded _ _ _ _ _ _ _ Hd). pose proof (pe_decoded _ _ _ _ _ _ _ Hd'). congruence.
Qed.

(** ** Bodies of the first format compiled from approvals *)

Lemma elem_of_dedup e l : e ∈ dedup l ↔ e ∈ l.
Proof.
  induction l as [|x l IH]; [done|]. cbn. destruct l as [|y l]; [done|]. case_bool_decide as E; [|rewrite !elem_of_cons, IH, elem_of_cons; done].
  subst. rewrite IH, !elem_of_cons. naive_solver.
Qed.
Lemma elem_of_compile_v1 e live na : e ∈ compile_v1 live na → ∃ l, l ∈ live ∧ v1_entry l na = Some e.
Proof.
  unfold compile_v1. rewrite elem_of_dedup, sort_by_Permutation. intros (l & Hl & He)%list_elem_of_omap. by exists l.
Qed.

(** What the v1 entry of an approval admits before [not_after], its v2 entry admits. *)
Context (to_uppercase : Z → list Z) (platform : Platform).
Lemma v1_entry_safe host l na e caller t id : v1_entry l na = Some e → v1_admits hex_decode e caller → t < na →
  parse_uuid (a_approval_id (la_approval l)) = Some id →
  ∃ e2, entry_of P parse_uuid host l = Some e2 ∧ v2_admits P hex_decode to_uppercase platform host e2 caller t.
Proof.
  unfold v1_entry. case_bool_decide as Hpm; cbn [negb]; [|done]. destruct (match _ with Some _ => _ | None => _ end) eqn:Ex; [done|].
  destruct (v1_uid (la_approval l)) as [uid|] eqn:Eu; [|done]. cbn. intros [= <-] [Hb Hu] Ht Hid. cbn in Hb, Hu.
  assert (entry_user P host (la_approval l) = Some (uid, None)) as Huser.
  { unfold v1_uid in Eu. unfold entry_user, is_. case_bool_decide.
    - destruct (a_uid _) as [u|]; cbn in *; [|by simplify_eq]. destruct (u32_try_from u); naive_solver.
    - destruct (a_user_scope _), (a_user_kind _) as [[]|]; try done; cbn; [|by simplify_eq..].
      destruct (a_uid _) as [u|]; cbn in *; [|done]. destruct (u32_try_from u); naive_solver. }
  unfold entry_of. rewrite Hid. cbn. rewrite Huser. cbn. unfold entry_path. rewrite Hpm. cbn. eexists. split; [done|].
  split; cbn; [done|done| |done|done]. intros t' Ht'. rewrite Ht' in Ex. apply Z.ltb_ge in Ex. lia.
Qed.

Lemma signed_body_decodes `{!AllowlistCborLaws} entries now na bytes : signed_body entries now na bytes →
  decode_live_doc bytes = Some {| doc_trust_domain := iss_trust_domain P issuer; doc_issued_at := now; doc_not_after := na; doc_entries := entries |}.
Proof.
  intros (rng & signed & Hs & He). unfold issuer_sign_allowlist, allowlist_sign in Hs. inv_ok Hs. injection Hs as <-.
  unfold decode_live_doc, allowlist_decode, allowlist_decode_body. apply map_err_ok in He.
  rewrite (from_into _ _ He). cbn [map_err sa_body]. by rewrite (from_into _ _ E).
Qed.
Lemma texec_try_ok faults {E A B} (p : task (result E A)) (f : A → task (result E B)) tr b :
  exec faults (ttry p f) tr (Some (Ok b)) → ∃ a t1 t2, tr = t1 ++ t2 ∧ exec faults p t1 (Some (Ok a)) ∧ exec faults (f a) t2 (Some (Ok b)).
Proof.
  intros [[? _]|([a|e] & t1 & t2 & -> & H1 & H2)]%texec_bind; [done|by exists a, t1, t2|]. by destruct H2 as [_ [?|?]].
Qed.
Lemma exec_status faults {X} (f : LegacyState → X) t a : exec faults (or_status (query f)) t (Some (Ok a)) → ∃ s, t = [StoreEv s s] ∧ a = f s.
Proof.
  intros [[? _]|(r & t1 & t2 & -> & H1 & H2)]%texec_bind; [done|]. destruct H2 as [-> [H2|?]]; [|done].
  apply exec_query in H1 as (s & -> & Hr). exists s. split; [done|]. destruct Hr as [->|(_ & e & ->)]; by simplify_eq/=.
Qed.

(** The cache holds bodies the issuer signed for the entries and time noted with them. *)
Definition cache_good (m : LegacyMem) : Prop :=
  ∀ h c, lm_v1 m !! h = Some c →
    signed_body (cv_entries c) (cv_issued_at c) (sat_i64 (cv_issued_at c + lc_allowlist_ttl_secs cfg)) (cv_signed c).
Lemma v1_put_good host entries now bytes m : cache_good m →
  signed_body entries now (sat_i64 (now + lc_allowlist_ttl_secs cfg)) bytes → cache_good (v1_put host entries now bytes m).1.
Proof.
  intros Hm Hb h c. cbn. intros [[<- <-]|[_ Hc]]%lookup_insert_Some; [done|].
  destruct (_ && _); [by rewrite lookup_empty in Hc|by apply Hm in Hc].
Qed.

Lemma v1_get_good host entries now half_life m body : cache_good m → (v1_get host entries now half_life m).2 = Some body →
  ∃ issued_at, issued_at ≤ now ≤ issued_at + half_life ∧
    signed_body entries issued_at (sat_i64 (issued_at + lc_allowlist_ttl_secs cfg)) body.
Proof.
  intros Hm. cbn. destruct (lm_v1 m !! host) as [c|] eqn:Ec; [|done]. cbn. case_bool_decide as Ee; cbn; [|done].
  destruct (Z.leb_spec (cv_issued_at c) now); cbn; [|done]. destruct (Z.leb_spec (now - cv_issued_at c) half_life); cbn; [|done].
  intros [= <-]. exists (cv_issued_at c). split; [lia|]. rewrite <- Ee. by apply Hm in Ec.
Qed.
Lemma exec_sign faults entries now na s1 s2 t bytes : exec faults (sign_body P issuer entries now na s1 s2) t (Some (Ok bytes)) →
  t = [DrewEv] ∧ signed_body entries now na bytes.
Proof.
  intros [[_ ?]|(rng & tr' & -> & -> & [[= Hb]|?])]; [done| |done]. split; [done|].
  destruct (issuer_sign_allowlist _ _ _ _ _ _) as [signed|] eqn:Es; [|done]. symmetry in Hb. apply map_err_ok in Hb. by exists rng, signed.
Qed.
Lemma exec_mem faults {X} (op : LegacyMem → LegacyMem * X) t x : exec faults (mem op) t (Some x) → ∃ m, t = [MemEv m (op m).1] ∧ x = (op m).2.
Proof. intros [[_ ?]|(m & tr' & -> & -> & [[= ->]|?])]; [done| |done]. by exists m. Qed.

(** Membership in a trace written out, and the events it can be. *)
Ltac in_trace := cbn [app v1_get fst]; repeat first [apply list_elem_of_here | apply list_elem_of_further].
Ltac not_in_trace H :=
  cbn [app v1_get fst] in H; repeat (apply elem_of_cons in H as [H|H]; [simplify_eq; try done|]); try by apply elem_of_nil in H.

(** What serving a v1 body in approvals mode ends with: a body of the entries compiled from the
    approvals it read, from the cache or fresh. *)
Lemma v1_serve_body host now tr bytes : (∀ b a, MemEv b a ∈ tr → cache_good b) →
  exec true (v1_serve P issuer cfg parse_uuid uuid_text host now) tr (Some (Ok bytes)) → bytes ≠ [] →
  (∀ b a, MemEv b a ∈ tr → cache_good a) ∧
  ∃ s issued_at, StoreEv s s ∈ tr ∧ issued_at ≤ now ≤ issued_at + Z.max 0 (Z.quot (lc_allowlist_ttl_secs cfg) 2) ∧
    signed_body (compile_v1 (app_live_approvals host now (db_of s)) (sat_i64 (now + lc_allowlist_ttl_secs cfg))) issued_at
      (sat_i64 (issued_at + lc_allowlist_ttl_secs cfg)) bytes.
Proof.
  intros Hg He Hne. unfold v1_serve in He. destruct (_ <? _)%nat; [by destruct He as [_ [?|?]]|].
  destruct (negb (bool_decide _)); [by destruct He as [_ [[= ->]|?]]|].
  apply texec_try_ok in He as (known & t1 & t2 & -> & H1 & He). apply exec_status in H1 as (s0 & -> & _).
  destruct (negb known); [by destruct He as [_ [[= ->]|?]]|].
  apply texec_try_ok in He as (live & t1 & t3 & -> & H1 & He). apply exec_status in H1 as (s & -> & ->).
  cbv zeta in He. set (es := compile_v1 _ _) in *. apply texec_bind in He as [[? _]|(hit & t1 & t4 & -> & H1 & He)]; [done|].
  apply exec_mem in H1 as (m & -> & Hit). assert (cache_good m) as Hm by (apply (Hg m m); in_trace).
  destruct hit as [body|].
  - destruct He as [-> [[= ->]|?]]; [|done]. destruct (v1_get_good _ _ _ _ _ _ Hm (eq_sym Hit)) as (i & Hi & Hb).
    split; [|exists s, i; split; [in_trace|]; split; [lia|done]].
    intros b a Hin. not_in_trace Hin.
  - apply texec_try_ok in He as (bytes' & t1 & t5 & -> & H1 & He). apply exec_sign in H1 as [-> Hb].
    apply texec_bind in He as [[? _]|(u & t1 & t6 & -> & H1 & He)]; [done|]. destruct He as [-> [[= ->]|?]]; [|done].
    apply exec_mem in H1 as (m' & -> & _). assert (cache_good m') as Hm' by (apply (Hg m' (v1_put host es now bytes' m').1); in_trace).
    split; [|exists s, now; split; [in_trace|]; split; [lia|done]].
    pose proof (v1_put_good host es now bytes' m' Hm' Hb) as Hp. revert Hp. generalize (v1_put host es now bytes' m').1.
    intros m2 Hp b a Hin. not_in_trace Hin.
Qed.

(** C24: a v1 body served in approvals mode, fresh or from the cache, admits no caller the host's
    approvals do not admit: it was signed at most half a lifetime ago, and before its end each
    of its entries admits only callers that the v2 entry of a live approval of the host admits
    at the same moment, path, user and expiry included.  The cache keeps holding such bodies. *)
Theorem v1_body_lossy_safe `{!AllowlistCborLaws} host now tr bytes : (∀ b a, MemEv b a ∈ tr → cache_good b) →
  exec true (v1_serve P issuer cfg parse_uuid uuid_text host now) tr (Some (Ok bytes)) → bytes ≠ [] →
  (∀ b a, MemEv b a ∈ tr → cache_good a) ∧
  ∃ s doc, StoreEv s s ∈ tr ∧ decode_live_doc bytes = Some doc ∧
    doc_issued_at doc ≤ now ≤ doc_issued_at doc + Z.max 0 (Z.quot (lc_allowlist_ttl_secs cfg) 2) ∧
    ∀ e caller t, e ∈ doc_entries doc → v1_admits hex_decode e caller → t < doc_not_after doc →
      ∃ live, live ∈ app_live_approvals host now (db_of s) ∧
        ∀ id, parse_uuid (a_approval_id (la_approval live)) = Some id →
          ∃ e2, entry_of P parse_uuid host live = Some e2 ∧ v2_admits P hex_decode to_uppercase platform host e2 caller t.
Proof.
  intros Hg He Hne. destruct (v1_serve_body host now tr bytes Hg He Hne) as (Hg' & s & i & Hs & Hi & Hb). split; [done|].
  exists s. eexists. split; [done|]. split; [by apply signed_body_decodes|]. split; [done|]. cbn.
  intros e caller t (l & Hl & Hle)%elem_of_compile_v1 Ha Ht. exists l. split; [done|]. intros id Hid.
  eapply v1_entry_safe; [done|done| |done]. pose proof (sat_i64_le (i + lc_allowlist_ttl_secs cfg) (now + lc_allowlist_ttl_secs cfg)). lia.
Qed.
End LegacyTheorems.
