(* ===== verification/LegacyImport.v ===== *)
(** What the import of a legacy allowlist (AppImport.v) writes, and that the switch from the
    legacy body to the imported approvals admits the same callers. *)
From stdpp Require Import gmap.
From S2P Require Import Prelude AppModel AppDedup Order AppSchema AppInvariants AppLedger AppOps AppImport AppProofs AppTheorems AppOpTheorems Composite AllowlistV2 AllowlistCompile AppPath MiaAllowlist.
Open Scope Z_scope.

Section ImportProofs.
Context (sha256 : list u8 → list u8) (to_cbor : ApprovalSnapshot → result LedgerError (list u8)).
Local Abbreviation legacy_approval := (legacy_approval sha256).
Local Abbreviation legacy_approval_id := (legacy_approval_id sha256).
Local Abbreviation import_attempt := (import_attempt sha256 to_cbor).
Local Abbreviation to_create := (to_create sha256).

Definition insert_rows (m : gmap string ApprovalRow) (rows : list ApprovalRow) : gmap string ApprovalRow :=
  foldl (λ m a, <[a_approval_id a := a]> m) m rows.
Definition is_import (h : string) (now : Z) (a : ApprovalRow) : Prop := ∃ e, a = legacy_approval h e now.

Lemma insert_rows_lookup m rows k a : insert_rows m rows !! k = Some a → m !! k = Some a ∨ (a ∈ rows ∧ k = a_approval_id a).
Proof.
  revert m. induction rows as [|x rows IH]; intros m; cbn; [by left|]. intros [Hm|[Hin ->]]%IH.
  - apply lookup_insert_Some in Hm as [[<- <-]|[_ Hm]]; [right; split; [left|done]|by left].
  - right. split; [by right|done].
Qed.
Lemma create_run h admin now rows stmts d d' : Forall (is_import h now) rows →
  create_stmts sha256 to_cbor admin now rows = Ok stmts → run stmts d = Ok d' →
  approvals d' = insert_rows (approvals d) rows ∧
  (∀ k a, approvals d !! k = Some a → approvals d' !! k = Some a) ∧ (∀ a, a ∈ rows → approvals d !! a_approval_id a = None ∧ approvals d' !! a_approval_id a = Some a).
Proof.
  revert stmts d. induction rows as [|x rows IH]; intros stmts d Hf; cbn; [intros [= <-] [= <-]; split; [done|]; split; [done|]; by intros a []%elem_of_nil|].
  apply Forall_cons in Hf as [[e ->] Hf]. destruct (snapshot_cbor _ _ _) as [cbor|]; [|done].
  destruct (create_stmts _ _ _ _ rows) as [rest|]; [|done]. intros [= <-].
  intros (d1 & [-> _]%guard_Ok & (d2 & (-> & _ & _ & _ & _ & _ & Hn & _)%insert_approval_Ok & (d3 & (-> & _)%insert_revision_Ok & Hr)%run_cons)%run_cons)%run_cons.
  destruct (IH rest _ Hf eq_refl Hr) as (Happ & Hkeep & Hnew). cbn in Happ, Hkeep, Hnew, Hn. split; [done|]. split.
  - intros k a Hk. apply Hkeep. rewrite lookup_insert_ne; [done|congruence].
  - intros a [->|Hin]%elem_of_cons; [split; [done|]; apply Hkeep; by rewrite lookup_insert_eq|].
    destruct (Hnew a Hin) as [Ha Ha']. split; [|done]. by apply lookup_insert_None in Ha as [? _].
Qed.

Lemma unique_entries_elem h es x : x ∈ unique_entries sha256 h es → x.2 ∈ es ∧ x.1 = legacy_approval_id h x.2.
Proof.
  unfold unique_entries. rewrite sort_by_Permutation. destruct x as [k e]. intros Hx%elem_of_map_to_list. cbn.
  revert k e Hx. induction es as [|e' es IH] using rev_ind; intros k e; cbn; [by rewrite lookup_empty|].
  rewrite foldl_app. cbn. intros [[<- <-]|[_ Hm]]%lookup_insert_Some; [split; [set_solver|done]|].
  destruct (IH k e Hm). split; [set_solver|done].
Qed.
Lemma unique_entries_covers h es e : e ∈ es → ∃ e', (legacy_approval_id h e, e') ∈ unique_entries sha256 h es.
Proof.
  intros He. unfold unique_entries. setoid_rewrite sort_by_Permutation. setoid_rewrite elem_of_map_to_list.
  induction es as [|e' es IH] using rev_ind; [by apply elem_of_nil in He|]. rewrite foldl_app. cbn.
  destruct (decide (legacy_approval_id h e' = legacy_approval_id h e)) as [E|E]; [exists e'; rewrite E; apply lookup_insert_eq|].
  apply elem_of_app in He as [He|He%list_elem_of_singleton]; [|congruence]. destruct (IH He) as [x Hx]. exists x. by rewrite lookup_insert_ne.
Qed.
Lemma to_create_elem h es now ex a : (a ∈ to_create h es now ex) ↔
  ∃ x, (x ∈ unique_entries sha256 h es) ∧ ¬ (x.1 ∈ ex) ∧ a = legacy_approval h x.2 now.
Proof.
  unfold AppImport.to_create. rewrite list_elem_of_omap. split.
  - intros (x & Hx & Ha). case_bool_decide; [done|]. injection Ha as <-. by exists x.
  - intros (x & Hx & Hn & ->). exists x. split; [done|]. by rewrite bool_decide_eq_false_2.
Qed.

(** An import that succeeds changed no approval there was, revoked and expired ones included,
    and added exactly the ones it reports: fresh, active, one for each id of the entries not
    imported before. *)
Theorem import_correct h es admin now m rd d d' imp : import_attempt h es admin now m rd d = (d', Some (Ok imp)) →
  (∀ k a, approvals d !! k = Some a → approvals d' !! k = Some a) ∧
  (∀ k a, approvals d' !! k = Some a → approvals d !! k = Some a ∨ (a ∈ li_created imp ∧ k = a_approval_id a)) ∧
  (∀ a, a ∈ li_created imp → approvals d !! a_approval_id a = None ∧ approvals d' !! a_approval_id a = Some a ∧
     ∃ e, e ∈ es ∧ a = legacy_approval h e now) ∧
  (∀ e, e ∈ es → legacy_approval_id h e ∈ legacy_import_ids h rd ∨ ∃ a, a ∈ li_created imp ∧ a_approval_id a = legacy_approval_id h e).
Proof.
  unfold AppImport.import_attempt. set (ex := legacy_import_ids h rd). set (rows := to_create h es now ex).
  assert (∀ a, a ∈ rows → ∃ e, e ∈ es ∧ a = legacy_approval h e now) as Hfrom.
  { intros a (x & [Hx _]%unique_entries_elem & _ & ->)%to_create_elem. by exists x.2. }
  assert (∀ e, e ∈ es → legacy_approval_id h e ∈ ex ∨ ∃ a, a ∈ rows ∧ a_approval_id a = legacy_approval_id h e) as Hall.
  { intros e [e' He']%(unique_entries_covers h). destruct (decide (legacy_approval_id h e ∈ ex)); [by left|right].
    exists (legacy_approval h e' now). split; [apply to_create_elem; by eexists|].
    apply unique_entries_elem in He' as [_ He']. cbn in He'. done. }
  intros H. assert (run_ok : li_created imp = rows ∧ ∃ d1 stmts, create_stmts sha256 to_cbor admin now rows = Ok stmts ∧
    run stmts d = Ok d1 ∧ approvals d' = approvals d1).
  { destruct rows as [|a rows'] eqn:Er; [injection H as <- <-; split; [done|]; by exists d, []|].
    unfold import_stmts in H. destruct (create_stmts _ _ _ _ _) as [stmts|] eqn:Ec; [|done].
    destruct (ledger_txn _ d) as [d2 [[|c]|]] eqn:Et; [|by destruct (String.eqb c "stale")|done].
    injection H as <- <-. split; [done|]. apply ledger_txn_Committed, run_app in Et as (d1 & Hr & (d3 & Hb & [= <-])%run_cons).
    exists d1, stmts. split; [done|]. split; [done|]. unfold bump_generation_stmt in Hb.
    destruct (hosts d1 !! h); [by apply update_host_Ok in Hb as (-> & _)|by apply insert_host_Ok in Hb as (-> & _)]. }
  destruct run_ok as (Hli & d1 & stmts & Hc & Hr & Ha). rewrite Ha, Hli.
  assert (Forall (is_import h now) rows) as Hf by (apply Forall_forall; intros a (e & _ & ->)%Hfrom; by exists e).
  destruct (create_run h admin now rows stmts d d1 Hf Hc Hr) as (Happ & Hkeep & Hnew). split; [done|]. split; [|split; [|done]].
  - intros k a. rewrite Happ. apply insert_rows_lookup.
  - intros a Hin. destruct (Hnew a Hin). auto.
Qed.
End ImportProofs.

(** ** The switch to approvals *)
Section Switch.
Context (P : Primitives) `{CB : !AllowlistCbor} (to_cbor : ApprovalSnapshot → result LedgerError (list u8)).
Context (parse_uuid : string → option (list u8)) (hex_decode : string → option (list u8)).
Context (to_uppercase : Z → list Z) (platform : Platform).
Local Abbreviation sha := (λ b, vec_to_list (sha256 P b)).
Local Abbreviation id_of := (legacy_approval_id sha).
Local Abbreviation admits := (v2_admits P hex_decode to_uppercase platform).

(** The entries to import of a v1 body. *)
Definition import_entries (es : list AllowEntry) : list LegacyEntry := (λ e, {| le_uid := e_uid e; le_bin_sha := e_bin_sha e |}) <$> es.

Lemma validate_Forall vs : AppOps.validate vs = Ok tt → Forall (λ v, v = Ok tt) vs.
Proof. induction vs as [|[[]|] vs IH]; cbn; [done| |done]. intros H. constructor; [done|by apply IH]. Qed.
Lemma valid_uid e u : valid_entry e = Ok tt → le_uid e = Some u → u32_try_from u = Some u.
Proof.
  unfold valid_entry, AppOps.require, u32_try_from. intros Hv Hu. rewrite Hu in Hv. destruct (_ || _); [|done].
  destruct (_ && _); done.
Qed.
(** The v2 entry of an imported approval is the one the legacy body compiles to, but for its id. *)
Lemma entry_of_import h e now l id : valid_entry e = Ok tt → la_approval l = legacy_approval sha h e now → parse_uuid (id_of h e) = Some id →
  entry_of P parse_uuid h l = Some {| ev_approval_id := id; ev_bin_sha := le_bin_sha e; ev_uid := le_uid e; ev_user_sid_hash := None;
                                      ev_path_hash := None; ev_expires_at := None |}.
Proof.
  intros Hv Hl Hid. unfold entry_of. rewrite Hl. cbn [a_approval_id legacy_approval]. rewrite Hid. cbn.
  unfold entry_user, entry_path. cbn [a_origin a_uid legacy_approval is_]. rewrite Hl. cbn.
  destruct (le_uid e) as [u|] eqn:Eu; cbn; [by rewrite (valid_uid e u Hv Eu)|done].
Qed.
Lemma admits_same_entry h e e' caller t : ev_bin_sha e = ev_bin_sha e' → ev_uid e = ev_uid e' → ev_user_sid_hash e = ev_user_sid_hash e' →
  ev_path_hash e = ev_path_hash e' → ev_expires_at e = ev_expires_at e' → admits h e caller t → admits h e' caller t.
Proof. intros E1 E2 E3 E4 E5 [H1 H2 H3 H4 H5]. rewrite E1 in H1. rewrite E2 in H2. rewrite E5 in H3. rewrite E3 in H4. rewrite E4 in H5. by split. Qed.

Lemma live_import h now t d a l : (∀ k x, approvals d !! k = Some x → a_host_uuid x = h → ∃ e, x = legacy_approval sha h e now) →
  l ∈ app_live_approvals h t d → la_approval l = a → ∃ k e, approvals d !! k = Some a ∧ a = legacy_approval sha h e now.
Proof.
  intros Honly (x & -> & Hx)%list_elem_of_fmap <-. cbn. rewrite sort_by_Permutation in Hx.
  apply list_elem_of_fmap in Hx as ([k y] & -> & Hx). unfold rows_where in Hx. apply list_elem_of_In, filter_In in Hx as [Hx Hp].
  apply list_elem_of_In, elem_of_map_to_list in Hx. cbn in *. unfold live_row, is_ in Hp.
  apply andb_true_iff in Hp as [[Hh _]%andb_true_iff _]. apply bool_decide_eq_true in Hh. destruct (Honly k y Hx Hh) as [e ->]. eauto.
Qed.
Lemma import_live h e now t d k : approvals d !! k = Some (legacy_approval sha h e now) →
  ∃ l, l ∈ app_live_approvals h t d ∧ la_approval l = legacy_approval sha h e now.
Proof.
  intros Hk. exists (live_approval d (legacy_approval sha h e now)). split; [|done]. apply list_elem_of_fmap_2. rewrite sort_by_Permutation.
  apply list_elem_of_fmap. exists (k, legacy_approval sha h e now). split; [done|]. unfold rows_where.
  apply list_elem_of_In, filter_In. split; [by apply list_elem_of_In, elem_of_map_to_list|]. cbn. unfold live_row. cbn.
  unfold is_. by rewrite bool_decide_eq_true_2.
Qed.

(** C18: switching a host from its legacy body to the imported approvals changes nothing for its
    callers: after one import of the valid entries of the body into a ledger that had no
    approvals of the host, the v2 list compiled from the approvals admits a caller at any
    moment exactly when the one compiled from the legacy body does. *)
Theorem import_preserves_admissions h stored doc admin now m rd d d' imp entries :
  compile_legacy stored = Ok entries → (let? s := allowlist_decode stored in allowlist_decode_body (sa_body s)) = Ok doc →
  validate_import h (import_entries (doc_entries doc)) admin = Ok tt →
  (∀ k a, approvals d !! k = Some a → a_host_uuid a ≠ h) → legacy_import_ids h rd = ∅ →
  (∀ e e', e ∈ import_entries (doc_entries doc) → e' ∈ import_entries (doc_entries doc) → id_of h e = id_of h e' → e = e') →
  (∀ e, e ∈ import_entries (doc_entries doc) → is_Some (parse_uuid (id_of h e))) →
  import_attempt sha to_cbor h (import_entries (doc_entries doc)) admin now m rd d = (d', Some (Ok imp)) →
  ∀ caller t t0, (∃ e, e ∈ entries ∧ admits h e caller t) ↔
    (∃ e, e ∈ compile_approvals P parse_uuid h (app_live_approvals h t0 d') ∧ admits h e caller t).
Proof.
  intros Hcl Hdoc Hv Hnone Hrd Hinj Huuid Hi caller t t0. unfold compile_legacy in Hcl. rewrite Hdoc in Hcl. injection Hcl as <-.
  assert (Forall (λ e, valid_entry e = Ok tt) (import_entries (doc_entries doc))) as Hval.
  { unfold validate_import in Hv. inv_ok Hv. apply validate_Forall in Hv. by rewrite Forall_fmap in Hv. }
  rewrite Forall_forall in Hval. destruct (import_correct _ _ _ _ _ _ _ _ _ _ _ Hi) as (_ & Hfrom & Hnew & Hall).
  assert (∀ k x, approvals d' !! k = Some x → a_host_uuid x = h → ∃ e, e ∈ import_entries (doc_entries doc) ∧ x = legacy_approval sha h e now) as Honly.
  { intros k x Hx Hh. destruct (Hfrom k x Hx) as [Hx'|[Hin _]]; [by apply Hnone in Hx'|]. by destruct (Hnew x Hin) as (_ & _ & ?). }
  unfold compile_approvals. setoid_rewrite elem_of_sort_entries. split.
  - intros (e2 & (e & -> & He)%list_elem_of_fmap & Ha). set (le := {| le_uid := e_uid e; le_bin_sha := e_bin_sha e |}).
    assert (le ∈ import_entries (doc_entries doc)) as Hle by (apply list_elem_of_fmap; by exists e).
    destruct (Hall le Hle) as [Hx|(a & Ha1 & Ha2)]; [rewrite Hrd in Hx; by apply elem_of_empty in Hx|].
    destruct (Hnew a Ha1) as (_ & Hk & e' & He' & ->). rewrite (Hinj e' le He' Hle Ha2) in Hk.
    destruct (import_live h le now t0 d' _ Hk) as (l & Hl & El). destruct (Huuid le Hle) as [id Hid].
    eexists. split; [apply list_elem_of_omap; exists l; split; [done|exact (entry_of_import h le now l id (Hval le Hle) El Hid)]|].
    by eapply admits_same_entry; [..|exact Ha].
  - intros (e2 & (l & Hl & El)%list_elem_of_omap & Ha).
    destruct (live_import h now t0 d' _ l ltac:(intros k x Hx Hh; destruct (Honly k x Hx Hh) as (e & _ & ->); by exists e) Hl eq_refl) as (k & e0 & Hk & E0).
    destruct (Honly k _ Hk ltac:(by rewrite E0)) as (le & Hle & E1). destruct (Huuid le Hle) as [id Hid].
    rewrite (entry_of_import h le now l id (Hval le Hle) E1 Hid) in El. injection El as <-.
    apply list_elem_of_fmap in Hle as (e & -> & He). exists (legacy_entry e). split; [by apply list_elem_of_fmap_2|].
    by eapply admits_same_entry; [..|exact Ha].
Qed.
End Switch.
