(* ===== verification/LegacyWitnesses.v ===== *)
(** The theorems on the first format applied to one node and one host: a proposal, an operator's
    list, an import and the body served from it. *)
From stdpp Require Import gmap.
From S2P Require Import Prelude AppModel AppDedup Order AppSchema AppInvariants AppLedger AppOps AppImport AppProofs AppSample Composite AllowlistV2 AllowlistCompile AppPath MiaAllowlist HostCache Svid HostAuth HostWitnesses HelperProto CallerAuth Rim Attest Fleet AttestWitnesses CmisState CmisService CmisExec CmisNode LegacyAllowlist LegacyProofs LegacyImport.
Open Scope Z_scope.

(** ** Running a task with every call answered *)
Fixpoint perform {A} (p : task A) (m : LegacyMem) (s : LegacyState) : list legacy_event * A * LegacyState :=
  match p with
  | Return a => ([], a, s)
  | OnMem op k => let '(tr, a, s') := perform (k (op m).2) (op m).1 s in (MemEv m (op m).1 :: tr, a, s')
  | OnStore op k => let '(tr, a, s') := perform (k (op s).2) m (op s).1 in (StoreEv s (op s).1 :: tr, a, s')
  | Log e _ k => let '(tr, a, s') := perform k m s in (LogEv e :: tr, a, s')
  | FreshId k => let '(tr, a, s') := perform (k "id") m s in (DrewEv :: tr, a, s')
  | Random k => let '(tr, a, s') := perform (k (Ok [])) m s in (DrewEv :: tr, a, s')
  end.
Lemma perform_exec {A} (p : task A) m s : LegacyProofs.exec true p (perform p m s).1.1 (Some (perform p m s).1.2).
Proof.
  revert m s. induction p as [a|X op k IH|X op k IH|e n k IH|k IH|k IH]; intros m s; cbn [perform LegacyProofs.exec].
  - auto.
  - right. specialize (IH (op m).2 (op m).1 s). destruct (perform _ _ _) as [[tr a] s']. exists m, tr. done.
  - right. specialize (IH (op s).2 m (op s).1). destruct (perform _ _ _) as [[tr a] s']. exists s, (op s).2, (op s).1, tr. split; [by left|done].
  - right. specialize (IH m s). destruct (perform _ _ _) as [[tr a] s']. exists tr. done.
  - right. specialize (IH "id" m s). destruct (perform _ _ _) as [[tr a] s']. exists "id", tr. done.
  - right. specialize (IH (Ok []) m s). destruct (perform _ _ _) as [[tr a] s']. exists (Ok []), tr. done.
Qed.

(** ** The node and the proposal *)
#[export] Instance entries_cbor : Cbor (list AllowEntry) := toy_codec.
Definition leg_cfg : LegacyConfig :=
  {| lc_allowlist_ttl_secs := 3600; lc_policy := PolicyBootstrapOnly; lc_legacy_get_allowlist := true; lc_max_pending_per_host := 10;
     lc_max_pending_per_user := 5; lc_pending_ttl_secs := 600; lc_denied_cooldown_secs := 0 |}.
Definition leg_uuid (s : string) : option (list u8) := Some (as_bytes s).
Definition leg_mem : LegacyMem := {|
  lm_node := cmis_new toy_primitives {| cf_svid_ttl_secs := 3600; cf_policy_epoch := 1; cf_require_preregistered_host_key := true;
    cf_host_key_svid_ttl_secs := None; cf_host_calls := default_host_call_config |} host_issuer; lm_v1 := ∅ |}.
Definition leg_proposal : list u8 :=
  match into_writer {| pd_host_uuid := default "" (host_of_sub host_id); pd_issued_at := 1400; pd_entries := [{| e_uid := Some 1000; e_bin_sha := " *" |}] |} with
  | Ok b => b | Err _ => [] end.
Definition leg_request : ProposeAllowlistRequest :=
  {| pp_svid_jws := host_jws; pp_sep_pub := machine_key; pp_signed_proposal := leg_proposal;
     pp_proposal_sig := machine_sign (PROPOSAL_SIGNING_CONTEXT ++ leg_proposal) |}.
Abbreviation leg_check := (check_proposal toy_primitives toy_p256 host_issuer toy_hex_decode (cm_revs (lm_node leg_mem)) leg_request 1500).
Definition leg_world (bodies : gmap string (list u8)) : LegacyState :=
  {| lg_world := {| w_db := empty_db; w_settings := ∅; w_legacy := bodies; w_audit := [] |}; lg_proposals := ∅ |}.

Abbreviation leg_run := (perform (handle toy_primitives toy_p256 host_issuer leg_cfg leg_uuid toy_hex_decode bytes_string (LcPropose leg_request) 1500)
  leg_mem (leg_world ∅)).
Definition writes_body (tr : list legacy_event) : bool :=
  existsb (λ e, match e with StoreEv b a => negb (bool_decide (w_legacy (lg_world a) = w_legacy (lg_world b))) | _ => false end) tr.
Lemma writes_body_spec tr : writes_body tr = true → ∃ b a, StoreEv b a ∈ tr ∧ w_legacy (lg_world a) ≠ w_legacy (lg_world b).
Proof.
  intros (e & He & Hs)%existsb_exists. destruct e as [| b a| |]; try done. exists b, a. split; [by apply list_elem_of_In|].
  by apply negb_true_iff, bool_decide_eq_false in Hs.
Qed.
Lemma leg_ran : writes_body leg_run.1.1 = true.
Proof. vm_compute. reflexivity. Qed.
Lemma legacy_writes_accounted_witness :
  ∃ b a, StoreEv b a ∈ leg_run.1.1 ∧ w_legacy (lg_world a) ≠ w_legacy (lg_world b) ∧ legacy_open b ∧
    accounted toy_primitives toy_p256 host_issuer leg_cfg toy_hex_decode (memories leg_run.1.1) (LcPropose leg_request) 1500 b a.
Proof.
  destruct (writes_body_spec _ leg_ran) as (b & a & Hin & Hne). exists b, a. split; [exact Hin|]. split; [exact Hne|].
  destruct (legacy_writes_accounted toy_primitives toy_p256 host_issuer leg_cfg leg_uuid toy_hex_decode bytes_string (LcPropose leg_request) 1500
    _ _ b a (perform_exec _ leg_mem (leg_world ∅)) Hin) as (Ha & Ho & _). exact (conj (Ho Hne) Ha).
Defined.

(** ** Adoption over an existing list *)
Definition adoptable (r : result Status (HostSvid * ProposalDoc * list AllowEntry)) : bool :=
  match r with
  | Ok (_, _, es) =>
      match issuer_sign_allowlist toy_primitives host_issuer (Ok []) es 1500 5100 with
      | Ok signed => is_ok (allowlist_encode signed)
      | Err _ => false
      end
  | Err _ => false
  end.
Lemma leg_adoptable : adoptable leg_check = true.
Proof. vm_compute. reflexivity. Qed.
Lemma adoptable_spec r : adoptable r = true → ∃ svid proposal es bytes, r = Ok (svid, proposal, es) ∧
  signed_body toy_primitives host_issuer es 1500 5100 bytes.
Proof.
  destruct r as [[[svid proposal] es]|]; [|done]. unfold adoptable. destruct (issuer_sign_allowlist toy_primitives host_issuer (Ok []) es 1500 5100) as [signed|] eqn:Es; [|done].
  intros [bytes Hb]%is_ok_eq. exists svid, proposal, es, bytes. split; [done|]. by exists (Ok []), signed.
Qed.
Lemma bootstrap_overwrites_list_witness :
  ∃ s proposal bytes, w_legacy (lg_world s) !! pd_host_uuid proposal = Some [Byte.x00] ∧
    ∃ tr s', LegacyProofs.exec true (propose_allowlist toy_primitives toy_p256 host_issuer leg_cfg leg_uuid toy_hex_decode leg_request 1500) tr
        (Some (Ok (adopted_at leg_cfg 1500))) ∧ LegacyProofs.chained s tr s' ∧ w_legacy (lg_world s') !! pd_host_uuid proposal = Some bytes.
Proof.
  destruct (adoptable_spec _ leg_adoptable) as (svid & proposal & es & bytes & Hc & Hb).
  assert (w_legacy (lg_world (leg_world {[ pd_host_uuid proposal := [Byte.x00] ]})) !! pd_host_uuid proposal = Some [Byte.x00]) as Hold
    by (cbn; apply lookup_insert_eq).
  exists (leg_world {[ pd_host_uuid proposal := [Byte.x00] ]}), proposal, bytes. split; [exact Hold|].
  exact (proj1 (bootstrap_overwrites_list toy_primitives toy_p256 host_issuer leg_cfg leg_uuid toy_hex_decode leg_request 1500 leg_mem
    (leg_world {[ pd_host_uuid proposal := [Byte.x00] ]}) svid proposal es bytes [Byte.x00] eq_refl Hc eq_refl Hold Hb)).
Defined.

(** ** An import *)
Definition body_doc : AllowlistDoc :=
  {| doc_trust_domain := "t"; doc_issued_at := 1000; doc_not_after := 4600;
     doc_entries := [{| e_uid := Some 1000; e_bin_sha := sha_a |}; {| e_uid := Some 7; e_bin_sha := "*" |}] |}.
Definition body_bytes : list u8 :=
  match (let? signed := allowlist_sign toy_primitives body_doc toy_sk (Ok []) in allowlist_encode signed) with Ok b => b | Err _ => [] end.
Definition body_sha (b : list u8) : list u8 := vec_to_list (sha256 toy_primitives b).
Abbreviation imported := (import_attempt body_sha toy_cbor "h1" (import_entries (doc_entries body_doc)) "adm" 1500 1500000 empty_db empty_db).
Definition import_ok (r : AppSchema.Db * option (result LedgerError LegacyImport)) : bool :=
  match r.2 with Some (Ok imp) => (length (li_created imp) =? 2)%nat | _ => false end.
Lemma imported_ok : import_ok imported = true.
Proof. vm_compute. reflexivity. Qed.
Lemma body_decodes : (let? s := allowlist_decode body_bytes in allowlist_decode_body (sa_body s)) = Ok body_doc.
Proof. vm_compute. reflexivity. Qed.
Lemma body_valid : validate_import "h1" (import_entries (doc_entries body_doc)) "adm" = Ok tt.
Proof. vm_compute. reflexivity. Qed.
Lemma body_ids : bool_decide (NoDup (legacy_approval_id body_sha "h1" <$> import_entries (doc_entries body_doc))) = true.
Proof. vm_compute. reflexivity. Qed.
Lemma nodup_inj {A B} (f : A → B) l : NoDup (f <$> l) → ∀ x y, x ∈ l → y ∈ l → f x = f y → x = y.
Proof.
  induction l as [|z l IH]; intros Hn x y; [by intros []%elem_of_nil|]. cbn in Hn. apply NoDup_cons in Hn as [Hz Hn].
  intros [->|Hx]%elem_of_cons [->|Hy]%elem_of_cons E; [done|..|by apply IH].
  - destruct Hz. rewrite E. by apply list_elem_of_fmap_2.
  - destruct Hz. rewrite <- E. by apply list_elem_of_fmap_2.
Qed.
Lemma import_ok_spec r : import_ok r = true → ∃ d imp, r = (d, Some (Ok imp)).
Proof. destruct r as [d [[imp|]|]]; [|done..]. by exists d, imp. Qed.
Definition no_upper (c : Z) : list Z := [c].
Lemma import_preserves_admissions_witness :
  ∃ d imp entries, imported = (d, Some (Ok imp)) ∧ compile_legacy body_bytes = Ok entries ∧
    ∀ caller t t0, (∃ e, e ∈ entries ∧ v2_admits toy_primitives toy_hex_decode no_upper Linux "h1" e caller t) ↔
      (∃ e, e ∈ compile_approvals toy_primitives leg_uuid "h1" (app_live_approvals "h1" t0 d) ∧
        v2_admits toy_primitives toy_hex_decode no_upper Linux "h1" e caller t).
Proof.
  destruct (import_ok_spec _ imported_ok) as (d & imp & Hi).
  assert (compile_legacy body_bytes = Ok (sort_entries (legacy_entry <$> doc_entries body_doc))) as Hcl by (unfold compile_legacy; by rewrite body_decodes).
  exists d, imp, (sort_entries (legacy_entry <$> doc_entries body_doc)). split; [exact Hi|]. split; [exact Hcl|].
  refine (import_preserves_admissions toy_primitives toy_cbor leg_uuid toy_hex_decode no_upper Linux "h1" body_bytes body_doc "adm" 1500 1500000
    empty_db empty_db d imp _ Hcl body_decodes body_valid _ _ _ _ Hi).
  - intros k a Hk. cbn in Hk. by rewrite lookup_empty in Hk.
  - reflexivity.
  - apply nodup_inj. exact (proj1 (bool_decide_eq_true _) body_ids).
  - intros e _. by eexists.
Defined.

(** ** The v1 body of the imported host *)
Definition v1_world : LegacyState :=
  {| lg_world := {| w_db := imported.1; w_settings := {[ ALLOWLIST_MODE_KEY := "approvals" ]}; w_legacy := ∅; w_audit := [] |}; lg_proposals := ∅ |}.
Abbreviation v1_run := (perform (v1_serve toy_primitives host_issuer leg_cfg leg_uuid bytes_string "h1" 2000) leg_mem v1_world).
Definition serves (r : list legacy_event * result Status (list u8) * LegacyState) : bool :=
  match r.1.2 with
  | Ok bytes => match decode_live_doc bytes with Some doc => (length (doc_entries doc) =? 2)%nat | None => false end
  | Err _ => false
  end.
Lemma v1_ran : serves v1_run = true.
Proof. vm_compute. reflexivity. Qed.
Lemma served_bytes r : serves r = true → ∃ bytes, r.1.2 = Ok bytes ∧ bytes ≠ [].
Proof.
  unfold serves. destruct (r.1.2) as [bytes|]; [|done]. intros H. exists bytes. split; [done|]. intros ->. vm_compute in H. done.
Qed.
(** The memory it starts from has an empty cache, and its last step fills it. *)
Definition empty_caches (tr : list legacy_event) : bool :=
  forallb (λ e, match e with MemEv b _ => bool_decide (size (lm_v1 b) = 0%nat) | _ => true end) tr.
Lemma v1_caches : empty_caches v1_run.1.1 = true.
Proof. vm_compute. reflexivity. Qed.
Lemma empty_caches_good tr b a : empty_caches tr = true → MemEv b a ∈ tr → cache_good toy_primitives host_issuer leg_cfg b.
Proof.
  intros Ht Hin h c Hc. apply list_elem_of_In in Hin. pose proof (proj1 (forallb_forall _ _) Ht _ Hin) as H. cbn in H.
  apply bool_decide_eq_true, map_size_empty_inv in H. by rewrite H, lookup_empty in Hc.
Qed.
Lemma v1_body_lossy_safe_witness :
  ∃ bytes, LegacyProofs.exec true (v1_serve toy_primitives host_issuer leg_cfg leg_uuid bytes_string "h1" 2000) v1_run.1.1 (Some (Ok bytes)) ∧
    ∃ s doc, StoreEv s s ∈ v1_run.1.1 ∧ decode_live_doc bytes = Some doc ∧ doc_issued_at doc ≤ 2000 ≤ doc_issued_at doc + 1800 ∧
      ∀ e caller t, e ∈ doc_entries doc → v1_admits toy_hex_decode e caller → t < doc_not_after doc →
        ∃ live, live ∈ app_live_approvals "h1" 2000 (LegacyAllowlist.db_of s) ∧
          ∀ id, leg_uuid (a_approval_id (la_approval live)) = Some id →
            ∃ e2, entry_of toy_primitives leg_uuid "h1" live = Some e2 ∧ v2_admits toy_primitives toy_hex_decode no_upper Linux "h1" e2 caller t.
Proof.
  destruct (served_bytes _ v1_ran) as (bytes & Hb & Hne).
  pose proof (perform_exec (v1_serve toy_primitives host_issuer leg_cfg leg_uuid bytes_string "h1" 2000) leg_mem v1_world) as He.
  rewrite Hb in He. exists bytes. split; [exact He|].
  exact (proj2 (v1_body_lossy_safe toy_primitives host_issuer leg_cfg leg_uuid toy_hex_decode bytes_string no_upper Linux "h1" 2000 _ bytes
    (λ b a, empty_caches_good _ b a v1_caches) He Hne)).
Defined.
